(* ===== verification/_CoqProject ===== *)
-Q . S2P
Prelude.v
GoStrings.v
Strconv.v
Base64.v
Utf8.v
GoPath.v
TextTypes.v
Newlines.v
Codec.v
EditorConfig.v
Diff.v
Edit.v
Token.v
Policy.v
Replay.v
TransportAuth.v
Capability.v
Approval.v
PathMatch.v
Gitignore.v
Workspace.v
Scan.v
AtomicWrite.v
Sessions.v
Lifecycle.v
FileEdit.v
FileJob.v
Redact.v
RateLimit.v
Http.v
StrictJson.v
AuditLog.v
ApprovalView.v
ReviewParse.v
WorkspaceRegistry.v
WorkspaceRouter.v
Image.v
FileRead.v
FileWorker.v
ExecProfile.v
ExecCapability.v
ExecServer.v
ExecTable.v
ExecMemory.v
NetPolicy.v
Tools.v
Calls.v
External.v
NetJob.v
NetService.v
CredentialStore.v
RemoteJob.v
RemoteService.v
BridgeText.v
Bridge.v
Gateway.v
Approve.v
Endpoint.v
FileExecutor.v
GatewaySafety.v
HttpSafety.v
HttpLifecycle.v
