(* ===== verification/Prelude.v ===== *)
(** * A verification of the remote agent

    The repository is a gateway through which a client works on files and processes of another
    machine. A client speaks MCP over HTTP to the gateway ([src/internal/gateway]); the gateway
    authenticates it, decides by policy, asks for approvals, writes an audit log and sends jobs,
    each with a signed capability, to workers that run in processes of their own: one for files
    ([internal/fileworker], over [internal/workspace] and [internal/textfile]), one for HTTP
    requests ([internal/networkworker]), one for processes ([internal/execworker]), and one for
    SSH ([internal/remoteworker], with the profiles and credentials of
    [internal/credentialstore]). A client that speaks MCP over pipes runs [cmd/stdio-bridge],
    which passes its messages to the gateway. Each part below is a file of this library, translated from
    the file it names: strings are lists of bytes, integers are [Z] with wrap-around where the
    code can reach it, maps are [gmap], errors are values, and what runs under a mutex is one
    transition. Code that is not in the repository is a class of functions, with the
    documented behaviour that a theorem needs as a class of laws.

    ** Layers

    - Go: [Prelude] (results, automation), [GoStrings], [Strconv], [Base64], [Utf8], [GoPath],
      [PathMatch] model the functions of the standard library that the code uses.
    - Text files ([internal/textfile]): [TextTypes] (limits, encodings), [Newlines], [Codec]
      (detection, [Decode], [Encode]), [EditorConfig], [Diff], [Edit] (a [File] and its edits).
    - Tokens: [Token] (what the signed tokens share), [Capability] ([internal/capability]),
      [Approval] ([internal/approval]), [Replay] ([internal/replay]: an interface, the store in
      memory and the one over bbolt), [TransportAuth] ([internal/transportauth]).
    - Policy ([internal/policy]): [Policy].
    - Workspace ([internal/workspace]): [Gitignore], [Workspace] (paths and the bounded walk),
      [Scan] (what [Glob] and [Grep] return), [AtomicWrite] (the replacement of a file, with
      every system call, alone and with interference).
    - File worker ([internal/fileworker]): [FileEdit] (batch edits with rollback), [FileJob]
      (building, signing and checking jobs), [FileRead], [Image], [FileWorker] (every operation
      behind its authorisation), [FileExecutor] (the client, which runs a worker per job).
    - Audit ([internal/audit]): [Redact], [AuditLog]. Reviews ([internal/approvalview]):
      [ApprovalView].
    - Exec worker ([internal/execworker]): [ExecProfile], [ExecCapability], [ExecServer] (the
      supervisor's checks), [ExecTable] (its process table as a transition system), [ExecMemory].
    - Network worker ([internal/networkworker]): [NetPolicy] (URLs, hosts, addresses), [NetJob]
      (jobs in normal form, their capabilities, profiles), [NetService] (redirects, responses,
      and the exchange with the client).
    - SSH ([internal/credentialstore], [internal/remoteworker]): [CredentialStore] (profiles,
      credentials, envelopes), [RemoteJob] (signed jobs, allowed commands and paths, quoting),
      [RemoteService] (the worker and its client).
    - Stdio bridge ([cmd/stdio-bridge]): [BridgeText] (messages, responses, options), [Bridge]
      (its threads, session and jobs as a transition system).
    - Gateway ([internal/gateway]): [Sessions], [Lifecycle] (admission, active calls, revocation,
      with every interleaving of handlers), [Tools] (the table of tools and their arguments),
      [Calls], [External], [Gateway] (a tool call from its parameters to its answer),
      [RateLimit], [Http] (the checks of a request), [Endpoint] ([ServeHTTP]), and the theorems
      across them in [GatewaySafety], [HttpSafety], [HttpLifecycle].
    - Workspaces: [StrictJson] ([internal/protocol]), [WorkspaceRegistry]
      ([internal/workspaceregistry]), [WorkspaceRouter] ([gateway/workspace_router.go]).

    ** State and operations

    A Go struct is a record with its fields, a method the function of its name; where two files
    use one name the record fields carry a prefix. Handlers of the gateway are functions in two
    small monads: [Calls.handler] (a tool call, over the world of stores, log, files and
    external workers, that may reply early) and [Endpoint.http] (a request, over the server's
    state). A file executor is an interface ([Calls.ContextExecutor] with [ExecutorLaws]); the
    executor of worker processes ([FileExecutor]) and the one in the gateway's own process
    satisfy it. The remote worker is a tree of calls to its surroundings
    ([RemoteService.action]), run against any server. Transition systems have a [step] and a
    [run] over a list of events: [Lifecycle], [ExecTable], [WorkspaceRouter], [Bridge]; theorems about them hold after every such list, so for every
    schedule. Random values, clocks, answers of the kernel and of the network are inputs.

    ** What the theorems show

    - A file changes only on the grounds that the code means to require: over HTTP
      ([HttpSafety.http_change_grounds]), in a worker ([FileWorker.Execute_confined]).
    - Writes and batch edits are all or nothing, and do what they report: [AtomicWrite],
      [FileEdit]; an edit's text, previews and diffs are right: [Edit], [Diff], [Codec].
    - Tokens of every kind are bound to their use and are used once: [Approval], [Capability],
      [TransportAuth], [ExecServer]; what the gateway signs, the workers accept: [FileJob],
      [ExecServer], [Tools], [NetJob], [RemoteJob], with the credential delivered in
      [RemoteService.remote_job_reaches_worker].
    - Workers do only what was authorised, whatever their surroundings answer: the requests of
      [NetService.network_requests_authorised], the commands and paths of
      [RemoteService.remote_effects_authorised], the processes of [ExecTable]; and the gateway
      takes no other result than that of the job it sent ([NetService], [RemoteService]).
    - The bridge sends no request outside of its session, answers each line once, and keeps its
      queues bounded, in every interleaving of its threads: [Bridge].
    - Sessions, servers and processes end when they are revoked, in every interleaving:
      [Sessions], [Lifecycle], [ExecTable], [WorkspaceRouter]; a handler of [Endpoint] is a
      thread of [Lifecycle] ([HttpLifecycle.ServeHTTP_lifecycle]).
    - The policy layers only restrict; network targets stay within the profile: [Policy],
      [NetPolicy].
    - The log stays whole and hides secrets: [AuditLog], [Redact].
    - Parsers and scanners decide what they should: [StrictJson], [Gitignore], [ExecMemory],
      [Scan], [WorkspaceRegistry].

    Where the code does not do what it or its comments say, a lemma shows it by a computation;
    such lemmas say so in their comments.

    ** Fuel and bounds

    Loops that Go bounds by its data are structural. The others take fuel, and a lemma or
    theorem says how much is enough: twice the tokens for [StrictJson.consumeValue], a step per
    byte for [Image.webp_chunks], the number of sessions for [Sessions.make_room] when the store
    has room for one, the depth and the entry limit for the walk of [Workspace].

    ** Not modelled

    System calls that isolate workers (landlock, seccomp, cgroups, namespaces), launching and
    killing of processes, pipes, sockets and TLS have no effect on what is proved here but
    through their answers, which are inputs of the models. The main programs read flags,
    environment variables and files and build the components modelled above; the installer
    ([internal/installer], [cmd/install]) is a script over file operations and systemctl. The
    variant of [internal/workspace] for systems other than Linux is not modelled. JSON texts
    are parameters: the decoders and encoders of [encoding/json] are classes, tokens are
    modelled where the code reads tokens. *)
From stdpp Require Export base tactics option list list_numbers gmap strings sorting.
From Stdlib Require Export ZArith Lia Ascii.

#[global] Set Default Proof Using "Type".

(** ** Go strings

    A Go [string] or [[]byte] is a sequence of bytes: a list of 8-bit [ascii]. *)
Abbreviation gostring := (list ascii).

Definition gostring_parse (l : list Init.Byte.byte) : option (list ascii) :=
  Some (List.map ascii_of_byte l).
Definition gostring_print (l : list ascii) : option (list Init.Byte.byte) :=
  Some (List.map byte_of_ascii l).

Declare Scope go_scope.
Delimit Scope go_scope with go.
String Notation gostring gostring_parse gostring_print : go_scope.
#[global] Open Scope go_scope.

#[global] Arguments Ascii.eqb : simpl never.
#[global] Arguments Ascii.ascii_dec : simpl never.
#[global] Arguments Z.add : simpl never.
#[global] Arguments Z.sub : simpl never.
#[global] Arguments Z.mul : simpl never.
#[global] Arguments Z.leb : simpl never.
#[global] Arguments Z.ltb : simpl never.
#[global] Arguments Z.eqb : simpl never.

(** The code of a byte, and the control bytes the source names by escapes. *)
Definition code (c : ascii) : Z := Z.of_N (N_of_ascii c).
Definition byte_of (n : Z) : ascii := ascii_of_N (Z.to_N n).
Definition NUL : ascii := byte_of 0.
Definition TAB : ascii := byte_of 9.
Definition LF : ascii := byte_of 10.
Definition CR : ascii := byte_of 13.
Definition SP : ascii := byte_of 32.
Definition BSL : ascii := byte_of 92.
Definition SLASH : ascii := byte_of 47.

Lemma code_range c : (0 <= code c < 256)%Z.
Proof. unfold code. pose proof (N_ascii_bounded c). lia. Qed.

Lemma code_inj c d : code c = code d -> c = d.
Proof.
  unfold code. intros H%N2Z.inj.
  rewrite <- (ascii_N_embedding c), <- (ascii_N_embedding d). by rewrite H.
Qed.

Lemma code_byte_of n : (0 <= n < 256)%Z -> code (byte_of n) = n.
Proof. intros H. unfold code, byte_of. rewrite N_ascii_embedding; lia. Qed.

Lemma byte_of_code c : byte_of (code c) = c.
Proof. apply code_inj. apply code_byte_of, code_range. Qed.

(** ** Slices

    [text[i:j]] with [i <= j <= len(text)]. *)
Definition slice {A} (i j : nat) (l : list A) : list A := take (j - i) (drop i l).

Lemma slice_length {A} i j (l : list A) :
  j <= length l -> length (slice i j l) = j - i.
Proof. intros H. unfold slice. rewrite length_take, length_drop. lia. Qed.

Lemma slice_app {A} i j k (l : list A) :
  i <= j -> j <= k -> slice i j l ++ slice j k l = slice i k l.
Proof.
  intros Hij Hjk. unfold slice.
  replace (k - i) with ((j - i) + (k - j)) by lia.
  rewrite <- take_take_drop. f_equal. f_equal.
  rewrite drop_drop. f_equal. lia.
Qed.

Lemma slice_all {A} (l : list A) : slice 0 (length l) l = l.
Proof. unfold slice. rewrite drop_0, Nat.sub_0_r. apply firstn_all. Qed.

Lemma slice_drop {A} i (l : list A) : i <= length l -> slice i (length l) l = drop i l.
Proof. intros. unfold slice. rewrite take_ge; [done|]. rewrite length_drop. lia. Qed.

(** ** Results

    A Go function that returns [(value, error)] returns a [result]: the error
    carries the sentinel ([errors.Is]) class of the code. *)
Inductive result (E A : Type) : Type :=
  | Ok (a : A)
  | Err (e : E).
Arguments Ok {_ _} a.
Arguments Err {_ _} e.

#[export] Instance result_ret E : MRet (result E) := fun _ a => Ok a.
#[export] Instance result_bind E : MBind (result E) := fun _ _ k r =>
  match r with Ok a => k a | Err e => Err e end.
#[export] Instance result_fmap E : FMap (result E) := fun _ _ f r =>
  match r with Ok a => Ok (f a) | Err e => Err e end.

(** [if c { return err }] before the rest of the body. *)
Definition guard_err {E A} (bad : bool) (e : E) (k : result E A) : result E A :=
  if bad then Err e else k.
Notation "'reject' b 'with' e ; k" := (guard_err b e k)
  (at level 100, b at level 99, e at level 99, k at level 200, right associativity) : go_scope.

Definition is_ok {E A} (r : result E A) : bool :=
  match r with Ok _ => true | Err _ => false end.

#[export] Instance result_eq_dec `{EqDecision E, EqDecision A} : EqDecision (result E A).
Proof. solve_decision. Defined.

Lemma bind_Ok {E A B} (r : result E A) (k : A -> result E B) b :
  r ≫= k = Ok b <-> exists a, r = Ok a /\ k a = Ok b.
Proof. destruct r; cbn; naive_solver. Qed.

Lemma bind_Err {E A B} (r : result E A) (k : A -> result E B) e :
  r ≫= k = Err e <-> r = Err e \/ exists a, r = Ok a /\ k a = Err e.
Proof. destruct r; cbn; naive_solver. Qed.

Lemma guard_Ok {E A} b (e : E) (k : result E A) a :
  guard_err b e k = Ok a <-> b = false /\ k = Ok a.
Proof. destruct b; cbn; naive_solver. Qed.

Lemma guard_Err {E A} b (e e' : E) (k : result E A) :
  guard_err b e k = Err e' <-> (b = true /\ e = e') \/ (b = false /\ k = Err e').
Proof. destruct b; cbn; naive_solver. Qed.

(** Splits a hypothesis saying that a chain of binds and guards succeeded. *)
Ltac inv_ok :=
  repeat match goal with
  | H : _ ≫= _ = Ok _ |- _ => apply bind_Ok in H; destruct H as (? & ? & H); cbn beta in H
  | H : guard_err _ _ _ = Ok _ |- _ => apply guard_Ok in H; destruct H as [? H]
  | H : Ok _ = Ok _ |- _ => injection H as H; try subst
  | H : Err _ = Ok _ |- _ => discriminate H
  | H : Ok _ = Err _ |- _ => discriminate H
  | H : (_ , _) = (_ , _) |- _ => injection H as; try subst
  end.

(** Boolean guards as propositions. *)
Ltac bool_props :=
  repeat match goal with
  | H : andb _ _ = true |- _ => apply andb_true_iff in H; destruct H
  | H : orb _ _ = false |- _ => apply orb_false_iff in H; destruct H
  | H : negb _ = true |- _ => apply negb_true_iff in H
  | H : negb _ = false |- _ => apply negb_false_iff in H
  | H : bool_decide _ = true |- _ => apply bool_decide_eq_true in H
  | H : bool_decide _ = false |- _ => apply bool_decide_eq_false in H
  | H : Z.ltb _ _ = true |- _ => apply Z.ltb_lt in H
  | H : Z.ltb _ _ = false |- _ => apply Z.ltb_ge in H
  | H : Z.leb _ _ = true |- _ => apply Z.leb_le in H
  | H : Z.leb _ _ = false |- _ => apply Z.leb_gt in H
  | H : Z.gtb _ _ = _ |- _ => rewrite Z.gtb_ltb in H
  | H : Z.geb _ _ = _ |- _ => rewrite Z.geb_leb in H
  | H : Z.eqb _ _ = true |- _ => apply Z.eqb_eq in H
  | H : Z.eqb _ _ = false |- _ => apply Z.eqb_neq in H
  end.

Lemma forallb_Forall {A} (f : A -> bool) l : forallb f l = true <-> Forall (fun x => f x = true) l.
Proof. induction l; cbn; rewrite ?andb_true_iff, ?Forall_cons; [split; [constructor|done]|naive_solver]. Qed.

Lemma existsb_false_Forall {A} (f : A -> bool) l : existsb f l = false <-> Forall (fun x => f x = false) l.
Proof. induction l; cbn; rewrite ?orb_false_iff, ?Forall_cons; [split; [constructor|done]|naive_solver]. Qed.

(** [len(s)] as a Go [int]. *)
Definition len {A} (l : list A) : Z := Z.of_nat (length l).

Lemma len_nonneg {A} (l : list A) : (0 <= len l)%Z.
Proof. unfold len. lia. Qed.

Lemma len_app {A} (l k : list A) : len (l ++ k) = (len l + len k)%Z.
Proof. unfold len. rewrite length_app. lia. Qed.

(** ** Time

    A [time.Time] is its instant in nanoseconds since the Unix epoch; the zero
    value is the instant of year 1. *)
Abbreviation gotime := Z (only parsing).
Definition zero_time : Z := (-62135596800000000000)%Z.
Definition second : Z := 1000000000%Z.
Definition minute : Z := (60 * second)%Z.

(** The reading of [t.After(u)] and [t.Before(u)]. *)
Definition after (t u : Z) : bool := (u <? t)%Z.
Definition before (t u : Z) : bool := (t <? u)%Z.

Create HintDb s2p.
Create Rewrite HintDb s2p.
#[export] Hint Rewrite @length_app @length_take @length_drop @length_cons @length_nil : s2p.
#[export] Hint Resolve code_range len_nonneg : s2p.
