(* ===== verification/GoStrings.v ===== *)
(** * The functions of Go's [strings] package that the program uses,
    with their characterisations. *)
From S2P Require Import Prelude.

(** ** [strings.HasPrefix], [HasSuffix], [TrimPrefix], [TrimSuffix] *)
Fixpoint has_prefix (s p : gostring) : bool :=
  match p, s with
  | [], _ => true
  | a :: p', b :: s' => Ascii.eqb a b && has_prefix s' p'
  | _ :: _, [] => false
  end.

#[global] Arguments has_prefix : simpl nomatch.

Definition has_suffix (s p : gostring) : bool :=
  (length p <=? length s)%nat && bool_decide (drop (length s - length p) s = p).

Definition trim_prefix (s p : gostring) : gostring :=
  if has_prefix s p then drop (length p) s else s.
Definition trim_suffix (s p : gostring) : gostring :=
  if has_suffix s p then take (length s - length p) s else s.

Lemma has_prefix_spec s p : has_prefix s p = true <-> exists r, s = p ++ r.
Proof.
  revert s; induction p as [|a p IH]; intros s; cbn; [by destruct s; split; eauto|].
  destruct s as [|b s]; [split; [done|by intros [??]]|]; cbn.
  rewrite andb_true_iff, IH. split.
  - intros [->%Ascii.eqb_eq [r ->]]. by exists r.
  - intros [r [= -> ->]]. split; [by apply Ascii.eqb_refl | by exists r].
Qed.

Lemma has_prefix_take s p : has_prefix s p = true <-> take (length p) s = p.
Proof.
  rewrite has_prefix_spec. split.
  - intros [r ->]. by rewrite take_app_length.
  - intros H. exists (drop (length p) s). rewrite <- H at 1. by rewrite take_drop.
Qed.

Lemma has_prefix_length s p : has_prefix s p = true -> length p <= length s.
Proof. intros [r ->]%has_prefix_spec. rewrite length_app. lia. Qed.

Lemma has_prefix_app p r : has_prefix (p ++ r) p = true.
Proof. apply has_prefix_spec. by exists r. Qed.

Lemma has_prefix_nil s : has_prefix s [] = true.
Proof. by destruct s. Qed.

Lemma has_suffix_spec s p : has_suffix s p = true <-> exists r, s = r ++ p.
Proof.
  unfold has_suffix. rewrite andb_true_iff, bool_decide_eq_true, Nat.leb_le. split.
  - intros [_ H]. exists (take (length s - length p) s). rewrite <- H at 2. by rewrite take_drop.
  - intros [r ->]. rewrite length_app. split; [lia|].
    replace (length r + length p - length p) with (length r) by lia. by rewrite drop_app_length.
Qed.

(** ** [strings.Index] and [strings.Contains] *)
Fixpoint index (s t : gostring) : option nat :=
  if has_prefix s t then Some 0
  else match s with
       | [] => None
       | _ :: s' => S <$> index s' t
       end.

Definition contains (s t : gostring) : bool :=
  match index s t with Some _ => true | None => false end.

(** [strings.IndexByte(s, c) >= 0]. *)
Definition contains_byte (s : gostring) (c : ascii) : bool := bool_decide (c ∈ s).

Lemma index_Some s t i :
  index s t = Some i <->
  has_prefix (drop i s) t = true /\ (forall j, j < i -> has_prefix (drop j s) t = false)
  /\ i <= length s.
Proof.
  revert i; induction s as [|a s IH]; intros i.
  - cbn. destruct t; cbn.
    + split; [intros [= <-]; split_and!; [done|lia|lia] |].
      intros (_ & _ & Hi). assert (i = 0) as -> by (cbn in Hi; lia). done.
    + split; [done|]. intros (H & _). by rewrite drop_nil in H.
  - cbn [index]. destruct (has_prefix (a :: s) t) eqn:Hp.
    + split.
      * intros [= <-]. split_and!; [done|lia|lia].
      * intros (_ & Hj & _). destruct i; [done|]. specialize (Hj 0 ltac:(lia)). cbn in Hj. congruence.
    + destruct i as [|i].
      * split; [by destruct (index s t)|]. intros (H & _). cbn in H. congruence.
      * rewrite fmap_Some. split.
        -- intros (i' & Hi' & [= <-]). apply IH in Hi' as (H1 & H2 & H3). split_and!; [done| |cbn; lia].
           intros [|j] Hj; [done|]. apply H2. lia.
        -- intros (H1 & H2 & H3). exists i. split; [|done]. apply IH. split_and!; [done| |cbn in H3; lia].
           intros j Hj. apply (H2 (S j)). lia.
Qed.

Lemma index_None s t :
  index s t = None <-> forall j, j <= length s -> has_prefix (drop j s) t = false.
Proof.
  induction s as [|a s IH]; cbn [index].
  - destruct t; cbn; split; try done.
    + intros H. by specialize (H 0 ltac:(lia)).
    + intros _ j _. by rewrite drop_nil.
  - destruct (has_prefix (a :: s) t) eqn:Hp.
    + split; [done|]. intros H. specialize (H 0 ltac:(lia)). cbn in H. congruence.
    + rewrite fmap_None, IH. split.
      * intros H [|j] Hj; [done|]. apply H. cbn in Hj. lia.
      * intros H j Hj. apply (H (S j)). cbn. lia.
Qed.

Lemma index_bound s t i : index s t = Some i -> i + length t <= length s.
Proof.
  intros (H & _ & Hi)%index_Some. apply has_prefix_length in H.
  rewrite length_drop in H. lia.
Qed.

Lemma contains_spec s t : contains s t = true <-> exists l r, s = l ++ t ++ r.
Proof.
  unfold contains. destruct (index s t) as [i|] eqn:Hi.
  - apply index_Some in Hi as (H & _ & _). apply has_prefix_spec in H as [r Hr].
    split; [|done]. intros _. exists (take i s), r. by rewrite <- Hr, take_drop.
  - split; [done|]. intros (l & r & ->). apply (proj1 (index_None _ _)) with (j := length l) in Hi.
    + rewrite drop_app_length, has_prefix_app in Hi. done.
    + rewrite length_app. lia.
Qed.

(** ** [strings.Split] with a one-byte separator, and [strings.Join] *)
Fixpoint split_byte (c : ascii) (s : gostring) : list gostring :=
  match s with
  | [] => [[]]
  | a :: s' =>
      if Ascii.eqb a c then [] :: split_byte c s'
      else match split_byte c s' with
           | [] => [[a]]
           | w :: ws => (a :: w) :: ws
           end
  end.

Fixpoint join (sep : gostring) (l : list gostring) : gostring :=
  match l with
  | [] => []
  | [w] => w
  | w :: ws => w ++ sep ++ join sep ws
  end.

Lemma split_byte_ne c s : split_byte c s <> [].
Proof. destruct s as [|a s]; cbn; [done|]. case_match; [done|]. by case_match. Qed.

Lemma join_cons sep w ws : ws <> [] -> join sep (w :: ws) = w ++ sep ++ join sep ws.
Proof. by destruct ws. Qed.

Lemma join_split_byte c s : join [c] (split_byte c s) = s.
Proof.
  induction s as [|a s IH]; [done|]. cbn [split_byte].
  destruct (Ascii.eqb a c) eqn:E.
  - apply Ascii.eqb_eq in E as ->. rewrite join_cons by apply split_byte_ne. by rewrite IH.
  - destruct (split_byte c s) as [|w ws] eqn:Es; [by apply split_byte_ne in Es|].
    destruct ws as [|w' ws].
    + cbn in *. by subst.
    + rewrite join_cons by done. rewrite join_cons in IH by done. cbn. f_equal. done.
Qed.

Lemma split_byte_no_sep c s w : w ∈ split_byte c s -> c ∉ w.
Proof.
  revert w; induction s as [|a s IH]; cbn; intros w.
  - rewrite list_elem_of_singleton. intros ->. apply not_elem_of_nil.
  - destruct (Ascii.eqb a c) eqn:E.
    + rewrite elem_of_cons. intros [->|H]; [apply not_elem_of_nil | by apply IH].
    + apply Ascii.eqb_neq in E. pose proof (split_byte_ne c s).
      destruct (split_byte c s) as [|w' ws]; [done|].
      rewrite elem_of_cons. intros [->|Hin].
      * rewrite elem_of_cons. intros [->|Hc]; [done|]. revert Hc. apply IH. left.
      * apply IH. by right.
Qed.

Lemma split_byte_app_no_sep c w : c ∉ w -> split_byte c w = [w].
Proof.
  induction w as [|a w IH]; [done|]. rewrite not_elem_of_cons. intros [Hne Hin].
  cbn. rewrite IH by done. case_match eqn:E; [|done]. apply Ascii.eqb_eq in E. congruence.
Qed.

Lemma split_byte_cons_sep c w s : c ∉ w -> split_byte c (w ++ c :: s) = w :: split_byte c s.
Proof.
  induction w as [|a w IH]; cbn; intros Hn.
  - by rewrite Ascii.eqb_refl.
  - apply not_elem_of_cons in Hn as [Hne Hin]. rewrite IH by done.
    case_match eqn:E; [|done]. apply Ascii.eqb_eq in E. congruence.
Qed.

(** Splitting is the inverse of joining words without the separator. *)
Lemma split_byte_join c l :
  l <> [] -> Forall (fun w => c ∉ w) l -> split_byte c (join [c] l) = l.
Proof.
  induction l as [|w ws IH]; [done|]. intros _ [Hw Hws]%Forall_cons.
  destruct ws as [|w' ws]; [by apply split_byte_app_no_sep|].
  rewrite join_cons by done. cbn [app]. rewrite split_byte_cons_sep by done. f_equal. by apply IH.
Qed.

(** ** [strings.ReplaceAll] *)

(** The general form, for a non-empty [old]: [skip] counts the bytes of the
    occurrence being replaced that are still to be dropped. *)
Fixpoint replace_all_from (skip : nat) (old new s : gostring) : gostring :=
  match s with
  | [] => []
  | c :: s' =>
      match skip with
      | S k => replace_all_from k old new s'
      | O => if has_prefix s old
             then new ++ replace_all_from (length old - 1) old new s'
             else c :: replace_all_from 0 old new s'
      end
  end.
Definition replace_all (s old new : gostring) : gostring := replace_all_from 0 old new s.

(** The case of one byte for another. *)
Definition replace_byte (s : gostring) (old new : ascii) : gostring :=
  (fun c => if Ascii.eqb c old then new else c) <$> s.

Lemma replace_all_byte s old new : replace_all s [old] [new] = replace_byte s old new.
Proof.
  unfold replace_all, replace_byte. induction s as [|c s IH]; [done|]. cbn.
  rewrite has_prefix_nil, andb_true_r, Ascii.eqb_sym.
  destruct (Ascii.eqb c old); cbn; by rewrite IH.
Qed.

Lemma replace_byte_id s old new : old ∉ s -> replace_byte s old new = s.
Proof.
  induction s as [|c s IH]; [done|]. rewrite not_elem_of_cons. intros [Hne Hin].
  unfold replace_byte in *. cbn. rewrite IH by done. case_match eqn:E; [|done].
  apply Ascii.eqb_eq in E. congruence.
Qed.

Lemma replace_byte_gone s old new : old <> new -> old ∉ replace_byte s old new.
Proof.
  intros Hne. unfold replace_byte. rewrite list_elem_of_fmap. intros (c & Hc & _).
  case_match eqn:E; [done|]. apply Ascii.eqb_neq in E. congruence.
Qed.

(** ** [strings.ToLower]

    On a string of ASCII bytes [ToLower] maps the letters A to Z. On any other
    string it maps every rune by the Unicode tables of Go's [unicode] package,
    which are data of the class below. *)
Definition is_ascii (s : gostring) : bool := forallb (fun c => code c <? 128)%Z s.

Definition lower_byte (c : ascii) : ascii :=
  if ((65 <=? code c) && (code c <=? 90))%Z then byte_of (code c + 32) else c.

Class UnicodeTables := {
  to_lower_unicode : gostring -> gostring
}.

Definition to_lower `{UnicodeTables} (s : gostring) : gostring :=
  if is_ascii s then lower_byte <$> s else to_lower_unicode s.

(** The tables restricted to the identity, used to run the definitions. *)
Definition ascii_tables : UnicodeTables := {| to_lower_unicode := fun s => s |}.

Lemma lower_byte_code c :
  code (lower_byte c) =
  if ((65 <=? code c) && (code c <=? 90))%Z then (code c + 32)%Z else code c.
Proof.
  unfold lower_byte. case_match eqn:E; [|done]. bool_props. apply code_byte_of. lia.
Qed.

Lemma lower_byte_idemp c : lower_byte (lower_byte c) = lower_byte c.
Proof.
  apply code_inj. rewrite !lower_byte_code. pose proof (code_range c).
  destruct ((65 <=? code c) && (code c <=? 90))%Z eqn:E; [|by rewrite E].
  bool_props. case_match eqn:E2; [|done]. bool_props. lia.
Qed.

Lemma is_ascii_lower s : is_ascii s = true -> is_ascii (lower_byte <$> s) = true.
Proof.
  unfold is_ascii. rewrite !forallb_forall. intros Hs c Hc.
  apply list_elem_of_In, list_elem_of_fmap in Hc as (d & -> & Hd%list_elem_of_In).
  apply Hs, Z.ltb_lt in Hd. apply Z.ltb_lt. rewrite lower_byte_code.
  case_match eqn:E; bool_props; lia.
Qed.

Lemma to_lower_idemp_ascii `{UnicodeTables} s :
  is_ascii s = true -> to_lower (to_lower s) = to_lower s.
Proof.
  intros Hs. unfold to_lower at 2 3. rewrite Hs. unfold to_lower. rewrite is_ascii_lower by done.
  rewrite <- list_fmap_compose. apply list_fmap_ext. intros i x _. apply lower_byte_idemp.
Qed.

(** ** Byte order of strings, as [sort.Strings] and [<] use it *)
Fixpoint str_lt (a b : gostring) : bool :=
  match a, b with
  | _, [] => false
  | [], _ :: _ => true
  | x :: a', y :: b' =>
      (code x <? code y)%Z || (Ascii.eqb x y && str_lt a' b')
  end.
Definition str_le (a b : gostring) : Prop := str_lt b a = false.

#[export] Instance str_le_dec a b : Decision (str_le a b).
Proof. unfold str_le. apply _. Defined.

Lemma str_lt_irrefl a : str_lt a a = false.
Proof. induction a; cbn; [done|]. by rewrite Z.ltb_irrefl, Ascii.eqb_refl. Qed.

Lemma str_lt_total a b : str_lt a b = true \/ a = b \/ str_lt b a = true.
Proof.
  revert b; induction a as [|x a IH]; intros [|y b]; cbn; auto.
  destruct (Z.lt_trichotomy (code x) (code y)) as [Hlt|[He|Hlt]].
  - left. by apply orb_true_iff; left; apply Z.ltb_lt.
  - apply code_inj in He as ->. rewrite Z.ltb_irrefl, Ascii.eqb_refl. cbn.
    destruct (IH b) as [?|[->|?]]; auto.
  - right; right. by apply orb_true_iff; left; apply Z.ltb_lt.
Qed.

Lemma str_lt_trans a b c : str_lt a b = true -> str_lt b c = true -> str_lt a c = true.
Proof.
  revert b c; induction a as [|x a IH]; intros [|y b] [|z c]; cbn; try done.
  rewrite !orb_true_iff, !andb_true_iff, !Z.ltb_lt, !Ascii.eqb_eq.
  intros [H1|[-> H1]] [H2|[-> H2]]; eauto; left; lia.
Qed.

#[export] Instance str_le_total : Total str_le.
Proof.
  intros a b. unfold str_le. destruct (str_lt_total a b) as [H|[->|H]].
  - left. destruct (str_lt b a) eqn:E; [|done].
    pose proof (str_lt_trans _ _ _ H E) as C. by rewrite str_lt_irrefl in C.
  - left. apply str_lt_irrefl.
  - right. destruct (str_lt a b) eqn:E; [|done].
    pose proof (str_lt_trans _ _ _ H E) as C. by rewrite str_lt_irrefl in C.
Qed.

Lemma str_le_alt a b : str_le a b <-> str_lt a b = true \/ a = b.
Proof.
  unfold str_le. split.
  - intros H. destruct (str_lt_total a b) as [?|[?|?]]; auto. congruence.
  - intros [H| ->]; [|apply str_lt_irrefl]. destruct (str_lt b a) eqn:E; [|done].
    pose proof (str_lt_trans _ _ _ H E) as C. by rewrite str_lt_irrefl in C.
Qed.

#[export] Instance str_le_po : PartialOrder str_le.
Proof.
  split; [split|].
  - intros a. apply str_le_alt. by right.
  - intros a b c. rewrite !str_le_alt. intros [H1| ->] [H2| ->]; eauto using str_lt_trans.
  - intros a b H1%str_le_alt H2%str_le_alt. destruct H1 as [H1|?], H2 as [H2|?]; auto.
    pose proof (str_lt_trans _ _ _ H1 H2) as C. by rewrite str_lt_irrefl in C.
Qed.

(** [sort.Strings]: the sorted permutation, unique because the order is
    antisymmetric. *)
Definition sort_strings (l : list gostring) : list gostring := merge_sort str_le l.

Lemma sort_strings_perm l : sort_strings l ≡ₚ l.
Proof. apply merge_sort_Permutation. Qed.

Lemma sort_strings_sorted l : StronglySorted str_le (sort_strings l).
Proof. apply (StronglySorted_merge_sort str_le l). Qed.

Lemma sort_strings_unique l l' : l ≡ₚ l' -> sort_strings l = sort_strings l'.
Proof.
  intros Hp. eapply (StronglySorted_unique str_le); [apply sort_strings_sorted..|].
  by rewrite !sort_strings_perm.
Qed.

#[export] Hint Resolve has_prefix_app has_prefix_nil split_byte_ne : s2p.

(** ** [strings.Split] for a separator of one byte or more *)
Fixpoint split_from (skip : nat) (sep s : gostring) : list gostring :=
  match s with
  | [] => [[]]
  | c :: s' =>
      match skip with
      | S k => split_from k sep s'
      | O => if has_prefix (c :: s') sep
             then [] :: split_from (length sep - 1) sep s'
             else match split_from 0 sep s' with
                  | w :: ws => (c :: w) :: ws
                  | [] => []
                  end
      end
  end.
Definition split (s sep : gostring) : list gostring := split_from 0 sep s.

(** ** [strings.IndexAny] and [strings.LastIndexAny] for a set of ASCII bytes *)
Fixpoint index_any (s chars : gostring) : option nat :=
  match s with
  | [] => None
  | c :: s' => if contains_byte chars c then Some 0 else S <$> index_any s' chars
  end.

Fixpoint last_index_any (s chars : gostring) : option nat :=
  match s with
  | [] => None
  | c :: s' =>
      match last_index_any s' chars with
      | Some i => Some (S i)
      | None => if contains_byte chars c then Some 0 else None
      end
  end.

Lemma contains_byte_spec s c : contains_byte s c = true <-> c ∈ s.
Proof. apply bool_decide_eq_true. Qed.

Lemma index_any_Some s chars i :
  index_any s chars = Some i ->
  i < length s /\ (exists c, s !! i = Some c /\ c ∈ chars) /\ Forall (.∉ chars) (take i s).
Proof.
  revert i; induction s as [|c s IH]; intros i Hi; [done|]. cbn [index_any] in Hi.
  destruct (contains_byte chars c) eqn:E.
  - simplify_eq. apply contains_byte_spec in E. cbn. split; [lia|]. split; [|by constructor]. eauto.
  - apply fmap_Some in Hi as (j & Hj & ->). apply IH in Hj as (? & ? & ?). cbn. split; [lia|].
    split; [done|]. constructor; [|done]. rewrite <- contains_byte_spec. congruence.
Qed.

Lemma index_any_None s chars : index_any s chars = None <-> Forall (.∉ chars) s.
Proof.
  induction s as [|c s IH]; cbn [index_any]; [done|]. rewrite Forall_cons, <- IH, <- contains_byte_spec.
  destruct (contains_byte chars c); [naive_solver|]. rewrite fmap_None. naive_solver.
Qed.

Lemma last_index_any_app s w chars i :
  last_index_any w chars = Some i -> last_index_any (s ++ w) chars = Some (length s + i).
Proof.
  intros Hi. induction s as [|c s IH]; [done|]. cbn [app last_index_any]. by rewrite IH.
Qed.

Lemma last_index_any_none s w chars :
  Forall (.∉ chars) w -> last_index_any (s ++ w) chars = last_index_any s chars.
Proof.
  intros Hw. induction s as [|c s IH]; cbn [app last_index_any]; [|by rewrite IH].
  induction Hw as [|d w Hd Hw IH]; [done|]. cbn. rewrite IH.
  destruct (contains_byte chars d) eqn:E; [by apply contains_byte_spec in E|done].
Qed.

(** [strings.Repeat]. *)
Definition repeat_byte (c : ascii) (n : Z) : gostring := replicate (Z.to_nat n) c.

Lemma split_from_drop k sep s : k <= length s -> split_from k sep s = split_from 0 sep (drop k s).
Proof.
  revert s; induction k as [|k IH]; intros s Hk; [by rewrite drop_0|].
  destruct s as [|c s]; cbn in Hk; [lia|]. cbn [split_from drop]. apply IH. lia.
Qed.

Lemma split_cons c d sep s : c <> d -> split (c :: s) (d :: sep) =
  match split s (d :: sep) with w :: ws => (c :: w) :: ws | [] => [] end.
Proof. intros Hne. unfold split. cbn [split_from has_prefix]. by rewrite (proj2 (Ascii.eqb_neq d c)). Qed.

Lemma split_no_sep d sep w : d ∉ w -> split w (d :: sep) = [w].
Proof.
  induction w as [|c w IH]; intros Hd; [done|]. rewrite not_elem_of_cons in Hd.
  rewrite split_cons by naive_solver. by rewrite IH by naive_solver.
Qed.

Lemma split_cons_sep d sep w s :
  d ∉ w -> split (w ++ (d :: sep) ++ s) (d :: sep) = w :: split s (d :: sep).
Proof.
  induction w as [|c w IH]; intros Hd.
  - unfold split. cbn [app split_from]. pose proof (has_prefix_app (d :: sep) s) as Hp.
    cbn [app] in Hp. rewrite Hp. cbn [length]. f_equal.
    rewrite Nat.sub_1_r. cbn [Nat.pred]. rewrite split_from_drop by (rewrite length_app; lia).
    by rewrite drop_app_length.
  - rewrite not_elem_of_cons in Hd. cbn [app] in *. rewrite split_cons by naive_solver.
    by rewrite IH by naive_solver.
Qed.

Definition count_byte (c : ascii) (s : gostring) : nat := length (filter (eq c) s).

Lemma count_byte_app c s t : count_byte c (s ++ t) = count_byte c s + count_byte c t.
Proof. unfold count_byte. by rewrite filter_app, length_app. Qed.

Lemma count_byte_cons c s : count_byte c (c :: s) = S (count_byte c s).
Proof. unfold count_byte. by rewrite filter_cons_True. Qed.

Lemma count_byte_absent c s : c ∉ s -> count_byte c s = 0.
Proof.
  intros Hc. unfold count_byte. induction s as [|d s IH]; [done|]. rewrite not_elem_of_cons in Hc.
  rewrite filter_cons_False by naive_solver. apply IH. naive_solver.
Qed.

Lemma count_byte_drop c n s : count_byte c (drop n s) <= count_byte c s.
Proof. rewrite <- (take_drop n s) at 2. rewrite count_byte_app. lia. Qed.

Lemma count_byte_split c d s w : w ∈ split_byte d s -> count_byte c w <= count_byte c s.
Proof.
  revert w. induction s as [|x s IH]; intros w; cbn [split_byte].
  - rewrite list_elem_of_singleton. by intros ->.
  - assert (Hx : count_byte c s <= count_byte c (x :: s)).
    { change (x :: s) with ([x] ++ s). rewrite count_byte_app. lia. }
    destruct (Ascii.eqb x d).
    + rewrite elem_of_cons. intros [->|Hw]; [cbn; lia|]. specialize (IH w Hw). lia.
    + destruct (split_byte d s) as [|y ys] eqn:E; [by destruct (split_byte_ne d s)|].
      rewrite elem_of_cons. intros [->|Hw].
      * specialize (IH y ltac:(by left)). change (x :: y) with ([x] ++ y).
        change (x :: s) with ([x] ++ s). rewrite !count_byte_app. lia.
      * specialize (IH w ltac:(by right)). lia.
Qed.

Lemma index_split s t i : index s t = Some i -> s = take i s ++ t ++ drop (i + length t) s.
Proof.
  intros (H & _ & _)%index_Some. apply has_prefix_spec in H as [r Hr].
  rewrite <- (take_drop i s) at 1. f_equal. rewrite <- drop_drop, Hr, drop_app_length. done.
Qed.

Lemma replace_all_from_drop k old new s :
  k <= length s -> replace_all_from k old new s = replace_all (drop k s) old new.
Proof.
  revert s; induction k as [|k IH]; intros s Hk; [by rewrite drop_0|].
  destruct s as [|c s]; cbn in Hk; [lia|]. cbn [replace_all_from drop]. apply IH. lia.
Qed.

(** [ReplaceAll] up to and including the first occurrence. *)
Lemma replace_all_index s old new i :
  old <> [] -> index s old = Some i ->
  replace_all s old new = take i s ++ new ++ replace_all (drop (i + length old) s) old new.
Proof.
  intros Ho. revert i; induction s as [|c s IH]; intros i Hi.
  { destruct old; [done|]. cbn in Hi. done. }
  cbn [index] in Hi. unfold replace_all. cbn [replace_all_from].
  destruct (has_prefix (c :: s) old) eqn:Hp.
  - simplify_eq. apply has_prefix_length in Hp. cbn [take app]. f_equal.
    destruct old as [|o old]; [done|]. cbn [length] in Hp |- *.
    rewrite replace_all_from_drop by lia. cbn [Nat.add drop].
    by replace (S (length old) - 1) with (length old) by lia.
  - apply fmap_Some in Hi as (j & Hj & ->). cbn [take app Nat.add drop]. f_equal. by apply IH.
Qed.

Lemma replace_all_none s old new : index s old = None -> replace_all s old new = s.
Proof.
  induction s as [|c s IH]; intros Hi; [done|]. cbn [index] in Hi.
  unfold replace_all. cbn [replace_all_from]. destruct (has_prefix (c :: s) old); [done|].
  f_equal. apply IH. by apply fmap_None in Hi.
Qed.

(** Cutting two strings at the first occurrence of a byte. *)
Lemma cut_unique (c : ascii) (a b x y : gostring) :
  c ∉ a -> c ∉ b -> a ++ c :: x = b ++ c :: y -> a = b /\ x = y.
Proof.
  revert b; induction a as [|d a IH]; intros [|e b] Ha Hb E; cbn in E; simplify_eq; try done.
  - destruct Hb. by left.
  - destruct Ha. by left.
  - rewrite not_elem_of_cons in Ha, Hb. destruct (IH b) as [-> ->]; naive_solver.
Qed.

(** ** [hex.EncodeToString] and the syntax [hex.DecodeString] accepts *)
Definition hex_char (d : Z) : ascii := if (d <? 10)%Z then byte_of (48 + d) else byte_of (87 + d).
Definition hex_encode (s : gostring) : gostring :=
  flat_map (fun c => [hex_char (code c / 16); hex_char (code c mod 16)]) s.
Definition is_hex (c : ascii) : bool :=
  let n := code c in
  ((48 <=? n) && (n <=? 57) || (97 <=? n) && (n <=? 102) || (65 <=? n) && (n <=? 70))%Z.
Definition hex_decodes (s : gostring) : bool := (len s mod 2 =? 0)%Z && forallb is_hex s.
