(* ===== verification/Strconv.v ===== *)
(** * Decimal integers: [strconv.Itoa], [strconv.Atoi], 64-bit wrap-around *)
From S2P Require Import Prelude GoStrings.
From Stdlib Require Import DecimalZ DecimalFacts DecimalString.
#[local] Open Scope Z_scope.

(** A Go [int] is 64 bits wide on the platforms of the program. *)
Definition min_int : Z := -9223372036854775808.
Definition max_int : Z := 9223372036854775807.
Definition wrap64 (z : Z) : Z := (z + 9223372036854775808) mod 18446744073709551616 - 9223372036854775808.
Definition in_int (z : Z) : bool := (min_int <=? z) && (z <=? max_int).

Lemma in_int_spec z : in_int z = true <-> -9223372036854775808 <= z <= 9223372036854775807.
Proof. unfold in_int, min_int, max_int. rewrite andb_true_iff, !Z.leb_le. tauto. Qed.

Lemma wrap64_id z : in_int z = true -> wrap64 z = z.
Proof. unfold in_int, wrap64, min_int, max_int. intros. bool_props. rewrite Z.mod_small; lia. Qed.

Lemma wrap64_range z : in_int (wrap64 z) = true.
Proof.
  unfold in_int, wrap64, min_int, max_int.
  pose proof (Z.mod_pos_bound (z + 9223372036854775808) 18446744073709551616). lia.
Qed.

(** *** Digits *)

Fixpoint uint_string (u : Decimal.uint) : gostring :=
  match u with
  | Decimal.Nil => []
  | Decimal.D0 u => ascii_of_nat 48 :: uint_string u
  | Decimal.D1 u => ascii_of_nat 49 :: uint_string u
  | Decimal.D2 u => ascii_of_nat 50 :: uint_string u
  | Decimal.D3 u => ascii_of_nat 51 :: uint_string u
  | Decimal.D4 u => ascii_of_nat 52 :: uint_string u
  | Decimal.D5 u => ascii_of_nat 53 :: uint_string u
  | Decimal.D6 u => ascii_of_nat 54 :: uint_string u
  | Decimal.D7 u => ascii_of_nat 55 :: uint_string u
  | Decimal.D8 u => ascii_of_nat 56 :: uint_string u
  | Decimal.D9 u => ascii_of_nat 57 :: uint_string u
  end.

Definition digit (c : ascii) : option (Decimal.uint -> Decimal.uint) :=
  match nat_of_ascii c with
  | 48%nat => Some Decimal.D0 | 49%nat => Some Decimal.D1 | 50%nat => Some Decimal.D2
  | 51%nat => Some Decimal.D3 | 52%nat => Some Decimal.D4 | 53%nat => Some Decimal.D5
  | 54%nat => Some Decimal.D6 | 55%nat => Some Decimal.D7 | 56%nat => Some Decimal.D8
  | 57%nat => Some Decimal.D9
  | _ => None
  end.

Fixpoint parse_uint (s : gostring) : option Decimal.uint :=
  match s with
  | [] => Some Decimal.Nil
  | c :: s => d ← digit c; u ← parse_uint s; Some (d u)
  end.

Definition minus : ascii := byte_of 45.
Definition plus : ascii := byte_of 43.

Definition itoa (n : Z) : gostring :=
  match Z.to_int n with
  | Decimal.Pos u => uint_string u
  | Decimal.Neg u => minus :: uint_string u
  end.

(** [strconv.Atoi]: [None] for a syntax error and for a value out of range. *)
Definition atoi (s : gostring) : option Z :=
  let parse neg digits :=
    if decide (digits = []) then None
    else match parse_uint digits with
         | None => None
         | Some u =>
             let v := Z.of_int (if neg : bool then Decimal.Neg u else Decimal.Pos u) in
             if in_int v then Some v else None
         end in
  match s with
  | c :: s' => if Ascii.eqb c minus then parse true s'
               else if Ascii.eqb c plus then parse false s' else parse false s
  | [] => None
  end.

Lemma parse_uint_string u : parse_uint (uint_string u) = Some u.
Proof. induction u as [|u IH|u IH|u IH|u IH|u IH|u IH|u IH|u IH|u IH|u IH]; cbn; by rewrite ?IH. Qed.

Lemma uint_string_digits u : Forall (fun c => 48 <= code c <= 57) (uint_string u).
Proof. induction u; cbn; constructor; try done; by vm_compute. Qed.

Lemma Z_to_int_nonnil n :
  match Z.to_int n with Decimal.Pos u | Decimal.Neg u => u <> Decimal.Nil end.
Proof.
  pose proof (DecimalZ.to_of (Z.to_int n)) as Hn. rewrite DecimalZ.of_to in Hn.
  destruct (Z.to_int n) as [u|u]; intros ->; vm_compute in Hn; congruence.
Qed.

Lemma itoa_digits n :
  exists c s, itoa n = c :: s /\ Forall (fun c => code c = 45 \/ 48 <= code c <= 57) (itoa n).
Proof.
  unfold itoa. pose proof (Z_to_int_nonnil n) as Hn.
  assert (Hd : forall u, Forall (fun c => code c = 45 \/ 48 <= code c <= 57) (uint_string u)).
  { intros u. eapply Forall_impl; [apply uint_string_digits|]. cbn. auto. }
  destruct (Z.to_int n) as [u|u].
  - destruct (uint_string u) as [|c s] eqn:E; [destruct u; done|]. eexists _, _. split; [done|].
    rewrite <- E. apply Hd.
  - eexists _, _. split; [done|]. constructor; [by left|apply Hd].
Qed.

(** Every machine integer survives printing and parsing. *)
Lemma atoi_itoa n : in_int n = true -> atoi (itoa n) = Some n.
Proof.
  intros Hn. unfold itoa. pose proof (Z_to_int_nonnil n) as Hnil.
  pose proof (DecimalZ.of_to n) as Hof.
  destruct (Z.to_int n) as [u|u] eqn:E.
  - pose proof (uint_string_digits u) as Hd.
    destruct (uint_string u) as [|c s] eqn:Eu; [destruct u; done|].
    inversion Hd as [|? ? Hc]; subst. unfold atoi.
    replace (Ascii.eqb c minus) with false.
    2:{ symmetry. apply Ascii.eqb_neq. intros ->. vm_compute in Hc. naive_solver. }
    replace (Ascii.eqb c plus) with false.
    2:{ symmetry. apply Ascii.eqb_neq. intros ->. vm_compute in Hc. naive_solver. }
    rewrite decide_False by done. rewrite <- Eu, parse_uint_string. cbv zeta beta iota. by rewrite Hn.
  - unfold atoi. rewrite Ascii.eqb_refl, decide_False by (destruct u; done).
    rewrite parse_uint_string. cbv zeta beta iota. by rewrite Hof, Hn.
Qed.

Lemma atoi_in_int s n : atoi s = Some n -> in_int n = true.
Proof. unfold atoi. intros. repeat case_match; naive_solver. Qed.

Lemma wrap64_add_l a b : wrap64 (wrap64 a + b) = wrap64 (a + b).
Proof.
  unfold wrap64. f_equal.
  match goal with |- (?x mod ?m - ?h + b + ?h) mod _ = _ =>
    replace (x mod m - h + b + h) with (x mod m + b) by lia end.
  rewrite Z.add_mod_idemp_l by lia. f_equal. lia.
Qed.

Lemma uint_string_inj u v : uint_string u = uint_string v -> u = v.
Proof. intros E. apply (f_equal parse_uint) in E. rewrite !parse_uint_string in E. by injection E. Qed.

Lemma itoa_inj m n : itoa m = itoa n -> m = n.
Proof.
  assert (Hminus : forall u s, uint_string u <> minus :: s).
  { intros u s E. pose proof (uint_string_digits u) as Hd. rewrite E in Hd.
    apply Forall_cons in Hd as [Hd _]. vm_compute in Hd. naive_solver. }
  unfold itoa. intros E. rewrite <- (DecimalZ.of_to m), <- (DecimalZ.of_to n). f_equal.
  destruct (Z.to_int m) as [u|u], (Z.to_int n) as [v|v].
  - by apply uint_string_inj in E as ->.
  - by destruct (Hminus _ _ E).
  - by destruct (Hminus _ _ (eq_sym E)).
  - injection E as E. by apply uint_string_inj in E as ->.
Qed.
