(* ===== verification/Base64.v ===== *)
(** * base64url without padding: [base64.RawURLEncoding] *)
From S2P Require Import Prelude.
#[local] Open Scope Z_scope.

Definition alphabet : gostring := "ABCDEFGHIJKLMNOPQRSTUVWXYZabcdefghijklmnopqrstuvwxyz0123456789-_".

Definition b64_char (d : Z) : ascii := default NUL (alphabet !! Z.to_nat d).

Definition b64_value (c : ascii) : option Z :=
  let n := code c in
  if (65 <=? n) && (n <=? 90) then Some (n - 65)
  else if (97 <=? n) && (n <=? 122) then Some (n - 71)
  else if (48 <=? n) && (n <=? 57) then Some (n + 4)
  else if n =? 45 then Some 62
  else if n =? 95 then Some 63
  else None.

(** [EncodeToString]. *)
Fixpoint b64_encode (s : gostring) : gostring :=
  match s with
  | a :: b :: c :: s' =>
      let a := code a in let b := code b in let c := code c in
      b64_char (a / 4) :: b64_char (a mod 4 * 16 + b / 16) ::
      b64_char (b mod 16 * 4 + c / 64) :: b64_char (c mod 64) :: b64_encode s'
  | [a; b] =>
      let a := code a in let b := code b in
      [b64_char (a / 4); b64_char (a mod 4 * 16 + b / 16); b64_char (b mod 16 * 4)]
  | [a] => let a := code a in [b64_char (a / 4); b64_char (a mod 4 * 16)]
  | [] => []
  end.

(** The values of four, three or two characters; line breaks have been skipped. *)
Fixpoint b64_groups (ds : list Z) : option gostring :=
  match ds with
  | d0 :: d1 :: d2 :: d3 :: ds' =>
      rest ← b64_groups ds';
      Some (byte_of (d0 * 4 + d1 / 16) :: byte_of (d1 mod 16 * 16 + d2 / 4) ::
            byte_of (d2 mod 4 * 64 + d3) :: rest)
  | [d0; d1; d2] => Some [byte_of (d0 * 4 + d1 / 16); byte_of (d1 mod 16 * 16 + d2 / 4)]
  | [d0; d1] => Some [byte_of (d0 * 4 + d1 / 16)]
  | [_] => None
  | [] => Some []
  end.

(** [DecodeString]: carriage returns and line feeds are ignored, the unused bits
    of the last character are not checked. *)
Definition b64_decode (s : gostring) : option gostring :=
  ds ← mapM b64_value (filter (fun c => c <> CR /\ c <> LF) s);
  b64_groups ds.

Lemma b64_value_char d : 0 <= d < 64 -> b64_value (b64_char d) = Some d.
Proof.
  intros Hd.
  assert (Hall : Forall (fun d => b64_value (b64_char d) = Some d) (seqZ 0 64))
    by (repeat constructor).
  rewrite Forall_forall in Hall. apply Hall, elem_of_seqZ. lia.
Qed.

Lemma b64_char_not_eol d : 0 <= d < 64 -> b64_char d <> CR /\ b64_char d <> LF.
Proof. intros Hd. apply b64_value_char in Hd. split; intros E; rewrite E in Hd; discriminate. Qed.

Ltac Zdm := Z.to_euclidean_division_equations; lia.

Lemma b64_step a b c :
  let a := code a in let b := code b in let c := code c in
  0 <= a / 4 < 64 /\ 0 <= a mod 4 * 16 + b / 16 < 64 /\ 0 <= a mod 4 * 16 < 64 /\
  0 <= b mod 16 * 4 + c / 64 < 64 /\ 0 <= b mod 16 * 4 < 64 /\ 0 <= c mod 64 < 64 /\
  a / 4 * 4 + (a mod 4 * 16 + b / 16) / 16 = a /\ a / 4 * 4 + (a mod 4 * 16) / 16 = a /\
  (a mod 4 * 16 + b / 16) mod 16 * 16 + (b mod 16 * 4 + c / 64) / 4 = b /\
  (a mod 4 * 16 + b / 16) mod 16 * 16 + (b mod 16 * 4) / 4 = b /\
  (b mod 16 * 4 + c / 64) mod 4 * 64 + c mod 64 = c.
Proof.
  cbv zeta. pose proof (code_range a). pose proof (code_range b). pose proof (code_range c).
  split_and!; Zdm.
Qed.

Lemma filter_encode d s : 0 <= d < 64 ->
  filter (fun c => c <> CR /\ c <> LF) (b64_char d :: s) =
  b64_char d :: filter (fun c => c <> CR /\ c <> LF) s.
Proof. intros Hd. rewrite filter_cons_True; [done|by apply b64_char_not_eol]. Qed.

Lemma three_ind {A} (P : list A -> Prop) :
  P [] -> (forall a, P [a]) -> (forall a b, P [a; b]) ->
  (forall a b c l, P l -> P (a :: b :: c :: l)) -> forall l, P l.
Proof.
  intros H0 H1 H2 H3 l. enough (P l /\ (forall a, P (a :: l)) /\ (forall a b, P (a :: b :: l))) by tauto.
  induction l as [|x l (IH1 & IH2 & IH3)]; [done|]. auto.
Qed.

Lemma b64_decode_encode s : b64_decode (b64_encode s) = Some s.
Proof.
  assert (Hg : exists ds, mapM b64_value (filter (fun c => c <> CR /\ c <> LF) (b64_encode s)) = Some ds /\
    b64_groups ds = Some s).
  { induction s as [|a|a b|a b c s (ds & Hm & Hg)] using three_ind; cbn [b64_encode].
    - by exists [].
    - destruct (b64_step a a a) as (H1 & _ & H2 & _ & _ & _ & _ & E & _).
      rewrite !filter_encode by done. cbn [mapM]. rewrite !b64_value_char by done.
      eexists. split; [done|]. cbn [b64_groups]. by rewrite E, byte_of_code.
    - destruct (b64_step a b b) as (H1 & H2 & _ & _ & H3 & _ & E1 & _ & _ & E2 & _).
      rewrite !filter_encode by done. cbn [mapM]. rewrite !b64_value_char by done.
      eexists. split; [done|]. cbn [b64_groups]. by rewrite E1, E2, !byte_of_code.
    - destruct (b64_step a b c) as (H1 & H2 & _ & H3 & _ & H4 & E1 & _ & E2 & _ & E3).
      rewrite !filter_encode by done. cbn [mapM]. rewrite !b64_value_char by done.
      cbn [mbind option_bind]. rewrite Hm. eexists. split; [done|]. cbn [b64_groups].
      rewrite Hg. cbn [mbind option_bind]. by rewrite E1, E2, E3, !byte_of_code. }
  destruct Hg as (ds & Hm & Hg). unfold b64_decode. by rewrite Hm.
Qed.

Lemma b64_encode_inj a b : b64_encode a = b64_encode b -> a = b.
Proof. intros E. apply (f_equal b64_decode) in E. rewrite !b64_decode_encode in E. by injection E. Qed.

(** Encoded text is made of alphabet characters only. *)
Lemma b64_encode_alphabet s : Forall (fun c => is_Some (b64_value c)) (b64_encode s).
Proof.
  assert (Hv : forall d, 0 <= d < 64 -> is_Some (b64_value (b64_char d))).
  { intros d Hd. rewrite b64_value_char by done. eauto. }
  induction s as [|a|a b|a b c s IH] using three_ind; cbn [b64_encode]; [done| | |].
  - destruct (b64_step a a a) as (? & _ & ? & _). repeat constructor; auto.
  - destruct (b64_step a b b) as (? & ? & _ & _ & ? & _). repeat constructor; auto.
  - destruct (b64_step a b c) as (? & ? & _ & ? & _ & ? & _). repeat (constructor; auto).
Qed.

Lemma b64_encode_no_dot s : "."%char ∉ b64_encode s.
Proof.
  intros Hin. pose proof (b64_encode_alphabet s) as Ha. rewrite Forall_forall in Ha.
  destruct (Ha _ Hin) as [d Hd]. discriminate Hd.
Qed.

Example b64_sample : b64_encode "hello" = "aGVsbG8" /\ b64_decode "aGVsbG9" = Some ("hello" : gostring).
Proof. split; vm_compute; reflexivity. Qed.

(** ** Standard base64 with padding: [base64.StdEncoding] *)

Definition EQUALS : ascii := byte_of 61.

Definition to_std (c : ascii) : ascii :=
  if Ascii.eqb c (byte_of 45) then byte_of 43 else if Ascii.eqb c (byte_of 95) then byte_of 47 else c.

(** [-] and [_] are not in this alphabet. *)
Definition from_std (c : ascii) : ascii :=
  if Ascii.eqb c (byte_of 43) then byte_of 45 else if Ascii.eqb c (byte_of 47) then byte_of 95
  else if Ascii.eqb c (byte_of 45) || Ascii.eqb c (byte_of 95) then NUL else c.

Definition std_padding (n : nat) : gostring :=
  match (n mod 3)%nat with 1%nat => [EQUALS; EQUALS] | 2%nat => [EQUALS] | _ => [] end.

Definition std_encode (s : gostring) : gostring := (to_std <$> b64_encode s) ++ std_padding (length s).

Definition strip_padding (s : gostring) : gostring :=
  match reverse s with
  | c :: d :: r => if Ascii.eqb c EQUALS then if Ascii.eqb d EQUALS then reverse r else reverse (d :: r) else s
  | _ => s
  end.

(** Line breaks are ignored; what is left has full groups of four, of which the last
    may end in one or two [=]. *)
Definition std_decode (s : gostring) : option gostring :=
  let s := filter (fun c => c <> CR /\ c <> LF) s in
  if negb (len s mod 4 =? 0) then None else b64_decode (from_std <$> strip_padding s).

Lemma b64_encode_length s :
  length (b64_encode s) = (4 * (length s / 3) + match length s mod 3 with 0 => 0 | r => S r end)%nat.
Proof.
  induction s as [|a|a b|a b c s IH] using three_ind; [done..|].
  cbn [b64_encode length]. rewrite IH. replace (S (S (S (length s)))) with (length s + 1 * 3)%nat by lia.
  rewrite Nat.Div0.mod_add, Nat.div_add by lia. lia.
Qed.

Lemma std_char c : is_Some (b64_value c) -> from_std (to_std c) = c /\ to_std c <> CR /\ to_std c <> LF /\ to_std c <> EQUALS.
Proof.
  intros [d Hd]. assert (Hr : 0 <= d < 64).
  { revert Hd. unfold b64_value. pose proof (code_range c). repeat case_match; intros [= <-]; bool_props; lia. }
  assert (Hc : c = b64_char d).
  { apply code_inj. revert Hd. unfold b64_value. pose proof (code_range c).
    assert (Hall : Forall (fun d => code (b64_char d) = if d <? 26 then d + 65 else if d <? 52 then d + 71 else if d <? 62 then d - 4 else if d =? 62 then 45 else 95) (seqZ 0 64))
      by (apply (bool_decide_unpack _); vm_compute; exact I).
    rewrite Forall_forall in Hall. specialize (Hall d ltac:(apply elem_of_seqZ; lia)). rewrite Hall.
    repeat case_match; intros [= <-]; bool_props; lia. }
  rewrite Hc. assert (Hall : Forall (fun d => from_std (to_std (b64_char d)) = b64_char d /\ to_std (b64_char d) <> CR /\
    to_std (b64_char d) <> LF /\ to_std (b64_char d) <> EQUALS) (seqZ 0 64)) by (apply (bool_decide_unpack _); vm_compute; exact I).
  rewrite Forall_forall in Hall. apply Hall, elem_of_seqZ. lia.
Qed.

Lemma std_encode_char s c : c ∈ to_std <$> b64_encode s -> c <> CR /\ c <> LF /\ c <> EQUALS.
Proof.
  intros (x & -> & Hx)%list_elem_of_fmap. pose proof (b64_encode_alphabet s) as Ha. rewrite Forall_forall in Ha.
  destruct (std_char x (Ha x Hx)) as (_ & ? & ? & ?). done.
Qed.

Lemma strip_no_padding s : EQUALS ∉ s -> strip_padding s = s.
Proof.
  intros Hs. unfold strip_padding. destruct (reverse s) as [|c [|d r]] eqn:E; [done..|].
  destruct (Ascii.eqb_spec c EQUALS) as [-> |]; [|done]. exfalso. apply Hs. rewrite <- (reverse_involutive s), E, elem_of_reverse. set_solver.
Qed.

Lemma strip_std s n : EQUALS ∉ s -> (n mod 3 = 2 -> s <> [])%nat -> strip_padding (s ++ std_padding n) = s.
Proof.
  intros Hs Hne. unfold std_padding. destruct (n mod 3)%nat as [|[|[|k]]] eqn:En.
  - rewrite app_nil_r. by apply strip_no_padding.
  - unfold strip_padding. rewrite reverse_app. change (reverse [EQUALS; EQUALS]) with [EQUALS; EQUALS]. cbn [app].
    rewrite Ascii.eqb_refl. apply reverse_involutive.
  - unfold strip_padding. rewrite reverse_app. change (reverse [EQUALS]) with [EQUALS]. cbn [app].
    destruct (reverse s) as [|d r] eqn:E; pose proof (f_equal reverse E) as E2; rewrite reverse_involutive in E2; [by destruct Hne|].
    rewrite Ascii.eqb_refl. destruct (Ascii.eqb_spec d EQUALS) as [-> |]; [|done].
    exfalso. apply Hs. rewrite <- (reverse_involutive s), E, elem_of_reverse. set_solver.
  - rewrite app_nil_r. by apply strip_no_padding.
Qed.

Lemma filter_all_true {A} (P : A -> Prop) `{forall x, Decision (P x)} (l : list A) :
  (forall x, x ∈ l -> P x) -> filter P l = l.
Proof.
  induction l as [|x l IH]; intros Hl; [done|]. rewrite filter_cons_True by (apply Hl; by left). f_equal. apply IH. intros y Hy. apply Hl. by right.
Qed.

Lemma std_encode_length s : len (std_encode s) mod 4 = 0.
Proof.
  unfold len, std_encode. rewrite length_app, length_fmap, b64_encode_length.
  pose proof (Nat.mod_upper_bound (length s) 3 ltac:(lia)) as Hb. unfold std_padding. generalize (length s / 3)%nat. intros q.
  destruct (length s mod 3)%nat as [|[|[|k]]]; cbn [length]; [| | |lia].
  - replace (Z.of_nat _) with (Z.of_nat q * 4) by lia. apply Z.mod_mul. lia.
  - replace (Z.of_nat _) with ((Z.of_nat q + 1) * 4) by lia. apply Z.mod_mul. lia.
  - replace (Z.of_nat _) with ((Z.of_nat q + 1) * 4) by lia. apply Z.mod_mul. lia.
Qed.

Lemma std_decode_encode s : std_decode (std_encode s) = Some s.
Proof.
  assert (Hf : filter (fun c => c <> CR /\ c <> LF) (std_encode s) = std_encode s).
  { apply filter_all_true. intros c Hc. unfold std_encode in Hc. apply elem_of_app in Hc as [Hc|Hc].
    - by apply std_encode_char in Hc as (? & ? & _).
    - unfold std_padding in Hc. assert (c = EQUALS) as -> by (repeat case_match; set_solver). by split. }
  unfold std_decode. rewrite Hf, std_encode_length. cbn [negb]. unfold std_encode. rewrite strip_std.
  - rewrite <- list_fmap_compose. rewrite (Forall_fmap_ext_1 _ id), list_fmap_id; [apply b64_decode_encode|].
    eapply Forall_impl; [apply b64_encode_alphabet|]. intros c Hc. by apply std_char.
  - intros Hc. by apply std_encode_char in Hc as (_ & _ & ?).
  - intros Hm E. apply fmap_nil_inv in E. apply (f_equal length) in E. rewrite b64_encode_length, Hm in E. cbn in E. lia.
Qed.
