(* ===== verification/Utf8.v ===== *)
(** * UTF-8 as Go's [unicode/utf8] decodes it, and [range] over a string. *)
From S2P Require Import Prelude.
#[local] Open Scope Z_scope.

Definition RuneError : Z := 65533.

(** The bounds of the second byte, which exclude overlong forms, surrogates
    and values above U+10FFFF. *)
Definition accept_lo (c0 : Z) : Z :=
  if c0 =? 0xE0 then 0xA0 else if c0 =? 0xF0 then 0x90 else 0x80.
Definition accept_hi (c0 : Z) : Z :=
  if c0 =? 0xED then 0x9F else if c0 =? 0xF4 then 0x8F else 0xBF.

Definition in_range (lo hi : Z) (b : ascii) : bool := (lo <=? code b) && (code b <=? hi).

(** [utf8.DecodeRune]: the rune and the number of bytes it takes. *)
Definition decode_rune (s : gostring) : Z * nat :=
  match s with
  | [] => (RuneError, 0%nat)
  | b0 :: t =>
      let c0 := code b0 in
      if c0 <? 0x80 then (c0, 1%nat)
      else if (c0 <? 0xC2) || (0xF4 <? c0) then (RuneError, 1%nat)
      else
        match t with
        | [] => (RuneError, 1%nat)
        | b1 :: t1 =>
            if negb (in_range (accept_lo c0) (accept_hi c0) b1) then (RuneError, 1%nat)
            else if c0 <? 0xE0 then
              (Z.lor (Z.shiftl (Z.land c0 0x1F) 6) (Z.land (code b1) 0x3F), 2%nat)
            else
              match t1 with
              | [] => (RuneError, 1%nat)
              | b2 :: t2 =>
                  if negb (in_range 0x80 0xBF b2) then (RuneError, 1%nat)
                  else if c0 <? 0xF0 then
                    (Z.lor (Z.lor (Z.shiftl (Z.land c0 0x0F) 12)
                                  (Z.shiftl (Z.land (code b1) 0x3F) 6))
                           (Z.land (code b2) 0x3F), 3%nat)
                  else
                    match t2 with
                    | [] => (RuneError, 1%nat)
                    | b3 :: _ =>
                        if negb (in_range 0x80 0xBF b3) then (RuneError, 1%nat)
                        else
                          (Z.lor (Z.lor (Z.lor (Z.shiftl (Z.land c0 0x07) 18)
                                               (Z.shiftl (Z.land (code b1) 0x3F) 12))
                                        (Z.shiftl (Z.land (code b2) 0x3F) 6))
                                 (Z.land (code b3) 0x3F), 4%nat)
                    end
              end
        end
  end.

(** [for i, r := range s]: the byte index and the rune of each step. [skip]
    counts the bytes of the current rune that are still to be passed over. *)
Fixpoint runes_from (skip i : nat) (s : gostring) : list (nat * Z) :=
  match s with
  | [] => []
  | c :: s' =>
      match skip with
      | S k => runes_from k (S i) s'
      | O => let d := decode_rune (c :: s') in
             (i, d.1) :: runes_from (d.2 - 1) (S i) s'
      end
  end.
Definition range_string (s : gostring) : list (nat * Z) := runes_from 0 0 s.
Definition runes (s : gostring) : list Z := snd <$> range_string s.

(** [utf8.Valid]: no decoding step reports an error of width one. *)
Fixpoint valid_from (skip : nat) (s : gostring) : bool :=
  match s with
  | [] => true
  | c :: s' =>
      match skip with
      | S k => valid_from k s'
      | O => let d := decode_rune (c :: s') in
             if bool_decide (d.2 = 1%nat) && (d.1 =? RuneError) then false
             else valid_from (d.2 - 1) s'
      end
  end.
Definition utf8_valid (s : gostring) : bool := valid_from 0 s.

Lemma decode_rune_size c s :
  (1 <= (decode_rune (c :: s)).2 <= length (c :: s))%nat.
Proof.
  unfold decode_rune. repeat case_match; simpl; lia.
Qed.

Lemma decode_rune_ascii c s : (code c <? 128) = true -> decode_rune (c :: s) = (code c, 1%nat).
Proof. intros H. unfold decode_rune. by rewrite H. Qed.

(** A byte below 0x80 is only ever decoded as itself. *)
Lemma runes_from_drop k i s :
  (k <= length s)%nat -> runes_from k i s = runes_from 0 (i + k) (drop k s).
Proof.
  revert i s; induction k as [|k IH]; intros i s Hk.
  - by rewrite Nat.add_0_r, drop_0.
  - destruct s as [|c s]; simpl in Hk; [lia|]. cbn [runes_from drop].
    rewrite IH by lia. f_equal. lia.
Qed.

Lemma runes_from_cons i c s :
  runes_from 0 i (c :: s) =
  (i, (decode_rune (c :: s)).1) ::
  runes_from 0 (i + (decode_rune (c :: s)).2) (drop (decode_rune (c :: s)).2 (c :: s)).
Proof.
  pose proof (decode_rune_size c s) as Hs. cbn [runes_from]. f_equal.
  destruct (decode_rune (c :: s)) as [r [|n]]; cbn [fst snd] in *; [lia|].
  rewrite runes_from_drop by (simpl in Hs; lia). cbn [drop]. rewrite Nat.sub_0_r || idtac.
  replace (S n - 1)%nat with n by lia. f_equal; lia.
Qed.

Lemma runes_from_shift k i j s :
  runes_from k (i + j) s = (fun p : nat * Z => ((p.1 + j)%nat, p.2)) <$> runes_from k i s.
Proof.
  revert k i; induction s as [|c s IH]; intros k i; [done|].
  destruct k as [|k]; cbn [runes_from].
  - cbn. f_equal. by rewrite <- (IH _ (S i)).
  - by rewrite <- (IH _ (S i)).
Qed.

Lemma runes_cons c s :
  runes (c :: s) = (decode_rune (c :: s)).1 :: runes (drop (decode_rune (c :: s)).2 (c :: s)).
Proof.
  unfold runes, range_string. rewrite runes_from_cons, fmap_cons. f_equal.
  rewrite runes_from_shift, <- list_fmap_compose. by apply list_fmap_ext.
Qed.

Lemma runes_ascii s : Forall (fun c => (code c <? 128) = true) s -> runes s = code <$> s.
Proof.
  induction 1 as [|c s Hc Hs IH]; [done|].
  rewrite runes_cons, decode_rune_ascii by done. cbn [fst snd].
  change (drop 1 (c :: s)) with s. by rewrite IH.
Qed.

(** [unicode.IsControl]: the Cc category, which lies in Latin-1. *)
Definition is_control (r : Z) : bool := ((0 <=? r) && (r <? 0x20)) || ((0x7F <=? r) && (r <? 0xA0)).

(** [unicode.IsSpace]. *)
Definition is_space (r : Z) : bool :=
  ((9 <=? r) && (r <=? 13)) || (r =? 32) || (r =? 0x85) || (r =? 0xA0) || (r =? 0x1680) ||
  ((0x2000 <=? r) && (r <=? 0x200a)) || (r =? 0x2028) || (r =? 0x2029) || (r =? 0x202f) ||
  (r =? 0x205f) || (r =? 0x3000).

(** [strings.TrimSpace]. A space is at most three bytes of valid UTF-8, so that
    looking for the last other rune from the left finds the one
    [utf8.DecodeLastRune] finds from the right. *)
Fixpoint trim_left_space (skip : nat) (s : gostring) : gostring :=
  match s with
  | [] => []
  | c :: s' =>
      match skip with
      | S k => trim_left_space k s'
      | O => let d := decode_rune (c :: s') in
             if is_space d.1 then trim_left_space (d.2 - 1) s' else c :: s'
      end
  end.

Fixpoint last_end (skip pos best : nat) (s : gostring) : nat :=
  match s with
  | [] => best
  | c :: s' =>
      match skip with
      | S k => last_end k (S pos) best s'
      | O => let d := decode_rune (c :: s') in
             last_end (d.2 - 1) (S pos) (if is_space d.1 then best else (pos + d.2)%nat) s'
      end
  end.

Definition trim_right_space (s : gostring) : gostring := take (last_end 0 0 0 s) s.
Definition trim_space (s : gostring) : gostring := trim_right_space (trim_left_space 0 s).

Example trim_space_sample : trim_space " a b	 " = "a b".
Proof. reflexivity. Qed.

(** [string(b)] for a byte [b]: the UTF-8 encoding of the code point [b]. *)
Definition string_of_byte (b : ascii) : gostring :=
  if code b <? 128 then [b]
  else [byte_of (0xc0 + code b / 64); byte_of (0x80 + code b mod 64)].

(** ** Valid strings as sequences of encoded characters *)

Definition is_cont (b : ascii) : bool := in_range 0x80 0xBF b.

Inductive char_ok : gostring -> Prop :=
  | char1 b0 : code b0 < 0x80 -> char_ok [b0]
  | char2 b0 b1 : 0xC2 <= code b0 < 0xE0 ->
      in_range (accept_lo (code b0)) (accept_hi (code b0)) b1 = true -> char_ok [b0; b1]
  | char3 b0 b1 b2 : 0xE0 <= code b0 < 0xF0 ->
      in_range (accept_lo (code b0)) (accept_hi (code b0)) b1 = true -> is_cont b2 = true ->
      char_ok [b0; b1; b2]
  | char4 b0 b1 b2 b3 : 0xF0 <= code b0 <= 0xF4 ->
      in_range (accept_lo (code b0)) (accept_hi (code b0)) b1 = true -> is_cont b2 = true ->
      is_cont b3 = true -> char_ok [b0; b1; b2; b3].

Lemma accept_cont c0 b : in_range (accept_lo c0) (accept_hi c0) b = true -> is_cont b = true.
Proof.
  unfold is_cont, in_range, accept_lo, accept_hi. intros H. bool_props.
  repeat case_match; apply andb_true_iff; split; apply Z.leb_le; lia.
Qed.

Lemma char_ok_shape ch : char_ok ch ->
  exists b0 tl, ch = b0 :: tl /\ is_cont b0 = false /\ Forall (fun b => is_cont b = true) tl.
Proof.
  assert (Hb : forall b, code b < 0x80 \/ 0xC0 <= code b -> is_cont b = false).
  { intros b H. unfold is_cont, in_range. apply andb_false_iff. rewrite !Z.leb_gt. lia. }
  intros []; eexists _, _; (split; [done|]); (split; [apply Hb; lia|]);
    repeat constructor; eauto using accept_cont.
Qed.

Lemma valid_from_drop k s : (k <= length s)%nat -> valid_from k s = utf8_valid (drop k s).
Proof.
  revert s; induction k as [|k IH]; intros s Hk; [by rewrite drop_0|].
  destruct s as [|c s]; cbn in Hk; [lia|]. cbn [valid_from drop]. apply IH. lia.
Qed.

Lemma utf8_valid_cons c s :
  utf8_valid (c :: s) =
  if bool_decide ((decode_rune (c :: s)).2 = 1%nat) && ((decode_rune (c :: s)).1 =? RuneError)
  then false else utf8_valid (drop (decode_rune (c :: s)).2 (c :: s)).
Proof.
  pose proof (decode_rune_size c s) as Hs. unfold utf8_valid at 1. cbn [valid_from].
  destruct (decode_rune (c :: s)) as [r [|n]]; cbn [fst snd] in *; [lia|].
  rewrite valid_from_drop by (cbn in Hs; lia). cbn [drop]. by replace (S n - 1)%nat with n by lia.
Qed.

Lemma utf8_valid_step c s :
  utf8_valid (c :: s) = true -> exists ch r, c :: s = ch ++ r /\ char_ok ch /\ utf8_valid r = true.
Proof.
  rewrite utf8_valid_cons. unfold decode_rune.
  destruct (code c <? 0x80) eqn:E0.
  { intros H. exists [c], s. split; [done|]. split; [constructor; lia|].
    cbn [fst snd drop] in H. by destruct (_ && _). }
  destruct ((code c <? 0xC2) || (0xF4 <? code c)) eqn:E1; [done|].
  destruct s as [|b1 s]; [done|]. destruct (in_range _ _ b1) eqn:R1; [|done]. cbn [negb].
  bool_props. destruct (code c <? 0xE0) eqn:E2.
  { intros H'. exists [c; b1], s. split; [done|]. split; [constructor; [lia|done]|].
    cbn [fst snd drop] in H'. by rewrite bool_decide_false in H' by done. }
  destruct s as [|b2 s]; [done|]. destruct (in_range 0x80 0xBF b2) eqn:R2; [|done]. cbn [negb].
  destruct (code c <? 0xF0) eqn:E3.
  { intros H'. exists [c; b1; b2], s. split; [done|]. split; [constructor; [lia|done|done]|].
    cbn [fst snd drop] in H'. by rewrite bool_decide_false in H' by done. }
  destruct s as [|b3 s]; [done|]. destruct (in_range 0x80 0xBF b3) eqn:R3; [|done]. cbn [negb].
  intros H'. exists [c; b1; b2; b3], s. split; [done|]. split; [constructor; (lia || done)|].
  cbn [fst snd drop] in H'. by rewrite bool_decide_false in H' by done.
Qed.

Lemma utf8_valid_char ch r : char_ok ch -> utf8_valid (ch ++ r) = utf8_valid r.
Proof.
  intros []; cbn [app]; rewrite utf8_valid_cons; unfold decode_rune; unfold is_cont in *.
  - rewrite (proj2 (Z.ltb_lt _ _)) by done. cbn [fst snd drop].
    replace (code b0 =? RuneError) with false by (symmetry; apply Z.eqb_neq; unfold RuneError; lia).
    by rewrite andb_false_r.
  - rewrite (proj2 (Z.ltb_ge _ _)) by lia. rewrite (proj2 (Z.ltb_ge _ _)) by lia.
    rewrite (proj2 (Z.ltb_ge _ _)) by lia. cbn [orb].
    match goal with E : in_range _ _ b1 = true |- _ => rewrite E end. cbn [negb].
    rewrite (proj2 (Z.ltb_lt _ _)) by lia. cbn [fst snd drop]. by rewrite bool_decide_false by done.
  - rewrite (proj2 (Z.ltb_ge _ _)) by lia. rewrite (proj2 (Z.ltb_ge _ _)) by lia.
    rewrite (proj2 (Z.ltb_ge _ _)) by lia. cbn [orb].
    match goal with E : in_range _ _ b1 = true |- _ => rewrite E end. cbn [negb].
    rewrite (proj2 (Z.ltb_ge _ _)) by lia.
    match goal with E : in_range _ _ b2 = true |- _ => rewrite E end. cbn [negb].
    rewrite (proj2 (Z.ltb_lt _ _)) by lia. cbn [fst snd drop]. by rewrite bool_decide_false by done.
  - rewrite (proj2 (Z.ltb_ge _ _)) by lia. rewrite (proj2 (Z.ltb_ge _ _)) by lia.
    rewrite (proj2 (Z.ltb_ge _ _)) by lia. cbn [orb].
    match goal with E : in_range _ _ b1 = true |- _ => rewrite E end. cbn [negb].
    rewrite (proj2 (Z.ltb_ge _ _)) by lia.
    match goal with E : in_range _ _ b2 = true |- _ => rewrite E end. cbn [negb].
    rewrite (proj2 (Z.ltb_ge _ _)) by lia.
    match goal with E : in_range _ _ b3 = true |- _ => rewrite E end. cbn [negb].
    cbn [fst snd drop]. by rewrite bool_decide_false by done.
Qed.

Lemma utf8_valid_app a b : utf8_valid a = true -> utf8_valid (a ++ b) = utf8_valid b.
Proof.
  remember (length a) as n eqn:Hn. revert a Hn. induction (lt_wf n) as [n _ IH]; intros a -> Ha.
  destruct a as [|c a]; [done|].
  destruct (utf8_valid_step _ _ Ha) as (ch & r & E & Hch & Hr). rewrite E, <- app_assoc.
  rewrite utf8_valid_char by done. eapply (IH (length r)); [|done|done].
  rewrite E, length_app. destruct (char_ok_shape _ Hch) as (? & ? & -> & _). cbn. lia.
Qed.

(** A string is cut between characters before any byte that starts one. *)
Lemma utf8_valid_cut a c b :
  utf8_valid (a ++ c :: b) = true -> is_cont c = false -> utf8_valid a = true /\ utf8_valid (c :: b) = true.
Proof.
  intros Hv Hc. remember (length a) as n eqn:Hn. revert a Hn Hv.
  induction (lt_wf n) as [n _ IH]; intros a -> Hv. destruct a as [|x a]; [done|].
  destruct (utf8_valid_step _ _ Hv) as (ch & r & E & Hch & Hr).
  destruct (char_ok_shape _ Hch) as (b0 & tl & -> & _ & Htl). cbn [app] in E. injection E as <- E.
  symmetry in E. apply app_eq_inv in E as [(k & -> & E2)|(k & -> & E)].
  - destruct k as [|y k].
    + cbn in E2. rewrite E2. split; [|done]. rewrite app_nil_r in *.
      rewrite <- (app_nil_r (x :: a)). by rewrite utf8_valid_char.
    + exfalso. injection E2 as -> _. apply Forall_app in Htl as [_ Htl].
      apply Forall_cons in Htl as [Hy _]. congruence.
  - destruct (IH (length k)) with (a := k) as [Hk Hcb]; [cbn; rewrite length_app; lia|done|by rewrite <- E|].
    split; [|done]. change (x :: tl ++ k) with ((x :: tl) ++ k). by rewrite utf8_valid_char.
Qed.

Lemma utf8_valid_head c s : utf8_valid (c :: s) = true -> is_cont c = false.
Proof.
  intros (ch & r & E & Hch & _)%utf8_valid_step.
  by destruct (char_ok_shape _ Hch) as (? & ? & -> & ? & _); injection E as -> _.
Qed.

Lemma is_cont_ascii c : code c < 128 -> is_cont c = false.
Proof. intros. unfold is_cont, in_range. apply andb_false_iff. left. apply Z.leb_gt. lia. Qed.

(** Around an occurrence of a valid string, a valid string is valid. *)
Lemma utf8_valid_around a t b :
  utf8_valid (a ++ t ++ b) = true -> utf8_valid t = true -> t <> [] ->
  utf8_valid a = true /\ utf8_valid b = true.
Proof.
  intros Hv Ht Hne. destruct t as [|c t]; [done|]. cbn [app] in Hv.
  apply utf8_valid_cut in Hv as [Ha Hb]; [|by eapply utf8_valid_head].
  split; [done|]. change (c :: t ++ b) with ((c :: t) ++ b) in Hb. by rewrite utf8_valid_app in Hb.
Qed.

Lemma utf8_valid_app_true a b : utf8_valid a = true -> utf8_valid b = true -> utf8_valid (a ++ b) = true.
Proof. intros Ha Hb. by rewrite utf8_valid_app. Qed.

(** A cut at an ASCII byte. *)
Lemma utf8_valid_ascii a c b :
  code c < 128 -> utf8_valid (a ++ c :: b) = true <-> utf8_valid a = true /\ utf8_valid b = true.
Proof.
  intros Hc. assert (H1 : forall r, utf8_valid (c :: r) = utf8_valid r).
  { intros r. apply (utf8_valid_char [c]). by constructor. }
  split.
  - intros Hv. apply utf8_valid_cut in Hv as [Ha Hb]; [|by apply is_cont_ascii].
    by rewrite H1 in Hb.
  - intros [Ha Hb]. apply utf8_valid_app_true; [done|]. by rewrite H1.
Qed.

Lemma utf8_valid_all_ascii s : Forall (fun c => code c < 128) s -> utf8_valid s = true.
Proof.
  induction 1 as [|c s Hc Hs IH]; [done|]. apply (utf8_valid_ascii [] c s Hc). done.
Qed.
