(* ===== verification/GoPath.v ===== *)
(** * Slash-separated paths: Go's package [path] *)
From S2P Require Import Prelude GoStrings.

Definition DOT : gostring := ".".
Definition DOTDOT : gostring := "..".

(** [path.Clean]. [clean_step] keeps the cleaned components in reverse. *)
Definition clean_step (rooted : bool) (out : list gostring) (c : gostring) : list gostring :=
  if decide (c = [] \/ c = DOT) then out
  else if decide (c = DOTDOT) then
    match out with
    | top :: out' => if decide (top = DOTDOT) then c :: out else out'
    | [] => if rooted then [] else [c]
    end
  else c :: out.

Definition is_rooted (p : gostring) : bool := has_prefix p [SLASH].

Definition clean (p : gostring) : gostring :=
  let rooted := is_rooted p in
  let comps := rev (foldl (clean_step rooted) [] (split_byte SLASH p)) in
  if rooted then SLASH :: join [SLASH] comps
  else if decide (comps = []) then DOT else join [SLASH] comps.

(** [path.Base]: the last component, after trailing slashes are dropped. *)
Fixpoint drop_slashes (r : gostring) : gostring :=
  match r with
  | c :: r' => if Ascii.eqb c SLASH then drop_slashes r' else r
  | [] => []
  end.

Definition base (p : gostring) : gostring :=
  if decide (p = []) then DOT
  else match rev (split_byte SLASH (rev (drop_slashes (rev p)))) with
       | w :: _ => if decide (w = []) then [SLASH] else w
       | [] => DOT
       end.

(** [path.Dir]. *)
Definition path_dir (p : gostring) : gostring :=
  clean (take (match last_index_any p [SLASH] with Some i => S i | None => O end) p).

(** [path.Join] of two elements. *)
Definition path_join (a b : gostring) : gostring :=
  if decide (a = []) then (if decide (b = []) then [] else clean b) else clean (a ++ SLASH :: b).

(** *** A cleaned path has proper components *)

(** Components of a cleaned path: [..] only as a leading run of a path that is
    not rooted, and never empty, [.] or with a slash. *)
Definition proper_component (c : gostring) : Prop := c <> [] /\ c <> DOT /\ SLASH ∉ c.

Fixpoint clean_stack (rooted : bool) (out : list gostring) : Prop :=
  match out with
  | [] => True
  | c :: out' => proper_component c /\ clean_stack rooted out' /\
                 (c = DOTDOT -> rooted = false /\ Forall (eq DOTDOT) out')
  end.

Lemma clean_step_stack rooted out c :
  clean_stack rooted out -> SLASH ∉ c -> clean_stack rooted (clean_step rooted out c).
Proof.
  unfold clean_step. intros Hout Hc. repeat case_decide.
  - done.
  - subst. destruct out as [|top out]; [destruct rooted; [done|]; by repeat split|].
    case_decide as Htop.
    + subst. destruct Hout as (? & ? & Hd). split; [done|]. split; [done|]. intros _.
      destruct (Hd eq_refl) as [-> ?]. split; [done|]. by constructor.
    + by destruct Hout as (? & ? & ?).
  - split; [|split; done]. split_and!; [| |done]; intros ->; auto.
Qed.

Lemma clean_fold_stack rooted out cs :
  clean_stack rooted out -> Forall (SLASH ∉.) cs ->
  clean_stack rooted (foldl (clean_step rooted) out cs).
Proof.
  intros Hout Hcs. revert out Hout. induction Hcs as [|c cs Hc Hcs IH]; intros out Hout; [done|].
  cbn. apply IH. by apply clean_step_stack.
Qed.

(** Cleaning is stable on components that are already clean. *)
Lemma clean_fold_stable rooted out cs :
  clean_stack rooted (rev cs ++ out) -> foldl (clean_step rooted) out cs = rev cs ++ out.
Proof.
  revert out; induction cs as [|c cs IH]; intros out Hst; [done|]. cbn [foldl rev].
  cbn [rev] in Hst. rewrite <- app_assoc in Hst |- *. cbn [app] in *.
  assert (Hc : clean_stack rooted (c :: out)).
  { clear IH. induction (rev cs) as [|d ds IH]; [done|]. apply IH. by destruct Hst as (? & ? & ?). }
  replace (clean_step rooted out c) with (c :: out); [by apply IH|].
  unfold clean_step. destruct Hc as ((? & ? & ?) & ? & Hd).
  rewrite decide_False by naive_solver. case_decide; [|done]. subst.
  destruct (Hd eq_refl) as [-> Ho]. destruct out as [|top out]; [done|].
  inversion Ho; subst. by rewrite decide_True.
Qed.

Definition comps_of (p : gostring) : list gostring :=
  rev (foldl (clean_step (is_rooted p)) [] (split_byte SLASH p)).

Lemma comps_of_stack p : clean_stack (is_rooted p) (rev (comps_of p)).
Proof.
  unfold comps_of. rewrite rev_involutive. apply clean_fold_stack; [done|].
  apply Forall_forall. intros c Hc. by eapply split_byte_no_sep.
Qed.

Lemma clean_stack_proper rooted out : clean_stack rooted out -> Forall proper_component out.
Proof. induction out; cbn; [by constructor|]. intros (? & ? & ?). constructor; auto. Qed.

Lemma comps_of_proper p : Forall proper_component (comps_of p).
Proof.
  pose proof (clean_stack_proper _ _ (comps_of_stack p)) as Hp.
  rewrite rev_alt in Hp. exact (proj1 (Forall_reverse _ _) Hp).
Qed.

Lemma proper_head_not_slash c : proper_component c -> has_prefix c [SLASH] = false.
Proof.
  intros (? & ? & Hs). destruct (has_prefix c [SLASH]) eqn:E; [|done].
  apply has_prefix_spec in E as [r ->]. destruct Hs. by left.
Qed.

Lemma join_proper_rooted cs : Forall proper_component cs -> is_rooted (join [SLASH] cs) = false.
Proof.
  intros Hcs. destruct Hcs as [|c cs (Hn & _ & Hs) Hcs]; [done|].
  destruct c as [|x c]; [done|]. unfold is_rooted.
  assert (x <> SLASH) by (intros ->; apply Hs; by left).
  assert (forall r, has_prefix (x :: r) [SLASH] = false) as Hx.
  { intros r. cbn. by rewrite (proj2 (Ascii.eqb_neq _ _)). }
  destruct cs; cbn; apply Hx.
Qed.

Lemma split_join_proper cs :
  cs <> [] -> Forall proper_component cs -> split_byte SLASH (join [SLASH] cs) = cs.
Proof.
  intros Hn Hcs. apply split_byte_join; [done|]. eapply Forall_impl; [done|]. by intros ? (? & ? & ?).
Qed.

(** [path.Clean] is idempotent. *)
Lemma clean_idemp p : clean (clean p) = clean p.
Proof.
  pose proof (comps_of_stack p) as Hst. pose proof (comps_of_proper p) as Hp.
  unfold clean at 2 3. fold (comps_of p). destruct (is_rooted p) eqn:Er.
  - unfold clean. assert (is_rooted (SLASH :: join [SLASH] (comps_of p)) = true) as ->
      by apply (has_prefix_app [SLASH]).
    f_equal. f_equal. cbn [split_byte]. rewrite Ascii.eqb_refl. cbn [foldl].
    destruct (decide (comps_of p = [])) as [->|Hn]; [done|].
    rewrite split_join_proper by done. change (clean_step true [] []) with (@nil gostring).
    rewrite clean_fold_stable by (by rewrite app_nil_r). by rewrite app_nil_r, rev_involutive.
  - case_decide as Hn; [done|]. unfold clean.
    rewrite join_proper_rooted by done. rewrite split_join_proper by done.
    rewrite clean_fold_stable by (by rewrite app_nil_r).
    rewrite app_nil_r, rev_involutive. by rewrite decide_False.
Qed.

(** *** Relative paths that stay inside *)

Lemma is_rooted_clean p : is_rooted (clean p) = is_rooted p.
Proof.
  unfold clean. fold (comps_of p). destruct (is_rooted p) eqn:Er; [apply (has_prefix_app [SLASH])|].
  case_decide; [done|]. apply join_proper_rooted, comps_of_proper.
Qed.

Lemma clean_relative p :
  is_rooted p = false -> clean p = if decide (comps_of p = []) then DOT else join [SLASH] (comps_of p).
Proof. intros Hr. unfold clean. fold (comps_of p). by rewrite Hr. Qed.

Lemma comps_of_clean p : comps_of (clean p) = comps_of p.
Proof.
  unfold comps_of at 1. rewrite is_rooted_clean.
  pose proof (comps_of_stack p) as Hst. pose proof (comps_of_proper p) as Hp.
  unfold clean. fold (comps_of p). destruct (is_rooted p) eqn:Er.
  - cbn [split_byte]. rewrite Ascii.eqb_refl. cbn [foldl].
    destruct (decide (comps_of p = [])) as [->|Hn]; [done|].
    rewrite split_join_proper by done. change (clean_step true [] []) with (@nil gostring).
    rewrite clean_fold_stable by (by rewrite app_nil_r). by rewrite app_nil_r, rev_involutive.
  - case_decide as Hn; [by rewrite Hn|]. rewrite split_join_proper by done.
    rewrite clean_fold_stable by (by rewrite app_nil_r). by rewrite app_nil_r, rev_involutive.
Qed.

(** A [..] among the components means the first is one. *)
Lemma comps_of_dotdot p :
  DOTDOT ∈ comps_of p <-> exists r, comps_of p = DOTDOT :: r.
Proof.
  split; [|intros [r ->]; left]. pose proof (comps_of_stack p) as Hst. revert Hst.
  generalize (is_rooted p). intros rooted. induction (comps_of p) as [|c cs IH] using rev_ind; [by intros _ ?%elem_of_nil|].
  rewrite rev_app_distr. cbn [rev app clean_stack]. intros (Hc & Hst & Hd) Hin.
  destruct cs as [|c0 cs]; [apply list_elem_of_singleton in Hin as <-; by exists []|].
  apply elem_of_app in Hin as [Hin|Hin%list_elem_of_singleton].
  - destruct (IH Hst Hin) as [r Hr]. injection Hr as -> ->. by exists (r ++ [c]).
  - subst c. destruct (Hd eq_refl) as [_ Hall]. rewrite rev_alt in Hall.
    apply (proj1 (Forall_reverse _ _)) in Hall. apply Forall_cons in Hall as [<- _]. by exists (cs ++ [DOTDOT]).
Qed.

Lemma clean_fold_push rooted out cs :
  Forall proper_component cs -> DOTDOT ∉ cs -> foldl (clean_step rooted) out cs = rev cs ++ out.
Proof.
  intros Hp. revert out. induction Hp as [|c cs (Hn & Hd & Hs) Hp IH]; intros out Hin; [done|].
  rewrite not_elem_of_cons in Hin. destruct Hin as [Hne Hin]. cbn [foldl rev].
  replace (clean_step rooted out c) with (c :: out); [by rewrite IH, <- app_assoc|].
  unfold clean_step. rewrite decide_False by naive_solver. by rewrite decide_False by done.
Qed.

Lemma split_byte_app c a b : split_byte c (a ++ c :: b) = split_byte c a ++ split_byte c b.
Proof.
  induction a as [|x a IH]; cbn [app split_byte]; [by rewrite Ascii.eqb_refl|].
  rewrite IH. destruct (Ascii.eqb x c); [done|].
  destruct (split_byte c a) eqn:E; [by apply split_byte_ne in E|done].
Qed.

(** Joining a cleaned relative path without [..] to a directory appends its components. *)
Lemma comps_of_join root p :
  is_rooted root = true -> is_rooted p = false -> clean p = p -> DOTDOT ∉ comps_of p ->
  comps_of (root ++ SLASH :: p) = comps_of root ++ comps_of p.
Proof.
  intros Hroot Hp Hc Hd. unfold comps_of at 1.
  assert (is_rooted (root ++ SLASH :: p) = true) as ->.
  { unfold is_rooted in *. apply has_prefix_spec in Hroot as [r ->]. rewrite <- app_assoc. apply has_prefix_app. }
  rewrite split_byte_app, foldl_app.
  replace (foldl (clean_step true) [] (split_byte SLASH root)) with (rev (comps_of root))
    by (unfold comps_of; by rewrite Hroot, rev_involutive).
  rewrite clean_relative in Hc by done. case_decide as Hn.
  - rewrite Hn, app_nil_r, <- Hc. change (split_byte SLASH DOT) with [DOT]. cbn [foldl].
    change (clean_step true ?o DOT) with o. apply rev_involutive.
  - rewrite <- Hc at 1. rewrite split_join_proper by (done || apply comps_of_proper).
    rewrite clean_fold_push by (done || apply comps_of_proper).
    by rewrite rev_app_distr, !rev_involutive.
Qed.

(** Cleaning adds no byte but slashes and dots. *)
Lemma comps_of_bytes p w c : w ∈ comps_of p -> c ∈ w -> c ∈ p \/ w = DOTDOT.
Proof.
  unfold comps_of. rewrite rev_alt. change (rev_append ?l []) with (reverse l). rewrite elem_of_reverse.
  assert (Hg : forall cs out, (forall w, w ∈ cs -> c ∈ w -> c ∈ p) ->
    (forall w, w ∈ out -> c ∈ w -> c ∈ p \/ w = DOTDOT) ->
    forall w, w ∈ foldl (clean_step (is_rooted p)) out cs -> c ∈ w -> c ∈ p \/ w = DOTDOT).
  { induction cs as [|d cs IH]; intros out Hcs Hout; cbn [foldl]; [done|]. apply IH.
    - intros v Hv. apply Hcs. by right.
    - intros v. unfold clean_step. repeat case_decide.
      + apply Hout.
      + destruct out as [|top out]; [destruct (is_rooted p)|]; repeat case_decide;
          rewrite ?elem_of_cons in *; intros Hin Hcv; try (by apply elem_of_nil in Hin);
          set_solver.
      + rewrite elem_of_cons. intros [->|?]; [left; apply (Hcs d); [by left|done]|by apply Hout]. }
  apply Hg; [|set_solver]. clear. intros w Hw Hc. rewrite <- (join_split_byte SLASH p).
  induction (split_byte SLASH p) as [|v vs IH]; [by apply elem_of_nil in Hw|].
  apply elem_of_cons in Hw as [->|Hw].
  - destruct vs; cbn; [done|]. apply elem_of_app. by left.
  - rewrite join_cons by (intros ->; by apply elem_of_nil in Hw). rewrite !elem_of_app. auto.
Qed.

Lemma clean_bytes p c : c ∈ clean p -> c ∈ p \/ c = SLASH \/ c = "."%char.
Proof.
  assert (Hj : c ∈ join [SLASH] (comps_of p) -> c ∈ p \/ c = SLASH \/ c = "."%char).
  { assert (Hj : forall l, (forall w, w ∈ l -> c ∈ w -> c ∈ p \/ w = DOTDOT) ->
      c ∈ join [SLASH] l -> c ∈ p \/ c = SLASH \/ c = "."%char).
    { induction l as [|w l IH]; intros Hl; [by intros ?%elem_of_nil|].
      assert (Hw : c ∈ w -> c ∈ p \/ c = SLASH \/ c = "."%char).
      { intros Hin. destruct (Hl w) as [?| ->]; [by left|done|by left|].
        right; right. unfold DOTDOT in Hin. set_solver. }
      destruct (decide (l = [])) as [->|Hn]; [done|]. rewrite join_cons by done.
      rewrite !elem_of_app, list_elem_of_singleton. intros [?|[?|?]]; auto. apply IH; [|done].
      intros v Hv. apply Hl. by right. }
    apply Hj. intros w. apply comps_of_bytes. }
  unfold clean. fold (comps_of p). destruct (is_rooted p).
  - rewrite elem_of_cons. intros [->|?]; auto.
  - case_decide; [|auto]. unfold DOT. rewrite list_elem_of_singleton. auto.
Qed.

Example clean_sample : clean "a/./b//../c/" = "a/c" /\ clean "/../x" = "/x" /\ clean "../../y/.." = "../..".
Proof. repeat split; vm_compute; reflexivity. Qed.
