(* ===== verification/TextTypes.v ===== *)
(** * Text files: limits, error classes, encodings and metadata
    ([internal/textfile/types.go]). *)
From S2P Require Import Prelude GoStrings.
From Corelib Require Import Floats.SpecFloat.
#[local] Open Scope Z_scope.

(** ** float64

    IEEE 754 binary64 values and the correctly rounded operations, as the
    executable specification of floating point in the core library gives them. *)
Module Float64.
Definition t := spec_float.
Definition of_Z (n : Z) : t := binary_normalize 53 1024 n 0 false.
Definition add : t -> t -> t := SFadd 53 1024.
Definition mul : t -> t -> t := SFmul 53 1024.
Definition div : t -> t -> t := SFdiv 53 1024.
Definition gt (a b : t) : bool := SFltb b a.
(** The literal [n/100]: the nearest double of a two-digit decimal. *)
Definition percent (n : Z) : t := div (of_Z n) (of_Z 100).
End Float64.
#[global] Opaque Float64.of_Z Float64.add Float64.mul Float64.div Float64.gt Float64.percent.

(** ** Limits *)
Definition DefaultMaxInputBytes : Z := Z.shiftl 8 20.
Definition DefaultMaxDecodedBytes : Z := Z.shiftl 16 20.
Definition DefaultMaxEncodedBytes : Z := Z.shiftl 16 20.
Definition DefaultMaxEdits : Z := 128.
Definition DefaultMaxMatches : Z := 10000.
Definition hardMaxBytes : Z := Z.shiftl 64 20.
Definition hardMaxEdits : Z := 4096.
Definition hardMaxMatches : Z := 1000000.

Inductive text_error :=
  | ErrTooLarge
  | ErrBinary
  | ErrInvalidEncoding
  | ErrInvalidOptions
  | ErrNotFound
  | ErrAmbiguousMatch
  | ErrEditConflict
  | ErrTooManyEdits
  | ErrDiffTooComplex.

#[export] Instance text_error_eq_dec : EqDecision text_error.
Proof. solve_decision. Defined.

(** [EncodingUnset] is the empty string a zero [Metadata] holds. *)
Inductive Encoding :=
  | EncodingUnset
  | EncodingUTF8
  | EncodingUTF16LE
  | EncodingUTF16BE
  | EncodingEUCKR
  | EncodingShiftJIS
  | EncodingISO88591.

#[export] Instance Encoding_eq_dec : EqDecision Encoding.
Proof. solve_decision. Defined.

Inductive BOM := BOMNone | BOMUTF8 | BOMUTF16LE | BOMUTF16BE.

#[export] Instance BOM_eq_dec : EqDecision BOM.
Proof. solve_decision. Defined.

Definition BOM_Bytes (b : BOM) : gostring :=
  match b with
  | BOMNone => []
  | BOMUTF8 => [byte_of 0xef; byte_of 0xbb; byte_of 0xbf]
  | BOMUTF16LE => [byte_of 0xff; byte_of 0xfe]
  | BOMUTF16BE => [byte_of 0xfe; byte_of 0xff]
  end.

Inductive NewlineStyle := NewlineNone | NewlineLF | NewlineCRLF | NewlineCR | NewlineMixed.

#[export] Instance NewlineStyle_eq_dec : EqDecision NewlineStyle.
Proof. solve_decision. Defined.

Record Metadata := mkMetadata {
  meta_Encoding : Encoding;
  meta_BOM : BOM;
  meta_NewlineStyle : NewlineStyle;
  meta_DominantNewline : NewlineStyle;
  meta_LFCount : Z;
  meta_CRLFCount : Z;
  meta_CRCount : Z;
  meta_Confidence : Float64.t
}.

Record Limits := mkLimits {
  MaxInputBytes : Z;
  MaxDecodedBytes : Z;
  MaxEncodedBytes : Z;
  MaxEdits : Z;
  MaxMatches : Z
}.

Definition DefaultLimits : Limits :=
  mkLimits DefaultMaxInputBytes DefaultMaxDecodedBytes DefaultMaxEncodedBytes
           DefaultMaxEdits DefaultMaxMatches.

Definition or_default (value default : Z) : Z := if value =? 0 then default else value.

Definition resolveLimits (lim : Limits) : result text_error Limits :=
  let out := mkLimits
    (or_default (MaxInputBytes lim) (MaxInputBytes DefaultLimits))
    (or_default (MaxDecodedBytes lim) (MaxDecodedBytes DefaultLimits))
    (or_default (MaxEncodedBytes lim) (MaxEncodedBytes DefaultLimits))
    (or_default (MaxEdits lim) (MaxEdits DefaultLimits))
    (or_default (MaxMatches lim) (MaxMatches DefaultLimits)) in
  reject (MaxInputBytes out <? 0) || (hardMaxBytes <? MaxInputBytes out) ||
         (MaxDecodedBytes out <? 0) || (hardMaxBytes <? MaxDecodedBytes out) ||
         (MaxEncodedBytes out <? 0) || (hardMaxBytes <? MaxEncodedBytes out) ||
         (MaxEdits out <? 0) || (hardMaxEdits <? MaxEdits out) ||
         (MaxMatches out <? 0) || (hardMaxMatches <? MaxMatches out)
  with ErrInvalidOptions;
  Ok out.

(** What [resolveLimits] guarantees to the rest of the package. *)
Record limits_ok (l : Limits) : Prop := {
  lo_input : 0 < MaxInputBytes l <= hardMaxBytes;
  lo_decoded : 0 < MaxDecodedBytes l <= hardMaxBytes;
  lo_encoded : 0 < MaxEncodedBytes l <= hardMaxBytes;
  lo_edits : 0 < MaxEdits l <= hardMaxEdits;
  lo_matches : 0 < MaxMatches l <= hardMaxMatches
}.

Lemma or_default_nonzero v d : d <> 0 -> or_default v d <> 0.
Proof. unfold or_default. destruct (Z.eqb_spec v 0); lia. Qed.

Lemma resolveLimits_ok l l' : resolveLimits l = Ok l' -> limits_ok l'.
Proof.
  unfold resolveLimits. intros H. inv_ok. bool_props.
  cbn [MaxInputBytes MaxDecodedBytes MaxEncodedBytes MaxEdits MaxMatches] in *.
  split; cbn [MaxInputBytes MaxDecodedBytes MaxEncodedBytes MaxEdits MaxMatches DefaultLimits] in *;
  match goal with |- context [or_default ?v ?d] =>
    pose proof (or_default_nonzero v d ltac:(vm_compute; discriminate)) end; lia.
Qed.
