(* ===== verification/Newlines.v ===== *)
(** * Line endings ([internal/textfile/codec.go]: [inspectNewlines],
    [normalizeNewlines]) *)
From S2P Require Import Prelude GoStrings TextTypes.
#[local] Open Scope Z_scope.

(** ** The code *)

(** The scanning loop of [inspectNewlines]: the counters and the style of the
    first line ending. *)
Fixpoint inspect_loop (text : gostring) (lf crlf cr : Z) (first : NewlineStyle)
  : Z * Z * Z * NewlineStyle :=
  match text with
  | [] => (lf, crlf, cr, first)
  | c :: rest =>
      if Ascii.eqb c CR then
        match rest with
        | d :: rest' =>
            if Ascii.eqb d LF
            then inspect_loop rest' lf (crlf + 1) cr
                   (if decide (first = NewlineNone) then NewlineCRLF else first)
            else inspect_loop rest lf crlf (cr + 1)
                   (if decide (first = NewlineNone) then NewlineCR else first)
        | [] => inspect_loop rest lf crlf (cr + 1)
                  (if decide (first = NewlineNone) then NewlineCR else first)
        end
      else if Ascii.eqb c LF then
        inspect_loop rest (lf + 1) crlf cr
          (if decide (first = NewlineNone) then NewlineLF else first)
      else inspect_loop rest lf crlf cr first
  end.

Definition b2z (b : bool) : Z := if b then 1 else 0.

(** The selection loop over the three [(style, count)] pairs. *)
Fixpoint dominant_loop (first : NewlineStyle) (items : list (NewlineStyle * Z))
    (dominant : NewlineStyle) (max : Z) : NewlineStyle :=
  match items with
  | [] => dominant
  | (style, count) :: items' =>
      if (max <? count) || ((count =? max) && bool_decide (style = first))
      then dominant_loop first items' style count
      else dominant_loop first items' dominant max
  end.

Definition inspectNewlines (text : gostring) : NewlineStyle * NewlineStyle * Z * Z * Z :=
  let '(lf, crlf, cr, first) := inspect_loop text 0 0 0 NewlineNone in
  let kinds := b2z (0 <? lf) + b2z (0 <? crlf) + b2z (0 <? cr) in
  if kinds =? 0 then (NewlineNone, NewlineNone, 0, 0, 0)
  else
    let style := if 1 <? kinds then NewlineMixed else first in
    let dominant :=
      dominant_loop first [(NewlineLF, lf); (NewlineCRLF, crlf); (NewlineCR, cr)] first (-1) in
    (style, dominant, lf, crlf, cr).

Definition newline_separator (style : NewlineStyle) : gostring :=
  match style with
  | NewlineCRLF => [CR; LF]
  | NewlineCR => [CR]
  | _ => [LF]
  end.

(** The measuring loop, which stops as soon as the limit is passed. *)
Fixpoint normalized_length (text sep : gostring) (limit length : Z) : result text_error Z :=
  let step rest length' :=
    reject (limit <? length') with ErrTooLarge;
    normalized_length rest sep limit length' in
  match text with
  | [] => Ok length
  | c :: rest =>
      if Ascii.eqb c CR then
        match rest with
        | d :: rest' => if Ascii.eqb d LF then step rest' (length + len sep)
                        else step rest (length + len sep)
        | [] => step rest (length + len sep)
        end
      else if Ascii.eqb c LF then step rest (length + len sep)
      else step rest (length + 1)
  end.

(** The writing loop. *)
Fixpoint normalized_text (text sep : gostring) : gostring :=
  match text with
  | [] => []
  | c :: rest =>
      if Ascii.eqb c CR then
        match rest with
        | d :: rest' => if Ascii.eqb d LF then sep ++ normalized_text rest' sep
                        else sep ++ normalized_text rest sep
        | [] => sep ++ normalized_text rest sep
        end
      else if Ascii.eqb c LF then sep ++ normalized_text rest sep
      else c :: normalized_text rest sep
  end.

Definition normalizeNewlines (text : gostring) (style : NewlineStyle) (limit : Z)
  : result text_error gostring :=
  if decide (style = NewlineNone) then
    reject limit <? len text with ErrTooLarge; Ok text
  else
    let sep := newline_separator style in
    _ ← normalized_length text sep limit 0;
    Ok (normalized_text text sep).

(** ** Specification: a text is a sequence of ordinary bytes and line endings *)
Inductive token := Plain (c : ascii) | Newline (style : NewlineStyle).

#[export] Instance token_eq_dec : EqDecision token.
Proof. solve_decision. Defined.

Definition render_token (t : token) : gostring :=
  match t with
  | Plain c => [c]
  | Newline s => newline_separator s
  end.

Fixpoint tokens (text : gostring) : list token :=
  match text with
  | [] => []
  | c :: rest =>
      if Ascii.eqb c CR then
        match rest with
        | d :: rest' => if Ascii.eqb d LF then Newline NewlineCRLF :: tokens rest'
                        else Newline NewlineCR :: tokens rest
        | [] => Newline NewlineCR :: tokens rest
        end
      else if Ascii.eqb c LF then Newline NewlineLF :: tokens rest
      else Plain c :: tokens rest
  end.

(** A newline token with another ending, or the byte it is. *)
Definition with_style (style : NewlineStyle) (t : token) : token :=
  match t with Plain c => Plain c | Newline _ => Newline style end.

Definition count_style (s : NewlineStyle) (l : list token) : Z :=
  len (filter (fun t => t = Newline s) l).

(** Induction over a text that follows the scanning loops: one byte, or the
    two bytes of a CRLF. *)
Lemma scan_ind (P : gostring -> Prop) :
  P [] ->
  (forall s, P s -> P (CR :: LF :: s)) ->
  (forall s, head s <> Some LF -> P s -> P (CR :: s)) ->
  (forall s, P s -> P (LF :: s)) ->
  (forall c s, c <> CR -> c <> LF -> P s -> P (c :: s)) ->
  forall s, P s.
Proof.
  intros H0 H1 H2 H3 H4 s.
  remember (length s) as n eqn:Hn. revert s Hn.
  induction n as [n IH] using lt_wf_ind. intros s ->.
  destruct s as [|c s]; [done|].
  destruct (Ascii.eqb_spec c CR) as [->|Hcr].
  - destruct s as [|d s].
    + apply H2; [done|]. apply H0.
    + destruct (Ascii.eqb_spec d LF) as [->|Hlf].
      * apply H1. eapply IH; [|done]. simpl. lia.
      * apply H2; [by intros [= ->]|]. eapply IH; [|done]. simpl. lia.
  - destruct (Ascii.eqb_spec c LF) as [->|Hlf].
    + apply H3. eapply IH; [|done]. simpl. lia.
    + apply H4; [done..|]. eapply IH; [|done]. simpl. lia.
Qed.

(** The five shapes of a scanning step, as rewriting equations of any loop
    written the way the code writes it. *)
Lemma eqb_CR : Ascii.eqb CR CR = true. Proof. done. Qed.
Lemma eqb_LF : Ascii.eqb LF LF = true. Proof. done. Qed.
Lemma eqb_LF_CR : Ascii.eqb LF CR = false. Proof. done. Qed.
Lemma eqb_ne a b : a <> b -> Ascii.eqb a b = false.
Proof. apply Ascii.eqb_neq. Qed.

Ltac scan_simpl :=
  repeat first
    [ rewrite eqb_CR | rewrite eqb_LF | rewrite eqb_LF_CR
    | rewrite eqb_ne by done ].

(** Computes one step of the loops at the case of [scan_ind] at hand. *)
Ltac scan_step f :=
  cbn [f]; scan_simpl;
  try match goal with
  | H : head ?s <> Some LF |- _ =>
      let d := fresh "d" in
      destruct s as [|d ?];
      [| rewrite ?(eqb_ne d LF) by (intros ->; by apply H) ]; cbn match in *
  end.

Definition proper_style (s : NewlineStyle) : Prop :=
  s = NewlineLF \/ s = NewlineCRLF \/ s = NewlineCR.

(** The equations of [tokens] on the five shapes. *)
Lemma tokens_CRLF s : tokens (CR :: LF :: s) = Newline NewlineCRLF :: tokens s.
Proof. done. Qed.
Lemma tokens_CR s : head s <> Some LF -> tokens (CR :: s) = Newline NewlineCR :: tokens s.
Proof. intros H. by scan_step tokens. Qed.
Lemma tokens_LF s : tokens (LF :: s) = Newline NewlineLF :: tokens s.
Proof. done. Qed.
Lemma tokens_plain c s : c <> CR -> c <> LF -> tokens (c :: s) = Plain c :: tokens s.
Proof. intros H1 H2. by scan_step tokens. Qed.

Lemma normalized_text_CR s sep :
  head s <> Some LF -> normalized_text (CR :: s) sep = sep ++ normalized_text s sep.
Proof. intros H. by scan_step normalized_text. Qed.
Lemma normalized_text_plain c s sep :
  c <> CR -> c <> LF -> normalized_text (c :: s) sep = c :: normalized_text s sep.
Proof. intros H1 H2. by scan_step normalized_text. Qed.

(** A text is the concatenation of its tokens. *)
Lemma tokens_render s : concat (render_token <$> tokens s) = s.
Proof.
  induction s as [|s IH|s Hs IH|s IH|c s H1 H2 IH] using scan_ind; [done|..].
  - rewrite tokens_CRLF. cbn. by f_equal; f_equal.
  - rewrite tokens_CR by done. cbn. by f_equal.
  - rewrite tokens_LF. cbn. by f_equal.
  - rewrite tokens_plain by done. cbn. by f_equal.
Qed.

(** Its newline tokens carry one of the three styles. *)
Lemma tokens_proper s st : Newline st ∈ tokens s -> proper_style st.
Proof.
  unfold proper_style.
  induction s as [|s IH|s Hs IH|s IH|c s H1 H2 IH] using scan_ind.
  - by intros ?%elem_of_nil.
  - rewrite tokens_CRLF, elem_of_cons. naive_solver.
  - rewrite tokens_CR, elem_of_cons by done. naive_solver.
  - rewrite tokens_LF, elem_of_cons. naive_solver.
  - rewrite tokens_plain, elem_of_cons by done. naive_solver.
Qed.

Lemma normalized_text_tokens s style :
  normalized_text s (newline_separator style) =
  concat (render_token ∘ with_style style <$> tokens s).
Proof.
  induction s as [|s IH|s Hs IH|s IH|c s H1 H2 IH] using scan_ind; [done|..].
  - rewrite tokens_CRLF. cbn. by f_equal.
  - rewrite tokens_CR, normalized_text_CR by done. cbn. by f_equal.
  - rewrite tokens_LF. cbn. by f_equal.
  - rewrite tokens_plain, normalized_text_plain by done. cbn. by f_equal.
Qed.

(** Rendering with one style and scanning again finds the same tokens. *)
Lemma tokens_normalized s style :
  proper_style style ->
  tokens (normalized_text s (newline_separator style)) = with_style style <$> tokens s.
Proof.
  intros Hst.
  assert (Hnl : forall t, head t <> Some LF ->
            tokens (newline_separator style ++ t) = Newline style :: tokens t).
  { intros t Ht. destruct Hst as [->|[->| ->]]; [done..|]. cbn [newline_separator app].
    by apply tokens_CR. }
  assert (Hhead : forall t, head (normalized_text t (newline_separator style)) = Some LF ->
            style = NewlineLF).
  { intros t. induction t as [|s' IH|s' Hs IH|s' IH|c s' H1 H2 IH] using scan_ind; [done|..].
    - by destruct Hst as [->|[->| ->]].
    - rewrite normalized_text_CR by done. by destruct Hst as [->|[->| ->]].
    - by destruct Hst as [->|[->| ->]].
    - rewrite normalized_text_plain by done. cbn. by intros [= ->]. }
  assert (Hsep : forall t,
            tokens (newline_separator style ++ normalized_text t (newline_separator style)) =
            Newline style :: tokens (normalized_text t (newline_separator style))).
  { intros t. destruct (decide (style = NewlineLF)) as [->|Hne]; [done|].
    apply Hnl. intros H. by apply Hhead in H. }
  induction s as [|s IH|s Hs IH|s IH|c s H1 H2 IH] using scan_ind; [done|..].
  - rewrite tokens_CRLF. cbn [normalized_text]. scan_simpl. rewrite Hsep, IH. done.
  - rewrite tokens_CR, normalized_text_CR, Hsep, IH by done. done.
  - rewrite tokens_LF. cbn [normalized_text]. scan_simpl. rewrite Hsep, IH. done.
  - rewrite tokens_plain, normalized_text_plain, tokens_plain, IH by done. done.
Qed.

(** The reference: the output of the writing loop when it fits. *)
Definition fits (limit n : Z) : result text_error Z :=
  if limit <? n then Err ErrTooLarge else Ok n.

Lemma fits_step limit s sep n k :
  0 <= k ->
  (forall m, m <= limit ->
     normalized_length s sep limit m = fits limit (m + len (normalized_text s sep))) ->
  guard_err (limit <? n + k) ErrTooLarge (normalized_length s sep limit (n + k)) =
  fits limit (n + (k + len (normalized_text s sep))).
Proof.
  intros Hk IH. unfold guard_err. rewrite Z.add_assoc.
  destruct (Z.ltb_spec limit (n + k)) as [Hlt|Hge]; [|by apply IH].
  pose proof (len_nonneg (normalized_text s sep)).
  unfold fits. by rewrite (proj2 (Z.ltb_lt _ _)) by lia.
Qed.

(** The measuring loop stops early exactly when the whole output is too long. *)
Lemma normalized_length_spec text sep limit n :
  n <= limit ->
  normalized_length text sep limit n = fits limit (n + len (normalized_text text sep)).
Proof.
  revert n. induction text as [|s IH|s Hs IH|s IH|c s H1 H2 IH] using scan_ind; intros n Hn.
  - cbn [normalized_length normalized_text]. unfold fits, len. cbn.
    rewrite Z.add_0_r. destruct (Z.ltb_spec limit n); [lia|done].
  - cbn [normalized_length normalized_text]. scan_simpl. rewrite len_app.
    by apply fits_step; [apply len_nonneg|].
  - rewrite normalized_text_CR, len_app by done. scan_step normalized_length;
      apply fits_step; auto using len_nonneg.
  - cbn [normalized_length normalized_text]. scan_simpl. rewrite len_app.
    by apply fits_step; [apply len_nonneg|].
  - rewrite normalized_text_plain by done. scan_step normalized_length.
    change (c :: ?l) with ([c] ++ l). rewrite len_app. by apply fits_step.
Qed.

(** *** [inspectNewlines] *)
Definition first_newline (l : list token) : NewlineStyle :=
  match omap (fun t => match t with Newline s => Some s | Plain _ => None end) l with
  | [] => NewlineNone
  | s :: _ => s
  end.

Lemma count_style_cons s t l :
  count_style s (t :: l) = (if decide (t = Newline s) then 1 else 0) + count_style s l.
Proof.
  unfold count_style. rewrite filter_cons. case_decide; unfold len; cbn [length]; lia.
Qed.

Lemma count_style_nonneg s l : 0 <= count_style s l.
Proof. apply len_nonneg. Qed.

Ltac count_step :=
  cbn; repeat case_decide; simplify_eq;
  repeat match goal with |- (_, _) = (_, _) => apply f_equal2 end; try lia; try done.

Lemma inspect_loop_spec s lf crlf cr first :
  inspect_loop s lf crlf cr first =
  (lf + count_style NewlineLF (tokens s), crlf + count_style NewlineCRLF (tokens s),
   cr + count_style NewlineCR (tokens s),
   if decide (first = NewlineNone) then first_newline (tokens s) else first).
Proof.
  revert lf crlf cr first.
  induction s as [|s IH|s Hs IH|s IH|c s H1 H2 IH] using scan_ind; intros lf crlf cr first.
  - cbn. unfold count_style, len. count_step.
  - rewrite tokens_CRLF, !count_style_cons. cbn [inspect_loop]. scan_simpl.
    rewrite IH. count_step.
  - rewrite tokens_CR, !count_style_cons by done. scan_step inspect_loop; rewrite IH; count_step.
  - rewrite tokens_LF, !count_style_cons. cbn [inspect_loop]. scan_simpl. rewrite IH. count_step.
  - rewrite tokens_plain, !count_style_cons by done. cbn [inspect_loop]. scan_simpl.
    rewrite IH. count_step.
Qed.

(** The first line ending is among those counted. *)
Lemma first_newline_counted l :
  (forall st, Newline st ∈ l -> proper_style st) ->
  match first_newline l with
  | NewlineNone => forall s, count_style s l = 0
  | s => proper_style s /\ 0 < count_style s l
  end.
Proof.
  induction l as [|t l IH]; intros Hp; [done|].
  assert (IH' := IH ltac:(intros st Hst; apply Hp; by right)). clear IH.
  destruct t as [c|st].
  - change (first_newline (Plain c :: l)) with (first_newline l).
    assert (Hc : forall s, count_style s (Plain c :: l) = count_style s l)
      by (intros s; by rewrite count_style_cons).
    destruct (first_newline l); cbn zeta in *;
      [intros s; rewrite Hc; apply IH' | rewrite Hc; exact IH' ..].
  - change (first_newline (Newline st :: l)) with st.
    assert (proper_style st) as Hst by (apply Hp; left).
    pose proof (count_style_nonneg st l).
    destruct st; try (by destruct Hst as [?|[?|?]]); cbn zeta;
      rewrite count_style_cons, decide_True by done; split; auto; lia.
Qed.

(** What [inspectNewlines] reports about a sequence of tokens. *)
Record newline_report (l : list token)
    (style dominant : NewlineStyle) (lf crlf cr : Z) : Prop := {
  nr_lf : lf = count_style NewlineLF l;
  nr_crlf : crlf = count_style NewlineCRLF l;
  nr_cr : cr = count_style NewlineCR l;
  nr_none : style = NewlineNone <-> (forall s, count_style s l = 0);
  nr_uniform : forall s, proper_style s ->
    (style = s <-> 0 < count_style s l /\ forall s', s' <> s -> count_style s' l = 0);
  nr_dominant : forall s, count_style s l <= count_style dominant l;
  nr_tie : count_style (first_newline l) l = count_style dominant l -> dominant = first_newline l
}.

Lemma count_style_absent s l : Newline s ∉ l -> count_style s l = 0.
Proof.
  induction l as [|t l IH]; [done|]. rewrite not_elem_of_cons. intros [Hne Hin].
  rewrite count_style_cons, decide_False by done. rewrite IH by done. done.
Qed.

(** The selection loop picks a maximal count, the first ending on a tie. *)
Lemma dominant_loop_max first lf crlf cr :
  0 <= lf -> 0 <= crlf -> 0 <= cr ->
  let count s := match s with
                 | NewlineLF => lf | NewlineCRLF => crlf | NewlineCR => cr | _ => 0 end in
  let d := dominant_loop first [(NewlineLF, lf); (NewlineCRLF, crlf); (NewlineCR, cr)] first (-1) in
  (forall s, count s <= count d) /\
  (proper_style first -> count first = count d -> d = first).
Proof.
  intros H1 H2 H3. cbn [dominant_loop].
  repeat match goal with
  | |- context [?a <? ?b] => destruct (Z.ltb_spec a b); cbn [orb]
  | |- context [?a =? ?b] => destruct (Z.eqb_spec a b); cbn [andb]
  | |- context [bool_decide (?a = ?b)] => destruct (decide (a = b)) as [<-|];
      [rewrite bool_decide_true by done | rewrite bool_decide_false by done]
  end; cbn zeta beta; try lia;
  (split; [intros []; lia | intros [?|[?|?]] ?; subst; try done; try lia]).
Qed.

(** The counts of a token sequence of proper styles, as three numbers. *)
Definition counts (a b c : Z) (s : NewlineStyle) : Z :=
  match s with NewlineLF => a | NewlineCRLF => b | NewlineCR => c | _ => 0 end.

Lemma counts_spec l :
  (forall st, Newline st ∈ l -> proper_style st) -> forall s,
  count_style s l =
  counts (count_style NewlineLF l) (count_style NewlineCRLF l) (count_style NewlineCR l) s.
Proof.
  intros Hp []; try done; apply count_style_absent; intros [?|[?|?]]%Hp; done.
Qed.

Lemma counts_all_zero a b c : (forall s, counts a b c s = 0) <-> a = 0 /\ b = 0 /\ c = 0.
Proof.
  split; [|by intros (-> & -> & ->) []].
  intros H. by pose proof (H NewlineLF); pose proof (H NewlineCRLF); pose proof (H NewlineCR).
Qed.

Lemma counts_others_zero a b c s : proper_style s ->
  (forall s', s' <> s -> counts a b c s' = 0) <->
  (s = NewlineLF \/ a = 0) /\ (s = NewlineCRLF \/ b = 0) /\ (s = NewlineCR \/ c = 0).
Proof.
  intros Hs. split.
  - intros H. pose proof (H NewlineLF). pose proof (H NewlineCRLF). pose proof (H NewlineCR).
    by destruct Hs as [->|[->| ->]]; split_and!; auto.
  - intros (Ha & Hb & Hc) s' Hne. destruct s'; cbn; naive_solver.
Qed.

(** The style decided from the number of kinds. *)
Lemma style_of_kinds a b c first :
  0 <= a -> 0 <= b -> 0 <= c ->
  (first = NewlineNone /\ a = 0 /\ b = 0 /\ c = 0 \/
   proper_style first /\ 0 < counts a b c first) ->
  let kinds := b2z (0 <? a) + b2z (0 <? b) + b2z (0 <? c) in
  let style := if kinds =? 0 then NewlineNone
               else if 1 <? kinds then NewlineMixed else first in
  (kinds = 0 -> first = NewlineNone /\ a = 0 /\ b = 0 /\ c = 0) /\
  (style = NewlineNone <-> forall s, counts a b c s = 0) /\
  (forall s, proper_style s ->
     (style = s <-> 0 < counts a b c s /\ forall s', s' <> s -> counts a b c s' = 0)).
Proof.
  intros Ha Hb Hc Hf kinds style. rewrite counts_all_zero.
  assert (Hk : (kinds = 0 /\ style = NewlineNone /\ a = 0 /\ b = 0 /\ c = 0) \/
               (1 < kinds /\ style = NewlineMixed /\ (0 < a /\ 0 < b \/ 0 < a /\ 0 < c \/ 0 < b /\ 0 < c)) \/
               (kinds = 1 /\ style = first /\ proper_style first /\
                (first = NewlineLF /\ 0 < a \/ a = 0) /\ (first = NewlineCRLF /\ 0 < b \/ b = 0) /\
                (first = NewlineCR /\ 0 < c \/ c = 0))).
  { subst style. unfold b2z in kinds.
    destruct (Z.ltb_spec 0 a), (Z.ltb_spec 0 b), (Z.ltb_spec 0 c);
      [right; left | right; left | right; left | right; right
      |right; left | right; right | right; right | left];
      (split; [done|]); (split; [done|]); try lia.
    all: destruct Hf as [(-> & ? & ? & ?) | [[->|[->| ->]] Hf]]; try (cbn in Hf); try lia;
      unfold proper_style; split_and!; auto; lia. }
  split_and!.
  - intros. destruct Hf as [?|[Hp Hf]]; [done|]. destruct Hp as [->|[->| ->]]; cbn in Hf; lia.
  - destruct Hk as [(_ & -> & H)|[(_ & -> & H)|(_ & -> & Hp & H)]];
      [naive_solver | split; [done|lia] | split].
    + by intros ->; destruct Hp as [?|[?|?]].
    + intros. destruct Hf as [[? _]|[Hp' Hf]]; [done|].
      by destruct Hp' as [->|[->| ->]]; cbn in Hf; lia.
  - intros s Hs. rewrite counts_others_zero by done.
    destruct Hk as [(_ & -> & H)|[(_ & -> & H)|(_ & -> & Hp & H)]].
    + split; [by intros <-; destruct Hs as [?|[?|?]] |].
      destruct Hs as [->|[->| ->]]; cbn; lia.
    + split; [by intros <-; destruct Hs as [?|[?|?]] |].
      destruct Hs as [->|[->| ->]]; cbn; intros [? (? & ? & ?)]; naive_solver lia.
    + destruct Hs as [->|[->| ->]], Hp as [->|[->| ->]]; cbn; split; try done;
        intros; naive_solver lia.
Qed.

(** The report of [inspectNewlines] is right on every text: the counters are
    the numbers of line endings of each kind, the style is [none] exactly when
    there is none and a single kind exactly when no other occurs, and the
    dominant ending is one of maximal count, the first one of the text on a tie. *)
Theorem inspectNewlines_correct text :
  let '(style, dominant, lf, crlf, cr) := inspectNewlines text in
  newline_report (tokens text) style dominant lf crlf cr.
Proof.
  unfold inspectNewlines. rewrite inspect_loop_spec, !Z.add_0_l, decide_True by done.
  set (l := tokens text).
  assert (Hp : forall st, Newline st ∈ l -> proper_style st) by (intros; by eapply tokens_proper).
  pose proof (counts_spec l Hp) as Hc.
  pose proof (first_newline_counted l Hp) as Hfirst. cbn zeta in Hfirst.
  pose proof (count_style_nonneg NewlineLF l) as H1.
  pose proof (count_style_nonneg NewlineCRLF l) as H2.
  pose proof (count_style_nonneg NewlineCR l) as H3.
  destruct (dominant_loop_max (first_newline l) _ _ _ H1 H2 H3) as [Hmax Htie].
  set (d := dominant_loop _ _ _ _) in *. clearbody d.
  set (a := count_style NewlineLF l) in *. set (b := count_style NewlineCRLF l) in *.
  set (c := count_style NewlineCR l) in *.
  assert (Hf : first_newline l = NewlineNone /\ a = 0 /\ b = 0 /\ c = 0 \/
               proper_style (first_newline l) /\ 0 < counts a b c (first_newline l)).
  { destruct (first_newline l); rewrite <- ?Hc; [left|right..]; auto.
    split_and!; [done|apply Hfirst..]. }
  destruct (style_of_kinds a b c _ H1 H2 H3 Hf) as (Hk0 & Hnone & Hsame).
  destruct (Z.eqb_spec (b2z (0 <? a) + b2z (0 <? b) + b2z (0 <? c)) 0) as [Hk|Hk].
  - destruct (Hk0 Hk) as (Hfn & Ha & Hb & Hcc). split; try (setoid_rewrite Hc; done); try done.
    + intros s. rewrite !Hc, Ha, Hb, Hcc. by destruct s.
  - split; try (setoid_rewrite Hc; done); try done.
    + rewrite !Hc. intros Heq. apply Htie; [|done].
      destruct Hf as [(? & ? & ? & ?)|[? _]]; [|done].
      exfalso. apply Hk. by rewrite (proj2 (Z.ltb_ge _ _)), (proj2 (Z.ltb_ge _ _)),
        (proj2 (Z.ltb_ge _ _)) by lia.
Qed.

(** [normalizeNewlines] to a single style is the rendering of the tokens with
    that style: it fails exactly when the rendering is longer than the limit,
    although it decides so before the whole text has been scanned; the output
    has the bytes of the text in order with every line ending replaced, and
    normalizing it again changes nothing. *)
Theorem normalizeNewlines_correct text style limit :
  proper_style style -> 0 <= limit ->
  let out := concat (render_token ∘ with_style style <$> tokens text) in
  normalizeNewlines text style limit = (if limit <? len out then Err ErrTooLarge else Ok out)
  /\ tokens out = with_style style <$> tokens text
  /\ normalizeNewlines out style limit = normalizeNewlines text style limit.
Proof.
  intros Hs Hl out.
  assert (Hout : normalized_text text (newline_separator style) = out)
    by apply normalized_text_tokens.
  assert (Htok : tokens out = with_style style <$> tokens text)
    by (rewrite <- Hout; by apply tokens_normalized).
  assert (Hagain : normalized_text out (newline_separator style) = out).
  { rewrite normalized_text_tokens, Htok. unfold out. f_equal.
    rewrite <- list_fmap_compose. apply list_fmap_ext. by intros ? [] _. }
  assert (Hne : style <> NewlineNone) by (by destruct Hs as [->|[->| ->]]).
  unfold normalizeNewlines. rewrite !decide_False by done. cbn zeta.
  rewrite !normalized_length_spec, Hagain, Hout, Z.add_0_l by done.
  split_and!; try done. unfold fits. by destruct (limit <? len out).
Qed.

(** On the input "a\r\nb\rc" every ending becomes a line feed. *)
Lemma normalizeNewlines_correct_witness :
  normalizeNewlines ["a"; CR; LF; "b"; CR; "c"]%char NewlineLF 10 = Ok ["a"; LF; "b"; LF; "c"]%char.
Proof.
  destruct (normalizeNewlines_correct ["a"; CR; LF; "b"; CR; "c"]%char NewlineLF 10) as (H & _ & _);
    [by left | lia | exact H].
Defined.
