(* ===== verification/Codec.v ===== *)
(** * Decoding and encoding of text files ([internal/textfile/codec.go]) *)
From S2P Require Import Prelude GoStrings Utf8 TextTypes Newlines.
#[local] Open Scope Z_scope.

(** ** golang.org/x/text

    A transformer turns its input into output bytes and may report an error at
    the end of what it produced. [xt_decode enc data] and [xt_encode enc text]
    are that output and whether an error follows it. *)
Class XText := {
  xt_decode : Encoding -> gostring -> gostring * bool;
  xt_encode : Encoding -> gostring -> gostring * bool
}.

(** [unicode.In(r, unicode.Han, unicode.Hiragana, unicode.Katakana)]. *)
Class ScriptTables := { japanese_script : Z -> bool }.

Section codec.
Context `{XText, ScriptTables}.

(** [io.ReadAll(io.LimitReader(reader, limit+1))]: an error of the transformer
    is seen when it comes within the bytes that are read. *)
Definition read_limited (stream : gostring * bool) (limit : Z) (bad : text_error)
  : result text_error gostring :=
  let out := take (Z.to_nat (limit + 1)) stream.1 in
  reject stream.2 && (len stream.1 <=? limit + 1) with bad;
  reject limit <? len out with ErrTooLarge;
  Ok out.

Definition decodeLimited (enc : Encoding) (data : gostring) (limit : Z)
  : result text_error gostring :=
  out ← read_limited (xt_decode enc data) limit ErrInvalidEncoding;
  reject negb (utf8_valid out) with ErrInvalidEncoding;
  Ok out.

Definition encodeLimited (enc : Encoding) (text : gostring) (limit : Z)
  : result text_error gostring :=
  read_limited (xt_encode enc text) limit ErrInvalidEncoding.

(** [transformerFor]: the encodings the table knows. *)
Definition transformerFor (enc : Encoding) : bool :=
  match enc with
  | EncodingUTF16LE | EncodingUTF16BE | EncodingEUCKR | EncodingShiftJIS | EncodingISO88591 => true
  | EncodingUnset | EncodingUTF8 => false
  end.

(** [isBinary]: a control rune other than tab, line feed and carriage return. *)
Definition isBinary (text : gostring) : bool :=
  existsb (fun r => negb ((r =? 9) || (r =? 10) || (r =? 13)) && is_control r) (runes text).

(** *** Detection *)

Definition hasShiftJISLowLead : gostring -> bool :=
  fix go source :=
    match source with
    | lead :: (trail :: _) as rest =>
        (((0x81 <=? code lead) && (code lead <=? 0x9f)) &&
         (((0x40 <=? code trail) && (code trail <=? 0x7e)) ||
          ((0x80 <=? code trail) && (code trail <=? 0xfc)))) || go rest
    | _ => false
    end.

Definition likely_script (enc : Encoding) (r : Z) : bool :=
  match enc with
  | EncodingEUCKR =>
      ((0x1100 <=? r) && (r <=? 0x11ff)) || ((0x3130 <=? r) && (r <=? 0x318f)) ||
      ((0xac00 <=? r) && (r <=? 0xd7af))
  | EncodingShiftJIS => japanese_script r
  | _ => false
  end.

Definition legacyConfidence (enc : Encoding) (text source : gostring) : Float64.t :=
  let non_ascii := filter (fun r => 127 < r) (runes text) in
  let nonASCII := len non_ascii in
  let likelyScript := len (filter (fun r => likely_script enc r = true) non_ascii) in
  let c0 := Float64.percent 70 in
  let c1 := if 0 <? nonASCII
            then Float64.add c0
                   (Float64.add (Float64.percent 5)
                      (Float64.div (Float64.mul (Float64.percent 20) (Float64.of_Z likelyScript))
                                   (Float64.of_Z nonASCII)))
            else c0 in
  let c2 := if bool_decide (enc = EncodingShiftJIS) && hasShiftJISLowLead source
            then Float64.add c1 (Float64.percent 3) else c1 in
  if Float64.gt c2 (Float64.percent 98) then Float64.percent 98 else c2.

(** The statistics of the first loop of [detectUTF16]. *)
Record utf16_stats := mkStats {
  evenZeros : Z; oddZeros : Z; leNewlines : Z; beNewlines : Z
}.

Definition is_nl (c : ascii) : bool := Ascii.eqb c LF || Ascii.eqb c CR.
Definition is_nul (c : ascii) : bool := Ascii.eqb c NUL.

Fixpoint utf16_scan (data : gostring) (st : utf16_stats) : utf16_stats :=
  match data with
  | a :: b :: data' =>
      utf16_scan data'
        (mkStats (evenZeros st + b2z (is_nul a)) (oddZeros st + b2z (is_nul b))
                 (leNewlines st + b2z (is_nl a && is_nul b))
                 (beNewlines st + b2z (is_nul a && is_nl b)))
  | _ => st
  end.

Record utf16_guess := mkGuess {
  g_enc : Encoding; g_dominant : Z; g_opposite : Z; g_newlines : Z; g_otherLines : Z
}.

(** A candidate decoding is kept when it is text and encodes back to the input. *)
Definition decode_checked (enc : Encoding) (data : gostring) (limits : Limits) : option gostring :=
  match decodeLimited enc data (MaxDecodedBytes limits) with
  | Err _ => None
  | Ok decoded =>
      if isBinary decoded then None
      else match encodeLimited enc decoded (MaxInputBytes limits) with
           | Err _ => None
           | Ok roundTrip => if bool_decide (roundTrip = data) then Some decoded else None
           end
  end.

Fixpoint try_guesses (guesses : list utf16_guess) (units : Z) (data : gostring) (limits : Limits)
  : option (gostring * Encoding * Float64.t) :=
  match guesses with
  | [] => None
  | g :: guesses' =>
      let zeroSignature := (units <=? g_dominant g * 4) && (g_opposite g * 2 + 1 <=? g_dominant g) in
      let newlineSignature := (0 <? g_newlines g) && (g_otherLines g =? 0) in
      if negb zeroSignature && negb newlineSignature
      then try_guesses guesses' units data limits
      else match decode_checked (g_enc g) data limits with
           | None => try_guesses guesses' units data limits
           | Some decoded =>
               let asymmetry := Float64.div (Float64.of_Z (g_dominant g - g_opposite g))
                                            (Float64.of_Z units) in
               let confidence := Float64.add (Float64.percent 80)
                                   (Float64.mul (Float64.percent 18) asymmetry) in
               let confidence := if Float64.gt confidence (Float64.percent 97)
                                 then Float64.percent 97 else confidence in
               Some (decoded, g_enc g, confidence)
           end
  end.

Definition detectUTF16 (data : gostring) (limits : Limits)
  : option (gostring * Encoding * Float64.t) :=
  if (len data <? 4) || negb (len data mod 2 =? 0) then None
  else
    let units := len data / 2 in
    let st := utf16_scan data (mkStats 0 0 0 0) in
    try_guesses
      [mkGuess EncodingUTF16LE (oddZeros st) (evenZeros st) (leNewlines st) (beNewlines st);
       mkGuess EncodingUTF16BE (evenZeros st) (oddZeros st) (beNewlines st) (leNewlines st)]
      units data limits.

Definition detected_meta (enc : Encoding) (bom : BOM) (confidence : Float64.t) : Metadata :=
  mkMetadata enc bom NewlineNone NewlineNone 0 0 0 confidence.

Definition decodeAuthoritativeUTF16 (data : gostring) (enc : Encoding) (bom : BOM) (limits : Limits)
  : result text_error (gostring * Metadata) :=
  match decodeLimited enc data (MaxDecodedBytes limits) with
  | Err ErrTooLarge => Err ErrTooLarge
  | Err _ => Err ErrInvalidEncoding
  | Ok decoded =>
      match encodeLimited enc decoded (MaxInputBytes limits) with
      | Err _ => Err ErrInvalidEncoding
      | Ok roundTrip =>
          reject negb (bool_decide (roundTrip = data)) with ErrInvalidEncoding;
          Ok (decoded, detected_meta enc bom (Float64.of_Z 1))
      end
  end.

(** The loop over the legacy candidates, which keeps the first of the best. *)
Fixpoint best_candidate (encs : list Encoding) (data : gostring) (limits : Limits)
    (best : option (gostring * Encoding * Float64.t)) : option (gostring * Encoding * Float64.t) :=
  match encs with
  | [] => best
  | enc :: encs' =>
      match decode_checked enc data limits with
      | None => best_candidate encs' data limits best
      | Some text =>
          let confidence := legacyConfidence enc text data in
          let better := match best with
                        | None => true
                        | Some (_, _, c) => Float64.gt confidence c
                        end in
          best_candidate encs' data limits
            (if better then Some (text, enc, confidence) else best)
      end
  end.

Definition detectAndDecode (data : gostring) (limits : Limits)
  : result text_error (gostring * Metadata) :=
  if has_prefix data (BOM_Bytes BOMUTF8) then
    let body := drop 3 data in
    reject negb (utf8_valid body) with ErrInvalidEncoding;
    Ok (body, detected_meta EncodingUTF8 BOMUTF8 (Float64.of_Z 1))
  else if has_prefix data (BOM_Bytes BOMUTF16LE) then
    decodeAuthoritativeUTF16 (drop 2 data) EncodingUTF16LE BOMUTF16LE limits
  else if has_prefix data (BOM_Bytes BOMUTF16BE) then
    decodeAuthoritativeUTF16 (drop 2 data) EncodingUTF16BE BOMUTF16BE limits
  else
    match detectUTF16 data limits with
    | Some (text, enc, confidence) => Ok (text, detected_meta enc BOMNone confidence)
    | None =>
        if utf8_valid data
        then Ok (data, detected_meta EncodingUTF8 BOMNone (Float64.percent 99))
        else
          match best_candidate [EncodingEUCKR; EncodingShiftJIS] data limits None with
          | Some (text, enc, confidence) => Ok (text, detected_meta enc BOMNone confidence)
          | None =>
              match decodeLimited EncodingISO88591 data (MaxDecodedBytes limits) with
              | Err ErrTooLarge => Err ErrTooLarge
              | Err _ => Err ErrInvalidEncoding
              | Ok decoded => Ok (decoded, detected_meta EncodingISO88591 BOMNone (Float64.percent 25))
              end
          end
    end.

(** ** Files *)

Record File := mkFile { file_text : gostring; file_meta : Metadata; file_limits : Limits }.

Definition with_newlines (m : Metadata) (report : NewlineStyle * NewlineStyle * Z * Z * Z) : Metadata :=
  let '(style, dominant, lf, crlf, cr) := report in
  mkMetadata (meta_Encoding m) (meta_BOM m) style dominant lf crlf cr (meta_Confidence m).

Definition Decode (data : gostring) (limits : Limits) : result text_error File :=
  resolved ← resolveLimits limits;
  reject MaxInputBytes resolved <? len data with ErrTooLarge;
  d ← detectAndDecode data resolved;
  let '(text, meta) := d in
  reject MaxDecodedBytes resolved <? len text with ErrTooLarge;
  reject isBinary text with ErrBinary;
  Ok (mkFile text (with_newlines meta (inspectNewlines text)) resolved).

Definition EncodeWithNewline (f : File) (style : NewlineStyle) : result text_error gostring :=
  let limit := MaxEncodedBytes (file_limits f) in
  reject bool_decide (style = NewlineMixed) with ErrInvalidOptions;
  normalized ← normalizeNewlines (file_text f) style limit;
  let bom := BOM_Bytes (meta_BOM (file_meta f)) in
  reject limit <? len bom with ErrTooLarge;
  let bodyLimit := limit - len bom in
  body ←
    (if decide (meta_Encoding (file_meta f) = EncodingUTF8) then
       reject bodyLimit <? len normalized with ErrTooLarge; Ok normalized
     else
       reject negb (transformerFor (meta_Encoding (file_meta f))) with ErrInvalidEncoding;
       encodeLimited (meta_Encoding (file_meta f)) normalized bodyLimit);
  Ok (bom ++ body).

Definition Encode (f : File) : result text_error gostring := EncodeWithNewline f NewlineNone.

End codec.

(** ** Properties *)
Section properties.
Context `{XText, ScriptTables}.

Lemma read_limited_Ok stream limit bad out :
  read_limited stream limit bad = Ok out -> 0 <= limit ->
  stream = (out, false) /\ len out <= limit.
Proof.
  destruct stream as [s err]. unfold read_limited. cbn [fst snd]. intros Hr Hl. inv_ok.
  apply Z.ltb_ge in H2. unfold len in *. rewrite length_take in H2.
  assert (length s <= Z.to_nat limit)%nat by lia.
  rewrite take_ge by lia. split; [|lia].
  destruct err; [|done]. cbn in H1. bool_props. lia.
Qed.

Lemma read_limited_fits s limit bad :
  0 <= limit -> len s <= limit -> read_limited (s, false) limit bad = Ok s.
Proof.
  intros Hl Hs. unfold read_limited. cbn [fst snd andb guard_err].
  unfold len in *. rewrite take_ge by lia. unfold guard_err.
  by rewrite (proj2 (Z.ltb_ge _ _)).
Qed.

Lemma encodeLimited_weaken enc text l l' body :
  encodeLimited enc text l = Ok body -> 0 <= l -> len body <= l' ->
  encodeLimited enc text l' = Ok body.
Proof.
  intros He Hl Hb. unfold encodeLimited in *.
  apply read_limited_Ok in He as [-> _]; [|done]. pose proof (len_nonneg body).
  by apply read_limited_fits; [lia|].
Qed.

Lemma decodeLimited_Ok enc data limit text :
  decodeLimited enc data limit = Ok text -> 0 <= limit ->
  xt_decode enc data = (text, false) /\ utf8_valid text = true.
Proof.
  unfold decodeLimited. intros Hd Hl. inv_ok. bool_props.
  by apply read_limited_Ok in H1 as [-> _].
Qed.

(** How the bytes of a decoded file relate to its text. *)
Inductive encodes_back (lim : Z) (data : gostring) : gostring -> Encoding -> BOM -> Prop :=
  | eb_utf8 bom text :
      data = BOM_Bytes bom ++ text -> encodes_back lim data text EncodingUTF8 bom
  | eb_checked enc bom text body :
      data = BOM_Bytes bom ++ body -> transformerFor enc = true ->
      encodeLimited enc text lim = Ok body -> encodes_back lim data text enc bom
  | eb_latin1 text :
      xt_decode EncodingISO88591 data = (text, false) ->
      encodes_back lim data text EncodingISO88591 BOMNone.

Lemma decode_checked_Some enc data limits text :
  decode_checked enc data limits = Some text -> 0 <= MaxDecodedBytes limits ->
  encodeLimited enc text (MaxInputBytes limits) = Ok data /\ utf8_valid text = true.
Proof.
  unfold decode_checked. intros Hd Hl.
  destruct (decodeLimited enc data _) as [t|] eqn:E1; [|done].
  destruct (isBinary t); [done|].
  destruct (encodeLimited enc t _) as [b|] eqn:E2; [|done].
  case_bool_decide; simplify_eq. split; [done|]. by apply decodeLimited_Ok in E1 as [_ ?].
Qed.

Lemma try_guesses_Some gs units data limits text enc c :
  try_guesses gs units data limits = Some (text, enc, c) ->
  Forall (fun g => transformerFor (g_enc g) = true) gs ->
  0 <= MaxDecodedBytes limits ->
  transformerFor enc = true /\ encodeLimited enc text (MaxInputBytes limits) = Ok data
  /\ utf8_valid text = true.
Proof.
  intros Hg Hf Hl. induction Hf as [|g gs Hf1 Hf IH]; [done|]. cbn [try_guesses] in Hg.
  case_match; [by apply IH|].
  destruct (decode_checked _ _ _) as [d|] eqn:E; [|by apply IH]. simplify_eq.
  by apply decode_checked_Some in E as [? ?].
Qed.

Lemma best_candidate_Some encs data limits best text enc c :
  best_candidate encs data limits best = Some (text, enc, c) ->
  0 <= MaxDecodedBytes limits ->
  Forall (fun e => transformerFor e = true) encs ->
  best = Some (text, enc, c) \/
  transformerFor enc = true /\ encodeLimited enc text (MaxInputBytes limits) = Ok data
  /\ utf8_valid text = true.
Proof.
  intros Hb Hl Hf. revert best Hb. induction Hf as [|e encs He Hf IH]; intros best Hb; [by left|].
  cbn [best_candidate] in Hb. destruct (decode_checked e data limits) as [t|] eqn:E; [|by apply IH].
  destruct (IH _ Hb) as [Hbest|?]; [|by right].
  case_match; [|by left]. simplify_eq. right.
  by apply decode_checked_Some in E as [? ?].
Qed.

Lemma decodeAuthoritativeUTF16_Ok data enc bom limits text meta :
  decodeAuthoritativeUTF16 data enc bom limits = Ok (text, meta) -> 0 <= MaxDecodedBytes limits ->
  encodeLimited enc text (MaxInputBytes limits) = Ok data /\ utf8_valid text = true /\
  meta_Encoding meta = enc /\ meta_BOM meta = bom.
Proof.
  unfold decodeAuthoritativeUTF16. intros Hd Hl.
  destruct (decodeLimited enc data _) as [t|[]] eqn:E1; try done.
  destruct (encodeLimited enc t _) as [b|] eqn:E2; [|done]. inv_ok. bool_props. subst.
  by apply decodeLimited_Ok in E1 as [_ ?].
Qed.

Lemma drop_prefix s p : has_prefix s p = true -> s = p ++ drop (length p) s.
Proof. intros [r ->]%has_prefix_spec. by rewrite drop_app_length. Qed.

Lemma detectAndDecode_Ok data limits text meta :
  detectAndDecode data limits = Ok (text, meta) -> 0 <= MaxDecodedBytes limits ->
  encodes_back (MaxInputBytes limits) data text (meta_Encoding meta) (meta_BOM meta)
  /\ utf8_valid text = true.
Proof.
  unfold detectAndDecode. intros Hd Hl.
  destruct (has_prefix data (BOM_Bytes BOMUTF8)) eqn:E1.
  { inv_ok. bool_props. split; [|done]. apply eb_utf8. by apply drop_prefix in E1. }
  destruct (has_prefix data (BOM_Bytes BOMUTF16LE)) eqn:E2.
  { apply decodeAuthoritativeUTF16_Ok in Hd as (? & ? & -> & ->); [|done].
    split; [|done]. eapply eb_checked; [by apply drop_prefix in E2|done|done]. }
  destruct (has_prefix data (BOM_Bytes BOMUTF16BE)) eqn:E3.
  { apply decodeAuthoritativeUTF16_Ok in Hd as (? & ? & -> & ->); [|done].
    split; [|done]. eapply eb_checked; [by apply drop_prefix in E3|done|done]. }
  destruct (detectUTF16 data limits) as [[[t e] c]|] eqn:E4.
  { inv_ok. unfold detectUTF16 in E4. case_match; [done|].
    apply try_guesses_Some in E4 as (? & ? & ?); [|by repeat constructor|done].
    split; [|done]. by eapply eb_checked. }
  destruct (utf8_valid data) eqn:E5.
  { inv_ok. split; [|done]. by apply eb_utf8. }
  destruct (best_candidate _ _ _ _) as [[[t e] c]|] eqn:E6.
  { inv_ok. apply best_candidate_Some in E6 as [?|(? & ? & ?)]; [done| |done|by repeat constructor].
    split; [|done]. by eapply eb_checked. }
  destruct (decodeLimited EncodingISO88591 data _) as [t|[]] eqn:E7; try done. inv_ok.
  apply decodeLimited_Ok in E7 as [? ?]; [|done]. split; [|done]. by apply eb_latin1.
Qed.

Lemma Decode_inv data limits f :
  Decode data limits = Ok f ->
  exists meta, limits_ok (file_limits f) /\ len data <= MaxInputBytes (file_limits f) /\
    len (file_text f) <= MaxDecodedBytes (file_limits f) /\ isBinary (file_text f) = false /\
    detectAndDecode data (file_limits f) = Ok (file_text f, meta) /\
    file_meta f = with_newlines meta (inspectNewlines (file_text f)).
Proof.
  unfold Decode. intros Hd. inv_ok. destruct x0 as [text meta]. inv_ok. bool_props. cbn.
  exists meta. split_and!; eauto using resolveLimits_ok.
Qed.

Lemma with_newlines_same m r :
  meta_Encoding (with_newlines m r) = meta_Encoding m /\ meta_BOM (with_newlines m r) = meta_BOM m.
Proof. by destruct r as [[[[]]]]. Qed.

(** A decoded file is within its limits, is valid UTF-8 without control
    characters other than tab and line ends, and carries the right newline
    statistics. *)
Theorem Decode_sound data limits f :
  Decode data limits = Ok f ->
  limits_ok (file_limits f) /\ len data <= MaxInputBytes (file_limits f) /\
  len (file_text f) <= MaxDecodedBytes (file_limits f) /\
  utf8_valid (file_text f) = true /\ isBinary (file_text f) = false /\
  newline_report (tokens (file_text f))
    (meta_NewlineStyle (file_meta f)) (meta_DominantNewline (file_meta f))
    (meta_LFCount (file_meta f)) (meta_CRLFCount (file_meta f)) (meta_CRCount (file_meta f)).
Proof.
  intros (meta & Hl & Hin & Hdec & Hbin & Hdet & Hmeta)%Decode_inv.
  split_and!; try done.
  - apply detectAndDecode_Ok in Hdet as [_ ?]; [done|]. destruct Hl as [_ [? _]]. lia.
  - rewrite Hmeta. pose proof (inspectNewlines_correct (file_text f)) as Hn.
    by destruct (inspectNewlines (file_text f)) as [[[[? ?] ?] ?] ?].
Qed.

(** C32. Decoding a file and encoding it again unchanged gives back its bytes. For
    the legacy multi-byte and the UTF-16 encodings the code itself checks the
    round trip while it decodes; only the single-byte ISO-8859-1 fallback relies
    on the transformer being invertible. *)
Theorem Decode_Encode data limits f :
  Decode data limits = Ok f ->
  (forall t, xt_decode EncodingISO88591 data = (t, false) ->
             xt_encode EncodingISO88591 t = (data, false)) ->
  len data <= MaxEncodedBytes (file_limits f) ->
  len (file_text f) <= MaxEncodedBytes (file_limits f) ->
  Encode f = Ok data.
Proof.
  intros (meta & Hl & Hin & _ & _ & Hdet & Hmeta)%Decode_inv Hiso Hfit Htext.
  destruct Hl as [[Hi1 Hi2] [Hd1 Hd2] _ _ _].
  apply detectAndDecode_Ok in Hdet as [Hback _]; [|lia].
  destruct (with_newlines_same meta (inspectNewlines (file_text f))) as [He Hb].
  set (limit := MaxEncodedBytes (file_limits f)) in *.
  assert (Hnorm : normalizeNewlines (file_text f) NewlineNone limit = Ok (file_text f)).
  { unfold normalizeNewlines. rewrite decide_True by done. unfold guard_err.
    by rewrite (proj2 (Z.ltb_ge _ _)). }
  unfold Encode, EncodeWithNewline. fold limit. rewrite Hmeta, He, Hb, Hnorm.
  rewrite bool_decide_false by done. cbn [guard_err mbind result_bind].
  assert (Hbom : forall body, data = BOM_Bytes (meta_BOM meta) ++ body ->
    limit <? len (BOM_Bytes (meta_BOM meta)) = false /\
    len body <= limit - len (BOM_Bytes (meta_BOM meta))).
  { intros body Hdata. rewrite Hdata, len_app in Hfit. pose proof (len_nonneg body).
    split; [apply Z.ltb_ge|]; lia. }
  inversion Hback as [bom text Hdata Ht E1 E2|enc bom text body Hdata Htr Henc Ht E1 E2
                     |text Hdec Ht E1 E2]; rewrite <- ?E1.
  - destruct (Hbom _ Hdata) as [-> Hbody]. cbn [guard_err]. rewrite decide_True by done.
    unfold guard_err. rewrite (proj2 (Z.ltb_ge _ _)) by (subst; lia). by rewrite Hdata.
  - rewrite <- E1 in Htr, Henc. destruct (Hbom _ Hdata) as [-> Hbody]. cbn [guard_err].
    rewrite decide_False by (intros Eutf8; rewrite Eutf8 in Htr; discriminate). rewrite Htr. cbn [negb guard_err].
    rewrite (encodeLimited_weaken _ _ _ _ body Henc) by lia. by rewrite Hdata.
  - rewrite <- ?E2 in Hbom. rewrite <- ?E2. destruct (Hbom data) as [-> Hbody]; [done|]. cbn [guard_err].
    rewrite decide_False by done. cbn [transformerFor negb guard_err].
    unfold encodeLimited. rewrite Hiso by done.
    rewrite read_limited_fits; [done| |done]. pose proof (len_nonneg data). lia.
Qed.

End properties.

(** ** A concrete instance

    ISO-8859-1 read and written byte by byte; the other transformers fail. *)
Definition latin1_decode (data : gostring) : gostring :=
  flat_map (fun c => if code c <? 128 then [c]
                     else [byte_of (0xc0 + code c / 64); byte_of (0x80 + code c mod 64)]) data.

Definition latin1_encode (text : gostring) : gostring * bool :=
  let rs := runes text in
  (map byte_of rs, existsb (fun r => 255 <? r) rs).

Definition latin1_xtext : XText := {|
  xt_decode enc data :=
    if decide (enc = EncodingISO88591) then (latin1_decode data, false) else ([], true);
  xt_encode enc text :=
    if decide (enc = EncodingISO88591) then latin1_encode text else ([], true)
|}.

Definition no_scripts : ScriptTables := {| japanese_script _ := false |}.

(** ["caf\xe9\r\n"], which is not valid UTF-8. *)
Definition sample_data : gostring := "caf" ++ [byte_of 0xe9; CR; LF].
Definition sample_limits : Limits := mkLimits 64 64 64 16 16.
Definition sample_file : File :=
  mkFile ("caf" ++ [byte_of 0xc3; byte_of 0xa9; CR; LF])
    (mkMetadata EncodingISO88591 BOMNone NewlineCRLF NewlineCRLF 0 1 0 (Float64.percent 25))
    sample_limits.

Lemma Decode_sample : @Decode latin1_xtext no_scripts sample_data sample_limits = Ok sample_file.
Proof. vm_compute. reflexivity. Qed.

Lemma Decode_sound_witness :
  @Decode latin1_xtext no_scripts sample_data sample_limits = Ok sample_file /\
  utf8_valid (file_text sample_file) = true.
Proof.
  split; [exact Decode_sample|].
  exact (proj1 (proj2 (proj2 (proj2 (@Decode_sound latin1_xtext no_scripts _ _ _ Decode_sample))))).
Defined.

Lemma Decode_Encode_witness : @Encode latin1_xtext sample_file = Ok sample_data.
Proof.
  apply (@Decode_Encode latin1_xtext no_scripts sample_data sample_limits sample_file Decode_sample).
  - intros t Ht. apply (f_equal fst) in Ht. cbn [fst] in Ht. rewrite <- Ht.
    vm_compute. reflexivity.
  - vm_compute. discriminate.
  - vm_compute. discriminate.
Defined.
