(* ===== verification/EditorConfig.v ===== *)
(** * Indentation settings from [.editorconfig] files
    ([internal/textfile/editorconfig.go]) *)
From S2P Require Import Prelude GoStrings Strconv Utf8 GoPath.
#[local] Open Scope Z_scope.

Definition maxEditorConfigLines : Z := 4096.
Definition maxEditorConfigGlobLength : Z := 4096.
Definition maxEditorConfigExpansions : Z := 64.
Definition maxIndentWidth : Z := 32.

(** [regexp.MatchString]: [None] when the expression does not compile. *)
Class Regexp := { match_string : gostring -> gostring -> option bool }.

(** ** Indentation *)

Abbreviation IndentStyle := gostring (only parsing).
Definition IndentStyleSpace : IndentStyle := "space".
Definition IndentStyleTab : IndentStyle := "tab".

Record Indentation := mkIndentation { Style : IndentStyle; IndentSize : Z; TabWidth : Z }.

Definition DefaultIndentation : Indentation := mkIndentation IndentStyleSpace 4 4.

Definition width_ok (n : Z) : bool := negb ((n <? 1) || (maxIndentWidth <? n)).

Definition normalized (indent : Indentation) : Indentation :=
  let fallback := DefaultIndentation in
  let style := if bool_decide (Style indent <> IndentStyleSpace) &&
                  bool_decide (Style indent <> IndentStyleTab)
               then Style fallback else Style indent in
  let size := if (IndentSize indent <? 1) || (maxIndentWidth <? IndentSize indent)
              then IndentSize fallback else IndentSize indent in
  let width := if (TabWidth indent <? 1) || (maxIndentWidth <? TabWidth indent)
               then size else TabWidth indent in
  mkIndentation style size width.

(** ** Tri-state properties *)

Record property (T : Type) := mkProperty { present : bool; unset : bool; value : T }.
Arguments mkProperty {T} _ _ _.
Arguments present {T} _.
Arguments unset {T} _.
Arguments value {T} _.

Record EditorConfig := mkEditorConfig {
  Root : bool;
  indentStyle : property IndentStyle;
  indentSize : property Z;
  indentIsTab : property bool;
  tabWidth : property Z
}.

Definition zero_config : EditorConfig :=
  mkEditorConfig false (mkProperty false false []) (mkProperty false false 0)
    (mkProperty false false false) (mkProperty false false 0).

Definition mergeEditorConfigProperty {T} (zero : T) (current next : property T) : property T :=
  if negb (present next) then current
  else if unset next then mkProperty false false zero
  else next.

Definition merge_step (acc : property IndentStyle * property Z * property bool * property Z)
    (config : EditorConfig) :=
  let '(style, size, sizeIsTab, width) := acc in
  (mergeEditorConfigProperty [] style (indentStyle config),
   mergeEditorConfigProperty 0 size (indentSize config),
   mergeEditorConfigProperty false sizeIsTab (indentIsTab config),
   mergeEditorConfigProperty 0 width (tabWidth config)).

Definition ResolveIndentation (configs : list EditorConfig) : Indentation :=
  let '(style, size, sizeIsTab, width) :=
    foldl merge_step (mkProperty false false [], mkProperty false false 0,
                      mkProperty false false false, mkProperty false false 0) configs in
  let resolved := DefaultIndentation in
  let st := if present style then value style else Style resolved in
  let tw := if present width then value width
            else if present size && (negb (present sizeIsTab) || negb (value sizeIsTab))
                 then value size else TabWidth resolved in
  let sz := if present sizeIsTab && value sizeIsTab then tw
            else if present size then value size else tw in
  normalized (mkIndentation st sz tw).

(** ** Globs *)

Inductive glob_error := GlobInvalid | GlobPanic | GlobFuel.

Definition STAR : ascii := byte_of 42.
Definition QUESTION : ascii := byte_of 63.
Definition LBRACKET : ascii := byte_of 91.
Definition RBRACKET : ascii := byte_of 93.
Definition LBRACE : ascii := byte_of 123.
Definition RBRACE : ascii := byte_of 125.
Definition COMMA : ascii := byte_of 44.
Definition CARET : ascii := byte_of 94.
Definition BANG : ascii := byte_of 33.

(** [regexp.QuoteMeta]. *)
Definition quote_meta (s : gostring) : gostring :=
  flat_map (fun c => if contains_byte "\.+*?()|[]{}^$" c then [BSL; c] else [c]) s.

Fixpoint star_run (s : gostring) : nat :=
  match s with
  | c :: s' => if Ascii.eqb c STAR then S (star_run s') else O
  | [] => O
  end.

(** The loop of [editorConfigGlobRegexp]; [skip] counts the bytes that the
    construct at hand has consumed already. *)
Fixpoint glob_regexp_from (skip : nat) (pattern : gostring) : result glob_error gostring :=
  match pattern with
  | [] => Ok []
  | c :: rest =>
      match skip with
      | S k => glob_regexp_from k rest
      | O =>
          if Ascii.eqb c STAR then
            if has_prefix rest [STAR] then
              let n := star_run rest in
              if has_prefix (drop n rest) [SLASH]
              then app "(?:.*/)?" <$> glob_regexp_from (S n) rest
              else app ".*" <$> glob_regexp_from n rest
            else app "[^/]*" <$> glob_regexp_from 0 rest
          else if Ascii.eqb c QUESTION then app "[^/]" <$> glob_regexp_from 0 rest
          else if Ascii.eqb c LBRACKET then
            match index rest [RBRACKET] with
            | None | Some O => Err GlobInvalid
            | Some n =>
                let class := take n rest in
                let class :=
                  if has_prefix class [BANG] then CARET :: drop 1 class
                  else if has_prefix class [CARET] then [BSL; CARET] ++ drop 1 class else class in
                app ([LBRACKET] ++ class ++ [RBRACKET]) <$> glob_regexp_from (S n) rest
            end
          else if Ascii.eqb c BSL then
            match rest with
            | [] => Err GlobInvalid
            | d :: _ => app (quote_meta (string_of_byte d)) <$> glob_regexp_from 1 rest
            end
          else app (quote_meta (string_of_byte c)) <$> glob_regexp_from 0 rest
      end
  end.

Definition editorConfigGlobRegexp (pattern : gostring) : result glob_error gostring :=
  (fun body => "^" ++ body ++ "$") <$> glob_regexp_from 0 pattern.

(** *** Braces *)

(** The values from [start] to [stop] by [step]; machine integers wrap. *)
Fixpoint numeric_values (fuel : nat) (v stop step : Z) : result glob_error (list gostring) :=
  match fuel with
  | O => Err GlobFuel
  | S fuel => if v =? stop then Ok [itoa v]
              else cons (itoa v) <$> numeric_values fuel (wrap64 (v + step)) stop step
  end.

Definition numeric_choices (start stop : Z) : result glob_error (list gostring) :=
  let count := wrap64 (stop - start) in
  let '(count, step) := if count <? 0 then (wrap64 (- count), -1) else (count, 1) in
  reject maxEditorConfigExpansions <? wrap64 (count + 1) with GlobInvalid;
  (* [make] with a negative capacity panics *)
  reject wrap64 (count + 1) <? 0 with GlobPanic;
  numeric_values (Z.to_nat (count + 1)) start stop step.

Definition comma_choices (body : gostring) : result glob_error (list gostring) :=
  let choices := split_byte COMMA body in
  reject len choices <? 2 with GlobInvalid;
  reject bool_decide ([] ∈ choices) with GlobInvalid;
  Ok choices.

Definition editorConfigBraceChoices (body : gostring) : result glob_error (list gostring) :=
  match split body ".." with
  | [a; b] =>
      match atoi a, atoi b with
      | Some start, Some stop => numeric_choices start stop
      | _, _ => comma_choices body
      end
  | _ => comma_choices body
  end.

(** The first loop: the first brace that is not escaped. *)
Fixpoint find_open (pattern : gostring) (escaped : bool) : result glob_error (option nat) :=
  match pattern with
  | [] => Ok None
  | c :: rest =>
      if escaped then option_map S <$> find_open rest false
      else if Ascii.eqb c BSL then option_map S <$> find_open rest true
      else if Ascii.eqb c LBRACE then Ok (Some O)
      else if Ascii.eqb c RBRACE then Err GlobInvalid
      else option_map S <$> find_open rest false
  end.

(** The second loop, from the opening brace on. *)
Fixpoint find_close (depth : Z) (rest : gostring) : option nat :=
  match rest with
  | [] => None
  | c :: rest =>
      if Ascii.eqb c LBRACE then S <$> find_close (depth + 1) rest
      else if Ascii.eqb c RBRACE then
        if depth - 1 =? 0 then Some O else S <$> find_close (depth - 1) rest
      else S <$> find_close depth rest
  end.

(** The loop over the choices, for the recursive call [expand]. *)
Fixpoint expand_choices (expand : gostring -> Z -> result glob_error (list gostring))
    (before after : gostring) (limit : Z) (choices expanded : list gostring)
  : result glob_error (list gostring) :=
  match choices with
  | [] => Ok expanded
  | choice :: choices' =>
      parts ← expand (before ++ choice ++ after) (limit - len expanded);
      reject limit <? len (expanded ++ parts) with GlobInvalid;
      expand_choices expand before after limit choices' (expanded ++ parts)
  end.

Fixpoint expand_braces (fuel : nat) (pattern : gostring) (limit : Z)
  : result glob_error (list gostring) :=
  match fuel with
  | O => Err GlobFuel
  | S fuel =>
      o ← find_open pattern false;
      match o with
      | None => Ok [pattern]
      | Some open =>
          match find_close 0 (drop open pattern) with
          | None => Err GlobInvalid
          | Some n =>
              let close := (open + n)%nat in
              choices ← editorConfigBraceChoices (slice (open + 1) close pattern);
              reject (len choices =? 0) || (limit <? len choices) with GlobInvalid;
              expand_choices (expand_braces fuel) (take open pattern) (drop (close + 1) pattern)
                limit choices []
          end
      end
  end.

(** Each expansion removes a brace, which bounds the depth of the recursion. *)
Definition expandEditorConfigBraces (pattern : gostring) (limit : Z) : result glob_error (list gostring) :=
  expand_braces (S (count_byte LBRACE pattern)) pattern limit.

Section parser.
Context `{Regexp, UnicodeTables}.

(** The loop over the expanded patterns. *)
Fixpoint match_patterns (patterns : list gostring) (target : gostring) : result glob_error bool :=
  match patterns with
  | [] => Ok false
  | pattern :: patterns' =>
      let anchored := has_prefix pattern [SLASH] in
      let pattern := trim_prefix pattern [SLASH] in
      let candidate := if negb anchored && negb (contains pattern [SLASH])
                       then base target else target in
      expression ← editorConfigGlobRegexp pattern;
      match match_string expression candidate with
      | None => Err GlobInvalid
      | Some true => Ok true
      | Some false => match_patterns patterns' target
      end
  end.

Definition matchEditorConfigGlob (glob target : gostring) : result glob_error bool :=
  patterns ← expandEditorConfigBraces glob maxEditorConfigExpansions;
  match_patterns patterns target.

(** ** Parsing *)

Inductive ec_error :=
  | EcEncoding | EcNUL | EcTarget | EcLines
  | EcSection (line : Z) | EcProperty (line : Z) | EcRoot (line : Z) | EcValue (line : Z)
  | EcPanic.

Definition splitEditorConfigProperty (line : gostring) : option (gostring * gostring) :=
  match index_any line "=:" with
  | None | Some O => None
  | Some i =>
      let key := trim_space (take i line) in
      let val := trim_space (drop (i + 1) line) in
      if bool_decide (key <> []) && bool_decide (val <> []) then Some (key, val) else None
  end.

Definition parseIndentWidth (v : gostring) : option Z :=
  match atoi v with
  | Some width => if (width <? 1) || (maxIndentWidth <? width) then None else Some width
  | None => None
  end.

Definition set_style (c : EditorConfig) p :=
  mkEditorConfig (Root c) p (indentSize c) (indentIsTab c) (tabWidth c).
Definition set_size (c : EditorConfig) p q :=
  mkEditorConfig (Root c) (indentStyle c) p q (tabWidth c).
Definition set_width (c : EditorConfig) p :=
  mkEditorConfig (Root c) (indentStyle c) (indentSize c) (indentIsTab c) p.
Definition set_root (c : EditorConfig) b :=
  mkEditorConfig b (indentStyle c) (indentSize c) (indentIsTab c) (tabWidth c).

(** [None] is the error of an invalid value. *)
Definition applyEditorConfigProperty (config : EditorConfig) (key val : gostring) : option EditorConfig :=
  let is_unset := bool_decide (val = "unset") in
  if decide (key = "indent_style") then
    if is_unset then Some (set_style config (mkProperty true true []))
    else if decide (val = "space") then Some (set_style config (mkProperty true false IndentStyleSpace))
    else if decide (val = "tab") then Some (set_style config (mkProperty true false IndentStyleTab))
    else None
  else if decide (key = "indent_size") then
    if is_unset then Some (set_size config (mkProperty true true 0) (mkProperty true true false))
    else if decide (val = "tab") then
      Some (set_size config (mkProperty true false 0) (mkProperty true false true))
    else match parseIndentWidth val with
         | Some width => Some (set_size config (mkProperty true false width) (mkProperty true false false))
         | None => None
         end
  else if decide (key = "tab_width") then
    if is_unset then Some (set_width config (mkProperty true true 0))
    else match parseIndentWidth val with
         | Some width => Some (set_width config (mkProperty true false width))
         | None => None
         end
  else Some config.

Record parse_state := mkParse { ps_config : EditorConfig; inSection : bool; sectionMatches : bool }.

(** The body of the loop over the lines, for one line that is not blank and not
    a comment. *)
Definition parse_section (st : parse_state) (line target : gostring) (number : Z)
  : result ec_error parse_state :=
  reject negb (has_suffix line "]") || (len line <? 3) with EcSection (number + 1);
  let glob := trim_space (slice 1 (length line - 1) line) in
  reject bool_decide (glob = []) || (maxEditorConfigGlobLength <? len glob) with EcSection (number + 1);
  match matchEditorConfigGlob glob target with
  | Err GlobPanic => Err EcPanic
  | Err _ => Err (EcSection (number + 1))
  | Ok matched => Ok (mkParse (ps_config st) true matched)
  end.

Definition parse_property (st : parse_state) (line : gostring) (number : Z)
  : result ec_error parse_state :=
  match splitEditorConfigProperty line with
  | None => Err (EcProperty (number + 1))
  | Some (k, v) =>
      let key := to_lower (trim_space k) in
      let val := to_lower (trim_space v) in
      if negb (inSection st) then
        if decide (key = "root") then
          if decide (val = "true") then Ok (mkParse (set_root (ps_config st) true) false (sectionMatches st))
          else if decide (val = "false")
               then Ok (mkParse (set_root (ps_config st) false) false (sectionMatches st))
               else Err (EcRoot (number + 1))
        else Ok st
      else if negb (sectionMatches st) then Ok st
      else match applyEditorConfigProperty (ps_config st) key val with
           | Some config => Ok (mkParse config (inSection st) (sectionMatches st))
           | None => Err (EcValue (number + 1))
           end
  end.

Definition parse_line (st : parse_state) (raw target : gostring) (number : Z)
  : result ec_error parse_state :=
  let line := trim_space raw in
  if bool_decide (line = []) || has_prefix line "#" || has_prefix line ";" then Ok st
  else if has_prefix line "[" then parse_section st line target number
  else parse_property st line number.

Fixpoint parse_lines (st : parse_state) (lines : list gostring) (target : gostring) (number : Z)
  : result ec_error parse_state :=
  match lines with
  | [] => Ok st
  | raw :: lines' => st' ← parse_line st raw target number; parse_lines st' lines' target (number + 1)
  end.

Definition ParseEditorConfig (data targetPath : gostring) : result ec_error EditorConfig :=
  reject negb (utf8_valid data) with EcEncoding;
  let text := trim_prefix data [byte_of 0xef; byte_of 0xbb; byte_of 0xbf] in
  reject contains_byte text NUL with EcNUL;
  let target := trim_prefix (clean (replace_all targetPath "\" "/")) "./" in
  reject bool_decide (target = []) || bool_decide (target = DOT) || bool_decide (target = DOTDOT)
         || has_prefix target "../" with EcTarget;
  let text := replace_all text [CR; LF] [LF] in
  let text := replace_all text [CR] [LF] in
  let lines := split_byte LF text in
  reject maxEditorConfigLines <? len lines with EcLines;
  st ← parse_lines (mkParse zero_config false false) lines target 0;
  Ok (ps_config st).

End parser.

(** ** Brace expansion terminates and respects its limit *)

Lemma fmap_Ok {E A B} (f : A -> B) (r : result E A) b :
  f <$> r = Ok b <-> exists a, r = Ok a /\ b = f a.
Proof. destruct r; cbn; naive_solver. Qed.

Lemma fmap_Err {E A B} (f : A -> B) (r : result E A) e : f <$> r = Err e <-> r = Err e.
Proof. destruct r; cbn; naive_solver. Qed.

Lemma numeric_values_total k v stop step :
  in_int v = true -> stop = wrap64 (v + Z.of_nat k * step) ->
  exists l, numeric_values (S k) v stop step = Ok l /\ (1 <= length l <= S k)%nat.
Proof.
  revert v; induction k as [|k IH]; intros v Hv Hs.
  - rewrite Z.mul_0_l, Z.add_0_r, wrap64_id in Hs by done. subst. cbn [numeric_values].
    rewrite Z.eqb_refl. eexists. split; [done|]. cbn; lia.
  - cbn [numeric_values]. destruct (Z.eqb_spec v stop).
    { eexists. split; [done|]. cbn; lia. }
    destruct (IH (wrap64 (v + step))) as (l & Hl & Hlen); [apply wrap64_range| |].
    + rewrite Hs, wrap64_add_l. f_equal. lia.
    + cbn [numeric_values] in Hl. rewrite Hl. eexists. split; [done|]. cbn; lia.
Qed.

Lemma numeric_choices_total start stop :
  in_int start = true -> in_int stop = true ->
  match numeric_choices start stop with
  | Ok l => 1 <= len l <= maxEditorConfigExpansions
  | Err e => e <> GlobFuel
  end.
Proof.
  intros Ha Hb. unfold numeric_choices.
  set (count := wrap64 (stop - start)).
  assert (Hc : in_int count = true) by apply wrap64_range.
  assert (Hstop : stop = wrap64 (start + count)).
  { unfold count. rewrite Z.add_comm, wrap64_add_l. rewrite <- (wrap64_id stop) at 1 by done.
    f_equal. lia. }
  assert (Hrun : forall n step, 0 <= n <= 63 -> stop = wrap64 (start + n * step) ->
    exists l, numeric_values (Z.to_nat (n + 1)) start stop step = Ok l /\ 1 <= len l <= 64).
  { intros n step Hn Hs. replace (Z.to_nat (n + 1)) with (S (Z.to_nat n)) by lia.
    destruct (numeric_values_total (Z.to_nat n) start stop step) as (l & Hl & ?); [done| |].
    - rewrite Z2Nat.id by lia. done.
    - exists l. split; [done|]. unfold len. lia. }
  assert (Hpair : exists n step, (if count <? 0 then (wrap64 (- count), -1) else (count, 1)) = (n, step) /\
    in_int n = true /\ n <> -1 /\ stop = wrap64 (start + n * step)).
  { destruct (count <? 0) eqn:E; eexists _, _; (split; [done|]); split_and!;
      try apply wrap64_range; try done; try (bool_props; lia).
    - unfold wrap64, in_int, min_int, max_int in *. bool_props. intros Hm.
      destruct (decide (count = -9223372036854775808)) as [Hc|]; [by rewrite Hc in Hm|].
      rewrite Z.mod_small in Hm by lia. lia.
    - rewrite Hstop. replace (start + wrap64 (- count) * -1) with (- wrap64 (- count) + start) by lia.
      unfold in_int, min_int, max_int in Hc. bool_props.
      destruct (decide (count = -9223372036854775808)) as [->|Hne].
      + change (wrap64 (- -9223372036854775808)) with (-9223372036854775808). unfold wrap64. f_equal.
        replace (- -9223372036854775808 + start + 9223372036854775808)
          with (start + -9223372036854775808 + 9223372036854775808 + 1 * 18446744073709551616) by lia.
        by rewrite Z.mod_add by lia.
      + rewrite (wrap64_id (- count)) by (unfold in_int, min_int, max_int; lia). f_equal. lia.
    - rewrite Hstop. f_equal. lia. }
  destruct Hpair as (n & step & -> & Hn & Hneg & Hs). cbn beta iota.
  unfold guard_err, maxEditorConfigExpansions in *.
  destruct (64 <? wrap64 (n + 1)) eqn:E1; [done|].
  destruct (wrap64 (n + 1) <? 0) eqn:E2; [done|]. bool_props.
  assert (0 <= n <= 63).
  { unfold in_int, wrap64, min_int, max_int in *. bool_props.
    destruct (decide (n = 9223372036854775807)) as [->|]; [by vm_compute in E2|].
    rewrite Z.mod_small in E1, E2 by lia. lia. }
  destruct (Hrun n step) as (l & -> & ?); done.
Qed.

Lemma editorConfigBraceChoices_total body :
  match editorConfigBraceChoices body with
  | Ok l => 1 <= len l /\ forall c, c ∈ l -> (count_byte LBRACE c <= count_byte LBRACE body)%nat
  | Err e => e <> GlobFuel
  end.
Proof.
  assert (Hcomma : match comma_choices body with
    | Ok l => 1 <= len l /\ forall c, c ∈ l -> (count_byte LBRACE c <= count_byte LBRACE body)%nat
    | Err e => e <> GlobFuel end).
  { unfold comma_choices, guard_err. destruct (_ <? 2) eqn:E; [done|]. bool_props.
    destruct (bool_decide _); [done|]. split; [lia|]. intros c. apply count_byte_split. }
  unfold editorConfigBraceChoices.
  destruct (split body "..") as [|a [|b [|? ?]]]; try exact Hcomma.
  destruct (atoi a) as [x|] eqn:Ea; [|exact Hcomma]. destruct (atoi b) as [y|] eqn:Eb; [|exact Hcomma].
  apply atoi_in_int in Ea, Eb. pose proof (numeric_choices_total x y Ea Eb) as Ht.
  destruct (numeric_choices x y) as [l|] eqn:El; [|done]. split; [lia|]. intros c Hc.
  rewrite count_byte_absent; [lia|]. clear Hcomma Ht.
  unfold numeric_choices in El. destruct (if _ <? 0 then _ else _) as [n step]. inv_ok.
  assert (Hg : forall fuel v l, numeric_values fuel v y step = Ok l -> c ∈ l -> LBRACE ∉ c).
  { clear. induction fuel as [|fuel IH]; intros v l Hl Hc; [done|]. cbn [numeric_values] in Hl.
    assert (Hd : LBRACE ∉ itoa v).
    { destruct (itoa_digits v) as (? & ? & _ & Hd). rewrite Forall_forall in Hd.
      intros Hin%Hd. vm_compute in Hin. naive_solver. }
    destruct (v =? y); simplify_eq.
    - apply list_elem_of_singleton in Hc as ->. done.
    - apply fmap_Ok in Hl as (l' & Hl & ->). apply elem_of_cons in Hc as [->|Hc]; eauto. }
  eauto.
Qed.

Lemma find_open_Some s e i :
  find_open s e = Ok (Some i) -> s !! i = Some LBRACE.
Proof.
  revert e i; induction s as [|c s IH]; intros e i Hf; [done|]. cbn [find_open] in Hf.
  assert (Hrec : forall e', option_map S <$> find_open s e' = Ok (Some i) ->
    (c :: s) !! i = Some LBRACE).
  { intros e' ([j|] & Hj & [= ->])%fmap_Ok. cbn. eauto. }
  repeat case_match; eauto; simplify_eq.
  match goal with E : Ascii.eqb _ LBRACE = true |- _ => by apply Ascii.eqb_eq in E as -> end.
Qed.

Lemma find_open_total s e : find_open s e <> Err GlobFuel.
Proof.
  revert e; induction s as [|c s IH]; intros e; [done|]. cbn [find_open].
  repeat case_match; try done; intros Hf%fmap_Err; by eapply IH.
Qed.

(** The pattern around the braces: the choice replaces them. *)
Lemma expand_count pattern open n choice :
  pattern !! open = Some LBRACE -> find_close 0 (drop open pattern) = Some n ->
  (count_byte LBRACE choice <= count_byte LBRACE (slice (open + 1) (open + n) pattern))%nat ->
  (count_byte LBRACE (take open pattern ++ choice ++ drop (open + n + 1) pattern)
   < count_byte LBRACE pattern)%nat.
Proof.
  intros Ho Hn Hc. pose proof (drop_S _ _ _ Ho) as Hd.
  rewrite <- (take_drop open pattern) at 3. rewrite !count_byte_app, Hd, count_byte_cons.
  rewrite Hd in Hn. cbn [find_close] in Hn. rewrite Ascii.eqb_refl in Hn.
  apply fmap_Some in Hn as (m & _ & ->).
  unfold slice in Hc. rewrite Nat.add_1_r in Hc.
  rewrite <- (take_drop (open + S m - S open) (drop (S open) pattern)), count_byte_app, drop_drop.
  pose proof (count_byte_drop LBRACE 1 (drop (S open + (open + S m - S open)) pattern)) as Hlast.
  rewrite drop_drop in Hlast.
  replace (S open + (open + S m - S open) + 1)%nat with (open + S m + 1)%nat in Hlast by lia. lia.
Qed.

Definition expanded_ok (limit : Z) (r : result glob_error (list gostring)) : Prop :=
  match r with
  | Ok l => 1 <= len l <= Z.max 1 limit /\ Forall (fun p => find_open p false = Ok None) l
  | Err e => e <> GlobFuel
  end.

Lemma expand_choices_ok expand before after limit choices expanded :
  (forall c lim, c ∈ choices -> expanded_ok lim (expand (before ++ c ++ after) lim)) ->
  len expanded <= limit -> Forall (fun p => find_open p false = Ok None) expanded ->
  (expanded = [] -> choices <> []) ->
  expanded_ok limit (expand_choices expand before after limit choices expanded).
Proof.
  revert expanded; induction choices as [|c cs IH]; intros expanded Hx Hl Hf Hne.
  - cbn. destruct expanded; [by destruct Hne|]. split; [|done]. unfold len in *. cbn in *. lia.
  - cbn [expand_choices]. specialize (Hx c (limit - len expanded) ltac:(by left)) as Hc.
    destruct (expand _ _) as [parts|e]; [|done]. cbn [mbind result_bind]. destruct Hc as [Hp1 Hp2].
    unfold guard_err. destruct (limit <? _) eqn:E; [done|]. bool_props.
    apply IH; [|done|by apply Forall_app|].
    + intros c' lim Hc'. apply Hx. by right.
    + intros [-> ->]%app_eq_nil. unfold len in Hp1. cbn in Hp1. lia.
Qed.

Lemma expand_braces_ok fuel pattern limit :
  (count_byte LBRACE pattern < fuel)%nat -> expanded_ok limit (expand_braces fuel pattern limit).
Proof.
  revert pattern limit; induction fuel as [|fuel IH]; intros pattern limit Hf; [lia|].
  cbn [expand_braces]. pose proof (find_open_total pattern false) as Ht.
  destruct (find_open pattern false) as [[open|]|e] eqn:Eo; cbn [mbind result_bind]; cycle 1.
  { split; [unfold len; cbn; lia|]. by repeat constructor. }
  { intros ->. done. }
  destruct (find_close 0 (drop open pattern)) as [n|] eqn:Ec; [|done].
  pose proof (editorConfigBraceChoices_total (slice (open + 1) (open + n) pattern)) as Hb.
  destruct (editorConfigBraceChoices _) as [choices|e]; [|done]. cbn [mbind result_bind].
  destruct Hb as [Hb1 Hb2]. unfold guard_err. destruct (_ || _) eqn:E; [done|]. bool_props.
  apply find_open_Some in Eo.
  apply expand_choices_ok; [|unfold len in *; cbn; lia|constructor|].
  - intros c lim Hc. apply IH. pose proof (expand_count _ _ _ _ Eo Ec (Hb2 c Hc)). lia.
  - intros _ ->. unfold len in Hb1. cbn in Hb1. lia.
Qed.

(** Brace expansion terminates for every pattern: the recursion removes one
    opening brace per level, so the fuel never runs out. Within a positive limit
    it returns at least one and at most [limit] patterns, and none of them has a
    brace left to expand. *)
Theorem expandEditorConfigBraces_total pattern limit :
  1 <= limit ->
  match expandEditorConfigBraces pattern limit with
  | Ok l => 1 <= len l <= limit /\ Forall (fun p => find_open p false = Ok None) l
  | Err e => e <> GlobFuel
  end.
Proof.
  intros Hl. pose proof (expand_braces_ok (S (count_byte LBRACE pattern)) pattern limit) as He.
  unfold expanded_ok in He. rewrite Z.max_r in He by lia. apply He. lia.
Qed.

Lemma expandEditorConfigBraces_total_witness :
  expandEditorConfigBraces "*.{c,h{1..2}}" 64 = Ok ["*.c"; "*.h1"; "*.h2"] /\
  Forall (fun p => find_open p false = Ok None) ["*.c"; "*.h1"; "*.h2"].
Proof.
  assert (E : expandEditorConfigBraces "*.{c,h{1..2}}" 64 = Ok ["*.c"; "*.h1"; "*.h2"])
    by (vm_compute; reflexivity).
  split; [exact E|].
  pose proof (expandEditorConfigBraces_total "*.{c,h{1..2}}" 64 ltac:(lia)) as Ht.
  rewrite E in Ht. exact (proj2 Ht).
Defined.

(** ** Numeric ranges *)

Lemma choices_range a b :
  in_int a = true -> in_int b = true ->
  editorConfigBraceChoices (itoa a ++ ".." ++ itoa b) = numeric_choices a b.
Proof.
  intros Ha Hb. unfold editorConfigBraceChoices.
  assert (Hd : forall n, "."%char ∉ itoa n).
  { intros n. destruct (itoa_digits n) as (? & ? & _ & Hd). rewrite Forall_forall in Hd.
    intros Hin%Hd. vm_compute in Hin. naive_solver. }
  rewrite split_cons_sep by apply Hd. rewrite split_no_sep by apply Hd. cbn beta iota.
  by rewrite !atoi_itoa.
Qed.

Lemma numeric_values_range k v step :
  (step = 1 \/ step = -1) -> in_int v = true -> in_int (v + Z.of_nat k * step) = true ->
  numeric_values (S k) v (v + Z.of_nat k * step) step =
  Ok ((fun i => itoa (v + i * step)) <$> seqZ 0 (Z.of_nat (S k))).
Proof.
  intros Hs. revert v; induction k as [|k IH]; intros v Hv Hend; cbn [numeric_values].
  - rewrite Z.mul_0_l, Z.add_0_r, Z.eqb_refl.
    change (seqZ 0 (Z.of_nat 1)) with [0]. cbn [fmap list_fmap]. by rewrite Z.mul_0_l, Z.add_0_r.
  - destruct (Z.eqb_spec v (v + Z.of_nat (S k) * step)) as [E|_]; [exfalso; destruct Hs; lia|].
    unfold in_int, min_int, max_int in *. bool_props.
    rewrite wrap64_id by (unfold in_int, min_int, max_int; destruct Hs; lia).
    replace (v + Z.of_nat (S k) * step) with ((v + step) + Z.of_nat k * step) in * by lia.
    cbn [numeric_values] in IH. rewrite IH by (destruct Hs; lia). cbn [fmap result_fmap].
    rewrite (seqZ_cons 0 (Z.of_nat (S (S k)))) by lia. cbn [fmap list_fmap]. f_equal.
    f_equal; [f_equal; lia|].
    rewrite <- (Z.add_0_r (Z.succ 0)), <- seqZ_fmap || idtac.
    replace (Z.pred (Z.of_nat (S (S k)))) with (Z.of_nat (S k)) by lia.
    change (Z.succ 0) with (1 + 0). rewrite <- fmap_add_seqZ, <- list_fmap_compose.
    apply list_fmap_ext. intros ? i _. cbn. f_equal. lia.
Qed.

(** A numeric range [{a..b}] of at most 64 values expands to exactly the decimal
    numbers from [a] to [b], upwards or downwards. *)
Theorem brace_range_values a b :
  in_int a = true -> in_int b = true -> Z.abs (b - a) <= 63 ->
  editorConfigBraceChoices (itoa a ++ ".." ++ itoa b) =
  Ok ((fun i => itoa (a + i * (if b <? a then -1 else 1))) <$> seqZ 0 (Z.abs (b - a) + 1)).
Proof.
  intros Ha Hb Hd. rewrite choices_range by done. unfold numeric_choices.
  rewrite wrap64_id by (unfold in_int, min_int, max_int; lia).
  assert (exists n, Z.abs (b - a) = Z.of_nat n) as [n Hn]
    by (exists (Z.to_nat (Z.abs (b - a))); lia).
  replace (if b - a <? 0 then (wrap64 (- (b - a)), -1) else (b - a, 1))
    with (Z.of_nat n, if b <? a then -1 else 1).
  2:{ destruct (b - a <? 0) eqn:E1, (b <? a) eqn:E2; bool_props; try lia; f_equal; [|lia].
      rewrite wrap64_id by (unfold in_int, min_int, max_int; lia). lia. }
  unfold maxEditorConfigExpansions, guard_err.
  rewrite wrap64_id by (unfold in_int, min_int, max_int; lia).
  rewrite (proj2 (Z.ltb_ge _ _)) by lia. rewrite (proj2 (Z.ltb_ge _ _)) by lia.
  replace (Z.to_nat (Z.of_nat n + 1)) with (S n) by lia. rewrite Hn.
  assert (Hb' : b = a + Z.of_nat n * (if b <? a then -1 else 1)) by (destruct (Z.ltb_spec b a); lia).
  rewrite Hb' at 1.
  rewrite numeric_values_range; [by rewrite Nat2Z.inj_succ|by destruct (b <? a); auto|done|].
  by rewrite <- Hb'.
Qed.

Lemma brace_range_values_witness :
  editorConfigBraceChoices "3..1" = Ok ["3"; "2"; "1"].
Proof.
  refine (eq_trans (brace_range_values 3 1 _ _ _) _); vm_compute; (reflexivity || discriminate).
Defined.

Lemma numeric_values_Err fuel v stop step e :
  numeric_values fuel v stop step = Err e -> e = GlobFuel.
Proof.
  revert v; induction fuel as [|fuel IH]; intros v; cbn [numeric_values]; [by intros [=]|].
  destruct (v =? stop); [done|]. intros Hf%fmap_Err. eauto.
Qed.

Lemma wrap64_shift d : exists q, wrap64 d = d - 18446744073709551616 * q.
Proof.
  exists ((d + 9223372036854775808) / 18446744073709551616). unfold wrap64.
  pose proof (Z.div_mod (d + 9223372036854775808) 18446744073709551616). lia.
Qed.

(** The bounds check of a numeric range wraps: a range whose ends are [2^63]
    apart, or one more or less, passes it with a negative size, and the
    allocation panics. These are the only ranges that do. *)
Theorem brace_range_panics a b :
  in_int a = true -> in_int b = true ->
  (editorConfigBraceChoices (itoa a ++ ".." ++ itoa b) = Err GlobPanic <->
   9223372036854775807 <= Z.abs (b - a) <= 9223372036854775809).
Proof.
  intros Ha Hb. rewrite choices_range by done. unfold numeric_choices.
  pose proof (wrap64_range (b - a)) as Hc. destruct (wrap64_shift (b - a)) as [q Hq].
  set (count := wrap64 (b - a)) in *. unfold in_int, min_int, max_int in *. bool_props.
  transitivity (count = -9223372036854775808 \/ Z.abs count = 9223372036854775807); [|lia].
  assert (Hneg : forall n, 0 <= n < 9223372036854775807 ->
    wrap64 (n + 1) = n + 1) by (intros; apply wrap64_id; unfold in_int, min_int, max_int; lia).
  assert (Hrun : forall n step, 0 <= n < 9223372036854775807 ->
    (reject maxEditorConfigExpansions <? wrap64 (n + 1) with GlobInvalid;
     reject wrap64 (n + 1) <? 0 with GlobPanic;
     numeric_values (Z.to_nat (n + 1)) a b step) <> Err GlobPanic).
  { intros n step Hn. rewrite Hneg by done. unfold guard_err. repeat case_match; bool_props; try done; [lia|].
    by intros ?%numeric_values_Err. }
  assert (Hpanic : forall n step, (n = -9223372036854775808 \/ n = 9223372036854775807) ->
    (reject maxEditorConfigExpansions <? wrap64 (n + 1) with GlobInvalid;
     reject wrap64 (n + 1) <? 0 with GlobPanic;
     numeric_values (Z.to_nat (n + 1)) a b step) = Err GlobPanic).
  { intros n step [-> | ->]; reflexivity. }
  destruct (count <? 0) eqn:E; bool_props.
  - destruct (decide (count = -9223372036854775808)) as [->|].
    { rewrite Hpanic by (by left). split; [by left|done]. }
    rewrite (wrap64_id (- count)) by (unfold in_int, min_int, max_int; lia).
    destruct (decide (count = -9223372036854775807)) as [->|].
    { rewrite Hpanic by (by right). split; [by right|done]. }
    split; [|lia]. intros Hp. by destruct (Hrun (- count) (-1) ltac:(lia)).
  - destruct (decide (count = 9223372036854775807)) as [->|].
    { rewrite Hpanic by (by right). split; [by right|done]. }
    split; [|lia]. intros Hp. by destruct (Hrun count 1 ltac:(lia)).
Qed.

Lemma brace_range_panics_witness :
  editorConfigBraceChoices "0..9223372036854775807" = Err GlobPanic.
Proof.
  apply (brace_range_panics 0 9223372036854775807); [reflexivity|reflexivity|].
  vm_compute. split; discriminate.
Defined.

(** ** Resolution of the nearest settings *)

(** What one file says about a property: nothing, [unset], or a value. *)
Definition says {T} (p : property T) : option (option T) :=
  if present p then Some (if unset p then None else Some (value p)) else None.

(** The value that stands after the files from the workspace root inwards. *)
Definition nearest {T} (said : list (option (option T))) : option T :=
  foldl (fun acc x => match x with None => acc | Some v => v end) None said.

Definition prop_of {T} (zero : T) (v : option T) : property T :=
  match v with Some v => mkProperty true false v | None => mkProperty false false zero end.

(** A property as [applyEditorConfigProperty] leaves it. *)
Definition property_ok {T} (zero : T) (good : T -> Prop) (p : property T) : Prop :=
  (present p = false /\ unset p = false /\ value p = zero) \/
  (present p = true /\ unset p = true /\ value p = zero) \/
  (present p = true /\ unset p = false /\ good (value p)).

Record config_ok (c : EditorConfig) : Prop := {
  co_style : property_ok [] (fun s => s = IndentStyleSpace \/ s = IndentStyleTab) (indentStyle c);
  co_tab : property_ok 0 (fun n => 1 <= n <= maxIndentWidth) (tabWidth c);
  co_size_present : present (indentSize c) = present (indentIsTab c);
  co_size_unset : unset (indentSize c) = unset (indentIsTab c);
  co_size_tab : value (indentIsTab c) = true ->
    present (indentSize c) = true /\ unset (indentSize c) = false /\ value (indentSize c) = 0;
  co_size : value (indentIsTab c) = false ->
    property_ok 0 (fun n => 1 <= n <= maxIndentWidth) (indentSize c)
}.

Inductive size_setting := SizeTab | SizeWidth (n : Z).

Definition size_says (c : EditorConfig) : option (option size_setting) :=
  if present (indentSize c)
  then Some (if unset (indentSize c) then None
             else Some (if value (indentIsTab c) then SizeTab else SizeWidth (value (indentSize c))))
  else None.

(** The specification of [ResolveIndentation]. *)
Definition resolve_spec (configs : list EditorConfig) : Indentation :=
  let size := nearest (size_says <$> configs) in
  let tab_width := default (match size with Some (SizeWidth n) => n | _ => 4 end)
                     (nearest (says ∘ tabWidth <$> configs)) in
  let indent_size := match size with Some (SizeWidth n) => n | _ => tab_width end in
  mkIndentation (default IndentStyleSpace (nearest (says ∘ indentStyle <$> configs)))
    indent_size tab_width.

Lemma merge_property {T} (zero : T) good v p :
  property_ok zero good p ->
  mergeEditorConfigProperty zero (prop_of zero v) p =
  prop_of zero (match says p with None => v | Some w => w end).
Proof.
  intros Hp. unfold mergeEditorConfigProperty, says, property_ok in *. destruct p as [pr un va].
  cbn in *. by destruct pr, un.
Qed.

Definition size_prop (s : option size_setting) : property Z :=
  match s with Some SizeTab => mkProperty true false 0 | Some (SizeWidth n) => mkProperty true false n
             | None => mkProperty false false 0 end.
Definition tab_prop (s : option size_setting) : property bool :=
  match s with Some SizeTab => mkProperty true false true | Some (SizeWidth n) => mkProperty true false false
             | None => mkProperty false false false end.

Lemma merge_size c s :
  config_ok c ->
  mergeEditorConfigProperty 0 (size_prop s) (indentSize c) =
    size_prop (match size_says c with None => s | Some w => w end) /\
  mergeEditorConfigProperty false (tab_prop s) (indentIsTab c) =
    tab_prop (match size_says c with None => s | Some w => w end).
Proof.
  intros [_ _ Hp Hu Ht _]. unfold mergeEditorConfigProperty, size_says. rewrite <- Hp, <- Hu.
  destruct (indentSize c) as [p u v], (indentIsTab c) as [p' u' v']. cbn in *. subst p' u'.
  destruct p, u; cbn; try done. destruct v'; [|done]. by destruct Ht as (_ & _ & ->).
Qed.

Lemma merge_fold configs st s w :
  Forall config_ok configs ->
  foldl merge_step (prop_of [] st, size_prop s, tab_prop s, prop_of 0 w) configs =
  let next {T} (acc : option T) (x : option (option T)) := match x with None => acc | Some v => v end in
  let s' := foldl next s (size_says <$> configs) in
  (prop_of [] (foldl next st (says ∘ indentStyle <$> configs)), size_prop s', tab_prop s',
   prop_of 0 (foldl next w (says ∘ tabWidth <$> configs))).
Proof.
  intros Hcs. revert st s w. induction Hcs as [|c cs Hc Hcs IH]; intros st s w; [done|].
  cbn [foldl fmap list_fmap]. unfold merge_step at 2.
  rewrite (merge_property _ _ _ _ (co_style _ Hc)), (merge_property _ _ _ _ (co_tab _ Hc)).
  destruct (merge_size c s Hc) as [-> ->]. by rewrite IH.
Qed.

Lemma nearest_good {T} (good : T -> Prop) (said : list (option (option T))) v :
  nearest said = Some v -> (forall w, Some (Some w) ∈ said -> good w) -> good v.
Proof.
  unfold nearest. assert (Hg : forall acc, (forall w, acc = Some w -> good w) ->
    foldl (fun acc x => match x with None => acc | Some v => v end) acc said = Some v ->
    (forall w, Some (Some w) ∈ said -> good w) -> good v).
  { induction said as [|x said IH]; cbn; intros acc Ha Hv Hs; [by apply Ha|].
    eapply IH; [|exact Hv|intros w Hw; apply Hs; by right].
    destruct x as [x|]; [|done]. intros w ->. apply Hs. by left. }
  intros Hv Hs. apply (Hg None); by auto.
Qed.

Lemma says_good {T} zero good (f : EditorConfig -> property T) configs v :
  Forall (fun c => property_ok zero good (f c)) configs ->
  nearest (says ∘ f <$> configs) = Some v -> good v.
Proof.
  intros Hok Hv. eapply nearest_good; [exact Hv|]. intros w (c & Hw & Hc)%list_elem_of_fmap.
  rewrite Forall_forall in Hok. specialize (Hok c Hc). cbn in Hw. unfold says in Hw.
  destruct Hok as [(E & _)|[(E & E' & _)|(E & E' & ?)]]; rewrite E, ?E' in Hw; naive_solver.
Qed.

Lemma size_says_good configs n :
  Forall config_ok configs -> nearest (size_says <$> configs) = Some (SizeWidth n) ->
  1 <= n <= maxIndentWidth.
Proof.
  intros Hok Hv.
  apply (nearest_good (fun s => match s with SizeTab => True | SizeWidth n => 1 <= n <= maxIndentWidth end)
           (size_says <$> configs) (SizeWidth n) Hv). intros w (c & Hw & Hc)%list_elem_of_fmap.
  rewrite Forall_forall in Hok. destruct (Hok c Hc) as [_ _ _ _ _ Hs]. unfold size_says in Hw.
  destruct (value (indentIsTab c)); [by repeat case_match; simplify_eq|].
  destruct (Hs eq_refl) as [(E & _)|[(E & E' & _)|(E & E' & ?)]]; rewrite E, ?E' in Hw; naive_solver.
Qed.

Lemma normalized_ok st sz w :
  (st = IndentStyleSpace \/ st = IndentStyleTab) -> 1 <= sz <= maxIndentWidth ->
  1 <= w <= maxIndentWidth -> normalized (mkIndentation st sz w) = mkIndentation st sz w.
Proof.
  intros Hst Hsz Hw. unfold normalized, maxIndentWidth in *. cbn [Style IndentSize TabWidth].
  rewrite !(proj2 (Z.ltb_ge _ _)) by lia. cbn [orb].
  by destruct Hst as [-> | ->].
Qed.

(** For parsed files, ordered from the workspace root inwards, the resolved
    indentation takes each property from the nearest file that mentions it; an
    [unset] there restores the default; [indent_size = tab] follows the tab width
    and a missing tab width follows the indent size. The range check at the end
    never changes anything. *)
Theorem ResolveIndentation_nearest configs :
  Forall config_ok configs -> ResolveIndentation configs = resolve_spec configs.
Proof.
  intros Hok. unfold ResolveIndentation.
  pose proof (merge_fold configs None None None Hok) as Hm. cbn [prop_of size_prop tab_prop] in Hm.
  rewrite Hm. cbv zeta. unfold resolve_spec.
  fold (nearest (size_says <$> configs)) (nearest (says ∘ indentStyle <$> configs))
       (nearest (says ∘ tabWidth <$> configs)).
  assert (Hst : forall s, nearest (says ∘ indentStyle <$> configs) = Some s ->
                s = IndentStyleSpace \/ s = IndentStyleTab).
  { intros s. apply (says_good [] (fun s => s = IndentStyleSpace \/ s = IndentStyleTab)).
    eapply Forall_impl; [exact Hok|]. by intros c []. }
  assert (Hw : forall n, nearest (says ∘ tabWidth <$> configs) = Some n -> 1 <= n <= maxIndentWidth).
  { intros n. apply (says_good 0 (fun n => 1 <= n <= maxIndentWidth)).
    eapply Forall_impl; [exact Hok|]. by intros c []. }
  pose proof (fun n => size_says_good configs n Hok) as Hsz.
  destruct (nearest (size_says <$> configs)) as [[|n]|],
    (nearest (says ∘ indentStyle <$> configs)) as [s|],
    (nearest (says ∘ tabWidth <$> configs)) as [w|];
    cbn [prop_of size_prop tab_prop present value DefaultIndentation Style TabWidth default negb andb orb];
    apply normalized_ok; auto; by vm_compute.
Qed.

Section parser_properties.
Context `{Regexp, UnicodeTables}.

Lemma parseIndentWidth_range v n : parseIndentWidth v = Some n -> 1 <= n <= maxIndentWidth.
Proof.
  unfold parseIndentWidth. intros Hp. repeat case_match; simplify_eq.
  match goal with E : _ || _ = false |- _ => apply orb_false_iff in E as [?%Z.ltb_ge ?%Z.ltb_ge] end. lia.
Qed.

Lemma zero_config_ok : config_ok zero_config.
Proof. split; cbn; try done; left; done. Qed.

Lemma applyEditorConfigProperty_ok c key v c' :
  config_ok c -> applyEditorConfigProperty c key v = Some c' -> config_ok c'.
Proof.
  intros [] Ha. unfold applyEditorConfigProperty in Ha.
  repeat case_match; simplify_eq; split; cbn; try done; unfold property_ok; cbn;
    try match goal with E : parseIndentWidth _ = Some _ |- _ => apply parseIndentWidth_range in E end;
    by auto 10.
Qed.

Lemma parse_line_ok st raw target number st' :
  config_ok (ps_config st) -> parse_line st raw target number = Ok st' -> config_ok (ps_config st').
Proof.
  intros Hc Hp. unfold parse_line, parse_section, parse_property in Hp.
  assert (Hroot : forall b, config_ok (set_root (ps_config st) b)) by (intros b; by destruct Hc).
  repeat case_match; inv_ok; simplify_eq; cbn; auto;
    by eapply applyEditorConfigProperty_ok.
Qed.

Lemma parse_lines_ok st lines target number st' :
  config_ok (ps_config st) -> parse_lines st lines target number = Ok st' -> config_ok (ps_config st').
Proof.
  revert st number; induction lines as [|l ls IH]; intros st number Hc Hp; cbn in Hp; [by simplify_eq|].
  inv_ok. eapply IH; [|done]. by eapply parse_line_ok.
Qed.

(** A configuration that parses only holds indent styles that are [space] or
    [tab], widths between 1 and 32, and size and tab markers that agree: what
    [ResolveIndentation_nearest] asks of its configurations. *)
Theorem ParseEditorConfig_ok data targetPath c :
  ParseEditorConfig data targetPath = Ok c -> config_ok c.
Proof.
  unfold ParseEditorConfig. intros Hp. inv_ok.
  eapply parse_lines_ok; [|done]. apply zero_config_ok.
Qed.

End parser_properties.

(** *** Concrete instances *)

(** A matcher that knows the expression of the section [[*]] only. *)
Definition star_regexp : Regexp := {|
  match_string e s := Some (bool_decide (e = "^[^/]*$") && negb (contains_byte s SLASH))
|}.

Definition sample_editorconfig : gostring :=
  "root = true" ++ [LF] ++ "[*]" ++ [CR; LF] ++ "indent_style=Tab" ++ [LF] ++ "indent_size: tab" ++ [LF] ++
  "tab_width = 8" ++ [LF].

Definition sample_config : EditorConfig :=
  mkEditorConfig true (mkProperty true false IndentStyleTab) (mkProperty true false 0)
    (mkProperty true false true) (mkProperty true false 8).

Definition sample_unset : EditorConfig :=
  mkEditorConfig false (mkProperty false false []) (mkProperty true true 0)
    (mkProperty true true false) (mkProperty false false 0).

Lemma sample_config_ok : config_ok sample_config.
Proof. split; cbn; try done; unfold property_ok, maxIndentWidth; cbn.
  - right; right. auto.
  - right; right. split_and!; done || lia.
Qed.

Lemma ParseEditorConfig_ok_witness :
  @ParseEditorConfig star_regexp ascii_tables sample_editorconfig "dir/main.go" = Ok sample_config /\
  config_ok sample_config.
Proof.
  assert (E : @ParseEditorConfig star_regexp ascii_tables sample_editorconfig "dir/main.go" = Ok sample_config)
    by (vm_compute; reflexivity).
  split; [exact E|]. exact (@ParseEditorConfig_ok star_regexp ascii_tables _ _ _ E).
Defined.

Lemma sample_unset_ok : config_ok sample_unset.
Proof. split; cbn; try done; [by left|by left|]. intros _. by right; left. Qed.

Lemma ResolveIndentation_nearest_witness :
  ResolveIndentation [sample_config; sample_unset] = mkIndentation IndentStyleTab 8 8.
Proof.
  apply (ResolveIndentation_nearest [sample_config; sample_unset]).
  constructor; [exact (sample_config_ok)|]. constructor; [exact sample_unset_ok|constructor].
Defined.
