(* ===== verification/Diff.v ===== *)
(** * Bounded unified diffs ([internal/textfile/diff.go]) *)
From S2P Require Import Prelude GoStrings Strconv TextTypes.
#[local] Open Scope Z_scope.

Definition DefaultDiffContext : Z := 3.
Definition DefaultMaxDiffBytes : Z := Z.shiftl 1 20.
Definition DefaultMaxDiffLines : Z := 20000.
Definition DefaultMaxDiffMatrixCells : Z := 4000000.

Record DiffOptions := mkDiffOptions {
  OldName : gostring; NewName : gostring; Context : Z;
  MaxOutputBytes : Z; MaxLines : Z; MaxMatrixCells : Z
}.

#[export] Instance DiffOptions_eq_dec : EqDecision DiffOptions.
Proof. solve_decision. Defined.

Record diffLine := mkLine { line_text : gostring; line_ending : gostring }.

#[export] Instance diffLine_eq_dec : EqDecision diffLine.
Proof. solve_decision. Defined.

Inductive diffKind := diffEqual | diffDelete | diffInsert.

#[export] Instance diffKind_eq_dec : EqDecision diffKind.
Proof. solve_decision. Defined.

Record diffOp := mkOp { op_kind : diffKind; op_line : diffLine }.
Record diffHunk := mkHunk { hunk_start : Z; hunk_end : Z }.

(** The zero value of [DiffOptions]. *)
Definition zero_options : DiffOptions := mkDiffOptions [] [] 0 0 0 0.

Definition or_name (name fallback : gostring) : gostring := if decide (name = []) then fallback else name.

Definition resolveDiffOptions (opts : DiffOptions) : result text_error DiffOptions :=
  let out := mkDiffOptions
    (or_name (OldName opts) "a/file") (or_name (NewName opts) "b/file")
    (if decide (opts = zero_options) then DefaultDiffContext else Context opts)
    (or_default (MaxOutputBytes opts) DefaultMaxDiffBytes)
    (or_default (MaxLines opts) DefaultMaxDiffLines)
    (or_default (MaxMatrixCells opts) DefaultMaxDiffMatrixCells) in
  reject (Context out <? 0) || (1000 <? Context out) ||
         (MaxOutputBytes out <? 0) || (hardMaxBytes <? MaxOutputBytes out) ||
         (MaxLines out <? 0) || (1000000 <? MaxLines out) ||
         (MaxMatrixCells out <? 0) || (20000000 <? MaxMatrixCells out)
  with ErrInvalidOptions;
  Ok out.

(** ** Lines *)

(** [cur] is [text[start:i]], the line read so far. *)
Fixpoint split_lines (cur text : gostring) : list diffLine :=
  match text with
  | [] => if decide (cur = []) then [] else [mkLine cur []]
  | c :: rest =>
      if Ascii.eqb c CR then
        match rest with
        | d :: rest' => if Ascii.eqb d LF then mkLine cur [CR; LF] :: split_lines [] rest'
                        else mkLine cur [CR] :: split_lines [] rest
        | [] => [mkLine cur [CR]]
        end
      else if Ascii.eqb c LF then mkLine cur [LF] :: split_lines [] rest
      else split_lines (cur ++ [c]) rest
  end.
Definition splitDiffLines (text : gostring) : list diffLine := split_lines [] text.

(** ** The longest common subsequence *)

Fixpoint common_prefix (a b : list diffLine) : nat :=
  match a, b with
  | x :: a', y :: b' => if decide (x = y) then S (common_prefix a' b') else O
  | _, _ => O
  end.

(** Row [i] of the table, from right to left, given row [i+1]. *)
Fixpoint lcs_row (x : diffLine) (new : list diffLine) (below : list Z) : list Z :=
  match new, below with
  | y :: new', b :: below' =>
      let right := lcs_row x new' below' in
      let cell := if decide (x = y) then default 0 (head below') + 1
                  else if default 0 (head right) <=? b then b else default 0 (head right) in
      cell :: right
  | _, _ => [0]
  end.

Fixpoint lcs_table (old new : list diffLine) : list (list Z) :=
  match old with
  | [] => [replicate (length new + 1) 0]
  | x :: old' => let below := lcs_table old' new in
                 lcs_row x new (default [] (head below)) :: below
  end.

Definition cell (table : list (list Z)) (i j : nat) : Z :=
  default 0 (row ← table !! i; row !! j).

(** The walk over the table and the two loops that follow it. *)
Fixpoint walk (fuel : nat) (table : list (list Z)) (old new : list diffLine) (i j : nat) : list diffOp :=
  match fuel with
  | O => []
  | S fuel =>
      match old !! i, new !! j with
      | Some x, Some y =>
          if decide (x = y) then mkOp diffEqual x :: walk fuel table old new (S i) (S j)
          else if cell table i (S j) <=? cell table (S i) j
          then mkOp diffDelete x :: walk fuel table old new (S i) j
          else mkOp diffInsert y :: walk fuel table old new i (S j)
      | Some x, None => mkOp diffDelete x :: walk fuel table old new (S i) j
      | None, Some y => mkOp diffInsert y :: walk fuel table old new i (S j)
      | None, None => []
      end
  end.

Definition calculateDiff (oldLines newLines : list diffLine) (maxCells : Z)
  : result text_error (list diffOp) :=
  let prefix := common_prefix oldLines newLines in
  let suffix := common_prefix (reverse (drop prefix oldLines)) (reverse (drop prefix newLines)) in
  let oldEnd := (length oldLines - suffix)%nat in
  let newEnd := (length newLines - suffix)%nat in
  let oldMiddle := slice prefix oldEnd oldLines in
  let newMiddle := slice prefix newEnd newLines in
  let cells := (len oldMiddle + 1) * (len newMiddle + 1) in
  reject maxCells <? cells with ErrDiffTooComplex;
  let table := lcs_table oldMiddle newMiddle in
  Ok ((mkOp diffEqual <$> take prefix oldLines) ++
      walk (length oldMiddle + length newMiddle) table oldMiddle newMiddle 0 0 ++
      (mkOp diffEqual <$> drop oldEnd oldLines)).

(** ** Hunks *)

Definition is_change (op : diffOp) : bool := negb (bool_decide (op_kind op = diffEqual)).

Fixpoint changes_from (i : Z) (ops : list diffOp) : list Z :=
  match ops with
  | [] => []
  | op :: ops' => if is_change op then i :: changes_from (i + 1) ops' else changes_from (i + 1) ops'
  end.

Definition clamp_end (n end_ : Z) : Z := if n <? end_ then n else end_.

Fixpoint hunks_loop (changes : list Z) (context n start end_ : Z) : list diffHunk :=
  match changes with
  | [] => [mkHunk start end_]
  | change :: changes' =>
      let nextStart := change - context in
      if nextStart <=? end_ then
        let nextEnd := clamp_end n (change + context + 1) in
        hunks_loop changes' context n start (if end_ <? nextEnd then nextEnd else end_)
      else mkHunk start end_ ::
           hunks_loop changes' context n nextStart (clamp_end n (change + context + 1))
  end.

Definition makeHunks (ops : list diffOp) (context : Z) : list diffHunk :=
  match changes_from 0 ops with
  | [] => []
  | change :: changes =>
      let start := change - context in
      hunks_loop changes context (len ops) (if start <? 0 then 0 else start)
        (clamp_end (len ops) (change + context + 1))
  end.

Definition advancePosition (pos : Z * Z) (op : diffOp) : Z * Z :=
  ((if decide (op_kind op = diffInsert) then pos.1 else pos.1 + 1),
   (if decide (op_kind op = diffDelete) then pos.2 else pos.2 + 1)).

Definition hunkCounts (ops : list diffOp) : Z * Z := foldl advancePosition (0, 0) ops.

Definition formatRange (start count : Z) : gostring :=
  if count =? 1 then itoa start else itoa start ++ "," ++ itoa count.

Definition cleanDiffName (name fallback : gostring) : gostring :=
  let name := replace_all name [CR] "_" in
  let name := replace_all name [LF] "_" in
  if decide (name = []) then fallback else name.

(** ** Rendering *)

Definition kind_byte (k : diffKind) : gostring :=
  match k with diffEqual => " " | diffDelete => "-" | diffInsert => "+" end.

Definition render_op (op : diffOp) : gostring :=
  let ending := line_ending (op_line op) in
  kind_byte (op_kind op) ++ line_text (op_line op) ++
  (if decide (ending = [CR; LF] \/ ending = [CR]) then [CR] else []) ++ [LF] ++
  (if decide (ending = []) then "\ No newline at end of file" ++ [LF] else []).

Fixpoint write_ops (ops : list diffOp) (builder : gostring) (limit : Z) : result text_error gostring :=
  match ops with
  | [] => Ok builder
  | op :: ops' =>
      let builder := builder ++ render_op op in
      reject limit <? len builder with ErrTooLarge;
      write_ops ops' builder limit
  end.

Definition hunk_header (oldStart oldCount newStart newCount : Z) : gostring :=
  "@@ -" ++ formatRange oldStart oldCount ++ " +" ++ formatRange newStart newCount ++ " @@" ++ [LF].

(** The loop over the hunks: [pos] holds [oldPosition] and [newPosition]. *)
Fixpoint write_hunks (hunks : list diffHunk) (ops : list diffOp) (pos : Z * Z) (opPosition : Z)
    (builder : gostring) (limit : Z) : result text_error gostring :=
  match hunks with
  | [] => Ok builder
  | hunk :: hunks' =>
      let pos := foldl advancePosition pos
                   (slice (Z.to_nat opPosition) (Z.to_nat (hunk_start hunk)) ops) in
      let body := slice (Z.to_nat (hunk_start hunk)) (Z.to_nat (hunk_end hunk)) ops in
      let '(oldCount, newCount) := hunkCounts body in
      let oldStart := if oldCount =? 0 then pos.1 - 1 else pos.1 in
      let newStart := if newCount =? 0 then pos.2 - 1 else pos.2 in
      builder ← write_ops body (builder ++ hunk_header oldStart oldCount newStart newCount) limit;
      write_hunks hunks' ops (foldl advancePosition pos body) (hunk_end hunk) builder limit
  end.

Definition UnifiedDiff (oldText newText : gostring) (options : DiffOptions) : result text_error gostring :=
  resolved ← resolveDiffOptions options;
  let oldLines := splitDiffLines oldText in
  let newLines := splitDiffLines newText in
  reject MaxLines resolved <? len oldLines + len newLines with ErrDiffTooComplex;
  ops ← calculateDiff oldLines newLines (MaxMatrixCells resolved);
  let hunks := makeHunks ops (Context resolved) in
  match hunks with
  | [] => Ok []
  | _ =>
      let builder := "--- " ++ cleanDiffName (OldName resolved) "a/file" ++ [LF] ++
                     "+++ " ++ cleanDiffName (NewName resolved) "b/file" ++ [LF] in
      reject MaxOutputBytes resolved <? len builder with ErrTooLarge;
      write_hunks hunks ops (1, 1) 0 builder (MaxOutputBytes resolved)
  end.

(** ** Properties: lines *)

Definition line_bytes (l : diffLine) : gostring := line_text l ++ line_ending l.

Lemma split_lines_CR cur s :
  head s <> Some LF -> split_lines cur (CR :: s) = mkLine cur [CR] :: split_lines [] s.
Proof.
  intros Hs. cbn [split_lines]. rewrite Ascii.eqb_refl. destruct s as [|d s]; [done|].
  by rewrite (proj2 (Ascii.eqb_neq d LF)) by (intros ->; done).
Qed.

Lemma split_lines_LF cur s : split_lines cur (LF :: s) = mkLine cur [LF] :: split_lines [] s.
Proof. done. Qed.

Lemma split_lines_CRLF cur s : split_lines cur (CR :: LF :: s) = mkLine cur [CR; LF] :: split_lines [] s.
Proof. done. Qed.

Lemma split_lines_plain cur c s : c <> CR -> c <> LF -> split_lines cur (c :: s) = split_lines (cur ++ [c]) s.
Proof. intros. cbn [split_lines]. by rewrite !(proj2 (Ascii.eqb_neq c _)). Qed.

(** Induction over a text along the cases of the scanner. *)
Lemma line_scan_ind (P : gostring -> Prop) :
  P [] ->
  (forall s, P s -> P (CR :: LF :: s)) ->
  (forall s, head s <> Some LF -> P s -> P (CR :: s)) ->
  (forall s, P s -> P (LF :: s)) ->
  (forall c s, c <> CR -> c <> LF -> P s -> P (c :: s)) ->
  forall s, P s.
Proof.
  intros H0 Hcrlf Hcr Hlf Hp s.
  enough (P s /\ forall c, P (c :: s)) by tauto.
  induction s as [|d s [IH1 IH2]].
  { split; [done|]. intros c. destruct (decide (c = CR)) as [->|]; [by apply Hcr|].
    destruct (decide (c = LF)) as [->|]; auto. }
  assert (HP : P (d :: s)) by apply IH2. split; [done|]. intros c.
  destruct (decide (c = CR)) as [->|].
  - destruct (decide (d = LF)) as [->|]; [by apply Hcrlf|]. apply Hcr; [|done]. by intros [= ?].
  - destruct (decide (c = LF)) as [->|]; auto.
Qed.

Lemma split_lines_concat text cur : concat (line_bytes <$> split_lines cur text) = cur ++ text.
Proof.
  revert cur. induction text as [|s IH|s Hs IH|s IH|c s H1 H2 IH] using line_scan_ind; intros cur.
  - cbn. case_decide; [by subst|]. cbn. unfold line_bytes. cbn. by rewrite !app_nil_r.
  - rewrite split_lines_CRLF. cbn [fmap list_fmap concat]. rewrite IH. unfold line_bytes. cbn.
    by rewrite <- app_assoc.
  - rewrite split_lines_CR by done. cbn [fmap list_fmap concat]. rewrite IH. unfold line_bytes. cbn.
    by rewrite <- app_assoc.
  - rewrite split_lines_LF. cbn [fmap list_fmap concat]. rewrite IH. unfold line_bytes. cbn.
    by rewrite <- app_assoc.
  - rewrite split_lines_plain by done. by rewrite IH, <- app_assoc.
Qed.

(** The bytes of the lines, in order, are the text. *)
Lemma splitDiffLines_concat text : concat (line_bytes <$> splitDiffLines text) = text.
Proof. apply split_lines_concat. Qed.

Lemma splitDiffLines_inj a b : splitDiffLines a = splitDiffLines b -> a = b.
Proof. intros H. by rewrite <- (splitDiffLines_concat a), H, splitDiffLines_concat. Qed.

Definition no_eol (s : gostring) : Prop := CR ∉ s /\ LF ∉ s.

(** Lines hold no line end; all but the last have one. *)
Inductive lines_ok : list diffLine -> Prop :=
  | lo_nil : lines_ok []
  | lo_last t : t <> [] -> no_eol t -> lines_ok [mkLine t []]
  | lo_line t e ls : no_eol t -> e = [CR; LF] \/ e = [CR] \/ e = [LF] ->
      lines_ok ls -> lines_ok (mkLine t e :: ls).

Lemma split_lines_ok text cur : no_eol cur -> lines_ok (split_lines cur text).
Proof.
  assert (no_eol []) by (split; apply not_elem_of_nil).
  revert cur. induction text as [|s IH|s Hs IH|s IH|c s H1 H2 IH] using line_scan_ind; intros cur Hcur.
  - cbn. case_decide; by constructor.
  - rewrite split_lines_CRLF. constructor; auto.
  - rewrite split_lines_CR by done. constructor; auto.
  - rewrite split_lines_LF. constructor; auto.
  - rewrite split_lines_plain by done. apply IH. destruct Hcur.
    split; rewrite not_elem_of_app, list_elem_of_singleton; auto.
Qed.

Lemma splitDiffLines_ok text : lines_ok (splitDiffLines text).
Proof. apply split_lines_ok. split; apply not_elem_of_nil. Qed.

Lemma lines_ok_nonempty ls : lines_ok ls -> Forall (fun l => line_bytes l <> []) ls.
Proof.
  induction 1 as [|t Ht|t e ls ? He]; repeat constructor; try done.
  - unfold line_bytes. cbn. by rewrite app_nil_r.
  - unfold line_bytes. cbn. destruct t; [|done]. by destruct He as [->|[->| ->]].
Qed.

(** ** Properties: the edit script *)

(** The old and the new lines an edit script stands for. *)
Definition old_of (ops : list diffOp) : list diffLine :=
  op_line <$> filter (fun op => op_kind op <> diffInsert) ops.
Definition new_of (ops : list diffOp) : list diffLine :=
  op_line <$> filter (fun op => op_kind op <> diffDelete) ops.
Definition kept (ops : list diffOp) : list diffLine :=
  op_line <$> filter (fun op => op_kind op = diffEqual) ops.

Lemma old_of_cons k x ops :
  old_of (mkOp k x :: ops) = if decide (k = diffInsert) then old_of ops else x :: old_of ops.
Proof. by destruct k. Qed.
Lemma new_of_cons k x ops :
  new_of (mkOp k x :: ops) = if decide (k = diffDelete) then new_of ops else x :: new_of ops.
Proof. by destruct k. Qed.
Lemma kept_cons k x ops :
  kept (mkOp k x :: ops) = if decide (k = diffEqual) then x :: kept ops else kept ops.
Proof. by destruct k. Qed.

Lemma old_of_app a b : old_of (a ++ b) = old_of a ++ old_of b.
Proof. unfold old_of. by rewrite filter_app, fmap_app. Qed.
Lemma new_of_app a b : new_of (a ++ b) = new_of a ++ new_of b.
Proof. unfold new_of. by rewrite filter_app, fmap_app. Qed.
Lemma kept_app a b : kept (a ++ b) = kept a ++ kept b.
Proof. unfold kept. by rewrite filter_app, fmap_app. Qed.

Lemma project_equal ls :
  old_of (mkOp diffEqual <$> ls) = ls /\ new_of (mkOp diffEqual <$> ls) = ls /\
  kept (mkOp diffEqual <$> ls) = ls.
Proof.
  unfold old_of, new_of, kept. induction ls as [|l ls (IH1 & IH2 & IH3)]; [done|].
  rewrite fmap_cons, !filter_cons_True by done. rewrite !fmap_cons. by rewrite IH1, IH2, IH3.
Qed.

(** The length of a longest common subsequence, as a specification. *)
Fixpoint lcs (old : list diffLine) : list diffLine -> Z :=
  fix go new :=
    match old, new with
    | x :: old', y :: new' =>
        if decide (x = y) then lcs old' new' + 1 else Z.max (lcs old' new) (go new')
    | _, _ => 0
    end.

Lemma lcs_cons x old y new :
  lcs (x :: old) (y :: new) =
  if decide (x = y) then lcs old new + 1 else Z.max (lcs old (y :: new)) (lcs (x :: old) new).
Proof. done. Qed.

Lemma lcs_nil_r old : lcs old [] = 0.
Proof. by destruct old. Qed.

Lemma lcs_nil_l new : lcs [] new = 0.
Proof. by destruct new. Qed.

Lemma sublist_tail {A} (l k : list A) x : l `sublist_of` x :: k -> tail l `sublist_of` k.
Proof.
  intros [Hl|(l' & -> & Hl)]%sublist_cons_r; [|done].
  destruct l as [|y l]; [done|]. cbn. etrans; [|exact Hl]. by apply sublist_cons.
Qed.

Lemma lcs_upper old new l :
  l `sublist_of` old -> l `sublist_of` new -> len l <= lcs old new.
Proof.
  revert new l. induction old as [|x old IH]; intros new l Ho Hn.
  { apply sublist_nil_r in Ho as ->. by destruct new. }
  revert l Ho Hn. induction new as [|y new IHn]; intros l Ho Hn.
  { by apply sublist_nil_r in Hn as ->. }
  rewrite lcs_cons. case_decide as Hxy.
  - specialize (IH new (tail l) (sublist_tail _ _ _ Ho) (sublist_tail _ _ _ Hn)).
    destruct l; unfold len in *; cbn in *; lia.
  - pose proof Ho as Ho'. pose proof Hn as Hn'.
    apply sublist_cons_r in Ho' as [Ho'|(l1 & -> & Ho1)].
    { specialize (IH (y :: new) l Ho' Hn). lia. }
    apply sublist_cons_r in Hn' as [Hn'|(l2 & [= -> ->] & Hn2)]; [|done].
    specialize (IHn (x :: l1) Ho Hn'). lia.
Qed.

(** *** The table holds the lengths *)

Fixpoint lcs_suffixes (old new : list diffLine) : list Z :=
  match new with
  | [] => [lcs old []]
  | _ :: new' => lcs old new :: lcs_suffixes old new'
  end.

Lemma lcs_suffixes_head old new : head (lcs_suffixes old new) = Some (lcs old new).
Proof. by destruct new. Qed.

Lemma lcs_suffixes_lookup old new j :
  (j <= length new)%nat -> lcs_suffixes old new !! j = Some (lcs old (drop j new)).
Proof.
  revert new; induction j as [|j IH]; intros new Hj.
  - by rewrite <- head_lookup, lcs_suffixes_head.
  - destruct new as [|y new]; cbn in Hj; [lia|]. apply IH. lia.
Qed.

Lemma lcs_row_suffixes x old new :
  lcs_row x new (lcs_suffixes old new) = lcs_suffixes (x :: old) new.
Proof.
  induction new as [|y new IH]; [done|]. cbn [lcs_suffixes lcs_row]. rewrite IH.
  rewrite !lcs_suffixes_head. cbn [default id]. f_equal. rewrite lcs_cons. case_decide; [done|].
  destruct (Z.leb_spec (lcs (x :: old) new) (lcs old (y :: new))); cbn [default id]; lia.
Qed.

Lemma lcs_suffixes_nil new : lcs_suffixes [] new = replicate (length new + 1) 0.
Proof. induction new as [|y new IH]; [done|]. cbn. by rewrite IH. Qed.

Lemma lcs_table_rows old new :
  head (lcs_table old new) = Some (lcs_suffixes old new).
Proof.
  induction old as [|x old IH]; cbn; [by rewrite lcs_suffixes_nil|].
  rewrite IH. cbn [default id]. by rewrite <- lcs_row_suffixes.
Qed.

Lemma cell_lcs old new i j :
  (i <= length old)%nat -> (j <= length new)%nat ->
  cell (lcs_table old new) i j = lcs (drop i old) (drop j new).
Proof.
  intros Hi Hj. unfold cell.
  assert (Hrow : lcs_table old new !! i = Some (lcs_suffixes (drop i old) new)).
  { revert i Hi. induction old as [|x old IH]; intros [|i] Hi; cbn in Hi; try lia.
    - cbn. by rewrite lcs_suffixes_nil.
    - pose proof (lcs_table_rows (x :: old) new) as Hh. by rewrite head_lookup in Hh.
    - cbn [lcs_table drop]. apply IH. lia. }
  rewrite Hrow. cbn [mbind option_bind]. by rewrite lcs_suffixes_lookup.
Qed.

(** What the walk produces from position [(i, j)] on. *)
Lemma walk_correct fuel old new i j :
  (i <= length old)%nat -> (j <= length new)%nat ->
  (length old - i + (length new - j) <= fuel)%nat ->
  let ops := walk fuel (lcs_table old new) old new i j in
  old_of ops = drop i old /\ new_of ops = drop j new /\
  len (kept ops) = lcs (drop i old) (drop j new).
Proof.
  revert i j; induction fuel as [|fuel IH]; intros i j Hi Hj Hf; cbn [walk].
  { rewrite (drop_ge old), (drop_ge new) by lia. done. }
  destruct (old !! i) as [x|] eqn:Ex, (new !! j) as [y|] eqn:Ey.
  - pose proof (lookup_lt_Some _ _ _ Ex). pose proof (lookup_lt_Some _ _ _ Ey).
    rewrite (drop_S _ _ _ Ex), (drop_S _ _ _ Ey), lcs_cons. case_decide as Hxy.
    + destruct (IH (S i) (S j)) as (R1 & R2 & R3); [lia..|]. subst y.
      rewrite old_of_cons, new_of_cons, kept_cons. cbn [decide]. repeat case_decide; try done.
      rewrite R1, R2. split_and!; [done..|]. unfold len in *. cbn [length]. lia.
    + rewrite !cell_lcs by lia. rewrite (drop_S _ _ _ Ex), (drop_S _ _ _ Ey).
      destruct (Z.leb_spec (lcs (x :: drop (S i) old) (drop (S j) new))
                  (lcs (drop (S i) old) (y :: drop (S j) new))).
      * destruct (IH (S i) j) as (R1 & R2 & R3); [lia..|]. rewrite (drop_S _ _ _ Ey) in R2, R3.
        unfold old_of, new_of, kept in *.
        rewrite filter_cons_True by done. rewrite !filter_cons_False by naive_solver.
        rewrite fmap_cons, R1, R2. cbn [op_line]. split_and!; [done..|]. lia.
      * destruct (IH i (S j)) as (R1 & R2 & R3); [lia..|]. rewrite (drop_S _ _ _ Ex) in R1, R3.
        unfold old_of, new_of, kept in *.
        rewrite filter_cons_False by naive_solver. rewrite filter_cons_True by done.
        rewrite filter_cons_False by naive_solver.
        rewrite fmap_cons, R1, R2. cbn [op_line]. split_and!; [done..|]. lia.
  - pose proof (lookup_lt_Some _ _ _ Ex). apply lookup_ge_None in Ey.
    destruct (IH (S i) j) as (R1 & R2 & R3); [lia..|].
    rewrite (drop_ge new) in R2, R3 |- * by lia. rewrite lcs_nil_r in R3 |- *.
    unfold old_of, new_of, kept in *. rewrite filter_cons_True by done.
    rewrite !filter_cons_False by naive_solver. rewrite fmap_cons, R1, R2. by rewrite (drop_S _ _ _ Ex).
  - pose proof (lookup_lt_Some _ _ _ Ey). apply lookup_ge_None in Ex.
    destruct (IH i (S j)) as (R1 & R2 & R3); [lia..|].
    rewrite (drop_ge old) in R1, R3 |- * by lia.
    unfold old_of, new_of, kept in *. rewrite filter_cons_False by naive_solver.
    rewrite filter_cons_True by done. rewrite filter_cons_False by naive_solver.
    rewrite fmap_cons, R1, R2, (drop_S _ _ _ Ey). split_and!; [done..|]. by rewrite R3, !lcs_nil_l.
  - apply lookup_ge_None in Ex, Ey. rewrite (drop_ge old), (drop_ge new) by lia. done.
Qed.

(** *** Trimming keeps the script minimal *)

Lemma common_prefix_take a b :
  let n := common_prefix a b in
  take n a = take n b /\ (n <= length a)%nat /\ (n <= length b)%nat.
Proof.
  revert b; induction a as [|x a IH]; intros [|y b]; cbn; try (split_and!; done || lia).
  case_decide; cbn; [|split_and!; done || lia]. subst. destruct (IH b) as (-> & ? & ?).
  split_and!; [done|lia..].
Qed.

Lemma sublist_reverse {A} (l k : list A) : l `sublist_of` k -> reverse l `sublist_of` reverse k.
Proof.
  induction 1 as [|x l k Hl IH|x l k Hl IH]; [done| |].
  - rewrite !reverse_cons. by apply sublist_app.
  - rewrite reverse_cons. by apply sublist_inserts_r.
Qed.

Lemma sublist_drop_prefix {A} (l p k : list A) :
  l `sublist_of` p ++ k -> drop (length p) l `sublist_of` k.
Proof.
  revert l; induction p as [|x p IH]; intros l Hl; [by rewrite drop_0|].
  cbn. destruct l as [|y l]; [apply sublist_nil_l|]. apply sublist_tail in Hl. by apply IH.
Qed.

Lemma trim_bound {A} (p a b s l : list A) :
  l `sublist_of` p ++ a ++ s -> l `sublist_of` p ++ b ++ s ->
  exists l', l' `sublist_of` a /\ l' `sublist_of` b /\ len l <= len p + len l' + len s.
Proof.
  intros Ha Hb. exists (reverse (drop (length (reverse s)) (reverse (drop (length p) l)))).
  split; [|split].
  - rewrite <- (reverse_involutive a). apply sublist_reverse, sublist_drop_prefix.
    rewrite <- reverse_app. by apply sublist_reverse, sublist_drop_prefix.
  - rewrite <- (reverse_involutive b). apply sublist_reverse, sublist_drop_prefix.
    rewrite <- reverse_app. by apply sublist_reverse, sublist_drop_prefix.
  - unfold len. rewrite !length_reverse, length_drop, !length_reverse, length_drop. lia.
Qed.

(** The three parts a list is cut into by a prefix and a suffix length. *)
Lemma trim_parts {A} n m (l : list A) :
  (n + m <= length l)%nat ->
  l = take n l ++ slice n (length l - m) l ++ drop (length l - m) l.
Proof.
  intros Hn. unfold slice. rewrite <- (take_drop n l) at 1. f_equal.
  rewrite <- (take_drop (length l - m - n) (drop n l)) at 1. f_equal.
  rewrite drop_drop. f_equal. lia.
Qed.

Lemma suffix_reverse {A} n m (l : list A) :
  (n + m <= length l)%nat -> drop (length l - m) l = reverse (take m (reverse (drop n l))).
Proof.
  intros Hn. symmetry. rewrite <- (take_drop (length l - n - m) (drop n l)), reverse_app, take_app_length'.
  - rewrite reverse_involutive, drop_drop. f_equal. lia.
  - rewrite length_reverse, length_drop, length_drop. lia.
Qed.

Lemma calculate_parts old new :
  let n := common_prefix old new in
  let m := common_prefix (reverse (drop n old)) (reverse (drop n new)) in
  (n + m <= length old)%nat /\ (n + m <= length new)%nat /\
  take n old = take n new /\ drop (length old - m) old = drop (length new - m) new.
Proof.
  cbv zeta. destruct (common_prefix_take old new) as (H1 & H2 & H3).
  set (n := common_prefix old new) in *.
  destruct (common_prefix_take (reverse (drop n old)) (reverse (drop n new))) as (H4 & H5 & H6).
  set (m := common_prefix (reverse _) _) in *. rewrite length_reverse, length_drop in H5, H6.
  split_and!; [lia..|done|].
  rewrite (suffix_reverse n m old), (suffix_reverse n m new) by lia. by rewrite H4.
Qed.

Lemma calculateDiff_script oldLines newLines maxCells ops :
  calculateDiff oldLines newLines maxCells = Ok ops ->
  old_of ops = oldLines /\ new_of ops = newLines /\
  kept ops `sublist_of` oldLines /\ kept ops `sublist_of` newLines /\
  forall l, l `sublist_of` oldLines -> l `sublist_of` newLines -> len l <= len (kept ops).
Proof.
  unfold calculateDiff. intros Hd. inv_ok.
  destruct (calculate_parts oldLines newLines) as (Hn1 & Hn2 & Hpre & Hsuf).
  set (n := common_prefix oldLines newLines) in *.
  set (m := common_prefix (reverse _) _) in *.
  set (a := slice n (length oldLines - m) oldLines) in *.
  set (b := slice n (length newLines - m) newLines) in *.
  assert (Eold : oldLines = take n oldLines ++ a ++ drop (length oldLines - m) oldLines)
    by (by apply trim_parts).
  assert (Enew : newLines = take n oldLines ++ b ++ drop (length oldLines - m) oldLines)
    by (rewrite Hpre, Hsuf; by apply trim_parts).
  destruct (walk_correct (length a + length b) a b 0 0) as (W1 & W2 & W3); [lia..|].
  rewrite !drop_0 in W1, W2, W3. change (drop 0 b) with b in W3.
  set (p := take n oldLines) in *. set (s := drop (length oldLines - m) oldLines) in *.
  destruct (project_equal p) as (P1 & P2 & P3). destruct (project_equal s) as (S1 & S2 & S3).
  assert (Hold : old_of ((mkOp diffEqual <$> p) ++ walk (length a + length b) (lcs_table a b) a b 0 0 ++
    (mkOp diffEqual <$> s)) = oldLines) by (rewrite !old_of_app, P1, W1, S1; done).
  assert (Hnew : new_of ((mkOp diffEqual <$> p) ++ walk (length a + length b) (lcs_table a b) a b 0 0 ++
    (mkOp diffEqual <$> s)) = newLines) by (rewrite !new_of_app, P2, W2, S2; done).
  set (ops := (mkOp diffEqual <$> p) ++ walk _ _ _ _ _ _ ++ _) in *.
  assert (Hkept : kept ops `sublist_of` old_of ops /\ kept ops `sublist_of` new_of ops).
  { unfold kept, old_of, new_of. clearbody ops. clear. induction ops as [|[k x] ops [IH1 IH2]]; [done|].
    destruct k.
    - rewrite !filter_cons_True by done. split; by apply sublist_skip.
    - rewrite (filter_cons_True (fun op => op_kind op <> diffInsert)) by done.
      rewrite !filter_cons_False by naive_solver. split; [by apply sublist_cons|done].
    - rewrite (filter_cons_True (fun op => op_kind op <> diffDelete)) by done.
      rewrite !filter_cons_False by naive_solver. split; [done|by apply sublist_cons]. }
  rewrite Hold, Hnew in Hkept. destruct Hkept as [K1 K2]. split_and!; try done.
  intros l Ho Hn. rewrite Eold in Ho. rewrite Enew in Hn.
  destruct (trim_bound _ _ _ _ _ Ho Hn) as (l' & L1 & L2 & L3).
  pose proof (lcs_upper _ _ _ L1 L2) as Hl. unfold ops. rewrite !kept_app, P3, S3, !len_app. lia.
Qed.

(** The edit script turns the old lines into the new ones, and it is minimal: no
    common subsequence of the two is longer than the lines it keeps. *)
Theorem calculateDiff_minimal oldLines newLines maxCells ops :
  calculateDiff oldLines newLines maxCells = Ok ops ->
  old_of ops = oldLines /\ new_of ops = newLines /\
  kept ops `sublist_of` oldLines /\ kept ops `sublist_of` newLines /\
  forall l, l `sublist_of` oldLines -> l `sublist_of` newLines -> len l <= len (kept ops).
Proof. apply calculateDiff_script. Qed.

Definition sample_old : gostring := "a" ++ [LF] ++ "b" ++ [LF] ++ "c".
Definition sample_new : gostring := "b" ++ [LF] ++ "c" ++ [LF].
Definition sample_script : list diffOp :=
  [mkOp diffDelete (mkLine "a" [LF]); mkOp diffEqual (mkLine "b" [LF]);
   mkOp diffDelete (mkLine "c" []); mkOp diffInsert (mkLine "c" [LF])].

Lemma calculateDiff_minimal_witness :
  calculateDiff (splitDiffLines sample_old) (splitDiffLines sample_new) 100 = Ok sample_script /\
  old_of sample_script = splitDiffLines sample_old.
Proof.
  assert (E : calculateDiff (splitDiffLines sample_old) (splitDiffLines sample_new) 100 = Ok sample_script)
    by (vm_compute; reflexivity).
  split; [exact E|]. exact (proj1 (calculateDiff_minimal _ _ _ _ E)).
Defined.

(** ** Properties: hunks *)

Definition in_hunk (h : diffHunk) (i : Z) : Prop := hunk_start h <= i < hunk_end h.

(** Hunks in order, separated by at least one operation, within [n] operations. *)
Fixpoint hunks_ordered (lo n : Z) (hs : list diffHunk) : Prop :=
  match hs with
  | [] => True
  | h :: hs' => lo <= hunk_start h /\ hunk_start h < hunk_end h /\ hunk_end h <= n /\
                hunks_ordered (hunk_end h + 1) n hs'
  end.

Definition change_at (ops : list diffOp) (i : Z) : Prop :=
  exists k op, ops !! k = Some op /\ is_change op = true /\ i = Z.of_nat k.

Lemma changes_from_spec ops i c :
  c ∈ changes_from i ops <-> exists k op, ops !! k = Some op /\ is_change op = true /\ c = i + Z.of_nat k.
Proof.
  revert i; induction ops as [|op ops IH]; intros i; cbn [changes_from].
  - rewrite elem_of_nil. split; [done|]. by intros (? & ? & ? & _).
  - assert (Hrec : c ∈ changes_from (i + 1) ops <->
      exists k op', (op :: ops) !! S k = Some op' /\ is_change op' = true /\ c = i + Z.of_nat (S k)).
    { rewrite IH. split; intros (k & o & ? & ? & ->); exists k, o; (split_and!; [done..|lia]). }
    destruct (is_change op) eqn:E; rewrite ?elem_of_cons, Hrec; split.
    + intros [->|(k & o & ?)]; [exists 0%nat, op; split_and!; [done..|lia]|by exists (S k), o].
    + intros ([|k] & o & Ho & Hc & ->); [left; lia|right; by exists k, o].
    + intros (k & o & ?). by exists (S k), o.
    + intros ([|k] & o & Ho & Hc & ->); [cbn in Ho; simplify_eq; congruence|by exists k, o].
Qed.

Lemma changes_from_sorted ops i : StronglySorted Z.lt (changes_from i ops).
Proof.
  revert i; induction ops as [|op ops IH]; intros i; cbn [changes_from]; [constructor|].
  case_match; [|apply IH]. constructor; [apply IH|]. apply Forall_forall.
  intros c (k & ? & _ & _ & ->)%changes_from_spec. lia.
Qed.

Lemma hunks_loop_spec cs context n lo start end_ :
  0 <= context -> lo <= start < end_ -> end_ <= n -> StronglySorted Z.lt cs ->
  (forall c, c ∈ cs -> start <= Z.max 0 (c - context) /\ c < n) ->
  hunks_ordered lo n (hunks_loop cs context n start end_) /\
  forall i, 0 <= i < n ->
    (exists h, h ∈ hunks_loop cs context n start end_ /\ in_hunk h i) <->
    start <= i < end_ \/ exists c, c ∈ cs /\ Z.abs (i - c) <= context.
Proof.
  intros Hctx. revert lo start end_.
  induction cs as [|c cs IH]; intros lo start end_ Hs Hn Hsort Hcs; cbn [hunks_loop].
  - split; [by cbn; lia|]. intros i Hi. split.
    + intros (h & ->%list_elem_of_singleton & ?). by left.
    + intros [?|(c & Hc & _)]; [|by apply elem_of_nil in Hc].
      eexists. split; [by apply list_elem_of_singleton|done].
  - apply StronglySorted_inv in Hsort as [Hsort Hlt]. rewrite Forall_forall in Hlt.
    destruct (Hcs c ltac:(by left)) as [Hc1 Hc2].
    unfold clamp_end. destruct (Z.leb_spec (c - context) end_) as [Hm|Hm].
    + set (e' := if n <? c + context + 1 then n else c + context + 1).
      assert (He' : e' = Z.min n (c + context + 1)) by (unfold e'; destruct (Z.ltb_spec n (c + context + 1)); lia).
      assert (Hmax : (if end_ <? e' then e' else end_) = Z.max end_ e') by (destruct (Z.ltb_spec end_ e'); lia).
      rewrite Hmax. destruct (IH lo start (Z.max end_ e')) as [Ho Hi]; [lia|lia|done| |].
      { intros c' Hc'. destruct (Hcs c' ltac:(by right)). lia. }
      split; [exact Ho|]. intros i Hin. rewrite (Hi i Hin). split.
      * intros [?|(c' & ? & ?)]; [|right; exists c'; split; [by right|done]].
        destruct (decide (i < end_)); [left; lia|]. right. exists c. split; [by left|lia].
      * intros [?|(c' & [->|?]%elem_of_cons & ?)]; [left; lia|left; lia|right; eauto].
    + set (e' := if n <? c + context + 1 then n else c + context + 1).
      assert (He' : e' = Z.min n (c + context + 1)) by (unfold e'; destruct (Z.ltb_spec n (c + context + 1)); lia).
      destruct (IH (end_ + 1) (c - context) e') as [Ho Hi]; [lia|lia|done| |].
      { intros c' Hc'. destruct (Hcs c' ltac:(by right)). specialize (Hlt c' Hc'). lia. }
      split; [by cbn; split_and!; [lia..|]|]. intros i Hin. specialize (Hi i Hin).
      setoid_rewrite elem_of_cons. split.
      * intros (h & [->|Hh] & Hih); [by left|]. destruct (proj1 Hi (ex_intro _ h (conj Hh Hih))) as [?|(c' & ? & ?)].
        -- right. exists c. split; [by left|lia].
        -- right. exists c'. auto.
      * intros [?|(c' & [->|Hc'] & ?)]; [exists (mkHunk start end_); auto| |].
        -- destruct (proj2 Hi) as (h & ? & ?); [left; lia|]. exists h; auto.
        -- destruct (proj2 Hi) as (h & ? & ?); [right; eauto|]. exists h; auto.
Qed.

Lemma makeHunks_spec ops context :
  0 <= context ->
  hunks_ordered 0 (len ops) (makeHunks ops context) /\
  forall i, 0 <= i < len ops ->
    (exists h, h ∈ makeHunks ops context /\ in_hunk h i) <->
    exists c, change_at ops c /\ Z.abs (i - c) <= context.
Proof.
  intros Hctx. unfold makeHunks.
  assert (Hspec : forall c, c ∈ changes_from 0 ops <-> change_at ops c).
  { intros c. rewrite changes_from_spec. unfold change_at. setoid_rewrite Z.add_0_l. done. }
  assert (Hin : forall c, c ∈ changes_from 0 ops -> 0 <= c < len ops).
  { intros c (k & op & Ho%lookup_lt_Some & _ & ->)%Hspec. unfold len. lia. }
  pose proof (changes_from_sorted ops 0) as Hsort.
  destruct (changes_from 0 ops) as [|c cs].
  - split; [done|]. intros i Hi. setoid_rewrite <- Hspec. setoid_rewrite elem_of_nil. naive_solver.
  - apply StronglySorted_inv in Hsort as [Hsort Hlt]. rewrite Forall_forall in Hlt.
    pose proof (Hin c ltac:(by left)) as Hc.
    set (start := if c - context <? 0 then 0 else c - context).
    assert (start = Z.max 0 (c - context)) by (unfold start; destruct (Z.ltb_spec (c - context) 0); lia).
    unfold clamp_end.
    set (e' := if len ops <? c + context + 1 then len ops else c + context + 1).
    assert (e' = Z.min (len ops) (c + context + 1))
      by (unfold e'; destruct (Z.ltb_spec (len ops) (c + context + 1)); lia).
    destruct (hunks_loop_spec cs context (len ops) 0 start e') as [Ho Hi]; [done|lia|lia|done| |].
    { intros c' Hc'. specialize (Hlt c' Hc'). pose proof (Hin c' ltac:(by right)). lia. }
    split; [done|]. intros i Hr. rewrite (Hi i Hr). setoid_rewrite <- Hspec.
    setoid_rewrite elem_of_cons. split.
    + intros [?|(c' & ? & ?)]; [exists c; split; [by left|lia]|eauto].
    + intros (c' & [->|?] & ?); [left; lia|right; eauto].
Qed.

(** The hunks are in order and apart from each other, and they hold exactly the
    operations within [context] of a change. *)
Theorem makeHunks_exact ops context :
  0 <= context ->
  hunks_ordered 0 (len ops) (makeHunks ops context) /\
  forall i, 0 <= i < len ops ->
    (exists h, h ∈ makeHunks ops context /\ in_hunk h i) <->
    exists c, change_at ops c /\ Z.abs (i - c) <= context.
Proof. apply makeHunks_spec. Qed.

Lemma makeHunks_exact_witness :
  makeHunks sample_script 0 = [mkHunk 0 1; mkHunk 2 4] /\
  hunks_ordered 0 (len sample_script) (makeHunks sample_script 0).
Proof. split; [vm_compute; reflexivity|]. exact (proj1 (makeHunks_exact sample_script 0 ltac:(lia))). Defined.

(** ** Properties: the diff as a patch *)

(** A hunk of a unified diff, as a patch tool reads it. *)
Record patchHunk := mkPatch {
  ph_oldStart : Z; ph_oldCount : Z; ph_newStart : Z; ph_newCount : Z; ph_ops : list diffOp
}.

Definition render_patch (p : patchHunk) : gostring :=
  hunk_header (ph_oldStart p) (ph_oldCount p) (ph_newStart p) (ph_newCount p) ++
  concat (render_op <$> ph_ops p).

(** The number of lines before a hunk: a range of no lines names the line it follows. *)
Definition lines_before (start count : Z) : Z := if count =? 0 then start else start - 1.

(** Applying hunks to the old lines: positions, counts and context must agree.
    [consumed] and [produced] count the lines that are done. *)
Fixpoint apply_patch (consumed produced : Z) (rest : list diffLine) (ps : list patchHunk)
  : option (list diffLine) :=
  match ps with
  | [] => Some rest
  | p :: ps' =>
      let gap := lines_before (ph_oldStart p) (ph_oldCount p) - consumed in
      if (gap <? 0) || negb (lines_before (ph_newStart p) (ph_newCount p) =? produced + gap) then None
      else
        let before := take (Z.to_nat gap) rest in
        let rest := drop (Z.to_nat gap) rest in
        let n := Z.to_nat (ph_oldCount p) in
        if decide (take n rest = old_of (ph_ops p) /\ len (new_of (ph_ops p)) = ph_newCount p)
        then r ← apply_patch (consumed + gap + ph_oldCount p) (produced + gap + ph_newCount p)
                   (drop n rest) ps';
             Some (before ++ new_of (ph_ops p) ++ r)
        else None
  end.

(** The hunks that [write_hunks] writes. *)
Fixpoint patch_of (hunks : list diffHunk) (ops : list diffOp) (pos : Z * Z) (opPosition : Z)
  : list patchHunk :=
  match hunks with
  | [] => []
  | hunk :: hunks' =>
      let pos := foldl advancePosition pos
                   (slice (Z.to_nat opPosition) (Z.to_nat (hunk_start hunk)) ops) in
      let body := slice (Z.to_nat (hunk_start hunk)) (Z.to_nat (hunk_end hunk)) ops in
      let '(oldCount, newCount) := hunkCounts body in
      mkPatch (if oldCount =? 0 then pos.1 - 1 else pos.1) oldCount
              (if newCount =? 0 then pos.2 - 1 else pos.2) newCount body ::
      patch_of hunks' ops (foldl advancePosition pos body) (hunk_end hunk)
  end.

Lemma advance_fold ops pos :
  foldl advancePosition pos ops = (pos.1 + len (old_of ops), pos.2 + len (new_of ops)).
Proof.
  revert pos; induction ops as [|[k x] ops IH]; intros [a b]; cbn [foldl].
  - unfold len. cbn. by rewrite !Z.add_0_r.
  - rewrite IH, old_of_cons, new_of_cons. unfold advancePosition, len. cbn [op_kind fst snd].
    destruct k; cbn [length]; repeat case_decide; try done; cbn [length]; f_equal; lia.
Qed.

Lemma hunkCounts_eq ops : hunkCounts ops = (len (old_of ops), len (new_of ops)).
Proof. unfold hunkCounts. by rewrite advance_fold. Qed.

Lemma all_equal_project ops :
  Forall (fun op => is_change op = false) ops -> old_of ops = new_of ops /\ length (old_of ops) = length ops.
Proof.
  unfold old_of, new_of, is_change. induction 1 as [|[k x] ops Hk _ [IH1 IH2]]; [done|].
  cbn in Hk. destruct k; try done. rewrite !filter_cons_True by done. cbn. by rewrite IH1, <- IH2, IH1.
Qed.

Lemma slice_of_drop {A} k i j (l : list A) :
  (k <= i)%nat -> (i <= j)%nat -> drop k l = slice k i l ++ slice i j l ++ drop j l.
Proof.
  intros. rewrite <- (take_drop (i - k) (drop k l)) at 1. f_equal. rewrite drop_drop.
  replace (k + (i - k))%nat with i by lia. rewrite <- (take_drop (j - i) (drop i l)) at 1. f_equal.
  rewrite drop_drop. f_equal. lia.
Qed.

Lemma gap_equal ops k i :
  (forall n op, (k <= n < i)%nat -> ops !! n = Some op -> is_change op = false) ->
  Forall (fun op => is_change op = false) (slice k i ops).
Proof.
  intros Hc. apply Forall_lookup. intros n op Hn. unfold slice in Hn.
  apply lookup_take_Some in Hn as [Hn Hlt]. rewrite lookup_drop in Hn. apply (Hc (k + n)%nat); [lia|done].
Qed.

Lemma apply_patch_gap a b pre rest body tail ps :
  let gap := len pre in
  let oc := len (old_of body) in
  let nc := len (new_of body) in
  rest = pre ++ old_of body ++ tail ->
  apply_patch a b rest
    (mkPatch (if oc =? 0 then a + gap + 1 - 1 else a + gap + 1) oc
             (if nc =? 0 then b + gap + 1 - 1 else b + gap + 1) nc body :: ps) =
  (fun r => pre ++ new_of body ++ r) <$> apply_patch (a + gap + oc) (b + gap + nc) tail ps.
Proof.
  intros gap oc nc ->. cbn [apply_patch ph_oldStart ph_oldCount ph_newStart ph_newCount ph_ops].
  assert (Hl : forall x c, lines_before (if c =? 0 then x + 1 - 1 else x + 1) c = x).
  { intros x c. unfold lines_before. destruct (c =? 0); lia. }
  rewrite !Hl. replace (a + gap - a) with gap by lia.
  assert (0 <= gap) by apply len_nonneg.
  rewrite (proj2 (Z.ltb_ge _ _)) by lia. rewrite Z.eqb_refl. cbn [negb orb].
  replace (Z.to_nat gap) with (length pre) by (unfold gap, len; lia).
  replace (Z.to_nat oc) with (length (old_of body)) by (unfold oc, len; lia).
  rewrite take_app_length, drop_app_length, take_app_length, drop_app_length.
  rewrite decide_True by done. by destruct (apply_patch _ _ _ _).
Qed.

Lemma apply_patch_correct hs ops k a b :
  (k <= length ops)%nat -> hunks_ordered (Z.of_nat k) (len ops) hs ->
  (forall i op, (k <= i)%nat -> ops !! i = Some op -> is_change op = true ->
     exists h, h ∈ hs /\ in_hunk h (Z.of_nat i)) ->
  apply_patch a b (old_of (drop k ops)) (patch_of hs ops (a + 1, b + 1) (Z.of_nat k)) =
  Some (new_of (drop k ops)).
Proof.
  revert k a b. induction hs as [|h hs IH]; intros k a b Hk Hord Hcov; cbn [patch_of].
  - cbn. f_equal. rewrite <- (slice_drop k ops) by done.
    refine (proj1 (all_equal_project _ (gap_equal ops k (length ops) _))).
    intros n op Hn Ho. destruct (is_change op) eqn:E; [|done].
    destruct (Hcov n op) as (h & Hh & _); [lia|done..|]. by apply elem_of_nil in Hh.
  - destruct Hord as (H1 & H2 & H3 & Hord). unfold len in *. rewrite Nat2Z.id.
    set (s := Z.to_nat (hunk_start h)). set (e := Z.to_nat (hunk_end h)).
    assert (Hgap : Forall (fun op => is_change op = false) (slice k s ops)).
    { apply gap_equal. intros n op Hn Ho. destruct (is_change op) eqn:E; [exfalso|done].
      destruct (Hcov n op) as (h' & [->|Hh]%elem_of_cons & Hin); [lia|done..| |]; unfold in_hunk in Hin; [lia|].
      assert (hunk_end h + 1 <= hunk_start h').
      { clear -Hord Hh. revert Hord Hh. generalize (hunk_end h + 1) as lo.
        induction hs as [|g hs IH]; intros lo Hord Hh; [by apply elem_of_nil in Hh|].
        destruct Hord as (? & ? & ? & Hord). apply elem_of_cons in Hh as [->|Hh]; [done|].
        specialize (IH _ Hord Hh). lia. }
      lia. }
    destruct (all_equal_project _ Hgap) as [Hg1 Hg2].
    rewrite hunkCounts_eq, !advance_fold. cbn [fst snd].
    pose proof (slice_of_drop k s e ops ltac:(lia) ltac:(lia)) as Hdrop.
    assert (Hrest : old_of (drop k ops) = old_of (slice k s ops) ++ old_of (slice s e ops) ++ old_of (drop e ops)).
    { by rewrite Hdrop, !old_of_app. }
    assert (Hnew : new_of (drop k ops) = old_of (slice k s ops) ++ new_of (slice s e ops) ++ new_of (drop e ops)).
    { by rewrite Hdrop, !new_of_app, Hg1. }
    rewrite <- Hg1.
    replace (a + 1 + len (old_of (slice k s ops))) with (a + len (old_of (slice k s ops)) + 1) by lia.
    replace (b + 1 + len (old_of (slice k s ops))) with (b + len (old_of (slice k s ops)) + 1) by lia.
    rewrite (apply_patch_gap a b _ _ _ _ _ Hrest), Hnew.
    set (a' := a + len (old_of (slice k s ops)) + len (old_of (slice s e ops))).
    set (b' := b + len (old_of (slice k s ops)) + len (new_of (slice s e ops))).
    replace (a + len (old_of (slice k s ops)) + 1 + len (old_of (slice s e ops))) with (a' + 1) by (unfold a'; lia).
    replace (b + len (old_of (slice k s ops)) + 1 + len (new_of (slice s e ops))) with (b' + 1) by (unfold b'; lia).
    replace (hunk_end h) with (Z.of_nat e) by (unfold e; lia).
    rewrite IH; [done|lia| |].
    + replace (Z.of_nat e) with (hunk_end h) by (unfold e; lia).
      destruct hs as [|g hs]; [done|]. cbn in Hord |- *. unfold len in *. intuition lia.
    + intros i op Hi Ho Hc. destruct (Hcov i op) as (g & [->|Hg]%elem_of_cons & Hin); [lia|done..| |eauto].
      unfold in_hunk in Hin. lia.
Qed.

Lemma render_patch_mk a b c d body :
  render_patch (mkPatch a b c d body) = hunk_header a b c d ++ concat (render_op <$> body).
Proof. done. Qed.

Lemma write_ops_Ok ops builder limit out :
  write_ops ops builder limit = Ok out ->
  out = builder ++ concat (render_op <$> ops) /\ (ops <> [] -> len out <= limit).
Proof.
  revert builder; induction ops as [|op ops IH]; intros builder Hw; cbn [write_ops] in Hw.
  - simplify_eq. cbn. by rewrite app_nil_r.
  - inv_ok. bool_props. apply IH in Hw as [-> Hl]. cbn [fmap list_fmap concat].
    rewrite <- app_assoc. split; [done|]. intros _. destruct ops as [|o ops]; [|by rewrite <- app_assoc in Hl; apply Hl].
    cbn. by rewrite app_nil_r.
Qed.

Lemma write_hunks_Ok hs ops pos k builder limit out :
  write_hunks hs ops pos k builder limit = Ok out -> 0 <= k -> hunks_ordered k (len ops) hs ->
  len builder <= limit ->
  out = builder ++ concat (render_patch <$> patch_of hs ops pos k) /\ len out <= limit.
Proof.
  revert pos k builder. induction hs as [|h hs IH]; intros pos k builder Hw Hk Hord Hb; cbn [write_hunks] in Hw.
  - simplify_eq. cbn. by rewrite app_nil_r.
  - destruct Hord as (H1 & H2 & H3 & Hord). cbn [patch_of].
    set (body := slice (Z.to_nat (hunk_start h)) (Z.to_nat (hunk_end h)) ops) in *.
    destruct (hunkCounts body) as [oc nc]. inv_ok.
    match goal with E : write_ops _ _ _ = Ok _ |- _ => apply write_ops_Ok in E as [-> Hlen] end.
    apply IH in Hw as [-> Hout]; [| lia| |].
    + split; [|done]. cbn [fmap list_fmap concat]. by rewrite render_patch_mk, <- !app_assoc.
    + destruct hs as [|g hs]; [done|]. cbn in Hord |- *. intuition lia.
    + apply Hlen. intros Hnil. apply (f_equal length) in Hnil. unfold body in Hnil.
      unfold len in *. rewrite slice_length in Hnil by lia. cbn in Hnil. lia.
Qed.

Lemma script_without_changes ops : Forall (fun op => is_change op = false) ops <-> changes_from 0 ops = [].
Proof.
  rewrite Forall_lookup. split.
  - intros Hf. destruct (changes_from 0 ops) as [|c cs] eqn:E; [done|].
    assert (c ∈ changes_from 0 ops) as (k & op & Ho & Hc & _)%changes_from_spec by (rewrite E; by left).
    by rewrite (Hf _ _ Ho) in Hc.
  - intros E k op Ho. destruct (is_change op) eqn:Hc; [|done].
    assert (Z.of_nat k ∈ changes_from 0 ops) as Hin by (apply changes_from_spec; eauto).
    rewrite E in Hin. by apply elem_of_nil in Hin.
Qed.

Lemma hunks_loop_ne cs context n s e : hunks_loop cs context n s e <> [].
Proof. revert s e. induction cs as [|c cs IH]; intros s e; cbn; [done|]. case_match; [apply IH|done]. Qed.

Lemma makeHunks_nil ops context : makeHunks ops context = [] <-> Forall (fun op => is_change op = false) ops.
Proof.
  rewrite script_without_changes. unfold makeHunks.
  destruct (changes_from 0 ops) as [|c cs]; [done|]. split; [|done]. by intros ?%hunks_loop_ne.
Qed.

Lemma kept_le ops : len (kept ops) <= len (old_of ops) /\ len (kept ops) <= len (new_of ops).
Proof.
  unfold len. induction ops as [|[k x] ops IH]; [done|].
  rewrite old_of_cons, new_of_cons, kept_cons. destruct k; repeat case_decide; try done; cbn [length]; lia.
Qed.

(** A script that keeps every line changes nothing. *)
Lemma kept_all ops :
  len (old_of ops) <= len (kept ops) -> len (new_of ops) <= len (kept ops) ->
  Forall (fun op => is_change op = false) ops.
Proof.
  induction ops as [|[k x] ops IH]; [constructor|]. pose proof (kept_le ops) as Hle.
  rewrite old_of_cons, new_of_cons, kept_cons. unfold len in *.
  destruct k; repeat case_decide; try done; cbn [length]; intros; [|lia..].
  constructor; [done|]. apply IH; lia.
Qed.

Definition diff_header (resolved : DiffOptions) : gostring :=
  "--- " ++ cleanDiffName (OldName resolved) "a/file" ++ [LF] ++
  "+++ " ++ cleanDiffName (NewName resolved) "b/file" ++ [LF].

Lemma resolveDiffOptions_ok options resolved :
  resolveDiffOptions options = Ok resolved -> 0 <= Context resolved <= 1000.
Proof. unfold resolveDiffOptions. intros Hr. inv_ok. bool_props. cbn in *. lia. Qed.

Lemma UnifiedDiff_patch oldText newText options diff :
  UnifiedDiff oldText newText options = Ok diff ->
  (diff = [] <-> oldText = newText) /\
  exists resolved patch, resolveDiffOptions options = Ok resolved /\
    (diff <> [] -> diff = diff_header resolved ++ concat (render_patch <$> patch) /\
                   len diff <= MaxOutputBytes resolved) /\
    apply_patch 0 0 (splitDiffLines oldText) patch = Some (splitDiffLines newText).
Proof.
  unfold UnifiedDiff. intros Hd. inv_ok. rename x into resolved, x0 into ops.
  match goal with E : resolveDiffOptions _ = _ |- _ => rename E into Hres end.
  match goal with E : calculateDiff _ _ _ = _ |- _ => apply calculateDiff_script in E as (Hold & Hnew & _ & _ & Hmin) end.
  destruct (resolveDiffOptions_ok _ _ Hres) as [Hctx _].
  destruct (makeHunks_spec ops (Context resolved) Hctx) as [Hord Hcov].
  assert (Happ : apply_patch 0 0 (splitDiffLines oldText)
    (patch_of (makeHunks ops (Context resolved)) ops (1, 1) 0) = Some (splitDiffLines newText)).
  { rewrite <- Hold, <- Hnew. apply (apply_patch_correct _ ops 0 0 0); [lia|done|].
    intros i op _ Ho Hc. pose proof (lookup_lt_Some _ _ _ Ho).
    apply Hcov; [unfold len; lia|]. exists (Z.of_nat i). split; [by exists i, op|lia]. }
  destruct (makeHunks ops (Context resolved)) as [|h hs] eqn:Eh.
  - simplify_eq. split.
    + split; [|done]. intros _. apply splitDiffLines_inj. rewrite <- Hold, <- Hnew.
      apply makeHunks_nil in Eh. by apply all_equal_project.
    + exists resolved, []. cbn in Happ. done.
  - inv_ok. bool_props. change 1 with (0 + 1) in Hd.
    match goal with E : write_hunks _ _ _ _ _ _ = _ |- _ =>
      apply write_hunks_Ok in E as [Hdiff Hlen]; [|lia|done|done] end.
    split.
    + split; [intros ->; by destruct (diff_header resolved)|]. intros Heq. exfalso.
      assert (Hsame : makeHunks ops (Context resolved) = []); [|congruence].
      subst newText. apply makeHunks_nil, kept_all; rewrite ?Hold, ?Hnew; by apply Hmin.
    + exists resolved, (patch_of (h :: hs) ops (1, 1) 0). split_and!; [done| |done].
      intros _. split; [exact Hdiff|done].
Qed.


