(* ===== verification/Edit.v ===== *)
(** * Literal edits of a decoded file ([internal/textfile/edit.go]) *)
From S2P Require Import Prelude GoStrings Utf8 TextTypes Codec EditorConfig Diff.
#[local] Open Scope Z_scope.

Inductive ReplaceMode := ReplaceOnce | ReplaceAll | ReplaceOther.

#[export] Instance ReplaceMode_eq_dec : EqDecision ReplaceMode.
Proof. solve_decision. Defined.

Record Edit := mkEdit {
  Old : gostring; New : gostring; Mode : ReplaceMode;
  AdaptIndentation : bool; EditIndentation : Indentation
}.

Record EditResult := mkResult { EditIndex : nat; Replacements : Z }.
Record PreviewResult := mkPreview { DiffText : gostring; Results : list EditResult }.

Record replacementSpan := mkSpan {
  span_start : nat; span_end : nat; span_replace : gostring; editIndex : nat
}.

(** ** Matches *)

(** The loop of [literalMatches]. A match is not empty, so each round moves the
    offset and [length text + 1] rounds are enough. *)
Fixpoint match_loop (fuel : nat) (text target : gostring) (limit : Z) (offset : nat) (matches : list nat)
  : list nat :=
  match fuel with
  | O => matches
  | S fuel =>
      if (Z.of_nat offset <=? len text - len target) && (len matches <? limit) then
        match index (drop offset text) target with
        | None => matches
        | Some i => let start := (offset + i)%nat in
                    match_loop fuel text target limit (start + length target) (matches ++ [start])
        end
      else matches
  end.

Definition literalMatches (text target : gostring) (limit : Z) : list nat :=
  match_loop (S (length text)) text target limit 0 [].

(** ** Indentation *)

Definition is_eol (c : ascii) : bool := Ascii.eqb c CR || Ascii.eqb c LF.
Definition is_blank (c : ascii) : bool := Ascii.eqb c SP || Ascii.eqb c TAB.

Fixpoint run_of (p : ascii -> bool) (s : gostring) : nat :=
  match s with
  | c :: s' => if p c then S (run_of p s') else O
  | [] => O
  end.

(** [replacementLine]: the end of the line that starts at [start], and the start
    of the next one. *)
Definition replacementLine (v : gostring) (start : nat) : nat * nat :=
  let e := (start + run_of (negb ∘ is_eol) (drop start v))%nat in
  let next :=
    match drop e v with
    | c :: d :: _ => if Ascii.eqb c CR && Ascii.eqb d LF then (e + 2)%nat else (e + 1)%nat
    | [_] => (e + 1)%nat
    | [] => e
    end in
  (e, next).

Definition leadingIndentation (line : gostring) : gostring := take (run_of is_blank line) line.

Definition column_step (tabWidth columns r : Z) : Z :=
  if r =? 9 then columns + (tabWidth - Z.rem columns tabWidth) else columns + 1.

Definition indentationColumns (prefix : gostring) (tabWidth : Z) : Z :=
  foldl (column_step tabWidth) 0 (runes prefix).

Definition renderIndentation (columns : Z) (indentation : Indentation) : gostring :=
  if columns <=? 0 then []
  else if decide (Style indentation = IndentStyleTab) then
    let tabs := Z.quot columns (TabWidth indentation) in
    repeat_byte TAB tabs ++ repeat_byte SP (columns - tabs * TabWidth indentation)
  else repeat_byte SP columns.

(** The rewriting of one continuation line. *)
Definition adapt_line (line : gostring) (targetColumns firstColumns : Z) (indentation : Indentation)
  : gostring :=
  let prefix := leadingIndentation line in
  if (length prefix <? length line)%nat then
    let relative := indentationColumns prefix (TabWidth indentation) - firstColumns in
    let desired := targetColumns + relative in
    let desired := if desired <? 0 then 0 else desired in
    renderIndentation desired indentation ++ drop (length prefix) line
  else [].

(** The loop over the continuation lines; each round moves [next] forward. *)
Fixpoint adapt_loop (fuel : nat) (replacement : gostring) (targetColumns firstColumns : Z)
    (indentation : Indentation) (next : nat) : gostring :=
  match fuel with
  | O => []
  | S fuel =>
      if (next <? length replacement)%nat then
        let '(lineEnd, next') := replacementLine replacement next in
        adapt_line (slice next lineEnd replacement) targetColumns firstColumns indentation ++
        slice lineEnd next' replacement ++
        adapt_loop fuel replacement targetColumns firstColumns indentation next'
      else []
  end.

Definition adaptReplacementIndentation (text : gostring) (matchStart : nat) (replacement : gostring)
    (indentation : Indentation) : gostring :=
  match index_any replacement [CR; LF] with
  | None => replacement
  | Some firstLineEnd =>
      let indentation := normalized indentation in
      let lineStart := match last_index_any (take matchStart text) [CR; LF] with
                       | Some i => S i | None => O end in
      let targetEnd := (lineStart + run_of is_blank (drop lineStart text))%nat in
      let targetColumns := indentationColumns (slice lineStart targetEnd text) (TabWidth indentation) in
      let firstColumns := indentationColumns (leadingIndentation (take firstLineEnd replacement))
                            (TabWidth indentation) in
      let '(_, next) := replacementLine replacement 0 in
      take next replacement ++
      adapt_loop (S (length replacement)) replacement targetColumns firstColumns indentation next
  end.

(** ** Planning *)

(** The spans of one edit, once its matches are known. *)
Definition edit_spans (text : gostring) (i : nat) (edit : Edit) (matches : list nat) : list replacementSpan :=
  (fun start =>
     let replacement := if AdaptIndentation edit
                        then adaptReplacementIndentation text start (New edit) (EditIndentation edit)
                        else New edit in
     mkSpan start (start + length (Old edit)) replacement i) <$> matches.

Definition span_growth (spans : list replacementSpan) : Z :=
  foldr (fun s n => len (span_replace s) - Z.of_nat (span_end s - span_start s) + n) 0 spans.

Definition span_le (a b : replacementSpan) : Prop :=
  if decide (span_start a = span_start b) then (span_end a <= span_end b)%nat
  else (span_start a < span_start b)%nat.

#[export] Instance span_le_dec a b : Decision (span_le a b).
Proof. unfold span_le. case_decide; apply _. Defined.

Record plan := mkPlan { pl_results : list EditResult; pl_spans : list replacementSpan;
                        pl_total : Z; pl_length : Z }.

(** The body of the loop over the edits. *)
Definition plan_edit (text : gostring) (limits : Limits) (i : nat) (edit : Edit) (p : plan)
  : result text_error plan :=
  reject bool_decide (Old edit = []) with ErrInvalidOptions;
  reject negb (utf8_valid (Old edit)) || negb (utf8_valid (New edit)) with ErrInvalidEncoding;
  reject bool_decide (Mode edit = ReplaceOther) with ErrInvalidOptions;
  let matchLimit := if decide (Mode edit = ReplaceAll) then MaxMatches limits - pl_total p + 1 else 2 in
  let matches := literalMatches text (Old edit) matchLimit in
  reject len matches =? 0 with ErrNotFound;
  reject bool_decide (Mode edit = ReplaceOnce) && negb (len matches =? 1) with ErrAmbiguousMatch;
  let total := pl_total p + len matches in
  reject MaxMatches limits <? total with ErrTooManyEdits;
  let spans := edit_spans text i edit matches in
  Ok (mkPlan (pl_results p ++ [mkResult i (len matches)]) (pl_spans p ++ spans) total
             (pl_length p + span_growth spans)).

Fixpoint plan_loop (text : gostring) (limits : Limits) (i : nat) (edits : list Edit) (p : plan)
  : result text_error plan :=
  match edits with
  | [] => Ok p
  | edit :: edits' => p' ← plan_edit text limits i edit p; plan_loop text limits (S i) edits' p'
  end.

(** The check of neighbours after the sort. *)
Fixpoint conflicts (spans : list replacementSpan) : bool :=
  match spans with
  | a :: (b :: _) as rest => (span_start b <? span_end a)%nat || conflicts rest
  | _ => false
  end.

Fixpoint splice (text : gostring) (position : nat) (spans : list replacementSpan) : gostring :=
  match spans with
  | [] => drop position text
  | s :: spans' => slice position (span_start s) text ++ span_replace s ++ splice text (span_end s) spans'
  end.

Definition planEdits (text : gostring) (edits : list Edit) (limits : Limits)
  : result text_error (gostring * list EditResult) :=
  reject MaxEdits limits <? len edits with ErrTooManyEdits;
  if decide (edits = []) then Ok (text, [])
  else
    p ← plan_loop text limits 0 edits (mkPlan [] [] 0 (len text));
    reject (pl_length p <? 0) || (MaxDecodedBytes limits <? pl_length p) with ErrTooLarge;
    let spans := merge_sort span_le (pl_spans p) in
    reject conflicts spans with ErrEditConflict;
    let updated := splice text 0 spans in
    reject isBinary updated with ErrBinary;
    Ok (updated, pl_results p).

(** ** Operations of a file

    [Apply] runs under the file's lock; the new state is returned with the result. *)
Definition with_text (f : File) (text : gostring) : File :=
  mkFile text (file_meta f) (file_limits f).

Definition Apply (f : File) (edits : list Edit) : result text_error (list EditResult) * File :=
  match planEdits (file_text f) edits (file_limits f) with
  | Err e => (Err e, f)
  | Ok (updated, results) => (Ok results, with_text f updated)
  end.

Definition Replace (f : File) (old replacement : gostring) (mode : ReplaceMode)
  : result text_error Z * File :=
  let '(r, f') := Apply f [mkEdit old replacement mode false (mkIndentation [] 0 0)] in
  match r with
  | Err e => (Err e, f')
  | Ok results => (Ok (default 0 (Replacements <$> head results)), f')
  end.

Definition Preview (f : File) (edits : list Edit) (options : DiffOptions) : result text_error PreviewResult :=
  planned ← planEdits (file_text f) edits (file_limits f);
  diff ← UnifiedDiff (file_text f) planned.1 options;
  Ok (mkPreview diff planned.2).

(** ** Properties: matches *)

(** The offsets of the leftmost matches that do not overlap, without a limit. *)
Fixpoint occurrences (fuel : nat) (rest target : gostring) (offset : nat) : list nat :=
  match fuel with
  | O => []
  | S fuel =>
      match index rest target with
      | None => []
      | Some i => (offset + i)%nat ::
          occurrences fuel (drop (i + length target) rest) target (offset + i + length target)
      end
  end.

Definition all_matches (text target : gostring) : list nat :=
  occurrences (S (length text)) text target 0.

Lemma index_too_short s t : (length s < length t)%nat -> index s t = None.
Proof.
  intros Hl. destruct (index s t) eqn:E; [|done]. apply index_bound in E. lia.
Qed.

Lemma match_loop_occurrences fuel text target limit offset ms :
  target <> [] ->
  match_loop fuel text target limit offset ms =
  ms ++ take (Z.to_nat (limit - len ms)) (occurrences fuel (drop offset text) target offset).
Proof.
  intros Ht. assert (0 < length target)%nat by (destruct target; [done|cbn; lia]).
  revert offset ms; induction fuel as [|fuel IH]; intros offset ms; cbn [match_loop occurrences].
  { by rewrite take_nil, app_nil_r. }
  destruct (Z.leb_spec (Z.of_nat offset) (len text - len target)) as [Ho|Ho]; cbn [andb]; cycle 1.
  { rewrite index_too_short; [by rewrite take_nil, app_nil_r|]. rewrite length_drop. unfold len in *. lia. }
  destruct (Z.ltb_spec (len ms) limit) as [Hl|Hl]; cycle 1.
  { replace (Z.to_nat (limit - len ms)) with 0%nat by lia. by rewrite take_0, app_nil_r. }
  destruct (index (drop offset text) target) as [i|]; [|by rewrite take_nil, app_nil_r].
  rewrite IH, <- app_assoc. f_equal. rewrite drop_drop, Nat.add_assoc, len_app.
  replace (Z.to_nat (limit - len ms)) with (S (Z.to_nat (limit - (len ms + len [(offset + i)%nat]))))
    by (unfold len in *; cbn [length]; lia).
  done.
Qed.

Lemma literalMatches_take text target limit :
  target <> [] -> literalMatches text target limit = take (Z.to_nat limit) (all_matches text target).
Proof.
  intros. unfold literalMatches. rewrite match_loop_occurrences, drop_0 by done. cbn [app].
  unfold len at 1. cbn [length]. by rewrite Z.sub_0_r.
Qed.

(** [l] lists the ends of disjoint ranges of width [w] from [pos] to [n]. *)
Fixpoint apart (pos w n : nat) (l : list nat) : Prop :=
  match l with
  | [] => True
  | s :: l' => (pos <= s)%nat /\ (s + w <= n)%nat /\ apart (s + w) w n l'
  end.

Lemma occurrences_apart fuel text target offset :
  (offset <= length text)%nat ->
  apart offset (length target) (length text) (occurrences fuel (drop offset text) target offset).
Proof.
  revert offset; induction fuel as [|fuel IH]; intros offset Ho; cbn [occurrences]; [done|].
  destruct (index (drop offset text) target) as [i|] eqn:E; [|done]. apply index_bound in E.
  rewrite length_drop in E. cbn [apart]. split_and!; [lia..|].
  rewrite drop_drop, Nat.add_assoc. apply IH. lia.
Qed.

Lemma occurrences_match fuel text target offset s :
  s ∈ occurrences fuel (drop offset text) target offset ->
  slice s (s + length target) text = target.
Proof.
  revert offset; induction fuel as [|fuel IH]; intros offset Hs; cbn [occurrences] in Hs;
    [by apply elem_of_nil in Hs|].
  destruct (index (drop offset text) target) as [i|] eqn:E; [|by apply elem_of_nil in Hs].
  rewrite drop_drop, Nat.add_assoc in Hs. apply elem_of_cons in Hs as [->|Hs]; [|by eapply IH].
  apply index_Some in E as (E & _ & _). rewrite drop_drop in E. apply has_prefix_take in E.
  unfold slice. by replace (offset + i + length target - (offset + i))%nat with (length target) by lia.
Qed.

Lemma all_matches_apart text target : apart 0 (length target) (length text) (all_matches text target).
Proof.
  unfold all_matches. rewrite <- (drop_0 text) at 2 || idtac.
  change (occurrences (S (length text)) text target 0) with
    (occurrences (S (length text)) (drop 0 text) target 0). apply occurrences_apart. lia.
Qed.

Lemma all_matches_match text target s :
  s ∈ all_matches text target -> slice s (s + length target) text = target.
Proof.
  unfold all_matches. change (occurrences (S (length text)) text target 0) with
    (occurrences (S (length text)) (drop 0 text) target 0). apply occurrences_match.
Qed.

(** Replacing every match is [strings.ReplaceAll]. *)
Lemma splice_occurrences fuel text target new offset k :
  target <> [] -> (length text - offset < fuel)%nat -> (offset <= length text)%nat ->
  splice text offset
    ((fun s => mkSpan s (s + length target) new k) <$> occurrences fuel (drop offset text) target offset) =
  replace_all (drop offset text) target new.
Proof.
  intros Ht. revert offset; induction fuel as [|fuel IH]; intros offset Hf Ho; [lia|]. cbn [occurrences].
  destruct (index (drop offset text) target) as [i|] eqn:E.
  - rewrite (replace_all_index _ _ _ _ Ht E). pose proof (index_bound _ _ _ E) as Hb.
    rewrite length_drop in Hb. destruct target as [|c target]; [done|]. cbn [length] in *.
    rewrite drop_drop. cbn [fmap list_fmap splice span_start span_end span_replace].
    unfold slice at 1. replace (offset + i - offset)%nat with i by lia. f_equal. f_equal.
    rewrite Nat.add_assoc. apply IH; cbn; lia.
  - cbn. by rewrite replace_all_none.
Qed.

(** ** Properties: the plan *)

Definition edit_matches (text : gostring) (e : Edit) : list nat := all_matches text (Old e).

(** An edit that planning accepts, the limit on matches aside. *)
Record edit_ok (text : gostring) (e : Edit) : Prop := {
  eo_old : Old e <> [];
  eo_valid : utf8_valid (Old e) = true;
  eo_new : utf8_valid (New e) = true;
  eo_mode : Mode e <> ReplaceOther;
  eo_found : edit_matches text e <> [];
  eo_once : Mode e = ReplaceOnce -> length (edit_matches text e) = 1%nat
}.

Definition spans_of (text : gostring) (i : nat) (e : Edit) : list replacementSpan :=
  edit_spans text i e (edit_matches text e).

(** What the loop accumulates. *)
Definition plan_after (text : gostring) (i : nat) (e : Edit) (p : plan) : plan :=
  let matches := edit_matches text e in
  mkPlan (pl_results p ++ [mkResult i (len matches)]) (pl_spans p ++ spans_of text i e)
         (pl_total p + len matches) (pl_length p + span_growth (spans_of text i e)).

Lemma edit_ok_search text limits e p :
  edit_ok text e -> 0 <= pl_total p -> pl_total p + len (edit_matches text e) <= MaxMatches limits ->
  literalMatches text (Old e)
    (if decide (Mode e = ReplaceAll) then MaxMatches limits - pl_total p + 1 else 2) = edit_matches text e.
Proof.
  intros He Hp Hm. rewrite literalMatches_take by apply He. apply take_ge.
  fold (edit_matches text e). unfold len in Hm. case_decide as Hall; [lia|].
  rewrite (eo_once _ _ He); [cbn; lia|]. destruct (Mode e) eqn:E; [done|done|]. by destruct (eo_mode _ _ He).
Qed.

Lemma plan_edit_char text limits i e p p' :
  0 <= pl_total p <= MaxMatches limits ->
  plan_edit text limits i e p = Ok p' <->
  edit_ok text e /\ pl_total p + len (edit_matches text e) <= MaxMatches limits /\ p' = plan_after text i e p.
Proof.
  intros Hp. unfold plan_edit. split.
  - intros Hpl. apply guard_Ok in Hpl as [Hold%bool_decide_eq_false Hpl].
    apply guard_Ok in Hpl as [[Hv%negb_false_iff Hn%negb_false_iff]%orb_false_iff Hpl].
    apply guard_Ok in Hpl as [Hmode%bool_decide_eq_false Hpl]. cbv zeta in Hpl.
    rewrite literalMatches_take in Hpl by done. fold (edit_matches text e) in Hpl.
    set (lim := if decide (Mode e = ReplaceAll) then _ else _) in *.
    apply guard_Ok in Hpl as [Hf%Z.eqb_neq Hpl]. apply guard_Ok in Hpl as [Honce Hpl].
    apply guard_Ok in Hpl as [Hm%Z.ltb_ge Hpl].
    assert (Hall : take (Z.to_nat lim) (edit_matches text e) = edit_matches text e).
    { apply take_ge. unfold len in Hm, Honce. rewrite length_take in Hm, Honce.
      unfold lim in *. case_decide as Hd; [lia|].
      assert (Mode e = ReplaceOnce) as Hon by (by destruct (Mode e)).
      rewrite bool_decide_true in Honce by done. cbn [andb] in Honce.
      apply negb_false_iff, Z.eqb_eq in Honce. lia. }
    rewrite Hall in *. split_and!; [|done|by injection Hpl].
    split; try done.
    + intros E. by rewrite E in Hf.
    + intros E. rewrite bool_decide_true in Honce by done. cbn [andb] in Honce.
      apply negb_false_iff, Z.eqb_eq in Honce. unfold len in Honce. lia.
  - intros (He & Hm & ->). destruct He as [Ho Hv Hn Hmo Hf Honce].
    rewrite bool_decide_false by done. rewrite Hv, Hn. rewrite bool_decide_false by done.
    cbn [guard_err negb orb].
    rewrite edit_ok_search by (done || lia).
    assert (0 < len (edit_matches text e)) by (unfold len; destruct (edit_matches text e); [done|cbn; lia]).
    rewrite (proj2 (Z.eqb_neq _ _)) by lia. cbn [guard_err].
    replace (bool_decide _ && _) with false; cycle 1.
    { case_bool_decide as E; [|done]. cbn [andb]. unfold len. by rewrite (Honce E). }
    cbn [guard_err]. rewrite (proj2 (Z.ltb_ge _ _)) by lia. done.
Qed.

Definition match_total (text : gostring) (edits : list Edit) : Z :=
  foldr (fun e n => len (edit_matches text e) + n) 0 edits.

Fixpoint all_spans (text : gostring) (i : nat) (edits : list Edit) : list replacementSpan :=
  match edits with
  | [] => []
  | e :: edits' => spans_of text i e ++ all_spans text (S i) edits'
  end.

Fixpoint all_results (text : gostring) (i : nat) (edits : list Edit) : list EditResult :=
  match edits with
  | [] => []
  | e :: edits' => mkResult i (len (edit_matches text e)) :: all_results text (S i) edits'
  end.

Lemma span_growth_app a b : span_growth (a ++ b) = span_growth a + span_growth b.
Proof. unfold span_growth. induction a as [|s a IH]; cbn in *; lia. Qed.

Lemma match_total_nonneg text edits : 0 <= match_total text edits.
Proof.
  induction edits as [|e es IH]; cbn [match_total foldr]; [done|]. fold (match_total text es).
  pose proof (len_nonneg (edit_matches text e)). lia.
Qed.

(** The loop succeeds exactly when every edit is acceptable and the matches stay
    within the limit together. *)
Lemma plan_loop_char text limits i edits p p' :
  0 <= pl_total p <= MaxMatches limits ->
  plan_loop text limits i edits p = Ok p' <->
  Forall (edit_ok text) edits /\ pl_total p + match_total text edits <= MaxMatches limits /\
  p' = mkPlan (pl_results p ++ all_results text i edits) (pl_spans p ++ all_spans text i edits)
         (pl_total p + match_total text edits) (pl_length p + span_growth (all_spans text i edits)).
Proof.
  revert i p. induction edits as [|e es IH]; intros i p Hp; cbn [plan_loop].
  - cbn. rewrite !app_nil_r, !Z.add_0_r. destruct p; cbn in *. split; [|naive_solver].
    intros [= <-]. split_and!; [by constructor|lia|done].
  - cbn [match_total foldr all_spans all_results]. fold (match_total text es).
    pose proof (match_total_nonneg text es). pose proof (len_nonneg (edit_matches text e)).
    rewrite span_growth_app, Forall_cons. split.
    + intros (p1 & H1 & H2)%bind_Ok. apply plan_edit_char in H1 as (He & Hm & ->); [|done].
      apply IH in H2 as (Hes & Hms & ->); [|unfold plan_after; cbn [pl_total]; lia]. cbn [pl_total pl_results pl_spans pl_length plan_after] in *.
      split_and!; [done|done|lia|]. rewrite <- !app_assoc. cbn [app]. f_equal; lia.
    + intros ((He & Hes) & Hm & ->). apply bind_Ok. exists (plan_after text i e p). split.
      * apply plan_edit_char; [done|]. split_and!; [done|lia|done].
      * apply IH; [unfold plan_after; cbn [pl_total]; lia|]. cbn [pl_total pl_results pl_spans pl_length plan_after].
        split_and!; [done|lia|]. rewrite <- !app_assoc. cbn [app]. f_equal; lia.
Qed.

(** *** Spans *)

(** Non-empty ranges of the text, in order and apart. *)
Fixpoint separated (pos n : nat) (spans : list replacementSpan) : Prop :=
  match spans with
  | [] => True
  | s :: spans' => (pos <= span_start s)%nat /\ (span_start s < span_end s)%nat /\ (span_end s <= n)%nat /\
                   separated (span_end s) n spans'
  end.

Definition span_in (n : nat) (s : replacementSpan) : Prop :=
  (span_start s < span_end s)%nat /\ (span_end s <= n)%nat.

Lemma conflicts_separated n spans :
  conflicts spans = false -> Forall (span_in n) spans -> separated 0 n spans.
Proof.
  intros Hc Hin. assert (Hg : forall pos, (forall s, head spans = Some s -> pos <= span_start s)%nat ->
    separated pos n spans); [|by apply Hg; intros; lia].
  induction Hin as [|s spans [H1 H2] Hin IH]; intros pos Hpos; [done|]. cbn [separated].
  split_and!; [by apply Hpos|done|done|]. destruct spans as [|b spans]; [done|].
  cbn [conflicts] in Hc. apply orb_false_iff in Hc as [Hb%Nat.ltb_ge Hc].
  apply (IH Hc). by intros ? [= <-].
Qed.

Lemma separated_conflicts pos n spans : separated pos n spans -> conflicts spans = false.
Proof.
  revert pos; induction spans as [|a spans IH]; intros pos Hs; [done|]. destruct Hs as (? & ? & ? & Hs).
  cbn [conflicts]. destruct spans as [|b spans]; [done|]. rewrite (IH _ Hs), orb_false_r.
  apply Nat.ltb_ge. by destruct Hs.
Qed.

Lemma separated_later pos n spans s : separated pos n spans -> s ∈ spans -> (pos <= span_start s)%nat.
Proof.
  revert pos; induction spans as [|a spans IH]; intros pos Hs Hin; [by apply elem_of_nil in Hin|].
  destruct Hs as (? & ? & ? & Hs). apply elem_of_cons in Hin as [->|Hin]; [done|]. specialize (IH _ Hs Hin). lia.
Qed.

Lemma separated_inj pos n spans s t :
  separated pos n spans -> s ∈ spans -> t ∈ spans -> span_start s = span_start t -> s = t.
Proof.
  revert pos; induction spans as [|a spans IH]; intros pos Hs H1 H2 E; [by apply elem_of_nil in H1|].
  destruct Hs as (? & ? & ? & Hs).
  apply elem_of_cons in H1 as [->|H1], H2 as [->|H2]; [done|..|by eapply IH].
  - pose proof (separated_later _ _ _ _ Hs H2). lia.
  - pose proof (separated_later _ _ _ _ Hs H1). lia.
Qed.

(** The length of the result is the one the loop counted. *)
Lemma splice_length pos text spans :
  separated pos (length text) spans -> (pos <= length text)%nat ->
  len (splice text pos spans) = len text - Z.of_nat pos + span_growth spans.
Proof.
  revert pos; induction spans as [|s spans IH]; intros pos Hs Hp; cbn [splice].
  - unfold len. rewrite length_drop. cbn. lia.
  - destruct Hs as (H1 & H2 & H3 & Hs). rewrite !len_app, IH by done.
    cbn [span_growth foldr]. fold (span_growth spans). unfold len at 1. rewrite slice_length by lia. lia.
Qed.

Lemma span_growth_perm a b : a ≡ₚ b -> span_growth a = span_growth b.
Proof. unfold span_growth. induction 1; cbn in *; lia. Qed.

#[export] Instance span_le_total : Total span_le.
Proof. intros a b. unfold span_le. repeat case_decide; lia. Qed.

#[export] Instance span_le_trans : Transitive span_le.
Proof. intros a b c. unfold span_le. repeat case_decide; lia. Qed.

Lemma edit_spans_in text i e s :
  edit_ok text e -> s ∈ spans_of text i e ->
  span_in (length text) s /\ slice (span_start s) (span_end s) text = Old e /\ editIndex s = i /\
  span_replace s = (if AdaptIndentation e
                    then adaptReplacementIndentation text (span_start s) (New e) (EditIndentation e)
                    else New e).
Proof.
  intros He. unfold spans_of, edit_spans. intros (m & -> & Hm)%list_elem_of_fmap. cbn.
  pose proof (all_matches_match _ _ _ Hm) as Hs. split_and!; [|done..].
  assert (0 < length (Old e))%nat by (destruct (Old e) eqn:E; [by destruct (eo_old _ _ He)|cbn; lia]).
  split; cbn; [lia|]. pose proof (all_matches_apart text (Old e)) as Ha. clear -Ha Hm. unfold edit_matches in Hm.
  revert Ha Hm. generalize 0%nat as pos. induction (all_matches text (Old e)) as [|x l IH]; intros pos Ha Hm;
    [by apply elem_of_nil in Hm|]. destruct Ha as (? & ? & Ha). apply elem_of_cons in Hm as [->|Hm]; eauto.
Qed.

Lemma all_spans_in text i edits s :
  Forall (edit_ok text) edits -> s ∈ all_spans text i edits ->
  exists k e, edits !! k = Some e /\ s ∈ spans_of text (i + k) e.
Proof.
  intros Hes. revert i. induction Hes as [|e es He Hes IH]; intros i; cbn [all_spans]; [by intros ?%elem_of_nil|].
  intros [Hs|Hs]%elem_of_app; [exists 0%nat, e; by rewrite Nat.add_0_r|].
  destruct (IH _ Hs) as (k & e' & ? & ?). exists (S k), e'. by rewrite Nat.add_succ_r.
Qed.

Lemma all_spans_Forall text i edits :
  Forall (edit_ok text) edits -> Forall (span_in (length text)) (all_spans text i edits).
Proof.
  intros Hes. apply Forall_forall. intros s Hs.
  destruct (all_spans_in _ _ _ _ Hes Hs) as (k & e & He & Hin). rewrite Forall_lookup in Hes.
  by apply (edit_spans_in text (i + k) e) in Hin as [? _]; eauto.
Qed.

(** What a successful plan is. *)
Lemma planEdits_inv text edits limits updated results :
  0 <= MaxMatches limits -> edits <> [] ->
  planEdits text edits limits = Ok (updated, results) <->
  len edits <= MaxEdits limits /\ Forall (edit_ok text) edits /\
  match_total text edits <= MaxMatches limits /\ results = all_results text 0 edits /\
  let spans := merge_sort span_le (all_spans text 0 edits) in
  separated 0 (length text) spans /\ updated = splice text 0 spans /\
  len updated <= MaxDecodedBytes limits /\ isBinary updated = false.
Proof.
  intros Hmax Hne. unfold planEdits. rewrite decide_False by done.
  assert (Hp : forall p', plan_loop text limits 0 edits (mkPlan [] [] 0 (len text)) = Ok p' <->
    Forall (edit_ok text) edits /\ match_total text edits <= MaxMatches limits /\
    p' = mkPlan (all_results text 0 edits) (all_spans text 0 edits) (match_total text edits)
           (len text + span_growth (all_spans text 0 edits))).
  { intros p'. by rewrite plan_loop_char by done. }
  set (spans := merge_sort span_le (all_spans text 0 edits)).
  assert (Hlen : separated 0 (length text) spans ->
    len (splice text 0 spans) = len text + span_growth (all_spans text 0 edits)).
  { intros Hs. rewrite splice_length by (done || lia). rewrite (span_growth_perm spans (all_spans text 0 edits)).
    - lia.
    - apply merge_sort_Permutation. }
  rewrite guard_Ok, bind_Ok, Z.ltb_ge. split.
  - intros (He & p & (Hes & Hm & ->)%Hp & Hk). cbn [pl_spans pl_length pl_results] in Hk. cbv zeta in Hk.
    fold spans in Hk. apply guard_Ok in Hk as [[H1%Z.ltb_ge H2%Z.ltb_ge]%orb_false_iff Hk].
    apply guard_Ok in Hk as [Hc Hk]. apply guard_Ok in Hk as [Hb Hk]. injection Hk as <- <-.
    assert (Hsep : separated 0 (length text) spans).
    { apply conflicts_separated; [done|]. unfold spans. rewrite merge_sort_Permutation.
      by apply all_spans_Forall. }
    split_and!; try done. by rewrite Hlen.
  - intros (He & Hes & Hm & -> & Hsep & -> & Hl & Hb). split; [done|].
    eexists. split; [by apply Hp|]. cbn [pl_spans pl_length pl_results]. fold spans.
    rewrite Hlen in Hl by done. pose proof (len_nonneg (splice text 0 spans)) as Hnn. rewrite Hlen in Hnn by done.
    rewrite (proj2 (Z.ltb_ge _ _)) by lia. rewrite (proj2 (Z.ltb_ge _ _)) by lia. cbn [guard_err orb].
    rewrite (separated_conflicts _ _ _ Hsep). cbn [guard_err]. by rewrite Hb.
Qed.

(** *** The order of the spans is determined *)

Lemma sorted_unique_on {A} (R : A -> A -> Prop) l1 l2 :
  l1 ≡ₚ l2 -> StronglySorted R l1 -> StronglySorted R l2 ->
  (forall x y, x ∈ l1 -> y ∈ l1 -> R x y -> R y x -> x = y) -> l1 = l2.
Proof.
  revert l2. induction l1 as [|x l1 IH]; intros l2 Hp H1 H2 Ha; [by apply Permutation_nil in Hp as ->|].
  destruct l2 as [|y l2]; [by apply Permutation_nil_r in Hp|].
  apply StronglySorted_inv in H1 as [H1 Hx], H2 as [H2 Hy].
  rewrite Forall_forall in Hx, Hy.
  assert (x = y) as ->.
  { assert (Hyin : y ∈ x :: l1) by (rewrite Hp; by left).
    assert (Hxin : x ∈ y :: l2) by (rewrite <- Hp; by left).
    apply elem_of_cons in Hyin as [->|Hyin]; [done|]. apply elem_of_cons in Hxin as [->|Hxin]; [done|].
    apply Ha; [by left|by right|by apply Hx|by apply Hy]. }
  f_equal. apply IH; [by apply Permutation_cons_inv in Hp|done|done|].
  intros a b ? ?. apply Ha; by right.
Qed.

Lemma separated_sorted pos n spans : separated pos n spans -> StronglySorted span_le spans.
Proof.
  revert pos; induction spans as [|s spans IH]; intros pos Hs; [constructor|].
  destruct Hs as (? & ? & ? & Hs). constructor; [by eapply IH|]. apply Forall_forall. intros t Ht.
  pose proof (separated_later _ _ _ _ Hs Ht). unfold span_le. rewrite decide_False by lia. lia.
Qed.

Lemma span_le_starts a b : span_le a b -> span_le b a -> span_start a = span_start b.
Proof. unfold span_le. repeat case_decide; lia. Qed.

Lemma merge_sort_separated pos n spans : separated pos n spans -> merge_sort span_le spans = spans.
Proof.
  intros Hs. symmetry. apply (sorted_unique_on span_le).
  - symmetry. apply merge_sort_Permutation.
  - by eapply separated_sorted.
  - apply (StronglySorted_merge_sort span_le).
  - intros x y Hx Hy H1 H2. eapply separated_inj; eauto using span_le_starts.
Qed.

Lemma spans_of_separated text i e : edit_ok text e -> separated 0 (length text) (spans_of text i e).
Proof.
  intros He. assert (0 < length (Old e))%nat by (destruct (Old e) eqn:E; [by destruct (eo_old _ _ He)|cbn; lia]).
  unfold spans_of, edit_spans, edit_matches. pose proof (all_matches_apart text (Old e)) as Ha.
  revert Ha. generalize 0%nat as pos. induction (all_matches text (Old e)) as [|m l IH]; intros pos Ha; [done|].
  destruct Ha as (? & ? & Ha). cbn [fmap list_fmap separated span_start span_end]. split_and!; [lia..|]. by apply IH.
Qed.

(** One edit that replaces every match is [strings.ReplaceAll], and reports the
    number of matches. *)
Theorem Apply_ReplaceAll f old new ind results f' :
  0 <= MaxMatches (file_limits f) ->
  Apply f [mkEdit old new ReplaceAll false ind] = (Ok results, f') ->
  file_text f' = replace_all (file_text f) old new /\
  results = [mkResult 0 (len (all_matches (file_text f) old))] /\
  file_meta f' = file_meta f /\ file_limits f' = file_limits f.
Proof.
  intros Hmax Ha. unfold Apply in Ha.
  destruct (planEdits _ _ _) as [[updated res]|e] eqn:E; [|done]. injection Ha as <- <-.
  apply planEdits_inv in E as (_ & Hes & _ & -> & Hsep & -> & _); [|done|done].
  apply Forall_cons in Hes as [He _]. cbn [all_spans] in *. rewrite app_nil_r in *.
  rewrite (merge_sort_separated 0 (length (file_text f))) by (by apply spans_of_separated).
  split_and!; [|done..]. cbn [file_text with_text].
  pose proof (splice_occurrences (S (length (file_text f))) (file_text f) old new 0 0 (eo_old _ _ He)
    ltac:(lia) ltac:(lia)) as Hs.
  rewrite !drop_0 in Hs. exact Hs.
Qed.

(** One edit that replaces once changes a single occurrence; no other occurrence
    follows the first without overlapping it. *)
Theorem Apply_ReplaceOnce f old new ind results f' :
  0 <= MaxMatches (file_limits f) ->
  Apply f [mkEdit old new ReplaceOnce false ind] = (Ok results, f') ->
  exists before after,
    file_text f = before ++ old ++ after /\ file_text f' = before ++ new ++ after /\
    index (file_text f) old = Some (length before) /\ index after old = None /\
    results = [mkResult 0 1].
Proof.
  intros Hmax Ha. unfold Apply in Ha.
  destruct (planEdits _ _ _) as [[updated res]|e] eqn:E; [|done]. injection Ha as <- <-.
  apply planEdits_inv in E as (_ & Hes & _ & -> & Hsep & -> & _); [|done|done].
  apply Forall_cons in Hes as [He _]. cbn [all_spans] in *. rewrite app_nil_r in *.
  rewrite (merge_sort_separated 0 (length (file_text f))) by (by apply spans_of_separated).
  pose proof (eo_once _ _ He eq_refl) as Honce. pose proof (eo_old _ _ He) as Hold.
  unfold spans_of, all_results, edit_matches, all_matches in *. cbn [Old New AdaptIndentation] in *.
  set (text := file_text f) in *. cbn [occurrences] in Honce |- *.
  destruct (index text old) as [i|] eqn:Ei; [|done].
  pose proof (index_split _ _ _ Ei) as Hsplit. pose proof (index_bound _ _ _ Ei) as Hb.
  exists (take i text), (drop (i + length old) text).
  assert (Hnext : index (drop (i + length old) text) old = None).
  { destruct (length text) as [|m] eqn:El.
    - apply index_too_short. rewrite length_drop. destruct old; [done|cbn; lia].
    - cbn [occurrences] in Honce. by destruct (index (drop (i + length old) text) old). }
  assert (Hocc : occurrences (length text) (drop (i + length old) text) old (0 + i + length old) = []).
  { destruct (length text); cbn [occurrences]; [done|]. by rewrite Hnext. }
  rewrite Hocc. split_and!; [done| | |done|done].
  - cbn [edit_spans fmap list_fmap splice span_start span_end span_replace file_text with_text Nat.add
         AdaptIndentation New Old].
    unfold slice. by rewrite Nat.sub_0_r, drop_0.
  - rewrite length_take. f_equal. lia.
Qed.

(** What a span does to the text, without the number of its edit. *)
Definition core (s : replacementSpan) : nat * nat * gostring := (span_start s, span_end s, span_replace s).

Lemma splice_core text pos a b : core <$> a = core <$> b -> splice text pos a = splice text pos b.
Proof.
  revert pos b; induction a as [|s a IH]; intros pos [|t b] Hab; try done. cbn in Hab. injection Hab as H1 H2 H3 Hab.
  cbn [splice]. rewrite H1, H2, H3. f_equal. f_equal. by apply IH.
Qed.

Lemma separated_core pos n a b : core <$> a = core <$> b -> separated pos n a -> separated pos n b.
Proof.
  revert pos b; induction a as [|s a IH]; intros pos [|t b] Hab Hs; try done. cbn in Hab. injection Hab as H1 H2 H3 Hab.
  destruct Hs as (? & ? & ? & Hs). cbn [separated]. rewrite <- H1, <- H2. split_and!; eauto.
Qed.

Definition core_le (a b : nat * nat * gostring) : Prop :=
  if decide (a.1.1 = b.1.1) then (a.1.2 <= b.1.2)%nat else (a.1.1 < b.1.1)%nat.

Lemma spans_of_core text i j e : core <$> spans_of text i e = core <$> spans_of text j e.
Proof. unfold spans_of, edit_spans. by rewrite <- !list_fmap_compose. Qed.

Lemma all_spans_core text edits edits' i j :
  edits ≡ₚ edits' -> core <$> all_spans text i edits ≡ₚ core <$> all_spans text j edits'.
Proof.
  assert (Hi : forall es i, core <$> all_spans text i es = concat ((fun e => core <$> spans_of text 0 e) <$> es)).
  { induction es as [|e es IH]; intros k; [done|]. cbn [all_spans fmap list_fmap concat].
    rewrite fmap_app, (spans_of_core text k 0 e). f_equal. apply IH. }
  intros Hp. rewrite !Hi. by rewrite Hp.
Qed.

Lemma sorted_core l : StronglySorted span_le l -> StronglySorted core_le (core <$> l).
Proof.
  induction 1 as [|s l Hl IH Hs]; cbn; constructor; [done|]. apply Forall_fmap. by eapply Forall_impl.
Qed.

Lemma match_total_perm text a b : a ≡ₚ b -> match_total text a = match_total text b.
Proof. unfold match_total. induction 1; cbn [foldr]; lia. Qed.

(** The outcome does not depend on the order in which the edits are listed. *)
Theorem planEdits_order text edits edits' limits updated results :
  0 <= MaxMatches limits -> edits ≡ₚ edits' ->
  planEdits text edits limits = Ok (updated, results) ->
  exists results', planEdits text edits' limits = Ok (updated, results').
Proof.
  intros Hmax Hp Hpl. destruct (decide (edits = [])) as [->|Hne].
  { apply Permutation_nil in Hp as ->. eauto. }
  apply planEdits_inv in Hpl as (He & Hes & Hm & -> & Hsep & -> & Hl & Hb); [|done|done].
  exists (all_results text 0 edits'). apply planEdits_inv; [done|by intros ->; apply Permutation_nil_r in Hp|].
  assert (Hcore : core <$> merge_sort span_le (all_spans text 0 edits) =
                  core <$> merge_sort span_le (all_spans text 0 edits')).
  { apply (sorted_unique_on core_le).
    - rewrite !merge_sort_Permutation. by apply all_spans_core.
    - apply sorted_core, (StronglySorted_merge_sort span_le).
    - apply sorted_core, (StronglySorted_merge_sort span_le).
    - intros x y (s & -> & Hs)%list_elem_of_fmap (t & -> & Ht)%list_elem_of_fmap H1 H2.
      f_equal. eapply separated_inj; eauto using span_le_starts. }
  cbv zeta. rewrite <- (splice_core text 0 _ _ Hcore). split_and!; try done.
  - unfold len in *. by rewrite <- Hp.
  - by rewrite <- Hp.
  - by rewrite <- (match_total_perm text edits edits').
  - by eapply separated_core.
Qed.

(** ** Properties: indentation *)

Lemma is_eol_spec c : is_eol c = true <-> c = CR \/ c = LF.
Proof. unfold is_eol. by rewrite orb_true_iff, !Ascii.eqb_eq. Qed.

(** The length of the first line of a string with its end. *)
Definition next_of (s : gostring) : nat := (replacementLine s 0).2.

Lemma replacementLine_drop v start :
  replacementLine v start =
  ((start + run_of (negb ∘ is_eol) (drop start v))%nat, (start + next_of (drop start v))%nat).
Proof.
  unfold next_of, replacementLine. rewrite !drop_0, drop_drop. cbn [Nat.add snd]. f_equal.
  destruct (drop (start + run_of (negb ∘ is_eol) (drop start v)) v) as [|c [|d l]]; [lia..|].
  destruct (_ && _); lia.
Qed.

Lemma next_of_CRLF s : next_of (CR :: LF :: s) = 2%nat. Proof. done. Qed.
Lemma next_of_LF s : next_of (LF :: s) = 1%nat.
Proof. unfold next_of, replacementLine. cbn. by destruct s. Qed.
Lemma next_of_CR s : head s <> Some LF -> next_of (CR :: s) = 1%nat.
Proof.
  intros Hs. destruct s as [|d s]; [done|].
  change (next_of (CR :: d :: s)) with (if Ascii.eqb CR CR && Ascii.eqb d LF then 2%nat else 1%nat).
  by rewrite (proj2 (Ascii.eqb_neq d LF)), andb_false_r by (intros ->; done).
Qed.
Lemma run_plain c s : c <> CR -> c <> LF ->
  run_of (negb ∘ is_eol) (c :: s) = S (run_of (negb ∘ is_eol) s).
Proof.
  intros H1 H2. cbn. destruct (is_eol c) eqn:E; [|done]. apply is_eol_spec in E. naive_solver.
Qed.
Lemma next_of_plain c s : c <> CR -> c <> LF -> next_of (c :: s) = S (next_of s).
Proof.
  intros H1 H2. unfold next_of, replacementLine. rewrite !drop_0, run_plain by done. cbn [Nat.add drop snd].
  by destruct (drop (run_of (negb ∘ is_eol) s) s) as [|x [|y l]]; [| |destruct (_ && _)].
Qed.

(** The first line the scanner of [edit.go] finds is the one of [diff.go]. *)
Lemma split_lines_first s cur :
  s <> [] \/ cur <> [] ->
  split_lines cur s =
  mkLine (cur ++ take (run_of (negb ∘ is_eol) s) s) (slice (run_of (negb ∘ is_eol) s) (next_of s) s)
  :: splitDiffLines (drop (next_of s) s).
Proof.
  revert cur. induction s as [|s IH|s Hs IH|s IH|c s H1 H2 IH] using line_scan_ind; intros cur Hne.
  - cbn. rewrite decide_False by naive_solver. by rewrite app_nil_r.
  - rewrite split_lines_CRLF, next_of_CRLF. cbn. by rewrite app_nil_r.
  - rewrite split_lines_CR, next_of_CR by done. cbn. by rewrite app_nil_r, drop_0.
  - rewrite split_lines_LF, next_of_LF. cbn. by rewrite app_nil_r, drop_0.
  - rewrite split_lines_plain, next_of_plain, run_plain by done.
    rewrite IH by (right; by destruct cur). cbn [take drop]. rewrite <- app_assoc. done.
Qed.

Lemma splitDiffLines_first s :
  s <> [] ->
  splitDiffLines s =
  mkLine (take (run_of (negb ∘ is_eol) s) s) (slice (run_of (negb ∘ is_eol) s) (next_of s) s)
  :: splitDiffLines (drop (next_of s) s).
Proof. intros Hs. unfold splitDiffLines at 1. by rewrite split_lines_first by (by left). Qed.

Lemma next_of_pos s : s <> [] -> (0 < next_of s <= length s)%nat.
Proof.
  induction s as [|s IH|s Hs IH|s IH|c s H1 H2 IH] using line_scan_ind; intros Hne; [done|..].
  - rewrite next_of_CRLF. cbn. lia.
  - rewrite next_of_CR by done. cbn. lia.
  - rewrite next_of_LF. cbn. lia.
  - rewrite next_of_plain by done. cbn. destruct s as [|d s]; [cbn; lia|]. specialize (IH ltac:(done)). cbn in *. lia.
Qed.

Lemma run_le_next s : (run_of (negb ∘ is_eol) s <= next_of s)%nat.
Proof.
  induction s as [|s IH|s Hs IH|s IH|c s H1 H2 IH] using line_scan_ind; [done|..].
  - change (run_of (negb ∘ is_eol) (CR :: LF :: s)) with 0%nat. lia.
  - change (run_of (negb ∘ is_eol) (CR :: s)) with 0%nat. lia.
  - change (run_of (negb ∘ is_eol) (LF :: s)) with 0%nat. lia.
  - rewrite next_of_plain, run_plain by done. lia.
Qed.

Definition adapt_diff_line (tc fc : Z) (ind : Indentation) (l : diffLine) : diffLine :=
  mkLine (adapt_line (line_text l) tc fc ind) (line_ending l).

(** The loop adapts the remaining lines one by one. *)
Lemma adapt_loop_lines fuel v tc fc ind next :
  (length v - next < fuel)%nat ->
  adapt_loop fuel v tc fc ind next =
  concat (line_bytes <$> (adapt_diff_line tc fc ind <$> splitDiffLines (drop next v))).
Proof.
  revert next; induction fuel as [|fuel IH]; intros next Hf; [lia|]. cbn [adapt_loop].
  destruct (Nat.ltb_spec next (length v)) as [Hn|Hn]; [|by rewrite drop_ge by lia].
  rewrite replacementLine_drop.
  assert (Hs : drop next v <> []) by (intros E; apply (f_equal length) in E; rewrite length_drop in E; cbn in E; lia).
  pose proof (next_of_pos _ Hs) as Hp. rewrite length_drop in Hp.
  rewrite (splitDiffLines_first _ Hs). cbn [fmap list_fmap concat]. unfold line_bytes at 1.
  cbn [line_text line_ending adapt_diff_line]. rewrite <- app_assoc.
  rewrite IH by lia. rewrite drop_drop. f_equal; [|f_equal].
  - f_equal. unfold slice. f_equal. lia.
  - unfold slice. rewrite drop_drop. f_equal. lia.
Qed.

(** The column at which the line of a match starts its text. *)
Definition target_columns (text : gostring) (matchStart : nat) (tabWidth : Z) : Z :=
  let lineStart := match last_index_any (take matchStart text) [CR; LF] with
                   | Some i => S i | None => O end in
  indentationColumns (leadingIndentation (drop lineStart text)) tabWidth.

Lemma index_any_run s i : index_any s [CR; LF] = Some i -> run_of (negb ∘ is_eol) s = i.
Proof.
  revert i; induction s as [|c s IH]; intros i Hi; [done|]. cbn [index_any run_of compose] in *.
  destruct (is_eol c) eqn:E; cbn [negb].
  - apply is_eol_spec in E. rewrite (proj2 (contains_byte_spec _ _)) in Hi by set_solver. naive_solver.
  - destruct (contains_byte [CR; LF] c) eqn:E2.
    + exfalso. apply contains_byte_spec in E2. assert (is_eol c = true) by (apply is_eol_spec; set_solver). congruence.
    + apply fmap_Some in Hi as (j & Hj & ->). cbn. by rewrite (IH _ Hj).
Qed.

Lemma no_eol_line s cur : Forall (.∉ [CR; LF]) s -> s <> [] \/ cur <> [] -> split_lines cur s = [mkLine (cur ++ s) []].
Proof.
  intros Hs. revert cur. induction Hs as [|c s Hc Hs IH]; intros cur Hne; cbn [split_lines].
  - rewrite decide_False by naive_solver. by rewrite app_nil_r.
  - rewrite !(proj2 (Ascii.eqb_neq c _)) by set_solver.
    rewrite IH by (right; by destruct cur). by rewrite <- app_assoc.
Qed.

Lemma adapt_lines text start replacement ind first rest :
  splitDiffLines replacement = first :: rest ->
  let n := normalized ind in
  let tc := target_columns text start (TabWidth n) in
  let fc := indentationColumns (leadingIndentation (line_text first)) (TabWidth n) in
  adaptReplacementIndentation text start replacement ind =
  concat (line_bytes <$> first :: (adapt_diff_line tc fc n <$> rest)).
Proof.
  intros Hl n tc fc. assert (Hne : replacement <> []) by (intros ->; done).
  unfold adaptReplacementIndentation. destruct (index_any replacement [CR; LF]) as [fe|] eqn:E; cycle 1.
  - apply index_any_None in E. unfold splitDiffLines in Hl.
    rewrite no_eol_line in Hl by (done || by left). injection Hl as <- <-. cbn.
    unfold line_bytes. cbn. by rewrite !app_nil_r.
  - apply index_any_run in E. rewrite replacementLine_drop, drop_0. cbn [Nat.add].
    rewrite (splitDiffLines_first _ Hne) in Hl. injection Hl as Hfirst Hrest.
    rewrite adapt_loop_lines by lia. rewrite Hrest. cbn [fmap list_fmap concat]. f_equal.
    + rewrite <- Hfirst. unfold line_bytes. cbn [line_text line_ending].
      pose proof (next_of_pos _ Hne).
      pose proof (run_le_next replacement).
      rewrite <- (take_drop (run_of (negb ∘ is_eol) replacement) (take _ replacement)).
      rewrite take_take. unfold slice. f_equal; [f_equal; lia|]. by rewrite skipn_firstn_comm.
    + subst fc tc. unfold target_columns. fold n.
      assert (line_text first = take fe replacement) as -> by (by rewrite <- Hfirst, <- E).
      unfold leadingIndentation at 2, slice.
      match goal with |- context [take (?a + ?b - ?a) _] => replace (a + b - a)%nat with b by lia end. done.
Qed.

(** *** Columns *)

Definition columns_from (tabWidth c : Z) (s : gostring) : Z :=
  foldl (fun c b => column_step tabWidth c (code b)) c s.

Definition blank (s : gostring) : Prop := Forall (fun c => is_blank c = true) s.

Lemma is_blank_spec c : is_blank c = true <-> c = SP \/ c = TAB.
Proof. unfold is_blank. by rewrite orb_true_iff, !Ascii.eqb_eq. Qed.

Lemma blank_ascii s : blank s -> Forall (fun c => code c < 128) s.
Proof. intros Hs. eapply Forall_impl; [exact Hs|]. intros c [-> | ->]%is_blank_spec; done. Qed.

Lemma indentationColumns_blank s w : blank s -> indentationColumns s w = columns_from w 0 s.
Proof.
  intros Hs. unfold indentationColumns. rewrite runes_ascii.
  - unfold columns_from. generalize 0. induction Hs as [|c s Hc Hs IH]; intros z; [done|]. cbn. apply IH.
  - eapply Forall_impl; [by apply blank_ascii|]. intros c Hc. by apply Z.ltb_lt.
Qed.

Lemma leading_blank line : blank (leadingIndentation line).
Proof.
  unfold leadingIndentation. induction line as [|c l IH]; [constructor|]. cbn [run_of].
  destruct (is_blank c) eqn:E; [|constructor]. cbn [take]. by constructor.
Qed.

Lemma leading_app_content s line :
  blank s -> leadingIndentation (s ++ drop (length (leadingIndentation line)) line) = s.
Proof.
  intros Hs. assert (Hc : run_of is_blank (drop (length (leadingIndentation line)) line) = 0%nat).
  { unfold leadingIndentation. induction line as [|c l IH]; [done|]. cbn [run_of].
    destruct (is_blank c) eqn:E; [exact IH|]. cbn. by rewrite E. }
  unfold leadingIndentation at 1. induction Hs as [|c s E Hs IH]; [by rewrite app_nil_l, Hc|].
  cbn [app run_of]. rewrite E. cbn [take]. by rewrite IH.
Qed.

Lemma columns_spaces w c n : columns_from w c (replicate n SP) = c + Z.of_nat n.
Proof.
  revert c; induction n as [|n IH]; intros c; cbn [replicate columns_from foldl]; [lia|].
  fold (columns_from w (column_step w c (code SP)) (replicate n SP)). rewrite IH.
  change (column_step w c (code SP)) with (c + 1). lia.
Qed.

Lemma columns_tabs w q n : 0 < w -> 0 <= q -> columns_from w (q * w) (replicate n TAB) = (q + Z.of_nat n) * w.
Proof.
  intros Hw. revert q; induction n as [|n IH]; intros q Hq; cbn [replicate columns_from foldl]; [lia|].
  fold (columns_from w (column_step w (q * w) (code TAB)) (replicate n TAB)).
  change (column_step w (q * w) (code TAB)) with (q * w + (w - Z.rem (q * w) w)).
  rewrite Z.rem_mul by lia. replace (q * w + (w - 0)) with ((q + 1) * w) by lia. rewrite IH by lia. lia.
Qed.

Lemma columns_from_app w c a b : columns_from w c (a ++ b) = columns_from w (columns_from w c a) b.
Proof. unfold columns_from. by rewrite foldl_app. Qed.

Lemma render_blank n ind : blank (renderIndentation n ind).
Proof.
  unfold renderIndentation, repeat_byte, blank. repeat case_match; rewrite ?Forall_app; split_and?;
    try constructor; apply Forall_replicate; done.
Qed.

(** Rendering an indentation produces exactly the columns asked for. *)
Lemma columns_render n ind :
  0 <= n -> 0 < TabWidth ind -> indentationColumns (renderIndentation n ind) (TabWidth ind) = n.
Proof.
  intros Hn Hw. rewrite indentationColumns_blank by apply render_blank.
  unfold renderIndentation, repeat_byte. destruct (Z.leb_spec n 0) as [H0|H0]; [cbn; lia|].
  case_decide.
  - rewrite columns_from_app. pose proof (Z.quot_pos n (TabWidth ind) ltac:(lia) ltac:(lia)).
    pose proof (columns_tabs (TabWidth ind) 0 (Z.to_nat (Z.quot n (TabWidth ind))) Hw ltac:(lia)) as Ht.
    rewrite Z.mul_0_l in Ht. rewrite Ht, columns_spaces.
    pose proof (Z.quot_rem n (TabWidth ind) ltac:(lia)).
    pose proof (Z.rem_bound_pos n (TabWidth ind) ltac:(lia) ltac:(lia)). nia.
  - rewrite columns_spaces. lia.
Qed.

(** The text of a line after its indentation. *)
Definition content (line : gostring) : gostring := drop (length (leadingIndentation line)) line.

Lemma normalized_width ind : 0 < TabWidth (normalized ind).
Proof.
  unfold normalized. cbn [TabWidth].
  destruct ((TabWidth ind <? 1) || _) eqn:E1; [|bool_props; lia].
  destruct ((IndentSize ind <? 1) || _) eqn:E2; [by vm_compute|]. bool_props. lia.
Qed.

Lemma content_nil line : content line = [] <-> (length line <= length (leadingIndentation line))%nat.
Proof.
  unfold content. split; [|intros; by apply drop_ge].
  intros E. apply (f_equal length) in E. rewrite length_drop in E. cbn in E. lia.
Qed.

Lemma adapt_line_spec line tc fc ind :
  0 < TabWidth ind ->
  content (adapt_line line tc fc ind) = content line /\
  (content line = [] -> adapt_line line tc fc ind = []) /\
  (content line <> [] ->
     indentationColumns (leadingIndentation (adapt_line line tc fc ind)) (TabWidth ind) =
     Z.max 0 (tc + (indentationColumns (leadingIndentation line) (TabWidth ind) - fc))).
Proof.
  intros Hw. unfold adapt_line.
  destruct (Nat.ltb_spec (length (leadingIndentation line)) (length line)) as [Hl|Hl]; cycle 1.
  - apply content_nil in Hl. by rewrite Hl.
  - set (d := if _ <? 0 then 0 else _). fold (content line).
    assert (Hlead : leadingIndentation (renderIndentation d ind ++ content line) = renderIndentation d ind)
      by (apply leading_app_content, render_blank).
    rewrite Hlead. split_and!.
    + unfold content at 1. by rewrite Hlead, drop_app_length.
    + intros E. apply content_nil in E. lia.
    + intros _. assert (d = Z.max 0 (tc + (indentationColumns (leadingIndentation line) (TabWidth ind) - fc))) as ->.
      { unfold d. destruct (Z.ltb_spec (tc + (indentationColumns (leadingIndentation line) (TabWidth ind) - fc)) 0); lia. }
      apply columns_render; lia.
Qed.

(** Adapting a replacement keeps its first line, every line end and the text of
    every line. All continuation lines that are not blank move by the same number
    of columns, from the indentation of the replacement's first line to that of
    the matched line, but not beyond the left margin; blank ones become empty. *)
Theorem adapt_shifts text start replacement ind first rest :
  splitDiffLines replacement = first :: rest ->
  let w := TabWidth (normalized ind) in
  let shift := target_columns text start w - indentationColumns (leadingIndentation (line_text first)) w in
  exists rest',
    adaptReplacementIndentation text start replacement ind = concat (line_bytes <$> first :: rest') /\
    Forall2 (fun l l' =>
      line_ending l' = line_ending l /\ content (line_text l') = content (line_text l) /\
      (content (line_text l) = [] -> line_text l' = []) /\
      (content (line_text l) <> [] ->
         indentationColumns (leadingIndentation (line_text l')) w =
         Z.max 0 (indentationColumns (leadingIndentation (line_text l)) w + shift))) rest rest'.
Proof.
  intros Hl w shift. rewrite (adapt_lines _ _ _ _ _ _ Hl). cbv zeta. eexists. split; [done|].
  apply Forall2_fmap_r, Forall_Forall2_diag, Forall_forall. intros l _.
  pose proof (normalized_width ind) as Hw. fold w.
  destruct (adapt_line_spec (line_text l) (target_columns text start w)
    (indentationColumns (leadingIndentation (line_text first)) w) (normalized ind) Hw) as (H1 & H2 & H3).
  cbn [adapt_diff_line line_text line_ending]. split_and!; [done|done|done|].
  intros Hc. etrans; [exact (H3 Hc)|]. unfold shift. fold w. lia.
Qed.

Definition sample_indent : Indentation := mkIndentation IndentStyleSpace 4 4.
Definition sample_match : gostring := "  x()" ++ [LF].
Definition sample_replacement : gostring := "if a {" ++ [LF] ++ "  b" ++ [LF] ++ "}".

Lemma adapt_shifts_witness :
  adaptReplacementIndentation sample_match 2 sample_replacement sample_indent =
    "if a {" ++ [LF] ++ "    b" ++ [LF] ++ "  }" /\
  exists rest', adaptReplacementIndentation sample_match 2 sample_replacement sample_indent =
    concat (line_bytes <$> mkLine "if a {" [LF] :: rest').
Proof.
  split; [vm_compute; reflexivity|].
  destruct (adapt_shifts sample_match 2 sample_replacement sample_indent (mkLine "if a {" [LF])
              [mkLine "  b" [LF]; mkLine "}" []] ltac:(vm_compute; reflexivity)) as (rest' & E & _).
  exists rest'. exact E.
Defined.

(** ** Properties: files stay well formed *)

Lemma code_CR : code CR < 128. Proof. done. Qed.
Lemma code_LF : code LF < 128. Proof. done. Qed.

Lemma split_lines_valid s cur :
  utf8_valid (cur ++ s) = true -> Forall (fun l => utf8_valid (line_text l) = true) (split_lines cur s).
Proof.
  revert cur. induction s as [|s IH|s Hs IH|s IH|c s H1 H2 IH] using line_scan_ind; intros cur Hv.
  - cbn. case_decide; constructor; [|done]. by rewrite app_nil_r in Hv.
  - rewrite split_lines_CRLF. apply (utf8_valid_ascii _ _ _ code_CR) in Hv as [Hc Hv].
    apply (utf8_valid_ascii [] _ _ code_LF) in Hv as [_ Hv]. constructor; [done|]. by apply IH.
  - rewrite split_lines_CR by done. apply (utf8_valid_ascii _ _ _ code_CR) in Hv as [Hc Hv].
    constructor; [done|]. by apply IH.
  - rewrite split_lines_LF. apply (utf8_valid_ascii _ _ _ code_LF) in Hv as [Hc Hv].
    constructor; [done|]. by apply IH.
  - rewrite split_lines_plain by done. apply IH. by rewrite <- app_assoc.
Qed.

Lemma valid_blank s : blank s -> utf8_valid s = true.
Proof. intros Hs. by apply utf8_valid_all_ascii, blank_ascii. Qed.

Lemma adapt_line_valid line tc fc ind :
  utf8_valid line = true -> utf8_valid (adapt_line line tc fc ind) = true.
Proof.
  intros Hv. unfold adapt_line. destruct (_ <? _)%nat; [|done].
  apply utf8_valid_app_true; [apply valid_blank, render_blank|].
  assert (Hl : line = leadingIndentation line ++ drop (length (leadingIndentation line)) line).
  { unfold leadingIndentation at 1. rewrite <- (take_drop (run_of is_blank line) line) at 1. f_equal. f_equal.
    unfold leadingIndentation. rewrite length_take. clear. induction line as [|c l IH]; [done|].
    cbn [run_of]. destruct (is_blank c); cbn; lia. }
  rewrite Hl in Hv. by rewrite utf8_valid_app in Hv by apply valid_blank, leading_blank.
Qed.

Lemma line_end_ok ls l : lines_ok ls -> l ∈ ls -> Forall (fun c => code c < 128) (line_ending l).
Proof.
  induction 1 as [|t Ht|t e ls ? He Hls IH]; [by intros ?%elem_of_nil|intros ->%list_elem_of_singleton; constructor|].
  intros [->|?]%elem_of_cons; [|auto]. cbn. destruct He as [->|[->| ->]]; repeat constructor; done.
Qed.

Lemma adapt_valid text start replacement ind :
  utf8_valid replacement = true -> utf8_valid (adaptReplacementIndentation text start replacement ind) = true.
Proof.
  intros Hv. destruct (splitDiffLines replacement) as [|first rest] eqn:E.
  { assert (replacement = []) as -> by (by rewrite <- (splitDiffLines_concat replacement), E). done. }
  rewrite (adapt_lines _ _ _ _ _ _ E). cbv zeta.
  pose proof (split_lines_valid replacement [] Hv) as Hlines. fold (splitDiffLines replacement) in Hlines.
  pose proof (splitDiffLines_ok replacement) as Hok.
  assert (Hend : forall l, l ∈ splitDiffLines replacement -> utf8_valid (line_ending l) = true).
  { intros l Hl. apply utf8_valid_all_ascii. by eapply line_end_ok. }
  rewrite E in *. apply Forall_cons in Hlines as [Hf Hr].
  cbn [fmap list_fmap concat]. apply utf8_valid_app_true.
  { apply utf8_valid_app_true; [done|apply Hend; by left]. }
  assert (Hend' : forall l, l ∈ rest -> utf8_valid (line_ending l) = true) by (intros; apply Hend; by right).
  clear -Hr Hend'. induction Hr as [|l ls Hl Hr IH]; [done|]. cbn [fmap list_fmap concat].
  apply utf8_valid_app_true; [|apply IH; intros; apply Hend'; by right].
  apply utf8_valid_app_true; [by apply adapt_line_valid|exact (Hend' l ltac:(by left))].
Qed.

(** Splicing valid text for matches of valid text keeps the whole valid. *)
Lemma splice_valid text pos spans :
  separated pos (length text) spans -> utf8_valid (drop pos text) = true ->
  Forall (fun s => utf8_valid (slice (span_start s) (span_end s) text) = true /\
                   utf8_valid (span_replace s) = true) spans ->
  utf8_valid (splice text pos spans) = true.
Proof.
  intros Hs Hv Hf. revert pos Hs Hv. induction Hf as [|s spans [Hm Hr] Hf IH]; intros pos Hs Hv; [done|].
  destruct Hs as (H1 & H2 & H3 & Hs). cbn [splice].
  rewrite (slice_of_drop pos (span_start s) (span_end s)) in Hv by lia.
  destruct (utf8_valid_around _ _ _ Hv Hm) as [Hv1 Hv2].
  - intros E. apply (f_equal length) in E. rewrite slice_length in E by lia. cbn in E. lia.
  - apply utf8_valid_app_true; [done|]. apply utf8_valid_app_true; [done|]. by apply IH.
Qed.

(** The state of a [File] between operations. *)
Record file_ok (f : File) : Prop := {
  fo_limits : limits_ok (file_limits f);
  fo_size : len (file_text f) <= MaxDecodedBytes (file_limits f);
  fo_valid : utf8_valid (file_text f) = true;
  fo_text : isBinary (file_text f) = false
}.

Lemma Apply_preserves f edits : file_ok f -> file_ok (Apply f edits).2.
Proof.
  intros [Hl Hsz Hv Ht]. unfold Apply.
  destruct (planEdits (file_text f) edits (file_limits f)) as [[updated results]|e] eqn:E; [|done].
  destruct (decide (edits = [])) as [->|Hne].
  { unfold planEdits in E. apply guard_Ok in E as [_ E]. injection E as <- <-. done. }
  pose proof (lo_matches _ Hl). apply planEdits_inv in E as (_ & Hes & _ & _ & Hsep & -> & Hlen & Hb); [|lia|done].
  split; cbn [snd file_limits file_text with_text]; try done.
  apply splice_valid; [done|by rewrite drop_0|]. rewrite merge_sort_Permutation.
  apply Forall_forall. intros s Hs. destruct (all_spans_in _ _ _ _ Hes Hs) as (k & e & He & Hin).
  rewrite Forall_lookup in Hes. specialize (Hes _ _ He).
  destruct (edit_spans_in _ _ _ _ Hes Hin) as (_ & -> & _ & ->). split; [by apply Hes|].
  destruct (AdaptIndentation e); [apply adapt_valid|]; by apply Hes.
Qed.

Section reachable.
Context `{XText, ScriptTables}.

Lemma Decode_file_ok data limits f : Decode data limits = Ok f -> file_ok f.
Proof.
  intros (meta & Hl & _ & Hdec & Hbin & Hdet & _)%Decode_inv. split; [done..| |done].
  apply detectAndDecode_Ok in Hdet as [_ ?]; [done|]. pose proof (lo_decoded _ Hl). lia.
Qed.

(** The files a program can hold: decoded, then edited any number of times, where
    failing edits included. *)
Inductive reachable : File -> Prop :=
  | reachable_decode data limits f : Decode data limits = Ok f -> reachable f
  | reachable_apply f edits : reachable f -> reachable (Apply f edits).2.

(** Every reachable file is within its limits, valid UTF-8 and not binary. *)
Theorem reachable_file_ok f : reachable f -> file_ok f.
Proof. induction 1; [by eapply Decode_file_ok|by apply Apply_preserves]. Qed.


End reachable.

(** *** Witnesses *)

Definition sample_edits : list Edit :=
  [mkEdit "ca" "te" ReplaceOnce false sample_indent; mkEdit "f" [SP; TAB] ReplaceAll true sample_indent].

Lemma reachable_file_ok_witness :
  @reachable latin1_xtext no_scripts (Apply sample_file sample_edits).2 /\
  file_ok (Apply sample_file sample_edits).2.
Proof.
  assert (Hr : @reachable latin1_xtext no_scripts (Apply sample_file sample_edits).2)
    by (apply reachable_apply; eapply reachable_decode; exact Decode_sample).
  split; [exact Hr|]. exact (@reachable_file_ok latin1_xtext no_scripts _ Hr).
Defined.

Definition sample_text : gostring := "aXbXa".

Definition edit_file (text : gostring) : File :=
  mkFile text (mkMetadata EncodingUTF8 BOMNone NewlineNone NewlineNone 0 0 0 (Float64.of_Z 1)) sample_limits.

Lemma Apply_ReplaceAll_witness :
  file_text (Apply (edit_file "aXbXa") [mkEdit "X" "--" ReplaceAll false sample_indent]).2 = "a--b--a".
Proof.
  assert (E : Apply (edit_file "aXbXa") [mkEdit "X" "--" ReplaceAll false sample_indent] =
              (Ok [mkResult 0 2], edit_file "a--b--a")) by (vm_compute; reflexivity).
  rewrite E. refine (eq_trans (proj1 (Apply_ReplaceAll _ _ _ _ _ _ _ E)) _); vm_compute; (reflexivity || discriminate).
Defined.

Lemma Apply_ReplaceOnce_witness :
  exists before after, "aaXb" = before ++ "X" ++ after /\ "aaYb" = before ++ "Y" ++ after.
Proof.
  assert (E : Apply (edit_file "aaXb") [mkEdit "X" "Y" ReplaceOnce false sample_indent] =
              (Ok [mkResult 0 1], edit_file "aaYb")) by (vm_compute; reflexivity).
  destruct (Apply_ReplaceOnce (edit_file "aaXb") "X" "Y" sample_indent _ _ ltac:(vm_compute; discriminate) E)
    as (b & a & H1 & H2 & _). exists b, a. exact (conj H1 H2).
Defined.

Lemma planEdits_order_witness :
  exists results, planEdits (file_text sample_file) (rev sample_edits) sample_limits =
    Ok ("te" ++ [SP; TAB] ++ [byte_of 0xc3; byte_of 0xa9; CR; LF], results).
Proof.
  eapply (planEdits_order (file_text sample_file) sample_edits).
  - vm_compute. discriminate.
  - apply Permutation_swap.
  - vm_compute. reflexivity.
Defined.

