(* ===== verification/Token.v ===== *)
(** * What the signed tokens share: keys, JSON payloads, hashes and workspace paths

    Every token is [version.payload.signature] (or [payload.mac]) in base64url;
    the payload is the JSON of its claims. Ed25519 and [encoding/json] are classes
    with the laws their documentation gives. *)
From S2P Require Import Prelude GoStrings Strconv Base64 Utf8 GoPath.
#[local] Open Scope Z_scope.

(** ** [crypto/ed25519] *)
Class Ed25519 := {
  ed_from_seed : gostring -> gostring;
  ed_public : gostring -> gostring;
  ed_sign : gostring -> gostring -> gostring;
  ed_verify : gostring -> gostring -> gostring -> bool
}.

Class Ed25519Laws `{Ed25519} := {
  ed_seed_length s : length s = 32%nat -> length (ed_from_seed s) = 64%nat;
  ed_public_length k : length k = 64%nat -> length (ed_public k) = 32%nat;
  ed_sign_length k m : length k = 64%nat -> length (ed_sign k m) = 64%nat;
  ed_verify_sign s m : length s = 32%nat ->
    ed_verify (ed_public (ed_from_seed s)) m (ed_sign (ed_from_seed s) m) = true
}.

(** ** [crypto/sha256] and [crypto/hmac] *)
Class Crypto := {
  sha256 : gostring -> gostring;
  hmac_sha256 : gostring -> gostring -> gostring
}.

(** Both yield 32 bytes. *)
Class CryptoLaws `{Crypto} := {
  sha256_length s : length (sha256 s) = 32%nat;
  hmac_length k s : length (hmac_sha256 k s) = 32%nat
}.

(** ** JSON of a claims type

    [marshal] is [json.Marshal]; [decode_strict] is [protocol.DecodeStrict] into a
    zero value (unknown or duplicate fields and trailing data are refused). *)
Class Json (A : Type) := {
  marshal : A -> option gostring;
  decode_strict : gostring -> option A
}.

(** What is written is read back when its strings are valid UTF-8
    ([json.Marshal] replaces invalid bytes by U+FFFD). *)
Class JsonLaws (A : Type) (textual : A -> Prop) `{Json A} := {
  decode_marshal a s : textual a -> marshal a = Some s -> decode_strict s = Some a
}.

(** ** Canonical base64 and hashes *)

Definition decodeCanonicalBase64 (value : gostring) : option gostring :=
  match b64_decode value with
  | Some decoded => if negb (bool_decide (b64_encode decoded = value)) then None else Some decoded
  | None => None
  end.

Lemma decodeCanonicalBase64_encode s : decodeCanonicalBase64 (b64_encode s) = Some s.
Proof. unfold decodeCanonicalBase64. rewrite b64_decode_encode. by rewrite bool_decide_eq_true_2. Qed.

Lemma decodeCanonicalBase64_Some v d : decodeCanonicalBase64 v = Some d <-> v = b64_encode d.
Proof.
  split; [|intros ->; apply decodeCanonicalBase64_encode].
  unfold decodeCanonicalBase64. destruct (b64_decode v) as [x|]; [|done].
  case_bool_decide; cbn; [|done]. congruence.
Qed.

Section hashes.
Context `{UnicodeTables}.

(** 64 lowercase hexadecimal digits. *)
Definition validSHA256 (value : gostring) : bool :=
  (len value =? 64) && bool_decide (to_lower value = value) && hex_decodes value.

Definition optional_SHA256 (value : gostring) : bool := bool_decide (value = []) || validSHA256 value.

End hashes.

(** ** [NormalizePath] *)

Inductive path_error := NotRelative | Escapes.

Definition NormalizePath (raw : gostring) : result path_error gostring :=
  reject bool_decide (raw = []) || is_rooted raw || contains_byte raw NUL with NotRelative;
  let cleaned := clean raw in
  reject bool_decide (cleaned = DOTDOT) || has_prefix cleaned (DOTDOT ++ [SLASH]) with Escapes;
  Ok cleaned.

Definition is_normalized (p : gostring) : bool :=
  match NormalizePath p with Ok q => bool_decide (q = p) | Err _ => false end.

(** The components a cleaned relative path does not have: none is [..]. *)
Definition inside (p : gostring) : Prop := is_rooted p = false /\ DOTDOT ∉ comps_of p.

Lemma clean_escapes p :
  is_rooted p = false ->
  bool_decide (clean p = DOTDOT) || has_prefix (clean p) (DOTDOT ++ [SLASH]) = true <->
  DOTDOT ∈ comps_of p.
Proof.
  intros Hr. rewrite comps_of_dotdot, clean_relative by done.
  rewrite orb_true_iff, bool_decide_eq_true, has_prefix_spec.
  pose proof (comps_of_proper p) as Hp. split.
  - case_decide as Hn; [intros [?|[r ?]]; discriminate|].
    intros Hc. rewrite <- (split_join_proper (comps_of p)) by done.
    destruct Hc as [->|[r ->]]; [by exists []|].
    rewrite <- app_assoc. cbn [app]. rewrite (split_byte_app SLASH DOTDOT r). by eexists.
  - intros [r Hc]. rewrite Hc. destruct r as [|w r]; [by left|].
    right. cbn. by eexists.
Qed.

Lemma NormalizePath_Ok raw p :
  NormalizePath raw = Ok p <-> raw <> [] /\ NUL ∉ raw /\ inside raw /\ p = clean raw.
Proof.
  assert (Hz : contains_byte raw NUL = false <-> NUL ∉ raw)
    by (by rewrite <- not_true_iff_false, contains_byte_spec).
  unfold NormalizePath. rewrite !guard_Ok, !(orb_false_iff (_ || _)), orb_false_iff, bool_decide_eq_false, Hz.
  unfold inside. destruct (is_rooted raw) eqn:Hr; [naive_solver|].
  rewrite <- clean_escapes, not_true_iff_false by done.
  generalize (bool_decide (clean raw = DOTDOT) || has_prefix (clean raw) (DOTDOT ++ [SLASH])). intros b.
  intuition congruence.
Qed.

Lemma clean_nonempty p : clean p <> [].
Proof.
  pose proof (comps_of_proper p) as Hp. unfold clean. fold (comps_of p). destruct (is_rooted p); [done|].
  case_decide; [done|]. destruct Hp as [|c cs (Hn & _) _]; [done|]. destruct c; [done|]. by destruct cs.
Qed.

Lemma NormalizePath_clean raw p : NormalizePath raw = Ok p -> NormalizePath p = Ok p.
Proof.
  rewrite !NormalizePath_Ok. intros (Hn & Hz & (Hr & Hd) & ->). split_and!.
  - apply clean_nonempty.
  - intros [?|[?|?]]%clean_bytes; [done|discriminate..].
  - split; [by rewrite is_rooted_clean|by rewrite comps_of_clean].
  - by rewrite clean_idemp.
Qed.

Lemma is_normalized_spec p : is_normalized p = true <-> NormalizePath p = Ok p.
Proof.
  unfold is_normalized. destruct (NormalizePath p) as [q|]; [|done].
  rewrite bool_decide_eq_true. naive_solver.
Qed.

(** [NormalizePath] accepts exactly the non-empty relative paths without NUL that
    do not climb out of the directory they start in, and returns their cleaned
    form, a fixed point: joined to any root directory it names something below that
    root, its components following those of the root. *)
Theorem NormalizePath_inside raw p :
  (NormalizePath raw = Ok p <->
     raw <> [] /\ is_rooted raw = false /\ NUL ∉ raw /\ DOTDOT ∉ comps_of raw /\ p = clean raw) /\
  (NormalizePath raw = Ok p -> NormalizePath p = Ok p /\
     forall root, is_rooted root = true -> comps_of (root ++ SLASH :: p) = comps_of root ++ comps_of p).
Proof.
  split; [rewrite NormalizePath_Ok; unfold inside; tauto|].
  intros H. split; [by eapply NormalizePath_clean|]. intros root Hroot.
  apply NormalizePath_clean, NormalizePath_Ok in H as (_ & _ & [Hr Hd] & Hc). by apply comps_of_join.
Qed.

Lemma NormalizePath_inside_witness :
  NormalizePath "src/./a/../main.go" = Ok ("src/main.go" : gostring) /\
  comps_of "/home/me/ws/src/main.go" = ["home"; "me"; "ws"; "src"; "main.go"].
Proof.
  destruct (NormalizePath_inside "src/./a/../main.go" "src/main.go") as [Hiff Hin].
  assert (H : NormalizePath "src/./a/../main.go" = Ok ("src/main.go" : gostring)) by (vm_compute; reflexivity).
  split; [exact H|]. etransitivity; [exact (proj2 (Hin H) "/home/me/ws" eq_refl)|vm_compute; reflexivity].
Defined.

(** ** A concrete scheme for the witnesses: the signature is readable from the key *)
Definition toy_signature (p m : gostring) : gostring := take 64 (p ++ m ++ replicate 64 NUL).

Definition toy_ed : Ed25519 := {|
  ed_from_seed s := s ++ s;
  ed_public k := take 32 k;
  ed_sign k m := toy_signature (take 32 k) m;
  ed_verify p m s := bool_decide (s = toy_signature p m)
|}.

Lemma toy_ed_laws : @Ed25519Laws toy_ed.
Proof.
  split; cbn; intros.
  - rewrite length_app. lia.
  - rewrite length_take. lia.
  - unfold toy_signature. rewrite length_take, !length_app, length_replicate. lia.
  - by apply bool_decide_eq_true.
Qed.

(** A stand-in with the lengths of the real functions. *)
Definition toy_crypto : Crypto := {|
  sha256 s := take 32 (s ++ replicate 32 NUL);
  hmac_sha256 k s := take 32 (reverse (k ++ s) ++ replicate 32 NUL)
|}.

Lemma toy_crypto_laws : @CryptoLaws toy_crypto.
Proof.
  split; intros; cbn [sha256 hmac_sha256 toy_crypto]; rewrite length_take, length_app, length_replicate; lia.
Qed.

(** A codec that knows one value. *)
Definition one_json {A} `{EqDecision A} (sample : A) : Json A := {|
  marshal a := if decide (a = sample) then Some ("{}" : gostring) else None;
  decode_strict s := if decide (s = ("{}" : gostring)) then Some sample else None
|}.

Lemma one_json_laws {A} `{EqDecision A} (sample : A) textual : @JsonLaws A textual (one_json sample).
Proof. split. cbn. intros a s _. case_decide; [|done]. intros [= <-]. subst. done. Qed.
