(* ===== verification/Policy.v ===== *)
(** * Policy decisions and layers ([internal/policy]) *)
From S2P Require Import Prelude GoStrings Utf8 GoPath.
#[local] Open Scope Z_scope.

Record Decision := mkDecision { Allowed : bool; Approval : bool; PolicyID : gostring }.

#[export] Instance Decision_eq_dec : EqDecision Decision.
Proof. solve_decision. Defined.

Record Config := mkConfig {
  MaxReadBytes : Z; MaxScanBytes : Z; MaxWriteBytes : Z;
  DeniedNames : list gostring;
  AllowWrite : bool; AllowNetwork : bool; AllowRemote : bool;
  AllowExec : bool; AllowDebug : bool; AllowMem : bool
}.

(** A policy layer; [None] is an absent field. *)
Record Document := mkDocument {
  d_Version : gostring;
  d_AllowWrite : option bool; d_AllowNetwork : option bool; d_AllowRemote : option bool;
  d_AllowExec : option bool; d_AllowDebug : option bool; d_AllowMem : option bool;
  d_MaxReadBytes : option Z; d_MaxScanBytes : option Z; d_MaxWriteBytes : option Z;
  d_DeniedNames : list gostring
}.

Definition default_denied : list gostring := [".env"; "id_rsa"; "id_ed25519"; ".aws"; ".ssh"; ".gnupg"].

Definition read_tools : list gostring :=
  ["read_file"; "multi_read"; "list_dir"; "checksum"; "file_info"; "glob"; "grep"; "diff"].
Definition write_tools : list gostring := ["write_file"; "edit"; "multi_edit"].
Definition fetch_tools : list gostring := ["web_fetch"; "upload"].
Definition remote_tools : list gostring :=
  ["ssh_exec"; "sftp_list"; "sftp_read"; "sftp_write"; "sftp_mkdir"; "sftp_rename"].
Definition exec_tools : list gostring := ["exec_run"; "process_start"; "process_status"; "process_stop"].
Definition debug_tools : list gostring := ["debug_status"; "debug_signal"].

Section policy.
Context `{UnicodeTables}.

(** The loop of [New] over the default names. *)
Definition add_defaults (seen : gset gostring) (names : list gostring) : list gostring :=
  foldl (fun acc name => if decide (name ∈ seen) then acc else acc ++ [name]) names default_denied.

Definition New (c : Config) : Config :=
  mkConfig
    (if MaxReadBytes c <=? 0 then Z.shiftl 1 20 else MaxReadBytes c)
    (if MaxScanBytes c <=? 0 then Z.shiftl 64 20 else MaxScanBytes c)
    (if MaxWriteBytes c <=? 0 then Z.shiftl 1 20 else MaxWriteBytes c)
    (add_defaults (list_to_set (to_lower <$> DeniedNames c)) (DeniedNames c))
    (AllowWrite c) (AllowNetwork c) (AllowRemote c) (AllowExec c) (AllowDebug c) (AllowMem c).

(** One round of the loop over the denied names; [filepath.ToSlash] changes
    nothing where the separator is a slash. *)
Definition name_matches (path n : gostring) : bool :=
  let n := to_lower n in
  bool_decide (to_lower (base path) = n) ||
  contains ([SLASH] ++ to_lower path ++ [SLASH]) ([SLASH] ++ n ++ [SLASH]).

Definition deny (id : gostring) : Decision := mkDecision false false id.

Definition decide_tool (cfg : Config) (tool : gostring) : Decision :=
  if decide (tool ∈ read_tools) then mkDecision true false "allow-workspace-read"
  else if decide (tool ∈ write_tools) then
    if negb (AllowWrite cfg) then deny "deny-write-disabled"
    else mkDecision true true "approve-workspace-write"
  else if decide (tool ∈ fetch_tools) then
    if negb (AllowNetwork cfg) then deny "deny-network-disabled"
    else mkDecision true (bool_decide (tool = "upload")) "allow-network-profile"
  else if decide (tool = "download") then
    if negb (AllowNetwork cfg) then deny "deny-network-disabled"
    else if negb (AllowWrite cfg) then deny "deny-write-disabled"
    else mkDecision true true "approve-network-download"
  else if decide (tool ∈ remote_tools) then
    if negb (AllowRemote cfg) then deny "deny-remote-disabled"
    else mkDecision true (bool_decide (tool <> "sftp_list") && bool_decide (tool <> "sftp_read"))
           "allow-remote-profile"
  else if decide (tool ∈ exec_tools) then
    if negb (AllowExec cfg) then deny "deny-exec-disabled"
    else mkDecision true (bool_decide (tool = "process_stop")) "allow-exec-profile"
  else if decide (tool ∈ debug_tools) then
    if negb (AllowDebug cfg) then deny "deny-debug-disabled"
    else mkDecision true (bool_decide (tool = "debug_signal")) "allow-debug-profile"
  else if decide (tool = "mem_scan") then
    if negb (AllowMem cfg) then deny "deny-mem-disabled"
    else mkDecision true true "allow-mem-profile"
  else deny "deny-unknown-tool".

Definition Evaluate (cfg : Config) (tool path : gostring) : Decision :=
  if existsb (name_matches path) (DeniedNames cfg) then deny "deny-sensitive-path"
  else decide_tool cfg tool.

(** *** Layers *)

Definition restrict_flag (base : bool) (d : option bool) : bool :=
  match d with Some false => false | _ => base end.

Definition restrict_limit (base : Z) (d : option Z) : Z :=
  match d with
  | Some v => if (base <=? 0) || (v <? base) then v else base
  | None => base
  end.

(** The loop over the names of a document, with the set [seen]. *)
Fixpoint add_names (names : list gostring) (seen : gset gostring) (acc : list gostring) : list gostring :=
  match names with
  | [] => acc
  | name :: names' =>
      if decide (to_lower name ∈ seen) then add_names names' seen acc
      else add_names names' ({[to_lower name]} ∪ seen) (acc ++ [name])
  end.

Definition Restrict (base : Config) (d : Document) : Config :=
  mkConfig
    (restrict_limit (MaxReadBytes base) (d_MaxReadBytes d))
    (restrict_limit (MaxScanBytes base) (d_MaxScanBytes d))
    (restrict_limit (MaxWriteBytes base) (d_MaxWriteBytes d))
    (add_names (d_DeniedNames d) (list_to_set (to_lower <$> DeniedNames base)) (DeniedNames base))
    (restrict_flag (AllowWrite base) (d_AllowWrite d))
    (restrict_flag (AllowNetwork base) (d_AllowNetwork d))
    (restrict_flag (AllowRemote base) (d_AllowRemote d))
    (restrict_flag (AllowExec base) (d_AllowExec d))
    (restrict_flag (AllowDebug base) (d_AllowDebug d))
    (restrict_flag (AllowMem base) (d_AllowMem d)).

(** The checks of [ParseDocument] after the JSON decoder. *)
Inductive document_error := NoVersion | BadLimit | BadName.

Definition bad_limit (v : option Z) : bool := match v with Some n => n <=? 0 | None => false end.
Definition bad_name (name : gostring) : bool :=
  bool_decide (trim_space name = []) ||
  match index_any name [NUL; SLASH; BSL] with Some _ => true | None => false end.

Definition check_document (d : Document) : result document_error Document :=
  reject bool_decide (d_Version d = []) with NoVersion;
  reject bad_limit (d_MaxReadBytes d) with BadLimit;
  reject bad_limit (d_MaxScanBytes d) with BadLimit;
  reject bad_limit (d_MaxWriteBytes d) with BadLimit;
  reject existsb bad_name (d_DeniedNames d) with BadName;
  Ok d.

(** ** Properties *)

Lemma add_defaults_lower seen names n :
  (forall m, m ∈ seen <-> m ∈ to_lower <$> names) ->
  n ∈ to_lower <$> add_defaults seen names <->
  n ∈ to_lower <$> names \/ n ∈ default_denied.
Proof.
  intros Hseen. unfold add_defaults.
  assert (Hd : Forall (fun d => to_lower d = d) default_denied) by (repeat constructor).
  assert (Hg : forall ds acc, Forall (fun d => to_lower d = d) ds ->
    (forall m, m ∈ to_lower <$> names -> m ∈ to_lower <$> acc) ->
    n ∈ to_lower <$> foldl (fun acc name => if decide (name ∈ seen) then acc else acc ++ [name]) acc ds <->
    n ∈ to_lower <$> acc \/ n ∈ ds).
  { induction ds as [|d ds IH]; intros acc Hds Hacc; cbn [foldl]; [rewrite elem_of_nil; tauto|].
    apply Forall_cons in Hds as [Hd1 Hds]. case_decide as Hs.
    - rewrite IH by done. rewrite elem_of_cons. split; [naive_solver|].
      intros [?|[->|?]]; [by left| |by right]. left. apply Hacc. by apply Hseen.
    - rewrite IH; [|done|].
      + rewrite fmap_app, elem_of_app, elem_of_cons. cbn. rewrite Hd1, list_elem_of_singleton. tauto.
      + intros m Hm. rewrite fmap_app, elem_of_app. left. by apply Hacc. }
  by apply Hg.
Qed.

Lemma add_names_lower names seen acc n :
  (forall m, m ∈ seen <-> m ∈ to_lower <$> acc) ->
  n ∈ to_lower <$> add_names names seen acc <-> n ∈ to_lower <$> acc \/ n ∈ to_lower <$> names.
Proof.
  revert seen acc. induction names as [|d ds IH]; intros seen acc Hs; cbn [add_names].
  - cbn. rewrite elem_of_nil. tauto.
  - case_decide as Hd; cbn [fmap list_fmap]; rewrite elem_of_cons, IH.
    + split; [tauto|]. intros [?|[->|?]]; [by left| |by right]. left. by apply Hs.
    + done.
    + rewrite fmap_app, elem_of_app. cbn. rewrite list_elem_of_singleton. tauto.
    + intros m. rewrite elem_of_union, elem_of_singleton, fmap_app, elem_of_app, Hs. cbn.
      rewrite list_elem_of_singleton. tauto.
Qed.

(** A path is denied when one of the lower-case names matches it. *)
Definition matches_lower (path n : gostring) : Prop :=
  to_lower (base path) = n \/
  contains ([SLASH] ++ to_lower path ++ [SLASH]) ([SLASH] ++ n ++ [SLASH]) = true.

Lemma existsb_matches path names :
  existsb (name_matches path) names = true <-> exists n, n ∈ to_lower <$> names /\ matches_lower path n.
Proof.
  rewrite existsb_exists. unfold name_matches, matches_lower. split.
  - intros (x & Hx & Hm). exists (to_lower x). apply orb_true_iff in Hm.
    rewrite bool_decide_eq_true in Hm. split; [|done]. apply list_elem_of_fmap. exists x. split; [done|].
    by apply list_elem_of_In.
  - intros (n & (x & -> & Hx)%list_elem_of_fmap & Hm). exists x. split; [by apply list_elem_of_In|].
    apply orb_true_iff. by rewrite bool_decide_eq_true.
Qed.

Lemma New_denied c n :
  n ∈ to_lower <$> DeniedNames (New c) <-> n ∈ to_lower <$> DeniedNames c \/ n ∈ default_denied.
Proof. cbn [New DeniedNames]. apply add_defaults_lower. intros m. by rewrite elem_of_list_to_set. Qed.

Lemma Restrict_denied c d n :
  n ∈ to_lower <$> DeniedNames (Restrict c d) <->
  n ∈ to_lower <$> DeniedNames c \/ n ∈ to_lower <$> d_DeniedNames d.
Proof. cbn [Restrict DeniedNames]. apply add_names_lower. intros m. by rewrite elem_of_list_to_set. Qed.

(** The order of policies: every capability and every denied name of [a] binds [b]. *)
Record below (b a : Config) : Prop := {
  be_names : forall n, n ∈ to_lower <$> DeniedNames a -> n ∈ to_lower <$> DeniedNames b;
  be_write : AllowWrite b = true -> AllowWrite a = true;
  be_network : AllowNetwork b = true -> AllowNetwork a = true;
  be_remote : AllowRemote b = true -> AllowRemote a = true;
  be_exec : AllowExec b = true -> AllowExec a = true;
  be_debug : AllowDebug b = true -> AllowDebug a = true;
  be_mem : AllowMem b = true -> AllowMem a = true
}.

#[export] Instance below_preorder : PreOrder below.
Proof.
  split; [by split|]. intros a b c [] []. split; eauto.
Qed.

Lemma restrict_flag_true b d : restrict_flag b d = true -> b = true.
Proof. by destruct d as [[]|]. Qed.

Lemma Restrict_below c d : below (Restrict c d) c.
Proof.
  split; cbn [Restrict AllowWrite AllowNetwork AllowRemote AllowExec AllowDebug AllowMem];
    eauto using restrict_flag_true. intros n Hn. apply Restrict_denied. by left.
Qed.

Lemma New_below b a : below b a -> below (New b) (New a).
Proof.
  intros []. split; try done. intros n. rewrite !New_denied. naive_solver.
Qed.

Lemma decide_tool_below b a tool :
  below b a -> Allowed (decide_tool b tool) = true -> decide_tool a tool = decide_tool b tool.
Proof.
  intros [_ Hw Hn Hr He Hd Hm]. unfold decide_tool.
  repeat (case_decide; [try done|]); try done;
    repeat match goal with
    | |- context [negb (?f b)] =>
        match goal with H : f b = true -> f a = true |- _ =>
          destruct (f b) eqn:?; cbn [negb]; [rewrite H by done; cbn [negb]|done] end
    end; done.
Qed.

Lemma Evaluate_below b a tool path :
  below b a -> Allowed (Evaluate b tool path) = true -> Evaluate a tool path = Evaluate b tool path.
Proof.
  intros Hb. unfold Evaluate.
  destruct (existsb (name_matches path) (DeniedNames b)) eqn:E; [done|]. intros Ha.
  replace (existsb (name_matches path) (DeniedNames a)) with false; [by apply decide_tool_below|].
  symmetry. apply not_true_iff_false. intros (n & Hn & Hm)%existsb_matches.
  apply not_true_iff_false in E. apply E, existsb_matches. exists n. split; [by apply Hb|done].
Qed.

(** C34. A stack of policy layers never grants anything: whatever the engine of the
    restricted configuration allows, the engine of the base configuration allows,
    with the same approval requirement and policy. *)
Theorem Restrict_never_grants base layers tool path :
  Allowed (Evaluate (New (foldl Restrict base layers)) tool path) = true ->
  Evaluate (New base) tool path = Evaluate (New (foldl Restrict base layers)) tool path.
Proof.
  apply Evaluate_below, New_below. revert base.
  induction layers as [|d ds IH]; intros base; cbn [foldl]; [done|].
  etrans; [apply IH|apply Restrict_below].
Qed.

(** Whatever the configuration and its layers, the built-in secret names and
    every name a layer denies are denied for every tool. *)
Theorem Restrict_denies base layers tool path n :
  matches_lower path n ->
  n ∈ default_denied \/ n ∈ to_lower <$> DeniedNames base \/
    (exists d, d ∈ layers /\ n ∈ to_lower <$> d_DeniedNames d) ->
  Evaluate (New (foldl Restrict base layers)) tool path = mkDecision false false "deny-sensitive-path".
Proof.
  intros Hm Hn. unfold Evaluate.
  replace (existsb (name_matches path) _) with true; [done|]. symmetry. apply existsb_matches.
  exists n. split; [|done]. apply New_denied.
  destruct Hn as [?|Hn]; [by right|left].
  assert (Hg : forall ls c, n ∈ to_lower <$> DeniedNames c \/ (exists d, d ∈ ls /\ n ∈ to_lower <$> d_DeniedNames d) ->
    n ∈ to_lower <$> DeniedNames (foldl Restrict c ls)).
  { induction ls as [|d ds IH]; intros c Hc; cbn [foldl].
    - destruct Hc as [?|(d & Hd & _)]; [done|by apply elem_of_nil in Hd].
    - apply IH. destruct Hc as [?|(d' & Hd & ?)]; [left; apply Restrict_denied; by left|].
      apply elem_of_cons in Hd as [->|Hd]; [left; apply Restrict_denied; by right|right; eauto]. }
  by apply Hg.
Qed.

Definition limits_positive (c : Config) : Prop :=
  0 < MaxReadBytes c /\ 0 < MaxScanBytes c /\ 0 < MaxWriteBytes c.

Lemma restrict_limit_le base d :
  bad_limit d = false -> 0 < base -> 0 < restrict_limit base d <= base.
Proof.
  unfold restrict_limit, bad_limit. destruct d as [v|]; [|lia]. intros Hv%Z.leb_gt Hb.
  destruct (_ || _) eqn:E; [|lia]. apply orb_true_iff in E. rewrite Z.leb_le, Z.ltb_lt in E. lia.
Qed.

(** Over an effective configuration - positive limits, as [New] leaves them - a
    checked layer only lowers the limits. Over a limit that is still unset it
    raises the effective value above the default when the layer's is larger. *)
Theorem Restrict_limits base d :
  check_document d = Ok d ->
  (limits_positive base ->
     limits_positive (Restrict base d) /\
     MaxReadBytes (Restrict base d) <= MaxReadBytes base /\
     MaxScanBytes (Restrict base d) <= MaxScanBytes base /\
     MaxWriteBytes (Restrict base d) <= MaxWriteBytes base) /\
  (MaxReadBytes base <= 0 -> forall v, d_MaxReadBytes d = Some v ->
     MaxReadBytes (New (Restrict base d)) = v /\ MaxReadBytes (New base) = Z.shiftl 1 20).
Proof.
  unfold check_document. intros (_ & (H1 & (H2 & (H3 & _)%guard_Ok)%guard_Ok)%guard_Ok)%guard_Ok.
  cbn [Restrict New MaxReadBytes MaxScanBytes MaxWriteBytes]. split.
  - intros (P1 & P2 & P3). unfold limits_positive. cbn [Restrict MaxReadBytes MaxScanBytes MaxWriteBytes].
    pose proof (restrict_limit_le _ _ H1 P1). pose proof (restrict_limit_le _ _ H2 P2).
    pose proof (restrict_limit_le _ _ H3 P3). lia.
  - intros Hb v Hv. rewrite Hv in *. cbn [bad_limit restrict_limit] in *.
    rewrite (proj2 (Z.leb_le _ _) Hb). cbn [orb]. by rewrite H1.
Qed.

End policy.

(** *** Witnesses *)

Definition sample_base : Config := mkConfig 0 0 0 [] true false false false false false.
Definition sample_layer : Document :=
  mkDocument "v1" (Some true) (Some true) None None None None (Some 1073741824) None None ["Secrets"].

Lemma Restrict_never_grants_witness :
  @Evaluate ascii_tables (@New ascii_tables sample_base) "edit" "src/main.go" =
  mkDecision true true "approve-workspace-write".
Proof. exact (@Restrict_never_grants ascii_tables sample_base [sample_layer] "edit" "src/main.go" eq_refl). Defined.

Lemma Restrict_denies_witness :
  @Evaluate ascii_tables (@New ascii_tables (foldl (@Restrict ascii_tables) sample_base [sample_layer]))
    "read_file" "a/SECRETS/x" = mkDecision false false "deny-sensitive-path".
Proof.
  apply (@Restrict_denies ascii_tables sample_base [sample_layer] "read_file" "a/SECRETS/x" "secrets").
  - right. reflexivity.
  - right; right. exists sample_layer. split; [left|]. left.
Defined.

(** A layer of one gibibyte over unset limits. *)
Lemma Restrict_limits_witness :
  MaxReadBytes (@New ascii_tables (@Restrict ascii_tables sample_base sample_layer)) = 1073741824 /\
  MaxReadBytes (@New ascii_tables sample_base) = 1048576.
Proof.
  exact (proj2 (@Restrict_limits ascii_tables sample_base sample_layer eq_refl) (Z.le_refl 0) _ eq_refl).
Defined.
