(* ===== verification/Replay.v ===== *)
(** * Replay protection stores ([internal/replay/store.go])

    The two stores of the program implement one interface; what its clients rely
    on is stated for the interface and proved for both. *)
From S2P Require Import Prelude GoStrings Strconv.
#[local] Open Scope Z_scope.

Inductive replay_error := ErrAlreadyUsed | ErrNotFound | ErrInvalidEntry.

#[export] Instance replay_error_eq_dec : EqDecision replay_error.
Proof. solve_decision. Defined.

(** ** The interfaces [Store] and [ChallengeStore]

    An operation returns its result and the next state; each runs under the
    store's lock or in one transaction. [now] of [put] is the clock it reads. *)
Class Store (S : Type) := {
  consume : S -> gostring -> gostring -> gotime -> gotime -> result replay_error unit * S
}.

Class ChallengeStore (S : Type) := {
  put : S -> gostring -> gostring -> gostring -> gotime -> gotime -> result replay_error unit * S;
  peek : S -> gostring -> gostring -> gotime -> result replay_error gostring;
  take_challenge : S -> gostring -> gostring -> gotime -> result replay_error gostring * S
}.

(** What a store promises about [consume]: an entry blocks its identifier until
    it expires. [live s ns id e] says that such an entry is recorded. *)
Class StoreLaws (S : Type) `{Store S} := {
  live : S -> gostring -> gostring -> gotime -> Prop;
  consume_live s ns id e now s' :
    in_int e = true -> consume s ns id e now = (Ok tt, s') -> live s' ns id e;
  consume_blocked s ns id e e' now :
    live s ns id e -> now < e -> (consume s ns id e' now).1 <> Ok tt;
  consume_keeps s ns id e ns' id' e' now :
    live s ns id e -> now < e -> live (consume s ns' id' e' now).2 ns id e
}.

(** What a store promises about challenges: it is a map from namespace and
    identifier to payload and expiry. *)
Class ChallengeLaws (S : Type) `{ChallengeStore S} := {
  held : S -> gostring -> gostring -> option (gostring * gotime);
  put_Ok s ns id payload e now s' :
    NUL ∉ ns -> in_int e = true -> put s ns id payload e now = (Ok tt, s') ->
    payload <> [] /\ held s' ns id = Some (payload, e) /\
    (forall ns' id', NUL ∉ ns' -> (ns', id') <> (ns, id) -> held s' ns' id' = held s ns' id');
  put_Err s ns id payload e now : is_ok (put s ns id payload e now).1 = false ->
    (put s ns id payload e now).2 = s;
  put_held s ns id payload e now p0 e0 :
    held s ns id = Some (p0, e0) -> now < e0 -> is_ok (put s ns id payload e now).1 = false;
  peek_spec s ns id now :
    peek s ns id now = match held s ns id with
                       | Some (p, e) => if after e now then Ok p else Err ErrNotFound
                       | None => Err ErrNotFound end;
  take_result s ns id now : (take_challenge s ns id now).1 = peek s ns id now;
  take_gone s ns id now now' :
    now <= now' -> is_ok (peek (take_challenge s ns id now).2 ns id now') = false;
  take_others s ns id now ns' id' :
    NUL ∉ ns -> NUL ∉ ns' -> (ns', id') <> (ns, id) ->
    held (take_challenge s ns id now).2 ns' id' = held s ns' id'
}.

(** A store that keeps both: consumed identifiers and challenges do not interfere,
    as long as no identifier is consumed under a name of the form [challenge:...]. *)
Definition plain_ns (ns : gostring) : Prop := has_prefix ns "challenge:" = false.

Class SharedLaws (S : Type) `{SL : StoreLaws S} `{CL : ChallengeLaws S} := {
  put_live s ns id e ns' id' p e' now :
    plain_ns ns -> live s ns id e -> live (put s ns' id' p e' now).2 ns id e;
  take_live s ns id e ns' id' now :
    plain_ns ns -> live s ns id e -> live (take_challenge s ns' id' now).2 ns id e;
  consume_held s ns id e now ns' id' :
    plain_ns ns -> held (consume s ns id e now).2 ns' id' = held s ns' id'
}.

(** ** [Memory] *)

Record memoryChallenge := mkChallenge { mc_payload : gostring; mc_expires : gotime }.

Record Memory := mkMemory {
  used : gmap gostring gotime;
  challenges : gmap gostring memoryChallenge
}.

Definition NewMemory : Memory := mkMemory ∅ ∅.

Definition store_key (ns id : gostring) : gostring := ns ++ [NUL] ++ id.
#[global] Arguments store_key : simpl never.

Definition Memory_Consume (m : Memory) (ns id : gostring) (expiresAt now : gotime)
  : result replay_error unit * Memory :=
  let key := store_key ns id in
  let blocked := match used m !! key with Some expiry => after expiry now | None => false end in
  if blocked then (Err ErrAlreadyUsed, m)
  else
    let swept := filter (fun kv : gostring * gotime => after kv.2 now = true) (used m) in
    (Ok tt, mkMemory (<[key := expiresAt]> swept) (challenges m)).

Definition Memory_Put (m : Memory) (ns id payload : gostring) (expiresAt now : gotime)
  : result replay_error unit * Memory :=
  if bool_decide (ns = []) || bool_decide (id = []) || (len payload =? 0) then (Err ErrInvalidEntry, m)
  else
    let key := store_key ns id in
    let blocked := match challenges m !! key with
                   | Some current => after (mc_expires current) now | None => false end in
    if blocked then (Err ErrAlreadyUsed, m)
    else (Ok tt, mkMemory (used m) (<[key := mkChallenge payload expiresAt]> (challenges m))).

Definition Memory_Peek (m : Memory) (ns id : gostring) (now : gotime) : result replay_error gostring :=
  match challenges m !! store_key ns id with
  | Some entry => if negb (after (mc_expires entry) now) then Err ErrNotFound else Ok (mc_payload entry)
  | None => Err ErrNotFound
  end.

Definition Memory_Take (m : Memory) (ns id : gostring) (now : gotime)
  : result replay_error gostring * Memory :=
  let key := store_key ns id in
  let m' := mkMemory (used m) (delete key (challenges m)) in
  match challenges m !! key with
  | Some entry => if negb (after (mc_expires entry) now) then (Err ErrNotFound, m')
                  else (Ok (mc_payload entry), m')
  | None => (Err ErrNotFound, m')
  end.

#[export] Instance Memory_Store : Store Memory := {| consume := Memory_Consume |}.
#[export] Instance Memory_ChallengeStore : ChallengeStore Memory :=
  {| put := Memory_Put; peek := Memory_Peek; take_challenge := Memory_Take |}.

(** ** [Bolt]

    The buckets of go.etcd.io/bbolt: what the code uses of a bucket, and what the
    documentation promises. The cursor may visit any of the records. *)
Class Bolt := {
  bucket : Type;
  b_empty : bucket;
  b_get : bucket -> gostring -> option gostring;
  b_put : bucket -> gostring -> gostring -> bucket;
  b_delete : bucket -> gostring -> bucket;
  b_cursor : bucket -> list (gostring * gostring)
}.

Class BoltLaws `{Bolt} := {
  get_empty k : b_get b_empty k = None;
  get_put b k v k' : b_get (b_put b k v) k' = if decide (k' = k) then Some v else b_get b k';
  get_delete b k k' : b_get (b_delete b k) k' = if decide (k' = k) then None else b_get b k';
  cursor_get b k v : (k, v) ∈ b_cursor b -> b_get b k = Some v
}.

(** [binary.BigEndian.PutUint64] and [Uint64]. *)
Fixpoint be_bytes (n : nat) (v : Z) : gostring :=
  match n with
  | O => []
  | S n => be_bytes n (v / 256) ++ [byte_of (v mod 256)]
  end.
Definition be_value (s : gostring) : Z := foldl (fun acc c => acc * 256 + code c) 0 s.

Definition put_time (t : gotime) : gostring := be_bytes 8 (t mod 18446744073709551616).
Definition get_time (s : gostring) : gotime := wrap64 (be_value s).
#[global] Arguments put_time : simpl never.
#[global] Arguments get_time : simpl never.

Definition challenge_bucket (ns : gostring) : gostring := "challenge:" ++ ns.
#[global] Arguments challenge_bucket : simpl never.

(** A database: its buckets by name. *)
Abbreviation BoltDB := (gmap gostring bucket) (only parsing).

Section bolt.
Context `{Bolt}.


Definition Bolt_Put (s : BoltDB) (ns id payload : gostring) (expiresAt now : gotime)
  : result replay_error unit * BoltDB :=
  if bool_decide (ns = []) || bool_decide (id = []) || (len payload =? 0) || (expiresAt =? zero_time)
  then (Err ErrInvalidEntry, s)
  else
    let name := challenge_bucket ns in
    let b := default b_empty (s !! name) in
    let current := default [] (b_get b id) in
    if (8 <=? len current) && after (get_time (take 8 current)) now then (Err ErrAlreadyUsed, s)
    else (Ok tt, <[name := b_put b id (put_time expiresAt ++ payload)]> s).

Definition Bolt_Peek (s : BoltDB) (ns id : gostring) (now : gotime) : result replay_error gostring :=
  match s !! challenge_bucket ns with
  | None => Err ErrNotFound
  | Some b =>
      let v := default [] (b_get b id) in
      if (len v <? 9) || negb (after (get_time (take 8 v)) now) then Err ErrNotFound
      else Ok (drop 8 v)
  end.

(** A transaction that returns an error is rolled back: the [Delete] of an
    expired challenge is undone. *)
Definition Bolt_Take (s : BoltDB) (ns id : gostring) (now : gotime)
  : result replay_error gostring * BoltDB :=
  match s !! challenge_bucket ns with
  | None => (Err ErrNotFound, s)
  | Some b =>
      let v := default [] (b_get b id) in
      if (len v <? 9) || negb (after (get_time (take 8 v)) now) then (Err ErrNotFound, s)
      else (Ok (drop 8 v), <[challenge_bucket ns := b_delete b id]> s)
  end.

(** The bounded sweep over the cursor. *)
Fixpoint sweep (records : list (gostring * gostring)) (removed : nat) (now : gotime) (b : bucket) : bucket :=
  match records with
  | [] => b
  | (k, v) :: records' =>
      if (removed <? 128)%nat then
        if (len v =? 8) && negb (after (get_time v) now)
        then sweep records' (S removed) now (b_delete b k)
        else sweep records' removed now b
      else b
  end.

Definition Bolt_Consume (s : BoltDB) (ns id : gostring) (expiresAt now : gotime)
  : result replay_error unit * BoltDB :=
  if bool_decide (ns = []) || bool_decide (id = []) || negb (after expiresAt now)
  then (Err ErrInvalidEntry, s)
  else
    let b := default b_empty (s !! ns) in
    let raw := default [] (b_get b id) in
    if (len raw =? 8) && after (get_time raw) now then (Err ErrAlreadyUsed, s)
    else
      let b := b_put b id (put_time expiresAt) in
      (Ok tt, <[ns := sweep (b_cursor b) 0 now b]> s).

#[export] Instance Bolt_Store : Store BoltDB := {| consume := Bolt_Consume |}.
#[export] Instance Bolt_ChallengeStore : ChallengeStore BoltDB :=
  {| put := Bolt_Put; peek := Bolt_Peek; take_challenge := Bolt_Take |}.

End bolt.

(** ** [Memory] keeps the promises *)

Lemma store_key_inj ns id ns' id' :
  NUL ∉ ns -> NUL ∉ ns' -> store_key ns id = store_key ns' id' -> ns = ns' /\ id = id'.
Proof.
  unfold store_key. revert ns'. induction ns as [|c ns IH]; intros [|d ns'] H1 H2 E; cbn in E; simplify_eq.
  - done.
  - destruct H2. by left.
  - destruct H1. by left.
  - rewrite not_elem_of_cons in H1, H2. destruct (IH ns') as [-> ->]; naive_solver.
Qed.

#[export] Instance Memory_StoreLaws : StoreLaws Memory.
Proof.
  refine {| live m ns id e := used m !! store_key ns id = Some e |}.
  - intros m ns id e now m' _. cbn. unfold Memory_Consume. repeat case_match; intros E; simplify_eq;
      cbn; by rewrite lookup_insert_eq.
  - intros m ns id e e' now Hl Hn. cbn. unfold Memory_Consume. rewrite Hl.
    unfold after. by rewrite (proj2 (Z.ltb_lt _ _) Hn).
  - intros m ns id e ns' id' e' now Hl Hn. cbn. unfold Memory_Consume.
    destruct (decide (store_key ns' id' = store_key ns id)) as [E|E].
    + rewrite E, Hl. unfold after. by rewrite (proj2 (Z.ltb_lt _ _) Hn).
    + repeat case_match; try done; cbn; rewrite lookup_insert_ne by done;
        apply map_lookup_filter_Some; (split; [done|]); cbn; by apply Z.ltb_lt.
Defined.

Definition Memory_held (m : Memory) (ns id : gostring) : option (gostring * gotime) :=
  (fun c => (mc_payload c, mc_expires c)) <$> challenges m !! store_key ns id.

Lemma store_key_ne ns id ns' id' :
  NUL ∉ ns -> NUL ∉ ns' -> (ns', id') <> (ns, id) -> store_key ns id <> store_key ns' id'.
Proof. intros H1 H2 Hne E. apply store_key_inj in E as [-> ->]; done. Qed.

#[export] Instance Memory_ChallengeLaws : ChallengeLaws Memory.
Proof.
  refine {| held := Memory_held |}; cbn; unfold Memory_held, Memory_Put, Memory_Peek, Memory_Take.
  - intros m ns id p e now m' Hns _ E. destruct (_ || _) eqn:Eb; [done|]. bool_props.
    destruct (match challenges m !! _ with Some _ => _ | None => _ end); [done|]. injection E as <-. cbn.
    split; [by intros ->|]. rewrite lookup_insert_eq. split; [done|]. intros ns' id' Hns' Hne.
    by rewrite lookup_insert_ne by (by apply store_key_ne).
  - intros m ns id p e now. by repeat case_match.
  - intros m ns id p e now p0 e0 Hh Hn. apply fmap_Some in Hh as (c & Hc & [= -> ->]). rewrite Hc.
    destruct (_ || _); [done|]. unfold after. by rewrite (proj2 (Z.ltb_lt _ _) Hn).
  - intros m ns id now. destruct (challenges m !! _) as [c|]; [|done]. cbn. by destruct (after _ _).
  - intros m ns id now. by destruct (challenges m !! _) as [c|]; [destruct (negb _)|].
  - intros m ns id now now' _. destruct (challenges m !! store_key ns id) as [c|] eqn:E;
      [destruct (negb _)|]; cbn; by rewrite lookup_delete_eq.
  - intros m ns id now ns' id' H1 H2 Hne.
    destruct (challenges m !! store_key ns id) as [c|]; [destruct (negb _)|]; cbn;
      by rewrite lookup_delete_ne by (by apply store_key_ne).
Defined.

#[export] Instance Memory_SharedLaws : SharedLaws Memory.
Proof.
  split; cbn; unfold Memory_Put, Memory_Take, Memory_Consume.
  - intros m ns id e ns' id' p e' now _ Hl. by repeat case_match.
  - intros m ns id e ns' id' now _ Hl. by repeat case_match.
  - intros m ns id e now ns' id' _. by destruct (match used m !! _ with Some _ => _ | None => _ end).
Qed.

(** ** [Bolt] keeps the promises *)

Lemma be_value_app s c : be_value (s ++ [c]) = be_value s * 256 + code c.
Proof. unfold be_value. by rewrite foldl_app. Qed.

Lemma be_value_bytes n v : 0 <= v < 256 ^ Z.of_nat n -> be_value (be_bytes n v) = v.
Proof.
  revert v; induction n as [|n IH]; intros v Hv; [cbn in *; lia|]. cbn [be_bytes].
  rewrite Nat2Z.inj_succ, Z.pow_succ_r in Hv by lia.
  pose proof (Z.mod_pos_bound v 256 ltac:(lia)). pose proof (Z.div_mod v 256 ltac:(lia)).
  rewrite be_value_app, code_byte_of, IH; [lia| |lia].
  split; [apply Z.div_pos; lia|]. apply Z.div_lt_upper_bound; lia.
Qed.

Lemma be_bytes_length n v : length (be_bytes n v) = n.
Proof. revert v; induction n as [|n IH]; intros v; [done|]. cbn. rewrite length_app, IH. cbn. lia. Qed.

Lemma get_put_time t : in_int t = true -> get_time (put_time t) = t.
Proof.
  intros Ht. unfold get_time, put_time.
  pose proof (Z.mod_pos_bound t 18446744073709551616 ltac:(lia)).
  rewrite be_value_bytes by (change (256 ^ Z.of_nat 8) with 18446744073709551616; lia).
  unfold wrap64. rewrite Z.add_mod_idemp_l by lia. by apply wrap64_id in Ht.
Qed.

Lemma put_time_length t : len (put_time t) = 8.
Proof. unfold len, put_time. by rewrite be_bytes_length. Qed.

Lemma live_time e now : in_int e = true -> now < e ->
  (len (put_time e) =? 8) && negb (after (get_time (put_time e)) now) = false.
Proof.
  intros He Hn. rewrite get_put_time by done. unfold after. rewrite (proj2 (Z.ltb_lt _ _) Hn).
  by rewrite andb_false_r.
Qed.

Lemma challenge_bucket_inj a b : challenge_bucket a = challenge_bucket b -> a = b.
Proof. unfold challenge_bucket. intros E. by apply app_inv_head in E. Qed.

Section bolt_laws.
Context `{BoltLaws}.
#[local] Set Default Proof Using "All".

Lemma sweep_get records removed now b k v :
  b_get b k = Some v -> (len v =? 8) && negb (after (get_time v) now) = false ->
  (forall k' v', (k', v') ∈ records -> k' = k -> v' = v) ->
  b_get (sweep records removed now b) k = Some v.
Proof.
  revert removed b. induction records as [|[k' v'] rs IH]; intros removed b Hg Hv Hr; cbn [sweep]; [done|].
  case_match; [|done]. case_match eqn:E.
  - apply IH; [|done|intros; eapply Hr; [by right|done]]. rewrite get_delete.
    case_decide as Hk; [|done]. rewrite (Hr k' v') in E; [congruence|by left|done].
  - apply IH; [done..|]. intros; eapply Hr; [by right|done].
Qed.

Definition Bolt_live (s : BoltDB) (ns id : gostring) (e : gotime) : Prop :=
  in_int e = true /\ exists b, s !! ns = Some b /\ b_get b id = Some (put_time e).

#[export] Instance Bolt_StoreLaws : StoreLaws BoltDB.
Proof.
  refine {| live := Bolt_live |}.
  - intros s ns id e now s' He. cbn. unfold Bolt_Consume. destruct (_ || _) eqn:Eb; [done|].
    bool_props. unfold after in *. bool_props. destruct (_ && _); [done|]. intros E. injection E as <-.
    split; [done|]. eexists. rewrite lookup_insert_eq. split; [done|]. apply sweep_get.
    + rewrite get_put. by rewrite decide_True.
    + by apply live_time.
    + intros k' v' Hin%cursor_get ->. rewrite get_put, decide_True in Hin by done. by simplify_eq.
  - intros s ns id e e' now (He & b & Hb & Hg) Hn. cbn. unfold Bolt_Consume.
    destruct (_ || _); [done|]. rewrite Hb. cbn [default Datatypes.id]. rewrite Hg. cbn [default Datatypes.id].
    rewrite put_time_length, get_put_time by done. unfold after. by rewrite (proj2 (Z.ltb_lt _ _) Hn).
  - intros s ns id e ns' id' e' now Hl Hn. pose proof Hl as (He & b & Hb & Hg). cbn. unfold Bolt_Consume.
    destruct (_ || _); [done|]. destruct (_ && _) eqn:Eu; [done|]. split; [done|]. cbn.
    destruct (decide (ns' = ns)) as [->|Hne]; [|exists b; by rewrite lookup_insert_ne].
    rewrite lookup_insert_eq. eexists. split; [done|]. rewrite Hb in *. cbn in *.
    assert (id' <> id) as Hid.
    { intros ->. rewrite Hg in Eu. cbn in Eu. rewrite put_time_length, get_put_time in Eu by done.
      unfold after in Eu. by rewrite (proj2 (Z.ltb_lt _ _) Hn) in Eu. }
    apply sweep_get.
    + rewrite get_put. by rewrite decide_False.
    + by apply live_time.
    + intros k' v' Hin%cursor_get ->. rewrite get_put, decide_False in Hin by done. by simplify_eq.
Defined.

Definition Bolt_held (s : BoltDB) (ns id : gostring) : option (gostring * gotime) :=
  b ← s !! challenge_bucket ns;
  v ← b_get b id;
  if len v <? 9 then None else Some (drop 8 v, get_time (take 8 v)).

Lemma held_other (s : BoltDB) ns id b' ns' id' :
  (ns', id') <> (ns, id) ->
  (id' <> id -> b_get b' id' = b_get (default b_empty (s !! challenge_bucket ns)) id') ->
  Bolt_held (<[challenge_bucket ns := b']> s) ns' id' = Bolt_held s ns' id'.
Proof.
  intros Hne Hb. unfold Bolt_held. destruct (decide (ns' = ns)) as [->|Hns].
  - rewrite lookup_insert_eq. cbn. rewrite Hb by naive_solver.
    destruct (s !! challenge_bucket ns); cbn; [done|]. by rewrite get_empty.
  - by rewrite lookup_insert_ne by (intros ?%challenge_bucket_inj; done).
Qed.

#[export] Instance Bolt_ChallengeLaws : ChallengeLaws BoltDB.
Proof.
  refine {| held := Bolt_held |}; cbn [put peek take_challenge Bolt_ChallengeStore].
  - intros s ns id p e now s' _ He. unfold Bolt_Put. destruct (_ || _) eqn:Eb; [done|]. bool_props.
    destruct (_ && _); [done|]. intros E.
    apply (f_equal snd) in E. cbn [snd] in E. subst s'. split; [by intros ->|]. split.
    + unfold Bolt_held. rewrite lookup_insert_eq. cbn [mbind option_bind].
      rewrite get_put, decide_True by done. cbn [mbind option_bind]. rewrite len_app, put_time_length. pose proof (len_nonneg p). unfold len in *.
      rewrite (proj2 (Z.ltb_ge _ _)) by lia.
      assert (length (put_time e) = 8%nat) as Hl by apply be_bytes_length.
      rewrite drop_app_length', take_app_length' by done. by rewrite get_put_time.
    + intros ns' id' _ Hne. apply held_other with (id := id); [done|]. intros. by rewrite get_put, decide_False.
  - intros s ns id p e now. unfold Bolt_Put. by repeat case_match.
  - intros s ns id p e now p0 e0 Hh Hn. unfold Bolt_Put. destruct (_ || _); [done|].
    unfold Bolt_held in Hh. apply bind_Some in Hh as (b & Hb & (v & Hv & Hh)%bind_Some). rewrite Hb. cbn.
    rewrite Hv. cbn. destruct (len v <? 9) eqn:El; [done|]. bool_props. injection Hh as <- <-.
    rewrite (proj2 (Z.leb_le _ _)) by lia. unfold after. by rewrite (proj2 (Z.ltb_lt _ _) Hn).
  - intros s ns id now. unfold Bolt_Peek, Bolt_held. destruct (s !! _) as [b|]; [|done]. cbn.
    destruct (b_get b id) as [v|]; [|done]. cbn. destruct (len v <? 9); [done|]. cbn.
    by destruct (after _ now).
  - intros s ns id now. unfold Bolt_Take, Bolt_Peek. destruct (s !! _) as [b|]; [|done]. by destruct (_ || _).
  - intros s ns id now now' Hle. unfold Bolt_Take. destruct (s !! challenge_bucket ns) as [b|] eqn:Es.
    + destruct (_ || _) eqn:E; cbn.
      * unfold Bolt_Peek. rewrite Es. apply orb_true_iff in E as [E|E].
        -- by rewrite E.
        -- replace (negb (after _ now')) with true; [by rewrite orb_true_r|]. symmetry.
           unfold after in *. bool_props. apply negb_true_iff, Z.ltb_ge. lia.
      * unfold Bolt_Peek. rewrite lookup_insert_eq, get_delete, decide_True by done. done.
    + cbn. unfold Bolt_Peek. by rewrite Es.
  - intros s ns id now ns' id' _ _ Hne. unfold Bolt_Take. destruct (s !! challenge_bucket ns) as [b|] eqn:Es; [|done].
    destruct (_ || _); [done|]. cbn. apply held_other with (id := id); [done|]. intros.
    rewrite get_delete, decide_False, Es by done. done.
Defined.

Lemma plain_challenge_bucket ns ns' : plain_ns ns -> challenge_bucket ns' <> ns.
Proof. unfold plain_ns, challenge_bucket. intros Hp <-. by rewrite has_prefix_app in Hp. Qed.

#[export] Instance Bolt_SharedLaws : SharedLaws BoltDB.
Proof.
  split; cbn [put take_challenge consume live held Bolt_Store Bolt_ChallengeStore Bolt_StoreLaws Bolt_ChallengeLaws].
  - intros s ns id e ns' id' p e' now Hp%(plain_challenge_bucket _ ns') (He & b & Hb & Hg). unfold Bolt_Put.
    split; [done|]. exists b. split; [|done]. destruct (_ || _); [done|]. destruct (_ && _); [done|].
    cbn [snd]. by rewrite lookup_insert_ne.
  - intros s ns id e ns' id' now Hp%(plain_challenge_bucket _ ns') (He & b & Hb & Hg). unfold Bolt_Take.
    split; [done|]. exists b. split; [|done]. destruct (s !! challenge_bucket ns'); [|done].
    destruct (_ || _); [done|]. cbn [snd]. by rewrite lookup_insert_ne.
  - intros s ns id e now ns' id' Hp. unfold Bolt_Consume, Bolt_held. destruct (_ || _); [done|].
    destruct (_ && _); [done|]. cbn [snd].
    by rewrite lookup_insert_ne by (by apply not_eq_sym, plain_challenge_bucket).
Qed.

End bolt_laws.

(** An expired challenge stays in the database: the transaction that deletes it
    returns an error and is rolled back. *)
Lemma Bolt_Take_Err_keeps `{Bolt} (s : BoltDB) ns id now :
  is_ok (Bolt_Take s ns id now).1 = false -> (Bolt_Take s ns id now).2 = s.
Proof. unfold Bolt_Take. by repeat case_match. Qed.

(** ** What clients rely on *)
Section clients.

(** A call of [Consume]. *)
Record use := mkUse { u_ns : gostring; u_id : gostring; u_expires : gotime; u_now : gotime }.

Definition run_uses {S} `{Store S} (s : S) (us : list use) : S :=
  foldl (fun s u => (consume s (u_ns u) (u_id u) (u_expires u) (u_now u)).2) s us.

Lemma run_uses_live {S} `{StoreLaws S} (s : S) ns id e t us :
  live s ns id e -> Forall (fun u => u_now u <= t) us -> t < e -> live (run_uses s us) ns id e.
Proof.
  intros Hl Hus Ht. revert s Hl. induction Hus as [|u us Hu Hus IH]; intros s Hl; [done|].
  apply IH. apply consume_keeps; [done|lia].
Qed.

(** Between two accepted uses of an identifier, whatever happens in between, the
    first has expired; for every store that keeps the promises. *)
Theorem consume_once {S} `{StoreLaws S} (s s1 s2 : S) ns id e t e2 t2 (between : list use) :
  in_int e = true ->
  consume s ns id e t = (Ok tt, s1) ->
  Forall (fun u => u_now u <= t2) between ->
  consume (run_uses s1 between) ns id e2 t2 = (Ok tt, s2) ->
  e <= t2.
Proof.
  intros He Hc Hb H2. apply (consume_live _ _ _ _ _ _ He) in Hc. apply Z.le_ngt. intros Hlt.
  apply (consume_blocked (run_uses s1 between) ns id e e2 t2); [by eapply run_uses_live|done|by rewrite H2].
Qed.

(** Operations on challenges; each names its namespace and identifier. *)
Inductive challenge_op :=
  | OpPut (ns id payload : gostring) (expires now : gotime)
  | OpTake (ns id : gostring) (now : gotime).

Definition challenge_step {S} `{ChallengeStore S} (s : S) (op : challenge_op) : S :=
  match op with
  | OpPut ns id p e now => (put s ns id p e now).2
  | OpTake ns id now => (take_challenge s ns id now).2
  end.

Definition about_other (ns id : gostring) (op : challenge_op) : Prop :=
  match op with
  | OpPut ns' id' _ e _ => NUL ∉ ns' /\ in_int e = true /\ (ns, id) <> (ns', id')
  | OpTake ns' id' _ => NUL ∉ ns' /\ (ns, id) <> (ns', id')
  end.

Lemma others_keep {S} `{ChallengeLaws S} (s : S) ns id ops :
  NUL ∉ ns -> Forall (about_other ns id) ops ->
  held (foldl challenge_step s ops) ns id = held s ns id.
Proof.
  intros Hns Hops. revert s. induction Hops as [|op ops Ho Hops IH]; intros s; [done|]. cbn [foldl].
  rewrite IH. destruct op as [ns' id' p e now|ns' id' now]; cbn [challenge_step about_other] in *.
  - destruct Ho as (H1 & H2 & H3). destruct (put s ns' id' p e now) as [[[]|err] s'] eqn:E.
    + apply put_Ok in E as (_ & _ & E); [|done|done]. by apply E.
    + pose proof (put_Err s ns' id' p e now) as Hp. rewrite E in Hp. cbn in *. by rewrite Hp.
  - destruct Ho as (H1 & H2). by apply take_others.
Qed.

(** A challenge is taken at most once: the first [Take] before it expires returns
    its payload, and every later one fails, whatever happens to the other
    challenges meanwhile. *)
Theorem take_once {S} `{ChallengeLaws S} (s s1 : S) ns id payload e now t t' ops ops' :
  NUL ∉ ns -> in_int e = true ->
  put s ns id payload e now = (Ok tt, s1) ->
  Forall (about_other ns id) ops -> Forall (about_other ns id) ops' ->
  t < e -> t <= t' ->
  let first := take_challenge (foldl challenge_step s1 ops) ns id t in
  first.1 = Ok payload /\
  is_ok (take_challenge (foldl challenge_step first.2 ops') ns id t').1 = false.
Proof.
  intros Hns He Hput Hops Hops' Ht Ht' first. apply put_Ok in Hput as (_ & Hh & _); [|done|done].
  split.
  - unfold first. rewrite take_result, peek_spec, others_keep, Hh by done.
    unfold after. by rewrite (proj2 (Z.ltb_lt _ _) Ht).
  - rewrite take_result, peek_spec, others_keep by done. rewrite <- peek_spec. by apply take_gone.
Qed.

End clients.

(** *** Witnesses *)

Lemma consume_once_witness :
  100 <= 100 /\ (consume (run_uses (Memory_Consume NewMemory "n" "a" 100 0).2 [mkUse "n" "b" 200 5]) "n" "a" 300 99).1
    = Err ErrAlreadyUsed.
Proof.
  split; [|vm_compute; reflexivity].
  apply (consume_once NewMemory (Memory_Consume NewMemory "n" "a" 100 0).2
           (consume (run_uses (Memory_Consume NewMemory "n" "a" 100 0).2 [mkUse "n" "b" 200 5]) "n" "a" 300 100).2
           "n" "a" 100 0 300 100 [mkUse "n" "b" 200 5]); [reflexivity|reflexivity| |reflexivity].
  repeat constructor. vm_compute. discriminate.
Defined.

Lemma take_once_witness :
  (take_challenge (Memory_Put NewMemory "n" "a" "p" 100 0).2 "n" "a" 50).1 = Ok ("p" : gostring) /\
  is_ok (take_challenge (take_challenge (Memory_Put NewMemory "n" "a" "p" 100 0).2 "n" "a" 50).2 "n" "a" 60).1 = false.
Proof.
  refine (take_once NewMemory _ "n" "a" "p" 100 0 50 60 [] [] _ _ _ _ _ _ _);
    try reflexivity; try constructor; try lia. intros Hin. apply contains_byte_spec in Hin. discriminate Hin.
Defined.
