(* ===== verification/TransportAuth.v ===== *)
(** * Signed requests ([internal/transportauth/signature.go]) *)
From S2P Require Import Prelude GoStrings Strconv Base64 Token Replay.
#[local] Open Scope Z_scope.

(** What the code reads of an [http.Request]: [URL.RequestURI()] and
    [Header.Values(name)] are given as the standard library computes them. *)
Record Request := mkRequest {
  r_Method : gostring;
  r_RequestURI : option gostring;
  r_Header : gostring -> list gostring
}.

Record Headers := mkHeaders { Timestamp : gostring; Nonce : gostring; Signature : gostring }.

Inductive auth_error :=
  | ErrKey | ErrNoRequest | ErrVersion | ErrHeaders | ErrStale | ErrSignature | ErrNonceUsed | ErrUnavailable.

#[export] Instance auth_error_eq_dec : EqDecision auth_error.
Proof. solve_decision. Defined.

Definition requestSignatureV1 : gostring := "v1".
Definition requestReplayScopeV1 : gostring := "http-request-v1".

Definition canonicalHeader (r : Request) (name : gostring) : gostring := join [NUL] (r_Header r name).

Definition envelope_field (name v : gostring) : gostring :=
  name ++ ":" ++ itoa (len v) ++ ":" ++ v ++ [LF].

Section signatures.
Context `{Crypto}.

Definition envelope (r : Request) (uri body timestamp nonce : gostring) : gostring :=
  envelope_field "version" requestSignatureV1 ++
  envelope_field "method" (r_Method r) ++
  envelope_field "request-uri" (if decide (uri = []) then "/" else uri) ++
  envelope_field "content-type" (canonicalHeader r "Content-Type") ++
  envelope_field "body-sha256" (hex_encode (sha256 body)) ++
  envelope_field "bridge-id" (canonicalHeader r "X-Bridge-ID") ++
  envelope_field "session-id" (canonicalHeader r "X-Session-ID") ++
  envelope_field "mcp-session-id" (canonicalHeader r "Mcp-Session-Id") ++
  envelope_field "mcp-protocol-version" (canonicalHeader r "MCP-Protocol-Version") ++
  envelope_field "client-request-id" (canonicalHeader r "X-Client-Request-ID") ++
  envelope_field "timestamp" timestamp ++
  envelope_field "nonce" nonce.

(** [r_RequestURI = None] stands for a request without URL. *)
Definition requestEnvelopeV1 (request : option Request) (body timestamp nonce : gostring)
  : result auth_error gostring :=
  match request with
  | Some r =>
      match r_RequestURI r with
      | Some uri => reject bool_decide (r_Method r = []) with ErrNoRequest;
                    Ok (envelope r uri body timestamp nonce)
      | None => Err ErrNoRequest
      end
  | None => Err ErrNoRequest
  end.

Definition signEnvelope (key env : gostring) : gostring := b64_encode (hmac_sha256 key env).

(** [nonceBytes] are the 18 bytes that [crypto/rand] yields. *)
Definition newFreshness (now : gotime) (nonceBytes : gostring) : gostring * gostring :=
  (itoa (now / second), b64_encode nonceBytes).

Definition SignRequest (key : gostring) (request : option Request) (body : gostring) (now : gotime)
    (nonceBytes : gostring) : result auth_error Headers :=
  reject len key <? 32 with ErrKey;
  let '(timestamp, nonce) := newFreshness now nonceBytes in
  env ← requestEnvelopeV1 request body timestamp nonce;
  Ok (mkHeaders timestamp nonce (requestSignatureV1 ++ "." ++ signEnvelope key env)).

(** ** The verifier *)

Record Verifier := mkVerifier { v_key : gostring; maxAge : Z }.

Definition NewVerifierWithStore (key : gostring) (age : Z) : result auth_error Verifier :=
  reject len key <? 32 with ErrKey;
  Ok (mkVerifier key (if age <=? 0 then minute else age)).

Definition issued (headers : Headers) : option gotime :=
  unix ← atoi (Timestamp headers); Some (unix * second).

Definition validateFreshness (v : Verifier) (headers : Headers) (now : gotime) : result auth_error unit :=
  match issued headers with
  | None => Err ErrHeaders
  | Some t =>
      reject bool_decide (Nonce headers = []) || bool_decide (Signature headers = []) with ErrHeaders;
      match b64_decode (Nonce headers) with
      | None => Err ErrHeaders
      | Some nonce =>
          reject negb (len nonce =? 18) with ErrHeaders;
          reject before t (now - maxAge v) || after t (now + maxAge v) with ErrStale;
          Ok tt
      end
  end.

Definition verifyMAC (key env providedText : gostring) : result auth_error unit :=
  match b64_decode providedText with
  | None => Err ErrSignature
  | Some provided =>
      let expected := default [] (b64_decode (signEnvelope key env)) in
      reject negb (bool_decide (provided = expected)) with ErrSignature;
      Ok tt
  end.

Section verifier.
Context {S : Type} `{Store S}.

Definition consumeNonce (v : Verifier) (s : S) (scope nonce : gostring) (now : gotime)
  : result auth_error unit * S :=
  let '(r, s') := consume s scope nonce (now + maxAge v) now in
  match r with
  | Ok _ => (Ok tt, s')
  | Err ErrAlreadyUsed => (Err ErrNonceUsed, s')
  | Err _ => (Err ErrUnavailable, s')
  end.

Definition VerifyRequest (v : Verifier) (s : S) (request : option Request) (body : gostring)
    (headers : Headers) (now : gotime) : result auth_error unit * S :=
  if negb (has_prefix (Signature headers) (requestSignatureV1 ++ ".")) ||
     bool_decide (drop 3 (Signature headers) = []) then (Err ErrVersion, s)
  else
    match validateFreshness v headers now with
    | Err e => (Err e, s)
    | Ok _ =>
        match requestEnvelopeV1 request body (Timestamp headers) (Nonce headers) with
        | Err e => (Err e, s)
        | Ok env =>
            match verifyMAC (v_key v) env (drop 3 (Signature headers)) with
            | Err e => (Err e, s)
            | Ok _ => consumeNonce v s requestReplayScopeV1 (Nonce headers) now
            end
        end
    end.

End verifier.

(** ** The envelope determines what it signs *)

Lemma itoa_no_colon n : ":"%char ∉ itoa n.
Proof.
  destruct (itoa_digits n) as (? & ? & _ & Hd). rewrite Forall_forall in Hd.
  intros Hin%Hd. vm_compute in Hin. naive_solver.
Qed.

Lemma envelope_field_inj name v w r r' :
  envelope_field name v ++ r = envelope_field name w ++ r' -> v = w /\ r = r'.
Proof.
  unfold envelope_field. rewrite <- !app_assoc. intros E%app_inv_head. injection E as E.
  apply cut_unique in E as [Hl E]; [|apply itoa_no_colon..].
  apply itoa_inj in Hl.
  apply app_inj_1 in E as [-> E]; [|unfold len in Hl; lia]. by injection E.
Qed.

(** The identity of a request, as the envelope signs it. *)
Record signed_identity := mkIdentity {
  si_method : gostring; si_uri : gostring; si_content_type : gostring; si_digest : gostring;
  si_bridge : gostring; si_session : gostring; si_mcp_session : gostring; si_protocol : gostring;
  si_client_request : gostring
}.

Definition identity (r : Request) (body : gostring) : signed_identity :=
  mkIdentity (r_Method r)
    (match r_RequestURI r with Some uri => if decide (uri = []) then "/" else uri | None => [] end)
    (canonicalHeader r "Content-Type") (hex_encode (sha256 body))
    (canonicalHeader r "X-Bridge-ID") (canonicalHeader r "X-Session-ID")
    (canonicalHeader r "Mcp-Session-Id") (canonicalHeader r "MCP-Protocol-Version")
    (canonicalHeader r "X-Client-Request-ID").

(** Two requests with the same envelope have the same method, URI, content type,
    body digest, bridge, session, protocol version and client request, and the
    same timestamp and nonce: no field can be shifted into another. *)
Theorem requestEnvelope_injective r r' body body' ts ts' nonce nonce' env :
  requestEnvelopeV1 (Some r) body ts nonce = Ok env ->
  requestEnvelopeV1 (Some r') body' ts' nonce' = Ok env ->
  identity r body = identity r' body' /\ ts = ts' /\ nonce = nonce'.
Proof.
  unfold requestEnvelopeV1, identity.
  destruct (r_RequestURI r) as [uri|]; [|done]. destruct (r_RequestURI r') as [uri'|]; [|done].
  intros [_ E1]%guard_Ok [_ E2]%guard_Ok. 
  assert (E : envelope r uri body ts nonce = envelope r' uri' body' ts' nonce') by congruence.
  clear E1 E2. rename E into E2. unfold envelope in E2.
  do 11 (apply envelope_field_inj in E2 as [? E2]).
  rewrite <- (app_nil_r (envelope_field "nonce" nonce)), <- (app_nil_r (envelope_field "nonce" nonce')) in E2.
  apply envelope_field_inj in E2 as [? _]. by split_and!; f_equal.
Qed.

End signatures.

(** ** Signing and verifying agree *)
Section agreement.
Context `{Crypto} {S : Type} `{Store S}.

Lemma has_prefix_v1 s : has_prefix (requestSignatureV1 ++ "." ++ s) (requestSignatureV1 ++ ".") = true.
Proof. apply (has_prefix_app (requestSignatureV1 ++ ".")). Qed.

Lemma b64_encode_length_18 s : length s = 18%nat -> b64_encode s <> [].
Proof. intros Hl E. destruct s as [|a [|b [|c s]]]; done. Qed.

(** What is signed verifies: within [maxAge] of the signing time, with a nonce the
    store accepts, the request and body that were signed are accepted. *)
Theorem SignRequest_VerifyRequest `{!CryptoLaws} v request body now now' nonceBytes headers s s' :
  SignRequest (v_key v) request body now nonceBytes = Ok headers ->
  length nonceBytes = 18%nat ->
  in_int (now / second) = true ->
  now' - maxAge v <= now / second * second <= now' + maxAge v ->
  consume s requestReplayScopeV1 (Nonce headers) (now' + maxAge v) now' = (Ok tt, s') ->
  VerifyRequest v s request body headers now' = (Ok tt, s').
Proof.
  unfold SignRequest, newFreshness. intros [_ Hs]%guard_Ok Hnonce Hint Hfresh Hc.
  apply bind_Ok in Hs as (env & Henv & Hh).
  assert (headers = mkHeaders (itoa (now / second)) (b64_encode nonceBytes)
    (requestSignatureV1 ++ "." ++ signEnvelope (v_key v) env)) as -> by congruence.
  clear Hh. cbn [Timestamp Nonce] in *.
  unfold VerifyRequest. cbn [Signature Timestamp Nonce]. rewrite has_prefix_v1. cbn [negb orb].
  change (drop 3 (requestSignatureV1 ++ "." ++ signEnvelope (v_key v) env)) with (signEnvelope (v_key v) env).
  rewrite Henv.
  assert (Hsig : signEnvelope (v_key v) env <> []).
  { unfold signEnvelope. intros E. apply (f_equal b64_decode) in E. rewrite b64_decode_encode in E.
    pose proof (hmac_length (v_key v) env) as Hl. by injection E as E; rewrite E in Hl. }
  rewrite bool_decide_false by done.
  unfold validateFreshness, issued. cbn [Signature Timestamp Nonce]. rewrite atoi_itoa by done.
  cbn [mbind option_bind]. rewrite bool_decide_false by (by apply b64_encode_length_18).
  rewrite (bool_decide_false (_ = [])) by done. cbn [orb guard_err]. rewrite b64_decode_encode.
  unfold len. rewrite Hnonce. cbn [negb guard_err Z.eqb]. unfold before, after.
  change (Z.of_nat 18 =? 18) with true. cbn [negb guard_err].
  rewrite !(proj2 (Z.ltb_ge _ _)) by lia. cbn [orb guard_err].
  unfold verifyMAC. unfold signEnvelope at 1. rewrite b64_decode_encode.
  unfold signEnvelope. rewrite b64_decode_encode. cbn [default Datatypes.id].
  rewrite bool_decide_true by done. cbn [negb guard_err].
  unfold consumeNonce. by rewrite Hc.
Qed.

Lemma VerifyRequest_inv v s request body headers now s' :
  VerifyRequest v s request body headers now = (Ok tt, s') ->
  exists t env, issued headers = Some t /\ now - maxAge v <= t <= now + maxAge v /\
    requestEnvelopeV1 request body (Timestamp headers) (Nonce headers) = Ok env /\
    b64_decode (drop 3 (Signature headers)) = Some (hmac_sha256 (v_key v) env) /\
    consume s requestReplayScopeV1 (Nonce headers) (now + maxAge v) now = (Ok tt, s').
Proof.
  unfold VerifyRequest. destruct (_ || _); [done|].
  unfold validateFreshness. destruct (issued headers) as [t|]; [|done].
  destruct (_ || _); [done|]. cbn [guard_err]. destruct (b64_decode (Nonce headers)); [|done].
  destruct (negb (_ =? 18)); [done|]. cbn [guard_err].
  destruct (before _ _ || after _ _) eqn:Ef; [done|]. cbn [guard_err].
  destruct (requestEnvelopeV1 _ _ _ _) as [env|] eqn:Ee; [|done].
  unfold verifyMAC. destruct (b64_decode (drop 3 _)) as [p|] eqn:Ep; [|done].
  unfold signEnvelope. rewrite b64_decode_encode. cbn [default Datatypes.id].
  destruct (bool_decide _) eqn:Eb; [|done]. cbn [negb guard_err]. apply bool_decide_eq_true in Eb as ->.
  unfold consumeNonce. destruct (consume _ _ _ _ _) as [[[]|[]] s2] eqn:Ec; try done.
  intros [= <-]. exists t, env. unfold before, after in Ef. bool_props. split_and!; (done || lia).
Qed.

(** Replay protection. If a request is accepted twice with the same nonce, then
    at least [maxAge] has passed; and the timestamp was not yet in the past when
    it was first accepted. So a request whose timestamp lies in the past is
    accepted at most once. *)
Theorem VerifyRequest_once `{!StoreLaws S} v s s1 s2 r r' body body' headers headers' t1 t2 between :
  in_int (t1 + maxAge v) = true ->
  VerifyRequest v s r body headers t1 = (Ok tt, s1) ->
  Forall (fun u => u_now u <= t2) between ->
  VerifyRequest v (run_uses s1 between) r' body' headers' t2 = (Ok tt, s2) ->
  Nonce headers = Nonce headers' -> Timestamp headers = Timestamp headers' ->
  t1 + maxAge v <= t2 /\ (forall t, issued headers = Some t -> t1 <= t).
Proof.
  intros Hint H1 Hb H2 Hn Ht.
  apply VerifyRequest_inv in H1 as (t & _ & Hi & Hf & _ & _ & Hc1).
  apply VerifyRequest_inv in H2 as (t' & _ & Hi' & Hf' & _ & _ & Hc2).
  assert (t' = t) as -> by (unfold issued in *; rewrite Ht in Hi; congruence).
  assert (Hle : t1 + maxAge v <= t2).
  { apply (consume_live _ _ _ _ _ _ Hint) in Hc1. apply Z.le_ngt. intros Hlt.
    rewrite Hn in Hc1. eapply (consume_blocked _ _ _ _ (t2 + maxAge v) t2); [|exact Hlt|by rewrite Hc2].
    eapply run_uses_live; [exact Hc1| |exact Hlt]. exact Hb. }
  split; [done|]. intros ? [= <-]%(eq_trans (eq_sym Hi)). lia.
Qed.

End agreement.

(** The window of a request reaches [maxAge] into the future, but its nonce is
    kept for [maxAge] only: a request whose timestamp is not in the past when it is
    accepted is accepted again, byte for byte, once its nonce has expired. *)
Theorem VerifyRequest_replayed `{Crypto} v (s s1 : Memory) request body headers t issued_at :
  0 <= maxAge v ->
  VerifyRequest v s request body headers t = (Ok tt, s1) ->
  issued headers = Some issued_at -> t <= issued_at ->
  exists s2, VerifyRequest v s1 request body headers (t + maxAge v) = (Ok tt, s2).
Proof.
  intros Hage Hv Hi Ht. assert (Hold := Hv). apply VerifyRequest_inv in Hv as (t' & env & Hi' & Hf & He & Hm & Hc).
  assert (t' = issued_at) as -> by congruence.
  unfold VerifyRequest in *. destruct (_ || _); [done|].
  unfold validateFreshness in *. rewrite Hi in *.
  destruct (bool_decide (Nonce headers = []) || _); [done|]. cbn [guard_err] in *.
  destruct (b64_decode (Nonce headers)) as [n|]; [|done].
  destruct (negb (len n =? 18)); [done|]. cbn [guard_err] in *. unfold before, after.
  rewrite !(proj2 (Z.ltb_ge _ _)) by lia. cbn [orb guard_err]. rewrite He.
  unfold verifyMAC. rewrite Hm. unfold signEnvelope. rewrite b64_decode_encode. cbn [default Datatypes.id].
  rewrite bool_decide_true by done. cbn [negb guard_err]. unfold consumeNonce.
  cbn [consume Memory_Store] in *. unfold Memory_Consume at 1.
  assert (Hkey : used s1 !! store_key requestReplayScopeV1 (Nonce headers) = Some (t + maxAge v)).
  { unfold Memory_Consume in Hc. destruct (match used s !! _ with Some _ => _ | None => _ end); [done|].
    injection Hc as <-. cbn [used]. by rewrite lookup_insert_eq. }
  rewrite Hkey. unfold after at 1. rewrite (proj2 (Z.ltb_ge _ _)) by lia. eauto.
Qed.

(** *** Witnesses *)

Definition sample_key : gostring := replicate 32 (byte_of 107).
Definition sample_verifier : Verifier := mkVerifier sample_key minute.
Definition sample_request : Request :=
  mkRequest "POST" (Some "/mcp") (fun name => if decide (name = "Content-Type") then ["application/json"] else []).
Definition sample_nonce : gostring := replicate 18 (byte_of 7).

(** Signed at 100 s, one minute ahead of the verifier's clock at 40 s. *)
Definition sample_headers : Headers :=
  match @SignRequest toy_crypto sample_key (Some sample_request) "{}" (100 * second) sample_nonce with
  | Ok h => h
  | Err _ => mkHeaders [] [] []
  end.

Definition sample_first := @VerifyRequest toy_crypto Memory _ sample_verifier NewMemory
  (Some sample_request) "{}" sample_headers (40 * second).
Definition sample_second := @VerifyRequest toy_crypto Memory _ sample_verifier sample_first.2
  (Some sample_request) "{}" sample_headers (40 * second + minute).

Lemma sample_first_ok : sample_first = (Ok tt, sample_first.2).
Proof. vm_compute. reflexivity. Qed.

Lemma requestEnvelope_injective_witness :
  @identity toy_crypto sample_request "{}" = @identity toy_crypto sample_request "{}" /\
  ("1" : gostring) = "1" /\ ("n" : gostring) = "n".
Proof.
  exact (@requestEnvelope_injective toy_crypto sample_request sample_request "{}" "{}" "1" "1" "n" "n" _
           eq_refl eq_refl).
Defined.

Lemma SignRequest_VerifyRequest_witness :
  exists s', @VerifyRequest toy_crypto Memory _ sample_verifier NewMemory
    (Some sample_request) "{}" sample_headers (99 * second) = (Ok tt, s').
Proof.
  eexists. eapply (@SignRequest_VerifyRequest toy_crypto Memory _ toy_crypto_laws sample_verifier (Some sample_request)
    "{}" (100 * second) (99 * second) sample_nonce sample_headers NewMemory);
    [vm_compute; reflexivity|reflexivity|reflexivity|vm_compute; split; discriminate|reflexivity].
Defined.

Lemma VerifyRequest_once_witness : 40 * second + minute <= 40 * second + minute.
Proof.
  apply (@VerifyRequest_once toy_crypto Memory _ _ sample_verifier NewMemory sample_first.2 sample_second.2
    (Some sample_request) (Some sample_request) "{}" "{}" sample_headers sample_headers
    (40 * second) (40 * second + minute) []);
    [reflexivity|exact sample_first_ok|constructor|vm_compute; reflexivity|reflexivity|reflexivity].
Defined.

Lemma VerifyRequest_replayed_witness :
  exists s2, @VerifyRequest toy_crypto Memory _ sample_verifier sample_first.2
    (Some sample_request) "{}" sample_headers (40 * second + minute) = (Ok tt, s2).
Proof.
  apply (@VerifyRequest_replayed toy_crypto sample_verifier NewMemory sample_first.2
    (Some sample_request) "{}" sample_headers (40 * second) (100 * second));
    [vm_compute; discriminate|exact sample_first_ok|reflexivity|vm_compute; discriminate].
Defined.
