(* ===== verification/Capability.v ===== *)
(** * Worker capabilities ([internal/capability/token.go])

    A capability is a short-lived signed statement of one worker job. The signer
    checks the claims; the verifier checks format, signature, claims, lifetime,
    scope and single use. *)
From S2P Require Import Prelude GoStrings Strconv Base64 Utf8 GoPath Token.
#[local] Open Scope Z_scope.

Definition tokenVersion : gostring := "v1".
Definition maxTokenBytes : Z := Z.shiftl 32 10.
Definition maxCapabilityLifetime : Z := minute.

Record Target := mkTarget { t_Path : gostring; t_BeforeSHA256 : gostring; t_AfterSHA256 : gostring }.

#[export] Instance Target_eq_dec : EqDecision Target.
Proof. solve_decision. Defined.

(** What the worker observes; a token must match it exactly. *)
Record Scope := mkScope {
  s_WorkerType : gostring; s_RequestID : gostring; s_BridgeID : gostring; s_SessionID : gostring;
  s_ClientRequestID : gostring; s_AuthPrincipal : gostring; s_Operation : gostring; s_Path : gostring;
  s_Targets : list Target; s_PolicyID : gostring; s_WorkerPolicyID : gostring;
  s_PolicyDecision : gostring; s_ApprovalRequired : bool; s_ArgumentsSHA256 : gostring;
  s_MaxBytes : Z; s_StartLine : Z; s_EndLine : Z; s_MaxEntries : Z; s_MaxFiles : Z; s_MaxResults : Z;
  s_ExpectedHash : gostring; s_ContentSHA256 : gostring; s_PatternSHA256 : gostring;
  s_QuerySHA256 : gostring
}.

(** The claims have the fields of the scope and three more. *)
Record Claims := mkClaims {
  c_TokenID : gostring;
  c_WorkerType : gostring; c_RequestID : gostring; c_BridgeID : gostring; c_SessionID : gostring;
  c_ClientRequestID : gostring; c_AuthPrincipal : gostring; c_Operation : gostring; c_Path : gostring;
  c_Targets : list Target; c_PolicyID : gostring; c_WorkerPolicyID : gostring;
  c_PolicyDecision : gostring; c_ApprovalRequired : bool; c_ArgumentsSHA256 : gostring;
  c_MaxBytes : Z; c_StartLine : Z; c_EndLine : Z; c_MaxEntries : Z; c_MaxFiles : Z; c_MaxResults : Z;
  c_ExpectedHash : gostring; c_ContentSHA256 : gostring; c_PatternSHA256 : gostring;
  c_QuerySHA256 : gostring;
  c_ExpiresAt : gotime; c_SingleUse : bool
}.

Inductive claims_error :=
  | Incomplete | PathNotNormalized | NegativeLimit | BadLineRange
  | TargetNotNormalized | BadBeforeHash | BadAfterHash | BadDigest.

Inductive cap_error :=
  | BadKey | BadFormat | BadPayload | BadSignature | BadClaims (e : claims_error)
  | Expired | TooLong | ScopeMismatch | AlreadyUsed.

Section capability.
Context `{UnicodeTables} `{Ed25519} `{Json Claims}.

(** ** [validateClaims] *)

Fixpoint validate_targets (targets : list Target) : result claims_error unit :=
  match targets with
  | [] => Ok tt
  | t :: rest =>
      reject negb (is_normalized (t_Path t)) with TargetNotNormalized;
      reject negb (optional_SHA256 (t_BeforeSHA256 t)) with BadBeforeHash;
      reject negb (optional_SHA256 (t_AfterSHA256 t)) with BadAfterHash;
      validate_targets rest
  end.

Definition claims_digests (c : Claims) : list gostring :=
  [c_ExpectedHash c; c_ContentSHA256 c; c_PatternSHA256 c; c_QuerySHA256 c; c_ArgumentsSHA256 c].

Definition line_range_bad (first last : Z) : bool :=
  negb (Bool.eqb (first =? 0) (last =? 0)) || (last <? first) ||
  (10000 <? wrap64 (wrap64 (last - first) + 1)).

Definition validateClaims (c : Claims) : result claims_error unit :=
  reject bool_decide (c_TokenID c = []) || bool_decide (c_WorkerType c = []) ||
         bool_decide (c_RequestID c = []) || bool_decide (c_SessionID c = []) ||
         bool_decide (c_Operation c = []) || bool_decide (c_Path c = []) ||
         bool_decide (c_PolicyID c = []) || (c_ExpiresAt c =? zero_time) with Incomplete;
  reject negb (is_normalized (c_Path c)) with PathNotNormalized;
  reject (c_MaxBytes c <? 0) || (c_StartLine c <? 0) || (c_EndLine c <? 0) ||
         (c_MaxEntries c <? 0) || (c_MaxFiles c <? 0) || (c_MaxResults c <? 0) with NegativeLimit;
  reject line_range_bad (c_StartLine c) (c_EndLine c) with BadLineRange;
  _ ← validate_targets (c_Targets c);
  reject negb (forallb optional_SHA256 (claims_digests c)) with BadDigest;
  Ok tt.

(** ** Scope *)

Fixpoint targetsEqual (a b : list Target) : bool :=
  match a, b with
  | [], [] => true
  | x :: a', y :: b' => bool_decide (x = y) && targetsEqual a' b'
  | _, _ => false
  end.

Definition matchesScope (c : Claims) (s : Scope) : bool :=
  bool_decide (c_WorkerType c = s_WorkerType s) &&
  bool_decide (c_RequestID c = s_RequestID s) &&
  bool_decide (c_BridgeID c = s_BridgeID s) &&
  bool_decide (c_SessionID c = s_SessionID s) &&
  bool_decide (c_ClientRequestID c = s_ClientRequestID s) &&
  bool_decide (c_AuthPrincipal c = s_AuthPrincipal s) &&
  bool_decide (c_Operation c = s_Operation s) &&
  bool_decide (c_Path c = s_Path s) &&
  targetsEqual (c_Targets c) (s_Targets s) &&
  bool_decide (c_PolicyID c = s_PolicyID s) &&
  bool_decide (c_WorkerPolicyID c = s_WorkerPolicyID s) &&
  bool_decide (c_PolicyDecision c = s_PolicyDecision s) &&
  Bool.eqb (c_ApprovalRequired c) (s_ApprovalRequired s) &&
  bool_decide (c_ArgumentsSHA256 c = s_ArgumentsSHA256 s) &&
  (c_MaxBytes c =? s_MaxBytes s) &&
  (c_StartLine c =? s_StartLine s) &&
  (c_EndLine c =? s_EndLine s) &&
  (c_MaxEntries c =? s_MaxEntries s) &&
  (c_MaxFiles c =? s_MaxFiles s) &&
  (c_MaxResults c =? s_MaxResults s) &&
  bool_decide (c_ExpectedHash c = s_ExpectedHash s) &&
  bool_decide (c_ContentSHA256 c = s_ContentSHA256 s) &&
  bool_decide (c_PatternSHA256 c = s_PatternSHA256 s) &&
  bool_decide (c_QuerySHA256 c = s_QuerySHA256 s).

(** ** Signing *)

(** A [Signer] is its private key. *)
Definition NewSigner (privateKey : gostring) : result cap_error gostring :=
  reject negb (len privateKey =? 64) with BadKey; Ok privateKey.

Definition NewSignerFromSeed (seed : gostring) : result cap_error gostring :=
  reject negb (len seed =? 32) with BadKey; NewSigner (ed_from_seed seed).

Definition PublicKey (privateKey : gostring) : gostring := ed_public privateKey.

Definition Sign (privateKey : gostring) (c : Claims) (now : gotime) : result cap_error gostring :=
  match validateClaims c with
  | Err e => Err (BadClaims e)
  | Ok _ =>
      reject negb (after (c_ExpiresAt c) now) with Expired;
      reject after (c_ExpiresAt c) (now + maxCapabilityLifetime) with TooLong;
      match marshal c with
      | None => Err BadPayload
      | Some payload =>
          let signed := tokenVersion ++ "." ++ b64_encode payload in
          Ok (signed ++ "." ++ b64_encode (ed_sign privateKey signed))
      end
  end.

(** ** Verification *)

(** [used] holds the identifiers of the single-use tokens that were accepted. *)
Record Verifier := mkVerifier { publicKey : gostring; used : gset gostring }.

Definition NewVerifier (publicKey : gostring) : result cap_error Verifier :=
  reject negb (len publicKey =? 32) with BadKey; Ok (mkVerifier publicKey ∅).

(** The checks before the single-use bookkeeping. *)
Definition authenticate (publicKey token : gostring) (scope : Scope) (now : gotime) : result cap_error Claims :=
  reject (len token =? 0) || (maxTokenBytes <? len token) with BadFormat;
  match split_byte "." token with
  | [version; payload64; signature64] =>
      reject negb (bool_decide (version = tokenVersion)) with BadFormat;
      match decodeCanonicalBase64 payload64 with
      | None => Err BadPayload
      | Some payload =>
          match decodeCanonicalBase64 signature64 with
          | None => Err BadSignature
          | Some signature =>
              reject negb (len signature =? 64) with BadSignature;
              reject negb (ed_verify publicKey (version ++ "." ++ payload64) signature) with BadSignature;
              match decode_strict payload with
              | None => Err BadPayload
              | Some claims =>
                  match validateClaims claims with
                  | Err e => Err (BadClaims e)
                  | Ok _ =>
                      reject negb (before now (c_ExpiresAt claims)) with Expired;
                      reject after (c_ExpiresAt claims) (now + maxCapabilityLifetime) with TooLong;
                      reject negb (matchesScope claims scope) with ScopeMismatch;
                      Ok claims
                  end
              end
          end
      end
  | _ => Err BadFormat
  end.

Definition Verify (v : Verifier) (token : gostring) (scope : Scope) (now : gotime)
  : result cap_error Claims * Verifier :=
  match authenticate (publicKey v) token scope now with
  | Err e => (Err e, v)
  | Ok claims =>
      if c_SingleUse claims then
        if bool_decide (c_TokenID claims ∈ used v) then (Err AlreadyUsed, v)
        else (Ok claims, mkVerifier (publicKey v) ({[c_TokenID claims]} ∪ used v))
      else (Ok claims, v)
  end.

(** ** What the checks mean *)

Definition scope_of (c : Claims) : Scope :=
  mkScope (c_WorkerType c) (c_RequestID c) (c_BridgeID c) (c_SessionID c) (c_ClientRequestID c)
    (c_AuthPrincipal c) (c_Operation c) (c_Path c) (c_Targets c) (c_PolicyID c) (c_WorkerPolicyID c)
    (c_PolicyDecision c) (c_ApprovalRequired c) (c_ArgumentsSHA256 c) (c_MaxBytes c) (c_StartLine c)
    (c_EndLine c) (c_MaxEntries c) (c_MaxFiles c) (c_MaxResults c) (c_ExpectedHash c)
    (c_ContentSHA256 c) (c_PatternSHA256 c) (c_QuerySHA256 c).

Lemma targetsEqual_spec a b : targetsEqual a b = true <-> a = b.
Proof.
  revert b; induction a as [|x a IH]; intros [|y b]; cbn [targetsEqual]; try done.
  rewrite andb_true_iff, bool_decide_eq_true, IH. naive_solver.
Qed.

Lemma matchesScope_spec c s : matchesScope c s = true <-> scope_of c = s.
Proof.
  unfold matchesScope. rewrite !andb_true_iff, !bool_decide_eq_true, !Z.eqb_eq, targetsEqual_spec, eqb_true_iff.
  destruct s. unfold scope_of. cbn. split; [intros; f_equal; tauto|].
  intros [=]. tauto.
Qed.

Lemma matchesScope_of c : matchesScope c (scope_of c) = true.
Proof. by apply matchesScope_spec. Qed.

Definition valid_target (t : Target) : Prop :=
  NormalizePath (t_Path t) = Ok (t_Path t) /\
  optional_SHA256 (t_BeforeSHA256 t) = true /\ optional_SHA256 (t_AfterSHA256 t) = true.

Record valid_claims (c : Claims) : Prop := {
  vc_identity : c_TokenID c <> [] /\ c_WorkerType c <> [] /\ c_RequestID c <> [] /\ c_SessionID c <> [] /\
    c_Operation c <> [] /\ c_PolicyID c <> [] /\ c_ExpiresAt c <> zero_time;
  vc_path : c_Path c <> [] /\ NormalizePath (c_Path c) = Ok (c_Path c);
  vc_limits : 0 <= c_MaxBytes c /\ 0 <= c_MaxEntries c /\ 0 <= c_MaxFiles c /\ 0 <= c_MaxResults c;
  vc_lines : c_StartLine c = 0 /\ c_EndLine c = 0 \/
    1 <= c_StartLine c <= c_EndLine c /\ c_EndLine c - c_StartLine c < 10000;
  vc_targets : Forall valid_target (c_Targets c);
  vc_digests : Forall (fun d => optional_SHA256 d = true) (claims_digests c)
}.

Lemma validate_targets_spec ts : validate_targets ts = Ok tt <-> Forall valid_target ts.
Proof.
  induction ts as [|t ts IH]; cbn [validate_targets]; [split; [constructor|done]|].
  rewrite !guard_Ok, !negb_false_iff, is_normalized_spec, IH, Forall_cons. unfold valid_target. tauto.
Qed.

(** On machine integers the line range is checked without overflow. *)
Lemma line_range_spec first last :
  0 <= first -> 0 <= last -> in_int last = true ->
  line_range_bad first last = false <->
  first = 0 /\ last = 0 \/ 1 <= first <= last /\ last - first < 10000.
Proof.
  intros Hf Hl Hi. apply in_int_spec in Hi. unfold line_range_bad.
  rewrite !orb_false_iff, negb_false_iff, eqb_true_iff.
  destruct (Z.eqb_spec first 0) as [->|], (Z.eqb_spec last 0) as [->|].
  - split; [by left|]. done.
  - split; [naive_solver|lia].
  - split; [naive_solver|lia].
  - destruct (Z.ltb_spec last first); [split; [naive_solver|lia]|].
    rewrite !wrap64_id by (apply in_int_spec; rewrite ?wrap64_id by (apply in_int_spec; lia); lia). rewrite Z.ltb_ge. lia.
Qed.

Lemma validateClaims_spec c :
  in_int (c_EndLine c) = true -> validateClaims c = Ok tt <-> valid_claims c.
Proof.
  intros Hi. unfold validateClaims.
  rewrite !guard_Ok, !orb_false_iff, !bool_decide_eq_false, Z.eqb_neq, !Z.ltb_ge, negb_false_iff.
  rewrite bind_Ok. setoid_rewrite guard_Ok. setoid_rewrite negb_false_iff. setoid_rewrite forallb_Forall.
  rewrite is_normalized_spec.
  split.
  - intros (?&?&?&Hl&[]&?%validate_targets_spec&?&_). apply line_range_spec in Hl; [|tauto..].
    by split; try tauto.
  - intros [? ? ? Hl ? ?]. split; [tauto|]. split; [tauto|]. split; [lia|].
    split; [apply line_range_spec; lia || done|]. exists tt. by rewrite validate_targets_spec.
Qed.

(** ** Acceptance *)

Definition signed_part (payload : gostring) : gostring := tokenVersion ++ "." ++ b64_encode payload.
Definition token_of (payload signature : gostring) : gostring :=
  signed_part payload ++ "." ++ b64_encode signature.

Lemma split_token payload signature :
  split_byte "." (token_of payload signature) = [tokenVersion; b64_encode payload; b64_encode signature].
Proof.
  unfold token_of, signed_part. rewrite <- !app_assoc. cbn [app].
  rewrite split_byte_cons_sep by (unfold tokenVersion; set_solver).
  rewrite split_byte_cons_sep by apply b64_encode_no_dot.
  by rewrite split_byte_app_no_sep by apply b64_encode_no_dot.
Qed.

Record acceptable (pk token : gostring) (now : gotime) (c : Claims) : Prop := {
  ac_signed : exists payload signature, token = token_of payload signature /\ length signature = 64%nat /\
    ed_verify pk (signed_part payload) signature = true /\ decode_strict payload = Some c;
  ac_size : len token <= maxTokenBytes;
  ac_valid : validateClaims c = Ok tt;
  ac_fresh : now < c_ExpiresAt c <= now + maxCapabilityLifetime
}.

Lemma split_three token a b c : split_byte "." token = [a; b; c] -> token = a ++ "." ++ b ++ "." ++ c.
Proof. intros E. rewrite <- (join_split_byte "." token), E. done. Qed.

Lemma authenticate_Ok pk token scope now c :
  authenticate pk token scope now = Ok c <-> acceptable pk token now c /\ scope_of c = scope.
Proof.
  unfold authenticate. rewrite guard_Ok, orb_false_iff, Z.eqb_neq, Z.ltb_ge. split.
  - intros ((_ & Hlen) & Ha). destruct (split_byte "." token) as [|v [|p [|s [|]]]] eqn:Hs; try done.
    apply guard_Ok in Ha as [Hv%negb_false_iff%bool_decide_eq_true Ha]. subst v.
    destruct (decodeCanonicalBase64 p) as [payload|] eqn:Hp; [|done].
    destruct (decodeCanonicalBase64 s) as [signature|] eqn:Hg; [|done].
    apply decodeCanonicalBase64_Some in Hp as ->. apply decodeCanonicalBase64_Some in Hg as ->.
    apply guard_Ok in Ha as [Hl%negb_false_iff%Z.eqb_eq Ha].
    apply guard_Ok in Ha as [He%negb_false_iff Ha].
    destruct (decode_strict payload) as [c'|] eqn:Hd; [|done].
    destruct (validateClaims c') as [[]|] eqn:Hc; [|done].
    apply guard_Ok in Ha as [Ht1%negb_false_iff%Z.ltb_lt Ha].
    apply guard_Ok in Ha as [Ht2%Z.ltb_ge Ha].
    apply guard_Ok in Ha as [Hm%negb_false_iff%matchesScope_spec [= <-]].
    split; [|done]. split; [|done..|lia]. exists payload, signature.
    split; [by apply split_three in Hs; rewrite Hs|]. split; [unfold len in Hl; lia|done].
  - intros [[(payload & signature & -> & Hl & He & Hd) Hs Hc Ht] <-]. split.
    { split; [|done]. unfold token_of, signed_part. rewrite !len_app. unfold len. cbn. lia. }
    rewrite split_token, bool_decide_eq_true_2, !decodeCanonicalBase64_encode by done.
    cbn [negb guard_err]. unfold len. rewrite Hl. cbn [negb guard_err Z.of_nat].
    unfold signed_part in He. rewrite He, Hd, Hc. unfold before, after.
    rewrite (proj2 (Z.ltb_lt _ _)), (proj2 (Z.ltb_ge _ _)), matchesScope_of by lia. done.
Qed.

Lemma Verify_Ok v token scope now c v' :
  Verify v token scope now = (Ok c, v') <->
  acceptable (publicKey v) token now c /\ scope_of c = scope /\
  publicKey v' = publicKey v /\
  (if c_SingleUse c then c_TokenID c ∉ used v /\ used v' = {[c_TokenID c]} ∪ used v
   else used v' = used v).
Proof.
  rewrite (assoc and), <- authenticate_Ok. unfold Verify.
  destruct (authenticate _ _ _ _) as [c0|e] eqn:Ha; [|split; [done|by intros [? _]]].
  destruct v as [k u], v' as [k' u']; cbn [publicKey used].
  destruct (c_SingleUse c0) eqn:E; [case_bool_decide as Hu|]; (split; [intros Hv|intros ([= ->] & Hr)]).
  - done.
  - rewrite E in Hr. tauto.
  - injection Hv as <- <- <-. by rewrite E.
  - rewrite E in Hr. destruct Hr as (-> & _ & ->). done.
  - injection Hv as <- <- <-. by rewrite E.
  - rewrite E in Hr. by destruct Hr as (-> & ->).
Qed.

(** *** A signed capability is accepted *)

Definition claims_text (c : Claims) : Prop :=
  Forall (fun s => utf8_valid s = true)
    ([c_TokenID c; c_WorkerType c; c_RequestID c; c_BridgeID c; c_SessionID c; c_ClientRequestID c;
      c_AuthPrincipal c; c_Operation c; c_Path c; c_PolicyID c; c_WorkerPolicyID c; c_PolicyDecision c;
      c_ArgumentsSHA256 c; c_ExpectedHash c; c_ContentSHA256 c; c_PatternSHA256 c; c_QuerySHA256 c] ++
     (t_Path <$> c_Targets c) ++ (t_BeforeSHA256 <$> c_Targets c) ++ (t_AfterSHA256 <$> c_Targets c)).

Lemma Sign_Ok key c now token :
  Sign key c now = Ok token <->
  validateClaims c = Ok tt /\ now < c_ExpiresAt c <= now + maxCapabilityLifetime /\
  exists payload, marshal c = Some payload /\ token = token_of payload (ed_sign key (signed_part payload)).
Proof.
  unfold Sign. destruct (validateClaims c) as [[]|]; [|naive_solver].
  rewrite !guard_Ok, negb_false_iff. unfold after. rewrite Z.ltb_lt, Z.ltb_ge.
  destruct (marshal c) as [payload|]; [|naive_solver]. unfold token_of, signed_part. rewrite <- !app_assoc.
  split.
  - intros (? & ? & [= <-]). split; [done|]. split; [lia|]. by exists payload.
  - intros (_ & ? & (p & [= <-] & ->)). split; [lia|]. split; [lia|done].
Qed.

Section roundtrip.
Context `{!Ed25519Laws} `{!JsonLaws Claims claims_text}.
#[local] Set Default Proof Using "All".

Lemma Sign_acceptable seed key c t0 now token :
  NewSignerFromSeed seed = Ok key -> Sign key c t0 = Ok token ->
  claims_text c -> len token <= maxTokenBytes -> t0 <= now < c_ExpiresAt c ->
  acceptable (PublicKey key) token now c.
Proof.
  unfold NewSignerFromSeed, NewSigner. intros [Hseed%negb_false_iff%Z.eqb_eq Hk]%guard_Ok HS Ht Hl Hn.
  apply guard_Ok in Hk as [_ [= <-]]. assert (length seed = 32%nat) as Hs by (unfold len in Hseed; lia).
  apply Sign_Ok in HS as (Hv & Hx & (payload & Hm & ->)).
  split; [|done..|lia]. exists payload, (ed_sign (ed_from_seed seed) (signed_part payload)).
  split; [done|]. split; [by apply ed_sign_length, ed_seed_length|].
  split; [by apply ed_verify_sign|by eapply decode_marshal].
Qed.

(** What a signer signs, a verifier with its public key accepts until it expires,
    for exactly the scope it names - unless it was single-use and is spent - and
    yields the claims that were signed. *)
Theorem Sign_Verify seed key c t0 now token v :
  NewSignerFromSeed seed = Ok key -> Sign key c t0 = Ok token ->
  claims_text c -> len token <= maxTokenBytes -> t0 <= now < c_ExpiresAt c ->
  publicKey v = PublicKey key ->
  (Verify v token (scope_of c) now).1 =
    (if c_SingleUse c && bool_decide (c_TokenID c ∈ used v) then Err AlreadyUsed else Ok c) /\
  (forall scope, scope <> scope_of c -> is_ok (Verify v token scope now).1 = false).
Proof.
  intros Hk HS Ht Hl Hn Hp. pose proof (Sign_acceptable _ _ _ _ _ _ Hk HS Ht Hl Hn) as Ha.
  rewrite <- Hp in Ha. split.
  - unfold Verify. rewrite (proj2 (authenticate_Ok _ _ _ _ _) (conj Ha eq_refl)).
    destruct (c_SingleUse c); [|done]. by case_bool_decide.
  - intros scope Hne. destruct (Verify v token scope now) as [[c'|] v'] eqn:E; [|done].
    apply Verify_Ok in E as (Ha' & Hs & _). exfalso. apply Hne. rewrite <- Hs. f_equal.
    destruct Ha as [(p & s & -> & _ & _ & Hd) _ _ _], Ha' as [(p' & s' & E & _ & _ & Hd') _ _ _].
    apply (f_equal (split_byte ".")) in E. rewrite !split_token in E.
    injection E as E _. apply b64_encode_inj in E as ->. congruence.
Qed.

End roundtrip.

(** *** What an accepted capability guarantees *)

(** An accepted token carries a valid Ed25519 signature over the very payload its
    claims were decoded from; the claims are well formed - paths normalised, limits
    non-negative, line range within 10000 lines, hashes lowercase SHA-256 -, live
    for at most a minute more, equal to the scope in every field, and, when single
    use, not seen before and recorded. *)
Theorem Verify_sound v token scope now c v' :
  in_int (c_EndLine c) = true ->
  Verify v token scope now = (Ok c, v') ->
  (exists payload signature, token = token_of payload signature /\
     ed_verify (publicKey v) (signed_part payload) signature = true /\ decode_strict payload = Some c) /\
  valid_claims c /\ scope_of c = scope /\ now < c_ExpiresAt c <= now + minute /\
  (c_SingleUse c = true -> c_TokenID c ∉ used v /\ c_TokenID c ∈ used v').
Proof.
  intros Hi ([(p & s & ? & ? & ? & ?) _ Hv Hf] & Hs & _ & Hu)%Verify_Ok.
  split; [eauto|]. split; [by apply validateClaims_spec|]. split; [done|]. split; [done|].
  intros E. rewrite E in Hu. set_solver.
Qed.

(** *** Single use *)

Fixpoint verify_all (v : Verifier) (calls : list (gostring * Scope * gotime)) : list (result cap_error Claims) :=
  match calls with
  | [] => []
  | (token, scope, now) :: rest =>
      let '(r, v') := Verify v token scope now in r :: verify_all v' rest
  end.

Definition single_use_id (r : result cap_error Claims) : option gostring :=
  match r with Ok c => if c_SingleUse c then Some (c_TokenID c) else None | Err _ => None end.

Lemma Verify_step v token scope now r v' :
  Verify v token scope now = (r, v') ->
  match single_use_id r with
  | Some id => id ∉ used v /\ used v' = {[id]} ∪ used v
  | None => used v' = used v
  end.
Proof.
  destruct r as [c|e]; cbn [single_use_id].
  - intros (_ & _ & _ & Hu)%Verify_Ok. by destruct (c_SingleUse c).
  - unfold Verify. destruct (authenticate _ _ _ _) as [c|]; [|by intros [= _ <-]].
    destruct (c_SingleUse c); [case_bool_decide|]; by intros [= _ <-].
Qed.

Lemma verify_all_ids v calls :
  NoDup (omap single_use_id (verify_all v calls)) /\
  Forall (.∉ used v) (omap single_use_id (verify_all v calls)).
Proof.
  revert v. induction calls as [|[[token scope] now] calls IH]; intros v; [by repeat constructor|].
  cbn [verify_all]. destruct (Verify v token scope now) as [r v'] eqn:E. apply Verify_step in E.
  destruct (IH v') as [Hd Hf]. cbn [omap list_omap]. rewrite Forall_forall in Hf.
  destruct (single_use_id r) as [id|].
  - destruct E as [Hn Hu]. rewrite Hu in Hf. split.
    + constructor; [|done]. intros Hin%Hf. set_solver.
    + constructor; [done|]. apply Forall_forall. intros x Hx%Hf. set_solver.
  - rewrite E in Hf. split; [done|]. by apply Forall_forall.
Qed.

(** C21. However many tokens a verifier sees, at whatever times and for whatever scopes,
    no single-use identifier is accepted twice: identifiers are never forgotten. *)
Theorem Verify_single_use v calls : NoDup (omap single_use_id (verify_all v calls)).
Proof. apply verify_all_ids. Qed.

End capability.

(** *** Witnesses *)

#[export] Instance Claims_eq_dec : EqDecision Claims.
Proof. solve_decision. Defined.

Definition sample_claims : Claims :=
  mkClaims "t1" "file" "r1" "b1" "s1" "cr1" "p1" "write_file" "src/main.go"
    [mkTarget "src/main.go" [] []] "approve-workspace-write" [] [] true [] 1024 1 40 0 0 0 [] [] [] []
    (30 * second) true.

Definition sample_seed : gostring := replicate 32 (byte_of 9).
Definition sample_key : gostring := sample_seed ++ sample_seed.
Definition sample_json : Json Claims := one_json sample_claims.

Definition sample_token : gostring :=
  token_of "{}" (@ed_sign toy_ed sample_key (signed_part "{}")).
Definition sample_verifier : Verifier := mkVerifier sample_seed ∅.
Definition sample_accept := @Verify ascii_tables toy_ed sample_json sample_verifier sample_token (scope_of sample_claims) 0.

Lemma Sign_Verify_witness : sample_accept.1 = Ok sample_claims.
Proof.
  refine (proj1 (@Sign_Verify ascii_tables toy_ed sample_json toy_ed_laws (one_json_laws _ _)
    sample_seed sample_key sample_claims 0 0 sample_token sample_verifier _ _ _ _ _ _)).
  - vm_compute. reflexivity.
  - vm_compute. reflexivity.
  - apply (bool_decide_unpack _). vm_compute. exact I.
  - apply (bool_decide_unpack _). vm_compute. exact I.
  - split; apply (bool_decide_unpack _); vm_compute; exact I.
  - vm_compute. reflexivity.
Defined.

Lemma Verify_sound_witness :
  @valid_claims ascii_tables sample_claims /\ c_TokenID sample_claims ∈ used sample_accept.2.
Proof.
  destruct (@Verify_sound ascii_tables toy_ed sample_json sample_verifier sample_token
    (scope_of sample_claims) 0 sample_claims sample_accept.2) as (_ & Hv & _ & _ & Hu).
  - vm_compute. reflexivity.
  - vm_compute. reflexivity.
  - split; [exact Hv|]. exact (proj2 (Hu eq_refl)).
Defined.
