(* ===== verification/Approval.v ===== *)
(** * Approvals ([internal/approval/token.go])

    A dry run registers a challenge; an approver signs claims that name it; the
    worker inspects the token and later verifies it, which takes the challenge and
    spends the token. The manager keeps its state in one replay store. *)
From S2P Require Import Prelude GoStrings Strconv Base64 Utf8 GoPath Token Replay.
#[local] Open Scope Z_scope.

Definition maxApprovalLifetime : Z := 5 * minute.

Record Target := mkTarget { t_Path : gostring; t_BeforeSHA256 : gostring; t_AfterSHA256 : gostring }.

#[export] Instance Target_eq_dec : EqDecision Target.
Proof. solve_decision. Defined.

Record Claims := mkClaims {
  ApprovalID : gostring; ChallengeID : gostring; Approver : gostring; SessionID : gostring;
  Operation : gostring; Targets : list Target; Path : gostring; ContentSHA256 : gostring;
  ExpectedHash : gostring; ReviewSHA256 : gostring; ExpiresAt : gotime
}.

#[export] Instance Claims_eq_dec : EqDecision Claims.
Proof. solve_decision. Defined.

Record Scope := mkScope {
  s_SessionID : gostring; s_Operation : gostring; s_Targets : list Target; s_Path : gostring;
  s_ContentSHA256 : gostring; s_ExpectedHash : gostring; s_ReviewSHA256 : gostring
}.

Inductive approval_error :=
  | ErrKey | ErrNoChallenges | ErrIncomplete | ErrApprover | ErrIDs | ErrReview | ErrTargetLimit
  | ErrTargetPath | ErrTargetDuplicate | ErrTargetHash | ErrExpiry | ErrMarshal | ErrStore (e : replay_error)
  | ErrFormat | ErrSignature | ErrPayload | ErrExpired | ErrScope
  | ErrChallengeGone | ErrBinding | ErrUsed | ErrUnavailable.

Section approval.
Context `{UnicodeTables} `{Crypto} `{Json Claims}.

(** ** Normalisation *)

Definition validApprover (value : gostring) : bool :=
  negb ((len value =? 0) || (256 <? len value) || bool_decide (trim_space value = [])) &&
  forallb (fun c => negb ((code c <? 32) || (code c =? 0x7f))) value.

(** The loop over the targets: [seen] holds the paths met so far. *)
Fixpoint normalize_targets (targets : list Target) (seen : gset gostring) : result approval_error (list Target) :=
  match targets with
  | [] => Ok []
  | t :: rest =>
      match NormalizePath (t_Path t) with
      | Err _ => Err ErrTargetPath
      | Ok normalized =>
          reject bool_decide (normalized ∈ seen) with ErrTargetDuplicate;
          reject negb (validSHA256 (t_AfterSHA256 t)) ||
                 (negb (bool_decide (t_BeforeSHA256 t = [])) && negb (validSHA256 (t_BeforeSHA256 t)))
            with ErrTargetHash;
          rest' ← normalize_targets rest ({[normalized]} ∪ seen);
          Ok (mkTarget normalized (t_BeforeSHA256 t) (t_AfterSHA256 t) :: rest')
      end
  end.

(** [Path], [ExpectedHash] and [ContentSHA256] mirror a single target. *)
Definition mirror (c : Claims) (id : gostring) (targets : list Target) : Claims :=
  let '(p, before, after) :=
    match targets with
    | [t] => (t_Path t, t_BeforeSHA256 t, t_AfterSHA256 t)
    | _ => ([], [], [])
    end in
  mkClaims (ApprovalID c) id (Approver c) (SessionID c) (Operation c) targets p after before
    (ReviewSHA256 c) (ExpiresAt c).

Definition normalizeClaims (c : Claims) (requireApprover : bool) : result approval_error Claims :=
  reject bool_decide (ApprovalID c = []) || bool_decide (SessionID c = []) ||
         bool_decide (Operation c = []) || (ExpiresAt c =? zero_time) with ErrIncomplete;
  reject requireApprover && negb (validApprover (Approver c)) with ErrIncomplete;
  reject negb (bool_decide (Approver c = [])) && negb (validApprover (Approver c)) with ErrApprover;
  let id := if decide (ChallengeID c = []) then ApprovalID c else ChallengeID c in
  reject negb (bool_decide (id = ApprovalID c)) with ErrIDs;
  reject (if decide (ReviewSHA256 c = []) then negb (bool_decide (Operation c = "write_file"))
          else negb (validSHA256 (ReviewSHA256 c))) with ErrReview;
  reject bool_decide (Targets c = []) && (bool_decide (Path c = []) || bool_decide (ContentSHA256 c = []))
    with ErrIncomplete;
  let targets := if decide (Targets c = []) then [mkTarget (Path c) (ExpectedHash c) (ContentSHA256 c)]
                 else Targets c in
  reject 20 <? len targets with ErrTargetLimit;
  normalized ← normalize_targets targets ∅;
  Ok (mirror c id normalized).

Definition normalizeScope (s : Scope) : result approval_error (list Target) :=
  Targets <$> normalizeClaims
    (mkClaims "scope" "scope" [] (s_SessionID s) (s_Operation s) (s_Targets s) (s_Path s)
       (s_ContentSHA256 s) (s_ExpectedHash s) (s_ReviewSHA256 s) second) false.

Definition sameBinding (a b : Claims) : bool :=
  bool_decide (ChallengeID a = ChallengeID b) && bool_decide (SessionID a = SessionID b) &&
  bool_decide (Operation a = Operation b) && bool_decide (ReviewSHA256 a = ReviewSHA256 b) &&
  bool_decide (Targets a = Targets b).

Definition validateChallengeBinding (payload : gostring) (approved : Claims) : result approval_error unit :=
  match decode_strict payload with
  | None => Err ErrBinding
  | Some registered =>
      match normalizeClaims registered false with
      | Err _ => Err ErrBinding
      | Ok registered =>
          reject negb (sameBinding registered approved) || after (ExpiresAt approved) (ExpiresAt registered)
            with ErrBinding;
          Ok tt
      end
  end.

(** ** The manager *)

(** [m_challenges] says whether a challenge store is configured; it is then the
    store that is also used against replay. *)
Record Manager := mkManager { m_key : gostring; m_challenges : bool }.

Definition NewWithStore (key : gostring) : result approval_error Manager :=
  reject len key <? 32 with ErrKey; Ok (mkManager key false).

Definition NewWithChallengeStore (key : gostring) : result approval_error Manager :=
  m ← NewWithStore key; Ok (mkManager (m_key m) true).

Definition Sign (m : Manager) (c : Claims) (now : gotime) : result approval_error gostring :=
  normalized ← normalizeClaims c true;
  reject negb (after (ExpiresAt normalized) now) || after (ExpiresAt normalized) (now + maxApprovalLifetime)
    with ErrExpiry;
  match marshal normalized with
  | None => Err ErrMarshal
  | Some payload =>
      let encoded := b64_encode payload in
      Ok (encoded ++ "." ++ b64_encode (hmac_sha256 (m_key m) encoded))
  end.

Definition authenticate (m : Manager) (token : gostring) (scope : Scope) (now : gotime)
  : result approval_error Claims :=
  reject (len token =? 0) || (Z.shiftl 32 10 <? len token) with ErrFormat;
  match split_byte "." token with
  | [payload64; mac64] =>
      match decodeCanonicalBase64 mac64 with
      | None => Err ErrSignature
      | Some provided =>
          reject negb (bool_decide (provided = hmac_sha256 (m_key m) payload64)) with ErrSignature;
          match decodeCanonicalBase64 payload64 ≫= decode_strict with
          | None => Err ErrPayload
          | Some raw =>
              match normalizeClaims raw true with
              | Err _ => Err ErrPayload
              | Ok c =>
                  reject negb (before now (ExpiresAt c)) || after (ExpiresAt c) (now + maxApprovalLifetime)
                    with ErrExpired;
                  match normalizeScope scope with
                  | Err _ => Err ErrScope
                  | Ok targets =>
                      reject negb (bool_decide (SessionID c = s_SessionID scope)) ||
                             negb (bool_decide (Operation c = s_Operation scope)) ||
                             negb (bool_decide (ReviewSHA256 c = s_ReviewSHA256 scope)) ||
                             negb (bool_decide (Targets c = targets)) with ErrScope;
                      Ok c
                  end
              end
          end
      end
  | _ => Err ErrFormat
  end.

Section store.
Context {S : Type} `{Store S} `{ChallengeStore S}.

Definition RegisterChallenge (m : Manager) (s : S) (c : Claims) (now : gotime) : result approval_error unit * S :=
  if negb (m_challenges m) then (Err ErrNoChallenges, s)
  else
    match normalizeClaims c false with
    | Err e => (Err e, s)
    | Ok normalized =>
        if negb (after (ExpiresAt normalized) now) || after (ExpiresAt normalized) (now + maxApprovalLifetime)
        then (Err ErrExpiry, s)
        else
          match marshal normalized with
          | None => (Err ErrMarshal, s)
          | Some payload =>
              match put s "approval" (ChallengeID normalized) payload (ExpiresAt normalized) now with
              | (Ok _, s') => (Ok tt, s')
              | (Err e, s') => (Err (ErrStore e), s')
              end
          end
    end.

(** [inspect] reads; [Inspect] is its first result. *)
Definition inspect (m : Manager) (s : S) (token : gostring) (scope : Scope) (now : gotime)
  : result approval_error Claims :=
  c ← authenticate m token scope now;
  if negb (m_challenges m) then Ok c
  else
    match peek s "approval" (ChallengeID c) now with
    | Err _ => Err ErrChallengeGone
    | Ok payload => _ ← validateChallengeBinding payload c; Ok c
    end.

Definition spend (s : S) (c : Claims) (now : gotime) : result approval_error Claims * S :=
  match consume s "approval-used" (ChallengeID c) (ExpiresAt c) now with
  | (Ok _, s') => (Ok c, s')
  | (Err ErrAlreadyUsed, s') => (Err ErrUsed, s')
  | (Err _, s') => (Err ErrUnavailable, s')
  end.

Definition Verify (m : Manager) (s : S) (token : gostring) (scope : Scope) (now : gotime)
  : result approval_error Claims * S :=
  match inspect m s token scope now with
  | Err e => (Err e, s)
  | Ok c =>
      if m_challenges m then
        match take_challenge s "approval" (ChallengeID c) now with
        | (Err _, s') => (Err ErrChallengeGone, s')
        | (Ok payload, s') =>
            match validateChallengeBinding payload c with
            | Err e => (Err e, s')
            | Ok _ => spend s' c now
            end
        end
      else spend s c now
  end.

End store.

(** ** Normal claims *)

Definition good_target (t : Target) : Prop :=
  NormalizePath (t_Path t) = Ok (t_Path t) /\ validSHA256 (t_AfterSHA256 t) = true /\
  (t_BeforeSHA256 t = [] \/ validSHA256 (t_BeforeSHA256 t) = true).

Record normal_claims (d : Claims) : Prop := {
  nc_ids : ApprovalID d <> [] /\ ChallengeID d = ApprovalID d;
  nc_fields : SessionID d <> [] /\ Operation d <> [] /\ ExpiresAt d <> zero_time;
  nc_approver : Approver d = [] \/ validApprover (Approver d) = true;
  nc_review : ReviewSHA256 d = [] /\ Operation d = "write_file" \/ validSHA256 (ReviewSHA256 d) = true;
  nc_count : 1 <= len (Targets d) <= 20;
  nc_targets : Forall good_target (Targets d);
  nc_unique : NoDup (t_Path <$> Targets d);
  nc_mirror : mirror d (ChallengeID d) (Targets d) = d
}.

Lemma validSHA256_nil : validSHA256 [] = false.
Proof. done. Qed.

Lemma target_hash_guard t :
  negb (validSHA256 (t_AfterSHA256 t)) ||
  (negb (bool_decide (t_BeforeSHA256 t = [])) && negb (validSHA256 (t_BeforeSHA256 t))) = false <->
  validSHA256 (t_AfterSHA256 t) = true /\ (t_BeforeSHA256 t = [] \/ validSHA256 (t_BeforeSHA256 t) = true).
Proof.
  rewrite orb_false_iff, andb_false_iff, !negb_false_iff, bool_decide_eq_true. done.
Qed.

Lemma normalize_targets_Ok ts seen ts' :
  normalize_targets ts seen = Ok ts' ->
  length ts' = length ts /\ Forall good_target ts' /\ NoDup (t_Path <$> ts') /\
  Forall (.∉ seen) (t_Path <$> ts').
Proof.
  revert seen ts'. induction ts as [|t ts IH]; intros seen ts'; cbn [normalize_targets].
  - intros [= <-]. by repeat constructor.
  - destruct (NormalizePath (t_Path t)) as [p|] eqn:Hp; [|done].
    intros [Hs%bool_decide_eq_false [Hh%target_hash_guard [r [Hr [= <-]]]%bind_Ok]%guard_Ok]%guard_Ok.
    apply IH in Hr as (Hl & Hg & Hd & Hn). rewrite Forall_forall in Hn. cbn [length].
    split; [by rewrite Hl|]. split; [|split].
    + constructor; [|done]. split; [by eapply NormalizePath_clean|done].
    + cbn. constructor; [|done]. intros Hin%Hn. cbn in Hin. set_solver.
    + cbn. constructor; [done|]. apply Forall_forall. intros x Hx%Hn. set_solver.
Qed.

Lemma normalize_targets_id ts seen :
  Forall good_target ts -> NoDup (t_Path <$> ts) -> Forall (.∉ seen) (t_Path <$> ts) ->
  normalize_targets ts seen = Ok ts.
Proof.
  intros Hg. revert seen. induction Hg as [|t ts (Hp & Hh) Hg IH]; intros seen; cbn; [done|].
  intros [Hn Hd]%NoDup_cons [Hs Hf]%Forall_cons. rewrite Hp, bool_decide_eq_false_2 by done. cbn [guard_err].
  rewrite (proj2 (target_hash_guard t)) by done. cbn [guard_err]. rewrite IH; [by destruct t|done|].
  rewrite Forall_forall in *. intros x Hx. specialize (Hf x Hx). intros [->%elem_of_singleton|?]%elem_of_union; done.
Qed.

Lemma normalizeClaims_Ok c r d :
  normalizeClaims c r = Ok d -> normal_claims d /\ (r = true -> validApprover (Approver d) = true).
Proof.
  unfold normalizeClaims.
  intros [Hi [Ha [Hb [Hid [Hr [Ht [Hl [ts [Hn [= <-]]]%bind_Ok]%guard_Ok]%guard_Ok]%guard_Ok]%guard_Ok]%guard_Ok]%guard_Ok]%guard_Ok.
  rewrite !orb_false_iff, !bool_decide_eq_false, Z.eqb_neq in Hi.
  apply negb_false_iff, bool_decide_eq_true in Hid. apply Z.ltb_ge in Hl.
  apply normalize_targets_Ok in Hn as (Hlen & Hg & Hd & _).
  assert (Hm : forall id, Targets (mirror c id ts) = ts /\ ApprovalID (mirror c id ts) = ApprovalID c /\
    ChallengeID (mirror c id ts) = id /\ SessionID (mirror c id ts) = SessionID c /\
    Operation (mirror c id ts) = Operation c /\ ExpiresAt (mirror c id ts) = ExpiresAt c /\
    Approver (mirror c id ts) = Approver c /\ ReviewSHA256 (mirror c id ts) = ReviewSHA256 c /\
    mirror (mirror c id ts) id ts = mirror c id ts)
    by (intros; unfold mirror; destruct ts as [|? [|]]; cbn; split_and!; done).
  specialize (Hm (if decide (ChallengeID c = []) then ApprovalID c else ChallengeID c)).
  destruct Hm as (E1 & E2 & E3 & E4 & E5 & E6 & E7 & E8 & E9). split.
  - split; rewrite ?E1, ?E2, ?E3, ?E4, ?E5, ?E6, ?E7, ?E8; try tauto.
    + apply andb_false_iff in Hb. rewrite !negb_false_iff, bool_decide_eq_true in Hb. tauto.
    + destruct (decide (ReviewSHA256 c = [])); apply negb_false_iff in Hr; [left; by apply bool_decide_eq_true in Hr|by right].
    + unfold len in *. rewrite Hlen. split; [|done]. destruct (decide (Targets c = [])) as [Hz|Hz]; [done|].
      destruct (Targets c); [done|cbn; lia].
  - rewrite E7. intros ->. cbn in Ha. by apply negb_false_iff in Ha.
Qed.

Lemma normalizeClaims_id d r :
  normal_claims d -> (r = true -> validApprover (Approver d) = true) -> normalizeClaims d r = Ok d.
Proof.
  intros [[Hid Hc] (Hs & Ho & He) Ha Hr Hn Hg Hd Hm] Hv. unfold normalizeClaims.
  rewrite !bool_decide_eq_false_2, (proj2 (Z.eqb_neq _ _)) by done. cbn [orb guard_err].
  replace (r && negb (validApprover (Approver d))) with false
    by (symmetry; destruct r; [by rewrite Hv|done]). cbn [guard_err].
  replace (negb (bool_decide (Approver d = [])) && negb (validApprover (Approver d))) with false
    by (symmetry; destruct Ha as [->| ->]; [done|by rewrite andb_false_r]). cbn [guard_err].
  rewrite decide_False by congruence. rewrite bool_decide_eq_true_2 by done. cbn [negb guard_err].
  replace (if decide (ReviewSHA256 d = []) then _ else _) with false.
  2:{ symmetry. case_decide as Hz; apply negb_false_iff.
      - destruct Hr as [[_ ->]|Hr]; [done|]. by rewrite Hz in Hr.
      - by destruct Hr as [[? _]|?]. }
  cbn [guard_err]. assert (Targets d <> []) as Ht by (intros E; rewrite E in Hn; unfold len in Hn; cbn in Hn; lia).
  rewrite (bool_decide_eq_false_2 (Targets d = [])), (decide_False (P := Targets d = [])) by done.
  cbn [andb guard_err]. rewrite (proj2 (Z.ltb_ge _ _)) by lia. cbn [guard_err].
  rewrite normalize_targets_id by (done || apply Forall_forall; set_solver). cbn. by rewrite Hm.
Qed.

(** Normalised claims are well formed - the two identifiers agree, one to twenty
    targets with distinct normalised paths and valid hashes, the legacy fields
    mirror a single target - and normalising them again, with the same or the
    weaker requirement, changes nothing. *)
Theorem normalizeClaims_normal c r d :
  normalizeClaims c r = Ok d ->
  normal_claims d /\ normalizeClaims d r = Ok d /\ normalizeClaims d false = Ok d.
Proof.
  intros [Hn Ha]%normalizeClaims_Ok. split; [done|]. split; [by apply normalizeClaims_id|].
  by apply normalizeClaims_id.
Qed.

(** ** Acceptance *)

Definition approval_token (key payload : gostring) : gostring :=
  b64_encode payload ++ "." ++ b64_encode (hmac_sha256 key (b64_encode payload)).

Lemma split_approval key payload :
  split_byte "." (approval_token key payload) =
  [b64_encode payload; b64_encode (hmac_sha256 key (b64_encode payload))].
Proof.
  unfold approval_token. change (?a ++ "." ++ ?b) with (a ++ "."%char :: b). rewrite split_byte_app, !split_byte_app_no_sep by apply b64_encode_no_dot. done.
Qed.

Record authentic (m : Manager) (token : gostring) (scope : Scope) (now : gotime) (c : Claims) : Prop := {
  au_signed : exists payload raw, token = approval_token (m_key m) payload /\
    decode_strict payload = Some raw /\ normalizeClaims raw true = Ok c;
  au_size : len token <= Z.shiftl 32 10;
  au_fresh : now < ExpiresAt c <= now + maxApprovalLifetime;
  au_scope : normalizeScope scope = Ok (Targets c) /\ SessionID c = s_SessionID scope /\
    Operation c = s_Operation scope /\ ReviewSHA256 c = s_ReviewSHA256 scope
}.

Lemma scope_guard (c : Claims) (scope : Scope) targets :
  negb (bool_decide (SessionID c = s_SessionID scope)) || negb (bool_decide (Operation c = s_Operation scope)) ||
  negb (bool_decide (ReviewSHA256 c = s_ReviewSHA256 scope)) || negb (bool_decide (Targets c = targets)) = false <->
  SessionID c = s_SessionID scope /\ Operation c = s_Operation scope /\
  ReviewSHA256 c = s_ReviewSHA256 scope /\ Targets c = targets.
Proof. rewrite !orb_false_iff, !negb_false_iff, !bool_decide_eq_true. tauto. Qed.

Lemma fresh_guard (e now life : Z) :
  negb (before now e) || after e (now + life) = false <-> now < e <= now + life.
Proof. unfold before, after. rewrite orb_false_iff, negb_false_iff, Z.ltb_lt, Z.ltb_ge. done. Qed.

Lemma split_two token a b : split_byte "." token = [a; b] -> token = a ++ "." ++ b.
Proof. intros E. by rewrite <- (join_split_byte "." token), E. Qed.

Lemma Approval_authenticate_Ok m token scope now c :
  authenticate m token scope now = Ok c <-> authentic m token scope now c.
Proof.
  unfold authenticate. rewrite guard_Ok, orb_false_iff, Z.eqb_neq, Z.ltb_ge. split.
  - intros ((_ & Hlen) & Ha). destruct (split_byte "." token) as [|p [|s [|]]] eqn:Hs; try done.
    destruct (decodeCanonicalBase64 s) as [mac|] eqn:Hg; [|done].
    apply decodeCanonicalBase64_Some in Hg as ->.
    apply guard_Ok in Ha as [->%negb_false_iff%bool_decide_eq_true Ha].
    destruct (decodeCanonicalBase64 p) as [payload|] eqn:Hp; [|done]. cbn in Ha.
    apply decodeCanonicalBase64_Some in Hp as ->.
    destruct (decode_strict payload) as [raw|] eqn:Hd; [|done].
    destruct (normalizeClaims raw true) as [c'|] eqn:Hc; [|done].
    apply guard_Ok in Ha as [Hf%fresh_guard Ha].
    destruct (normalizeScope scope) as [targets|] eqn:Ht; [|done].
    apply guard_Ok in Ha as [(?&?&?&<-)%scope_guard [= <-]].
    split; [|done..|done]. exists payload, raw. by apply split_two in Hs as ->.
  - intros [(payload & raw & -> & Hd & Hc) Hs Hf (Ht & Hr)]. split.
    { split; [|done]. unfold approval_token. rewrite !len_app. unfold len. cbn. lia. }
    rewrite split_approval, !decodeCanonicalBase64_encode, bool_decide_eq_true_2 by done.
    cbn [negb guard_err mbind option_bind]. rewrite Hd, Hc, (proj2 (fresh_guard _ _ _)) by done.
    cbn [guard_err]. rewrite Ht, (proj2 (scope_guard _ _ _)) by tauto. done.
Qed.

Lemma sameBinding_spec a b :
  sameBinding a b = true <-> ChallengeID a = ChallengeID b /\ SessionID a = SessionID b /\
    Operation a = Operation b /\ ReviewSHA256 a = ReviewSHA256 b /\ Targets a = Targets b.
Proof. unfold sameBinding. rewrite !andb_true_iff, !bool_decide_eq_true. tauto. Qed.

(** The claims were registered, with an expiry at least as late. *)
Definition bound_by (payload : gostring) (c : Claims) : Prop :=
  exists raw registered, decode_strict payload = Some raw /\ normalizeClaims raw false = Ok registered /\
    sameBinding registered c = true /\ ExpiresAt c <= ExpiresAt registered.

Lemma validateChallengeBinding_Ok payload c :
  validateChallengeBinding payload c = Ok tt <-> bound_by payload c.
Proof.
  unfold validateChallengeBinding, bound_by. destruct (decode_strict payload) as [raw|];
    [|split; [done|by intros (? & ? & ? & _)]].
  destruct (normalizeClaims raw false) as [r|] eqn:Hr;
    [|split; [done|intros (? & ? & [= <-] & ? & _); congruence]].
  rewrite guard_Ok, orb_false_iff, negb_false_iff. unfold after. rewrite Z.ltb_ge. split.
  - intros [[? ?] _]. by exists raw, r.
  - intros (? & ? & [= <-] & E & ?). rewrite Hr in E. injection E as <-. done.
Qed.

Section accept.
Context {S : Type} `{SH : SharedLaws S}.
#[local] Set Default Proof Using "All".

Lemma plain_used : plain_ns "approval-used".
Proof. done. Qed.

Lemma NUL_approval : NUL ∉ ("approval" : gostring).
Proof. apply (bool_decide_unpack _). vm_compute. exact I. Qed.

Lemma inspect_Ok m s token scope now c :
  inspect m s token scope now = Ok c <->
  authentic m token scope now c /\
  (m_challenges m = true -> exists payload, peek s "approval" (ChallengeID c) now = Ok payload /\ bound_by payload c).
Proof.
  unfold inspect. rewrite bind_Ok. setoid_rewrite Approval_authenticate_Ok. split.
  - intros (c' & Ha & Hi). destruct (m_challenges m); cbn [negb] in Hi; [|injection Hi as <-; by split].
    destruct (peek s "approval" (ChallengeID c') now) as [payload|] eqn:Hp; [|done].
    apply bind_Ok in Hi as ([] & Hb%validateChallengeBinding_Ok & [= <-]). split; [done|]. eauto.
  - intros [Ha Hp]. exists c. split; [done|]. destruct (m_challenges m); [|done]. cbn [negb].
    destruct (Hp eq_refl) as (payload & -> & Hb). by rewrite (proj2 (validateChallengeBinding_Ok _ _) Hb).
Qed.

Lemma spend_Ok s c now c' s' :
  spend s c now = (Ok c', s') <->
  c = c' /\ consume s "approval-used" (ChallengeID c) (ExpiresAt c) now = (Ok tt, s').
Proof.
  unfold spend. destruct (consume s _ _ _ _) as [[[]|[]] s0];
    (split; [by intros [= -> ->]|by intros [? [=]]; subst]).
Qed.

(** The state in which the token is spent. *)
Definition taken (m : Manager) (s : S) (c : Claims) (now : gotime) : S :=
  if m_challenges m then (take_challenge s "approval" (ChallengeID c) now).2 else s.

Lemma Approval_Verify_Ok m s token scope now c s' :
  Verify m s token scope now = (Ok c, s') <->
  inspect m s token scope now = Ok c /\
  consume (taken m s c now) "approval-used" (ChallengeID c) (ExpiresAt c) now = (Ok tt, s').
Proof.
  unfold Verify, taken. destruct (inspect m s token scope now) as [c0|] eqn:Hi; [|by split; [|intros [??]]].
  pose proof Hi as [_ Hc]%inspect_Ok. destruct (m_challenges m) eqn:Em; [|rewrite spend_Ok; split; [by intros [-> ?]|by intros [[= ->] ?]]].
  destruct (Hc eq_refl) as (payload & Hp & Hb). rewrite <- take_result in Hp.
  destruct (take_challenge s "approval" (ChallengeID c0) now) as [r s0] eqn:Et. cbn in Hp. subst r.
  rewrite (proj2 (validateChallengeBinding_Ok _ _) Hb), spend_Ok. split.
  - intros [-> ?]. by rewrite Et.
  - intros [[= ->] Hu]. rewrite Et in Hu. done.
Qed.

(** *** A token is spent once *)

Inductive op :=
  | OpRegister (c : Claims) (now : gotime)
  | OpVerify (token : gostring) (scope : Scope) (now : gotime).

Definition op_time (o : op) : gotime := match o with OpRegister _ now | OpVerify _ _ now => now end.

Definition step (m : Manager) (s : S) (o : op) : S :=
  match o with
  | OpRegister c now => (RegisterChallenge m s c now).2
  | OpVerify token scope now => (Verify m s token scope now).2
  end.

Lemma RegisterChallenge_live m s c now id e :
  live s "approval-used" id e -> live (RegisterChallenge m s c now).2 "approval-used" id e.
Proof.
  intros Hl. unfold RegisterChallenge. destruct (negb (m_challenges m)); [done|].
  destruct (normalizeClaims c false) as [n|]; [|done]. destruct (_ || _); [done|].
  destruct (marshal n) as [payload|]; [|done].
  pose proof (put_live s "approval-used" id e "approval" (ChallengeID n) payload (ExpiresAt n) now plain_used Hl) as Hp.
  by destruct (put s _ _ _ _ _) as [[[]|] s'].
Qed.

Lemma spend_live s c now id e :
  now < e -> live s "approval-used" id e -> live (spend s c now).2 "approval-used" id e.
Proof.
  intros Hn Hl. unfold spend.
  pose proof (consume_keeps s _ _ _ "approval-used" (ChallengeID c) (ExpiresAt c) now Hl Hn) as Hk.
  by destruct (consume s "approval-used" _ _ _) as [[[]|[]] s'].
Qed.

Lemma Verify_live m s token scope now id e :
  now < e -> live s "approval-used" id e -> live (Verify m s token scope now).2 "approval-used" id e.
Proof.
  intros Hn Hl. unfold Verify. destruct (inspect m s token scope now) as [c|]; [|done].
  destruct (m_challenges m); [|by apply spend_live].
  pose proof (take_live s _ _ _ "approval" (ChallengeID c) now plain_used Hl) as Ht.
  destruct (take_challenge s "approval" (ChallengeID c) now) as [[payload|] s']; [|done].
  destruct (validateChallengeBinding payload c); [by apply spend_live|done].
Qed.

Lemma steps_live m s ops id e t :
  live s "approval-used" id e -> Forall (fun o => op_time o <= t) ops -> t < e ->
  live (foldl (step m) s ops) "approval-used" id e.
Proof.
  intros Hl Ho Ht. revert s Hl. induction Ho as [|o ops Hn Ho IH]; intros s Hl; [done|]. cbn [foldl].
  apply IH. destruct o; cbn [step op_time] in *; [by apply RegisterChallenge_live|apply Verify_live; [lia|done]].
Qed.

(** C10. Once an approval was verified, whatever challenges are registered and tokens
    verified afterwards, a second verification for the same challenge can only
    succeed with another token and after the first has expired - for every store
    that keeps its promises. *)
Theorem Verify_once m s token scope t c s1 ops token2 scope2 t2 c2 s2 :
  in_int (ExpiresAt c) = true ->
  Verify m s token scope t = (Ok c, s1) ->
  Forall (fun o => op_time o <= t2) ops ->
  Verify m (foldl (step m) s1 ops) token2 scope2 t2 = (Ok c2, s2) ->
  ChallengeID c2 = ChallengeID c ->
  ExpiresAt c <= t2 /\ token2 <> token.
Proof.
  intros He [Hi Hu]%Approval_Verify_Ok Ho [Hi2 Hu2]%Approval_Verify_Ok Hc.
  assert (ExpiresAt c <= t2) as Hle.
  { apply Z.le_ngt. intros Hlt. apply (consume_live _ _ _ _ _ _ He) in Hu.
    pose proof (steps_live m _ _ _ _ _ Hu Ho Hlt) as Hl.
    assert (live (taken m (foldl (step m) s1 ops) c2 t2) "approval-used" (ChallengeID c) (ExpiresAt c)) as Hl'.
    { unfold taken. destruct (m_challenges m); [by apply take_live|done]. }
    apply (consume_blocked _ _ _ _ (ExpiresAt c2) t2 Hl'); [done|]. by rewrite <- Hc, Hu2. }
  split; [done|]. intros ->.
  apply inspect_Ok in Hi as [[(p & r & Hp & Hd & Hn) _ _ _] _].
  apply inspect_Ok in Hi2 as [[(p2 & r2 & Hp2 & Hd2 & Hn2) _ Hf2 _] _].
  rewrite Hp in Hp2. apply (f_equal (split_byte ".")) in Hp2. rewrite !split_approval in Hp2.
  injection Hp2 as E _. apply b64_encode_inj in E as <-.
  assert (c2 = c) as -> by congruence. lia.
Qed.

(** *** What an accepted approval guarantees *)

(** The token carries the manager's MAC of the payload it was decoded from, is
    fresh, and names the session, operation, review and - after normalisation -
    the targets of the scope; with a challenge store, a live challenge with the
    same binding and an expiry no earlier was registered, and is gone afterwards. *)
Theorem Verify_bound m s token scope now c s' :
  Verify m s token scope now = (Ok c, s') ->
  authentic m token scope now c /\ normal_claims c /\ validApprover (Approver c) = true /\
  (m_challenges m = true ->
     (exists payload, peek s "approval" (ChallengeID c) now = Ok payload /\ bound_by payload c) /\
     forall now', now <= now' -> is_ok (peek s' "approval" (ChallengeID c) now') = false).
Proof.
  intros [Hi Hu]%Approval_Verify_Ok. pose proof Hi as [Ha Hb]%inspect_Ok. split; [done|].
  destruct (au_signed _ _ _ _ _ Ha) as (_ & raw & _ & _ & [Hn Hv]%normalizeClaims_Ok).
  split; [done|]. split; [by apply Hv|]. intros Em. split; [by apply Hb|]. intros now' Hle.
  unfold taken in Hu. rewrite Em in Hu.
  rewrite peek_spec. pose proof (take_gone s "approval" (ChallengeID c) now now' Hle) as Hg.
  rewrite peek_spec in Hg. apply (f_equal snd) in Hu. cbn [snd] in Hu. subst s'.
  by rewrite consume_held by apply plain_used.
Qed.

(** *** From the dry run to the verified approval *)

Definition claims_text (c : Claims) : Prop :=
  Forall (fun s => utf8_valid s = true)
    ([ApprovalID c; ChallengeID c; Approver c; SessionID c; Operation c; Path c; ContentSHA256 c;
      ExpectedHash c; ReviewSHA256 c] ++
     (t_Path <$> Targets c) ++ (t_BeforeSHA256 <$> Targets c) ++ (t_AfterSHA256 <$> Targets c)).

Section roundtrip.
Context `{JL : !JsonLaws Claims claims_text}.
#[local] Set Default Proof Using "All".

Lemma RegisterChallenge_Ok m s c n now s' :
  normalizeClaims c false = Ok n -> RegisterChallenge m s c now = (Ok tt, s') ->
  m_challenges m = true /\ exists payload, marshal n = Some payload /\
  put s "approval" (ChallengeID n) payload (ExpiresAt n) now = (Ok tt, s').
Proof.
  intros Hn. unfold RegisterChallenge. rewrite Hn. destruct (m_challenges m); [|done]. cbn [negb].
  destruct (_ || _); [done|]. destruct (marshal n) as [payload|]; [|done].
  destruct (put s _ _ _ _ _) as [[[]|] s0] eqn:Hp; [|done]. intros [= ->]. eauto.
Qed.

Lemma Approval_Sign_Ok m c n now token :
  normalizeClaims c true = Ok n -> Sign m c now = Ok token ->
  ExpiresAt n <= now + maxApprovalLifetime /\
  exists payload, marshal n = Some payload /\ token = approval_token (m_key m) payload.
Proof.
  intros Hn. unfold Sign. rewrite Hn. cbn [mbind result_bind].
  intros [[_ Hl%Z.ltb_ge]%orb_false_iff Hs]%guard_Ok. split; [done|].
  destruct (marshal n) as [payload|]; [|done]. injection Hs as <-. by exists payload.
Qed.

(** A challenge that was registered and then approved with the same session,
    operation, review and targets, for no longer than it lives, is verified while
    the approval is fresh, provided the replay store has not seen it. *)
Theorem Register_Sign_Verify m s s1 s2 c0 n0 c1 n1 token scope t0 t1 t2 :
  normalizeClaims c0 false = Ok n0 -> normalizeClaims c1 true = Ok n1 ->
  claims_text n0 -> claims_text n1 -> in_int (ExpiresAt n0) = true ->
  RegisterChallenge m s c0 t0 = (Ok tt, s1) ->
  Sign m c1 t1 = Ok token -> len token <= Z.shiftl 32 10 ->
  sameBinding n0 n1 = true -> ExpiresAt n1 <= ExpiresAt n0 -> t1 <= t2 < ExpiresAt n1 ->
  normalizeScope scope = Ok (Targets n1) -> SessionID n1 = s_SessionID scope ->
  Operation n1 = s_Operation scope -> ReviewSHA256 n1 = s_ReviewSHA256 scope ->
  consume (take_challenge s1 "approval" (ChallengeID n1) t2).2
    "approval-used" (ChallengeID n1) (ExpiresAt n1) t2 = (Ok tt, s2) ->
  Verify m s1 token scope t2 = (Ok n1, s2).
Proof.
  intros HA HB Ht0 Ht1 He HR HS Hl Hb Hx Ht Hs1 Hs2 Hs3 Hs4 Hu.
  apply (RegisterChallenge_Ok _ _ _ _ _ _ HA) in HR as (Em & p0 & Hp0 & HR).
  apply (Approval_Sign_Ok _ _ _ _ _ HB) in HS as (Hlife & p1 & Hp1 & ->).
  apply put_Ok in HR as (_ & Hh & _); [|apply NUL_approval|done].
  apply (decode_marshal n0 p0 Ht0) in Hp0. apply (decode_marshal n1 p1 Ht1) in Hp1.
  pose proof (normalizeClaims_Ok _ _ _ HA) as [Hn0 _].
  pose proof (normalizeClaims_Ok _ _ _ HB) as [Hn1 Ha1].
  apply Approval_Verify_Ok. unfold taken. rewrite Em. split; [|done]. apply inspect_Ok. split.
  - split; [|done|lia|done]. exists p1, n1. split; [done|]. split; [done|]. by apply normalizeClaims_id.
  - intros _. exists p0. split.
    + pose proof Hb as (<- & _)%sameBinding_spec. rewrite peek_spec, Hh. unfold after.
      by rewrite (proj2 (Z.ltb_lt _ _)) by lia.
    + exists n0, n0. split; [done|]. split; [by apply normalizeClaims_id|]. done.
Qed.

End roundtrip.
End accept.
End approval.

(** *** Witnesses *)

Definition sample_hash : gostring := replicate 64 "a"%char.
Definition sample_claims : Claims :=
  mkClaims "a1" "a1" "alice" "s1" "edit" [mkTarget "src/main.go" [] sample_hash] "src/main.go" sample_hash []
    sample_hash (200 * second).
Definition sample_raw : Claims :=
  mkClaims "a1" [] "alice" "s1" "edit" [mkTarget "src/./main.go" [] sample_hash] [] [] [] sample_hash (200 * second).
Definition sample_scope : Scope := mkScope "s1" "edit" [mkTarget "src//main.go" [] sample_hash] [] [] [] sample_hash.
Definition sample_manager : Manager := mkManager (replicate 32 (byte_of 7)) true.
Definition sample_json : Json Claims := one_json sample_claims.

Lemma normalizeClaims_normal_witness :
  @normalizeClaims ascii_tables sample_claims false = Ok sample_claims.
Proof.
  exact (proj2 (proj2 (@normalizeClaims_normal ascii_tables sample_raw true sample_claims
    ltac:(vm_compute; reflexivity)))).
Defined.

Definition sample_registered := @RegisterChallenge ascii_tables sample_json Memory _ sample_manager NewMemory sample_raw 0.
Definition sample_token : gostring := @approval_token toy_crypto (m_key sample_manager) "{}".
Definition sample_verify := @Verify ascii_tables toy_crypto sample_json Memory _ _ sample_manager sample_registered.2
  sample_token sample_scope (10 * second).

Lemma Register_Sign_Verify_witness : sample_verify = (Ok sample_claims, sample_verify.2).
Proof.
  unfold sample_verify at 1.
  pose proof (one_json_laws sample_claims claims_text : @JsonLaws Claims claims_text sample_json) as JL.
  apply (@Register_Sign_Verify ascii_tables toy_crypto sample_json Memory Memory_Store Memory_StoreLaws
    Memory_ChallengeStore Memory_ChallengeLaws Memory_SharedLaws JL
    sample_manager NewMemory sample_registered.2 sample_verify.2 sample_raw sample_claims sample_raw sample_claims
    sample_token sample_scope 0 (5 * second) (10 * second));
    first [apply (bool_decide_unpack _); vm_compute; exact I | vm_compute; reflexivity].
Defined.

Lemma Verify_bound_witness : @normal_claims ascii_tables sample_claims.
Proof.
  pose proof (@Verify_bound ascii_tables toy_crypto sample_json Memory Memory_Store Memory_StoreLaws
    Memory_ChallengeStore Memory_ChallengeLaws Memory_SharedLaws sample_manager sample_registered.2
    sample_token sample_scope (10 * second) sample_claims sample_verify.2) as T.
  apply T. vm_compute. reflexivity.
Defined.

(** Two approvals for one challenge, without a challenge store. *)
Definition later_claims : Claims :=
  mkClaims "a1" "a1" "alice" "s1" "edit" [mkTarget "src/main.go" [] sample_hash] "src/main.go" sample_hash []
    sample_hash (400 * second).
Definition two_json : Json Claims := {|
  marshal c := if decide (c = sample_claims) then Some ("1" : gostring)
               else if decide (c = later_claims) then Some ("2" : gostring) else None;
  decode_strict s := if decide (s = ("1" : gostring)) then Some sample_claims
                     else if decide (s = ("2" : gostring)) then Some later_claims else None
|}.
Definition plain_manager : Manager := mkManager (replicate 32 (byte_of 7)) false.
Definition plain_verify (s : Memory) (payload : gostring) (now : gotime) :=
  @Verify ascii_tables toy_crypto two_json Memory _ _ plain_manager s
    (@approval_token toy_crypto (m_key plain_manager) payload) sample_scope now.
Definition plain_first := plain_verify NewMemory "1" (10 * second).

Lemma Verify_once_witness :
  plain_first.1 = Ok sample_claims /\ (plain_verify plain_first.2 "2" (250 * second)).1 = Ok later_claims /\
  ExpiresAt sample_claims <= 250 * second.
Proof.
  assert (E1 : plain_first = (Ok sample_claims, plain_first.2)) by (vm_compute; reflexivity).
  assert (E2 : plain_verify plain_first.2 "2" (250 * second) =
    (Ok later_claims, (plain_verify plain_first.2 "2" (250 * second)).2)) by (vm_compute; reflexivity).
  split; [exact (f_equal fst E1)|]. split; [exact (f_equal fst E2)|].
  pose proof (@Verify_once ascii_tables toy_crypto two_json Memory Memory_Store Memory_StoreLaws
    Memory_ChallengeStore Memory_ChallengeLaws Memory_SharedLaws plain_manager NewMemory _ sample_scope
    (10 * second) sample_claims plain_first.2 [] _ sample_scope (250 * second) later_claims _
    eq_refl E1 (Forall_nil_2 _) E2 eq_refl) as T. exact (proj1 T).
Defined.
