(* ===== verification/PathMatch.v ===== *)
(** * Shell patterns: Go's package function [path.Match] *)
From S2P Require Import Prelude GoStrings Utf8.
#[local] Open Scope Z_scope.

Definition STAR : ascii := "*".

(** [scanChunk]: a star, the text up to the next star outside a class, the rest. *)
Fixpoint drop_stars (p : gostring) : gostring :=
  match p with
  | c :: p' => if Ascii.eqb c STAR then drop_stars p' else p
  | [] => []
  end.

Fixpoint chunk_length (inrange : bool) (p : gostring) : nat :=
  match p with
  | [] => O
  | c :: p' =>
      if Ascii.eqb c BSL then
        match p' with
        | [] => 1%nat
        | _ :: p'' => S (S (chunk_length inrange p''))
        end
      else if Ascii.eqb c "[" then S (chunk_length true p')
      else if Ascii.eqb c "]" then S (chunk_length false p')
      else if Ascii.eqb c STAR && negb inrange then O
      else S (chunk_length inrange p')
  end.

Definition scanChunk (p : gostring) : bool * gostring * gostring :=
  let q := drop_stars p in
  let n := chunk_length false q in
  (has_prefix p [STAR], take n q, drop n q).

(** [getEsc]: a possibly escaped character of a class; [None] is [ErrBadPattern]. *)
Definition getEsc (chunk : gostring) : option (Z * gostring) :=
  let body :=
    match chunk with
    | [] => None
    | c :: rest =>
        if Ascii.eqb c "-" || Ascii.eqb c "]" then None
        else if Ascii.eqb c BSL then match rest with [] => None | _ => Some rest end
        else Some chunk
    end in
  body ← body;
  let '(r, n) := decode_rune body in
  let rest := drop n body in
  if ((r =? RuneError) && (n =? 1)%nat) || bool_decide (rest = []) then None else Some (r, rest).

(** The ranges of a class up to its bracket; the result says whether [r] is in one. *)
Fixpoint match_ranges (fuel : nat) (first : bool) (r : Z) (hit : bool) (chunk : gostring) : option (bool * gostring) :=
  match fuel with
  | O => None
  | S fuel =>
      if negb first && has_prefix chunk ["]"%char] then Some (hit, drop 1 chunk)
      else
        '(lo, rest) ← getEsc chunk;
        '(hi, rest) ← (if has_prefix rest ["-"%char] then getEsc (drop 1 rest) else Some (lo, rest));
        match_ranges fuel false r (hit || ((lo <=? r) && (r <=? hi))) rest
  end.

(** [matchChunk]: [Some None] is a failed match of a well-formed chunk, [Some
    (Some rest)] a match that leaves [rest]. A failed match reads no more text. *)
Fixpoint matchChunk (fuel : nat) (failed : bool) (chunk s : gostring) : option (option gostring) :=
  match chunk with
  | [] => Some (if failed then None else Some s)
  | c :: chunk' =>
      match fuel with
      | O => None
      | S fuel =>
          let failed := failed || bool_decide (s = []) in
          if Ascii.eqb c "[" then
            let '(r, n) := if failed then (0, O) else decode_rune s in
            let s' := drop n s in
            let negated := has_prefix chunk' ["^"%char] in
            let body := if negated then drop 1 chunk' else chunk' in
            '(hit, rest) ← match_ranges (S (length body)) true r false body;
            matchChunk fuel (failed || Bool.eqb hit negated) rest s'
          else if Ascii.eqb c "?" then
            if failed then matchChunk fuel true chunk' s
            else matchChunk fuel (has_prefix s [SLASH]) chunk' (drop (decode_rune s).2 s)
          else if Ascii.eqb c BSL then
            match chunk' with
            | [] => None
            | d :: chunk'' =>
                if failed then matchChunk fuel true chunk'' s
                else matchChunk fuel (negb (has_prefix s [d])) chunk'' (drop 1 s)
            end
          else
            if failed then matchChunk fuel true chunk' s
            else matchChunk fuel (negb (has_prefix s [c])) chunk' (drop 1 s)
      end
  end.

Definition match_chunk (chunk s : gostring) : option (option gostring) :=
  matchChunk (length chunk) false chunk s.

(** The search after a star: the chunk is tried at every later position that does
    not lie behind a slash. *)
Fixpoint star_search (chunk name : gostring) (last : bool) : option (option gostring) :=
  match name with
  | [] => Some None
  | c :: name' =>
      if Ascii.eqb c SLASH then Some None
      else
        r ← match_chunk chunk name';
        match r with
        | Some t => if last && negb (bool_decide (t = [])) then star_search chunk name' last else Some (Some t)
        | None => star_search chunk name' last
        end
  end.

(** The rest of a pattern that did not match must still be well formed. *)
Fixpoint check_rest (fuel : nat) (p : gostring) : option bool :=
  match p, fuel with
  | [], _ => Some false
  | _, O => None
  | _, S fuel =>
      let '(_, chunk, rest) := scanChunk p in
      _ ← match_chunk chunk []; check_rest fuel rest
  end.

(** [Match]: [None] is [ErrBadPattern]. Every round consumes a byte of the pattern. *)
Fixpoint match_loop (fuel : nat) (pattern name : gostring) : option bool :=
  match pattern with
  | [] => Some (bool_decide (name = []))
  | _ =>
      match fuel with
      | O => None
      | S fuel =>
          let '(star, chunk, rest) := scanChunk pattern in
          if star && bool_decide (chunk = []) then Some (negb (contains_byte name SLASH))
          else
            let last := bool_decide (rest = []) in
            here ← match_chunk chunk name;
            let retry :=
              found ← (if star then star_search chunk name last else Some None);
              match found with
              | Some t => match_loop fuel rest t
              | None => check_rest (length rest) rest
              end in
            match here with
            | Some t => if bool_decide (t = []) || negb last then match_loop fuel rest t else retry
            | None => retry
            end
      end
  end.

Definition path_match (pattern name : gostring) : option bool := match_loop (length pattern) pattern name.

Example path_match_sample :
  path_match "*.go" "main.go" = Some true /\ path_match "*.go" "a/main.go" = Some false /\
  path_match "a*b*c" "axxbyyc" = Some true /\ path_match "[a-c]?[^x]" "bzy" = Some true /\
  path_match "[" "a" = None /\ path_match "\*" "*" = Some true /\ path_match "a*" "" = Some false /\
  path_match "*" "" = Some true /\ path_match "[a" "b" = None /\ path_match "x[" "a" = None.
Proof. vm_compute. repeat split. Qed.

(** ** The fuel is enough *)

Lemma getEsc_shorter chunk r rest : getEsc chunk = Some (r, rest) -> (length rest < length chunk)%nat.
Proof.
  unfold getEsc. intros (body & Hb & He)%bind_Some.
  destruct (decode_rune body) as [r0 n] eqn:Ed. destruct (_ || _) eqn:Eb; [done|]. injection He as <- <-.
  assert (body <> [] /\ (length body <= length chunk)%nat) as [Hn Hl].
  { destruct chunk as [|c chunk]; [done|]. destruct (_ || _); [done|].
    destruct (Ascii.eqb c BSL); [destruct chunk; [done|]|]; injection Hb as <-; cbn; split; (done || lia). }
  destruct body as [|b body]; [done|]. pose proof (decode_rune_size b body) as Hw. rewrite Ed in Hw. cbn [snd] in Hw.
  rewrite length_drop. lia.
Qed.

Lemma range_end_shorter (rest : gostring) (lo hi : Z) rest1 :
  (if has_prefix rest ["-"%char] then getEsc (drop 1 rest) else Some (lo, rest)) = Some (hi, rest1) ->
  (length rest1 <= length rest)%nat.
Proof.
  destruct (has_prefix rest _); [|intros [= <- <-]; lia]. intros H%getEsc_shorter.
  rewrite length_drop in H. lia.
Qed.

Lemma match_ranges_shorter n first r hit chunk h rest :
  match_ranges n first r hit chunk = Some (h, rest) -> (length rest <= length chunk)%nat.
Proof.
  revert first hit chunk. induction n as [|n IH]; intros first hit chunk; cbn [match_ranges]; [done|].
  destruct (negb first && _); [intros [= _ <-]; rewrite length_drop; lia|].
  intros ([lo r0] & H0%getEsc_shorter & ([hi r1] & H1%range_end_shorter & H2%IH)%bind_Some)%bind_Some. lia.
Qed.

Lemma match_ranges_fuel n m first r hit chunk :
  (length chunk < n)%nat -> (length chunk < m)%nat ->
  match_ranges n first r hit chunk = match_ranges m first r hit chunk.
Proof.
  revert m first hit chunk. induction n as [|n IH]; intros [|m] first hit chunk Hn Hm; [lia..|].
  cbn [match_ranges]. destruct (negb first && _); [done|].
  destruct (getEsc chunk) as [[lo r0]|] eqn:E0; [|done]. apply getEsc_shorter in E0. cbn [mbind option_bind].
  destruct (if has_prefix r0 _ then _ else _) as [[hi r1]|] eqn:E1; [|done].
  apply range_end_shorter in E1. cbn [mbind option_bind]. apply IH; lia.
Qed.

Lemma matchChunk_fuel n m failed chunk s :
  (length chunk <= n)%nat -> (length chunk <= m)%nat ->
  matchChunk n failed chunk s = matchChunk m failed chunk s.
Proof.
  revert m failed chunk s. induction n as [|n IH]; intros [|m] failed [|c chunk] s Hn Hm;
    cbn [length] in *; try done; [lia..|].
  cbn [matchChunk]. repeat case_match; try done; try (apply IH; cbn [length] in *; lia).
  all: match goal with |- match_ranges ?k ?f ?r ?h ?b ≫= _ = _ =>
    destruct (match_ranges k f r h b) as [[hit rest]|] eqn:Hr; [|done] end;
    apply match_ranges_shorter in Hr; cbn [mbind option_bind]; apply IH; rewrite ?length_drop in Hr; lia.
Qed.

Lemma drop_stars_length p : (length (drop_stars p) <= length p)%nat.
Proof. induction p as [|c p IH]; cbn; [lia|]. destruct (Ascii.eqb c STAR); cbn; lia. Qed.

(** Every chunk takes at least one byte of the pattern. *)
Lemma scanChunk_shorter p star chunk rest :
  p <> [] -> scanChunk p = (star, chunk, rest) -> (length rest < length p)%nat.
Proof.
  unfold scanChunk. intros Hp [= _ _ <-]. rewrite length_drop. destruct p as [|c p]; [done|]. cbn [drop_stars length].
  destruct (Ascii.eqb c STAR) eqn:E; [pose proof (drop_stars_length p); lia|].
  enough (1 <= chunk_length false (c :: p))%nat by (cbn [length]; lia). cbn [chunk_length]. rewrite E.
  repeat case_match; simplify_eq; try lia; done.
Qed.

Lemma check_rest_fuel n m p :
  (length p <= n)%nat -> (length p <= m)%nat -> check_rest n p = check_rest m p.
Proof.
  revert m p. induction n as [|n IH]; intros [|m] [|c p] Hn Hm; cbn [length] in *; try done; [lia..|].
  cbn [check_rest]. destruct (scanChunk (c :: p)) as [[star chunk] rest] eqn:E.
  apply scanChunk_shorter in E; [|done]. cbn [length] in E.
  destruct (match_chunk chunk []); [|done]. cbn [mbind option_bind]. apply IH; lia.
Qed.

(** More fuel than the length of the pattern never changes the answer. *)
Lemma match_loop_fuel n m pattern name :
  (length pattern <= n)%nat -> (length pattern <= m)%nat ->
  match_loop n pattern name = match_loop m pattern name.
Proof.
  revert m pattern name. induction n as [|n IH]; intros [|m] [|c p] name Hn Hm; cbn [length] in *; try done; [lia..|].
  cbn [match_loop]. destruct (scanChunk (c :: p)) as [[star chunk] rest] eqn:E.
  apply scanChunk_shorter in E; [|done]. cbn [length] in E.
  assert (HI : forall t, match_loop n rest t = match_loop m rest t) by (intros; apply IH; lia).
  destruct (star && _); [done|]. destruct (match_chunk chunk name) as [here|]; [|done]. cbn [mbind option_bind].
  assert (Hr : forall f, match f with Some t => match_loop n rest t | None => check_rest (length rest) rest end =
    match f with Some t => match_loop m rest t | None => check_rest (length rest) rest end)
    by (intros [t|]; [apply HI|done]).
  destruct (if star then _ else _) as [found|]; cbn [mbind option_bind]; rewrite ?Hr;
    destruct here as [t|]; rewrite ?HI; done.
Qed.
