(* ===== verification/Gitignore.v ===== *)
(** * Ignore rules ([internal/workspace/gitignore.go]) *)
From S2P Require Import Prelude GoStrings Utf8 GoPath PathMatch.
#[local] Open Scope Z_scope.

Definition DefaultMaxTraversalDepth : Z := 64.
Definition maxGitignoreBytes : Z := Z.shiftl 1 20.

Record ignoreRule := mkRule {
  r_base : gostring; pattern : gostring; negated : bool; directoryOnly : bool; hasSlash : bool
}.

(** [strings.Trim(s, "/")]. *)
Definition trim_slashes (s : gostring) : gostring := rev (drop_slashes (rev (drop_slashes s))).

(** ** Parsing *)

(** The loop of [trimUnescapedTrailingSpaces], on the reversed line. *)
Fixpoint leading_backslashes (r : gostring) : nat :=
  match r with
  | c :: r' => if Ascii.eqb c BSL then S (leading_backslashes r') else O
  | [] => O
  end.

Fixpoint trim_rev (r : gostring) : gostring :=
  match r with
  | c :: r' =>
      if Ascii.eqb c SP then
        if Nat.odd (leading_backslashes r') then c :: drop 1 r' else trim_rev r'
      else r
  | [] => []
  end.

Definition trimUnescapedTrailingSpaces (s : gostring) : gostring := rev (trim_rev (rev s)).

(** One line: [None] is a line without a rule. *)
Definition parse_rule (base line : gostring) : option ignoreRule :=
  let line := trimUnescapedTrailingSpaces (trim_suffix line [CR]) in
  if bool_decide (line = []) || has_prefix line "#" then None
  else
    let neg := has_prefix line "!" in
    let line := if neg then drop 1 line
                else if has_prefix line (BSL :: "!") || has_prefix line (BSL :: "#") then drop 1 line
                else line in
    if bool_decide (line = []) then None
    else
      let dirOnly := has_suffix line "/" && negb (has_suffix line (BSL :: "/")) in
      let line := if dirOnly then trim_suffix line "/" else line in
      let anchored := has_prefix line "/" in
      let line := trim_prefix line "/" in
      if bool_decide (line = []) then None
      else Some (mkRule (trim_slashes base) line neg dirOnly (anchored || contains line "/")).

Definition parseGitignore (data base : gostring) : list ignoreRule :=
  omap (parse_rule base) (split_byte LF data).

(** ** Matching *)

Definition relativeToRuleBase (base name : gostring) : option gostring :=
  if decide (base = []) then Some name
  else if decide (name = base) then Some []
  else if has_prefix name (base ++ "/") then Some (trim_prefix name (base ++ "/")) else None.

Definition matched (pattern name : gostring) : bool :=
  match path_match pattern name with Some b => b | None => false end.

(** A run of [**] behaves as its last one; a trailing one needs something to match. *)
Fixpoint gitGlobMatchParts (pat name : list gostring) {struct pat} : bool :=
  match pat with
  | [] => bool_decide (name = [])
  | p :: pat' =>
      if decide (p = "**") then
        match pat' with
        | [] => negb (bool_decide (name = []))
        | q :: _ =>
            if decide (q = "**") then gitGlobMatchParts pat' name
            else (fix skip (name : list gostring) : bool :=
                    gitGlobMatchParts pat' name ||
                    match name with [] => false | _ :: name' => skip name' end) name
        end
      else
        match name with
        | [] => false
        | n :: name' => matched p n && gitGlobMatchParts pat' name'
        end
  end.

Definition gitGlobMatch (pattern name : gostring) : bool :=
  gitGlobMatchParts (split_byte SLASH pattern) (split_byte SLASH name).

Definition matchesOne (r : ignoreRule) (rel : gostring) : bool :=
  if negb (hasSlash r) then matched (pattern r) (List.last (split_byte SLASH rel) [])
  else gitGlobMatch (pattern r) rel.

Definition matches (r : ignoreRule) (name : gostring) (isDir : bool) : bool :=
  match relativeToRuleBase (r_base r) (trim_slashes name) with
  | None => false
  | Some rel =>
      if bool_decide (rel = []) then false
      else if negb (directoryOnly r) then matchesOne r rel
      else
        let parts := split_byte SLASH rel in
        let limit := if isDir then length parts else (length parts - 1)%nat in
        existsb (fun i => matchesOne r (join [SLASH] (take i parts))) (seq 1 limit)
  end.

Definition ignoredByRules (rules : list ignoreRule) (name : gostring) (isDir : bool) : bool :=
  foldl (fun ignored r => if matches r name isDir then negb (negated r) else ignored) false rules.

Example gitignore_sample :
  let rules := parseGitignore ("*.log" ++ [LF] ++ "!keep.log" ++ [LF] ++ "/build/" ++ [LF] ++ "a/**/z  ") [] in
  ignoredByRules rules "x/y.log" false = true /\ ignoredByRules rules "x/keep.log" false = false /\
  ignoredByRules rules "build" true = true /\ ignoredByRules rules "build" false = false /\
  ignoredByRules rules "build/x.o" false = true /\ ignoredByRules rules "src/build" true = false /\
  ignoredByRules rules "a/z" false = true /\ ignoredByRules rules "a/b/c/z" false = true /\
  parseGitignore ("x" ++ [BSL; SP; SP]) "d" = [mkRule "d" ("x" ++ [SP]) false false false].
Proof. vm_compute. repeat split. Qed.

(** ** The last rule that matches decides *)

Lemma ignored_last rules name isDir init :
  foldl (fun ignored r => if matches r name isDir then negb (negated r) else ignored) init rules = true <->
  (exists l r l', rules = l ++ r :: l' /\ matches r name isDir = true /\ negated r = false /\
     Forall (fun r' => matches r' name isDir = false) l') \/
  (init = true /\ Forall (fun r' => matches r' name isDir = false) rules).
Proof.
  induction rules as [|r rules IH] using rev_ind; cbn [foldl].
  - split; [intros ->; right; by split|]. intros [(l & r & l' & E & _)|[? _]]; [by destruct l|done].
  - rewrite foldl_app. cbn [foldl]. destruct (matches r name isDir) eqn:Em.
    + rewrite negb_true_iff. split.
      * intros Hn. left. exists rules, r, []. by split_and!.
      * intros [(l & r' & l' & E & Hm & Hn & Hf)|[_ Hf]].
        -- destruct (decide (l' = [])) as [->|Hne].
           ++ apply app_inj_tail in E as [_ <-]. done.
           ++ destruct (exists_last Hne) as (l1 & x & ->). rewrite app_comm_cons, app_assoc in E.
              apply app_inj_tail in E as [_ <-]. rewrite Forall_app, Forall_singleton in Hf. by destruct Hf; congruence.
        -- rewrite Forall_app, Forall_singleton in Hf. destruct Hf; congruence.
    + rewrite IH. clear IH. split; (intros [(l & r' & l' & E & Hm & Hn & Hf)|[Hi Hf]]; [left|right]).
      * exists l, r', (l' ++ [r]). subst. rewrite <- app_assoc. split_and!; [done..|].
        rewrite Forall_app, Forall_singleton. done.
      * rewrite Forall_app, Forall_singleton. done.
      * destruct (decide (l' = [])) as [->|Hne].
        -- apply app_inj_tail in E as [_ <-]. congruence.
        -- destruct (exists_last Hne) as (l1 & x & ->). rewrite app_comm_cons, app_assoc in E.
           apply app_inj_tail in E as [-> <-]. exists l, r', l1. rewrite Forall_app in Hf. naive_solver.
      * rewrite Forall_app in Hf. naive_solver.
Qed.

(** A path is ignored exactly when some rule matches it, is not negated, and no
    later rule matches. *)
Theorem ignoredByRules_last rules name isDir :
  ignoredByRules rules name isDir = true <->
  exists before r after, rules = before ++ r :: after /\ matches r name isDir = true /\ negated r = false /\
    Forall (fun r' => matches r' name isDir = false) after.
Proof.
  unfold ignoredByRules. rewrite ignored_last. split; [|eauto]. by intros [?|[? _]].
Qed.

(** ** What a pattern with slashes matches *)

(** [**] stands for any number of components, but needs one when it ends the
    pattern; every other component matches one component by [path.Match]. *)
Inductive glob : list gostring -> list gostring -> Prop :=
  | glob_end : glob [] []
  | glob_one p n pat name : p <> "**" -> path_match p n = Some true -> glob pat name ->
      glob (p :: pat) (n :: name)
  | glob_tail name : name <> [] -> glob ["**"] name
  | glob_skip pat skipped name : pat <> [] -> glob pat name -> glob ("**" :: pat) (skipped ++ name).

Lemma matched_true p n : matched p n = true <-> path_match p n = Some true.
Proof. unfold matched. destruct (path_match p n) as [[]|]; naive_solver. Qed.

(** Before another [**], a leading one adds nothing. *)
Lemma glob_stars pat name : glob ("**" :: "**" :: pat) name <-> glob ("**" :: pat) name.
Proof.
  split.
  - inversion 1; subst; [done|]. match goal with H : glob ("**" :: _) _ |- _ => inversion H; subst; [done| |] end.
    + apply glob_tail. destruct skipped; [done|by intros [=]].
    + rewrite app_assoc. by apply glob_skip.
  - intros Hg. by apply (glob_skip _ []).
Qed.

Lemma glob_skip_iff pat name :
  pat <> [] -> hd [] pat <> "**" ->
  glob ("**" :: pat) name <-> exists skipped rest, name = skipped ++ rest /\ glob pat rest.
Proof.
  intros Hn Hh. split.
  - inversion 1; subst; try done. eauto.
  - intros (sk & rest & -> & Hg). by apply glob_skip.
Qed.

(** C38. The matcher with its backtracking decides that relation. *)
Theorem gitGlobMatchParts_spec pat name : gitGlobMatchParts pat name = true <-> glob pat name.
Proof.
  revert name. induction pat as [|p pat IH]; intros name.
  - cbn. rewrite bool_decide_eq_true. split; [intros ->; constructor|by inversion 1].
  - cbn [gitGlobMatchParts]. destruct (decide (p = "**")) as [->|Hp].
    + destruct pat as [|q pat].
      * rewrite negb_true_iff, bool_decide_eq_false. split; [apply glob_tail|by inversion 1; subst].
      * destruct (decide (q = "**")) as [->|Hq]; [by rewrite IH, glob_stars|].
        rewrite glob_skip_iff by done. induction name as [|n name IHn].
        -- rewrite orb_false_r, IH. split; [by exists [], []|].
           intros ([|] & [|] & E & Hg); done.
        -- rewrite orb_true_iff, IH, IHn. split.
           ++ intros [Hg|(sk & rest & -> & Hg)]; [by exists [], (n :: name)|by exists (n :: sk), rest].
           ++ intros ([|x sk] & rest & E & Hg); cbn in E; [left; by subst|right]. simplify_eq. eauto.
    + destruct name as [|n name]; [split; [done|by inversion 1]|].
      rewrite andb_true_iff, matched_true, IH. split; [intros [??]; by constructor|by inversion 1].
Qed.
