(* ===== verification/Workspace.v ===== *)
(** * The workspace: paths, the bounded walk and the scans
    ([internal/workspace/workspace.go], [secure_linux.go], [errors.go])

    The file system is a tree that does not change during an operation. *)
From S2P Require Import Prelude GoStrings Strconv Utf8 GoPath Token PathMatch Gitignore.
#[local] Open Scope Z_scope.

(** ** Errors *)

Inductive ws_error :=
  | ErrInvalidPath | ErrDeniedPath | ErrNotFound | ErrPermission | ErrNotDirectory | ErrInvalidFileType
  | ErrUnsafeFile | ErrLimitExceeded | ErrInvalidPattern | ErrConflict | ErrIO
  | errTraversalFileLimit | errTraversalDepthLimit | errScanByteLimit | errScanResultLimit.

#[export] Instance ws_error_eq_dec : EqDecision ws_error.
Proof. solve_decision. Defined.

(** The category that [safeError] keeps. The traversal limits are joined with
    [ErrLimitExceeded]; the scan limits are of no category. *)
Definition safeError (e : ws_error) : ws_error :=
  match e with
  | errTraversalFileLimit | errTraversalDepthLimit => ErrLimitExceeded
  | errScanByteLimit | errScanResultLimit => ErrIO
  | e => e
  end.

Definition safely {A} (r : result ws_error A) : result ws_error A :=
  match r with Ok a => Ok a | Err e => Err (safeError e) end.

(** ** The tree *)

(** A directory may be unreadable, a file's content too ([None]); [links] says that
    a file has several hard links. Entries are in the order the system lists them. *)
Inductive node :=
  | Dir (readable : bool) (entries : list (gostring * node))
  | File (content : option gostring) (links : bool)
  | Symlink
  | Special.

Definition entry (entries : list (gostring * node)) (name : gostring) : option node :=
  snd <$> find (fun e => bool_decide (e.1 = name)) entries.

Definition is_dir (n : node) : bool := match n with Dir _ _ => true | _ => false end.

(** [openat2] beneath a directory without following links, then opening the last
    component; failures have the category [safeError] gives the system's error. *)
Definition child (n : node) (name : gostring) : result ws_error node :=
  match n with
  | Dir true entries => match entry entries name with Some c => Ok c | None => Err ErrNotFound end
  | Dir false _ => Err ErrPermission
  | _ => Err ErrIO
  end.

Fixpoint descend (n : node) (parts : list gostring) : result ws_error node :=
  match parts with
  | [] => Ok n
  | p :: rest => if decide (p = DOT) then descend n rest else c ← child n p; descend c rest
  end.

Definition secureOpen (root : node) (rel : gostring) (directory : bool) : result ws_error node :=
  n ← descend root (split_byte SLASH rel);
  match n with
  | Dir true _ => Ok n
  | Dir false _ => Err ErrPermission
  | File None _ => if directory then Err ErrIO else Err ErrPermission
  | File (Some _) _ | Special => if directory then Err ErrIO else Ok n
  | Symlink => Err ErrIO
  end.

Section workspace.
Context `{UnicodeTables}.

(** ** Paths *)

Record FS := mkFS { root : node; denied : gset gostring }.

Definition default_denied : list gostring := [".env"; ".ssh"; ".aws"; ".gnupg"; "id_rsa"; "id_ed25519"].

Definition denied_names (names : list gostring) : gset gostring :=
  list_to_set (to_lower <$> filter (fun n => n <> []) (default_denied ++ names)).

(** The root is resolved and stat'ed by the caller of the model. *)
Definition NewWithDenied (root : node) (deniedNames : list gostring) : result ws_error FS :=
  reject negb (is_dir root) with ErrNotDirectory; Ok (mkFS root (denied_names deniedNames)).

Definition NormalizePath (rel : gostring) : result ws_error gostring :=
  reject bool_decide (rel = []) || contains_byte rel NUL with ErrInvalidPath;
  reject is_rooted rel with ErrInvalidPath;
  let rel := replace_all rel [BSL] [SLASH] in
  reject is_rooted rel || ((2 <=? len rel) && bool_decide (rel !! 1%nat = Some ":"%char)) with ErrInvalidPath;
  let normalized := clean rel in
  reject bool_decide (normalized = DOTDOT) || has_prefix normalized (DOTDOT ++ [SLASH]) with ErrInvalidPath;
  Ok normalized.

Definition denied_name (den : gset gostring) (name : gostring) : bool := bool_decide (to_lower name ∈ den).

Definition deniedPath (rel : gostring) (den : gset gostring) : bool :=
  existsb (denied_name den) (split_byte SLASH (replace_all rel [BSL] [SLASH])).

(** The [Lstat] loop of [resolve]. *)
Fixpoint lstat_loop (n : node) (parts : list gostring) (allowMissing : bool) : result ws_error unit :=
  match parts with
  | [] => Ok tt
  | p :: rest =>
      if decide (p = DOT) then lstat_loop n rest allowMissing
      else
        match child n p with
        | Err e => if allowMissing && bool_decide (e = ErrNotFound) && bool_decide (rest = []) then Ok tt else Err e
        | Ok Symlink => Err ErrUnsafeFile
        | Ok c => lstat_loop c rest allowMissing
        end
  end.

(** The final [filepath.Rel] check is on the joined, already normalised path and
    cannot fail. *)
Definition resolve (f : FS) (rel : gostring) (allowMissing : bool) : result ws_error gostring :=
  reject deniedPath rel (denied f) with ErrDeniedPath;
  normalized ← NormalizePath rel;
  reject deniedPath normalized (denied f) with ErrDeniedPath;
  _ ← lstat_loop (root f) (split_byte SLASH normalized) allowMissing;
  Ok normalized.

(** ** Reading *)

Definition limited (content : gostring) (max : Z) : gostring :=
  let limit := if max =? max_int then max else wrap64 (max + 1) in
  if len content <=? limit then content else take (Z.to_nat limit) content.

(** The checks on an opened file, shared by [ReadFile] and [readWalkedFile]. *)
Definition read_opened (n : node) (max : Z) : result ws_error gostring :=
  match n with
  | File (Some content) links =>
      reject links with ErrUnsafeFile;
      reject max <? len content with ErrLimitExceeded;
      let data := limited content max in
      reject max <? len data with ErrLimitExceeded;
      Ok data
  | _ => Err ErrInvalidFileType
  end.

Definition ReadFile (f : FS) (rel : gostring) (max : Z) : result ws_error gostring :=
  safely (reject max <? 0 with ErrLimitExceeded;
          normalized ← resolve f rel false;
          h ← secureOpen (root f) normalized false;
          read_opened h max).

Definition readWalkedFile (f : FS) (rel : gostring) (max : Z) : result ws_error gostring :=
  reject max <? 0 with ErrLimitExceeded;
  h ← secureOpen (root f) rel false;
  read_opened h max.

Definition List_loop (f : FS) (max : Z) : list (gostring * node) -> list gostring -> result ws_error (list gostring) :=
  fix loop es out :=
    match es with
    | [] => Ok out
    | (name, n) :: es =>
        if denied_name (denied f) name then loop es out
        else match n with
             | Symlink => loop es out
             | _ => let out := out ++ [name] in
                    reject max <? len out with ErrLimitExceeded; loop es out
             end
    end.

Definition List (f : FS) (rel : gostring) (max : Z) : result ws_error (list gostring) :=
  safely (let rel := if decide (rel = []) then DOT else rel in
          reject max <? 0 with ErrLimitExceeded;
          normalized ← resolve f rel false;
          dir ← secureOpen (root f) normalized true;
          match dir with
          | Dir _ entries => sort_strings <$> List_loop f max entries []
          | _ => Err ErrIO
          end).

(** ** The walk *)

Definition read_gitignore (den : gset gostring) (entries : list (gostring * node)) (current : gostring)
    (inherited : list ignoreRule) : result ws_error (list ignoreRule) :=
  if bool_decide (".gitignore" ∈ den) then Ok inherited
  else
    match entry entries ".gitignore" with
    | Some (File content links) =>
        match content with
        | None => Err ErrPermission
        | Some data =>
            reject links with ErrUnsafeFile;
            reject maxGitignoreBytes <? len data with ErrLimitExceeded;
            Ok (inherited ++ parseGitignore data current)
        end
    | _ => Ok inherited
    end.

Definition child_path (current name : gostring) : gostring :=
  if decide (current = []) then name else current ++ [SLASH] ++ name.

Section walk.
Context {V : Type} (den : gset gostring) (maxFiles maxDepth : Z) (visit : V -> gostring -> option ws_error * V).

(** The state is the count of files and what the visitor keeps. *)
Fixpoint walk (dir : node) (current : gostring) (depth : Z) (inherited : list ignoreRule) (st : Z * V)
    {struct dir} : option ws_error * (Z * V) :=
  match dir with
  | Dir readable entries =>
      if negb readable then (Some ErrPermission, st)
      else
        match read_gitignore den entries current inherited with
        | Err e => (Some e, st)
        | Ok active =>
            (fix loop (es : list (gostring * node)) (st : Z * V) : option ws_error * (Z * V) :=
               match es with
               | [] => (None, st)
               | (name, n) :: es =>
                   if denied_name den name then loop es st
                   else
                     let entryPath := child_path current name in
                     let skipped := match n with Symlink => true | _ => false end
                                    || ignoredByRules active entryPath (is_dir n)
                                    || match n with Special => true | _ => false end in
                     if skipped then loop es st
                     else if maxDepth <? depth + 1 then (Some errTraversalDepthLimit, st)
                     else if is_dir n then
                       match walk n entryPath (depth + 1) active st with
                       | (Some e, st) => (Some e, st)
                       | (None, st) => loop es st
                       end
                     else
                       let count := st.1 + 1 in
                       if maxFiles <? count then (Some errTraversalFileLimit, (count, st.2))
                       else
                         match visit st.2 entryPath with
                         | (Some e, v) => (Some e, (count, v))
                         | (None, v) => loop es (count, v)
                         end
               end) entries st
        end
  | _ => (Some ErrIO, st)
  end.

(** The way down to the requested directory; [Ok None] when it is ignored. *)
Fixpoint start_at (dir : node) (current : gostring) (rules : list ignoreRule) (parts : list gostring)
  : result ws_error (option (node * gostring * list ignoreRule)) :=
  match parts with
  | [] => Ok (Some (dir, current, rules))
  | part :: rest =>
      if bool_decide (part = []) || bool_decide (part = DOT) then start_at dir current rules rest
      else
        reject denied_name den part with ErrDeniedPath;
        match dir with
        | Dir _ entries =>
            rules ← read_gitignore den entries current rules;
            let childPath := child_path current part in
            if ignoredByRules rules childPath true then Ok None
            else
              n ← child dir part;
              match n with
              | Dir true _ => start_at n childPath rules rest
              | Dir false _ => Err ErrPermission
              | _ => Err ErrIO
              end
        | _ => Err ErrIO
        end
  end.

Definition secureWalkFilesWithDepth (rootDir : node) (rel : gostring) (v : V) : option ws_error * V :=
  if (maxFiles <? 0) || (maxDepth <? 0) then (Some ErrLimitExceeded, v)
  else if deniedPath rel den then (Some ErrDeniedPath, v)
  else
    match NormalizePath rel with
    | Err e => (Some e, v)
    | Ok rel =>
        match rootDir with
        | Dir true _ =>
            match start_at rootDir [] [] (if decide (rel = DOT) then [] else split_byte SLASH rel) with
            | Err e => (Some e, v)
            | Ok None => (None, v)
            | Ok (Some (dir, current, rules)) =>
                let '(e, st) := walk dir current 0 rules (0, v) in (e, st.2)
            end
        | Dir false _ => (Some ErrPermission, v)
        | _ => (Some ErrIO, v)
        end
    end.

End walk.

Definition walkFilesWithDepth {V} (f : FS) (rel : gostring) (maxFiles maxDepth : Z)
    (visit : V -> gostring -> option ws_error * V) (v : V) : option ws_error * V :=
  let rel := if decide (rel = []) then DOT else rel in
  if (maxFiles <? 0) || (maxDepth <? 0) then (Some ErrLimitExceeded, v)
  else
    match resolve f rel false with
    | Err e => (Some e, v)
    | Ok normalized => secureWalkFilesWithDepth (denied f) maxFiles maxDepth visit (root f) normalized v
    end.

(** ** Scans *)

Inductive LimitReason := ScanLimitFiles | ScanLimitDepth | ScanLimitBytes | ScanLimitResults.

(** [Complete] is [true] exactly when there is no limit reason. *)
Record ScanStats := mkStats {
  Limit : option LimitReason; FilesScanned : Z; FilesSkipped : Z; BytesScanned : Z
}.

Definition Complete (s : ScanStats) : bool := match Limit s with None => true | Some _ => false end.

Definition limit_reason (e : ws_error) : option LimitReason :=
  match e with
  | errScanResultLimit => Some ScanLimitResults
  | errScanByteLimit => Some ScanLimitBytes
  | errTraversalFileLimit => Some ScanLimitFiles
  | errTraversalDepthLimit => Some ScanLimitDepth
  | _ => None
  end.

Definition with_limit (s : ScanStats) (r : LimitReason) : ScanStats :=
  mkStats (Some r) (FilesScanned s) (FilesSkipped s) (BytesScanned s).

Definition validateGlobPattern (p : gostring) : result ws_error gostring :=
  reject bool_decide (p = []) || contains_byte p NUL || is_rooted p with ErrInvalidPattern;
  let p := replace_all p [BSL] [SLASH] in
  reject is_rooted p with ErrInvalidPattern;
  reject existsb (fun part => bool_decide (part = DOTDOT)) (split_byte SLASH p) with ErrInvalidPattern;
  reject match path_match p "candidate" with None => true | Some _ => false end with ErrInvalidPattern;
  Ok p.

Record GlobScanResult := mkGlob { Paths : list gostring; g_Scan : ScanStats }.

Definition glob_candidate (normalizedRel filePath : gostring) : gostring :=
  if decide (normalizedRel = DOT) then filePath
  else trim_prefix filePath (trim_suffix normalizedRel [SLASH] ++ [SLASH]).

Definition glob_visit (pattern normalizedRel : gostring) (maxResults : Z) (r : GlobScanResult) (filePath : gostring)
  : option ws_error * GlobScanResult :=
  let s := g_Scan r in
  let r := mkGlob (Paths r) (mkStats (Limit s) (FilesScanned s + 1) (FilesSkipped s) (BytesScanned s)) in
  match path_match pattern (glob_candidate normalizedRel filePath) with
  | None => (Some ErrInvalidPattern, r)
  | Some false => (None, r)
  | Some true =>
      if len (Paths r) =? maxResults then (Some errScanResultLimit, r)
      else (None, mkGlob (Paths r ++ [filePath]) (g_Scan r))
  end.

Definition GlobScanWithDepth (f : FS) (rel pattern : gostring) (maxFiles maxResults maxDepth : Z)
  : result ws_error GlobScanResult :=
  safely (pattern ← validateGlobPattern pattern;
          reject maxResults <? 0 with ErrLimitExceeded;
          let rel := if decide (rel = []) then DOT else rel in
          normalizedRel ← NormalizePath rel;
          let start := mkGlob [] (mkStats None 0 0 0) in
          let '(e, r) := walkFilesWithDepth f rel maxFiles maxDepth (glob_visit pattern normalizedRel maxResults) start in
          let r := mkGlob (sort_strings (Paths r)) (g_Scan r) in
          match e with
          | None => Ok r
          | Some errScanByteLimit => Err ErrIO
          | Some e => match limit_reason e with
                      | Some reason => Ok (mkGlob (Paths r) (with_limit (g_Scan r) reason))
                      | None => Err e
                      end
          end).

(** [GlobWithDepth] and [Glob] refuse an incomplete scan; so do their [Grep] twins. *)
Definition GlobWithDepth (f : FS) (rel pattern : gostring) (maxFiles maxResults maxDepth : Z)
  : result ws_error (list gostring) :=
  r ← GlobScanWithDepth f rel pattern maxFiles maxResults maxDepth;
  reject negb (Complete (g_Scan r)) with ErrLimitExceeded; Ok (Paths r).

Definition Glob (f : FS) (rel pattern : gostring) (maxFiles maxResults : Z) : result ws_error (list gostring) :=
  GlobWithDepth f rel pattern maxFiles maxResults DefaultMaxTraversalDepth.

Record Match := mkMatch { m_Path : gostring; m_Line : Z; m_Text : gostring }.
Record GrepScanResult := mkGrep { Matches : list Match; Scan : ScanStats }.

(** The loop over the lines of a file, from line [i]. *)
Fixpoint grep_lines (query filePath : gostring) (maxMatches i : Z) (lines : list gostring) (ms : list Match)
  : option ws_error * list Match :=
  match lines with
  | [] => (None, ms)
  | line :: lines =>
      if negb (contains line query) then grep_lines query filePath maxMatches (i + 1) lines ms
      else if len ms =? maxMatches then (Some errScanResultLimit, ms)
      else grep_lines query filePath maxMatches (i + 1) lines (ms ++ [mkMatch filePath (i + 1) line])
  end.

Definition skip_file (r : GrepScanResult) : GrepScanResult :=
  let s := Scan r in
  mkGrep (Matches r) (mkStats (Limit s) (FilesScanned s) (FilesSkipped s + 1) (BytesScanned s)).

Definition grep_visit (f : FS) (query : gostring) (maxMatches maxBytes : Z) (r : GrepScanResult) (filePath : gostring)
  : option ws_error * GrepScanResult :=
  let remaining := maxBytes - BytesScanned (Scan r) in
  if remaining <=? 0 then (Some errScanByteLimit, r)
  else
    match readWalkedFile f filePath remaining with
    | Err ErrLimitExceeded => (Some errScanByteLimit, skip_file r)
    | Err (ErrInvalidFileType | ErrUnsafeFile) => (None, skip_file r)
    | Err e => (Some e, r)
    | Ok data =>
        let s := Scan r in
        let r := mkGrep (Matches r) (mkStats (Limit s) (FilesScanned s + 1) (FilesSkipped s) (BytesScanned s + len data)) in
        if contains_byte data NUL then (None, skip_file r)
        else
          let '(e, ms) := grep_lines query filePath maxMatches 0 (split_byte LF data) (Matches r) in
          (e, mkGrep ms (Scan r))
    end.

Definition GrepScanWithDepth (f : FS) (rel query : gostring) (maxFiles maxMatches maxBytes maxDepth : Z)
  : result ws_error GrepScanResult :=
  safely (reject bool_decide (query = []) with ErrInvalidPattern;
          reject (maxMatches <? 0) || (maxBytes <? 0) with ErrLimitExceeded;
          let start := mkGrep [] (mkStats None 0 0 0) in
          let '(e, r) := walkFilesWithDepth f rel maxFiles maxDepth (grep_visit f query maxMatches maxBytes) start in
          match e with
          | None => Ok r
          | Some e => match limit_reason e with
                      | Some reason => Ok (mkGrep (Matches r) (with_limit (Scan r) reason))
                      | None => Err e
                      end
          end).

Definition GrepWithDepth (f : FS) (rel query : gostring) (maxFiles maxMatches maxBytes maxDepth : Z)
  : result ws_error (list Match) :=
  r ← GrepScanWithDepth f rel query maxFiles maxMatches maxBytes maxDepth;
  reject negb (Complete (Scan r)) with ErrLimitExceeded; Ok (Matches r).

Definition Grep (f : FS) (rel query : gostring) (maxFiles maxMatches maxBytes : Z) : result ws_error (list Match) :=
  GrepWithDepth f rel query maxFiles maxMatches maxBytes DefaultMaxTraversalDepth.

End workspace.

Definition sample_tree : node :=
  Dir true
    [(".gitignore", File (Some ("*.log" ++ [LF])) false);
     (".env", File (Some "SECRET=hello") false);
     ("link", Symlink);
     ("out.log", File (Some "hello") false);
     ("src", Dir true [("main.go", File (Some ("package main" ++ [LF] ++ "// hello")) false);
                       ("util.go", File (Some "package util") false);
                       ("bin", File (Some ("hello" ++ [NUL])) false)])].

Definition sample_fs `{UnicodeTables} : FS := mkFS sample_tree (denied_names ["secret"]).

Example workspace_sample :
  let _ := ascii_tables in
  GlobWithDepth sample_fs [] "*/*.go" 100 10 8 = Ok ["src/main.go"; "src/util.go"] /\
  GlobWithDepth sample_fs "src" "*.go" 100 10 8 = Ok ["src/main.go"; "src/util.go"] /\
  Grep sample_fs [] "hello" 100 10 1000 = Ok [mkMatch "src/main.go" 2 "// hello"] /\
  Glob sample_fs [] "*" 1 10 = Err ErrLimitExceeded /\
  ReadFile sample_fs "src/../.env" 100 = Err ErrDeniedPath /\
  ReadFile sample_fs "link" 100 = Err ErrUnsafeFile /\
  ReadFile sample_fs "src/util.go" 5 = Err ErrLimitExceeded /\
  List sample_fs [] 10 = Ok [".gitignore"; "out.log"; "src"].
Proof. vm_compute. repeat split. Qed.
