(* ===== verification/Scan.v ===== *)
(** * What the scans of the workspace return

    The walk is related to the list of its events - the files it hands to the
    visitor and the failures that stop it -, and [Glob] and [Grep] to the files
    that this list names. *)
From S2P Require Import Prelude GoStrings Strconv Utf8 GoPath PathMatch Gitignore Workspace.
#[local] Open Scope Z_scope.

Lemma node_nested_ind (P : node -> Prop) :
  (forall readable entries, Forall (fun e => P e.2) entries -> P (Dir readable entries)) ->
  (forall content links, P (File content links)) -> P Symlink -> P Special -> forall n, P n.
Proof.
  intros Hd Hf Hl Hs. fix IH 1. intros [readable entries|content links| |]; [|apply Hf|apply Hl|apply Hs].
  apply Hd. induction entries as [|[name n] entries IHe]; constructor; [apply IH|apply IHe].
Qed.

Section scan.
Context `{UnicodeTables} (den : gset gostring).

(** ** The events of a walk *)

Inductive event := Visit (p : gostring) | Failure (e : ws_error).

Definition not_a_file (n : node) : bool := match n with Symlink | Special => true | _ => false end.

Section events.
Context (maxDepth : Z).

Fixpoint events (dir : node) (current : gostring) (depth : Z) (inherited : list ignoreRule) : list event :=
  match dir with
  | Dir readable entries =>
      if negb readable then [Failure ErrPermission]
      else
        match read_gitignore den entries current inherited with
        | Err e => [Failure e]
        | Ok active =>
            flat_map (fun e : gostring * node =>
              let '(name, n) := e in
              let p := child_path current name in
              if denied_name den name || not_a_file n || ignoredByRules active p (is_dir n) then []
              else if maxDepth <? depth + 1 then [Failure errTraversalDepthLimit]
              else if is_dir n then events n p (depth + 1) active
              else [Visit p]) entries
        end
  | _ => [Failure ErrIO]
  end.

(** The files the walk reaches, declaratively: every component of the path is
    neither denied nor ignored by the rules in force where it lies, no component is
    a link, and the file lies at most [maxDepth] levels down. *)
Inductive selected : node -> gostring -> Z -> list ignoreRule -> gostring -> Prop :=
  | selected_file entries current depth inherited active name content links :
      read_gitignore den entries current inherited = Ok active ->
      (name, File content links) ∈ entries -> denied_name den name = false ->
      ignoredByRules active (child_path current name) false = false -> depth + 1 <= maxDepth ->
      selected (Dir true entries) current depth inherited (child_path current name)
  | selected_below entries current depth inherited active name readable below p :
      read_gitignore den entries current inherited = Ok active ->
      (name, Dir readable below) ∈ entries -> denied_name den name = false ->
      ignoredByRules active (child_path current name) true = false -> depth + 1 <= maxDepth ->
      selected (Dir readable below) (child_path current name) (depth + 1) active p ->
      selected (Dir true entries) current depth inherited p.

Lemma elem_of_flat_map {A B} (f : A -> list B) l y : y ∈ flat_map f l <-> exists x, x ∈ l /\ y ∈ f x.
Proof.
  induction l as [|x l IH]; cbn; [split; [by intros ?%elem_of_nil|by intros (? & ?%elem_of_nil & _)]|].
  rewrite elem_of_app, IH. setoid_rewrite elem_of_cons. naive_solver.
Qed.

Lemma events_selected dir current depth inherited p :
  Visit p ∈ events dir current depth inherited <-> selected dir current depth inherited p.
Proof.
  revert current depth inherited. induction dir as [readable entries IH|content links| |] using node_nested_ind;
    intros current depth inherited; cbn [events];
    try (split; [intros Hin; apply list_elem_of_singleton in Hin; done|by inversion 1]).
  destruct readable; cbn [negb]; [|split; [intros Hin; apply list_elem_of_singleton in Hin; done|by inversion 1]].
  destruct (read_gitignore den entries current inherited) as [active|e] eqn:Hr;
    [|split; [intros Hin; apply list_elem_of_singleton in Hin; done|inversion 1; congruence]].
  rewrite Forall_forall in IH. rewrite elem_of_flat_map. split.
  - intros ([name n] & Hin & Hv). specialize (IH _ Hin). cbn [snd] in IH.
    destruct (_ || _ || _) eqn:Eg; [by apply elem_of_nil in Hv|]. bool_props.
    destruct (Z.ltb_spec maxDepth (depth + 1)) as [|Hle]; [apply list_elem_of_singleton in Hv; done|].
    destruct n as [rd below|content links| |]; cbn [is_dir not_a_file] in *; try done.
    + eapply selected_below; eauto. by apply IH.
    + apply list_elem_of_singleton in Hv as [= ->]. by eapply selected_file.
  - inversion 1; subst; assert (active0 = active) as -> by congruence.
    + exists (name, File content links). split; [done|]. cbn [is_dir not_a_file].
      repeat match goal with E : _ = false |- _ => rewrite E end. cbn [orb].
      rewrite (proj2 (Z.ltb_ge _ _)) by lia. by left.
    + exists (name, Dir readable below). split; [done|]. cbn [is_dir not_a_file].
      repeat match goal with E : _ = false |- _ => rewrite E end. cbn [orb].
      rewrite (proj2 (Z.ltb_ge _ _)) by lia. by apply (IH (name, Dir readable below)).
Qed.

End events.

(** ** Executing events *)

Section exec.
Context {V : Type} (maxFiles : Z) (visit : V -> gostring -> option ws_error * V).

Fixpoint exec (evs : list event) (st : Z * V) : option ws_error * (Z * V) :=
  match evs with
  | [] => (None, st)
  | Failure e :: _ => (Some e, st)
  | Visit p :: evs =>
      let count := st.1 + 1 in
      if maxFiles <? count then (Some errTraversalFileLimit, (count, st.2))
      else
        match visit st.2 p with
        | (Some e, v) => (Some e, (count, v))
        | (None, v) => exec evs (count, v)
        end
  end.

Lemma exec_app a b st :
  exec (a ++ b) st = match exec a st with (None, st') => exec b st' | r => r end.
Proof.
  revert st. induction a as [|[p|e] a IH]; intros st; cbn [app exec]; [done| |done].
  destruct (maxFiles <? st.1 + 1); [done|]. by destruct (visit st.2 p) as [[e|] v].
Qed.

(** The walk does what its events say, in order. *)
Lemma walk_exec maxDepth dir current depth inherited st :
  walk den maxFiles maxDepth visit dir current depth inherited st =
  exec (events maxDepth dir current depth inherited) st.
Proof.
  revert current depth inherited st. induction dir as [readable entries IH|content links| |] using node_nested_ind;
    intros current depth inherited st; cbn [walk events]; try done.
  destruct readable; cbn [negb]; [|done].
  destruct (read_gitignore den entries current inherited) as [active|e]; [|done].
  revert st. induction IH as [|[name n] entries Hn _ IHe]; intros st; [done|].
  cbn [flat_map snd] in *. rewrite exec_app. destruct (denied_name den name); cbn [orb]; [apply IHe|].
  assert (Hskip : match n with Symlink => true | _ => false end || ignoredByRules active (child_path current name) (is_dir n) ||
      match n with Special => true | _ => false end =
    not_a_file n || ignoredByRules active (child_path current name) (is_dir n))
    by (destruct n; cbn [not_a_file]; by rewrite ?orb_true_r, ?orb_false_r).
  rewrite Hskip. destruct (not_a_file n || _); [apply IHe|].
  destruct (maxDepth <? depth + 1); [done|]. destruct (is_dir n) eqn:Ed.
  - rewrite Hn. destruct (exec _ st) as [[e|] st']; [done|apply IHe].
  - cbn [exec]. destruct (maxFiles <? st.1 + 1); [done|]. destruct (visit st.2 _) as [[e|] v]; [done|apply IHe].
Qed.

(** The visitor over a list of files. *)
Fixpoint run (ps : list gostring) (v : V) : option ws_error * V :=
  match ps with
  | [] => (None, v)
  | p :: ps => match visit v p with (Some e, v) => (Some e, v) | (None, v) => run ps v end
  end.

Lemma exec_None evs c v c' v' :
  exec evs (c, v) = (None, (c', v')) ->
  exists ps, evs = Visit <$> ps /\ c' = c + len ps /\ (ps <> [] -> c' <= maxFiles) /\ run ps v = (None, v').
Proof.
  revert c v. induction evs as [|[p|e] evs IH]; intros c v; cbn [exec]; [|cbn [fst snd]|done].
  - intros [= <- <-]. exists []. unfold len. cbn. split_and!; [done|lia|done|done].
  - destruct (Z.ltb_spec maxFiles (c + 1)); [done|]. destruct (visit v p) as [[e|] v1] eqn:Ev; [done|].
    intros (ps & -> & -> & Hc & Hr)%IH. exists (p :: ps). unfold len in *. cbn [length fmap list_fmap run].
    rewrite Ev. split_and!; [done|lia| |done]. intros _. destruct ps; [cbn; lia|]. apply Hc. done.
Qed.

(** A walk that stops has visited some files before: [ps] without complaint, then
    perhaps one more, [last], that made the visitor stop. *)
Lemma exec_Some evs c v e c' v' :
  c <= maxFiles -> exec evs (c, v) = (Some e, (c', v')) ->
  exists ps rest v1, evs = (Visit <$> ps) ++ rest /\ run ps v = (None, v1) /\ c + len ps <= maxFiles /\
  ((exists p rest', rest = Visit p :: rest' /\ visit v1 p = (Some e, v') /\ c + len ps + 1 <= maxFiles) \/
   (exists p rest', rest = Visit p :: rest' /\ e = errTraversalFileLimit /\ v' = v1 /\ c + len ps = maxFiles) \/
   (exists rest', rest = Failure e :: rest' /\ v' = v1)).
Proof.
  revert c v. induction evs as [|[p|e0] evs IH]; intros c v Hc; cbn [exec]; [done|cbn [fst snd]|].
  - destruct (Z.ltb_spec maxFiles (c + 1)).
    + intros [= <- <- <-]. exists [], (Visit p :: evs), v. unfold len. cbn. split_and!; [done..|lia|].
      right; left. exists p, evs. split_and!; [done..|lia].
    + destruct (visit v p) as [[e0|] v0] eqn:Ev.
      * intros [= <- <- <-]. exists [], (Visit p :: evs), v. unfold len. cbn. split_and!; [done..|lia|].
        left. exists p, evs. split_and!; [done..|lia].
      * intros (ps & rest & v1 & -> & Hr & Hl & Hcase)%IH; [|lia]. exists (p :: ps), rest, v1. cbn [run]. rewrite Ev.
        unfold len in *. cbn [length fmap list_fmap app]. split_and!; [done..|lia|].
        destruct Hcase as [(q & r & ? & ? & ?)|[(q & r & ? & ? & ? & ?)|?]]; [left|right; left|right; by right];
          exists q, r; split_and!; try done; lia.
  - intros [= <- <- <-]. exists [], (Failure e0 :: evs), v. unfold len. cbn. split_and!; [done..|lia|]. right; right. eauto.
Qed.

End exec.
End scan.

Section scans.
Context `{UnicodeTables}.

(** The events of the walk a scan makes from [rel]. *)
Definition scan_events (f : FS) (rel : gostring) (maxDepth : Z) : list event :=
  match resolve f (if decide (rel = []) then DOT else rel) false with
  | Err e => [Failure e]
  | Ok normalized =>
      if deniedPath normalized (denied f) then [Failure ErrDeniedPath]
      else
        match NormalizePath normalized with
        | Err e => [Failure e]
        | Ok rel =>
            match root f with
            | Dir true _ =>
                match start_at (denied f) (root f) [] [] (if decide (rel = DOT) then [] else split_byte SLASH rel) with
                | Err e => [Failure e]
                | Ok None => []
                | Ok (Some (dir, current, rules)) => events (denied f) maxDepth dir current 0 rules
                end
            | Dir false _ => [Failure ErrPermission]
            | _ => [Failure ErrIO]
            end
        end
  end.

Definition visited (ev : event) : option gostring := match ev with Visit p => Some p | Failure _ => None end.

(** The files below [rel], in the order of the walk. *)
Definition scan_files (f : FS) (rel : gostring) (maxDepth : Z) : list gostring :=
  omap visited (scan_events f rel maxDepth).

Lemma walkFiles_exec {V} f rel maxFiles maxDepth (visit : V -> gostring -> option ws_error * V) v :
  walkFilesWithDepth f rel maxFiles maxDepth visit v =
  if (maxFiles <? 0) || (maxDepth <? 0) then (Some ErrLimitExceeded, v)
  else let '(e, st) := exec maxFiles visit (scan_events f rel maxDepth) (0, v) in (e, st.2).
Proof.
  unfold walkFilesWithDepth, scan_events, secureWalkFilesWithDepth.
  destruct ((maxFiles <? 0) || (maxDepth <? 0)); [done|].
  destruct (resolve _ _ _) as [normalized|]; [|done].
  destruct (deniedPath normalized (denied f)); [done|].
  destruct (NormalizePath normalized) as [rel'|]; [|done].
  destruct (root f) as [[] entries|? ?| |] eqn:Er; try done.
  destruct (start_at _ _ _ _ _) as [[[[dir current] rules]|]|]; try done. by rewrite walk_exec.
Qed.

Lemma omap_visited ps rest : omap visited ((Visit <$> ps) ++ rest) = ps ++ omap visited rest.
Proof. induction ps as [|p ps IH]; [done|]. cbn. by rewrite IH. Qed.

(** ** [Glob] *)

Definition glob_matches (pattern normalizedRel p : gostring) : bool :=
  match path_match pattern (glob_candidate normalizedRel p) with Some b => b | None => false end.

Lemma glob_run pattern nrel maxResults ps r r' :
  run (glob_visit pattern nrel maxResults) ps r = (None, r') -> len (Paths r) <= maxResults ->
  Paths r' = Paths r ++ List.filter (glob_matches pattern nrel) ps /\ len (Paths r') <= maxResults /\
  Limit (g_Scan r') = Limit (g_Scan r) /\ FilesScanned (g_Scan r') = FilesScanned (g_Scan r) + len ps.
Proof.
  revert r. induction ps as [|p ps IH]; intros r; cbn [run].
  - intros [= <-] Hl. rewrite app_nil_r. unfold len at 2. cbn. split_and!; [done..|lia].
  - assert (Hg : glob_matches pattern nrel p =
      match path_match pattern (glob_candidate nrel p) with Some b => b | None => false end) by done.
    cbn [List.filter]. rewrite Hg. clear Hg. unfold glob_visit at 1. cbv zeta. cbn [Paths g_Scan].
    destruct (path_match pattern (glob_candidate nrel p)) as [[]|]; [|intros Hr Hl|by intros [=]].
    + destruct (Z.eqb_spec (len (Paths r)) maxResults); [by intros [=]|]. intros Hr Hl.
      apply IH in Hr as (-> & ? & -> & ->); cbn [Paths g_Scan FilesScanned Limit] in *.
      * rewrite <- app_assoc in *. unfold len in *. cbn [length]. split_and!; [done..|lia].
      * rewrite len_app. unfold len in *. cbn. lia.
    + apply IH in Hr as (-> & ? & -> & ->); [|done]. cbn. unfold len in *. cbn [length]. split_and!; [done..|lia].
Qed.

Lemma glob_stop pattern nrel maxResults r p e r' :
  glob_visit pattern nrel maxResults r p = (Some e, r') ->
  Paths r' = Paths r /\ FilesScanned (g_Scan r') = FilesScanned (g_Scan r) + 1 /\
  (e = ErrInvalidPattern \/
   e = errScanResultLimit /\ glob_matches pattern nrel p = true /\ len (Paths r) = maxResults).
Proof.
  unfold glob_visit, glob_matches. destruct (path_match _ _) as [[]|]; cbn; [|done|intros [= <- <-]; by auto].
  destruct (Z.eqb_spec (len (Paths r)) maxResults); [|done]. intros [= <- <-]. cbn. auto 7.
Qed.

Lemma sort_strings_length l : length (sort_strings l) = length l.
Proof. by rewrite sort_strings_perm. Qed.

(** *** Where failures come from *)

(** The errors of the system and of the checks, as opposed to those that count. *)
Definition system_error (e : ws_error) : Prop :=
  match e with
  | errTraversalFileLimit | errScanByteLimit | errScanResultLimit => False
  | _ => True
  end.

Lemma child_system n name e : child n name = Err e -> system_error e.
Proof. unfold child. repeat case_match; intros E; simplify_eq; done. Qed.

Lemma normalize_system rel e : NormalizePath rel = Err e -> system_error e.
Proof. unfold NormalizePath. rewrite !guard_Err. naive_solver. Qed.

Lemma lstat_system n parts am e : lstat_loop n parts am = Err e -> system_error e.
Proof.
  revert n. induction parts as [|p parts IH]; intros n; cbn [lstat_loop]; [done|]. case_decide; [apply IH|].
  destruct (child n p) as [c|e'] eqn:Ec.
  - destruct c; try apply IH. by intros [= <-].
  - destruct (_ && _); [done|]. intros [= <-]. by eapply child_system.
Qed.

Lemma resolve_system f rel am e : resolve f rel am = Err e -> system_error e.
Proof.
  unfold resolve. rewrite guard_Err, bind_Err. intros [[_ <-]|(_ & [E|(nr & _ & E)])]; [done|by eapply normalize_system|].
  rewrite guard_Err, bind_Err in E. destruct E as [[_ <-]|(_ & [E|(? & _ & E)])]; [done|by eapply lstat_system|done].
Qed.

Lemma gitignore_system den entries current inherited e :
  read_gitignore den entries current inherited = Err e -> system_error e.
Proof.
  unfold read_gitignore. case_bool_decide; [done|]. destruct (entry entries ".gitignore") as [[| content links| |]|]; try done.
  destruct content; [|by intros [= <-]]. rewrite !guard_Err. naive_solver.
Qed.

Lemma start_at_system den dir current rules parts e :
  start_at den dir current rules parts = Err e -> system_error e.
Proof.
  revert dir current rules. induction parts as [|p parts IH]; intros dir current rules; cbn [start_at]; [done|].
  destruct (_ || _); [apply IH|]. rewrite guard_Err. intros [[_ <-]|[_ E]]; [done|].
  destruct dir as [rd entries| | |]; try (by injection E as <-).
  apply bind_Err in E as [E|(rules' & _ & E)]; [by eapply gitignore_system|].
  destruct (ignoredByRules _ _ _); [done|].
  apply bind_Err in E as [E|(n & _ & E)]; [by eapply child_system|].
  destruct n as [[] ?| | |]; try (by injection E as <-). by eapply IH.
Qed.

Lemma events_system den maxDepth dir current depth inherited e :
  Failure e ∈ events den maxDepth dir current depth inherited -> system_error e.
Proof.
  revert current depth inherited. induction dir as [readable entries IH|content links| |] using node_nested_ind;
    intros current depth inherited; cbn [events]; try (by intros [= ->]%list_elem_of_singleton).
  destruct (negb readable); [by intros [= ->]%list_elem_of_singleton|].
  destruct (read_gitignore _ _ _ _) as [active|e'] eqn:Hr;
    [|intros [= ->]%list_elem_of_singleton; by eapply gitignore_system].
  rewrite Forall_forall in IH. intros ([name n] & Hin & Hf)%elem_of_flat_map. specialize (IH _ Hin).
  destruct (_ || _ || _); [by apply elem_of_nil in Hf|].
  destruct (maxDepth <? depth + 1); [by apply list_elem_of_singleton in Hf as [= ->]|].
  destruct (is_dir n); [by eapply IH|]. by apply list_elem_of_singleton in Hf.
Qed.

Lemma scan_events_system f rel maxDepth e : Failure e ∈ scan_events f rel maxDepth -> system_error e.
Proof.
  unfold scan_events. destruct (resolve _ _ _) as [nr|e1] eqn:E1;
    [|intros [= ->]%list_elem_of_singleton; by eapply resolve_system].
  destruct (deniedPath _ _); [by intros [= ->]%list_elem_of_singleton|].
  destruct (NormalizePath nr) as [rel'|e2] eqn:E2;
    [|intros [= ->]%list_elem_of_singleton; by eapply normalize_system].
  destruct (root f) as [[] entries| | |] eqn:Er; try (by intros [= ->]%list_elem_of_singleton).
  destruct (start_at _ _ _ _ _) as [[[[dir current] rules]|]|e3] eqn:E3; [apply events_system|by intros ?%elem_of_nil|].
  intros [= ->]%list_elem_of_singleton. by eapply start_at_system.
Qed.

(** What the scan reports when it succeeds: the sorted matching files among those
    it visited, never more than asked for. When the result is marked complete these
    are all the files below [rel] that match, and otherwise the reason is true: more
    files, more matches, or a directory deeper than allowed. *)
Theorem GlobScan_truthful f rel pattern maxFiles maxResults maxDepth r :
  GlobScanWithDepth f rel pattern maxFiles maxResults maxDepth = Ok r ->
  exists pat nrel ps, validateGlobPattern pattern = Ok pat /\
    NormalizePath (if decide (rel = []) then DOT else rel) = Ok nrel /\
    ps `prefix_of` scan_files f rel maxDepth /\
    Paths r = sort_strings (List.filter (glob_matches pat nrel) ps) /\
    len (Paths r) <= maxResults /\ FilesScanned (g_Scan r) <= maxFiles /\
    match Limit (g_Scan r) with
    | None => ps = scan_files f rel maxDepth /\ scan_events f rel maxDepth = Visit <$> ps
    | Some ScanLimitResults => maxResults < len (List.filter (glob_matches pat nrel) (scan_files f rel maxDepth))
    | Some ScanLimitFiles => maxFiles < len (scan_files f rel maxDepth)
    | Some ScanLimitDepth => Failure errTraversalDepthLimit ∈ scan_events f rel maxDepth
    | Some ScanLimitBytes => False
    end.
Proof.
  unfold GlobScanWithDepth, safely. destruct (_ ≫= _) as [r0|] eqn:E; [|done]. intros [= <-].
  apply bind_Ok in E as (pat & Hpat & [Hmax%Z.ltb_ge (nrel & Hn & E)%bind_Ok]%guard_Ok).
  exists pat, nrel. rewrite walkFiles_exec in E.
  assert (Hrel : scan_events f (if decide (rel = []) then DOT else rel) maxDepth = scan_events f rel maxDepth)
    by (unfold scan_events; repeat case_decide; done).
  rewrite Hrel in E. destruct (Z.ltb_spec maxFiles 0); [done|].
  destruct (maxDepth <? 0); [done|]. cbn [orb] in E.
  assert (Hrange : 0 <= maxFiles) by lia.
  destruct (exec _ _ _ _) as [o [c r1]] eqn:Ex.
  destruct o as [e|].
  - apply exec_Some in Ex as (ps & rest & v1 & Hev & Hrun & Hlen & Hcase); [|lia].
    apply glob_run in Hrun as (Hp & Hl & Hlim & Hs); [|unfold len; cbn; lia]. cbn [Paths g_Scan Limit FilesScanned app] in *.
    assert (Hfiles : scan_files f rel maxDepth = ps ++ omap visited rest)
      by (unfold scan_files; by rewrite Hev, omap_visited).
    exists ps. rewrite Hfiles. split; [done|]. split; [done|]. split; [by eexists|]. cbn [snd] in E.
    destruct Hcase as [(p & rest' & -> & Hv & Hc)|[(p & rest' & -> & -> & -> & Hc)|(rest' & -> & ->)]].
    + apply glob_stop in Hv as (HP & HF & [->|(-> & Hm & Hmr)]); [done|]. cbn in E. injection E as <-. cbn.
      rewrite HP, Hp. split; [done|]. unfold len in *. rewrite sort_strings_length. split; [rewrite <- Hp; lia|].
      split; [lia|]. rewrite List.filter_app. cbn. rewrite Hm, length_app. cbn. rewrite <- Hp. lia.
    + cbn in E. injection E as <-. cbn. rewrite Hp. split; [done|]. unfold len in *.
      rewrite sort_strings_length. split; [rewrite <- Hp; lia|]. split; [lia|]. rewrite length_app. cbn. lia.
    + assert (Hsys : system_error e) by (eapply (scan_events_system f rel maxDepth); rewrite Hev; apply elem_of_app; right; left).
      destruct e; cbn in E, Hsys; try done. injection E as <-. cbn. rewrite Hp. split; [done|]. unfold len in *.
      rewrite sort_strings_length. split; [rewrite <- Hp; lia|]. split; [lia|].
      rewrite Hev. apply elem_of_app. right; left.
  - injection E as <-. apply exec_None in Ex as (ps & Hev & Hc & Hcm & Hrun).
    apply glob_run in Hrun as (Hp & Hl & Hlim & Hs); [|unfold len; cbn; lia]. cbn [Paths g_Scan Limit FilesScanned snd app] in *.
    assert (Hfiles : scan_files f rel maxDepth = ps)
      by (unfold scan_files; rewrite Hev, <- (app_nil_r (Visit <$> ps)), omap_visited; by rewrite app_nil_r).
    exists ps. rewrite Hfiles, Hlim, Hp, Hev. split_and!; try done.
    + unfold len in *. rewrite sort_strings_length, <- Hp. lia.
    + rewrite Hs. unfold len in *. destruct ps; [cbn; lia|]. assert (c <= maxFiles) by by apply Hcm. lia.
Qed.

(** ** [Grep] *)

(** The lines of a text that contain the query, numbered from [i + 1]. *)
Fixpoint matching_lines (query p : gostring) (i : Z) (lines : list gostring) : list Match :=
  match lines with
  | [] => []
  | l :: lines => (if contains l query then [mkMatch p (i + 1) l] else []) ++ matching_lines query p (i + 1) lines
  end.

(** The matches of one file: none in a file with several links or with NUL bytes. *)
Definition file_matches (f : FS) (query p : gostring) : list Match :=
  match secureOpen (root f) p false with
  | Ok (File (Some content) false) =>
      if contains_byte content NUL then [] else matching_lines query p 0 (split_byte LF content)
  | _ => []
  end.

Lemma limited_id content max : 0 <= max -> in_int max = true -> len content <= max -> limited content max = content.
Proof.
  intros Hm Hi%in_int_spec Hl. unfold limited. destruct (Z.eqb_spec max max_int) as [->|Hne].
  - by rewrite (proj2 (Z.leb_le _ _)).
  - unfold max_int in Hne. rewrite wrap64_id by (apply in_int_spec; lia). by rewrite (proj2 (Z.leb_le _ _)) by lia.
Qed.

Lemma readWalkedFile_Ok f p max data :
  in_int max = true -> readWalkedFile f p max = Ok data ->
  secureOpen (root f) p false = Ok (File (Some data) false) /\ len data <= max.
Proof.
  intros Hi. unfold readWalkedFile. intros [Hm%Z.ltb_ge (n & Ho & Hr)%bind_Ok]%guard_Ok.
  destruct n as [|[content|] links| |]; try done. cbn in Hr. apply guard_Ok in Hr as [-> [Hl%Z.ltb_ge Hr]%guard_Ok].
  rewrite limited_id in Hr by done. apply guard_Ok in Hr as [_ [= ->]]. done.
Qed.

Lemma readWalkedFile_skipped f p max e :
  readWalkedFile f p max = Err e -> e = ErrInvalidFileType \/ e = ErrUnsafeFile ->
  forall query, file_matches f query p = [].
Proof.
  unfold readWalkedFile. rewrite guard_Err, bind_Err. intros Hr He query.
  destruct Hr as [[_ <-]|[_ [Ho|(n & Ho & Hr)]]]; [by destruct He|by unfold file_matches; rewrite Ho|].
  unfold file_matches. rewrite Ho. destruct n as [|[content|] []| |]; try done.
  cbn in Hr. apply guard_Err in Hr as [[_ <-]|[_ Hr]]; [by destruct He|].
  apply guard_Err in Hr as [[_ <-]|[_ Hr]]; [by destruct He|done].
Qed.

Lemma grep_lines_spec query p maxMatches i lines ms o ms' :
  grep_lines query p maxMatches i lines ms = (o, ms') -> len ms <= maxMatches ->
  len ms' <= maxMatches /\
  match o with
  | None => ms' = ms ++ matching_lines query p i lines
  | Some e => e = errScanResultLimit /\ len ms' = maxMatches /\
      exists m rest, ms ++ matching_lines query p i lines = ms' ++ m :: rest
  end.
Proof.
  revert i ms. induction lines as [|l lines IH]; intros i ms; cbn [grep_lines matching_lines].
  - intros [= <- <-]. by rewrite app_nil_r.
  - destruct (contains l query); cbn [negb]; [|apply IH].
    destruct (Z.eqb_spec (len ms) maxMatches) as [Hm|Hm].
    + intros [= <- <-] Hl. split; [done|]. split; [done|]. split; [done|]. by eexists _, _.
    + intros Hg Hl. apply IH in Hg; [|rewrite len_app; unfold len in *; cbn; lia].
      rewrite <- app_assoc in Hg. done.
Qed.

(** What one visit does. *)
Lemma grep_visit_spec f query maxMatches maxBytes r p o r' :
  in_int maxBytes = true -> grep_visit f query maxMatches maxBytes r p = (o, r') ->
  0 <= BytesScanned (Scan r) <= maxBytes -> len (Matches r) <= maxMatches ->
  0 <= BytesScanned (Scan r') <= maxBytes /\ len (Matches r') <= maxMatches /\ Limit (Scan r') = Limit (Scan r) /\
  match o with
  | None => Matches r' = Matches r ++ file_matches f query p
  | Some e => (e = errScanResultLimit -> len (Matches r') = maxMatches /\
                 exists m rest, Matches r ++ file_matches f query p = Matches r' ++ m :: rest) /\
              (e <> errScanResultLimit -> Matches r' = Matches r) /\ e <> errTraversalFileLimit
  end.
Proof.
  intros Hi%in_int_spec. unfold grep_visit. set (remaining := maxBytes - _).
  destruct (Z.leb_spec remaining 0); [intros [= <- <-] ??; split_and!; (done || lia)|].
  destruct (readWalkedFile f p remaining) as [data|e] eqn:Er.
  - intros Hv Hb Hm. assert (in_int remaining = true) as Hri by (apply in_int_spec; unfold remaining; lia).
    apply readWalkedFile_Ok in Er as [Ho Hl]; [|done]. pose proof (len_nonneg data).
    assert (Hf : file_matches f query p = if contains_byte data NUL then [] else matching_lines query p 0 (split_byte LF data))
      by (unfold file_matches; by rewrite Ho).
    rewrite Hf. destruct (contains_byte data NUL).
    + injection Hv as <- <-. cbn. rewrite app_nil_r. unfold remaining in *. split_and!; (done || lia).
    + destruct (grep_lines _ _ _ _ _ _) as [o1 ms] eqn:Eg. injection Hv as <- <-. cbn [Scan Matches BytesScanned Limit] in *.
      apply grep_lines_spec in Eg as [Hl' Eg]; [|done]. unfold remaining in *. split; [lia|]. split; [done|]. split; [done|].
      destruct o1 as [e|]; [|done]. destruct Eg as (-> & ? & ?). split_and!; done.
  - intros Hv Hb Hm. assert (Hskip : forall e0, e = e0 -> e0 = ErrInvalidFileType \/ e0 = ErrUnsafeFile ->
      file_matches f query p = []) by (intros e0 -> He0; by eapply readWalkedFile_skipped).
    assert (Hne : e <> errTraversalFileLimit /\ e <> errScanResultLimit).
    { unfold readWalkedFile in Er. apply guard_Err in Er as [[_ <-]|[_ [Er|(n & _ & Er)]%bind_Err]]; [done| |].
      - unfold secureOpen in Er. apply bind_Err in Er as [Er|(n & _ & Er)].
        + revert Er. generalize (root f). induction (split_byte SLASH p) as [|q qs IH]; intros n; cbn [descend]; [done|].
          case_decide; [apply IH|]. intros [Ec%child_system|(c & _ & Ec)]%bind_Err; [by destruct e|by eapply IH].
        + by destruct n as [[]|[]| |]; simplify_eq.
      - destruct n as [|[content|] links| |]; try (by injection Er as <-). cbn in Er.
        rewrite !guard_Err in Er. naive_solver. }
    destruct e; try (by destruct Hne); injection Hv as <- <-; cbn; split_and!; try done; try lia;
      by erewrite (Hskip _ eq_refl), app_nil_r by auto.
Qed.

Lemma grep_run f query maxMatches maxBytes ps r r' :
  in_int maxBytes = true -> run (grep_visit f query maxMatches maxBytes) ps r = (None, r') ->
  0 <= BytesScanned (Scan r) <= maxBytes -> len (Matches r) <= maxMatches ->
  Matches r' = Matches r ++ flat_map (file_matches f query) ps /\
  0 <= BytesScanned (Scan r') <= maxBytes /\ len (Matches r') <= maxMatches /\ Limit (Scan r') = Limit (Scan r).
Proof.
  intros Hi. revert r. induction ps as [|p ps IH]; intros r; cbn [run flat_map].
  - intros [= <-]. by rewrite app_nil_r.
  - destruct (grep_visit f query maxMatches maxBytes r p) as [[e|] r1] eqn:Ev; [done|].
    intros Hr Hb Hm. apply grep_visit_spec in Ev as (Hb1 & Hm1 & Hl1 & HM); [|done..].
    apply IH in Hr as (-> & ? & ? & ->); [|done..]. rewrite HM, <- app_assoc in *.
    split_and!; (done || lia || congruence).
Qed.

(** What the scan reports when it succeeds: the first matching lines of the files
    below [rel] in the order of the walk, within the limits on matches and bytes;
    all of them when the result is marked complete, and if it stops for the number
    of matches, there is one more. *)
Theorem GrepScan_truthful f rel query maxFiles maxMatches maxBytes maxDepth r :
  in_int maxBytes = true ->
  GrepScanWithDepth f rel query maxFiles maxMatches maxBytes maxDepth = Ok r ->
  let all := flat_map (file_matches f query) (scan_files f rel maxDepth) in
  Matches r `prefix_of` all /\ len (Matches r) <= maxMatches /\ 0 <= BytesScanned (Scan r) <= maxBytes /\
  match Limit (Scan r) with
  | None => Matches r = all /\ len (scan_files f rel maxDepth) <= maxFiles /\
      scan_events f rel maxDepth = Visit <$> scan_files f rel maxDepth
  | Some ScanLimitResults => maxMatches < len all
  | Some ScanLimitFiles => maxFiles < len (scan_files f rel maxDepth)
  | Some ScanLimitDepth | Some ScanLimitBytes => True
  end.
Proof.
  intros Hi. unfold GrepScanWithDepth, safely. destruct (guard_err _ _ _) as [r0|] eqn:E; [|done]. intros [= <-].
  apply guard_Ok in E as [_ [[Hmm%Z.ltb_ge Hmb%Z.ltb_ge]%orb_false_iff E]%guard_Ok].
  rewrite walkFiles_exec in E. destruct (Z.ltb_spec maxFiles 0); [done|]. destruct (maxDepth <? 0); [done|]. cbn [orb] in E.
  destruct (exec _ _ _ _) as [o [c r1]] eqn:Ex. cbn [snd] in E. destruct o as [e|].
  - apply exec_Some in Ex as (ps & rest & v1 & Hev & Hrun & Hlen & Hcase); [|done].
    apply grep_run in Hrun as (Hp & Hb & Hm & Hl); [|done|cbn; lia|unfold len; cbn; lia].
    cbn [Matches Scan Limit BytesScanned app] in *.
    assert (Hfiles : scan_files f rel maxDepth = ps ++ omap visited rest)
      by (unfold scan_files; by rewrite Hev, omap_visited).
    assert (Hall : flat_map (file_matches f query) (scan_files f rel maxDepth) =
      Matches v1 ++ flat_map (file_matches f query) (omap visited rest)) by (by rewrite Hfiles, flat_map_app, Hp).
    cbn zeta. rewrite Hall. clear Hall. rewrite Hfiles.
    destruct Hcase as [(p & rest' & -> & Hv & Hc)|[(p & rest' & -> & -> & -> & Hc)|(rest' & -> & ->)]].
    + apply grep_visit_spec in Hv as (Hb1 & Hm1 & Hl1 & He1 & He2 & He3); [|done..].
      cbn [omap list_omap visited flat_map]. destruct (decide (e = errScanResultLimit)) as [->|Hne].
      * destruct (He1 eq_refl) as (Hlen1 & m & rest & HM). cbn in E. injection E as <-. cbn [Matches Scan with_limit Limit BytesScanned].
        rewrite app_assoc, HM, <- app_assoc. split; [by eexists|]. split; [done|]. split; [done|].
        rewrite len_app. unfold len in *. cbn. lia.
      * specialize (He2 Hne). destruct e; try done; cbn in E; injection E as <-;
          cbn [Matches Scan with_limit Limit BytesScanned]; rewrite He2; (split; [by eexists|]); split_and!; (done || lia).
    + cbn in E. injection E as <-. cbn [Matches Scan with_limit Limit BytesScanned]. split; [by eexists|]. split; [done|].
      split; [done|]. rewrite len_app. unfold len in *. cbn. lia.
    + assert (Hsys : system_error e) by (eapply (scan_events_system f rel maxDepth); rewrite Hev; apply elem_of_app; right; left).
      destruct e; cbn in E, Hsys; try done. injection E as <-. cbn [Matches Scan with_limit Limit BytesScanned].
      split; [by eexists|]. split_and!; (done || lia).
  - injection E as <-. apply exec_None in Ex as (ps & Hev & Hc & Hcm & Hrun).
    apply grep_run in Hrun as (Hp & Hb & Hm & Hl); [|done|cbn; lia|unfold len; cbn; lia].
    cbn [Matches Scan Limit BytesScanned app] in *.
    assert (Hfiles : scan_files f rel maxDepth = ps)
      by (unfold scan_files; rewrite Hev, <- (app_nil_r (Visit <$> ps)), omap_visited; by rewrite app_nil_r).
    cbn zeta. rewrite Hfiles, Hl, Hp. split; [done|]. split; [by rewrite <- Hp|]. split; [done|]. split_and!; try done.
    destruct ps; [unfold len; cbn; lia|]. rewrite Z.add_0_l in Hc. rewrite <- Hc. by apply Hcm.
Qed.

(** ** No scan leaves the workspace or names a denied entry *)

(** Directory entries have proper, distinct names. *)
Inductive tree_ok : node -> Prop :=
  | ok_dir readable entries :
      NoDup (fst <$> entries) ->
      Forall (fun e => proper_component e.1 /\ e.1 <> DOTDOT /\ tree_ok e.2) entries -> tree_ok (Dir readable entries)
  | ok_file content links : tree_ok (File content links)
  | ok_link : tree_ok Symlink
  | ok_special : tree_ok Special.

Lemma entry_Some entries name n :
  entry entries name = Some n -> (name, n) ∈ entries.
Proof.
  unfold entry. intros ([k m] & Hf & [= ->])%fmap_Some. apply find_some in Hf as [Hin Hk].
  apply bool_decide_eq_true in Hk. cbn in Hk. subst. by apply list_elem_of_In.
Qed.

Lemma entry_unique entries name n :
  NoDup (fst <$> entries) -> (name, n) ∈ entries -> entry entries name = Some n.
Proof.
  unfold entry. induction entries as [|[k m] es IH]; cbn; [by intros _ ?%elem_of_nil|].
  intros [Hn Hd]%NoDup_cons [[= -> ->]|Hin]%elem_of_cons; [by rewrite bool_decide_eq_true_2|].
  rewrite bool_decide_eq_false_2; [by apply IH|]. intros ->. apply Hn. apply list_elem_of_fmap. by exists (name, n).
Qed.

Lemma child_path_join cs name :
  Forall proper_component cs -> child_path (join [SLASH] cs) name = join [SLASH] (cs ++ [name]).
Proof.
  intros Hcs. unfold child_path. destruct (decide (cs = [])) as [->|Hne]; [done|].
  rewrite decide_False.
  - clear Hcs. induction cs as [|c cs IH]; [done|]. destruct (decide (cs = [])) as [->|Hn]; [done|].
    cbn [app]. rewrite !join_cons by (done || by destruct cs). rewrite <- !app_assoc. by rewrite <- IH.
  - intros E. apply (f_equal (split_byte SLASH)) in E. rewrite split_join_proper in E by done. subst.
    apply Forall_cons in Hcs as [[? _] _]. done.
Qed.

Definition allowed (f : FS) (name : gostring) : Prop := denied_name (denied f) name = false.

Lemma descend_app n a b : descend n (a ++ b) = m ← descend n a; descend m b.
Proof.
  revert n. induction a as [|p a IH]; intros n; [done|]. cbn [app descend]. case_decide; [apply IH|].
  destruct (child n p); cbn; [apply IH|done].
Qed.

Lemma selected_safe f maxDepth dir current depth inherited p cs :
  selected (denied f) maxDepth dir current depth inherited p ->
  tree_ok dir -> current = join [SLASH] cs -> Forall proper_component cs ->
  exists names content links, p = join [SLASH] (cs ++ names) /\ names <> [] /\ Forall proper_component names /\
    Forall (allowed f) names /\ DOTDOT ∉ names /\ descend dir names = Ok (File content links).
Proof.
  intros Hs. revert cs. induction Hs as [entries current depth inherited active name content links Hr Hin Hd Hi Hle
    |entries current depth inherited active name readable below p Hr Hin Hd Hi Hle Hs IH]; intros cs Ht -> Hcs;
    inversion Ht as [? ? Hnd Hall| | |]; subst; rewrite Forall_forall in Hall;
    destruct (Hall _ Hin) as (Hp & Hdd & Hok); cbn [fst snd] in *;
    apply entry_unique in Hin; try done.
  - exists [name], content, links. rewrite child_path_join by done. split_and!; try done; try by apply Forall_singleton.
    + set_solver.
    + cbn [descend]. rewrite decide_False by apply Hp. cbn [child]. by rewrite Hin.
  - destruct (IH (cs ++ [name]) Hok (child_path_join _ _ Hcs)) as (names & content & links & -> & Hn & Hpn & Ha & Hdn & Hdesc).
    { apply Forall_app. split; [done|]. by constructor. }
    exists (name :: names), content, links. rewrite <- app_assoc. cbn [app]. split_and!; try done; try by constructor.
    + set_solver.
    + cbn [descend]. rewrite decide_False by apply Hp. cbn [child]. by rewrite Hin.
Qed.

Lemma start_at_safe f dir current rules parts dir' current' rules' cs :
  start_at (denied f) dir current rules parts = Ok (Some (dir', current', rules')) ->
  tree_ok dir -> current = join [SLASH] cs -> Forall proper_component cs ->
  exists names, current' = join [SLASH] (cs ++ names) /\ Forall proper_component names /\
    Forall (allowed f) names /\ DOTDOT ∉ names /\ descend dir names = Ok dir' /\ tree_ok dir'.
Proof.
  revert dir current rules cs. induction parts as [|part parts IH]; intros dir current rules cs; cbn [start_at].
  - intros [= <- <- <-] Ht -> Hcs. exists []. rewrite app_nil_r. split_and!; try done. set_solver.
  - destruct (_ || _); [apply IH|]. intros [Hd E]%guard_Ok Ht -> Hcs. destruct dir as [rd entries| | |]; try done.
    apply bind_Ok in E as (rules1 & _ & E). destruct (ignoredByRules _ _ _); [done|].
    apply bind_Ok in E as (n & Hc & E). unfold child in Hc. destruct rd; [|done].
    destruct (entry entries part) as [c|] eqn:He; [injection Hc as ->|done].
    apply entry_Some in He as Hin. inversion Ht as [? ? Hnd Hall| | |]; subst. rewrite Forall_forall in Hall.
    destruct (Hall _ Hin) as (Hp & Hdd & Hok); cbn [fst snd] in *.
    destruct n as [[] below| | |]; try done.
    apply (IH _ _ _ (cs ++ [part])) in E as (names & -> & Hpn & Ha & Hdn & Hdesc & Ht'); [|done| |].
    + exists (part :: names). rewrite <- app_assoc. cbn [app]. split_and!; try done; try by constructor.
      * set_solver.
      * cbn [descend]. rewrite decide_False by apply Hp. cbn [child]. by rewrite He.
    + by apply child_path_join.
    + apply Forall_app. split; [done|]. by constructor.
Qed.

(** Every file a scan visits - hence every path [Glob] returns and every file [Grep]
    reads - is a regular file found by following its path from the root through
    directories only; no component of the path is denied, empty, [.] or [..]. *)
Theorem scan_files_safe f rel maxDepth p :
  tree_ok (root f) -> p ∈ scan_files f rel maxDepth ->
  (exists content links, descend (root f) (split_byte SLASH p) = Ok (File content links)) /\
  Forall (fun name => denied_name (denied f) name = false /\ proper_component name /\ name <> DOTDOT) (split_byte SLASH p).
Proof.
  intros Ht Hin. assert (Hev : Visit p ∈ scan_events f rel maxDepth).
  { unfold scan_files in Hin. apply list_elem_of_omap in Hin as (ev & Hev & E). destruct ev; [|done].
    cbn in E. by injection E as ->. }
  clear Hin. unfold scan_events in Hev. destruct (resolve _ _ _) as [nr|];
    [|apply list_elem_of_singleton in Hev; done]. destruct (deniedPath _ _); [apply list_elem_of_singleton in Hev; done|].
  destruct (NormalizePath nr) as [rel'|]; [|apply list_elem_of_singleton in Hev; done].
  destruct (root f) as [[] entries| | |] eqn:Er; try (apply list_elem_of_singleton in Hev; done). rewrite <- Er in *.
  destruct (start_at _ _ _ _ _) as [[[[dir current] rules]|]|] eqn:Es;
    [|by apply elem_of_nil in Hev|apply list_elem_of_singleton in Hev; done].
  apply events_selected in Hev.
  apply (start_at_safe _ _ _ _ _ _ _ _ []) in Es as (n0 & -> & Hp0 & Ha0 & Hd0 & Hdesc0 & Ht0); [|done..|by constructor].
  cbn [app] in *. apply (selected_safe _ _ _ _ _ _ _ n0) in Hev as (n1 & content & links & -> & Hn1 & Hp1 & Ha1 & Hd1 & Hdesc1); [|done..].
  rewrite split_join_proper; [|by destruct n0; [|done]|by apply Forall_app].
  split; [exists content, links; by rewrite descend_app, Hdesc0|].
  rewrite Forall_forall in *. intros x Hx. assert (DOTDOT ∉ n0 ++ n1) by set_solver.
  apply elem_of_app in Hx as [Hx|Hx]; split_and!; try (by apply Ha0); try (by apply Ha1); try (by apply Hp0);
    try (by apply Hp1); set_solver.
Qed.

End scans.

(** *** Witnesses *)

Definition sample_glob := @GlobScanWithDepth ascii_tables (@sample_fs ascii_tables) [] "*/*" 10 2 8.
Definition sample_grep := @GrepScanWithDepth ascii_tables (@sample_fs ascii_tables) [] "hello" 10 5 1000 8.

Lemma GlobScan_truthful_witness :
  exists r, sample_glob = Ok r /\ Limit (g_Scan r) = Some ScanLimitResults /\ len (Paths r) <= 2.
Proof.
  eexists. split; [vm_compute; reflexivity|]. split; [reflexivity|].
  destruct (@GlobScan_truthful ascii_tables (@sample_fs ascii_tables) [] "*/*" 10 2 8 _ ltac:(vm_compute; reflexivity))
    as (pat & nrel & ps & _ & _ & _ & _ & Hl & _). exact Hl.
Defined.

Lemma GrepScan_truthful_witness :
  exists r, sample_grep = Ok r /\ Matches r = [mkMatch "src/main.go" 2 "// hello"] /\
    0 <= BytesScanned (Scan r) <= 1000.
Proof.
  eexists. split; [vm_compute; reflexivity|]. split; [reflexivity|].
  pose proof (@GrepScan_truthful ascii_tables (@sample_fs ascii_tables) [] "hello" 10 5 1000 8 _
    eq_refl ltac:(vm_compute; reflexivity)) as (_ & _ & Hb & _). exact Hb.
Defined.

Lemma sample_tree_ok : tree_ok sample_tree.
Proof.
  unfold sample_tree. repeat first [apply ok_file | apply ok_link | apply ok_special | apply ok_dir | apply Forall_nil |
    apply Forall_cons | split]; cbn [fst snd fmap list_fmap]; try (by apply (bool_decide_unpack _); vm_compute).
Qed.

Lemma scan_files_safe_witness :
  Forall (fun name => @denied_name ascii_tables (denied (@sample_fs ascii_tables)) name = false /\
                      proper_component name /\ name <> DOTDOT) ["src"; "main.go"].
Proof.
  exact (proj2 (@scan_files_safe ascii_tables (@sample_fs ascii_tables) [] 8 "src/main.go" sample_tree_ok
    ltac:(apply (bool_decide_unpack _); vm_compute; exact I))).
Defined.
