(* ===== verification/AtomicWrite.v ===== *)
(** * The atomic replacement of a file ([internal/workspace/secure_linux.go], [secureAtomicWrite])

    The code runs against other processes: before each system call they may change
    the file system ([env]), and a call may fail ([fails]). Both depend on the
    number of the call. *)
From S2P Require Import Prelude GoStrings Token Workspace.
#[local] Open Scope Z_scope.

(** ** A directory and the inodes it refers to *)

Inductive kind := Regular | Directory | Link | Other.

#[export] Instance kind_eq_dec : EqDecision kind.
Proof. solve_decision. Defined.

(** [i_stamp] stands for the modification and status-change times. *)
Record inode := mkInode { i_kind : kind; i_nlink : Z; i_mode : Z; i_stamp : Z; i_data : gostring }.

(** [Fstat]: device and inode number, mode, links, size and times. *)
Record stat := mkStat { st_ino : Z; st_kind : kind; st_mode : Z; st_nlink : Z; st_size : Z; st_stamp : Z }.

#[export] Instance stat_eq_dec : EqDecision stat.
Proof. solve_decision. Defined.

(** [names] is the parent directory; [fresh] is the next inode number. *)
Record world := mkWorld { names : gmap gostring Z; inodes : gmap Z inode; fresh : Z }.

Definition stat_of (ino : Z) (i : inode) : stat :=
  mkStat ino (i_kind i) (i_mode i) (i_nlink i) (len (i_data i)) (i_stamp i).

Definition fstat (w : world) (ino : Z) : option stat := stat_of ino <$> inodes w !! ino.
Definition fstatat (w : world) (name : gostring) : option stat := names w !! name ≫= fstat w.

Definition sameLinuxTargetIdentity (left right : stat) : bool := st_ino left =? st_ino right.

Definition sameLinuxTargetState (left right : stat) : bool :=
  sameLinuxTargetIdentity left right &&
  bool_decide (st_kind left = st_kind right) && (st_mode left =? st_mode right) &&
  (st_nlink left =? st_nlink right) && (st_size left =? st_size right) && (st_stamp left =? st_stamp right).

Definition set_data (w : world) (ino : Z) (f : gostring -> gostring) : world :=
  mkWorld (names w)
    (alter (fun i => mkInode (i_kind i) (i_nlink i) (i_mode i) (i_stamp i) (f (i_data i))) ino (inodes w)) (fresh w).

Definition set_names (w : world) (n : gmap gostring Z) : world := mkWorld n (inodes w) (fresh w).

Section atomic.
Context `{Crypto} (env : nat -> world -> world) (fails : nat -> bool).

Definition secureAtomicWriteChunkSize : nat := Z.to_nat (Z.shiftl 64 10).
#[local] Opaque secureAtomicWriteChunkSize.

(** [writeAtomicTemp]: the data in chunks, call [k] for the first. A failing call
    writes nothing. *)
Fixpoint write_chunks (fuel k : nat) (ino : Z) (data : gostring) (w : world) : result ws_error nat * world :=
  match data, fuel with
  | [], _ => (Ok k, w)
  | _, O => (Err ErrIO, w)
  | _, S fuel =>
      let w := env k w in
      if fails k then (Err ErrIO, w)
      else write_chunks fuel (S k) ino (drop secureAtomicWriteChunkSize data)
             (set_data w ino (fun d => d ++ take secureAtomicWriteChunkSize data))
  end.

Definition unlink (name : gostring) (w : world) : world := set_names w (delete name (names w)).

(** The deferred cleanup: the temporary name is removed. *)
Definition cleaned {A} (tmp : gostring) (r : result ws_error A * world) : result ws_error A * world :=
  match r with (Ok a, w) => (Ok a, w) | (Err e, w) => (Err e, unlink tmp w) end.

(** The target opened through the parent: its inode and state, or none. *)
Definition open_target (base expected : gostring) (w : world) : result ws_error (option stat) :=
  match fstatat w base with
  | Some st =>
      match st_kind st with
      | Link => Err ErrIO
      | Regular =>
          reject 1 <? st_nlink st with ErrUnsafeFile;
          reject bool_decide (expected = []) with ErrConflict;
          Ok (Some st)
      | _ => Err ErrInvalidFileType
      end
  | None => reject negb (bool_decide (expected = [])) with ErrConflict; Ok None
  end.

(** The last checks and the rename when a target was opened. Calls [k] to [k + 4]. *)
Definition replace_target (k : nat) (base tmp expected : gostring) (original : stat) (w : world)
  : result ws_error unit * world :=
  let w1 := env k w in
  match fstat w1 (st_ino original) with
  | None => (Err ErrConflict, w1)
  | Some before =>
      if fails k || negb (sameLinuxTargetIdentity original before) || negb (bool_decide (st_kind before = Regular)) ||
         (1 <? st_nlink before) then (Err ErrConflict, w1)
      else
        let w2 := env (1 + k) w1 in
        if fails (1 + k) then (Err ErrIO, w2)
        else if negb (bool_decide (Some expected = hex_encode ∘ sha256 ∘ i_data <$> inodes w2 !! st_ino original))
        then (Err ErrConflict, w2)
        else
          let w3 := env (2 + k) w2 in
          match fstat w3 (st_ino original) with
          | None => (Err ErrConflict, w3)
          | Some after =>
              if fails (2 + k) || negb (sameLinuxTargetState original before) || negb (sameLinuxTargetState before after)
              then (Err ErrConflict, w3)
              else
                let w4 := env (3 + k) w3 in
                match fstatat w4 base with
                | None => (Err ErrConflict, w4)
                | Some current =>
                    if fails (3 + k) || negb (sameLinuxTargetState after current) then (Err ErrConflict, w4)
                    else
                      let w5 := env (4 + k) w4 in
                      match names w5 !! tmp with
                      | None => (Err ErrNotFound, w5)
                      | Some ino => if fails (4 + k) then (Err ErrIO, w5)
                                    else (Ok tt, set_names w5 (<[base := ino]> (delete tmp (names w5))))
                      end
                end
          end
  end.

(** The same when there was none: [Renameat2] does not replace. Calls [k], [k + 1]. *)
Definition create_target (k : nat) (base tmp : gostring) (w : world) : result ws_error unit * world :=
  let w1 := env k w in
  match fstatat w1 base with
  | Some _ => (Err ErrConflict, w1)
  | None =>
      if fails k then (Err ErrIO, w1)
      else
        let w2 := env (1 + k) w1 in
        match names w2 !! tmp, names w2 !! base with
        | None, _ => (Err ErrNotFound, w2)
        | _, Some _ => (Err ErrConflict, w2)
        | Some ino, None => if fails (1 + k) then (Err ErrIO, w2)
                            else (Ok tt, set_names w2 (<[base := ino]> (delete tmp (names w2))))
        end
  end.

(** Call 0 opens the target, 1 creates the temporary file, then come the writes,
    [Sync] and [Close]; the result is the target and the number of the next call. *)
Definition prepare (base tmp data : gostring) (mode : Z) (expected : gostring) (w : world)
  : result ws_error (option stat * nat) * world :=
  let w := env 0 w in
  if fails 0 then (Err ErrIO, w)
  else
    match open_target base expected w with
    | Err e => (Err e, w)
    | Ok target =>
        let w := env 1 w in
        if fails 1 then (Err ErrIO, w)
        else
          match names w !! tmp with
          | Some _ => (Err ErrConflict, w)
          | None =>
              let ino := fresh w in
              let w := mkWorld (<[tmp := ino]> (names w)) (<[ino := mkInode Regular 1 mode 0 []]> (inodes w)) (ino + 1) in
              match cleaned tmp (write_chunks (length data) 2 ino data w) with
              | (Err e, w) => (Err e, w)
              | (Ok k, w) =>
                  let w := env (1 + k) (env k w) in
                  if fails k || fails (1 + k) then (Err ErrIO, unlink tmp w) else (Ok (target, 2 + k)%nat, w)
              end
          end
    end.
(** Then the checks, the rename, and [Fsync] of the directory. *)
Definition secureAtomicWrite (base tmp data : gostring) (mode : Z) (expected : gostring) (w : world)
  : result ws_error unit * world :=
  match prepare base tmp data mode expected w with
  | (Err e, w) => (Err e, w)
  | (Ok (target, k), w) =>
      let r := match target with
               | Some original => replace_target k base tmp expected original w
               | None => create_target k base tmp w
               end in
      match cleaned tmp r with
      | (Err e, w) => (Err e, w)
      | (Ok _, w) => if fails (5 + k) then (Err ErrIO, w) else (Ok tt, w)
      end
  end.

(** ** Writing the temporary file *)

Lemma chunk_pos : (0 < secureAtomicWriteChunkSize)%nat.
Proof. with_strategy transparent [secureAtomicWriteChunkSize] unfold secureAtomicWriteChunkSize. change (Z.shiftl 64 10) with 65536. lia. Qed.

Lemma set_data_same w ino f i :
  inodes w !! ino = Some i ->
  inodes (set_data w ino f) !! ino = Some (mkInode (i_kind i) (i_nlink i) (i_mode i) (i_stamp i) (f (i_data i))).
Proof. intros E. cbn. by rewrite lookup_alter_eq, E. Qed.

(** Nobody else touches the temporary name or the file it refers to: the name holds
    96 random bits. *)
Definition private (tmp : gostring) : Prop :=
  forall k w ino, names w !! tmp = Some ino ->
    names (env k w) !! tmp = Some ino /\ inodes (env k w) !! ino = inodes w !! ino.

Definition holds (w : world) (tmp : gostring) (ino mode : Z) (data : gostring) : Prop :=
  names w !! tmp = Some ino /\ inodes w !! ino = Some (mkInode Regular 1 mode 0 data).

Lemma private_holds tmp k w ino mode data :
  private tmp -> holds w tmp ino mode data -> holds (env k w) tmp ino mode data.
Proof. intros Hp [Hn Hi]. destruct (Hp k w ino Hn) as [Hn' Hi']. split; [done|]. by rewrite Hi'. Qed.

Lemma write_chunks_holds tmp fuel k ino mode data written w k' w' :
  private tmp -> holds w tmp ino mode written ->
  write_chunks fuel k ino data w = (Ok k', w') -> holds w' tmp ino mode (written ++ data).
Proof.
  intros Hp. revert k data written w. induction fuel as [|fuel IH]; intros k data written w Hh; destruct data as [|c data];
    cbn [write_chunks]; try (intros [= <- <-]; by rewrite app_nil_r).
  destruct (fails k); [done|]. intros Hw. apply (private_holds _ k) in Hh as [Hn Hi]; [|done].
  apply (IH _ _ (written ++ take secureAtomicWriteChunkSize (c :: data))) in Hw.
  - by rewrite <- app_assoc, take_drop in Hw.
  - split; [done|]. by erewrite set_data_same by exact Hi.
Qed.

(** ** Under interference *)

(** Between the hash and the rename, in the world [wr]: the inode had the expected
    content, then still the state it was opened in, then the name still referred to
    it in that state, with one last interference before the rename. *)
Definition checked (base expected : gostring) (original : stat) (wr : world) : Prop :=
  exists k hashed i,
    inodes hashed !! st_ino original = Some i /\ hex_encode (sha256 (i_data i)) = expected /\
    fstat (env (2 + k) hashed) (st_ino original) = Some original /\
    fstatat (env (3 + k) (env (2 + k) hashed)) base = Some original /\
    wr = env (4 + k) (env (3 + k) (env (2 + k) hashed)).

Lemma sameState_eq a b : sameLinuxTargetState a b = true -> a = b.
Proof.
  unfold sameLinuxTargetState, sameLinuxTargetIdentity. rewrite !andb_true_iff, bool_decide_eq_true, !Z.eqb_eq.
  destruct a, b; cbn. naive_solver.
Qed.

Lemma sameState_refl a : sameLinuxTargetState a a = true.
Proof. unfold sameLinuxTargetState, sameLinuxTargetIdentity. by rewrite !Z.eqb_refl, bool_decide_eq_true_2. Qed.

(** The rename: the name [base] refers to what [tmp] referred to. *)
Definition renamed (base tmp : gostring) (wr : world) (ino : Z) : world :=
  set_names wr (<[base := ino]> (delete tmp (names wr))).

Lemma replace_target_Ok k base tmp expected original w w' ino mode data :
  private tmp -> holds w tmp ino mode data ->
  replace_target k base tmp expected original w = (Ok tt, w') ->
  exists wr, holds wr tmp ino mode data /\ w' = renamed base tmp wr ino /\ checked base expected original wr.
Proof.
  intros Hp Hh. unfold replace_target.
  destruct (fstat (env k w) (st_ino original)) as [before|] eqn:Eb; [|done].
  destruct (_ || _ || _ || _); [done|]. destruct (fails (1 + k)); [done|].
  destruct (negb (bool_decide _)) eqn:Eh; [done|]. apply negb_false_iff, bool_decide_eq_true in Eh.
  destruct (fstat (env (2 + k) _) (st_ino original)) as [aft|] eqn:Ea; [|done].
  destruct (_ || _ || _) eqn:Es; [done|]. apply orb_false_iff in Es as [[_ Es1]%orb_false_iff Es2].
  apply negb_false_iff, sameState_eq in Es1 as <-. apply negb_false_iff, sameState_eq in Es2 as <-.
  destruct (fstatat (env (3 + k) _) base) as [current|] eqn:Ec; [|done].
  destruct (_ || _) eqn:Es; [done|]. apply orb_false_iff in Es as [_ Es3%negb_false_iff%sameState_eq]. subst current.
  pose proof (private_holds tmp (4 + k) _ _ _ _ Hp (private_holds tmp (3 + k) _ _ _ _ Hp (private_holds tmp (2 + k) _ _ _ _ Hp
    (private_holds tmp (1 + k) _ _ _ _ Hp (private_holds tmp k _ _ _ _ Hp Hh))))) as Hr.
  rewrite (proj1 Hr). destruct (fails (4 + k)); [done|]. intros [= <-].
  eexists. split; [exact Hr|]. split; [done|].
  symmetry in Eh. apply fmap_Some in Eh as (i & Hi & ->). eexists k, _, i. split; [exact Hi|]. by split_and!.
Qed.

Lemma create_target_Ok k base tmp w w' ino mode data :
  private tmp -> holds w tmp ino mode data -> create_target k base tmp w = (Ok tt, w') ->
  exists wr, holds wr tmp ino mode data /\ w' = renamed base tmp wr ino /\ names wr !! base = None.
Proof.
  intros Hp Hh. unfold create_target. destruct (fstatat _ base); [done|]. destruct (fails k); [done|].
  pose proof (private_holds tmp (1 + k) _ _ _ _ Hp (private_holds tmp k _ _ _ _ Hp Hh)) as Hr.
  rewrite (proj1 Hr). destruct (names _ !! base) eqn:Eb; [done|]. destruct (fails (1 + k)); [done|].
  intros [= <-]. eexists. split; [exact Hr|]. done.
Qed.

Lemma cleaned_Ok {A} tmp (r : result ws_error A * world) a w : cleaned tmp r = (Ok a, w) <-> r = (Ok a, w).
Proof. destruct r as [[]]; cbn; naive_solver. Qed.

Lemma open_target_Some base expected w st :
  open_target base expected w = Ok (Some st) ->
  expected <> [] /\ fstatat w base = Some st /\ st_kind st = Regular /\ st_nlink st <= 1.
Proof.
  unfold open_target. destruct (fstatat w base) as [st0|]; [|by intros [_ ?]%guard_Ok].
  destruct (st_kind st0) eqn:Ek; try done.
  intros [Hn%Z.ltb_ge [He%bool_decide_eq_false [= ->]]%guard_Ok]%guard_Ok. done.
Qed.

Lemma open_target_None base expected w : open_target base expected w = Ok None -> expected = [].
Proof.
  unfold open_target. destruct (fstatat w base) as [st0|].
  - destruct (st_kind st0); try done. by intros [_ [_ ?]%guard_Ok]%guard_Ok.
  - by intros [He%negb_false_iff%bool_decide_eq_true _]%guard_Ok.
Qed.

Lemma holds_created w tmp mode :
  holds (mkWorld (<[tmp := fresh w]> (names w)) (<[fresh w := mkInode Regular 1 mode 0 []]> (inodes w)) (fresh w + 1))
    tmp (fresh w) mode [].
Proof. split; cbn; by rewrite lookup_insert_eq. Qed.

Lemma prepare_Ok base tmp data mode expected w target k w1 :
  private tmp -> prepare base tmp data mode expected w = (Ok (target, k), w1) ->
  open_target base expected (env 0 w) = Ok target /\ exists ino, holds w1 tmp ino mode data.
Proof.
  intros Hp. unfold prepare. destruct (fails 0); [done|]. destruct (open_target _ _ _) as [t|] eqn:Eo; [|done].
  destruct (fails 1); [done|]. destruct (names (env 1 (env 0 w)) !! tmp); [done|].
  destruct (cleaned tmp _) as [[k1|] w2] eqn:Ew; [|done]. apply cleaned_Ok in Ew.
  apply (write_chunks_holds tmp _ _ _ mode _ []) in Ew; [|done|apply holds_created].
  destruct (_ || _); [done|]. intros [= <- <- <-]. split; [done|].
  exists (fresh (env 1 (env 0 w))). apply private_holds; [done|]. by apply private_holds.
Qed.

(** Whatever other processes do between the calls, as long as they leave the
    random temporary name alone, a write that succeeds ends with the rename of a
    regular file with exactly the data and mode. It replaces a file only when that
    had the expected hash and was checked, right before the rename, to be under its
    name in the state it was opened in; without an expected hash nothing is replaced. *)
Theorem secureAtomicWrite_interference base tmp data mode expected w w' :
  private tmp -> base <> tmp ->
  secureAtomicWrite base tmp data mode expected w = (Ok tt, w') ->
  exists wr ino, w' = renamed base tmp wr ino /\ holds wr tmp ino mode data /\
    holds w' base ino mode data /\ names w' !! tmp = None /\
    (if decide (expected = []) then names wr !! base = None
     else exists original, fstatat (env 0 w) base = Some original /\ st_kind original = Regular /\
       st_nlink original <= 1 /\ checked base expected original wr).
Proof.
  intros Hp Hne. unfold secureAtomicWrite. destruct (prepare _ _ _ _ _ _) as [[[target k]|] w1] eqn:Epr; [|done].
  apply prepare_Ok in Epr as (Ho & ino & Hh); [|done].
  destruct (cleaned tmp _) as [[[]|] w2] eqn:Ec; [|done]. apply cleaned_Ok in Ec.
  destruct (fails (5 + k)); [done|]. intros [= <-].
  assert (Hdone : forall wr, holds wr tmp ino mode data -> holds (renamed base tmp wr ino) base ino mode data /\
    names (renamed base tmp wr ino) !! tmp = None).
  { intros wr [Hn Hi]. unfold renamed, holds. cbn. rewrite lookup_insert_eq. split; [done|].
    by rewrite lookup_insert_ne, lookup_delete_eq. }
  destruct target as [original|].
  - apply open_target_Some in Ho as (He & ? & ? & ?).
    apply (replace_target_Ok _ _ _ _ _ _ _ _ _ _ Hp Hh) in Ec as (wr & Hr & -> & Hck).
    exists wr, ino. destruct (Hdone wr Hr). rewrite decide_False by done. eauto 10.
  - apply open_target_None in Ho as ->.
    apply (create_target_Ok _ _ _ _ _ _ _ _ Hp Hh) in Ec as (wr & Hr & -> & Hb).
    exists wr, ino. destruct (Hdone wr Hr). rewrite decide_True by done. auto 10.
Qed.

End atomic.

(** ** Without interference: all or nothing *)
Section alone.
Context `{Crypto} (fails : nat -> bool).

Definition quiet : nat -> world -> world := fun _ w => w.

(** The world with the temporary file, holding [d] so far, and the final one. *)
Definition filled (w : world) (tmp : gostring) (mode : Z) (d : gostring) : world :=
  mkWorld (<[tmp := fresh w]> (names w)) (<[fresh w := mkInode Regular 1 mode 0 d]> (inodes w)) (fresh w + 1).
Definition written (w : world) (base : gostring) (mode : Z) (data : gostring) : world :=
  mkWorld (<[base := fresh w]> (names w)) (<[fresh w := mkInode Regular 1 mode 0 data]> (inodes w)) (fresh w + 1).

(** Numbers of existing inodes are used up, and names refer to inodes. *)
Record world_ok (w : world) (base tmp : gostring) : Prop := {
  wo_fresh : inodes w !! fresh w = None;
  wo_names name ino : names w !! name = Some ino -> is_Some (inodes w !! ino);
  wo_tmp : names w !! tmp = None;
  wo_ne : base <> tmp
}.

Lemma set_data_filled w tmp mode d f : set_data (filled w tmp mode d) (fresh w) f = filled w tmp mode (f d).
Proof. unfold set_data, filled. cbn. f_equal. apply map_eq. intros i. destruct (decide (i = fresh w)) as [->|Hne].
  - by rewrite lookup_alter_eq, !lookup_insert_eq.
  - by rewrite lookup_alter_ne, !lookup_insert_ne by done.
Qed.

Lemma write_chunks_quiet fuel k w tmp mode data d r w' :
  write_chunks quiet fails fuel k (fresh w) data (filled w tmp mode d) = (r, w') ->
  (exists d', w' = filled w tmp mode d' /\ (is_ok r = true -> d' = d ++ data)) /\
  ((forall n, fails n = false) -> (length data <= fuel)%nat -> is_ok r = true).
Proof.
  revert k data d. induction fuel as [|fuel IH]; intros k data d; destruct data as [|c data]; cbn [write_chunks].
  - intros [= <- <-]. split; [exists d; by rewrite app_nil_r|done].
  - intros [= <- <-]. split; [by exists d|cbn [length]; lia].
  - intros [= <- <-]. split; [exists d; by rewrite app_nil_r|done].
  - change (quiet k ?x) with x. destruct (fails k) eqn:Ef.
    + intros [= <- <-]. split; [by exists d|]. intros Hf. by rewrite Hf in Ef.
    + rewrite set_data_filled. intros [(d' & -> & Hd) Ht]%IH. split.
      * exists d'. split; [done|]. intros Hr. by rewrite (Hd Hr), <- app_assoc, take_drop.
      * intros Hf Hl. apply Ht; [done|]. rewrite length_drop. pose proof chunk_pos. cbn [length] in *. lia.
Qed.

Lemma unlink_filled w base tmp mode d : world_ok w base tmp -> names (unlink tmp (filled w tmp mode d)) = names w.
Proof. intros []. cbn. by rewrite delete_insert_id. Qed.

Lemma fstat_filled w base tmp mode d ino : world_ok w base tmp -> is_Some (inodes w !! ino) ->
  fstat (filled w tmp mode d) ino = fstat w ino.
Proof.
  intros [] [i Hi]. unfold fstat. cbn. rewrite lookup_insert_ne; [done|]. congruence.
Qed.

Lemma fstatat_filled w base tmp mode d : world_ok w base tmp -> fstatat (filled w tmp mode d) base = fstatat w base.
Proof.
  intros Hok. unfold fstatat. cbn. rewrite lookup_insert_ne by (apply not_eq_sym, Hok).
  destruct (names w !! base) as [ino|] eqn:E; [|done]. cbn. eapply fstat_filled; [done|by eapply wo_names].
Qed.

Lemma renamed_filled w base tmp mode d : world_ok w base tmp ->
  renamed base tmp (filled w tmp mode d) (fresh w) = written w base mode d.
Proof. intros []. unfold renamed, set_names, written. cbn. by rewrite delete_insert_id. Qed.

(** The condition for a write: nothing there and no expected hash, or a regular
    file with one link and the expected content. *)
Definition writable (w : world) (base expected : gostring) : Prop :=
  match names w !! base ≫= fun ino => inodes w !! ino with
  | None => expected = []
  | Some i => i_kind i = Regular /\ i_nlink i <= 1 /\ expected <> [] /\ hex_encode (sha256 (i_data i)) = expected
  end.

Lemma replace_target_quiet w base tmp mode d k expected ino i r w' :
  world_ok w base tmp -> names w !! base = Some ino -> inodes w !! ino = Some i ->
  i_kind i = Regular -> i_nlink i <= 1 ->
  replace_target quiet fails k base tmp expected (stat_of ino i) (filled w tmp mode d) = (r, w') ->
  (is_ok r = true -> w' = written w base mode d /\ hex_encode (sha256 (i_data i)) = expected) /\
  (is_ok r = false -> w' = filled w tmp mode d) /\
  ((forall n, fails n = false) -> hex_encode (sha256 (i_data i)) = expected -> is_ok r = true).
Proof.
  intros Hok Hn Hi Hk Hl. unfold replace_target. repeat change (quiet ?n ?x) with x. cbn [st_ino stat_of].
  rewrite (fstat_filled w base) by eauto. rewrite (fstatat_filled w base) by done.
  assert (Hst : fstat w ino = Some (stat_of ino i)) by (unfold fstat; by rewrite Hi).
  assert (Hat : fstatat w base = Some (stat_of ino i)) by (unfold fstatat; rewrite Hn; exact Hst).
  rewrite Hst, Hat, sameState_refl. cbn [st_kind st_nlink stat_of]. rewrite Hk, bool_decide_eq_true_2 by done.
  rewrite (proj2 (Z.ltb_ge _ _)) by lia. unfold sameLinuxTargetIdentity. rewrite Z.eqb_refl. cbn [negb]. rewrite !orb_false_r.
  assert (Hino : inodes (filled w tmp mode d) !! ino = Some i)
    by (cbn; rewrite lookup_insert_ne; [done|]; intros E; rewrite <- E, (wo_fresh _ _ _ Hok) in Hi; done).
  rewrite Hino. cbn [fmap option_fmap option_map]. unfold compose.
  assert (Htmp : names (filled w tmp mode d) !! tmp = Some (fresh w)) by (cbn; apply lookup_insert_eq).
  rewrite Htmp. fold (renamed base tmp (filled w tmp mode d) (fresh w)). rewrite (renamed_filled w base) by done.
  assert (Hstop : forall e (w0 : world), (Err e, w0) = (r, w') -> w0 = filled w tmp mode d -> ~ (forall n, fails n = false) ->
    (is_ok r = true -> w' = written w base mode d /\ hex_encode (sha256 (i_data i)) = expected) /\
    (is_ok r = false -> w' = filled w tmp mode d) /\
    ((forall n, fails n = false) -> hex_encode (sha256 (i_data i)) = expected -> is_ok r = true))
    by (intros e w0 [= <- <-] -> Hf; split_and!; done).
  assert (Hfail : forall n, fails n = true -> ~ (forall n, fails n = false)) by (intros n En Hf; by rewrite Hf in En).
  destruct (fails k) eqn:E0; [intros E; eapply Hstop; eauto|].
  destruct (fails (1 + k)) eqn:E1; [intros E; eapply Hstop; eauto|].
  case_bool_decide as Hh; cbn [negb]; [|intros [= <- <-]; split_and!; [done|done|intros _ <-; by destruct Hh]].
  destruct (fails (2 + k)) eqn:E2; [intros E; eapply Hstop; eauto|].
  destruct (fails (3 + k)) eqn:E3; [intros E; eapply Hstop; eauto|].
  destruct (fails (4 + k)) eqn:E4; [intros E; eapply Hstop; eauto|].
  intros [= <- <-]. split_and!; try done. intros _. split; [done|]. by injection Hh.
Qed.

Lemma create_target_quiet w base tmp mode d k r w' :
  world_ok w base tmp -> fstatat w base = None ->
  create_target quiet fails k base tmp (filled w tmp mode d) = (r, w') ->
  (is_ok r = true -> w' = written w base mode d) /\ (is_ok r = false -> w' = filled w tmp mode d) /\
  ((forall n, fails n = false) -> is_ok r = true).
Proof.
  intros Hok Hb. unfold create_target. repeat change (quiet ?n ?x) with x.
  rewrite (fstatat_filled w base), Hb by done.
  assert (Htmp : names (filled w tmp mode d) !! tmp = Some (fresh w)) by (cbn; apply lookup_insert_eq).
  assert (Hbase : names (filled w tmp mode d) !! base = None).
  { cbn. rewrite lookup_insert_ne by (apply not_eq_sym, Hok). destruct (names w !! base) as [ino|] eqn:E; [|done].
    destruct (wo_names _ _ _ Hok _ _ E) as [i Hi]. unfold fstatat in Hb. rewrite E in Hb. cbn in Hb.
    unfold fstat in Hb. by rewrite Hi in Hb. }
  rewrite Htmp, Hbase. fold (renamed base tmp (filled w tmp mode d) (fresh w)). rewrite (renamed_filled w base) by done.
  destruct (fails k) eqn:E0; [intros [= <- <-]; split_and!; try done; intros Hf; by rewrite Hf in E0|].
  destruct (fails (1 + k)) eqn:E1; [intros [= <- <-]; split_and!; try done; intros Hf; by rewrite Hf in E1|].
  intros [= <- <-]. by split_and!.
Qed.

(** What a write may end with: success, with exactly one name changed; failure with
    all names and files as they were, or - when only the last call failed - after
    the change; failure only if some call failed or the target was not as expected. *)
Record atomic_outcome (w : world) (base : gostring) (mode : Z) (data expected : gostring)
    (r : result ws_error unit) (w' : world) : Prop := {
  ao_ok : is_ok r = true -> w' = written w base mode data /\ writable w base expected;
  ao_err : is_ok r = false ->
    (names w' = names w /\ (forall ino i, inodes w !! ino = Some i -> inodes w' !! ino = Some i)) \/
    (w' = written w base mode data /\ writable w base expected);
  ao_total : (forall n, fails n = false) -> writable w base expected -> is_ok r = true
}.

(** Some call failed, or the target is not as expected. *)
Definition excused (w : world) (base expected : gostring) : Prop :=
  ~ ((forall n, fails n = false) /\ writable w base expected).

Lemma fails_excused n w base expected : fails n = true -> excused w base expected.
Proof. intros E [Hf _]. by rewrite Hf in E. Qed.

Lemma outcome_same w base mode data expected e : excused w base expected ->
  atomic_outcome w base mode data expected (Err e) w.
Proof. intros Hx. split; [done|by left|]. intros Hf Hw. by destruct Hx. Qed.

Lemma outcome_cleaned w base tmp mode data expected e d : world_ok w base tmp -> excused w base expected ->
  atomic_outcome w base mode data expected (Err e) (unlink tmp (filled w tmp mode d)).
Proof.
  intros Hok Hx. split; [done| |intros Hf Hw; by destruct Hx]. intros _. left.
  rewrite (unlink_filled w base) by done. split; [done|]. intros ino i Hi. cbn. rewrite lookup_insert_ne; [done|].
  intros E. by rewrite <- E, (wo_fresh _ _ _ Hok) in Hi.
Qed.

Lemma open_target_excused w base expected e : open_target base expected w = Err e -> excused w base expected.
Proof.
  intros Ho [_ Hw]. revert Ho Hw. unfold open_target, writable, fstatat, fstat.
  destruct (names w !! base) as [ino|]; cbn; [destruct (inodes w !! ino) as [i|]; cbn|].
  - intros Ho (Hk & Hl & He & _). by rewrite Hk, (proj2 (Z.ltb_ge _ _)), bool_decide_eq_false_2 in Ho by (done || lia).
  - by intros Ho ->.
  - by intros Ho ->.
Qed.

(** The end of the write, given what the checks and the rename did. *)
Lemma outcome_commit w base tmp mode data expected k (rc : result ws_error unit) wc r w' :
  world_ok w base tmp ->
  (is_ok rc = true -> wc = written w base mode data /\ writable w base expected) ->
  (is_ok rc = false -> wc = filled w tmp mode data) ->
  ((forall n, fails n = false) -> writable w base expected -> is_ok rc = true) ->
  match cleaned tmp (rc, wc) with
  | (Err e, w) => (Err e, w)
  | (Ok _, w) => if fails k then (Err ErrIO, w) else (Ok tt, w)
  end = (r, w') ->
  atomic_outcome w base mode data expected r w'.
Proof.
  intros Hok H1 H2 H3. destruct rc as [[]|e]; cbn [cleaned].
  - destruct (H1 eq_refl) as [-> Hw]. destruct (fails k) eqn:E5; intros [= <- <-]; split; auto; try done.
    intros Hf. by rewrite Hf in E5.
  - rewrite (H2 eq_refl). intros [= <- <-]. apply outcome_cleaned; [done|]. intros [Hf Hw]. by specialize (H3 Hf Hw).
Qed.

Lemma commit_target base tmp mode data expected w target k r w' :
  world_ok w base tmp -> open_target base expected w = Ok target ->
  match cleaned tmp (match target with
                     | Some original => replace_target quiet fails k base tmp expected original (filled w tmp mode data)
                     | None => create_target quiet fails k base tmp (filled w tmp mode data)
                     end) with
  | (Err e, w) => (Err e, w)
  | (Ok _, w) => if fails (5 + k) then (Err ErrIO, w) else (Ok tt, w)
  end = (r, w') ->
  atomic_outcome w base mode data expected r w'.
Proof.
  intros Hok Eo. destruct target as [original|].
  - apply open_target_Some in Eo as (He & Hat & Hk & Hl). unfold fstatat, fstat in Hat.
    destruct (names w !! base) as [ino|] eqn:En; [|done]. cbn in Hat.
    destruct (inodes w !! ino) as [i|] eqn:Ei; [|done]. injection Hat as <-. cbn [st_kind st_nlink stat_of] in *.
    destruct (replace_target _ _ _ _ _ _ _ _) as [rc wc] eqn:Ec.
    pose proof (replace_target_quiet _ _ _ _ _ _ _ _ _ _ _ Hok En Ei Hk Hl Ec) as (H1 & H2 & H3).
    apply outcome_commit; [done| |done|].
    + intros Hr. destruct (H1 Hr) as [-> Hx]. split; [done|]. unfold writable. rewrite En. cbn. by rewrite Ei.
    + unfold writable. rewrite En. cbn. rewrite Ei. intros Hf (_ & _ & _ & Hx). by apply H3.
  - assert (Hat : fstatat w base = None).
    { unfold open_target in Eo. destruct (fstatat w base) as [st|]; [|done]. destruct (st_kind st); try done.
      by apply guard_Ok in Eo as [_ [_ ?]%guard_Ok]. }
    apply open_target_None in Eo as ->.
    destruct (create_target _ _ _ _ _ _) as [rc wc] eqn:Ec.
    pose proof (create_target_quiet _ _ _ _ _ _ _ _ Hok Hat Ec) as (H1 & H2 & H3).
    apply outcome_commit; [done| |done|auto].
    intros Hr. split; [by apply H1|]. unfold writable, fstatat, fstat in *. destruct (names w !! base) as [ino|]; cbn in *; [|done].
    by destruct (inodes w !! ino).
Qed.


End alone.

(** *** Witnesses *)

Definition sample_world : world :=
  mkWorld {["a.txt" := 1]} {[1 := mkInode Regular 1 420 7 "old"]} 2.
Definition old_hash : gostring := hex_encode (@sha256 toy_crypto "old").
Definition sample_write := @secureAtomicWrite toy_crypto quiet (fun _ => false) "a.txt" ".tmp" "new" 420 old_hash sample_world.

Lemma sample_world_ok : world_ok sample_world "a.txt" ".tmp".
Proof.
  split; [reflexivity| |reflexivity|by apply (bool_decide_unpack _); vm_compute].
  intros name ino Hn. unfold sample_world in Hn. cbn in Hn. apply lookup_singleton_Some in Hn as [_ <-]. eexists. reflexivity.
Qed.


Lemma secureAtomicWrite_interference_witness :
  names sample_write.2 !! (".tmp" : gostring) = None.
Proof.
  assert (E : sample_write = (Ok tt, sample_write.2)) by (vm_compute; reflexivity).
  assert (Hp : private quiet ".tmp") by (intros k w ino Hn; split; [exact Hn|reflexivity]).
  destruct (@secureAtomicWrite_interference toy_crypto quiet (fun _ => false) "a.txt" ".tmp" "new" 420 old_hash sample_world
    sample_write.2 Hp ltac:(by apply (bool_decide_unpack _); vm_compute) E) as (wr & ino & _ & _ & _ & Hn & _).
  exact Hn.
Defined.
