(* ===== verification/Sessions.v ===== *)
(** * MCP sessions ([internal/gateway/session.go])

    The store of the sessions of one gateway server. Each operation runs under the
    mutex of the store; the sessions it passes to [onEvict] after unlocking are part
    of its result. *)
From S2P Require Import Prelude GoStrings Base64.
#[local] Open Scope Z_scope.

Definition defaultSessionTTL : Z := 30 * minute.
Definition defaultMaxSessions : Z := 4096.

Record mcpSession := mkSession {
  ID : gostring; Principal : gostring; ProtocolVersion : gostring;
  CreatedAt : gotime; LastSeen : gotime; Revoking : bool
}.

#[export] Instance mcpSession_eq_dec : EqDecision mcpSession.
Proof. solve_decision. Defined.

Inductive session_error := ErrSessionNotFound | ErrSessionProtocolVersion | ErrRandom | ErrServerRevoked.

#[export] Instance session_error_eq_dec : EqDecision session_error.
Proof. solve_decision. Defined.

Record sessionStore := mkStore { ttl : Z; max : Z; sessions : gmap gostring mcpSession }.

Definition with_sessions (s : sessionStore) (m : gmap gostring mcpSession) : sessionStore :=
  mkStore (ttl s) (max s) m.

Definition newSessionStore (ttl max : Z) : sessionStore := mkStore ttl max ∅.

(** The value a Go map returns for an absent key. *)
Definition zero_session : mcpSession := mkSession [] [] [] zero_time zero_time false.

Definition expired (s : sessionStore) (now : gotime) (session : mcpSession) : bool :=
  negb (before now (LastSeen session + ttl s)).

(** Deleting the expired sessions; the order of the removed ones is that of the
    map's iteration, which Go leaves open. *)
Definition removeExpiredLocked (now : gotime) (s : sessionStore) : list mcpSession * sessionStore :=
  ((map_to_list (filter (fun p => expired s now (snd p) = true) (sessions s))).*2,
   with_sessions s (filter (fun p => expired s now (snd p) = false) (sessions s))).

Definition lookup_session (s : sessionStore) (id : gostring) : mcpSession :=
  default zero_session (sessions s !! id).

(** The loop over the sorted identifiers: the first of the least recently seen. *)
Definition older (s : sessionStore) (oldest id : gostring) : gostring :=
  if before (LastSeen (lookup_session s id)) (LastSeen (lookup_session s oldest)) then id else oldest.

Definition session_ids (s : sessionStore) : list gostring := sort_strings (map_to_list (sessions s)).*1.

Definition evictOldestLocked (s : sessionStore) : option (mcpSession * sessionStore) :=
  match session_ids s with
  | [] => None
  | id :: ids =>
      let oldest := fold_left (older s) ids id in
      Some (lookup_session s oldest, with_sessions s (delete oldest (sessions s)))
  end.

(** The loop of [create] that makes room; without fuel it has not returned. *)
Fixpoint make_room (fuel : nat) (s : sessionStore) : option (list mcpSession * sessionStore) :=
  if Z.of_nat (size (sessions s)) <? max s then Some ([], s)
  else
    match fuel with
    | O => None
    | S fuel =>
        match evictOldestLocked s with
        | Some (removed, s) => '(l, s) ← make_room fuel s; Some (removed :: l, s)
        | None => make_room fuel s
        end
    end.

Definition new_session (value principal version : gostring) (now : gotime) : mcpSession :=
  mkSession (b64_encode value) principal version now now false.

(** [value] is the outcome of reading 16 random bytes. The result is the session,
    the evicted ones and the store; [None] when the loop does not end. *)
Definition create (value : option gostring) (principal version : gostring) (now : gotime) (s : sessionStore)
  : option (result session_error mcpSession * list mcpSession * sessionStore) :=
  match value with
  | None => Some (Err ErrRandom, [], s)
  | Some value =>
      let session := new_session value principal version now in
      let '(removed, s) := removeExpiredLocked now s in
      '(evicted, s) ← make_room (size (sessions s)) s;
      Some (Ok session, removed ++ evicted, with_sessions s (<[ID session := session]> (sessions s)))
  end.

Definition touch (session : mcpSession) (now : gotime) : mcpSession :=
  mkSession (ID session) (Principal session) (ProtocolVersion session) (CreatedAt session) now (Revoking session).

Definition set_revoking (session : mcpSession) : mcpSession :=
  mkSession (ID session) (Principal session) (ProtocolVersion session) (CreatedAt session) (LastSeen session) true.

Definition validateAndTouch (id principal version : gostring) (now : gotime) (s : sessionStore)
  : result session_error mcpSession * list mcpSession * sessionStore :=
  match sessions s !! id with
  | None => (Err ErrSessionNotFound, [], s)
  | Some session =>
      if negb (bool_decide (Principal session = principal)) || Revoking session then (Err ErrSessionNotFound, [], s)
      else if negb (before now (LastSeen session + ttl s))
      then (Err ErrSessionNotFound, [session], with_sessions s (delete id (sessions s)))
      else if negb (bool_decide (version = ProtocolVersion session)) then (Err ErrSessionProtocolVersion, [], s)
      else (Ok (touch session now), [], with_sessions s (<[id := touch session now]> (sessions s)))
  end.

Definition markRevoking (id principal version : gostring) (now : gotime) (s : sessionStore)
  : result session_error mcpSession * list mcpSession * sessionStore :=
  match sessions s !! id with
  | None => (Err ErrSessionNotFound, [], s)
  | Some session =>
      if negb (bool_decide (Principal session = principal)) then (Err ErrSessionNotFound, [], s)
      else if negb (before now (LastSeen session + ttl s))
      then (Err ErrSessionNotFound, [session], with_sessions s (delete id (sessions s)))
      else if negb (bool_decide (version = ProtocolVersion session)) then (Err ErrSessionProtocolVersion, [], s)
      else (Ok (set_revoking session), [], with_sessions s (<[id := set_revoking session]> (sessions s)))
  end.

Definition deleteRevoked (id principal : gostring) (s : sessionStore) : sessionStore :=
  match sessions s !! id with
  | Some session =>
      if bool_decide (Principal session = principal) && Revoking session
      then with_sessions s (delete id (sessions s)) else s
  | None => s
  end.

Definition clear (s : sessionStore) : sessionStore := with_sessions s ∅.

(** The live sessions, and the expired ones the call evicts. *)
Definition snapshot (now : gotime) (s : sessionStore) : list mcpSession * list mcpSession * sessionStore :=
  let '(evicted, s) := removeExpiredLocked now s in
  ((map_to_list (sessions s)).*2, evicted, s).

(** ** Well-formed stores *)

(** A session is stored under its identifier, and there is room for every one. *)
Record store_ok (s : sessionStore) : Prop := {
  so_id : map_Forall (fun id session => ID session = id) (sessions s);
  so_size : Z.of_nat (size (sessions s)) <= Z.max 0 (max s)
}.

Lemma with_sessions_ok s m : store_ok s -> m ⊆ sessions s -> store_ok (with_sessions s m).
Proof.
  intros [Hid Hs] Hm. split; cbn.
  - intros id x Hx. apply Hid. by eapply lookup_weaken.
  - apply map_subseteq_size in Hm. lia.
Qed.

Lemma filter_sub `{forall p, Decision (P p)} (m : gmap gostring mcpSession) : filter P m ⊆ m.
Proof. apply map_filter_subseteq. Qed.

Lemma removeExpired_ok now s : store_ok s -> store_ok (snd (removeExpiredLocked now s)).
Proof. intros H. by apply with_sessions_ok, filter_sub. Qed.

Lemma lookup_session_Some s id x : sessions s !! id = Some x -> lookup_session s id = x.
Proof. unfold lookup_session. by intros ->. Qed.

Lemma session_ids_elem s id : id ∈ session_ids s <-> is_Some (sessions s !! id).
Proof.
  unfold session_ids. rewrite (sort_strings_perm _), list_elem_of_fmap. split.
  - intros ([i x] & -> & Hx%elem_of_map_to_list). eauto.
  - intros [x Hx]. exists (id, x). by rewrite elem_of_map_to_list.
Qed.

Lemma session_ids_nil s : session_ids s = [] -> sessions s = ∅.
Proof.
  intros E. apply map_empty. intros i. apply eq_None_not_Some. rewrite <- session_ids_elem, E. apply not_elem_of_nil.
Qed.

(** ** The order of eviction *)

Definition seen (s : sessionStore) (id : gostring) : Z := LastSeen (lookup_session s id).

(** Least recently seen first, then by identifier. *)
Definition sooner (a b : mcpSession) : Prop :=
  LastSeen a < LastSeen b \/ (LastSeen a = LastSeen b /\ str_lt (ID a) (ID b) = true).

Definition not_later (s : sessionStore) (a b : gostring) : Prop :=
  seen s a < seen s b \/ (seen s a = seen s b /\ str_le a b).

Lemma str_le_refl a : str_le a a.
Proof. apply str_le_alt. by right. Qed.

Lemma str_le_trans a b c : str_le a b -> str_le b c -> str_le a c.
Proof.
  rewrite !str_le_alt. intros [H1| ->] [H2| ->]; auto. left. by eapply str_lt_trans.
Qed.

Lemma not_later_refl s a : not_later s a a.
Proof. right. split; [done|apply str_le_refl]. Qed.

Lemma not_later_trans s a b c : not_later s a b -> not_later s b c -> not_later s a c.
Proof. unfold not_later. intros [?|[? ?]] [?|[? ?]]; [left; lia..|right; split; [lia|by eapply str_le_trans]]. Qed.

Lemma older_min s o i : str_le o i -> not_later s (older s o i) o /\ not_later s (older s o i) i.
Proof.
  intros H. unfold older, before. fold (seen s i) (seen s o). destruct (seen s i <? seen s o) eqn:E; bool_props.
  - split; [by left|apply not_later_refl].
  - split; [apply not_later_refl|]. unfold not_later. destruct (Z.eq_dec (seen s o) (seen s i)); [by right|left; lia].
Qed.

Lemma older_or s o i : older s o i = o \/ older s o i = i.
Proof. unfold older. destruct (before _ _); auto. Qed.

Lemma fold_older s ids : forall o,
  StronglySorted str_le (o :: ids) ->
  fold_left (older s) ids o ∈ o :: ids /\ forall i, i ∈ o :: ids -> not_later s (fold_left (older s) ids o) i.
Proof.
  induction ids as [|i ids IH]; intros o Hs; cbn [fold_left].
  { split; [by constructor|]. intros i ->%list_elem_of_singleton. apply not_later_refl. }
  inversion_clear Hs as [|? ? Hs' Hf]. inversion_clear Hs' as [|? ? Hs Hfi]. rewrite Forall_cons in Hf. destruct Hf as [Hoi Hf].
  destruct (older_min s o i Hoi) as [Ho Hi].
  destruct (IH (older s o i)) as [Hin Hmin]; [constructor; [done|]; by destruct (older_or s o i) as [-> | ->]|].
  split.
  - destruct (older_or s o i) as [E|E]; rewrite E in *; set_solver.
  - intros j [-> |[-> |Hj]%elem_of_cons]%elem_of_cons.
    + eapply not_later_trans; [apply Hmin; by left|done].
    + eapply not_later_trans; [apply Hmin; by left|done].
    + apply Hmin. by right.
Qed.

Lemma evictOldest_Some s r s' :
  store_ok s -> evictOldestLocked s = Some (r, s') ->
  sessions s !! ID r = Some r /\ s' = with_sessions s (delete (ID r) (sessions s)) /\
  forall id x, sessions s' !! id = Some x -> sooner r x.
Proof.
  intros [Hid _]. unfold evictOldestLocked. destruct (session_ids s) as [|i ids] eqn:E; [done|]. intros [= <- <-].
  destruct (fold_older s ids i) as [Hin Hmin].
  { rewrite <- E. apply sort_strings_sorted. }
  rewrite <- E in Hin, Hmin. apply session_ids_elem in Hin as [r Hr]. set (o := fold_left (older s) ids i) in *.
  rewrite (lookup_session_Some _ _ _ Hr), (Hid _ _ Hr). split; [done|]. split; [done|]. intros id x Hx. cbn in Hx.
  apply lookup_delete_Some in Hx as [Hne Hx]. pose proof (Hid _ _ Hx) as Hxid. pose proof (Hid _ _ Hr) as Hrid. cbn in Hxid, Hrid.
  destruct (Hmin id) as [Hl|[Hl Hle]]; [apply session_ids_elem; eauto|..]; unfold seen in Hl; rewrite (lookup_session_Some _ _ _ Hx),
    (lookup_session_Some _ _ _ Hr) in Hl; unfold sooner; [by left|right]. split; [done|]. rewrite Hxid, Hrid.
  apply str_le_alt in Hle as [?|?]; [done|by subst].
Qed.

Lemma evictOldest_None s : evictOldestLocked s = None -> sessions s = ∅.
Proof. unfold evictOldestLocked. destruct (session_ids s) eqn:E; [|done]. intros _. by apply session_ids_nil. Qed.

(** ** Making room *)

Lemma delete_size (m : gmap gostring mcpSession) i x : m !! i = Some x -> size (delete i m) = Nat.pred (size m).
Proof. intros H. rewrite map_size_delete, H. done. Qed.

Lemma evictOldest_size s r s' :
  store_ok s -> evictOldestLocked s = Some (r, s') -> S (size (sessions s')) = size (sessions s).
Proof.
  intros Hok He. apply evictOldest_Some in He as (Hr & -> & _); [|done]. cbn. erewrite delete_size by done.
  assert (size (sessions s) <> O); [|lia]. rewrite map_size_ne_0_lookup. eauto.
Qed.

Lemma make_room_returns fuel s :
  store_ok s -> 0 < max s -> (size (sessions s) <= fuel)%nat -> is_Some (make_room fuel s).
Proof.
  revert s. induction fuel as [|fuel IH]; intros s Hok Hm Hf; cbn [make_room]; destruct (_ <? _) eqn:E; bool_props; eauto.
  { lia. }
  destruct (evictOldestLocked s) as [[r s']|] eqn:Ee.
  - pose proof (evictOldest_size _ _ _ Hok Ee). pose proof (evictOldest_Some _ _ _ Hok Ee) as (_ & -> & _).
    destruct (IH (with_sessions s (delete (ID r) (sessions s)))) as [[l s2] ->]; [|done|lia|eauto].
    apply with_sessions_ok; [done|]. apply delete_subseteq.
  - apply evictOldest_None in Ee. rewrite Ee, map_size_empty in E. lia.
Qed.

(** Without a positive bound the loop never ends. *)
Lemma make_room_diverges fuel s : max s <= 0 -> make_room fuel s = None.
Proof.
  revert s. induction fuel as [|fuel IH]; intros s Hm; cbn [make_room]; destruct (_ <? _) eqn:E; bool_props; try lia; [done|].
  destruct (evictOldestLocked s) as [[r s']|] eqn:Ee; [|by apply IH].
  assert (max s' = max s) as Hm'.
  { unfold evictOldestLocked in Ee. destruct (session_ids s); [done|]. by injection Ee as <- <-. }
  rewrite IH by (rewrite Hm'; lia). done.
Qed.

(** What is evicted was seen before everything that stays, and no more is evicted
    than it takes. *)
Record made_room (s : sessionStore) (l : list mcpSession) (s' : sessionStore) : Prop := {
  mr_sub : sessions s' ⊆ sessions s;
  mr_store : s' = with_sessions s (sessions s');
  mr_size : Z.of_nat (size (sessions s')) < max s;
  mr_least : l <> [] -> Z.of_nat (size (sessions s')) = max s - 1;
  mr_all : forall id x, sessions s !! id = Some x -> sessions s' !! id = Some x \/ x ∈ l;
  mr_from : forall x, x ∈ l -> sessions s !! ID x = Some x /\ sessions s' !! ID x = None;
  mr_order : forall x id y, x ∈ l -> sessions s' !! id = Some y -> sooner x y
}.

Lemma with_sessions_id s : with_sessions s (sessions s) = s.
Proof. by destruct s. Qed.

Lemma make_room_nil fuel s s' : make_room fuel s = Some ([], s') -> s' = s.
Proof.
  revert s. induction fuel as [|fuel IH]; intros s; cbn [make_room]; destruct (_ <? _); try congruence.
  destruct (evictOldestLocked s) as [[r s1]|]; [by destruct (make_room fuel s1) as [[? ?]|]|apply IH].
Qed.

Lemma make_room_spec fuel s l s' : store_ok s -> make_room fuel s = Some (l, s') -> made_room s l s'.
Proof.
  revert s l s'. induction fuel as [|fuel IH]; intros s l s' Hok; cbn [make_room]; destruct (_ <? _) eqn:E; bool_props; try done;
    try (intros [= <- <-]; split; [done|by rewrite with_sessions_id|done|done|auto|set_solver|set_solver]).
  destruct (evictOldestLocked s) as [[r s1]|] eqn:Ee; cycle 1.
  { apply evictOldest_None in Ee. intros H. by apply IH in H. }
  pose proof (evictOldest_size _ _ _ Hok Ee) as Hsz. apply evictOldest_Some in Ee as (Hr & -> & Hold); [|done].
  set (s1 := with_sessions s (delete (ID r) (sessions s))) in *.
  assert (Hok1 : store_ok s1) by (apply with_sessions_ok; [done|apply delete_subseteq]).
  destruct (make_room fuel s1) as [[l2 s2]|] eqn:Em; [|done]. intros [= <- <-].
  pose proof (IH _ _ _ Hok1 Em) as [Hsub Hst Hs Hl Ha Hf Ho]. cbn in Hs, Hl, Ha, Hf, Hsub. split.
  - etrans; [exact Hsub|apply delete_subseteq].
  - done.
  - done.
  - intros _. destruct l2; [|by apply Hl]. apply make_room_nil in Em as ->. cbn in *. lia.
  - intros id x Hx. destruct (decide (id = ID r)) as [-> |Hne]; [right; rewrite Hr in Hx; injection Hx as ->; apply elem_of_cons; by left|].
    destruct (Ha id x) as [?|?]; [by rewrite lookup_delete_ne by congruence|by left|right; apply elem_of_cons; by right].
  - intros x [-> |Hx]%elem_of_cons.
    + split; [done|]. eapply lookup_weaken_None; [|exact Hsub]. by rewrite lookup_delete_eq.
    + destruct (Hf x Hx) as [[_ ?]%lookup_delete_Some ?]. by split.
  - intros x id y [-> |Hx]%elem_of_cons Hy; [|by eapply Ho]. eapply Hold. by eapply lookup_weaken.
Qed.

(** ** The operations *)

Lemma removeExpired_sessions now s id x :
  sessions (snd (removeExpiredLocked now s)) !! id = Some x <-> sessions s !! id = Some x /\ now < LastSeen x + ttl s.
Proof.
  cbn. rewrite map_lookup_filter_Some. unfold expired, before. cbn. rewrite negb_false_iff, Z.ltb_lt. done.
Qed.

Lemma removeExpired_removed now s x :
  store_ok s ->
  x ∈ fst (removeExpiredLocked now s) <-> sessions s !! ID x = Some x /\ LastSeen x + ttl s <= now.
Proof.
  intros [Hid _]. cbn. rewrite list_elem_of_fmap. split.
  - intros ([id y] & -> & Hy%elem_of_map_to_list). apply map_lookup_filter_Some in Hy as [Hy He]. cbn in *.
    rewrite (Hid _ _ Hy). unfold expired, before in He. bool_props. done.
  - intros [Hx He]. exists (ID x, x). split; [done|]. apply elem_of_map_to_list, map_lookup_filter_Some. split; [done|].
    cbn. unfold expired, before. by apply negb_true_iff, Z.ltb_ge.
Qed.

Lemma create_ok value principal version now s r l s' :
  store_ok s -> create value principal version now s = Some (r, l, s') -> store_ok s'.
Proof.
  intros Hok. unfold create. destruct value as [v|]; [|by intros [= _ _ <-]].
  destruct (removeExpiredLocked now s) as [removed s1] eqn:E1.
  pose proof (removeExpired_ok now s Hok) as Hok1. rewrite E1 in Hok1. cbn in Hok1.
  destruct (make_room _ s1) as [[ev s2]|] eqn:E2; [|done]. intros [= _ _ <-].
  pose proof (make_room_spec _ _ _ _ Hok1 E2) as [Hsub Hst Hs _ _ _ _].
  assert (Hmax : max s2 = max s1) by (by rewrite Hst).
  split; cbn.
  - apply map_Forall_insert_2; [done|]. intros id x Hx. apply (so_id _ Hok1). by eapply lookup_weaken.
  - rewrite map_size_insert. destruct (sessions s2 !! _); cbn; lia.
Qed.

Lemma insert_same_ok s id x y :
  store_ok s -> sessions s !! id = Some x -> ID y = id -> store_ok (with_sessions s (<[id := y]> (sessions s))).
Proof.
  intros [Hid Hs] Hx <-. split; cbn.
  - by apply map_Forall_insert_2.
  - rewrite map_size_insert, Hx. done.
Qed.

Lemma delete_ok s id : store_ok s -> store_ok (with_sessions s (delete id (sessions s))).
Proof. intros H. apply with_sessions_ok; [done|apply delete_subseteq]. Qed.

Lemma validateAndTouch_ok id principal version now s :
  store_ok s -> store_ok (snd (validateAndTouch id principal version now s)).
Proof.
  intros Hok. unfold validateAndTouch. destruct (sessions s !! id) as [x|] eqn:E; [|done].
  repeat case_match; cbn; first [done|by apply delete_ok|eapply insert_same_ok; [done|done|exact (so_id _ Hok _ _ E)]].
Qed.

Lemma markRevoking_ok id principal version now s :
  store_ok s -> store_ok (snd (markRevoking id principal version now s)).
Proof.
  intros Hok. unfold markRevoking. destruct (sessions s !! id) as [x|] eqn:E; [|done].
  repeat case_match; cbn; first [done|by apply delete_ok|eapply insert_same_ok; [done|done|exact (so_id _ Hok _ _ E)]].
Qed.

Lemma deleteRevoked_ok id principal s : store_ok s -> store_ok (deleteRevoked id principal s).
Proof.
  intros Hok. unfold deleteRevoked. destruct (sessions s !! id) as [x|]; [|done].
  destruct (_ && _); [by apply delete_ok|done].
Qed.

Lemma clear_ok s : store_ok s -> store_ok (clear s).
Proof. intros Hok. apply with_sessions_ok; [done|apply map_empty_subseteq]. Qed.

#[export] Hint Resolve removeExpired_ok create_ok validateAndTouch_ok markRevoking_ok deleteRevoked_ok clear_ok : s2p.

Lemma create_None principal version now s : create None principal version now s = Some (Err ErrRandom, [], s).
Proof. done. Qed.

Lemma create_spec value principal version now s :
  store_ok s -> 0 < max s ->
  exists evicted s1,
    made_room (snd (removeExpiredLocked now s)) evicted s1 /\
    let session := new_session value principal version now in
    create (Some value) principal version now s =
      Some (Ok session, fst (removeExpiredLocked now s) ++ evicted,
            with_sessions s (<[ID session := session]> (sessions s1))).
Proof.
  intros Hok Hm. pose proof (removeExpired_ok now s Hok) as Hok1. unfold create.
  destruct (removeExpiredLocked now s) as [removed s1] eqn:E1. cbn [fst snd] in *.
  assert (Hmax : max s1 = max s) by (by injection E1 as _ <-).
  destruct (make_room_returns (size (sessions s1)) s1) as [[ev s2] Er]; [done|lia|done|].
  pose proof (make_room_spec _ _ _ _ Hok1 Er) as Hr.
  exists ev, s2. split; [done|]. rewrite Er. cbn. do 2 f_equal.
  pose proof (mr_store _ _ _ Hr) as ->. injection E1 as _ <-. done.
Qed.

(** Creating a session always returns when the bound is positive. The new session
    is stored and the bound holds. An old one is gone only if it had expired, was
    evicted for lack of room (then the store is full, and the evicted one was seen
    before every one that stays), or had the same identifier. *)
Theorem create_evicts_least_recent value principal version now s :
  store_ok s -> 0 < max s ->
  let session := new_session value principal version now in
  exists evicted s',
    create (Some value) principal version now s = Some (Ok session, evicted, s') /\ store_ok s' /\
    sessions s' !! ID session = Some session /\ Z.of_nat (size (sessions s')) <= max s /\
    (forall id x, sessions s !! id = Some x -> id = ID session \/ sessions s' !! id = Some x \/ x ∈ evicted) /\
    (forall id x, sessions s' !! id = Some x -> id = ID session \/ (sessions s !! id = Some x /\ now < LastSeen x + ttl s)) /\
    forall x, x ∈ evicted -> sessions s !! ID x = Some x /\
      (LastSeen x + ttl s <= now \/
       (Z.of_nat (size (filter (fun p => expired s now p.2 = false) (sessions s))) >= max s /\
        forall id y, id <> ID session -> sessions s' !! id = Some y -> sooner x y)).
Proof.
  intros Hok Hm session. destruct (create_spec value principal version now s Hok Hm) as (ev & s1 & Hr & E). fold session in E.
  eexists _, _. split; [exact E|]. pose proof (create_ok _ _ _ _ _ _ _ _ Hok E) as Hok'. split; [done|]. cbn in *.
  pose proof (so_size _ Hok') as Hsz. cbn in Hsz.
  split; [apply lookup_insert_eq|]. split; [lia|]. pose proof (mr_all _ _ _ Hr) as Hall. cbn in Hall.
  split; [|split].
  - intros id x Hx. destruct (decide (id = ID session)) as [|Hne]; [by left|right].
    rewrite lookup_insert_ne by (apply not_eq_sym; exact Hne). rewrite elem_of_app.
    destruct (Z_lt_dec now (LastSeen x + ttl s)) as [Hl|Hl].
    + destruct (Hall id x) as [?|?]; [by apply (removeExpired_sessions now s)|by left|by right; right].
    + right. left. apply (removeExpired_removed now s); [done|]. pose proof (so_id _ Hok _ _ Hx) as Hi. cbn in Hi. subst id. split; [done|lia].
  - intros id x Hx. apply lookup_insert_Some in Hx as [[-> _]|[_ Hx]]; [by left|right].
    eapply lookup_weaken in Hx; [|exact (mr_sub _ _ _ Hr)]. by apply (removeExpired_sessions now s).
  - intros x [Hx|Hx]%elem_of_app.
    + apply (removeExpired_removed now s) in Hx as [? ?]; auto.
    + destruct (mr_from _ _ _ Hr x Hx) as [Hx1 Hx2]. pose proof Hx1 as Hx1'. apply (removeExpired_sessions now s) in Hx1 as [? Hl].
      split; [done|right]. split; [|intros id y Hne Hy; rewrite lookup_insert_ne in Hy by (apply not_eq_sym; exact Hne); by eapply (mr_order _ _ _ Hr)].
      assert (Hf : Z.of_nat (size (sessions s1)) = max s - 1) by (apply (mr_least _ _ _ Hr); by intros ->; apply elem_of_nil in Hx).
      pose proof (mr_sub _ _ _ Hr) as Hsub. cbn in Hsub. cbn in Hx1'.
      assert (sessions s1 ⊂ filter (fun p => expired s now p.2 = false) (sessions s)) as Hlt%map_subset_size; [|lia].
      split; [done|]. intros Hc. eapply lookup_weaken in Hx1'; [|exact Hc]. congruence.
Qed.

(** ** Histories *)

Inductive op :=
  | OpCreate (value : option gostring) (principal version : gostring) (now : gotime)
  | OpValidate (id principal version : gostring) (now : gotime)
  | OpMark (id principal version : gostring) (now : gotime)
  | OpDelete (id principal : gostring)
  | OpClear
  | OpSnapshot (now : gotime).

(** The session an operation returns, if any, and those it evicts. *)
Definition apply_op (o : op) (s : sessionStore) : option (option mcpSession * list mcpSession * sessionStore) :=
  let ok (r : result session_error mcpSession) := match r with Ok x => Some x | Err _ => None end in
  match o with
  | OpCreate v p ver now => '(r, l, s) ← create v p ver now s; Some (ok r, l, s)
  | OpValidate id p ver now => let '(r, l, s) := validateAndTouch id p ver now s in Some (ok r, l, s)
  | OpMark id p ver now => let '(r, l, s) := markRevoking id p ver now s in Some (ok r, l, s)
  | OpDelete id p => Some (None, [], deleteRevoked id p s)
  | OpClear => Some (None, [], clear s)
  | OpSnapshot now => let '(_, l, s) := snapshot now s in Some (None, l, s)
  end.

Definition event : Type := op * option mcpSession * list mcpSession.

Inductive history (s0 : sessionStore) : list event -> sessionStore -> Prop :=
  | history_nil : history s0 [] s0
  | history_snoc evs s o r l s' :
      history s0 evs s -> apply_op o s = Some (r, l, s') -> history s0 (evs ++ [(o, r, l)]) s'.

(** After these a session with the identifier, as it was, is no longer usable. *)
Definition ends (id : gostring) (e : event) : Prop :=
  match e with
  | (OpClear, _, _) => True
  | (OpMark i _ _ _, Some _, _) => i = id
  | (OpCreate (Some v) _ _ _, Some _, _) => b64_encode v = id
  | _ => False
  end \/ Exists (fun x => ID x = id) (snd e).

(** Where the session stored under [id] after an operation comes from. *)
Definition comes_from (s : sessionStore) (id : gostring) (x : mcpSession) (e : event) : Prop :=
  (exists v l, e = (OpCreate (Some v) (Principal x) (ProtocolVersion x) (LastSeen x), Some x, l) /\ b64_encode v = id) \/
  (exists x0, sessions s !! id = Some x0 /\ Principal x0 = Principal x /\ ProtocolVersion x0 = ProtocolVersion x /\
     (Revoking x = false -> Revoking x0 = false /\ ~ ends id e) /\
     (LastSeen x = LastSeen x0 \/
      exists l, e = (OpValidate id (Principal x) (ProtocolVersion x) (LastSeen x), Some x, l))).

Lemma from_same s id x e : sessions s !! id = Some x -> ~ ends id e -> comes_from s id x e.
Proof. intros Hx He. right. exists x. split_and!; auto. Qed.

Lemma not_ends_removed now s id x o r :
  store_ok s -> sessions (snd (removeExpiredLocked now s)) !! id = Some x ->
  ~ Exists (fun y => ID y = id) (fst (removeExpiredLocked now s)) /\ (o = OpSnapshot now -> ~ ends id (o, r, fst (removeExpiredLocked now s))).
Proof.
  intros Hok Hx. apply removeExpired_sessions in Hx as [Hx Hl].
  assert (Hn : ~ Exists (fun y => ID y = id) (fst (removeExpiredLocked now s))).
  { rewrite List.Exists_exists. intros (y & Hy%list_elem_of_In & <-). apply removeExpired_removed in Hy as [Hy He]; [|done].
    rewrite Hx in Hy. injection Hy as ->. lia. }
  split; [done|]. intros ->. by intros [[]|?].
Qed.

Lemma comes_from_create v p ver now s r l s' id x :
  store_ok s -> apply_op (OpCreate v p ver now) s = Some (r, l, s') -> sessions s' !! id = Some x ->
  comes_from s id x (OpCreate v p ver now, r, l).
Proof.
  intros Hok. cbn -[removeExpiredLocked]. destruct v as [v|]; cbn -[removeExpiredLocked].
  2: { intros [= <- <- <-] Hx. apply from_same; [done|]. intros [[]|H]; by apply Exists_nil in H. }
  pose proof (removeExpired_ok now s Hok) as Hok1. pose proof (not_ends_removed now s id) as Hre.
  pose proof (removeExpired_sessions now s) as Hrs.
  destruct (removeExpiredLocked now s) as [removed s1]. cbn [fst snd] in *.
  destruct (make_room _ s1) as [[ev s2]|] eqn:Em; [|done]. cbn. intros [= <- <- <-]. cbn. intros Hx.
  pose proof (make_room_spec _ _ _ _ Hok1 Em) as [Hsub _ _ _ _ Hfrom _].
  apply lookup_insert_Some in Hx as [[<- <-]|[Hne Hx]]; [left; by eexists v, _|].
  assert (Hx1 : sessions s1 !! id = Some x) by (by eapply lookup_weaken).
  apply from_same; [by apply (Hrs id)|]. destruct (Hre x (OpSnapshot now) None Hok Hx1) as [Hn _].
  intros [He|He]; cbn in He; [congruence|]. apply Exists_app in He as [?|He]; [done|].
  apply List.Exists_exists in He as (y & Hy%list_elem_of_In & <-). destruct (Hfrom y Hy) as [_ ?]. congruence.
Qed.

Lemma comes_from_use o s r l s' id x :
  store_ok s -> match o with OpValidate _ _ _ _ | OpMark _ _ _ _ => True | _ => False end ->
  apply_op o s = Some (r, l, s') -> sessions s' !! id = Some x -> comes_from s id x (o, r, l).
Proof.
  assert (Hnil : forall (P : mcpSession -> Prop), ~ Exists P []) by (intros P H; by apply Exists_nil in H).
  assert (Hdel : forall (i : gostring) (y : mcpSession), store_ok s -> sessions s !! i = Some y ->
    delete i (sessions s) !! id = Some x -> sessions s !! id = Some x /\ ~ Exists (fun z => ID z = id) [y]).
  { intros i y Hok Hy [Hne Hx]%lookup_delete_Some. split; [done|]. rewrite Exists_cons, Exists_nil.
    pose proof (so_id _ Hok _ _ Hy) as Hi. cbn in Hi. intros [?|[]]. congruence. }
  intros Hok Ho. destruct o as [|i p ver now|i p ver now| | |]; try done; cbn; unfold validateAndTouch, markRevoking;
    destruct (sessions s !! i) as [y|] eqn:Ey; repeat case_match; simplify_eq; cbn; intros E; injection E as <- <- <-; cbn; intros Hx;
    try (apply from_same; [done|intros [[]|?]; by eapply Hnil]);
    try (destruct (Hdel _ _ Hok Ey Hx); apply from_same; [done|by intros [[]|?]]);
    apply lookup_insert_Some in Hx as [[-> <-]|[Hne Hx]];
    try (apply from_same; [done|intros [He|He]; [done|by eapply Hnil]]).
  - bool_props. right. exists y. cbn. split_and!; [done..| |right; exists []; by subst].
    intros ?. split; [done|]. intros [[]|?]. by eapply Hnil.
  - right. exists y. by split_and!; auto.
Qed.

Lemma apply_op_from o s r l s' id x :
  store_ok s -> apply_op o s = Some (r, l, s') -> sessions s' !! id = Some x -> comes_from s id x (o, r, l).
Proof.
  intros Hok. destruct o as [v p ver now|i p ver now|i p ver now|i p| |now].
  - by apply comes_from_create.
  - by apply comes_from_use.
  - by apply comes_from_use.
  - cbn. unfold deleteRevoked. intros [= <- <- <-] Hx. apply from_same; [|by intros [[]|H%Exists_nil]].
    destruct (sessions s !! i) as [y|]; [|done]. destruct (_ && _); [|done]. cbn in Hx. by apply lookup_delete_Some in Hx as [_ ?].
  - cbn. intros [= <- <- <-] Hx. done.
  - cbn -[removeExpiredLocked]. unfold snapshot. pose proof (not_ends_removed now s id x (OpSnapshot now) r Hok) as Hre.
    pose proof (removeExpired_sessions now s id x) as Hrs.
    destruct (removeExpiredLocked now s) as [removed s1]. intros [= <- <- <-] Hx. cbn in *. apply from_same; [by apply Hrs|by apply Hre].
Qed.

Lemma apply_op_ok o s r l s' : store_ok s -> apply_op o s = Some (r, l, s') -> store_ok s' /\ ttl s' = ttl s.
Proof.
  intros Hok. destruct o as [v p ver now|i p ver now|i p ver now|i p| |now]; cbn -[removeExpiredLocked create].
  - destruct (create v p ver now s) as [[[r0 l0] s0]|] eqn:E; [|done]. intros [= _ _ <-]. split; [by eapply create_ok|].
    revert E. unfold create. destruct v; [|by intros [= _ _ <-]]. destruct (removeExpiredLocked now s) as [a b] eqn:E1.
    pose proof (removeExpired_ok now s Hok) as Hb. rewrite E1 in Hb.
    destruct (make_room _ b) as [[? s2]|] eqn:Em; [|done]. pose proof (mr_store _ _ _ (make_room_spec _ _ _ _ Hb Em)) as Hst.
    cbn. intros [= _ _ <-]. cbn. rewrite Hst. cbn. by injection E1 as _ <-.
  - pose proof (validateAndTouch_ok i p ver now s Hok) as H. destruct (validateAndTouch _ _ _ _ _) as [[? ?] s1] eqn:E.
    intros [= _ _ <-]. split; [done|]. revert E. unfold validateAndTouch. repeat case_match; by intros [= _ _ <-].
  - pose proof (markRevoking_ok i p ver now s Hok) as H. destruct (markRevoking _ _ _ _ _) as [[? ?] s1] eqn:E.
    intros [= _ _ <-]. split; [done|]. revert E. unfold markRevoking. repeat case_match; by intros [= _ _ <-].
  - intros [= _ _ <-]. split; [by apply deleteRevoked_ok|]. unfold deleteRevoked. by repeat case_match.
  - intros [= _ _ <-]. split; [by apply clear_ok|done].
  - unfold snapshot. pose proof (removeExpired_ok now s Hok) as H. destruct (removeExpiredLocked now s) as [? s1] eqn:E.
    intros [= _ _ <-]. split; [done|]. by injection E as _ <-.
Qed.

Lemma new_store_ok ttl max : store_ok (newSessionStore ttl max).
Proof. split; [apply map_Forall_empty|]. cbn. rewrite map_size_empty. lia. Qed.

Lemma history_ok s0 evs s : store_ok s0 -> history s0 evs s -> store_ok s /\ ttl s = ttl s0.
Proof.
  intros Hok. induction 1 as [|evs s o r l s' _ [IH1 IH2] Ho]; [done|].
  apply apply_op_ok in Ho as [? ?]; [|done]. split; [done|congruence].
Qed.

(** The part of the history a stored session stands for. *)
Definition traced (evs : list event) (id : gostring) (x : mcpSession) : Prop :=
  exists pre v t x0 l post,
    evs = pre ++ (OpCreate (Some v) (Principal x) (ProtocolVersion x) t, Some x0, l) :: post /\ b64_encode v = id /\
    (Revoking x = false -> Forall (fun e => ~ ends id e) post) /\
    (LastSeen x = t \/ exists y l', (OpValidate id (Principal x) (ProtocolVersion x) (LastSeen x), Some y, l') ∈ post).

Lemma traced_snoc s evs id x e :
  (forall x0, sessions s !! id = Some x0 -> traced evs id x0) -> comes_from s id x e -> traced (evs ++ [e]) id x.
Proof.
  intros Hinv [(v & l & -> & Hv)|(x0 & Hx0 & HP & HV & Hr & Hl)].
  - exists evs, v, (LastSeen x), x, l, []. split_and!; auto.
  - destruct (Hinv x0 Hx0) as (pre & v & t & y & l & post & -> & Hv & Hpost & Hlast).
    exists pre, v, t, y, l, (post ++ [e]). rewrite HP, HV in *. split_and!; [by rewrite <- app_assoc|done|..].
    + intros Hx. destruct (Hr Hx) as [Hx0r He]. apply Forall_app. split; [by apply Hpost|]. by apply Forall_singleton.
    + destruct Hl as [Hl|(l2 & ->)]; [|right; exists x, l2; set_solver]. rewrite Hl.
      destruct Hlast as [?|(z & l' & Hz)]; [by left|]. right. exists z, l'. apply elem_of_app. by left.
Qed.

Lemma history_traced ttl max evs s id x :
  history (newSessionStore ttl max) evs s -> sessions s !! id = Some x -> traced evs id x.
Proof.
  intros Hh. revert x. induction Hh as [|evs s o r l s' Hh IH Ho]; intros x Hx; [cbn in Hx; by apply lookup_empty_Some in Hx|].
  pose proof (history_ok _ _ _ (new_store_ok ttl max) Hh) as [Hok _]. eapply traced_snoc; [exact IH|]. by eapply apply_op_from.
Qed.

Lemma validateAndTouch_Ok id principal version now s x l s' :
  validateAndTouch id principal version now s = (Ok x, l, s') ->
  exists x0, sessions s !! id = Some x0 /\ Principal x0 = principal /\ ProtocolVersion x0 = version /\ Revoking x0 = false /\
    now < LastSeen x0 + ttl s /\ x = touch x0 now /\ l = [] /\ s' = with_sessions s (<[id := x]> (sessions s)).
Proof.
  unfold validateAndTouch. destruct (sessions s !! id) as [x0|]; [|done]. repeat case_match; try done. intros [= <- <- <-].
  unfold before in *. bool_props. exists x0. by split_and!.
Qed.

(** C27. A session is accepted only for the principal and the protocol version it was
    created with, at most the time to live after its creation or its last accepted
    use, and if since its creation nothing has ended it: no revocation of it was
    started, the store was not cleared, and it was not evicted or replaced. *)
Theorem validate_history ttl max evs s id principal version now x l s' :
  history (newSessionStore ttl max) evs s ->
  validateAndTouch id principal version now s = (Ok x, l, s') ->
  exists pre v t x0 l0 post,
    evs = pre ++ (OpCreate (Some v) principal version t, Some x0, l0) :: post /\ b64_encode v = id /\
    Forall (fun e => ~ ends id e) post /\
    exists last, now < last + ttl /\
      (last = t \/ exists y l', (OpValidate id principal version last, Some y, l') ∈ post).
Proof.
  intros Hh Hv. apply validateAndTouch_Ok in Hv as (x0 & Hx0 & <- & <- & Hr & Hn & _).
  pose proof (history_ok _ _ _ (new_store_ok ttl max) Hh) as [_ Ht]. rewrite Ht in Hn. cbn in Hn.
  destruct (history_traced _ _ _ _ _ _ Hh Hx0) as (pre & v & t & y & l0 & post & -> & Hv & Hpost & Hlast).
  exists pre, v, t, y, l0, post. split_and!; [done..|by apply Hpost|]. exists (LastSeen x0). split; [done|done].
Qed.

(** *** Witnesses *)

Definition sample_store : sessionStore :=
  with_sessions (newSessionStore 100 2) (list_to_map [("AAA", mkSession "AAA" "alice" "v" 0 30 false); ("AAE", mkSession "AAE" "bob" "v" 0 10 false)]).

Lemma sample_store_ok : store_ok sample_store.
Proof. split; [apply (bool_decide_unpack _); vm_compute; exact I|]. vm_compute. discriminate. Qed.

Example sample_evicts :
  (fun p => (p.1.2, (map_to_list (sessions p.2)).*1)) <$> create (Some "z") "carol" "v" 50 sample_store =
  Some ([mkSession "AAE" "bob" "v" 0 10 false], ["eg"; "AAA"]).
Proof. vm_compute. reflexivity. Qed.

Lemma create_evicts_least_recent_witness :
  exists evicted s', create (Some "z") "carol" "v" 50 sample_store = Some (Ok (new_session "z" "carol" "v" 50), evicted, s') /\ store_ok s'.
Proof.
  destruct (create_evicts_least_recent "z" "carol" "v" 50 sample_store sample_store_ok ltac:(vm_compute; reflexivity)) as (l & s' & H & Hok & _).
  exists l, s'. split; assumption.
Defined.

Definition created_events : list event := [(OpCreate (Some "z") "carol" "v" 50, Some (mkSession "eg" "carol" "v" 50 50 false), [])].

Definition created_store : sessionStore :=
  with_sessions (newSessionStore 100 2) {["eg" := mkSession "eg" "carol" "v" 50 50 false]}.

Definition touched_store : sessionStore :=
  with_sessions created_store {["eg" := mkSession "eg" "carol" "v" 50 149 false]}.

Lemma created_history :
  history (newSessionStore 100 2) created_events created_store.
Proof. apply (history_snoc _ [] _ _ _ _ _ (history_nil _)). vm_compute. reflexivity. Qed.

Lemma validate_history_witness :
  exists pre v t x0 l0 post,
    created_events =
      pre ++ (OpCreate (Some v) "carol" "v" t, Some x0, l0) :: post /\ b64_encode v = "eg".
Proof.
  destruct (validate_history 100 2 _ _ "eg" "carol" "v" 149 (mkSession "eg" "carol" "v" 50 149 false) []
    touched_store created_history
    ltac:(vm_compute; reflexivity)) as (pre & v & t & x0 & l0 & post & H1 & H2 & _).
  exists pre, v, t, x0, l0, post. split; assumption.
Defined.
