(* ===== verification/Lifecycle.v ===== *)
(** * Admission, sessions and revocation of a gateway server
    ([internal/gateway/lifecycle.go], and the control flow of [gateway.go])

    Handlers run concurrently. [Server] is the shared state, changed by the functions
    that hold a mutex; [system] adds where each handler is, and [step] lets any of
    them go on, so a list of [step_event]s is one interleaving. *)
From S2P Require Import Prelude GoStrings Sessions.
#[local] Open Scope Z_scope.

(** ** The server *)

Record activeRequestKey := mkKey {
  AuthPrincipal : gostring; BridgeID : gostring; SessionID : gostring; ClientRequestID : gostring
}.

#[export] Instance activeRequestKey_eq_dec : EqDecision activeRequestKey.
Proof. solve_decision. Defined.

#[export] Instance activeRequestKey_countable : Countable activeRequestKey.
Proof.
  apply (inj_countable' (fun k => (AuthPrincipal k, BridgeID k, SessionID k, ClientRequestID k))
    (fun p => mkKey p.1.1.1 p.1.1.2 p.1.2 p.2)).
  by intros [].
Defined.

(** A context with its cancel function: that of an admitted request, and the one
    derived from it for a tool call. *)
Inductive ctx := Request (n : Z) | Call (n : Z).

#[export] Instance ctx_eq_dec : EqDecision ctx.
Proof. solve_decision. Defined.

#[export] Instance ctx_countable : Countable ctx.
Proof.
  apply (inj_countable' (fun c => match c with Request n => inl n | Call n => inr n end)
    (fun s => match s with inl n => Request n | inr n => Call n end)).
  by intros [].
Defined.

(** [requests] and [active] map to cancel functions: of [Request n] for [n], and of
    [Call n] for the request [n] of the entry. *)
Record Server := mkServer {
  store : sessionStore; revoked : bool; nextRequest : Z; requests : gset Z;
  active : gmap activeRequestKey Z; cancelled : gset ctx
}.

Definition with_store (s : Server) (st : sessionStore) : Server :=
  mkServer st (revoked s) (nextRequest s) (requests s) (active s) (cancelled s).
Definition with_active (s : Server) (a : gmap activeRequestKey Z) : Server :=
  mkServer (store s) (revoked s) (nextRequest s) (requests s) a (cancelled s).
Definition cancel (cs : gset ctx) (s : Server) : Server :=
  mkServer (store s) (revoked s) (nextRequest s) (requests s) (active s) (cs ∪ cancelled s).

(** A derived context is done when its parent is. *)
Definition done_ctx (s : Server) (c : ctx) : bool :=
  bool_decide (c ∈ cancelled s) ||
  match c with Request _ => false | Call n => bool_decide (Request n ∈ cancelled s) end.

Definition wrap_u64 (n : Z) : Z := n mod 2 ^ 64.

Definition admit_request (s : Server) : option Z * Server :=
  if revoked s then (None, s)
  else
    let number := wrap_u64 (nextRequest s + 1) in
    (Some number, mkServer (store s) (revoked s) number ({[number]} ∪ requests s) (active s) (cancelled s)).

Definition finishRequest (number : Z) (s : Server) : Server :=
  let s' := mkServer (store s) (revoked s) (nextRequest s) (requests s ∖ {[number]}) (active s) (cancelled s) in
  if decide (number ∈ requests s) then cancel {[Request number]} s' else s'.

Definition createSession (value : option gostring) (principal version : gostring) (now : gotime) (s : Server)
  : option (result session_error mcpSession * list mcpSession * Server) :=
  if revoked s then Some (Err ErrServerRevoked, [], s)
  else '(r, evicted, st) ← create value principal version now (store s); Some (r, evicted, with_store s st).

Definition registerActive (key : activeRequestKey) (number : Z) (s : Server) : bool * Server :=
  match active s !! key with
  | Some _ => (false, s)
  | None => (true, with_active s (<[key := number]> (active s)))
  end.

Definition removeActive (key : activeRequestKey) (s : Server) : Server := with_active s (delete key (active s)).

(** The calls of the entries that satisfy [P]. *)
Definition calls (P : activeRequestKey -> bool) (s : Server) : gset ctx :=
  list_to_set ((fun p => Call p.2) <$> filter (fun p => P p.1 = true) (map_to_list (active s))).

Definition of_session (principal sessionID : gostring) (key : activeRequestKey) : bool :=
  bool_decide (AuthPrincipal key = principal) && bool_decide (SessionID key = sessionID).

Definition terminateActive (principal sessionID : gostring) (s : Server) : Server :=
  cancel (calls (of_session principal sessionID) s) s.

(** [evictSessions]; the jobs sent to the exec worker do not change the server. *)
Definition evictSessions (l : list mcpSession) (s : Server) : Server :=
  fold_left (fun s session => terminateActive (Principal session) (ID session) s) l s.

Definition cancelNotification (meta : activeRequestKey) (targetID : gostring) (s : Server) : Server :=
  if bool_decide (AuthPrincipal meta = []) || bool_decide (BridgeID meta = []) || bool_decide (SessionID meta = []) ||
     bool_decide (targetID = []) then s
  else
    match active s !! mkKey (AuthPrincipal meta) (BridgeID meta) (SessionID meta) targetID with
    | Some number => cancel {[Call number]} s
    | None => s
    end.

(** ** Handlers and their interleaving *)

(** Where a handler is: admitted; past the session check of a [POST]; running a
    registered tool call; with sessions to evict after a store operation; after
    [markRevoking] and after [terminateActive] of a [DELETE]; about to return. *)
Inductive phase :=
  | Entered
  | Validated (meta : activeRequestKey)
  | Calling (key : activeRequestKey)
  | Evicting (l : list mcpSession)
  | Deleting (principal sessionID : gostring)
  | Terminated (principal sessionID : gostring)
  | Leaving.

(** [Revoke] after each of its critical sections: it holds the cancel functions of
    the requests, then also those of the active calls; then it has called them. *)
Inductive revoke_phase :=
  | Closed (reqs : gset Z)
  | Collected (reqs : gset Z) (acts : gset ctx)
  | RevokeDone.

Record system := mkSystem { server : Server; threads : gmap Z phase; revoker : option revoke_phase }.

Inductive step_event :=
  | EAdmit
  | ELeave (n : Z)
  | ECreate (n : Z) (value : option gostring) (principal version : gostring) (now : gotime)
  | EValidate (n : Z) (meta : activeRequestKey) (version : gostring) (now : gotime)
  | ELegacy (n : Z) (meta : activeRequestKey)
  | ERegister (n : Z)
  | EReturn (n : Z)
  | ENotify (n : Z) (targetID : gostring)
  | EEvict (n : Z)
  | EDelete (n : Z) (principal sessionID version : gostring) (now : gotime)
  | ETerminate (n : Z)
  | EDeleted (n : Z) (execRevoked : bool)
  | EFinish (n : Z)
  | EDisconnect (n : Z)
  | ERevoke (now : gotime)
  | ECollect
  | ECancelAll.

Definition move (σ : system) (n : Z) (p : phase) (s : Server) : system :=
  mkSystem s (<[n := p]> (threads σ)) (revoker σ).

(** [Evicting] only when there is something to evict. *)
Definition evicting (l : list mcpSession) (p : phase) : phase := match l with [] => p | _ => Evicting l end.

(** The first critical section of [Revoke]; a second call returns at once. *)
Definition revoke_first (now : gotime) (σ : system) : system :=
  let s := server σ in
  if revoked s then σ
  else
    let '(_, evicted, st) := snapshot now (store s) in
    let s' := evictSessions evicted (mkServer st true (nextRequest s) (requests s) (active s) (cancelled s)) in
    mkSystem (with_store s' (clear (store s'))) (threads σ) (Some (Closed (requests s))).

Definition thread_step (e : step_event) (n : Z) (p : phase) (σ : system) : option system :=
  let s := server σ in
  match e, p with
  | ELeave _, (Entered | Validated _) => Some (move σ n Leaving s)
  | ECreate _ value principal version now, Entered =>
      '(_, evicted, s') ← createSession value principal version now s;
      Some (move σ n (evicting evicted Leaving) s')
  | EValidate _ meta version now, Entered =>
      let '(r, evicted, st) := validateAndTouch (SessionID meta) (AuthPrincipal meta) version now (store s) in
      Some (move σ n (if is_ok r then Validated meta else evicting evicted Leaving) (with_store s st))
  | ELegacy _ meta, Entered => Some (move σ n (Validated meta) s)
  | ERegister _, Validated key =>
      let '(ok, s') := registerActive key n s in Some (move σ n (if ok then Calling key else Leaving) s')
  | EReturn _, Calling key => Some (move σ n Leaving (cancel {[Call n]} (removeActive key s)))
  | ENotify _ target, Validated meta => Some (move σ n Leaving (cancelNotification meta target s))
  | EEvict _, Evicting l => Some (move σ n Leaving (evictSessions l s))
  | EDelete _ principal id version now, Entered =>
      let '(r, evicted, st) := markRevoking id principal version now (store s) in
      Some (move σ n (if is_ok r then Deleting principal id else evicting evicted Leaving) (with_store s st))
  | ETerminate _, Deleting principal id => Some (move σ n (Terminated principal id) (terminateActive principal id s))
  | EDeleted _ ok, Terminated principal id =>
      Some (move σ n Leaving (if ok : bool then with_store s (deleteRevoked id principal (store s)) else s))
  | EFinish _, Leaving => Some (mkSystem (finishRequest n s) (delete n (threads σ)) (revoker σ))
  | EDisconnect _, _ => Some (mkSystem (cancel {[Request n]} s) (threads σ) (revoker σ))
  | _, _ => None
  end.

Definition event_thread (e : step_event) : option Z :=
  match e with
  | EAdmit | ERevoke _ | ECollect | ECancelAll => None
  | ELeave n | ECreate n _ _ _ _ | EValidate n _ _ _ | ELegacy n _ | ERegister n | EReturn n | ENotify n _
  | EEvict n | EDelete n _ _ _ _ | ETerminate n | EDeleted n _ | EFinish n | EDisconnect n => Some n
  end.

Definition step (e : step_event) (σ : system) : option system :=
  match event_thread e with
  | Some n => p ← threads σ !! n; thread_step e n p σ
  | None =>
      match e, revoker σ with
      | EAdmit, _ =>
          match admit_request (server σ) with
          | (Some n, s) => Some (mkSystem s (<[n := Entered]> (threads σ)) (revoker σ))
          | (None, _) => Some σ
          end
      | ERevoke now, _ => Some (revoke_first now σ)
      | ECollect, Some (Closed reqs) =>
          Some (mkSystem (server σ) (threads σ) (Some (Collected reqs (calls (fun _ => true) (server σ)))))
      | ECancelAll, Some (Collected reqs acts) =>
          Some (mkSystem (cancel (set_map Request reqs ∪ acts) (server σ)) (threads σ) (Some RevokeDone))
      | _, _ => None
      end
  end.

Fixpoint run (es : list step_event) (σ : system) : option system :=
  match es with [] => Some σ | e :: es => step e σ ≫= run es end.

Definition start (ttl max : Z) : system :=
  mkSystem (mkServer (newSessionStore ttl max) false 0 ∅ ∅ ∅) ∅ None.

(** ** Operations that only cancel *)

Record only_cancels (s s' : Server) : Prop := {
  oc_store : store s' = store s; oc_revoked : revoked s' = revoked s; oc_next : nextRequest s' = nextRequest s;
  oc_requests : requests s' = requests s; oc_active : active s' = active s; oc_cancelled : cancelled s ⊆ cancelled s'
}.

#[export] Instance only_cancels_preorder : PreOrder only_cancels.
Proof.
  split; [by split|]. intros s1 s2 s3 [] []. split; try congruence. by etrans.
Qed.

Lemma cancel_only cs s : only_cancels s (cancel cs s).
Proof. split; cbn; [done..|set_solver]. Qed.

Lemma terminateActive_only p i s : only_cancels s (terminateActive p i s).
Proof. apply cancel_only. Qed.

Lemma evictSessions_only l s : only_cancels s (evictSessions l s).
Proof.
  revert s. induction l as [|x l IH]; intros s; cbn; [done|]. etrans; [apply terminateActive_only|apply IH].
Qed.

Lemma cancelNotification_only meta t s : only_cancels s (cancelNotification meta t s).
Proof. unfold cancelNotification. repeat case_match; try done; apply cancel_only. Qed.

#[export] Hint Resolve cancel_only terminateActive_only evictSessions_only cancelNotification_only : s2p.

Lemma elem_of_calls P s n key :
  active s !! key = Some n -> P key = true -> Call n ∈ calls P s.
Proof.
  intros Ha HP. unfold calls. rewrite elem_of_list_to_set, list_elem_of_fmap. exists (key, n). split; [done|].
  apply list_elem_of_filter. split; [done|]. by apply elem_of_map_to_list.
Qed.

(** An evicted session's registered calls are cancelled. *)
Lemma evictSessions_cancels l s x key n :
  x ∈ l -> active s !! key = Some n -> of_session (Principal x) (ID x) key = true -> Call n ∈ cancelled (evictSessions l s).
Proof.
  revert s. induction l as [|y l IH]; intros s Hx Ha Hk; [by apply elem_of_nil in Hx|]. cbn.
  apply elem_of_cons in Hx as [<-|Hx].
  - apply (oc_cancelled _ _ (evictSessions_only l _)). cbn. apply elem_of_union. left. by eapply elem_of_calls.
  - apply IH; [done| |done]. by rewrite (oc_active _ _ (terminateActive_only _ _ s)).
Qed.

(** ** The invariant *)

(** [k] bounds the number of requests admitted so far. *)
Record inv (k : Z) (σ : system) : Prop := {
  i_threads : dom (threads σ) = requests (server σ);
  i_next : 0 <= nextRequest (server σ) <= k;
  i_num : forall n, n ∈ requests (server σ) -> 1 <= n <= nextRequest (server σ);
  i_store : store_ok (store (server σ));
  i_open : revoker σ = None <-> revoked (server σ) = false;
  i_empty : revoked (server σ) = true -> sessions (store (server σ)) = ∅;
  i_held : match revoker σ with
           | Some (Closed reqs) | Some (Collected reqs _) => requests (server σ) ⊆ reqs
           | Some RevokeDone => forall n, n ∈ requests (server σ) -> Request n ∈ cancelled (server σ)
           | None => True
           end;
  i_active : forall key n, active (server σ) !! key = Some n <-> threads σ !! n = Some (Calling key)
}.

Lemma start_inv ttl max : inv 0 (start ttl max).
Proof.
  split; cbn; try done. apply new_store_ok.
Qed.

Lemma inv_weaken k k' σ : k <= k' -> inv k σ -> inv k' σ.
Proof. intros Hk []. split; try done. lia. Qed.

Definition is_calling (p : phase) : bool := match p with Calling _ => true | _ => false end.

(** A change that touches neither the requests nor the active calls. *)
Record quiet (s s' : Server) : Prop := {
  q_store : store_ok (store s');
  q_empty : revoked s = true -> sessions (store s) = ∅ -> sessions (store s') = ∅;
  q_revoked : revoked s' = revoked s; q_next : nextRequest s' = nextRequest s;
  q_requests : requests s' = requests s; q_active : active s' = active s; q_cancelled : cancelled s ⊆ cancelled s'
}.

Lemma only_cancels_quiet s s' : store_ok (store s) -> only_cancels s s' -> quiet s s'.
Proof. intros Hok [Hst]. split; rewrite ?Hst; auto. Qed.

Lemma with_store_quiet s st :
  store_ok st -> (revoked s = true -> sessions (store s) = ∅ -> sessions st = ∅) -> quiet s (with_store s st).
Proof. intros Hok He. by split. Qed.

Lemma inv_quiet k sv th rv s : inv k (mkSystem sv th rv) -> quiet sv s -> inv k (mkSystem s th rv).
Proof.
  intros [] [? ? Hr Hn Hq Ha Hc]. split; cbn; rewrite ?Hr, ?Hn, ?Hq, ?Ha; try done; auto.
  cbn in *. destruct rv as [[| |]|]; auto.
Qed.

Lemma inv_phase k σ n p q :
  inv k σ -> threads σ !! n = Some p -> is_calling p = false -> is_calling q = false ->
  inv k (mkSystem (server σ) (<[n := q]> (threads σ)) (revoker σ)).
Proof.
  intros [] Hn Hp Hq. split; cbn; try done.
  - rewrite dom_insert_L, <- i_threads0. assert (n ∈ dom (threads σ)) by (apply elem_of_dom; eauto). set_solver.
  - intros key m. rewrite i_active0. destruct (decide (m = n)) as [-> |Hne].
    + rewrite Hn, lookup_insert_eq. split; intros [= E]; subst; done.
    + by rewrite lookup_insert_ne.
Qed.

Lemma inv_move k σ n p q s :
  inv k σ -> threads σ !! n = Some p -> is_calling p = false -> is_calling q = false -> quiet (server σ) s ->
  inv k (move σ n q s).
Proof.
  intros Hi Hn Hp Hq Hs. apply (inv_quiet k (server σ)); [|done]. by eapply inv_phase.
Qed.

Lemma inv_register k σ n key :
  inv k σ -> threads σ !! n = Some (Validated key) -> active (server σ) !! key = None ->
  inv k (move σ n (Calling key) (with_active (server σ) (<[key := n]> (active (server σ))))).
Proof.
  intros [] Hn Hk. split; cbn; try done.
  - rewrite dom_insert_L, <- i_threads0. assert (n ∈ dom (threads σ)) by (apply elem_of_dom; eauto). set_solver.
  - intros key' m. destruct (decide (m = n)) as [-> |Hm]; [rewrite lookup_insert_eq|rewrite (lookup_insert_ne (threads σ)) by done].
    + destruct (decide (key' = key)) as [-> |Hne]; [by rewrite lookup_insert_eq|]. rewrite lookup_insert_ne by done.
      rewrite i_active0, Hn. split; [done|]. intros [= ?]. congruence.
    + rewrite <- i_active0. destruct (decide (key' = key)) as [-> |Hne]; [|by rewrite lookup_insert_ne].
      rewrite lookup_insert_eq, Hk. split; [intros [= ?]; congruence|done].
Qed.

Lemma inv_return k σ n key :
  inv k σ -> threads σ !! n = Some (Calling key) ->
  inv k (move σ n Leaving (cancel {[Call n]} (removeActive key (server σ)))).
Proof.
  intros [] Hn. split; cbn; try done.
  - rewrite dom_insert_L, <- i_threads0. assert (n ∈ dom (threads σ)) by (apply elem_of_dom; eauto). set_solver.
  - destruct (revoker σ) as [[| |]|]; set_solver.
  - intros key' m. destruct (decide (m = n)) as [-> |Hm]; [rewrite lookup_insert_eq|rewrite (lookup_insert_ne (threads σ)) by done].
    + split; [|done]. intros [Hne Ha]%lookup_delete_Some. apply i_active0 in Ha. rewrite Hn in Ha. congruence.
    + rewrite <- i_active0, lookup_delete_Some. split; [by intros [_ ?]|]. intros Ha. split; [|done]. intros <-.
      apply i_active0 in Hn. congruence.
Qed.

Lemma inv_finish k σ n :
  inv k σ -> threads σ !! n = Some Leaving ->
  inv k (mkSystem (finishRequest n (server σ)) (delete n (threads σ)) (revoker σ)).
Proof.
  intros [] Hn. assert (Hin : n ∈ requests (server σ)) by (rewrite <- i_threads0; apply elem_of_dom; eauto).
  unfold finishRequest. rewrite decide_True by done. split; cbn; try done.
  - by rewrite dom_delete_L, i_threads0.
  - set_solver.
  - destruct (revoker σ) as [[| |]|]; set_solver.
  - intros key m. rewrite lookup_delete_Some, i_active0. split; [|by intros [_ ?]]. intros Hm. split; [|done]. congruence.
Qed.

Lemma inv_admit k σ n s :
  inv k σ -> k + 1 < 2 ^ 64 -> admit_request (server σ) = (Some n, s) -> inv (k + 1) (mkSystem s (<[n := Entered]> (threads σ)) (revoker σ)).
Proof.
  intros [] Hk. unfold admit_request. destruct (revoked (server σ)) eqn:Er; [done|]. intros [= <- <-].
  unfold wrap_u64. rewrite Z.mod_small by lia. set (n := nextRequest (server σ) + 1).
  assert (Hfresh : threads σ !! n = None).
  { apply not_elem_of_dom. rewrite i_threads0. intros Hn%i_num0. lia. }
  split; cbn; try done.
  - by rewrite dom_insert_L, i_threads0.
  - lia.
  - intros m [->%elem_of_singleton|Hm%i_num0]%elem_of_union; lia.
  - by rewrite (proj2 i_open0 eq_refl).
  - intros key m. rewrite i_active0. destruct (decide (m = n)) as [-> |Hm].
    + rewrite Hfresh, lookup_insert_eq. done.
    + by rewrite lookup_insert_ne.
Qed.

(** ** Quiet store operations *)

Lemma validate_empty id p ver now st : sessions st = ∅ -> sessions (snd (validateAndTouch id p ver now st)) = ∅.
Proof. intros E. unfold validateAndTouch. by rewrite E, lookup_empty. Qed.

Lemma mark_empty id p ver now st : sessions st = ∅ -> sessions (snd (markRevoking id p ver now st)) = ∅.
Proof. intros E. unfold markRevoking. by rewrite E, lookup_empty. Qed.

Lemma deleteRevoked_empty id p st : sessions st = ∅ -> sessions (deleteRevoked id p st) = ∅.
Proof. intros E. unfold deleteRevoked. by rewrite E, lookup_empty. Qed.

Lemma createSession_quiet v p ver now s r l s' :
  store_ok (store s) -> createSession v p ver now s = Some (r, l, s') -> quiet s s'.
Proof.
  intros Hok. unfold createSession. destruct (revoked s) eqn:Er; [intros [= _ _ <-]; by split|].
  destruct (create v p ver now (store s)) as [[[r0 l0] st]|] eqn:E; [|done]. intros [= _ _ <-].
  apply with_store_quiet; [by eapply create_ok|]. by rewrite Er.
Qed.

#[export] Hint Resolve validate_empty mark_empty deleteRevoked_empty : s2p.

Lemma evicting_calling l p : is_calling p = false -> is_calling (evicting l p) = false.
Proof. by destruct l. Qed.

Lemma thread_step_inv k e n p σ σ' :
  inv k σ -> threads σ !! n = Some p -> thread_step e n p σ = Some σ' -> inv k σ'.
Proof.
  intros Hi Hn. pose proof (i_store _ _ Hi) as Hok.
  destruct e, p; cbn [thread_step]; try done; try (intros [= <-]); try (eapply inv_move; [done|done|done|done|]);
    try (by apply only_cancels_quiet; auto with s2p).
  all: try (destruct σ as [sv th rv]; cbn in *; eapply inv_quiet; [exact Hi|apply only_cancels_quiet; auto with s2p]; fail).
  - destruct (createSession _ _ _ _ _) as [[[r l] s']|] eqn:E; [|done]. intros [= <-].
    eapply inv_move; [done..|by apply evicting_calling|by eapply createSession_quiet].
  - pose proof (validateAndTouch_ok (SessionID meta) (AuthPrincipal meta) version now _ Hok) as Hok'.
    pose proof (validate_empty (SessionID meta) (AuthPrincipal meta) version now (store (server σ))) as He.
    destruct (validateAndTouch _ _ _ _ _) as [[r l] st]. intros [= <-].
    eapply inv_move; [done..| |by apply with_store_quiet; auto]. destruct (is_ok r); [done|by apply evicting_calling].
  - unfold registerActive. destruct (active (server σ) !! meta) eqn:Ea; intros [= <-].
    + eapply inv_move; [done..|]. by apply only_cancels_quiet.
    + by apply inv_register.
  - by apply inv_return.
  - pose proof (markRevoking_ok sessionID principal version now _ Hok) as Hok'.
    pose proof (mark_empty sessionID principal version now (store (server σ))) as He.
    destruct (markRevoking _ _ _ _ _) as [[r l] st]. intros [= <-].
    eapply inv_move; [done..| |by apply with_store_quiet; auto]. destruct (is_ok r); [done|by apply evicting_calling].
  - destruct execRevoked; [|by apply only_cancels_quiet]. apply with_store_quiet; [by apply deleteRevoked_ok|]. auto with s2p.
  - by apply inv_finish.
Qed.

Lemma revoke_first_inv k now σ : inv k σ -> inv k (revoke_first now σ).
Proof.
  intros Hi. unfold revoke_first. destruct (revoked (server σ)) eqn:Er; [done|]. destruct Hi.
  unfold snapshot. pose proof (removeExpired_ok now _ i_store0) as Hst.
  destruct (removeExpiredLocked now (store (server σ))) as [ev st]. cbn [snd] in Hst.
  set (s1 := mkServer st true _ _ _ _). destruct (evictSessions_only ev s1) as [Hs Hr Hn Hq Ha Hc]. cbn in Hs, Hr, Hn, Hq, Ha, Hc.
  split; cbn; rewrite ?Hr, ?Hn, ?Hq, ?Ha, ?Hs; try done. by apply clear_ok.
Qed.

Lemma step_inv k e σ σ' :
  inv k σ -> k + 1 < 2 ^ 64 -> step e σ = Some σ' -> inv (k + 1) σ'.
Proof.
  intros Hi Hk. unfold step. destruct (event_thread e) as [n|].
  { destruct (threads σ !! n) as [p|] eqn:En; [|done]. cbn. intros Hs. eapply inv_weaken; [|by eapply thread_step_inv]. lia. }
  assert (Hw : inv (k + 1) σ) by (eapply inv_weaken; [|done]; lia).
  destruct e; try done.
  - destruct (admit_request (server σ)) as [[n|] s] eqn:Ea; intros [= <-]; [by apply inv_admit|done].
  - intros [= <-]. by apply revoke_first_inv.
  - destruct (revoker σ) as [[reqs| |]|] eqn:Er; try done. intros [= <-].
    destruct Hw. rewrite Er in *. split; cbn; try done. rewrite <- i_open0. split; done.
  - destruct (revoker σ) as [[| reqs acts|]|] eqn:Er; try done. intros [= <-].
    destruct Hw. rewrite Er in *. split; cbn; try done.
    + rewrite <- i_open0. split; done.
    + intros n Hn%i_held0. apply elem_of_union. left. apply elem_of_union. left. by apply elem_of_map_2.
Qed.

Lemma run_inv k es σ σ' :
  inv k σ -> k + len es < 2 ^ 64 -> run es σ = Some σ' -> inv (k + len es) σ'.
Proof.
  revert k σ. induction es as [|e es IH]; intros k σ Hi Hk; cbn.
  { intros [= <-]. eapply inv_weaken; [|done]. pose proof (len_nonneg (@nil step_event)). lia. }
  assert (Hlen : len (e :: es) = 1 + len es) by (unfold len; cbn [length]; lia). rewrite Hlen in *. pose proof (len_nonneg es).
  destruct (step e σ) as [σ1|] eqn:Es; [|done]. cbn. intros Hr. apply step_inv with (k := k) in Es; [|done|lia].
  replace (k + (1 + len es)) with (k + 1 + len es) by lia. eapply IH; [done|lia|done].
Qed.

Lemma run_app es1 es2 σ : run (es1 ++ es2) σ = run es1 σ ≫= run es2.
Proof. revert σ. induction es1 as [|e es1 IH]; intros σ; cbn; [done|]. destruct (step e σ); cbn; [apply IH|done]. Qed.

(** ** After revocation *)

Definition reached (ttl max : Z) (es : list step_event) (σ : system) : Prop :=
  run es (start ttl max) = Some σ /\ len es < 2 ^ 64.

Lemma reached_inv ttl max es σ : reached ttl max es σ -> inv (len es) σ.
Proof.
  intros [Hr Hl]. apply (run_inv 0) in Hr; [|apply start_inv|lia]. by rewrite Z.add_0_l in Hr.
Qed.

Lemma reached_app ttl max es es' σ σ' :
  reached ttl max es σ -> run es' σ = Some σ' -> len (es ++ es') < 2 ^ 64 -> reached ttl max (es ++ es') σ'.
Proof. intros [Hr _] Hr' Hl. split; [|done]. by rewrite run_app, Hr. Qed.

Lemma thread_step_dom e n p σ σ' :
  threads σ !! n = Some p -> thread_step e n p σ = Some σ' ->
  dom (threads σ') ⊆ dom (threads σ) /\ revoked (server σ') = revoked (server σ).
Proof.
  intros Hn. assert (Hd : n ∈ dom (threads σ)) by (apply elem_of_dom; eauto).
  assert (Hm : forall q s, revoked s = revoked (server σ) ->
    dom (threads (move σ n q s)) ⊆ dom (threads σ) /\ revoked (server (move σ n q s)) = revoked (server σ)).
  { intros q s Hs. cbn. rewrite dom_insert_L. split; [set_solver|done]. }
  destruct e, p; cbn [thread_step]; try done; try (intros [= <-]; apply Hm; cbn; try done;
    apply evictSessions_only || apply cancelNotification_only); try (by intros [= <-]).
  - destruct (createSession _ _ _ _ _) as [[[r l] s']|] eqn:E; [|done]. intros [= <-]. apply Hm. revert E.
    unfold createSession. destruct (revoked _) eqn:Er; [by intros [= _ _ <-]|]. by destruct (create _ _ _ _ _) as [[[? ?] ?]|]; [intros [= _ _ <-]|].
  - destruct (validateAndTouch _ _ _ _ _) as [[r l] st]. intros [= <-]. by apply Hm.
  - unfold registerActive. destruct (active _ !! _); intros [= <-]; by apply Hm.
  - destruct (markRevoking _ _ _ _ _) as [[r l] st]. intros [= <-]. by apply Hm.
  - intros [= <-]. apply Hm. by destruct execRevoked.
  - intros [= <-]. cbn. rewrite dom_delete_L. split; [set_solver|]. unfold finishRequest. by destruct (decide _).
Qed.

Lemma step_closed e σ σ' :
  revoked (server σ) = true -> step e σ = Some σ' ->
  dom (threads σ') ⊆ dom (threads σ) /\ revoked (server σ') = true /\ (revoker σ = Some RevokeDone -> revoker σ' = Some RevokeDone).
Proof.
  intros Hr. unfold step. destruct (event_thread e) as [n|].
  { destruct (threads σ !! n) as [p|] eqn:En; [|done]. cbn. intros Hs.
    pose proof (thread_step_dom _ _ _ _ _ En Hs) as [? Hr']. rewrite Hr' . split_and!; [done..|].
    revert Hs. destruct e, p; cbn; try done; try (by intros [= <-]).
    - destruct (createSession _ _ _ _ _) as [[[? ?] ?]|]; [|done]. by intros [= <-].
    - destruct (validateAndTouch _ _ _ _ _) as [[? ?] ?]. by intros [= <-].
    - destruct (registerActive _ _ _). by intros [= <-].
    - destruct (markRevoking _ _ _ _ _) as [[? ?] ?]. by intros [= <-]. }
  destruct e; try done.
  - unfold admit_request. rewrite Hr. by intros [= <-].
  - unfold revoke_first. rewrite Hr. by intros [= <-].
  - destruct (revoker σ) as [[| |]|]; try done. by intros [= <-].
  - destruct (revoker σ) as [[| |]|]; try done. by intros [= <-].
Qed.

Lemma run_closed es σ σ' :
  revoked (server σ) = true -> run es σ = Some σ' ->
  dom (threads σ') ⊆ dom (threads σ) /\ revoked (server σ') = true /\ (revoker σ = Some RevokeDone -> revoker σ' = Some RevokeDone).
Proof.
  revert σ. induction es as [|e es IH]; intros σ Hr; cbn; [by intros [= <-]|].
  destruct (step e σ) as [σ1|] eqn:Es; [|done]. cbn. intros Hrun.
  destruct (step_closed _ _ _ Hr Es) as (Hd & Hr1 & Hk). destruct (IH σ1 Hr1 Hrun) as (Hd2 & Hr2 & Hk2).
  split_and!; [set_solver|done|auto].
Qed.

(** C36. From the moment [Revoke] has taken its lock, whatever the handlers do and in
    whatever order, there is no session, no request is admitted and no session is
    created. Once it has returned, every request still running, and every tool call
    among them, is cancelled, including calls that registered after [Revoke] had
    collected the active ones. *)
Theorem revoke_closes_server ttl max es es' σ σ' :
  reached ttl max es σ -> revoked (server σ) = true -> run es' σ = Some σ' -> len (es ++ es') < 2 ^ 64 ->
  sessions (store (server σ')) = ∅ /\ dom (threads σ') ⊆ dom (threads σ) /\ requests (server σ') ⊆ requests (server σ) /\
  admit_request (server σ') = (None, server σ') /\
  (forall v p ver now, createSession v p ver now (server σ') = Some (Err ErrServerRevoked, [], server σ')) /\
  (revoker σ = Some RevokeDone -> forall n p, threads σ' !! n = Some p ->
     done_ctx (server σ') (Request n) = true /\ done_ctx (server σ') (Call n) = true).
Proof.
  intros Hre Hr Hrun Hl. pose proof (reached_inv _ _ _ _ Hre) as Hi.
  pose proof (reached_inv _ _ _ _ (reached_app _ _ _ _ _ _ Hre Hrun Hl)) as Hi'.
  destruct (run_closed _ _ _ Hr Hrun) as (Hd & Hr' & Hk). split_and!.
  - by apply (i_empty _ _ Hi').
  - done.
  - by rewrite <- (i_threads _ _ Hi), <- (i_threads _ _ Hi').
  - unfold admit_request. by rewrite Hr'.
  - intros. unfold createSession. by rewrite Hr'.
  - intros Hdone n p Hn. pose proof (i_held _ _ Hi') as Hh. rewrite (Hk Hdone) in Hh.
    assert (Hc : Request n ∈ cancelled (server σ')) by (apply Hh; rewrite <- (i_threads _ _ Hi'); apply elem_of_dom; eauto).
    unfold done_ctx. rewrite !orb_true_iff, !bool_decide_eq_true. auto.
Qed.

(** The table of active calls is exact in every interleaving: it maps a key to a
    request exactly while the handler of that request runs the call with that key.
    So no two calls with one key run at a time, a handler removes only its own
    entry, and none is left over. *)
Theorem active_calls_exact ttl max es σ key n :
  reached ttl max es σ ->
  (active (server σ) !! key = Some n <-> threads σ !! n = Some (Calling key)) /\
  (requests (server σ) = ∅ -> active (server σ) = ∅).
Proof.
  intros Hi%reached_inv. split; [apply (i_active _ _ Hi)|]. intros Hq. apply map_empty. intros k.
  destruct (active (server σ) !! k) as [m|] eqn:Ha; [|done]. apply (i_active _ _ Hi) in Ha.
  assert (m ∈ dom (threads σ)) as Hm by (apply elem_of_dom; eauto). rewrite (i_threads _ _ Hi), Hq in Hm. set_solver.
Qed.

(** ** Progress *)

Lemma step_thread e n p σ :
  threads σ !! n = Some p -> event_thread e = Some n -> step e σ = thread_step e n p σ.
Proof. intros Hn He. unfold step. by rewrite He, Hn. Qed.

Lemma finish_move n s σ :
  step (EFinish n) (move σ n Leaving s) = Some (mkSystem (finishRequest n s) (delete n (threads σ)) (revoker σ)).
Proof.
  rewrite (step_thread _ n Leaving); [|apply lookup_insert_eq|done]. cbn. by rewrite delete_insert_eq.
Qed.

(** Any handler can go on to its end, in at most three steps. *)
Definition finishes (σ : system) (n : Z) (k : nat) : Prop :=
  exists es σ', run es σ = Some σ' /\ (length es <= k)%nat /\ threads σ' = delete n (threads σ).

Lemma finishes_one σ n p e s :
  threads σ !! n = Some p -> event_thread e = Some n -> thread_step e n p σ = Some (move σ n Leaving s) -> finishes σ n 2.
Proof.
  intros Hn He Hs. eexists [e; EFinish n], _. split; [|split; [done|]].
  - cbn [run]. rewrite (step_thread _ _ _ _ Hn He), Hs. cbn [mbind option_bind]. by rewrite finish_move.
  - done.
Qed.

Lemma finish_thread σ n p : threads σ !! n = Some p -> finishes σ n 3.
Proof.
  assert (Hle : forall σ k, finishes σ n k -> (k <= 3)%nat -> finishes σ n 3).
  { intros σ0 k (es & σ' & ? & ? & ?) Hk. exists es, σ'. split_and!; [done|lia|done]. }
  intros Hn. destruct p as [|meta|key|l|pr i|pr i|].
  - eapply Hle; [by apply (finishes_one _ _ _ (ELeave n) (server σ) Hn)|lia].
  - eapply Hle; [by apply (finishes_one _ _ _ (ELeave n) (server σ) Hn)|lia].
  - eapply Hle; [by eapply (finishes_one _ _ _ (EReturn n))|lia].
  - eapply Hle; [by eapply (finishes_one _ _ _ (EEvict n))|lia].
  - set (s := terminateActive pr i (server σ)).
    destruct (finishes_one (move σ n (Terminated pr i) s) n (Terminated pr i) (EDeleted n false) s) as (es & σ' & Hr & Hl & Ht);
      [apply lookup_insert_eq|done|done|].
    exists (ETerminate n :: es), σ'. split; [|split; [cbn; lia|]].
    + cbn [run]. by rewrite (step_thread _ _ _ _ Hn).
    + rewrite Ht. cbn. by rewrite delete_insert_eq.
  - eapply Hle; [by apply (finishes_one _ _ _ (EDeleted n false) (server σ) Hn)|lia].
  - eexists [EFinish n], _. split; [cbn [run]; by rewrite (step_thread _ _ _ _ Hn)|split; [cbn; lia|done]].
Qed.


(** ** A call that outlives its session *)

Definition sample_key : activeRequestKey := mkKey "a" "b" "eg" "1".

(** A call passes the session check, the session is deleted, the call registers. *)
Definition delete_race : list step_event :=
  [EAdmit; ECreate 1 (Some "z") "a" "v" 0; EFinish 1; EAdmit; EAdmit; EValidate 2 sample_key "v" 1;
   EDelete 3 "a" "eg" "v" 2; ETerminate 3; EDeleted 3 true; EFinish 3; ERegister 2].

Definition raced_system : system := default (start 0 0) (run delete_race (start 100 2)).

(** The [DELETE] has returned, the session is gone, and a tool call of that session
    runs with a context that nothing has cancelled. *)
Theorem delete_misses_call :
  exists σ, reached 100 2 delete_race σ /\ sessions (store (server σ)) = ∅ /\ threads σ !! 3 = None /\
    threads σ !! 2 = Some (Calling sample_key) /\ done_ctx (server σ) (Call 2) = false.
Proof.
  exists raced_system. split; [split; vm_compute; reflexivity|]. split_and!; vm_compute; reflexivity.
Qed.

(** *** Witnesses *)

Definition revoke_run : list step_event :=
  [EAdmit; ECreate 1 (Some "z") "a" "v" 0; EFinish 1; EAdmit; EValidate 2 sample_key "v" 1; ERevoke 2; ECollect; ECancelAll].

Definition revoked_system : system := default (start 0 0) (run revoke_run (start 100 2)).
Definition late_system : system := default (start 0 0) (run [ERegister 2] revoked_system).

Lemma revoked_reached : reached 100 2 revoke_run revoked_system.
Proof. split; vm_compute; reflexivity. Qed.

Lemma revoke_closes_server_witness :
  threads late_system !! 2 = Some (Calling sample_key) /\ done_ctx (server late_system) (Call 2) = true.
Proof.
  destruct (revoke_closes_server 100 2 revoke_run [ERegister 2] revoked_system late_system revoked_reached
    ltac:(vm_compute; reflexivity) ltac:(vm_compute; reflexivity) ltac:(vm_compute; reflexivity)) as (_ & _ & _ & _ & _ & H).
  split; [vm_compute; reflexivity|].
  exact (proj2 (H ltac:(vm_compute; reflexivity) 2 (Calling sample_key) ltac:(vm_compute; reflexivity))).
Defined.

Lemma active_calls_exact_witness :
  active (server revoked_system) !! sample_key = Some 2 <-> threads revoked_system !! 2 = Some (Calling sample_key).
Proof. exact (proj1 (active_calls_exact 100 2 revoke_run revoked_system sample_key 2 revoked_reached)). Defined.

