(* ===== verification/FileEdit.v ===== *)
(** * Batch edits of the file worker ([internal/fileworker/worker.go])

    Preflight of every file of a batch, then the writes with rollback. The worker
    reaches the files through an interface ([FileSystem]); what it relies on is
    [FileSystemLaws], which leave every call free to fail. *)
From S2P Require Import Prelude GoStrings GoPath TextTypes Codec EditorConfig Diff Edit Token Workspace.
#[local] Open Scope Z_scope.

(** ** The file system of the worker *)

Class FileSystem (F : Type) := {
  fs_read : gostring -> Z -> F -> result ws_error gostring * F;
  fs_checksum : gostring -> F -> result ws_error gostring * F;
  fs_write : gostring -> gostring -> gostring -> Z -> F -> result ws_error gostring * F
}.

Definition digestBytes `{Crypto} (data : gostring) : gostring := hex_encode (sha256 data).

(** The hash a write must expect: that of the file, or none where there is no file. *)
Definition current_digest `{Crypto} (c : option gostring) : gostring := default [] (digestBytes <$> c).

(** What stands under every path, and how the operations read and change it. A write
    changes a file only when it expected what stands there. A write that reports an error has changed nothing, or, when only its last step (syncing
    the directory) failed, has taken place: this is [secureAtomicWrite_all_or_nothing]. *)
Class FileSystemLaws (F : Type) `{FileSystem F} `{Crypto} := {
  content : F -> gostring -> option gostring;
  fs_read_content path max f : content (fs_read path max f).2 = content f;
  fs_read_Ok path max f data f' : fs_read path max f = (Ok data, f') -> content f path = Some data;
  fs_checksum_content path f : content (fs_checksum path f).2 = content f;
  fs_checksum_Ok path f sum f' : fs_checksum path f = (Ok sum, f') -> digestBytes <$> content f path = Some sum;
  fs_write_Ok path data expected max f sum f' :
    fs_write path data expected max f = (Ok sum, f') ->
    content f' path = Some data /\ (forall p, p <> path -> content f' p = content f p);
  fs_write_Err path data expected max f e f' :
    fs_write path data expected max f = (Err e, f') ->
    content f' = content f \/
    (content f' path = Some data /\ forall p, p <> path -> content f' p = content f p);
  fs_write_expected path data expected max f :
    content (fs_write path data expected max f).2 path <> content f path -> expected = current_digest (content f path)
}.

(** ** Data *)

Definition maxBatchFiles : Z := 20.
Definition maxEditorConfigBytes : Z := Z.shiftl 64 10.
Definition maxEditorConfigTotal : Z := Z.shiftl 256 10.
Definition maxEditorConfigAncestors : nat := 64.

Record WireEdit := mkWireEdit { we_Old : gostring; we_New : gostring; we_Mode : gostring; we_AdaptIndentation : bool }.
Record EditFile := mkEditFile { ef_Path : gostring; ef_Edits : list WireEdit }.
Record Target := mkTarget { Path : gostring; BeforeSHA256 : gostring; AfterSHA256 : gostring }.

#[export] Instance Target_eq_dec : EqDecision Target.
Proof. solve_decision. Defined.

Record FileResult := mkFileResult {
  fr_Path : gostring; fr_Bytes : Z; fr_BeforeSHA256 : gostring; fr_AfterSHA256 : gostring;
  fr_Diff : gostring; fr_Metadata : Metadata; fr_Replacements : Z
}.

Record editPlan := mkEditPlan { plan_result : FileResult; original : gostring; updated : gostring }.

Inductive edit_error :=
  | WorkspaceError (e : ws_error) | TextError (e : text_error) | ConfigError (e : ec_error)
  | BadFileCount | PathsNotUnique | InputLimit | OutputLimit | BadEditCount | BadEditMode
  | AncestorDepth | ConfigTotal | ConfigLimit | ConfigRead (e : ws_error).

(** The responses of [edit]; those after the first write carry the category of the
    failed one. *)
Inductive edit_response :=
  | Previewed (files : list FileResult)
  | Committed (files : list FileResult)
  | Refused (e : edit_error)
  | TargetChanged
  | Incomplete (kind : ws_error) (files : list FileResult)
  | RolledBack (kind : ws_error) (files : list FileResult) (rolledBack : bool).

Definition from_text {A} (r : result text_error A) : result edit_error A :=
  match r with Ok a => Ok a | Err e => Err (TextError e) end.

(** ** Edits of the wire format *)

Definition convert_edit (indentation : Indentation) (e : WireEdit) : result edit_error Edit :=
  mode ← (if bool_decide (we_Mode e = []) || bool_decide (we_Mode e = "once") then Ok ReplaceOnce
          else if bool_decide (we_Mode e = "all") then Ok ReplaceAll else Err BadEditMode);
  Ok (mkEdit (we_Old e) (we_New e) mode (we_AdaptIndentation e) indentation).

Fixpoint convert_all (indentation : Indentation) (edits : list WireEdit) : result edit_error (list Edit) :=
  match edits with
  | [] => Ok []
  | e :: edits => x ← convert_edit indentation e; xs ← convert_all indentation edits; Ok (x :: xs)
  end.

Definition convertEdits (edits : list WireEdit) (indentation : Indentation) : result edit_error (list Edit) :=
  reject (len edits =? 0) || (DefaultMaxEdits <? len edits) with BadEditCount;
  convert_all indentation edits.

Definition editsAdaptIndentation (edits : list WireEdit) : bool := existsb we_AdaptIndentation edits.

Definition newline_of (style : NewlineStyle) : gostring :=
  match style with NewlineCRLF => [CR; LF] | NewlineCR => [CR] | _ => [LF] end.

Definition adapt_newline (separator : gostring) (e : Edit) : Edit :=
  mkEdit (Old e)
    (replace_all (replace_all (replace_all (New e) [CR; LF] [LF]) [CR] [LF]) [LF] separator)
    (Mode e) (AdaptIndentation e) (EditIndentation e).

Definition adaptEditNewlines (edits : list Edit) (style : NewlineStyle) : list Edit :=
  if decide (style = NewlineNone) then edits else adapt_newline (newline_of style) <$> edits.

Definition min64 (a b : Z) : Z := if a <? b then a else b.

Definition textLimits (max : Z) : Limits :=
  let max := if max <=? 0 then 1 else max in
  let max := min64 max hardMaxBytes in
  mkLimits max (min64 (max * 2) hardMaxBytes) (min64 (max * 2) hardMaxBytes) DefaultMaxEdits DefaultMaxMatches.

Definition diff_options (path : gostring) : DiffOptions :=
  mkDiffOptions ("a/" ++ path) ("b/" ++ path) DefaultDiffContext 0 0 0.

Section worker.
Context {F : Type} `{FileSystem F, Crypto, XText, ScriptTables, Regexp, UnicodeTables}.

(** A step of the worker: it may fail, and may leave another file system. *)
Definition job (A : Type) : Type := F -> result edit_error A * F.

#[local] Instance job_ret : MRet job := fun _ a f => (Ok a, f).
#[local] Instance job_bind : MBind job := fun _ _ k m f =>
  match m f with (Ok a, f') => k a f' | (Err e, f') => (Err e, f') end.

Definition lift {A} (r : result edit_error A) : job A := fun f => (r, f).

Definition read_file (path : gostring) (max : Z) : job gostring := fun f =>
  match fs_read path max f with (Ok d, f') => (Ok d, f') | (Err e, f') => (Err (WorkspaceError e), f') end.

(** ** Indentation from the nearest .editorconfig files *)

Definition config_path (directory : gostring) : gostring :=
  if decide (directory = DOT) then ".editorconfig" else directory ++ "/.editorconfig".
Definition relative_target (directory target : gostring) : gostring :=
  if decide (directory = DOT) then target else trim_prefix target (directory ++ "/").

(** What one directory adds: the bytes read and the configuration, if it has one. *)
Definition read_config (directory target : gostring) (totalBytes : Z) : job (Z * option EditorConfig) := fun f =>
  match fs_read (config_path directory) maxEditorConfigBytes f with
  | (Ok raw, f') =>
      if maxEditorConfigTotal <? totalBytes + len raw then (Err ConfigTotal, f')
      else
        match ParseEditorConfig raw (relative_target directory target) with
        | Ok config => (Ok (totalBytes + len raw, Some config), f')
        | Err e => (Err (ConfigError e), f')
        end
  | (Err e, f') =>
      if decide (e = Workspace.ErrNotFound) then (Ok (totalBytes, None), f')
      else if decide (e = Workspace.ErrLimitExceeded) then (Err ConfigLimit, f')
      else (Err (ConfigRead e), f')
  end.

(** The loop over the ancestors; [fuel] is what is left of their limit. *)
Fixpoint collect_configs (fuel : nat) (directory target : gostring) (configs : list EditorConfig) (totalBytes : Z)
  : job (list EditorConfig) :=
  match fuel with
  | O => lift (Err AncestorDepth)
  | S fuel =>
      '(totalBytes, config) ← read_config directory target totalBytes;
      let configs := match config with Some c => configs ++ [c] | None => configs end in
      if match config with Some c => EditorConfig.Root c | None => false end then mret configs
      else if decide (directory = DOT) then mret configs
      else collect_configs fuel (path_dir directory) target configs totalBytes
  end.

Definition indentationFor (target : gostring) : job Indentation :=
  configs ← collect_configs maxEditorConfigAncestors (path_dir target) target [] 0;
  mret (ResolveIndentation (reverse configs)).

(** ** Preflight *)

Definition total_replacements (results : list EditResult) : Z :=
  foldr (fun r n => Replacements r + n) 0 results.

(** The edit of one decoded file, without any input or output. *)
Definition edit_text (path raw : gostring) (edits : list Edit) (file : Codec.File) : result edit_error editPlan :=
  preview ← from_text (Preview file edits (diff_options path));
  let '(applied, file') := Apply file edits in
  results ← from_text applied;
  updated ← from_text (Encode file');
  Ok (mkEditPlan
        (mkFileResult path (len updated) (digestBytes raw) (digestBytes updated) (DiffText preview)
           (file_meta file') (total_replacements results))
        raw updated).

Definition plan_file (item : EditFile) (max remaining : Z) : job editPlan :=
  raw ← read_file (ef_Path item) remaining;
  file ← lift (from_text (Decode raw (textLimits max)));
  indentation ← (if editsAdaptIndentation (ef_Edits item) then indentationFor (ef_Path item)
                 else mret DefaultIndentation);
  edits ← lift (convertEdits (ef_Edits item) indentation);
  lift (edit_text (ef_Path item) raw (adaptEditNewlines edits (meta_DominantNewline (file_meta file))) file).

Fixpoint preflight_loop (files : list EditFile) (max : Z) (seen : gset gostring) (inputTotal outputTotal : Z)
  : job (list editPlan) :=
  match files with
  | [] => mret []
  | item :: files =>
      if bool_decide (ef_Path item ∈ seen) then lift (Err PathsNotUnique)
      else if max - inputTotal <=? 0 then lift (Err InputLimit)
      else
        plan ← plan_file item max (max - inputTotal);
        let outputTotal := outputTotal + len (updated plan) in
        if max <? outputTotal then lift (Err OutputLimit)
        else
          plans ← preflight_loop files max ({[ef_Path item]} ∪ seen) (inputTotal + len (original plan)) outputTotal;
          mret (plan :: plans)
  end.

Definition preflightEdits (files : list EditFile) (max : Z) : job (list editPlan) :=
  if (len files =? 0) || (maxBatchFiles <? len files) then lift (Err BadFileCount)
  else preflight_loop files max ∅ 0 0.

(** ** Commit and rollback *)

Definition plan_target (p : editPlan) : Target :=
  mkTarget (fr_Path (plan_result p)) (fr_BeforeSHA256 (plan_result p)) (fr_AfterSHA256 (plan_result p)).

Definition restoreEdit (plan : editPlan) (max : Z) (f : F) : bool * F :=
  let t := plan_target plan in
  match fs_write (Path t) (original plan) (AfterSHA256 t) max f with
  | (Ok _, f) => (true, f)
  | (Err _, f) =>
      match fs_checksum (Path t) f with
      | (Ok h, f) => (bool_decide (h = BeforeSHA256 t), f)
      | (Err _, f) => (false, f)
      end
  end.

(** The files written before, the last one first. *)
Fixpoint restore_all (written : list editPlan) (max : Z) (f : F) : bool * F :=
  match written with
  | [] => (true, f)
  | plan :: written =>
      let '(ok, f) := restoreEdit plan max f in
      let '(rest, f) := restore_all written max f in
      (ok && rest, f)
  end.

(** After the write of [plan] failed: was it undone, and did it need undoing? *)
Definition undo_failed (plan : editPlan) (max : Z) (f : F) : bool * bool * F :=
  let t := plan_target plan in
  match fs_checksum (Path t) f with
  | (Err _, f) => (false, false, f)
  | (Ok currentHash, f) =>
      if bool_decide (currentHash = AfterSHA256 t)
      then let '(ok, f) := restoreEdit plan max f in (ok, true, f)
      else if bool_decide (currentHash = BeforeSHA256 t) then (true, false, f)
      else (false, false, f)
  end.

(** [written] holds the plans written so far, the last one first. *)
Fixpoint commit (plans written : list editPlan) (max : Z) (results : list FileResult) (f : F) : edit_response * F :=
  match plans with
  | [] => (Committed results, f)
  | plan :: plans =>
      let t := plan_target plan in
      match fs_write (Path t) (updated plan) (BeforeSHA256 t) max f with
      | (Ok _, f) => commit plans (plan :: written) max results f
      | (Err e, f) =>
          let '(undone, rolledBack, f) := undo_failed plan max f in
          let '(restored, f) := restore_all written max f in
          if undone && restored
          then (RolledBack e results (rolledBack || negb (bool_decide (written = []))), f)
          else (Incomplete e results, f)
      end
  end.

Definition edit (files : list EditFile) (apply : bool) (targets : list Target) (max : Z) (f : F) : edit_response * F :=
  match preflightEdits files max f with
  | (Err e, f) => (Refused e, f)
  | (Ok plans, f) =>
      let results := plan_result <$> plans in
      if negb apply then (Previewed results, f)
      else if negb (bool_decide (plan_target <$> plans = targets)) then (TargetChanged, f)
      else commit plans [] max results f
  end.

Context `{!FileSystemLaws F}.

(** ** Preflight reads and changes nothing *)

Definition stable {A} (m : job A) : Prop := forall f, content (m f).2 = content f.

Lemma stable_lift {A} (r : result edit_error A) : stable (lift r).
Proof. done. Qed.

Lemma stable_ret {A} (a : A) : stable (mret a).
Proof. done. Qed.

Lemma stable_bind {A B} (m : job A) (k : A -> job B) : stable m -> (forall a, stable (k a)) -> stable (m ≫= k).
Proof.
  intros Hm Hk f. unfold mbind, job_bind. pose proof (Hm f) as E. destruct (m f) as [[a|e] f']; cbn in *; [|done].
  by rewrite Hk.
Qed.

Lemma stable_read path max : stable (read_file path max).
Proof.
  intros f. unfold read_file. pose proof (fs_read_content path max f). by destruct (fs_read path max f) as [[] ?].
Qed.

Lemma stable_config d t n : stable (read_config d t n).
Proof.
  intros f. unfold read_config. pose proof (fs_read_content (config_path d) maxEditorConfigBytes f).
  destruct (fs_read _ _ f) as [[raw|e] f']; by repeat case_match.
Qed.

Lemma stable_configs fuel d t cs n : stable (collect_configs fuel d t cs n).
Proof.
  revert d cs n. induction fuel as [|fuel IH]; intros d cs n; cbn [collect_configs]; [apply stable_lift|].
  apply stable_bind; [apply stable_config|]. intros [n' c]. repeat case_match; apply stable_ret || apply IH.
Qed.

Lemma stable_indentation t : stable (indentationFor t).
Proof. apply stable_bind; [apply stable_configs|intros; apply stable_ret]. Qed.

Lemma stable_plan item max r : stable (plan_file item max r).
Proof.
  unfold plan_file. repeat (apply stable_bind; [|intros]); auto using stable_read, stable_lift, stable_ret.
  case_match; [apply stable_indentation|apply stable_ret].
Qed.

Lemma stable_loop files max seen i o : stable (preflight_loop files max seen i o).
Proof.
  revert seen i o. induction files as [|item files IH]; intros seen i o; cbn [preflight_loop]; [apply stable_ret|].
  repeat case_match; try apply stable_lift. apply stable_bind; [apply stable_plan|]. intros p.
  case_match; [apply stable_lift|]. apply stable_bind; [apply IH|intros; apply stable_ret].
Qed.

Lemma stable_preflight files max : stable (preflightEdits files max).
Proof. unfold preflightEdits. case_match; [apply stable_lift|apply stable_loop]. Qed.

Lemma job_bind_Ok {A B} (m : job A) (k : A -> job B) f b f' :
  (m ≫= k) f = (Ok b, f') <-> exists a f1, m f = (Ok a, f1) /\ k a f1 = (Ok b, f').
Proof. unfold mbind, job_bind. destruct (m f) as [[a|e] f1]; naive_solver. Qed.

(** ** What a plan is *)

Definition plan_path (p : editPlan) : gostring := Path (plan_target p).
#[local] Arguments plan_path : simpl never.

(** The plan of [item] when the files are [c]: the file as it is, and what decoding,
    editing and encoding it gives. *)
Definition planned (c : gostring -> option gostring) (max : Z) (item : EditFile) (p : editPlan) : Prop :=
  c (ef_Path item) = Some (original p) /\
  exists file indentation edits,
    Decode (original p) (textLimits max) = Ok file /\ convertEdits (ef_Edits item) indentation = Ok edits /\
    edit_text (ef_Path item) (original p) (adaptEditNewlines edits (meta_DominantNewline (file_meta file))) file = Ok p.

Lemma from_text_Ok {A} (r : result text_error A) a : from_text r = Ok a <-> r = Ok a.
Proof. destruct r; cbn; naive_solver. Qed.

Lemma edit_text_Ok path raw edits file p :
  edit_text path raw edits file = Ok p ->
  plan_target p = mkTarget path (digestBytes raw) (digestBytes (updated p)) /\ original p = raw /\
  exists results file', Apply file edits = (Ok results, file') /\ Encode file' = Ok (updated p).
Proof.
  unfold edit_text. intros (preview & _ & Hk)%bind_Ok. destruct (Apply file edits) as [[results|] file'] eqn:E;
    [|by apply bind_Ok in Hk as (? & ? & _)].
  apply bind_Ok in Hk as (rs & [= <-] & (u & Hu%from_text_Ok & [= <-])%bind_Ok). split_and!; [done..|]. by eexists _, _.
Qed.

Lemma planned_target c max item p :
  planned c max item p -> plan_target p = mkTarget (ef_Path item) (digestBytes (original p)) (digestBytes (updated p)).
Proof. intros (_ & file & ind & edits & _ & _ & He). by apply edit_text_Ok in He as [-> _]. Qed.

Lemma plan_file_Ok item max r f p f' : plan_file item max r f = (Ok p, f') -> planned (content f) max item p.
Proof.
  unfold plan_file. rewrite job_bind_Ok. intros (raw & f1 & Hr & Hk).
  assert (Hraw : content f (ef_Path item) = Some raw).
  { unfold read_file in Hr. destruct (fs_read _ _ f) as [[d|] f0] eqn:E; [|done]. injection Hr as -> _. by eapply fs_read_Ok. }
  rewrite job_bind_Ok in Hk. destruct Hk as (file & f2 & [= Hd%from_text_Ok _] & Hk).
  rewrite job_bind_Ok in Hk. destruct Hk as (ind & f3 & _ & Hk).
  rewrite job_bind_Ok in Hk. destruct Hk as (edits & f4 & [= Hc _] & [= He _]).
  pose proof (edit_text_Ok _ _ _ _ _ He) as (_ & Ho & _). rewrite <- Ho in Hraw, Hd, He. split; [done|]. by exists file, ind, edits.
Qed.

Lemma preflight_loop_Ok files max seen i o f plans f' :
  preflight_loop files max seen i o f = (Ok plans, f') ->
  Forall2 (planned (content f) max) files plans /\ NoDup (ef_Path <$> files) /\ Forall (fun p => p ∉ seen) (ef_Path <$> files).
Proof.
  revert seen i o f plans f'. induction files as [|item files IH]; intros seen i o f plans f'; cbn [preflight_loop fmap list_fmap].
  { intros [= <- <-]. by split_and!; constructor. }
  case_bool_decide as Hs; [done|]. case_match; [done|]. rewrite job_bind_Ok. intros (p & f1 & Hp & Hk).
  case_match; [done|]. rewrite job_bind_Ok in Hk. destruct Hk as (ps & f2 & Hps & [= <- _]).
  pose proof (stable_plan item max (max - i) f) as Hst. rewrite Hp in Hst. cbn in Hst.
  apply plan_file_Ok in Hp. apply IH in Hps as (Hall & Hnd & Hseen). rewrite Hst in Hall. rewrite Forall_forall in Hseen.
  split_and!; [by constructor|constructor; [|done]|constructor; [done|]].
  - intros Hin. specialize (Hseen _ Hin). set_solver.
  - apply Forall_forall. intros q Hq. specialize (Hseen _ Hq). set_solver.
Qed.

Lemma preflight_Ok files max f plans f' :
  preflightEdits files max f = (Ok plans, f') ->
  Forall2 (planned (content f) max) files plans /\ NoDup (ef_Path <$> files) /\ content f' = content f.
Proof.
  intros Hpf. pose proof (stable_preflight files max f) as Hs. rewrite Hpf in Hs. cbn in Hs. split_and!; [..|done];
  unfold preflightEdits in Hpf; case_match; try done; by apply preflight_loop_Ok in Hpf as (? & ? & _).
Qed.

(** ** Rollback *)

(** From [f] to [f'] nothing changed but possibly what stands under the paths [ps]. *)
Definition only_paths (ps : list gostring) (f f' : F) : Prop := forall q, q ∉ ps -> content f' q = content f q.

Lemma only_paths_refl ps f : only_paths ps f f.
Proof. done. Qed.

Lemma only_paths_trans ps qs f1 f2 f3 : only_paths ps f1 f2 -> only_paths qs f2 f3 -> only_paths (ps ++ qs) f1 f3.
Proof. intros H12 H23 q Hq. rewrite not_elem_of_app in Hq. destruct Hq. by rewrite H23, H12. Qed.

Lemma write_only p d e max f : only_paths [p] f (fs_write p d e max f).2.
Proof.
  intros q Hq. rewrite list_elem_of_singleton in Hq. destruct (fs_write p d e max f) as [[s|er] f'] eqn:E; cbn.
  - apply fs_write_Ok in E as [_ Ho]. by apply Ho.
  - apply fs_write_Err in E as [E|[_ Ho]]; [by rewrite E|by apply Ho].
Qed.

Lemma write_value p d e max f : content (fs_write p d e max f).2 p = content f p \/ content (fs_write p d e max f).2 p = Some d.
Proof.
  destruct (fs_write p d e max f) as [[s|er] f'] eqn:E; cbn.
  - apply fs_write_Ok in E as [? _]. by right.
  - apply fs_write_Err in E as [E|[? _]]; [left; by rewrite E|by right].
Qed.

(** The digests of a plan are those of its contents. *)
Definition hashed (p : editPlan) : Prop :=
  BeforeSHA256 (plan_target p) = digestBytes (original p) /\ AfterSHA256 (plan_target p) = digestBytes (updated p).

(** Under the path of the plan stands the old content, or the new one. *)
Definition either (p : editPlan) (f : F) : Prop :=
  content f (plan_path p) = Some (original p) \/ content f (plan_path p) = Some (updated p).

Definition as_before (p : editPlan) (f : F) : Prop :=
  digestBytes <$> content f (plan_path p) = Some (digestBytes (original p)).

Lemma restoreEdit_spec p max f ok f' :
  hashed p -> restoreEdit p max f = (ok, f') ->
  only_paths [plan_path p] f f' /\ (either p f -> either p f') /\ (ok = true -> as_before p f').
Proof.
  intros [Hb Ha]. unfold restoreEdit. change (Path (plan_target p)) with (plan_path p).
  pose proof (write_only (plan_path p) (original p) (AfterSHA256 (plan_target p)) max f) as Ho.
  pose proof (write_value (plan_path p) (original p) (AfterSHA256 (plan_target p)) max f) as Hv.
  destruct (fs_write _ _ _ _ f) as [[s|er] f1] eqn:E; cbn [snd] in Ho, Hv.
  - intros [= <- <-]. apply fs_write_Ok in E as [E _]. split_and!; [done|by left|]. intros _. unfold as_before. by rewrite E.
  - pose proof (fs_checksum_content (plan_path p) f1) as Hc.
    assert (He : either p f -> either p f1) by (unfold either; destruct Hv as [-> | ->]; auto).
    destruct (fs_checksum (plan_path p) f1) as [[h|] f2] eqn:E2; cbn [snd] in Hc; intros [= <- <-]; unfold only_paths, either, as_before;
      rewrite Hc; split_and!; try done.
    intros Hh%bool_decide_eq_true. apply fs_checksum_Ok in E2. rewrite E2, Hh. exact (f_equal Some Hb).
Qed.

Lemma only_paths_other ps f f' p : only_paths ps f f' -> plan_path p ∉ ps -> (either p f -> either p f') /\ (as_before p f -> as_before p f').
Proof. intros Ho Hp. unfold either, as_before. by rewrite (Ho _ Hp). Qed.

Lemma restore_all_spec ps max f ok f' :
  Forall hashed ps -> NoDup (plan_path <$> ps) -> restore_all ps max f = (ok, f') ->
  only_paths (plan_path <$> ps) f f' /\ (forall p, p ∈ ps -> either p f -> either p f') /\
  (ok = true -> forall p, p ∈ ps -> as_before p f').
Proof.
  revert f ok. induction ps as [|p ps IH]; intros f ok Hh Hnd; cbn [restore_all].
  { intros [= <- <-]. split_and!; [done|by intros q Hq%elem_of_nil|by intros _ q Hq%elem_of_nil]. }
  apply Forall_cons in Hh as [Hp Hh]. apply NoDup_cons in Hnd as [Hnp Hnd].
  destruct (restoreEdit p max f) as [ok1 f1] eqn:E1. destruct (restore_all ps max f1) as [ok2 f2] eqn:E2. intros [= <- <-].
  apply restoreEdit_spec in E1 as (Ho1 & He1 & Hb1); [|done]. apply IH in E2 as (Ho2 & He2 & Hb2); [|done..].
  destruct (only_paths_other _ _ _ p Ho2 Hnp) as [Hep Hbp].
  split_and!; [by apply (only_paths_trans [_] _ f f1)|..].
  - intros q [-> |Hq]%elem_of_cons; [by auto|]. intros Hq'. apply He2; [done|].
    apply (only_paths_other _ _ _ q Ho1); [|done]. rewrite list_elem_of_singleton. intros E. apply Hnp. rewrite <- E. by apply list_elem_of_fmap_2.
  - intros [-> ->]%andb_true_iff q [-> |Hq]%elem_of_cons; [by auto|by apply Hb2].
Qed.

Lemma undo_failed_spec p max f undone rolled f' :
  hashed p -> undo_failed p max f = (undone, rolled, f') ->
  only_paths [plan_path p] f f' /\ (either p f -> either p f') /\ (undone = true -> as_before p f').
Proof.
  intros Hp. pose proof Hp as [Hb Ha]. unfold undo_failed. change (Path (plan_target p)) with (plan_path p).
  pose proof (fs_checksum_content (plan_path p) f) as Hc.
  destruct (fs_checksum (plan_path p) f) as [[h|] f1] eqn:E; cbn [snd] in Hc; cycle 1.
  { intros [= <- <- <-]. unfold only_paths, either. by rewrite Hc. }
  assert (Ho : only_paths [plan_path p] f f1) by (intros q _; by rewrite Hc).
  case_bool_decide as Hh; [|case_bool_decide as Hh2].
  - destruct (restoreEdit p max f1) as [ok f2] eqn:E2. intros [= <- <- <-].
    apply restoreEdit_spec in E2 as (Ho2 & He2 & Hb2); [|done]. split_and!; [|unfold either in *; by rewrite Hc in He2|done].
    intros q Hq. by rewrite Ho2, Ho.
  - intros [= <- <- <-]. unfold either, as_before. rewrite Hc. split_and!; [done..|]. intros _. apply fs_checksum_Ok in E. rewrite E, Hh2. exact (f_equal Some Hb).
  - intros [= <- <- <-]. unfold either. by rewrite Hc.
Qed.

(** ** Commit *)

(** While the batch is being written: [c0] is what stood under the paths before. *)
Record in_batch (c0 : gostring -> option gostring) (written plans : list editPlan) (f : F) : Prop := {
  ib_hashed : Forall hashed (written ++ plans);
  ib_nodup : NoDup (plan_path <$> written ++ plans);
  ib_before : forall p, p ∈ written ++ plans -> c0 (plan_path p) = Some (original p);
  ib_written : forall p, p ∈ written -> content f (plan_path p) = Some (updated p);
  ib_other : forall q, q ∉ plan_path <$> written -> content f q = c0 q
}.

Definition paths_of (ps : list editPlan) : list gostring := plan_path <$> ps.

Lemma elem_paths p ps : p ∈ ps -> plan_path p ∈ paths_of ps.
Proof. intros ?. by apply list_elem_of_fmap_2. Qed.

Lemma in_batch_next c0 written p plans f f' :
  in_batch c0 written (p :: plans) f -> content f' (plan_path p) = Some (updated p) ->
  (forall q, q <> plan_path p -> content f' q = content f q) -> in_batch c0 (p :: written) plans f'.
Proof.
  intros [Hh Hnd Hb Hw Ho] Hp Hf. assert (Hperm : (p :: written) ++ plans ≡ₚ written ++ p :: plans) by apply Permutation_middle.
  split.
  - by rewrite Hperm.
  - by rewrite Hperm.
  - intros q. rewrite Hperm. apply Hb.
  - intros q [-> |Hq]%elem_of_cons; [done|]. rewrite Hf; [by apply Hw|]. intros E. rewrite <- Hperm in Hnd.
    cbn in Hnd. apply NoDup_cons in Hnd as [Hnp _]. apply Hnp. rewrite <- E, fmap_app. apply elem_of_app. left. by apply elem_paths.
  - intros q. cbn. rewrite not_elem_of_cons. intros [Hq1 Hq2]. by rewrite Hf, Ho.
Qed.

(** The write of [p] failed, leaving [f1]. *)
Lemma undo_batch c0 written p plans f f1 f2 f3 max undone rolled restored :
  in_batch c0 written (p :: plans) f -> only_paths [plan_path p] f f1 -> either p f1 ->
  undo_failed p max f1 = (undone, rolled, f2) -> restore_all written max f2 = (restored, f3) ->
  (forall q, q ∉ paths_of (written ++ p :: plans) -> content f3 q = c0 q) /\
  (forall q, q ∈ written ++ p :: plans -> either q f3) /\
  (undone = true -> restored = true -> forall q, q ∈ written ++ p :: plans -> as_before q f3).
Proof.
  intros Hib Ho1 Hp1 Hu Hr. pose proof Hib as [Hh Hnd Hb Hw Ho].
  assert (Hperm : written ++ p :: plans ≡ₚ p :: (written ++ plans)) by (symmetry; apply Permutation_middle).
  rewrite Hperm in Hh, Hnd. apply Forall_cons in Hh as [Hhp [Hhw _]%Forall_app].
  cbn in Hnd. apply NoDup_cons in Hnd as [Hnp Hnd]. rewrite fmap_app in Hnp, Hnd. rewrite not_elem_of_app in Hnp.
  apply NoDup_app in Hnd as (Hndw & Hdisj & _). destruct Hnp as [Hnpw Hnpr].
  apply undo_failed_spec in Hu as (Ho2 & He2 & Hb2); [|done]. apply restore_all_spec in Hr as (Ho3 & He3 & Hb3); [|done..].
  assert (Hout : forall q, q <> plan_path p -> q ∉ plan_path <$> written -> content f3 q = c0 q).
  { intros q Hq Hqw. rewrite Ho3, Ho2, Ho1, Ho by (done || by rewrite list_elem_of_singleton). done. }
  destruct (only_paths_other _ _ _ p Ho3 Hnpw) as [Hep Hbp].
  assert (Hwp : forall q, q ∈ written -> plan_path q ∉ [plan_path p]).
  { intros q Hq. rewrite list_elem_of_singleton. intros E. apply Hnpw. rewrite <- E. by apply elem_paths. }
  assert (Hrest : forall q, q ∈ plans -> content f3 (plan_path q) = Some (original q)).
  { intros q Hq. rewrite Hout; [apply Hb; rewrite Hperm; set_solver|..].
    - intros E. apply Hnpr. rewrite <- E. by apply elem_paths.
    - intros Hqw. apply (Hdisj _ Hqw). by apply elem_paths. }
  split_and!.
  - intros q Hq. unfold paths_of in Hq. rewrite Hperm, fmap_cons, fmap_app in Hq. rewrite not_elem_of_cons, not_elem_of_app in Hq. apply Hout; naive_solver.
  - intros q. rewrite Hperm, elem_of_cons, elem_of_app. intros [-> |[Hq|Hq]]; [by auto| |left; by apply Hrest].
    apply He3; [done|]. apply (only_paths_other _ _ _ _ Ho2 (Hwp q Hq)), (only_paths_other _ _ _ _ Ho1 (Hwp q Hq)).
    right. by apply Hw.
  - intros Hu Hr q. rewrite Hperm, elem_of_cons, elem_of_app. intros [-> |[Hq|Hq]]; [by auto|by apply Hb3|].
    unfold as_before. by rewrite Hrest.
Qed.

(** What a response of [commit] says about the files of the batch. *)
Definition commit_says (ps : list editPlan) (results : list FileResult) (r : edit_response) (f : F) : Prop :=
  match r with
  | Committed rs => rs = results /\ forall p, p ∈ ps -> content f (plan_path p) = Some (updated p)
  | RolledBack _ rs _ => rs = results /\ forall p, p ∈ ps -> as_before p f
  | Incomplete _ rs => rs = results
  | _ => False
  end.

Lemma commit_spec c0 plans written max results f r f' :
  in_batch c0 written plans f -> commit plans written max results f = (r, f') ->
  (forall q, q ∉ paths_of (written ++ plans) -> content f' q = c0 q) /\
  (forall p, p ∈ written ++ plans -> either p f') /\ commit_says (written ++ plans) results r f'.
Proof.
  revert written f. induction plans as [|p plans IH]; intros written f Hib; cbn [commit].
  { intros [= <- <-]. rewrite app_nil_r. destruct Hib as [_ _ _ Hw Ho]. split_and!; [done|intros p Hp; right; by apply Hw|by split]. }
  change (Path (plan_target p)) with (plan_path p).
  pose proof (write_only (plan_path p) (updated p) (BeforeSHA256 (plan_target p)) max f) as Ho1.
  pose proof (write_value (plan_path p) (updated p) (BeforeSHA256 (plan_target p)) max f) as Hv1.
  assert (Hperm : (p :: written) ++ plans ≡ₚ written ++ p :: plans) by apply Permutation_middle.
  destruct (fs_write _ _ _ _ f) as [[s|e] f1] eqn:Ew; cbn [snd] in Ho1, Hv1.
  - apply fs_write_Ok in Ew as [Hw1 Ho1']. intros Hc. apply (IH (p :: written)) in Hc as (H1' & H2' & H3'); [|by eapply in_batch_next].
    split_and!.
    + intros q Hq. apply H1'. unfold paths_of. by rewrite Hperm.
    + intros q. rewrite <- Hperm. apply H2'.
    + destruct r; cbn in *; try done; destruct H3' as [? H3']; (split; [done|]); intros q; rewrite <- Hperm; apply H3'.
  - destruct (undo_failed p max f1) as [[undone rolled] f2] eqn:Eu. destruct (restore_all written max f2) as [restored f3] eqn:Er.
    intros Hc. assert (Hp1 : either p f1).
    { destruct Hv1 as [E|E]; [left|by right]. rewrite E. destruct Hib as [_ Hnd Hb _ Ho]. rewrite Ho; [apply Hb; set_solver|].
      rewrite <- Hperm in Hnd. cbn in Hnd. apply NoDup_cons in Hnd as [Hnp _]. rewrite fmap_app in Hnp. set_solver. }
    destruct (undo_batch _ _ _ _ _ _ _ _ _ _ _ _ Hib Ho1 Hp1 Eu Er) as (Ha & Hb & Hd).
    destruct undone, restored; injection Hc as <- <-; split_and!; try done; cbn; try done. split; [done|by apply Hd].
Qed.

(** ** The whole operation *)

Lemma planned_path c max item p : planned c max item p -> plan_path p = ef_Path item.
Proof. intros Hp. unfold plan_path. by rewrite (planned_target _ _ _ _ Hp). Qed.

Lemma planned_hashed c max item p : planned c max item p -> hashed p.
Proof. intros Hp. unfold hashed. by rewrite (planned_target _ _ _ _ Hp). Qed.

Lemma planned_paths c max files plans : Forall2 (planned c max) files plans -> plan_path <$> plans = ef_Path <$> files.
Proof. induction 1 as [|item p files plans Hp _ IH]; [done|]. cbn. by rewrite IH, (planned_path _ _ _ _ Hp). Qed.

Lemma start_batch max files plans f f' :
  Forall2 (planned (content f) max) files plans -> NoDup (ef_Path <$> files) -> content f' = content f ->
  in_batch (content f) [] plans f'.
Proof.
  intros Hp Hnd Hc. split; cbn.
  - apply Forall2_Forall_r with (P := planned (content f) max) (l := files); [done|]. apply Forall_forall. intros item _ p. apply planned_hashed.
  - by rewrite (planned_paths _ _ _ _ Hp).
  - intros p Hpin. apply list_elem_of_lookup in Hpin as [i Hi]. apply (Forall2_lookup_r _ _ _ _ _ Hp) in Hi as (item & _ & Hi).
    rewrite (planned_path _ _ _ _ Hi). apply Hi.
  - intros p Hpin. by apply elem_of_nil in Hpin.
  - intros q _. by rewrite Hc.
Qed.

(** The files of the batch are exactly those the targets name, with these digests. *)
Definition digest_at (f : F) (path sum : gostring) : Prop := digestBytes <$> content f path = Some sum.


(** What a preview or a committed batch reports for each file is what decoding the
    file, adapting and applying the edits, and encoding the result gives; the paths
    are distinct. *)
Theorem edit_results_exact files apply targets max f r f' results :
  edit files apply targets max f = (r, f') -> r = Previewed results \/ r = Committed results ->
  exists plans, results = plan_result <$> plans /\ NoDup (ef_Path <$> files) /\
    Forall2 (planned (content f) max) files plans /\
    (r = Committed results -> forall p, p ∈ plans -> content f' (plan_path p) = Some (updated p)).
Proof.
  unfold edit. destruct (preflightEdits files max f) as [[plans|e] f1] eqn:Epf; [|intros [= <- <-]; by intros [|]].
  apply preflight_Ok in Epf as (Hall & Hnd & Hc). intros Hed Hr. exists plans.
  destruct apply; cbn [negb] in Hed; [|injection Hed as <- <-; destruct Hr as [[= <-]|]; by split_and!].
  case_bool_decide as Ht; cbn [negb] in Hed; [|injection Hed as <- <-; by destruct Hr].
  apply (commit_spec (content f)) in Hed as (_ & _ & Hs); [|by apply (start_batch max files)].
  destruct Hr as [-> | ->]; [done|]. cbn in Hs. destruct Hs as [-> Hs]. by split_and!.
Qed.

End worker.

(** ** A file system whose calls fail when told to *)

Record flaky := mkFlaky { disk : gmap gostring gostring; failures : list bool }.

Definition next_fails (f : flaky) : bool := default false (head (failures f)).
Definition after_call (f : flaky) : flaky := mkFlaky (disk f) (tail (failures f)).

#[export] Instance flaky_fs `{Crypto} : FileSystem flaky := {|
  fs_read path max f :=
    (if next_fails f then Err ErrIO
     else match disk f !! path with
          | None => Err Workspace.ErrNotFound
          | Some d => if max <? len d then Err Workspace.ErrLimitExceeded else Ok d
          end, after_call f);
  fs_checksum path f :=
    (if next_fails f then Err ErrIO
     else match disk f !! path with None => Err Workspace.ErrNotFound | Some d => Ok (digestBytes d) end, after_call f);
  fs_write path data expected max f :=
    if bool_decide (default [] (digestBytes <$> disk f !! path) = expected) && (len data <=? max)
    then (if next_fails f then Err ErrIO else Ok (digestBytes data), mkFlaky (<[path := data]> (disk f)) (tail (failures f)))
    else (Err Workspace.ErrConflict, after_call f)
|}.

#[export] Program Instance flaky_laws `{Crypto} : FileSystemLaws flaky := {| content f path := disk f !! path |}.
Next Obligation. by intros. Qed.
Next Obligation.
  cbn. intros _ path max f data f'. destruct (next_fails f); [done|]. destruct (disk f !! path); [|done]. by destruct (max <? _); [|intros [= <- _]].
Qed.
Next Obligation. by intros. Qed.
Next Obligation. cbn. intros ? path f sum f'. destruct (next_fails f); [done|]. by destruct (disk f !! path); [intros [= <- _]|]. Qed.
Next Obligation.
  cbn. intros ? path data expected max f sum f'. case_match; [|done]. intros [= _ <-]. cbn.
  split; [apply lookup_insert_eq|]. intros p Hp. by apply lookup_insert_ne.
Qed.
Next Obligation.
  cbn. intros ? path data expected max f e f'. case_match; intros [= _ <-]; [right|by left]. cbn.
  split; [apply lookup_insert_eq|]. intros p Hp. by apply lookup_insert_ne.
Qed.
Next Obligation.
  cbn. intros ? path data expected max f Hc. unfold current_digest. case_match eqn:E; [|done]. by apply andb_true_iff in E as [->%bool_decide_eq_true _].
Qed.

(** *** Witnesses *)

Definition sample_disk : gmap gostring gostring := {["a" := "x"; "b" := "xx"]}.
Definition sample_batch : list EditFile := [mkEditFile "a" [mkWireEdit "x" "y" [] false]; mkEditFile "b" [mkWireEdit "xx" "z" "once" false]].

Definition sample_edit (apply : bool) (targets : list Target) (f : flaky) : edit_response * flaky :=
  @edit flaky (@flaky_fs toy_crypto) toy_crypto latin1_xtext no_scripts star_regexp ascii_tables sample_batch apply targets 100 f.

Definition sample_targets : list Target :=
  match (sample_edit false [] (mkFlaky sample_disk [])).1 with
  | Previewed rs => (fun x => mkTarget (fr_Path x) (fr_BeforeSHA256 x) (fr_AfterSHA256 x)) <$> rs
  | _ => []
  end.

Definition committed (r : edit_response) : list FileResult := match r with Committed rs => rs | _ => [] end.
Definition rolled_back (r : edit_response) : bool := match r with RolledBack _ _ b => b | _ => false end.


Lemma edit_results_exact_witness :
  exists plans, committed (sample_edit true sample_targets (mkFlaky sample_disk [])).1 = plan_result <$> plans /\ length plans = 2%nat.
Proof.
  assert (Hr : (sample_edit true sample_targets (mkFlaky sample_disk [])).1 = Committed (committed (sample_edit true sample_targets (mkFlaky sample_disk [])).1))
    by (vm_compute; reflexivity).
  destruct (@edit_results_exact flaky _ toy_crypto latin1_xtext no_scripts star_regexp ascii_tables flaky_laws sample_batch true sample_targets 100
    (mkFlaky sample_disk []) _ _ _ (surjective_pairing _) (or_intror Hr)) as (plans & Hp & _ & Hall & _).
  exists plans. split; [exact Hp|]. apply Forall2_length in Hall. symmetry. exact Hall.
Defined.

(** ** The in-process executor of the gateway ([internal/gateway/executor.go])

    [legacyExecutor.edit] commits a batch in the same way, but does not look at the
    file whose write failed. *)
Section legacy.
Context {F : Type} `{FileSystem F}.

Fixpoint legacy_restore (written : list editPlan) (max : Z) (f : F) : bool * F :=
  match written with
  | [] => (true, f)
  | plan :: written =>
      let t := plan_target plan in
      let '(r, f) := fs_write (Path t) (original plan) (AfterSHA256 t) max f in
      let '(rest, f) := legacy_restore written max f in
      (is_ok r && rest, f)
  end.

Fixpoint legacy_commit (plans written : list editPlan) (max : Z) (results : list FileResult) (f : F) : edit_response * F :=
  match plans with
  | [] => (Committed results, f)
  | plan :: plans =>
      let t := plan_target plan in
      match fs_write (Path t) (updated plan) (BeforeSHA256 t) max f with
      | (Ok _, f) => legacy_commit plans (plan :: written) max results f
      | (Err e, f) =>
          let '(restored, f) := legacy_restore written max f in
          if restored then (RolledBack e results (negb (bool_decide (written = []))), f) else (Incomplete e results, f)
      end
  end.
End legacy.

Definition sample_plan : editPlan :=
  mkEditPlan (mkFileResult "a" 1 (@digestBytes toy_crypto "x") (@digestBytes toy_crypto "y") [] (detected_meta EncodingUTF8 BOMNone (Float64.of_Z 1)) 1) "x" "y".

(** A write that takes place and then reports an error is reported as rolled back
    although the file has its new content; the worker's own [commit] restores it. *)
Lemma legacy_commit_not_undone :
  exists f', @legacy_commit flaky (@flaky_fs toy_crypto) [sample_plan] [] 100 [] (mkFlaky sample_disk [true]) = (RolledBack ErrIO [] false, f') /\
    disk f' !! "a" = Some "y".
Proof. eexists. split; [vm_compute; reflexivity|]. vm_compute. reflexivity. Qed.
