(* ===== verification/FileJob.v ===== *)
(** * Jobs of the file worker ([internal/fileworker/client.go], [worker.go])

    The gateway's executor turns a request into a job and signs a capability for it;
    the worker recomputes the scope from the job and verifies the capability before
    it does anything. *)
From S2P Require Import Prelude GoStrings Base64 Utf8 GoPath Token Capability FileEdit.
#[local] Open Scope Z_scope.

Definition FileWorkerType : gostring := "file".
Definition MaxBinaryBytes : Z := Z.shiftl 2 20.
Definition MaxImageBytes : Z := Z.shiftl 10 20.
Definition MaxLineRange : Z := 10000.

(** The request of the gateway, and the scope of the request it belongs to. *)
Record Request := mkRequest {
  rq_TokenID : gostring; rq_Operation : gostring; rq_Path : gostring; rq_Paths : list gostring; rq_MaxBytes : Z;
  rq_StartLine : Z; rq_EndLine : Z; rq_MaxEntries : Z; rq_MaxFiles : Z; rq_MaxResults : Z; rq_Pattern : gostring;
  rq_Query : gostring; rq_Data : gostring; rq_ExpectedHash : gostring; rq_Edits : list WireEdit;
  rq_Files : list EditFile; rq_Apply : bool; rq_Targets : list FileEdit.Target
}.

Record Meta := mkMeta {
  m_RequestID : gostring; m_BridgeID : gostring; m_SessionID : gostring; m_ClientRequestID : gostring;
  m_AuthPrincipal : gostring; m_RemoteIP : gostring; m_PolicyID : gostring; m_PolicyDecision : gostring; m_ApprovalRequired : bool
}.

(** The fields of a job that [jobArgumentsDigest] covers. *)
Record Arguments := mkArguments {
  a_Operation : gostring; a_Path : gostring; a_Paths : list gostring; a_MaxBytes : Z; a_StartLine : Z;
  a_EndLine : Z; a_MaxEntries : Z; a_MaxFiles : Z; a_MaxResults : Z; a_Pattern : gostring; a_Query : gostring;
  a_ExpectedHash : gostring; a_ContentSHA256 : gostring; a_Edits : list WireEdit; a_Files : list EditFile;
  a_Apply : bool; a_Targets : list FileEdit.Target
}.

Record Job := mkJob {
  j_Token : gostring; j_TokenID : gostring; j_WorkerType : gostring; j_Meta : Meta; j_WorkerPolicyID : gostring;
  j_ArgumentsSHA256 : gostring; j_Data : gostring; j_Arguments : Arguments
}.

(** [json.Marshal] of the arguments. *)
Class ArgumentsJson := { marshal_arguments : Arguments -> gostring }.

Inductive job_error :=
  | IncompleteJob | WrongWorkerType | PathInvalid | SearchTooLong | BadExpectedHash | ArgumentMismatch
  | BadOperationFields | UnknownOperation | BadTargetHash | PolicyMismatch | CapabilityRejected (e : cap_error)
  | NotSingleUse | IdentityMismatch | ScopeIncomplete.

#[export] Instance claims_error_eq_dec : EqDecision claims_error.
Proof. solve_decision. Defined.
#[export] Instance cap_error_eq_dec : EqDecision cap_error.
Proof. solve_decision. Defined.
#[export] Instance job_error_eq_dec : EqDecision job_error.
Proof. solve_decision. Defined.

Section job.
Context `{Crypto, UnicodeTables, ArgumentsJson, Ed25519, Json Claims}.

Definition jobArgumentsDigest (j : Job) : gostring := digestBytes (marshal_arguments (j_Arguments j)).

Definition digestOptional (value : gostring) : gostring := if decide (value = []) then [] else digestBytes value.

(** ** From a request to a job *)

Definition normalize (p : gostring) : result job_error gostring :=
  match NormalizePath p with Ok q => Ok q | Err _ => Err PathInvalid end.

Fixpoint normalize_all {A} (get : A -> gostring) (set : A -> gostring -> A) (l : list A) : result job_error (list A) :=
  match l with
  | [] => Ok []
  | x :: l => p ← normalize (get x); l' ← normalize_all get set l; Ok (set x p :: l')
  end.

Definition set_file_path (x : EditFile) (p : gostring) : EditFile := mkEditFile p (ef_Edits x).
Definition set_target_path (t : FileEdit.Target) (p : gostring) : FileEdit.Target :=
  FileEdit.mkTarget p (BeforeSHA256 t) (AfterSHA256 t).

(** The path of a job that names several files is that of the first. *)
Definition default_path (r : Request) : gostring :=
  if decide (rq_Path r = []) then
    match rq_Paths r, rq_Files r, rq_Targets r with
    | p :: _, _, _ => p
    | [], f :: _, _ => ef_Path f
    | [], [], t :: _ => FileEdit.Path t
    | [], [], [] => []
    end
  else rq_Path r.

Definition jobFromRequest (r : Request) (meta : Meta) (workerPolicy : gostring) : result job_error Job :=
  path ← normalize (default_path r);
  paths ← normalize_all id (fun _ p => p) (rq_Paths r);
  files ← normalize_all ef_Path set_file_path (rq_Files r);
  targets ← normalize_all FileEdit.Path set_target_path (rq_Targets r);
  let data := if decide (rq_Data r = []) then [] else std_encode (rq_Data r) in
  let contentHash := if decide (rq_Data r = []) then [] else digestBytes (rq_Data r) in
  let args := mkArguments (rq_Operation r) path paths (rq_MaxBytes r) (rq_StartLine r) (rq_EndLine r) (rq_MaxEntries r)
                (rq_MaxFiles r) (rq_MaxResults r) (rq_Pattern r) (rq_Query r) (rq_ExpectedHash r) contentHash
                (rq_Edits r) files (rq_Apply r) targets in
  Ok (mkJob [] (rq_TokenID r) FileWorkerType meta workerPolicy (digestBytes (marshal_arguments args)) data args).

(** ** Checks of the worker *)

Definition check_path (p : gostring) : result job_error unit := reject negb (is_normalized p) with PathInvalid; Ok tt.

Definition bad_target_hash (t : FileEdit.Target) : bool :=
  negb (optional_SHA256 (BeforeSHA256 t)) || negb (optional_SHA256 (AfterSHA256 t)).

Definition validateNormalizedPaths (j : Job) : result job_error unit :=
  let a := j_Arguments j in
  reject negb (is_normalized (a_Path a)) with PathInvalid;
  reject negb (forallb is_normalized (a_Paths a)) with PathInvalid;
  reject negb (forallb is_normalized (ef_Path <$> a_Files a)) with PathInvalid;
  reject negb (forallb is_normalized (FileEdit.Path <$> a_Targets a)) with PathInvalid;
  reject existsb bad_target_hash (a_Targets a) with BadTargetHash;
  Ok tt.

Definition validateLineRange (first last : Z) : bool :=
  ((first =? 0) && (last =? 0)) ||
  negb ((first <? 1) || (last <? 1) || (last <? first) || (MaxLineRange <? last - first + 1)).

(** The data of a job: canonical base64 with the content digest it declares. *)
Definition decodeJobData (j : Job) : option gostring :=
  match std_decode (j_Data j) with
  | Some data => if bool_decide (std_encode data = j_Data j) && bool_decide (digestBytes data = a_ContentSHA256 (j_Arguments j))
                 then Some data else None
  | None => None
  end.

Definition isSome {A} (o : option A) : bool := match o with Some _ => true | None => false end.

Definition empty {A} (l : list A) : bool := match l with [] => true | _ => false end.

(** The fields an operation must and must not have. *)
Definition fields_ok (j : Job) : option bool :=
  let a := j_Arguments j in
  let noSearch := empty (a_Pattern a) && empty (a_Query a) && (a_MaxFiles a =? 0) && (a_MaxResults a =? 0) in
  let noWrite := empty (j_Data j) && empty (a_ExpectedHash a) && empty (a_ContentSHA256 a) && empty (a_Edits a) &&
                 empty (a_Files a) && negb (a_Apply a) && empty (a_Targets a) in
  let noRange := (a_StartLine a =? 0) && (a_EndLine a =? 0) in
  let bytes := 0 <? a_MaxBytes a in
  let noEntries := a_MaxEntries a =? 0 in
  let op := a_Operation a in
  if decide (op = "read_file") then
    Some (bytes && noEntries && empty (a_Paths a) && noSearch && noWrite && validateLineRange (a_StartLine a) (a_EndLine a))
  else if decide (op = "read_binary") then
    Some (bytes && (a_MaxBytes a <=? MaxBinaryBytes) && noEntries && empty (a_Paths a) && noSearch && noWrite && noRange)
  else if decide (op = "read_image") then
    Some (bytes && (a_MaxBytes a <=? MaxImageBytes) && noEntries && empty (a_Paths a) && noSearch && noWrite && noRange)
  else if decide (op = "multi_read") then
    Some (bytes && negb (empty (a_Paths a)) && (len (a_Paths a) <=? maxBatchFiles) && noEntries && noSearch && noWrite && noRange)
  else if decide (op = "list_dir") then
    Some ((0 <? a_MaxEntries a) && (a_MaxBytes a =? 0) && empty (a_Paths a) && noSearch && noWrite && noRange)
  else if decide (op = "checksum" \/ op = "file_info") then
    Some ((a_MaxBytes a =? 0) && noEntries && empty (a_Paths a) && noSearch && noWrite && noRange)
  else if decide (op = "glob") then
    Some (negb (empty (a_Pattern a)) && empty (a_Query a) && (0 <? a_MaxFiles a) && (0 <? a_MaxResults a) &&
          (a_MaxBytes a =? 0) && noEntries && noWrite && noRange)
  else if decide (op = "grep") then
    Some (negb (empty (a_Query a)) && empty (a_Pattern a) && (0 <? a_MaxFiles a) && (0 <? a_MaxResults a) &&
          bytes && noEntries && noWrite && noRange)
  else if decide (op = "diff") then
    Some (bytes && negb (empty (a_ContentSHA256 a)) && negb (empty (j_Data j)) && empty (a_Edits a) && empty (a_Files a) &&
          negb (a_Apply a) && empty (a_Targets a) && noSearch && noRange && isSome (decodeJobData j))
  else if decide (op = "edit") then
    Some (bytes && negb (empty (a_Edits a)) && empty (a_Files a) && empty (j_Data j) && empty (a_ContentSHA256 a) &&
          noSearch && noRange && (len (a_Targets a) =? if a_Apply a then 1 else 0))
  else if decide (op = "multi_edit") then
    Some (bytes && negb (empty (a_Files a)) && (len (a_Files a) <=? maxBatchFiles) && empty (a_Edits a) && empty (j_Data j) &&
          empty (a_ContentSHA256 a) && noSearch && noRange && (len (a_Targets a) =? if a_Apply a then len (a_Files a) else 0))
  else if decide (op = "write_file") then
    Some (bytes && noEntries && noSearch && noRange && negb (empty (a_ContentSHA256 a)) && empty (a_Edits a) &&
          empty (a_Files a) && negb (a_Apply a) && empty (a_Targets a) && isSome (decodeJobData j))
  else None.

Definition validateOperationFields (j : Job) : result job_error unit :=
  match fields_ok j with
  | Some true => Ok tt
  | Some false => Err BadOperationFields
  | None => Err UnknownOperation
  end.

Definition capability_target (t : FileEdit.Target) : Capability.Target :=
  Capability.mkTarget (FileEdit.Path t) (BeforeSHA256 t) (AfterSHA256 t).

Definition job_scope (j : Job) : Scope :=
  let a := j_Arguments j in
  let m := j_Meta j in
  mkScope (j_WorkerType j) (m_RequestID m) (m_BridgeID m) (m_SessionID m) (m_ClientRequestID m) (m_AuthPrincipal m)
    (a_Operation a) (a_Path a) (capability_target <$> a_Targets a) (m_PolicyID m) (j_WorkerPolicyID j)
    (m_PolicyDecision m) (m_ApprovalRequired m) (j_ArgumentsSHA256 j) (a_MaxBytes a) (a_StartLine a) (a_EndLine a)
    (a_MaxEntries a) (a_MaxFiles a) (a_MaxResults a) (a_ExpectedHash a) (a_ContentSHA256 a)
    (digestOptional (a_Pattern a)) (digestOptional (a_Query a)).

Definition scopeForJob (j : Job) : result job_error Scope :=
  let a := j_Arguments j in
  let m := j_Meta j in
  reject empty (j_WorkerType j) || empty (m_RequestID m) || empty (m_SessionID m) || empty (a_Operation a) ||
         empty (a_Path a) || empty (m_PolicyID m) || empty (j_WorkerPolicyID j) || empty (j_TokenID j) with IncompleteJob;
  reject negb (bool_decide (j_WorkerType j = FileWorkerType)) with WrongWorkerType;
  _ ← validateNormalizedPaths j;
  reject (1024 <? len (a_Pattern a)) || (1024 <? len (a_Query a)) with SearchTooLong;
  reject negb (optional_SHA256 (a_ExpectedHash a)) with BadExpectedHash;
  reject negb (validSHA256 (j_ArgumentsSHA256 j)) || negb (bool_decide (j_ArgumentsSHA256 j = jobArgumentsDigest j))
    with ArgumentMismatch;
  _ ← validateOperationFields j;
  Ok (job_scope j).

(** The claims of the scope, for one use. *)
Definition claims_of (s : Scope) (tokenID : gostring) (expiresAt : gotime) : Claims :=
  mkClaims tokenID (s_WorkerType s) (s_RequestID s) (s_BridgeID s) (s_SessionID s) (s_ClientRequestID s)
    (s_AuthPrincipal s) (s_Operation s) (s_Path s) (s_Targets s) (s_PolicyID s) (s_WorkerPolicyID s)
    (s_PolicyDecision s) (s_ApprovalRequired s) (s_ArgumentsSHA256 s) (s_MaxBytes s) (s_StartLine s) (s_EndLine s)
    (s_MaxEntries s) (s_MaxFiles s) (s_MaxResults s) (s_ExpectedHash s) (s_ContentSHA256 s) (s_PatternSHA256 s)
    (s_QuerySHA256 s) expiresAt true.

Definition claimsForJob (j : Job) (tokenID : gostring) (expiresAt : gotime) : result job_error Claims :=
  scope ← scopeForJob j; Ok (claims_of scope tokenID expiresAt).

(** ** Authorisation *)

Definition authorize (policyID : gostring) (caps : Verifier) (j : Job) (now : gotime) : result job_error Claims * Verifier :=
  if empty (j_Token j) then (Err IncompleteJob, caps)
  else if negb (bool_decide (j_WorkerPolicyID j = policyID)) then (Err PolicyMismatch, caps)
  else
    match scopeForJob j with
    | Err e => (Err e, caps)
    | Ok scope =>
        match Verify caps (j_Token j) scope now with
        | (Err e, caps) => (Err (CapabilityRejected e), caps)
        | (Ok claims, caps) =>
            if negb (c_SingleUse claims) then (Err NotSingleUse, caps)
            else if negb (bool_decide (c_TokenID claims = j_TokenID j)) then (Err IdentityMismatch, caps)
            else (Ok claims, caps)
        end
    end.

Definition capabilityTTL : Z := 30 * second.

Definition with_token (j : Job) (tokenID token : gostring) : Job :=
  mkJob token tokenID (j_WorkerType j) (j_Meta j) (j_WorkerPolicyID j) (j_ArgumentsSHA256 j) (j_Data j) (j_Arguments j).

(** The job that [ProcessExecutor.Execute] sends; [fresh] is the identifier it makes
    up when the request has none, [now] and [later] its two readings of the clock. *)
Definition signed_job (key policyID fresh : gostring) (r : Request) (meta : Meta) (now later : gotime)
  : result job_error Job :=
  reject empty (m_RequestID meta) || empty (m_SessionID meta) || empty (m_PolicyID meta) || empty (m_PolicyDecision meta)
    with ScopeIncomplete;
  j ← jobFromRequest r meta policyID;
  let tokenID := if empty (rq_TokenID r) then fresh else rq_TokenID r in
  let j := with_token j tokenID [] in
  claims ← claimsForJob j tokenID (now + capabilityTTL);
  match Sign key claims later with
  | Ok token => Ok (with_token j tokenID token)
  | Err e => Err (CapabilityRejected e)
  end.

Definition isCommitRequest (r : Request) : bool :=
  bool_decide (rq_Operation r = "write_file") ||
  (rq_Apply r && (bool_decide (rq_Operation r = "edit") || bool_decide (rq_Operation r = "multi_edit"))).

(** ** What an authorised job guarantees *)

Lemma scopeForJob_Ok j s :
  scopeForJob j = Ok s ->
  s = job_scope j /\ j_WorkerType j = FileWorkerType /\ j_TokenID j <> [] /\
  j_ArgumentsSHA256 j = jobArgumentsDigest j /\ validateNormalizedPaths j = Ok tt /\ fields_ok j = Some true.
Proof.
  unfold scopeForJob. intros [Hi Hx]%guard_Ok. apply guard_Ok in Hx as [Ht%negb_false_iff%bool_decide_eq_true Hx].
  apply bind_Ok in Hx as ([] & Hp & Hx). apply guard_Ok in Hx as [_ Hx]. apply guard_Ok in Hx as [_ Hx].
  apply guard_Ok in Hx as [[_ Ha%negb_false_iff%bool_decide_eq_true]%orb_false_iff Hx].
  apply bind_Ok in Hx as ([] & Hf & [= <-]). apply orb_false_iff in Hi as [_ Hi].
  repeat split; try done; [by destruct (j_TokenID j)|].
  unfold validateOperationFields in Hf. by repeat case_match.
Qed.

Lemma scopeForJob_token j id token token' :
  scopeForJob (with_token j id token) = scopeForJob (with_token j id token').
Proof. done. Qed.

Lemma authorize_Ok policyID caps j now c caps' :
  authorize policyID caps j now = (Ok c, caps') <->
  j_Token j <> [] /\ j_WorkerPolicyID j = policyID /\ scopeForJob j = Ok (job_scope j) /\
  acceptable (publicKey caps) (j_Token j) now c /\ scope_of c = job_scope j /\
  c_SingleUse c = true /\ c_TokenID c = j_TokenID j /\ j_TokenID j ∉ used caps /\
  caps' = mkVerifier (publicKey caps) ({[j_TokenID j]} ∪ used caps).
Proof.
  unfold authorize. split.
  - destruct (empty _) eqn:Ht; [done|]. destruct (negb _) eqn:Hw; [done|]. apply negb_false_iff, bool_decide_eq_true in Hw.
    destruct (scopeForJob j) as [s|e] eqn:Hs; [|done]. pose proof (scopeForJob_Ok _ _ Hs) as (-> & _).
    destruct (Verify _ _ _ _) as [[c0|e] v] eqn:Hv; [|done]. apply Verify_Ok in Hv as (Ha & Hc & Hk & Hu).
    destruct (c_SingleUse c0) eqn:E1; [|done]. cbn [negb]. case_bool_decide as E2; [|done]. cbn [negb].
    intros [= -> <-]. destruct Hu as [Hn Hu]. rewrite E2 in Hn, Hu. split_and!; try done.
    + by destruct (j_Token j).
    + destruct v; cbn in *; congruence.
  - intros (Ht & Hw & Hs & Ha & Hc & Hx1 & Hx2 & Hn & ->). destruct (j_Token j) as [|b token] eqn:E; [done|].
    cbn [empty]. rewrite bool_decide_eq_true_2 by done. cbn [negb]. rewrite Hs.
    destruct (Verify caps (b :: token) (job_scope j) now) as [r v] eqn:Hv.
    assert (Hok : Verify caps (b :: token) (job_scope j) now =
                  (Ok c, mkVerifier (publicKey caps) ({[j_TokenID j]} ∪ used caps)))
      by (apply Verify_Ok; rewrite Hx1, Hx2; cbn; done).
    rewrite Hok in Hv. injection Hv as <- <-. rewrite Hx1, Hx2. cbn [negb]. by rewrite bool_decide_eq_true_2.
Qed.

(** A rejected job may spend its token, but never gives one back. *)
Lemma authorize_step policyID caps j now r caps' :
  authorize policyID caps j now = (r, caps') ->
  used caps ⊆ used caps' /\ (is_ok r = true -> j_TokenID j ∉ used caps /\ j_TokenID j ∈ used caps').
Proof.
  intros Ha. split.
  - revert Ha. unfold authorize. repeat case_match; intros [= _ <-]; try done;
      repeat match goal with Hv : Verify _ _ _ _ = _ |- _ => apply Verify_step in Hv; revert Hv end;
      case_match; set_solver.
  - destruct r as [c|]; [|done]. apply authorize_Ok in Ha as (_ & _ & _ & _ & _ & _ & _ & Hn & ->). cbn. set_solver.
Qed.

(** A worker that is given several jobs. *)
Fixpoint authorize_all (policyID : gostring) (caps : Verifier) (jobs : list (Job * gotime))
  : list (gostring * result job_error Claims) :=
  match jobs with
  | [] => []
  | (j, now) :: jobs =>
      let '(r, caps) := authorize policyID caps j now in (j_TokenID j, r) :: authorize_all policyID caps jobs
  end.

Definition authorised_id (x : gostring * result job_error Claims) : option gostring :=
  if is_ok x.2 then Some x.1 else None.

Lemma authorize_all_ids policyID caps jobs :
  NoDup (omap authorised_id (authorize_all policyID caps jobs)) /\
  Forall (.∉ used caps) (omap authorised_id (authorize_all policyID caps jobs)).
Proof.
  revert caps. induction jobs as [|[j now] jobs IH]; intros caps; [by repeat constructor|].
  cbn [authorize_all]. destruct (authorize policyID caps j now) as [r caps'] eqn:E.
  apply authorize_step in E as [Hs Hr]. destruct (IH caps') as [Hd Hf]. rewrite Forall_forall in Hf.
  cbn [omap list_omap].
  destruct (authorised_id (j_TokenID j, r)) as [id|] eqn:Ei; unfold authorised_id in Ei; cbn [fst snd] in Ei;
    destruct (is_ok r); try done; [injection Ei as <-|].
  - destruct (Hr eq_refl) as [Hn Hi]. split.
    + constructor; [|done]. intros Hin%Hf. done.
    + constructor; [done|]. apply Forall_forall. intros x Hx%Hf. set_solver.
  - split; [done|]. apply Forall_forall. intros x Hx%Hf. set_solver.
Qed.

Definition inside_workspace (p : gostring) : Prop := NormalizePath p = Ok p.

Lemma validateNormalizedPaths_Ok j :
  validateNormalizedPaths j = Ok tt ->
  Forall inside_workspace (a_Path (j_Arguments j) :: a_Paths (j_Arguments j) ++
    (ef_Path <$> a_Files (j_Arguments j)) ++ (FileEdit.Path <$> a_Targets (j_Arguments j))).
Proof.
  assert (Hl : forall l, forallb is_normalized l = true -> Forall inside_workspace l).
  { intros l Hx%forallb_Forall. eapply Forall_impl; [exact Hx|]. intros x. apply is_normalized_spec. }
  unfold validateNormalizedPaths. rewrite !guard_Ok, !negb_false_iff.
  intros (Hp & Hps & Hf & Ht & _). constructor; [by apply is_normalized_spec|]. rewrite !Forall_app. auto.
Qed.

(** The content of a write is the content its capability names. *)
Lemma write_content j :
  fields_ok j = Some true -> a_Operation (j_Arguments j) = "write_file" ->
  exists data, decodeJobData j = Some data /\ j_Data j = std_encode data /\
    a_ContentSHA256 (j_Arguments j) = digestBytes data /\ a_ContentSHA256 (j_Arguments j) <> [].
Proof.
  unfold fields_ok. intros Hf E. rewrite E in Hf.
  repeat match goal with
  | Hx : context [decide (?a = ?b)] |- _ =>
      tryif constr_eq a b then fail else rewrite (decide_False (P := a = b)) in Hx by done
  | Hx : context [decide (?a \/ ?b)] |- _ => rewrite (decide_False (P := a \/ b)) in Hx by (intros [?|?]; done)
  end.
  rewrite decide_True in Hf by done. injection Hf as Hf. bool_props.
  destruct (decodeJobData j) as [data|] eqn:Hd; [|done]. exists data. split; [done|].
  unfold decodeJobData in Hd. destruct (std_decode _); [|done]. case_match eqn:E2; [|done]. injection Hd as ->. bool_props.
  split; [done|]. split; [done|]. by destruct (a_ContentSHA256 _).
Qed.

(** A job the worker acts on carries a capability signed with the gateway's key for
    this one use: it names exactly the operation, paths, targets, limits, requester
    and argument digest the worker recomputed from the job, expires within a minute,
    has an identifier no earlier job was authorised with, and every path of the job
    is relative and inside the workspace; a write's content is the one it names. *)
Theorem authorize_sound policyID caps j now c caps' :
  authorize policyID caps j now = (Ok c, caps') ->
  (exists payload signature, j_Token j = token_of payload signature /\
     ed_verify (publicKey caps) (signed_part payload) signature = true /\ decode_strict payload = Some c) /\
  scope_of c = job_scope j /\ c_ArgumentsSHA256 c = digestBytes (marshal_arguments (j_Arguments j)) /\
  c_SingleUse c = true /\ now < c_ExpiresAt c <= now + minute /\
  j_TokenID j ∉ used caps /\ j_TokenID j ∈ used caps' /\
  Forall inside_workspace (a_Path (j_Arguments j) :: a_Paths (j_Arguments j) ++
    (ef_Path <$> a_Files (j_Arguments j)) ++ (FileEdit.Path <$> a_Targets (j_Arguments j))) /\
  (a_Operation (j_Arguments j) = "write_file" ->
     exists data, decodeJobData j = Some data /\ c_ContentSHA256 c = digestBytes data).
Proof.
  intros (_ & _ & Hs & [(p & s & ? & _ & ? & ?) _ _ Hf] & Hc & Hu & _ & Hn & ->)%authorize_Ok.
  apply scopeForJob_Ok in Hs as (_ & _ & _ & Ha & Hp & Ho).
  split; [eauto|]. split; [done|]. split; [etransitivity; [exact (f_equal s_ArgumentsSHA256 Hc)|exact Ha]|].
  split; [done|]. split; [done|]. split; [done|]. split; [cbn; set_solver|].
  split; [by apply validateNormalizedPaths_Ok|].
  intros E. destruct (write_content j Ho E) as (data & Hd & _ & Hh & _). exists data. split; [done|].
  rewrite <- Hh. exact (f_equal s_ContentSHA256 Hc).
Qed.

(** However many jobs a worker is given, in whatever order, no capability identifier is
    authorised twice. *)
Theorem authorize_once policyID caps jobs : NoDup (omap authorised_id (authorize_all policyID caps jobs)).
Proof. apply authorize_all_ids. Qed.

(** ** A job the gateway signs is accepted *)

Lemma jobFromRequest_Ok r meta workerPolicy j :
  jobFromRequest r meta workerPolicy = Ok j ->
  a_Operation (j_Arguments j) = rq_Operation r /\ j_Meta j = meta /\ j_WorkerPolicyID j = workerPolicy /\
  a_ContentSHA256 (j_Arguments j) = (if decide (rq_Data r = []) then [] else digestBytes (rq_Data r)) /\
  j_Data j = (if decide (rq_Data r = []) then [] else std_encode (rq_Data r)).
Proof. unfold jobFromRequest. intros Hj. inv_ok. done. Qed.

Lemma signed_job_Ok key policyID fresh r meta now later j :
  signed_job key policyID fresh r meta now later = Ok j ->
  exists j0 claims token,
    jobFromRequest r meta policyID = Ok j0 /\
    j = with_token j0 (if empty (rq_TokenID r) then fresh else rq_TokenID r) token /\
    scopeForJob j = Ok (job_scope j) /\ claims = claims_of (job_scope j) (j_TokenID j) (now + capabilityTTL) /\
    Sign key claims later = Ok token.
Proof.
  unfold signed_job. intros [_ Hj]%guard_Ok. apply bind_Ok in Hj as (j0 & Hj0 & Hj).
  set (id := if empty _ then _ else _) in *. cbv zeta in Hj. apply bind_Ok in Hj as (claims & Hc & Hj).
  destruct (Sign _ _ _) as [token|] eqn:Hs; [|done]. injection Hj as <-.
  unfold claimsForJob in Hc. apply bind_Ok in Hc as (s & Hsc & [= <-]).
  pose proof (scopeForJob_Ok _ _ Hsc) as (-> & _). by exists j0, (claims_of (job_scope (with_token j0 id [])) id (now + capabilityTTL)), token.
Qed.

(** A write with no content cannot be carried out: its job has no content hash, so the
    gateway's own check of the job it built refuses it, whatever the path and the
    expected hash, and although the tool accepts an empty content. *)
Theorem empty_write_refused key policyID fresh r meta now later :
  rq_Operation r = "write_file" -> rq_Data r = [] ->
  is_ok (signed_job key policyID fresh r meta now later) = false.
Proof.
  intros Hop Hd. destruct (signed_job _ _ _ _ _ _ _) as [j|] eqn:E; [|done]. exfalso.
  apply signed_job_Ok in E as (j0 & claims & token & Hj & -> & Hs & _).
  apply scopeForJob_Ok in Hs as (_ & _ & _ & _ & _ & Ho).
  apply jobFromRequest_Ok in Hj as (Hop' & _ & _ & Hc & Hda). rewrite decide_True in Hc, Hda by done.
  destruct (write_content _ Ho) as (data & _ & _ & _ & Hne); [by cbn; rewrite Hop'|]. by apply Hne.
Qed.

Section roundtrip.
Context `{!Ed25519Laws} `{!JsonLaws Claims claims_text}.
#[local] Set Default Proof Using "All".

(** A job the gateway signs is authorised by a worker that holds the public key of the
    gateway and runs under the same policy, until the capability expires and unless
    its identifier is spent: the claims are those of the job's scope, and the
    identifier is recorded. *)
Theorem signed_job_authorised seed key policyID fresh r meta t0 t1 now j caps :
  NewSignerFromSeed seed = Ok key -> publicKey caps = PublicKey key ->
  signed_job key policyID fresh r meta t0 t1 = Ok j ->
  claims_text (claims_of (job_scope j) (j_TokenID j) (t0 + capabilityTTL)) -> len (j_Token j) <= maxTokenBytes ->
  t1 <= now < t0 + capabilityTTL -> j_TokenID j ∉ used caps ->
  authorize policyID caps j now =
    (Ok (claims_of (job_scope j) (j_TokenID j) (t0 + capabilityTTL)),
     mkVerifier (publicKey caps) ({[j_TokenID j]} ∪ used caps)).
Proof.
  intros Hk Hp Hj Ht Hl Hn Hu. apply signed_job_Ok in Hj as (j0 & claims & token & Hj & -> & Hs & -> & HS).
  apply jobFromRequest_Ok in Hj as (_ & _ & Hw & _).
  apply authorize_Ok. cbn [j_Token with_token] in *.
  pose proof (Sign_acceptable _ _ _ _ now _ Hk HS Ht Hl Hn) as Ha. rewrite <- Hp in Ha.
  split; [|by split_and!]. apply Sign_Ok in HS as (_ & _ & payload & _ & ->). done.
Qed.

End roundtrip.
End job.

(** *** Witnesses *)

Definition path_json : ArgumentsJson := {| marshal_arguments := a_Path |}.
Definition write_request (data : gostring) : Request :=
  mkRequest [] "write_file" "a/./b" [] 100 0 0 0 0 0 [] [] data [] [] [] false [].
Definition sample_meta : Meta := mkMeta "r1" "b1" "s1" "q1" "p1" [] "allow" "ask" true.

Definition sample_unsigned : result job_error Job :=
  j ← @jobFromRequest toy_crypto path_json (write_request "hi") sample_meta "wp"; Ok (with_token j "c1" []).
Definition sample_job_claims : Claims :=
  match sample_unsigned with
  | Ok j => claims_of (@job_scope toy_crypto j) "c1" capabilityTTL
  | Err _ => sample_claims
  end.
Definition job_json : Json Claims := one_json sample_job_claims.
Definition sample_signed : result job_error Job :=
  @signed_job toy_crypto ascii_tables path_json toy_ed job_json sample_key "wp" "c1" (write_request "hi") sample_meta 0 0.
Definition sample_job : Job :=
  match sample_signed with Ok j => j | Err _ => mkJob [] [] [] sample_meta [] [] [] (mkArguments [] [] [] 0 0 0 0 0 0 [] [] [] [] [] [] false []) end.
Definition sample_caps : Verifier := mkVerifier (@PublicKey toy_ed sample_key) ∅.
Definition sample_authorize := @authorize toy_crypto ascii_tables path_json toy_ed job_json "wp" sample_caps sample_job 1.

Lemma signed_job_authorised_witness : sample_authorize.1 = Ok sample_job_claims.
Proof.
  unfold sample_authorize.
  rewrite (@signed_job_authorised toy_crypto ascii_tables path_json toy_ed job_json toy_ed_laws (one_json_laws _ _)
    sample_seed sample_key "wp" "c1" (write_request "hi") sample_meta 0 0 1 sample_job sample_caps).
  - vm_compute. reflexivity.
  - vm_compute. reflexivity.
  - vm_compute. reflexivity.
  - vm_compute. reflexivity.
  - apply (bool_decide_unpack _). vm_compute. exact I.
  - apply (bool_decide_unpack _). vm_compute. exact I.
  - split; apply (bool_decide_unpack _); vm_compute; exact I.
  - apply (bool_decide_unpack _). vm_compute. exact I.
Defined.

Lemma authorize_sound_witness :
  @scope_of sample_job_claims = @job_scope toy_crypto sample_job /\
  exists data, @decodeJobData toy_crypto sample_job = Some data.
Proof.
  destruct (@authorize_sound toy_crypto ascii_tables path_json toy_ed job_json "wp" sample_caps sample_job 1
    sample_job_claims sample_authorize.2) as (_ & Hs & _ & _ & _ & _ & _ & _ & Hd).
  - vm_compute. reflexivity.
  - split; [exact Hs|]. destruct Hd as (data & Hd & _); [vm_compute; reflexivity|]. exists data. exact Hd.
Defined.

Lemma empty_write_refused_witness :
  is_ok (@signed_job toy_crypto ascii_tables path_json toy_ed job_json sample_key "wp" "c1" (write_request []) sample_meta 0 0) = false.
Proof. apply empty_write_refused; reflexivity. Defined.
