(* ===== verification/Redact.v ===== *)
(** * Redaction of audit records ([internal/audit/audit.go])

    Parameters of a tool call are logged as canonical JSON in which the values of
    sensitive keys and recognisable credentials are replaced and contents are
    reduced to their size and digest. *)
From S2P Require Import Prelude GoStrings Strconv Utf8 Token FileEdit.
#[local] Open Scope Z_scope.

Definition RedactedValue : gostring := "[REDACTED]".

(** A decoded JSON value; the members of an object are a map, listed in the order an
    iteration visits it. *)
Inductive json :=
  | JNull
  | JBool (b : bool)
  | JNumber (literal : gostring)
  | JString (s : gostring)
  | JArray (elements : list json)
  | JObject (members : list (gostring * json)).

(** The expressions of the package, by their names; [find_all] splits a text into the
    matches of one, with their groups, and what is between them. *)
Inductive expression := authorizationValueRE | secretAssignmentRE | urlPasswordRE.
Inductive piece :=
  | Plain (s : gostring)
  | Match (s : gostring) (groups : list gostring).

Class TextTables := {
  find_all : expression -> gostring -> list piece;
  to_upper_unicode : gostring -> gostring;
  letters_digits_unicode : gostring -> gostring
}.

(** [json.Marshal] of a decoded value, and [Decoder.Decode] with [UseNumber]. *)
Class JsonText := {
  marshal_json : json -> gostring;
  decode_json : gostring -> option json
}.

Record ParameterSummary := mkSummary {
  Normalized : gostring; SHA256 : gostring; Bytes : Z; RedactedFields : list gostring
}.

(** ** Classification of keys *)

Definition upper_byte (c : ascii) : ascii := if (97 <=? code c) && (code c <=? 122) then byte_of (code c - 32) else c.
Definition ascii_alnum (c : ascii) : bool :=
  let d := code c in ((48 <=? d) && (d <=? 57)) || ((65 <=? d) && (d <=? 90)) || ((97 <=? d) && (d <=? 122)).

Section redact.
Context `{TextTables} `{UnicodeTables} `{JsonText} `{Crypto}.

Definition to_upper (s : gostring) : gostring := if is_ascii s then upper_byte <$> s else to_upper_unicode s.

(** [strings.Map] that keeps the letters and digits, in lower case. *)
Definition letters_digits (s : gostring) : gostring :=
  if is_ascii s then lower_byte <$> filter ascii_alnum s else letters_digits_unicode s.

Definition sensitive_names : list gostring :=
  ["authorization"; "proxyauthorization"; "cookie"; "setcookie"; "password"; "passwd"; "pwd"; "token"; "accesstoken";
   "refreshtoken"; "idtoken"; "authtoken"; "approvaltoken"; "apikey"; "privatekey"; "clientsecret"; "secret"].
Definition sensitive_suffixes : list gostring :=
  ["authorization"; "cookie"; "password"; "secret"; "privatekey"; "apikey"; "token"].

Definition IsSensitiveKey (key : gostring) : bool :=
  let normalized := letters_digits key in
  if has_suffix normalized "tokenid" || has_suffix normalized "keyid" then false
  else bool_decide (normalized ∈ sensitive_names) || existsb (has_suffix normalized) sensitive_suffixes.

Definition isContentKey (key : gostring) : bool :=
  bool_decide (to_lower (trim_space key) ∈ (["content"; "body"; "data"; "input"; "output"; "payload"] : list gostring)).

(** ** Text *)

Definition replace_matches (f : gostring -> list gostring -> gostring) (pieces : list piece) : gostring :=
  concat ((fun p => match p with Plain s => s | Match s groups => f s groups end) <$> pieces).

Definition group (groups : list gostring) : gostring := default [] (head groups).

Definition redact_assignment (m : gostring) : gostring :=
  match index_any m ":=" with
  | Some i => take (i + 1) m ++ RedactedValue
  | None => RedactedValue
  end.

Definition RedactSensitiveValue (value : gostring) : gostring :=
  let upper := to_upper value in
  if contains upper "-----BEGIN " && contains upper "PRIVATE KEY-----" then RedactedValue
  else
    let value := replace_matches (fun _ g => group g ++ " " ++ RedactedValue) (find_all authorizationValueRE value) in
    let value := replace_matches (fun m _ => redact_assignment m) (find_all secretAssignmentRE value) in
    replace_matches (fun _ g => "://" ++ group g ++ ":" ++ RedactedValue ++ "@") (find_all urlPasswordRE value).

(** ** Parameters *)

(** The value that stands for a content, and whether it was redacted. *)
Definition content_text (value : json) : gostring :=
  match value with JString text => text | _ => marshal_json value end.

Definition summarizeContent (value : json) (path : gostring) : json * list gostring :=
  let raw := content_text value in
  if negb (bool_decide (RedactSensitiveValue raw = raw)) then (JString RedactedValue, [path])
  else (JObject [("bytes", JNumber (itoa (len raw))); ("sha256", JString (digestBytes raw))], []).

(** A map as an object, its members in the order [json.Marshal] writes them. *)
Definition map_json (m : gmap gostring json) : json :=
  JObject (omap (fun k => pair k <$> m !! k) (sort_strings (map_to_list m).*1)).

(** The assignments of a loop over a map; a later one replaces an earlier one. *)
Definition assign_all (entries : list (gostring * json)) : gmap gostring json := list_to_map (reverse entries).

Definition child_path (path safeKey : gostring) : gostring :=
  if decide (path = []) then safeKey else path ++ "." ++ safeKey.
Definition element_path (path : gostring) (i : nat) : gostring := path ++ "[" ++ itoa (Z.of_nat i) ++ "]".

Fixpoint sanitizeParameter (value : json) (path : gostring) (summarizeContents : bool) : json * list gostring :=
  match value with
  | JObject members =>
      let results := (fun '(key, child) =>
        let safeKey := RedactSensitiveValue key in
        let childPath := child_path path safeKey in
        (safeKey,
         if IsSensitiveKey key then (JString RedactedValue, [childPath])
         else if summarizeContents && isContentKey key then summarizeContent child childPath
         else sanitizeParameter child childPath summarizeContents)) <$> members in
      (map_json (assign_all (prod_map id fst <$> results)), concat (snd ∘ snd <$> results))
  | JArray elements =>
      let results := (fix loop (i : nat) (elements : list json) : list (json * list gostring) :=
        match elements with
        | [] => []
        | child :: rest => sanitizeParameter child (element_path path i) summarizeContents :: loop (S i) rest
        end) 0%nat elements in
      (JArray results.*1, concat results.*2)
  | JString typed =>
      let clean := RedactSensitiveValue typed in
      (JString clean, if negb (bool_decide (clean = typed)) then [path] else [])
  | JNull | JBool _ | JNumber _ => (value, [])
  end.

Inductive summary_error := Undecodable.

Definition summary_of (value : json) (bytes : Z) (summarizeContents : bool) : ParameterSummary :=
  let '(value, redacted) := sanitizeParameter value [] summarizeContents in
  let normalized := marshal_json value in
  mkSummary normalized (digestBytes normalized) bytes (sort_strings redacted).

(** From the JSON text of the parameters on. *)
Definition summarizeParameters (raw : gostring) (summarizeContents : bool) : result summary_error ParameterSummary :=
  match decode_json raw with
  | None => Err Undecodable
  | Some value => Ok (summary_of value (len raw) summarizeContents)
  end.

Definition SummarizeParameters (raw : gostring) := summarizeParameters raw true.

Definition uniqueSorted (values : list gostring) : list gostring :=
  (fix dedup (last : option gostring) (l : list gostring) : list gostring :=
     match l with
     | [] => []
     | v :: l => if bool_decide (last = Some v) then dedup last l else v :: dedup (Some v) l
     end) None (sort_strings values).

(** ** Equations of the sanitizer *)

Definition elements (path : gostring) (summarize : bool) : nat -> list json -> list (json * list gostring) :=
  fix loop (i : nat) (l : list json) :=
    match l with
    | [] => []
    | child :: rest => sanitizeParameter child (element_path path i) summarize :: loop (S i) rest
    end.

Lemma elements_cons path b i v l :
  elements path b i (v :: l) = sanitizeParameter v (element_path path i) b :: elements path b (S i) l.
Proof. done. Qed.

Definition member (path : gostring) (summarize : bool) (kv : gostring * json) : gostring * (json * list gostring) :=
  let safeKey := RedactSensitiveValue kv.1 in
  let childPath := child_path path safeKey in
  (safeKey,
   if IsSensitiveKey kv.1 then (JString RedactedValue, [childPath])
   else if summarize && isContentKey kv.1 then summarizeContent kv.2 childPath
   else sanitizeParameter kv.2 childPath summarize).

Definition object (results : list (gostring * (json * list gostring))) : json * list gostring :=
  (map_json (assign_all (prod_map id fst <$> results)), concat (snd ∘ snd <$> results)).

Lemma sanitize_array l path b :
  sanitizeParameter (JArray l) path b = (JArray (elements path b 0 l).*1, concat (elements path b 0 l).*2).
Proof. done. Qed.

Lemma sanitize_object ms path b : sanitizeParameter (JObject ms) path b = object (member path b <$> ms).
Proof.
  transitivity (object ((fun '(key, child) => member path b (key, child)) <$> ms)); [done|].
  f_equal. apply list_fmap_ext. by intros ? [] ?.
Qed.

(** ** Secrets do not matter *)

Definition recognizable (s : gostring) : Prop := RedactSensitiveValue s <> s.

(** Two values that differ only in what must not be logged: anything under a sensitive
    key, texts and contents with recognisable credentials that are redacted alike. *)
Inductive indistinguishable (b : bool) : json -> json -> Prop :=
  | same_value v : indistinguishable b v v
  | same_text s s' : recognizable s -> recognizable s' -> RedactSensitiveValue s = RedactSensitiveValue s' ->
      indistinguishable b (JString s) (JString s')
  | same_array l l' : indistinguishable_list b l l' -> indistinguishable b (JArray l) (JArray l')
  | same_object ms ms' : indistinguishable_members b ms ms' -> indistinguishable b (JObject ms) (JObject ms')
with indistinguishable_list (b : bool) : list json -> list json -> Prop :=
  | no_element : indistinguishable_list b [] []
  | next_element v v' l l' : indistinguishable b v v' -> indistinguishable_list b l l' ->
      indistinguishable_list b (v :: l) (v' :: l')
with indistinguishable_members (b : bool) : list (gostring * json) -> list (gostring * json) -> Prop :=
  | no_member : indistinguishable_members b [] []
  | secret_member key v v' ms ms' : IsSensitiveKey key = true -> indistinguishable_members b ms ms' ->
      indistinguishable_members b ((key, v) :: ms) ((key, v') :: ms')
  | content_member key v v' ms ms' : b = true -> isContentKey key = true ->
      recognizable (content_text v) -> recognizable (content_text v') -> indistinguishable_members b ms ms' ->
      indistinguishable_members b ((key, v) :: ms) ((key, v') :: ms')
  | public_content key v ms ms' : b = true -> isContentKey key = true -> indistinguishable_members b ms ms' ->
      indistinguishable_members b ((key, v) :: ms) ((key, v) :: ms')
  | public_member key v v' ms ms' : b && isContentKey key = false -> indistinguishable b v v' ->
      indistinguishable_members b ms ms' -> indistinguishable_members b ((key, v) :: ms) ((key, v') :: ms').

Scheme indistinguishable_mut := Induction for indistinguishable Sort Prop
  with indistinguishable_list_mut := Induction for indistinguishable_list Sort Prop
  with indistinguishable_members_mut := Induction for indistinguishable_members Sort Prop.

Lemma recognizable_spec s : recognizable s <-> negb (bool_decide (RedactSensitiveValue s = s)) = true.
Proof. unfold recognizable. by rewrite negb_true_iff, bool_decide_eq_false. Qed.

Lemma summarize_recognizable v path : recognizable (content_text v) -> summarizeContent v path = (JString RedactedValue, [path]).
Proof. intros Hr%recognizable_spec. unfold summarizeContent. by rewrite Hr. Qed.

Lemma sanitize_indistinguishable b v w :
  indistinguishable b v w -> forall path, sanitizeParameter v path b = sanitizeParameter w path b.
Proof.
  intros Hv. induction Hv using indistinguishable_mut with
    (P0 := fun l l' _ => forall path i, elements path b i l = elements path b i l')
    (P1 := fun ms ms' _ => forall path, member path b <$> ms = member path b <$> ms'); intros path; try done.
  - rename r into Hs, r0 into Hs', e into E. apply recognizable_spec in Hs, Hs'.
    cbn [sanitizeParameter]. rewrite E in *. by rewrite Hs, Hs'.
  - by rewrite !sanitize_array, IHHv.
  - by rewrite !sanitize_object, IHHv.
  - intros k. by rewrite !elements_cons, IHHv, IHHv0.
  - rewrite !fmap_cons. f_equal; [|apply IHHv]. unfold member. cbn [fst snd]. by rewrite e.
  - rewrite !fmap_cons. f_equal; [|apply IHHv]. unfold member. cbn [fst snd]. rewrite e, e0. cbn [andb].
    by rewrite !summarize_recognizable.
  - rewrite !fmap_cons. f_equal. apply IHHv.
  - rewrite !fmap_cons. f_equal; [|apply IHHv0]. unfold member. cbn [fst snd]. rewrite e. by rewrite IHHv.
Qed.


(** ** The order of iteration *)

(** The same value with the members of its objects visited in another order; the keys
    of every object satisfy [distinct]. *)
Inductive reordered (distinct : list gostring -> Prop) : json -> json -> Prop :=
  | reordered_refl v : reordered distinct v v
  | reordered_array l l' : reordered_list distinct l l' -> reordered distinct (JArray l) (JArray l')
  | reordered_object ms ms' ms'' : distinct ms.*1 -> reordered_members distinct ms ms' -> ms' ≡ₚ ms'' ->
      reordered distinct (JObject ms) (JObject ms'')
with reordered_list (distinct : list gostring -> Prop) : list json -> list json -> Prop :=
  | reordered_nil : reordered_list distinct [] []
  | reordered_cons v v' l l' : reordered distinct v v' -> reordered_list distinct l l' ->
      reordered_list distinct (v :: l) (v' :: l')
with reordered_members (distinct : list gostring -> Prop) : list (gostring * json) -> list (gostring * json) -> Prop :=
  | reordered_none : reordered_members distinct [] []
  | reordered_member key v v' ms ms' : reordered distinct v v' -> reordered_members distinct ms ms' ->
      reordered_members distinct ((key, v) :: ms) ((key, v') :: ms').

Scheme reordered_mut := Induction for reordered Sort Prop
  with reordered_list_mut := Induction for reordered_list Sort Prop
  with reordered_members_mut := Induction for reordered_members Sort Prop.

Lemma reordered_impl (P Q : list gostring -> Prop) v w :
  (forall ks, P ks -> Q ks) -> reordered P v w -> reordered Q v w.
Proof.
  intros HPQ Hr. induction Hr using reordered_mut with
    (P0 := fun l l' _ => reordered_list Q l l') (P1 := fun ms ms' _ => reordered_members Q ms ms');
    try (by econstructor; eauto).
Qed.

Definition redacted_apart (keys : list gostring) : Prop := NoDup (RedactSensitiveValue <$> keys).

(** [json.Marshal] writes the members of a map in the order of their keys. *)
Class JsonTextLaws := {
  marshal_reordered v w : reordered NoDup v w -> marshal_json v = marshal_json w
}.

Lemma redacted_apart_NoDup keys : redacted_apart keys -> NoDup keys.
Proof. apply NoDup_fmap_1. Qed.

Definition same_results (x y : gostring * (json * list gostring)) : Prop :=
  x.1 = y.1 /\ x.2.1 = y.2.1 /\ x.2.2 ≡ₚ y.2.2.

Lemma object_same xs ys :
  Forall2 same_results xs ys -> (object xs).1 = (object ys).1 /\ (object xs).2 ≡ₚ (object ys).2.
Proof.
  intros Hs. unfold object. cbn [fst snd]. split.
  - do 2 f_equal. induction Hs as [|[k [v l]] [k' [v' l']] xs ys (Hk & Hv & _) _ IH]; [done|].
    cbn in *. subst. by f_equal.
  - induction Hs as [|x y xs ys (_ & _ & Hl) _ IH]; [done|]. rewrite !fmap_cons. cbn [concat]. unfold compose at 1 3.
    by rewrite Hl, IH.
Qed.

Lemma concat_Permutation {A} (ls ks : list (list A)) : ls ≡ₚ ks -> concat ls ≡ₚ concat ks.
Proof.
  induction 1 as [|l ls ks _ IH|l k ls|ls ks js _ IH1 _ IH2]; cbn [concat]; [done|by rewrite IH| |by rewrite IH1].
  by rewrite !(assoc_L (++)), (Permutation_app_comm k l).
Qed.

Lemma object_permutation xs ys :
  NoDup xs.*1 -> xs ≡ₚ ys -> (object xs).1 = (object ys).1 /\ (object xs).2 ≡ₚ (object ys).2.
Proof.
  intros Hd Hp. unfold object. cbn [fst snd]. split.
  - f_equal. unfold assign_all. apply list_to_map_proper.
    + rewrite fmap_reverse, reverse_Permutation, <- list_fmap_compose.
      by replace (fst ∘ prod_map id fst <$> xs) with xs.*1 by by apply list_fmap_ext.
    + by rewrite !reverse_Permutation, Hp.
  - apply concat_Permutation. by rewrite Hp.
Qed.

Lemma reordered_keys P ms ms' : reordered_members P ms ms' -> ms.*1 = ms'.*1.
Proof. induction 1 as [|key v v' ms ms' _ _ IH]; [done|]. rewrite !fmap_cons. by rewrite IH. Qed.

Lemma member_keys path b ms : (member path b <$> ms).*1 = RedactSensitiveValue <$> ms.*1.
Proof. rewrite <- !list_fmap_compose. by apply list_fmap_ext. Qed.

Context `{!JsonTextLaws}.
#[local] Set Default Proof Using "All".

Lemma summarizeContent_reordered v w path :
  reordered redacted_apart v w -> summarizeContent v path = summarizeContent w path.
Proof.
  intros Hr. assert (E : content_text v = content_text w); [|unfold summarizeContent; by rewrite E].
  assert (Hm : marshal_json v = marshal_json w)
    by (apply marshal_reordered; eapply reordered_impl; [apply redacted_apart_NoDup|done]).
  by destruct Hr.
Qed.

Lemma sanitize_reordered b v w :
  reordered redacted_apart v w ->
  forall path, (sanitizeParameter v path b).1 = (sanitizeParameter w path b).1 /\
    (sanitizeParameter v path b).2 ≡ₚ (sanitizeParameter w path b).2.
Proof.
  intros Hv. induction Hv using reordered_mut with
    (P0 := fun l l' _ => forall path i, (elements path b i l).*1 = (elements path b i l').*1 /\
             concat (elements path b i l).*2 ≡ₚ concat (elements path b i l').*2)
    (P1 := fun ms ms' _ => forall path, Forall2 same_results (member path b <$> ms) (member path b <$> ms'));
    intros path; try done.
  - rewrite !sanitize_array. cbn [fst snd]. destruct (IHHv path 0%nat) as [-> ->]. done.
  - rewrite !sanitize_object. specialize (IHHv path). rename p into Hp, r into Hd.
    destruct (object_same _ _ IHHv) as [-> ->]. apply object_permutation; [|by apply fmap_Permutation].
    rewrite member_keys. by rewrite <- (reordered_keys _ _ _ Hd).
  - intros k. rewrite !elements_cons, !fmap_cons. cbn [concat]. destruct (IHHv (element_path path k)) as [-> ->].
    destruct (IHHv0 path (S k)) as [-> ->]. done.
  - rewrite !fmap_cons. constructor; [|apply IHHv0]. split; [done|]. unfold member. cbn [fst snd].
    destruct (IsSensitiveKey key); [done|]. destruct (b && isContentKey key); [|apply IHHv].
    by rewrite (summarizeContent_reordered _ _ _ Hv).
Qed.

(** The summary does not depend on the order in which the maps are visited, as long as
    no two keys of one object are redacted to the same text. *)
Theorem summary_order v w bytes b :
  reordered redacted_apart v w -> summary_of v bytes b = summary_of w bytes b.
Proof.
  intros Hr. destruct (sanitize_reordered b v w Hr []) as [He Hp]. unfold summary_of.
  destruct (sanitizeParameter v [] b) as [r l], (sanitizeParameter w [] b) as [r' l']. cbn [fst snd] in *. subst.
  by rewrite (sort_strings_unique l l').
Qed.
End redact.

(** ** Witnesses *)

(** Only assignments to [pwd] are recognised, and the summary of a text is the text. *)
Definition pwd_tables : TextTables := {|
  find_all e s :=
    match e with
    | secretAssignmentRE => if has_prefix s "pwd:" then [Match s ["pwd"]] else [Plain s]
    | _ => [Plain s]
    end;
  to_upper_unicode s := s;
  letters_digits_unicode s := s
|}.

Definition DQUOTE : ascii := byte_of 34.
Definition quoted (s : gostring) : gostring := DQUOTE :: s ++ [DQUOTE].

Fixpoint write_json (v : json) : gostring :=
  match v with
  | JNull => "null"
  | JBool b => if b then "true" else "false"
  | JNumber n => n
  | JString s => quoted s
  | JArray l => "[" ++ join "," (write_json <$> l) ++ "]"
  | JObject ms => "{" ++ join "," (sort_strings ((fun kv => quoted kv.1 ++ ":" ++ write_json kv.2) <$> ms)) ++ "}"
  end.

(** The decoder of the witnesses knows two texts. *)
Definition small_json : JsonText := {|
  marshal_json := write_json;
  decode_json s :=
    if decide (s = ("1" : gostring)) then Some (JObject [("pwd", JString "x"); ("n", JString "pwd:x")])
    else Some (JObject [("pwd", JArray [JString "y"; JNull]); ("n", JString "pwd:y")])
|}.

Lemma small_json_laws : @JsonTextLaws small_json.
Proof.
  split. intros v w Hr. cbn. induction Hr using reordered_mut with
    (P0 := fun l l' _ => write_json <$> l = write_json <$> l')
    (P1 := fun ms ms' _ => forall f : gostring -> gostring -> gostring,
             (fun kv => f kv.1 (write_json kv.2)) <$> ms = (fun kv => f kv.1 (write_json kv.2)) <$> ms'); try done.
  - cbn [write_json]. by rewrite IHHr.
  - cbn [write_json]. do 3 f_equal. rewrite (IHHr (fun k v => quoted k ++ ":" ++ v)).
    apply sort_strings_unique. by apply fmap_Permutation.
  - rewrite !fmap_cons. by f_equal.
  - intros f. rewrite !fmap_cons. cbn [fst snd]. by rewrite IHHr, IHHr0.
Qed.

Definition sample_summary (raw : gostring) : result summary_error ParameterSummary :=
  @summarizeParameters pwd_tables ascii_tables small_json toy_crypto raw true.
Definition summary_text (r : result summary_error ParameterSummary) : gostring :=
  match r with Ok s => Normalized s | Err _ => [] end.


Definition sample_members : list (gostring * json) := [("n", JString "pwd:x"); ("pwd", JString "y")].

Lemma summary_order_witness :
  @summary_of pwd_tables ascii_tables small_json toy_crypto (JObject sample_members) 0 true =
  @summary_of pwd_tables ascii_tables small_json toy_crypto (JObject (reverse sample_members)) 0 true.
Proof.
  apply (@summary_order pwd_tables ascii_tables small_json toy_crypto small_json_laws).
  apply reordered_object with sample_members.
  - apply (bool_decide_unpack _). vm_compute. exact I.
  - repeat constructor.
  - symmetry. apply reverse_Permutation.
Defined.

(** Two keys that are redacted to the same text collide: which value is logged, and so
    the digest, depends on the order in which the map is visited. *)
Definition colliding_members : list (gostring * json) := [("pwd:1", JNumber "1"); ("pwd:2", JNumber "2")].

Lemma colliding_keys_order :
  Normalized (@summary_of pwd_tables ascii_tables small_json toy_crypto (JObject colliding_members) 0 true) <>
  Normalized (@summary_of pwd_tables ascii_tables small_json toy_crypto (JObject (reverse colliding_members)) 0 true).
Proof. vm_compute. discriminate. Qed.
