(* ===== verification/RateLimit.v ===== *)
(** * The rate limiter of a gateway ([internal/gateway/gateway.go])

    A bucket of tokens per subject, refilled with time and forgotten after a while. Each
    call runs under the mutex of the limiter. Numbers are IEEE doubles, as in the code. *)
From Stdlib Require Import SpecFloat.
From S2P Require Import Prelude GoStrings TextTypes.
#[local] Open Scope Z_scope.

(** ** Doubles *)

Definition fsub : Float64.t -> Float64.t -> Float64.t := SFsub 53 1024.
Definition flt (a b : Float64.t) : bool := Float64.gt b a.
Definition fzero : Float64.t := Float64.of_Z 0.
Definition fone : Float64.t := Float64.of_Z 1.
(** [a <= b]; false when one of them is not a number. *)
Definition fle (a b : Float64.t) : bool := SFleb a b.

(** [Time.Sub] saturates; [Duration.Seconds] adds the whole seconds and the rest. *)
Definition sub_time (t u : gotime) : Z := Z.max (- 2 ^ 63) (Z.min (2 ^ 63 - 1) (t - u)).
Definition Seconds (d : Z) : Float64.t :=
  Float64.add (Float64.of_Z (Z.quot d second)) (Float64.div (Float64.of_Z (Z.rem d second)) (Float64.of_Z 1000000000)).

(** ** The limiter *)

Definition defaultRateLimitBucketTTL : Z := 10 * minute.
Definition defaultRateLimitMaxBuckets : Z := 4096.

Record rateBucket := mkBucket { bk_tokens : Float64.t; bk_updated : gotime; bk_lastSeen : gotime }.

Record rateLimiter := mkLimiter {
  rate : Float64.t; burst : Float64.t; bucketTTL : Z; maxBuckets : Z; buckets : gmap gostring rateBucket
}.

Definition newRateLimiterWithLimits (rate : Float64.t) (burst bucketTTL maxBuckets : Z) : rateLimiter :=
  mkLimiter rate (Float64.of_Z burst) (if bucketTTL <=? 0 then defaultRateLimitBucketTTL else bucketTTL)
    (if maxBuckets <=? 0 then defaultRateLimitMaxBuckets else maxBuckets) ∅.

Definition with_buckets (m : gmap gostring rateBucket) (l : rateLimiter) : rateLimiter :=
  mkLimiter (rate l) (burst l) (bucketTTL l) (maxBuckets l) m.

Definition stale (l : rateLimiter) (now : gotime) (b : rateBucket) : bool := negb (after (bk_lastSeen b + bucketTTL l) now).

Definition removeExpired (now : gotime) (l : rateLimiter) : rateLimiter :=
  with_buckets (filter (fun p => stale l now p.2 = false) (buckets l)) l.

(** The loop of [evictOldest]; the subject is empty before the first bucket. *)
Definition oldest_of (acc p : gostring * gotime) : gostring * gotime :=
  let '(oldestSubject, oldest) := acc in
  let '(subject, lastSeen) := p in
  if bool_decide (oldestSubject = []) || before lastSeen oldest || ((lastSeen =? oldest) && str_lt subject oldestSubject)
  then (subject, lastSeen) else acc.

Definition evictOldest (l : rateLimiter) : rateLimiter :=
  let '(oldestSubject, _) := fold_left oldest_of ((fun p => (p.1, bk_lastSeen p.2)) <$> map_to_list (buckets l)) ([], zero_time) in
  if bool_decide (oldestSubject = []) then l else with_buckets (delete oldestSubject (buckets l)) l.

(** The bucket with what the elapsed time gives, never more than the burst. *)
Definition refill (l : rateLimiter) (now : gotime) (b : rateBucket) : rateBucket :=
  let elapsed := Seconds (sub_time now (bk_updated b)) in
  if flt fzero elapsed then
    let tokens := Float64.add (bk_tokens b) (Float64.mul elapsed (rate l)) in
    mkBucket (if flt (burst l) tokens then burst l else tokens) now now
  else mkBucket (bk_tokens b) (bk_updated b) now.

Definition allow (subject : gostring) (now : gotime) (l : rateLimiter) : bool * rateLimiter :=
  if fle (rate l) fzero then (true, l)
  else
    let l := removeExpired now l in
    let '(bucket, l) :=
      match buckets l !! subject with
      | Some b => (b, l)
      | None =>
          (mkBucket (burst l) now now, if maxBuckets l <=? Z.of_nat (size (buckets l)) then evictOldest l else l)
      end in
    let bucket := refill l now bucket in
    if flt (bk_tokens bucket) fone then (false, with_buckets (<[subject := bucket]> (buckets l)) l)
    else (true, with_buckets (<[subject := mkBucket (fsub (bk_tokens bucket) fone) (bk_updated bucket) (bk_lastSeen bucket)]> (buckets l)) l).

(** ** Bounds *)

(** Subjects are not empty, and there is room for every bucket. *)
Record limiter_ok (l : rateLimiter) : Prop := {
  lo_max : 1 <= maxBuckets l;
  lo_size : Z.of_nat (size (buckets l)) <= maxBuckets l;
  lo_named : forall s, is_Some (buckets l !! s) -> s <> []
}.

Lemma new_limiter_ok r b t m : limiter_ok (newRateLimiterWithLimits r b t m).
Proof.
  split; cbn.
  - destruct (Z.leb_spec m 0); [done|lia].
  - rewrite map_size_empty. destruct (Z.leb_spec m 0); [done|lia].
  - intros s [x Hx]. by rewrite lookup_empty in Hx.
Qed.

Lemma with_buckets_ok l m : limiter_ok l -> m ⊆ buckets l -> limiter_ok (with_buckets m l).
Proof.
  intros [] Hm. split; cbn; [done| |].
  - apply map_subseteq_size in Hm. lia.
  - intros s [x Hx]. apply lo_named0. exists x. by eapply lookup_weaken.
Qed.

Definition older (a b : gostring * gotime) : Prop := a.2 < b.2 \/ a.2 = b.2 /\ str_le a.1 b.1.

(** The loop finds the bucket that was seen first, the first subject among equals,
    whatever the order of the map. *)
Lemma oldest_fold l acc :
  Forall (fun p => p.1 <> []) l -> acc.1 <> [] ->
  let r := fold_left oldest_of l acc in r ∈ acc :: l /\ Forall (older r) (acc :: l).
Proof.
  assert (Hrefl : forall p, older p p) by (intros p; right; done).
  assert (Htrans : forall p q r, older p q -> older q r -> older p r).
  { unfold older. intros p q r [?|[? ?]] [?|[? ?]]; [left; lia..|]. right. split; [lia|]. by etrans. }
  revert acc. induction l as [|[s t] l IH]; intros [os o] Hl Hacc; cbn [fold_left]; [split; [left|by apply Forall_singleton]|].
  apply Forall_cons in Hl as [Hs Hl]. cbn in Hs, Hacc.
  assert (Hstep : let p := oldest_of (os, o) (s, t) in p.1 <> [] /\ p ∈ [(os, o); (s, t)] /\ older p (os, o) /\ older p (s, t)).
  { unfold oldest_of, before. rewrite bool_decide_false by done. cbn [orb]. unfold older. cbn.
    destruct (Z.ltb_spec t o); cbn [orb]; [cbn; split_and!; [done|right; left|lia|by right]|].
    destruct (Z.eqb_spec t o) as [->|]; cbn [andb].
    - destruct (str_lt s os) eqn:E; cbn; split_and!; try done; [right; left|right; split; [done|apply str_le_alt; by left]|by right|left|by right|right; split; [done|exact E]].
    - cbn. split_and!; [done|left|by right|lia]. }
  destruct Hstep as (Hp & Hin & H1 & H2). destruct (IH (oldest_of (os, o) (s, t)) Hl Hp) as [Hr Hf]. split.
  - apply elem_of_cons in Hr as [->|Hr]; [set_solver|right; by right].
  - apply Forall_cons in Hf as [Ho Hf]. apply Forall_cons; split; [by eapply Htrans|]. apply Forall_cons. split; [by eapply Htrans|done].
Qed.

Lemma evictOldest_deletes l :
  (forall s, is_Some (buckets l !! s) -> s <> []) -> buckets l <> ∅ ->
  exists s b, buckets l !! s = Some b /\ evictOldest l = with_buckets (delete s (buckets l)) l /\
    forall s' b', buckets l !! s' = Some b' -> older (s, bk_lastSeen b) (s', bk_lastSeen b').
Proof.
  intros Hn He. unfold evictOldest.
  destruct (map_to_list (buckets l)) as [|[s0 b0] ps] eqn:El; [by apply map_to_list_empty_iff in El|].
  assert (Hin : forall s b, (s, b) ∈ (s0, b0) :: ps <-> buckets l !! s = Some b) by (intros s b; by rewrite <- El, elem_of_map_to_list).
  cbn [fmap list_fmap fold_left fst snd]. unfold oldest_of at 2. rewrite bool_decide_true by done. cbn [orb].
  assert (Hs0 : s0 <> []) by (apply Hn; exists b0; apply Hin; left).
  destruct (oldest_fold ((fun p => (p.1, bk_lastSeen p.2)) <$> ps) (s0, bk_lastSeen b0)) as [Hr Hf].
  { apply Forall_fmap, Forall_forall. intros [s b] Hp. cbn. apply Hn. exists b. apply Hin. by right. }
  { done. }
  destruct (fold_left _ _ _) as [s t].
  assert (exists b, (s, b) ∈ (s0, b0) :: ps /\ t = bk_lastSeen b) as (b & Hb & ->).
  { apply elem_of_cons in Hr as [[= -> ->]|([s' b] & [= -> ->] & Hp)%list_elem_of_fmap]; [exists b0; split; [left|done]|exists b; split; [by right|done]]. }
  apply Hin in Hb. exists s, b. split; [done|]. assert (s <> []) as Hs by (apply Hn; eauto). rewrite bool_decide_false by done. split; [done|].
  intros s' b' Hb'%Hin. rewrite Forall_forall in Hf. apply (Hf (s', bk_lastSeen b')).
  apply elem_of_cons in Hb' as [[= -> ->]|Hp]; [left|right; apply list_elem_of_fmap; by exists (s', b')].
Qed.

Lemma limiter_removeExpired_ok now l : limiter_ok l -> limiter_ok (removeExpired now l).
Proof. intros Hl. apply with_buckets_ok; [done|]. apply map_filter_subseteq. Qed.

Lemma evictOldest_ok l : limiter_ok l -> limiter_ok (evictOldest l).
Proof.
  intros Hl. destruct (decide (buckets l = ∅)) as [He|He].
  - unfold evictOldest. rewrite He, map_to_list_empty. done.
  - destruct (evictOldest_deletes l) as (s & b & _ & -> & _); [apply Hl|done|]. apply with_buckets_ok; [done|]. apply delete_subseteq.
Qed.

(** After any number of requests there are at most [maxBuckets] buckets. *)
Lemma allow_ok subject now l : subject <> [] -> limiter_ok l -> limiter_ok (allow subject now l).2.
Proof.
  intros Hs Hl. unfold allow. destruct (fle _ _); [done|]. pose proof (limiter_removeExpired_ok now l Hl) as Hl1. clear Hl. revert Hl1.
  generalize (removeExpired now l). clear l. intros l Hl.
  set (p := match buckets l !! subject with Some b => (b, l) | None => _ end).
  assert (Hp : limiter_ok p.2 /\ Z.of_nat (size (delete subject (buckets p.2))) < maxBuckets p.2).
  { unfold p. destruct (buckets l !! subject) as [b|] eqn:E; cbn.
    - split; [done|]. rewrite map_size_delete, E. destruct Hl. assert (size (buckets l) <> 0)%nat; [|lia].
      rewrite map_size_non_empty_iff. intros He. by rewrite He, lookup_empty in E.
    - destruct (Z.leb_spec (maxBuckets l) (Z.of_nat (size (buckets l)))) as [Hfull|Hroom]; cbn.
      + split; [by apply evictOldest_ok|]. destruct (evictOldest_deletes l) as (s & b & Hb & -> & _); [apply Hl| |].
        { intros He. rewrite He, map_size_empty in Hfull. destruct Hl. lia. }
        cbn. rewrite map_size_delete.
        assert (delete s (buckets l) !! subject = None) as -> by (apply lookup_delete_None; by right).
        rewrite map_size_delete, Hb. unfold id. destruct Hl. assert (size (buckets l) <> 0)%nat; [|lia].
        rewrite map_size_non_empty_iff. intros He. by rewrite He, lookup_empty in Hb.
      + split; [done|]. by rewrite map_size_delete, E. }
  destruct p as [bucket l']. cbn in Hp. destruct Hp as [[Hm Hsz Hn] Hroom].
  assert (Hok : forall b, limiter_ok (with_buckets (<[subject := b]> (buckets l')) l')).
  { intros b. split; cbn; [done| |].
    - rewrite <- insert_delete_eq, map_size_insert_None by apply lookup_delete_eq. lia.
    - intros s [x [[<- _]|[_ Hx]]%lookup_insert_Some]; [done|]. apply Hn. eauto. }
  destruct (flt _ _); apply Hok.
Qed.

(** A request concerns no bucket but that of its subject, save that buckets which were not
    seen for their time to live are forgotten, and one more when the table is full. *)
Lemma allow_others subject now l s b :
  limiter_ok l -> buckets (allow subject now l).2 !! s = Some b -> s <> subject -> buckets l !! s = Some b.
Proof.
  intros Hl Hb Hne. unfold allow in Hb. destruct (fle _ _); [done|].
  assert (Hsub : forall m, buckets (evictOldest m) ⊆ buckets m).
  { intros m. unfold evictOldest. destruct (fold_left _ _ _). case_bool_decide; [done|]. apply delete_subseteq. }
  assert (Hs : forall q, q ⊆ buckets (removeExpired now l) -> q !! s = Some b -> buckets l !! s = Some b).
  { intros q Hq Hb'. eapply lookup_weaken; [exact Hb'|]. etrans; [exact Hq|]. apply map_filter_subseteq. }
  destruct (buckets (removeExpired now l) !! subject) as [b0|]; destruct (flt _ _); cbn in Hb;
    rewrite lookup_insert_ne in Hb by done; eapply Hs; [|exact Hb| |exact Hb| |exact Hb| |exact Hb]; try done; case_match; (apply Hsub || done).
Qed.

(** The burst of the default configuration: as many requests at one instant, and no more. *)
Fixpoint admitted_at (n : nat) (subject : gostring) (now : gotime) (l : rateLimiter) : list bool :=
  match n with O => [] | S n => let '(ok, l) := allow subject now l in ok :: admitted_at n subject now l end.

Example default_burst :
  admitted_at 101 "p|ip" second (newRateLimiterWithLimits (Float64.of_Z 50) 100 0 0) = replicate 100 true ++ [false].
Proof. vm_compute. reflexivity. Qed.

(** Half a second at fifty per second gives twenty-five tokens back. *)
Example refilled :
  let l := Nat.iter 100 (fun l => (allow "p|ip" second l).2) (newRateLimiterWithLimits (Float64.of_Z 50) 100 0 0) in
  admitted_at 26 "p|ip" (second + second / 2) l = replicate 25 true ++ [false].
Proof. vm_compute. reflexivity. Qed.
