(* ===== verification/Http.v ===== *)
(** * HTTP requests ([internal/gateway/auth.go], and the checks of requests in [gateway.go])

    What a gateway server reads of a request before it looks at the session: the origin,
    the media types a client accepts, the principal, the protocol version, identities. *)
From Stdlib Require Import SpecFloat.
From S2P Require Import Prelude GoStrings Utf8 TextTypes Token Redact TransportAuth RateLimit.
#[local] Open Scope Z_scope.

(** ** The standard library *)

(** [mime.ParseMediaType], [strconv.ParseFloat], [net.SplitHostPort] (the host) and
    [net.ParseIP] (whether there is an address). *)
Class HttpText := {
  ParseMediaType : gostring -> option (gostring * list (gostring * gostring));
  ParseFloat : gostring -> option Float64.t;
  SplitHostPort : gostring -> option gostring;
  ParseIP : gostring -> bool
}.

(** [Decoder.Decode] into [any], with whether nothing follows the value, and [json.Marshal]. *)
Class AnyJson := { decode_any : gostring -> option (json * bool); marshal_any : json -> option gostring }.

(** The request with what [ReadAll] of its body returns without a limit, [None] when reading
    fails, and the address of the client. *)
Record http_request := mkHTTP { hq_request : Request; hq_Body : option gostring; hq_RemoteAddr : gostring }.

(** [Header.Values] and [Header.Get]. *)
Definition Values (q : http_request) (name : gostring) : list gostring := r_Header (hq_request q) name.
Definition Get (q : http_request) (name : gostring) : gostring := default [] (head (Values q name)).

Definition HeaderTimestamp : gostring := "X-Agent-Timestamp".
Definition HeaderNonce : gostring := "X-Agent-Nonce".
Definition HeaderSignature : gostring := "X-Agent-Signature".
Definition headerBridgeID : gostring := "X-Bridge-ID".
Definition headerSessionID : gostring := "X-Session-ID".
Definition headerClientRequest : gostring := "X-Client-Request-ID".
Definition HeaderSessionID : gostring := "Mcp-Session-Id".
Definition HeaderProtocolVersion : gostring := "MCP-Protocol-Version".
Definition ProtocolVersion20250326 : gostring := "2025-03-26".
Definition directBridgeID : gostring := "streamable-http".

(** [http.MaxBytesReader] fails when the body is longer than the limit. *)
Definition read_body (max : Z) (q : http_request) : option gostring :=
  body ← hq_Body q; if max <? len body then None else Some body.

(** ** Identities *)

Definition control_byte (c : ascii) : bool := (code c <? 32) || (code c =? 127).

Definition safeIdentity (value : gostring) : gostring :=
  if (256 <? len value) || bool_decide (trim_space value = []) then []
  else if existsb control_byte value then [] else value.

Definition validPrincipal (principal : gostring) : bool :=
  negb (bool_decide (principal = []) || (1024 <? len principal) || negb (bool_decide (trim_space principal = principal))) &&
  negb (existsb control_byte principal).

Section texts.
Context `{HttpText} `{AnyJson} `{Crypto}.

Definition clientIP (remote : gostring) : gostring :=
  match SplitHostPort remote with
  | Some host => host
  | None => if ParseIP remote then remote else "unknown"
  end.

(** The identifier of a call: a string, a number or null, written the one way. *)
Definition rpcIDString (id : gostring) : gostring :=
  match decode_any id with
  | Some (JString _ as v, true) | Some (JNumber _ as v, true) | Some (JNull as v, true) =>
      match marshal_any v with Some canonical => safeIdentity canonical | None => [] end
  | _ => []
  end.

(** ** Authentication *)

(** The configured [Authenticator], or the validation of a bearer token. *)
Inductive authentication :=
  | Custom (authenticator : http_request -> option gostring)
  | Bearer (validate : gostring -> option gostring).

(** [staticTokenValidator]. *)
Definition staticTokenValidator (token principal : gostring) : gostring -> option gostring :=
  fun t => if bool_decide (t = token) then Some principal else None.

Definition defaultPrincipal (token : gostring) : gostring := "bearer-sha256:" ++ hex_encode (take 8 (sha256 token)).

(** [strings.EqualFold] with an ASCII word without k and s, whose letters are no case
    variants of others. *)
Definition is_bearer (scheme : gostring) : bool := bool_decide (lower_byte <$> scheme = "bearer").

Definition bearer_token (values : list gostring) : option gostring :=
  match values with
  | [value] =>
      i ← index value " ";
      let scheme := take i value in
      let token := drop (i + 1) value in
      if negb (is_bearer scheme) || bool_decide (token = []) || negb (bool_decide (trim_space token = token)) then None else Some token
  | _ => None
  end.

Definition authenticate (auth : authentication) (q : http_request) : option gostring :=
  principal ← match auth with
              | Custom authenticator => authenticator q
              | Bearer validate => bearer_token (Values q "Authorization") ≫= validate
              end;
  if validPrincipal principal then Some principal else None.

(** ** The checks of a request *)

Definition originAllowed (allowed : list gostring) (origin : gostring) : bool :=
  bool_decide (origin = []) || bool_decide (origin ∈ allowed).

Definition safeProtocolVersion (version : gostring) : bool :=
  negb ((len version =? 0) || (64 <? len version)) &&
  forallb (fun c => let n := code c in
    ((97 <=? n) && (n <=? 122)) || ((65 <=? n) && (n <=? 90)) || ((48 <=? n) && (n <=? 57)) || contains_byte "._-" c) version.

Definition validInitializeProtocolHeader (values : list gostring) : bool :=
  match values with [] => true | [v] => safeProtocolVersion v | _ => false end.

Definition explicitProtocolHeader (values : list gostring) : option gostring :=
  match values with [v] => if decide (v = []) then None else Some v | _ => None end.

(** *** [Accept] *)

Record preference := mkPreference { pf_quality : Float64.t; pf_specificity : Z; pf_set : bool }.
Definition no_preference : preference := mkPreference fzero 0 false.

Definition is_finite (f : Float64.t) : bool := match f with S754_nan | S754_infinity _ => false | _ => true end.

(** The quality of a part: one unless given; [None] when it is not a number from 0 to 1. *)
Definition part_quality (params : list (gostring * gostring)) : option Float64.t :=
  match snd <$> head (filter (fun p => p.1 = ("q" : gostring)) params) with
  | None => Some fone
  | Some raw =>
      q ← ParseFloat raw;
      if negb (is_finite q) || flt q fzero || flt fone q then None else Some q
  end.

(** The media type of a part, in lower case, with its quality. *)
Definition accept_part `{UnicodeTables} (part : gostring) : option (gostring * Float64.t) :=
  '(mediaType, params) ← ParseMediaType (trim_space part);
  let mediaType := to_lower mediaType in
  if bool_decide (mediaType ∈ (["application/json"; "text/event-stream"; "*/*"] : list gostring))
  then quality ← part_quality params; Some (mediaType, quality)
  else None.

Definition prefer (target : gostring) (current : preference) (part : gostring * Float64.t) : preference :=
  let '(mediaType, quality) := part in
  let any := bool_decide (mediaType = "*/*") in
  if negb any && negb (bool_decide (mediaType = target)) then current
  else
    let specificity := if any then 0 else 1 in
    if negb (pf_set current) || (pf_specificity current <? specificity) ||
       ((specificity =? pf_specificity current) && flt (pf_quality current) quality)
    then mkPreference quality specificity true else current.

Definition acceptable `{UnicodeTables} (values : list gostring) : bool :=
  match values with
  | [] => true
  | _ =>
      let parts := omap accept_part (value ← values; split_byte "," value) in
      let quality target := pf_quality (fold_left (prefer target) parts no_preference) in
      flt fzero (quality "application/json") || flt fzero (quality "text/event-stream")
  end.
End texts.

(** ** What the checks mean *)

(** A principal and an identity are printable, bounded and not blank, so they can be written
    to logs and used as keys. *)
Lemma safeIdentity_safe value : safeIdentity value <> [] -> len value <= 256 /\ Forall (fun c => control_byte c = false) value /\ safeIdentity value = value.
Proof.
  unfold safeIdentity. destruct (_ || _) eqn:E; [done|]. apply orb_false_iff in E as [E _]. destruct (existsb _ _) eqn:Ee; [done|].
  intros _. split; [by bool_props|]. split; [by apply existsb_false_Forall|done].
Qed.

(** A static validator accepts its token and no other, and needs the scheme. *)
Lemma authenticate_static q token principal p :
  authenticate (Bearer (staticTokenValidator token principal)) q = Some p ->
  p = principal /\ validPrincipal p = true /\
  exists scheme, Values q "Authorization" = [scheme ++ " " ++ token] /\ is_bearer scheme = true /\ token <> [].
Proof.
  unfold authenticate. intros (p' & (t & Ht & Hv)%bind_Some & Hp)%bind_Some. destruct (validPrincipal p') eqn:Ev; [|done]. injection Hp as <-.
  unfold staticTokenValidator in Hv. case_bool_decide as Et; [|done]. subst t. injection Hv as ->. split; [done|]. split; [done|].
  unfold bearer_token in Ht. destruct (Values q "Authorization") as [|value [|]]; [done| |done].
  apply bind_Some in Ht as (i & Hi & Ht). destruct (_ || _ || _) eqn:E; [done|]. injection Ht as Ht.
  apply orb_false_iff in E as [E _]. apply orb_false_iff in E as [Es En]. bool_props. exists (take i value).
  rewrite Ht in En. split; [|done]. f_equal. apply index_split in Hi. by rewrite Hi at 1; cbn [length] in *; rewrite Ht.
Qed.
