(* ===== verification/StrictJson.v ===== *)
(** * Strict JSON ([internal/protocol/decode.go], [internal/workspaceregistry/config.go])

    Before a text is decoded into a Go value its tokens are walked once, to refuse objects
    that name a key twice and text after the value. The tokeniser and the typed decoder of
    [encoding/json] are a parameter; the walk is the code's. *)
From S2P Require Import Prelude GoStrings Utf8 Token Redact.

(** ** Tokens *)

Inductive token :=
  | TOpenObject | TCloseObject | TOpenArray | TCloseArray
  | TString (s : gostring) | TNumber (literal : gostring) | TBool (b : bool) | TNull.

(** The tokens that [Decoder.Token] returns one after the other, and whether the error after
    the last one is [io.EOF]. *)
Class Tokenizer := { json_tokens : gostring -> list token * bool }.

(** [Decoder.Decode] with [DisallowUnknownFields], and whether a second call reports
    [io.EOF]. *)
Class TypedDecoder (A : Type) := { typed_decode : gostring -> option (A * bool) }.

(** [Decoder.More]: a token follows, and it does not close. *)
Definition more (ts : list token) : bool :=
  match ts with [] | TCloseObject :: _ | TCloseArray :: _ => false | _ => true end.

Inductive strict_error :=
  | EmptyValue | NoToken | KeyNotString | DuplicateField (key : gostring) | Unterminated | UnexpectedDelim | TrailingData
  | NotDecoded | OutOfFuel.
#[export] Instance strict_error_eq_dec : EqDecision strict_error.
Proof. solve_decision. Defined.

(** ** The walk *)

(** [consumeValue]; its loops are functions. Every call of the three together takes fuel. *)
Fixpoint consumeValue (fuel : nat) (ts : list token) : result strict_error (list token) :=
  match fuel with
  | O => Err OutOfFuel
  | S fuel =>
      match ts with
      | [] => Err NoToken
      | TOpenObject :: ts => consume_members fuel ∅ ts
      | TOpenArray :: ts => consume_elements fuel ts
      | TCloseObject :: _ | TCloseArray :: _ => Err UnexpectedDelim
      | _ :: ts => Ok ts
      end
  end
with consume_members (fuel : nat) (seen : gset gostring) (ts : list token) : result strict_error (list token) :=
  match fuel with
  | O => Err OutOfFuel
  | S fuel =>
      if more ts then
        match ts with
        | TString key :: ts =>
            if decide (key ∈ seen) then Err (DuplicateField key)
            else ts ← consumeValue fuel ts; consume_members fuel ({[key]} ∪ seen) ts
        | _ => Err KeyNotString
        end
      else match ts with TCloseObject :: ts => Ok ts | _ => Err Unterminated end
  end
with consume_elements (fuel : nat) (ts : list token) : result strict_error (list token) :=
  match fuel with
  | O => Err OutOfFuel
  | S fuel =>
      if more ts then ts ← consumeValue fuel ts; consume_elements fuel ts
      else match ts with TCloseArray :: ts => Ok ts | _ => Err Unterminated end
  end.

(** The walk over a list of tokens: enough fuel for all of them. *)
Definition consume (ts : list token) : result strict_error (list token) := consumeValue (2 * length ts + 2) ts.

(** [DecodeStrict]. *)
Definition DecodeStrict `{Tokenizer} `{TypedDecoder A} (raw : gostring) : result strict_error A :=
  if bool_decide (trim_space raw = []) then Err EmptyValue
  else
    let '(ts, ended) := json_tokens raw in
    rest ← consume ts;
    match rest, ended with
    | [], true =>
        match typed_decode raw with
        | Some (a, true) => Ok a
        | Some (_, false) => Err TrailingData
        | None => Err NotDecoded
        end
    | _, _ => Err TrailingData
    end.

(** [validateJSONShape]: the same walk, before the configuration of the workspaces is
    decoded. *)
Definition validateJSONShape `{Tokenizer} (raw : gostring) : result strict_error unit :=
  let '(ts, ended) := json_tokens raw in
  rest ← consume ts;
  match rest, ended with [], true => Ok tt | _, _ => Err TrailingData end.

(** It is the decoder that the other components ask for. *)
#[export] Instance strict_json `{Tokenizer} `{TypedDecoder A} (write : A -> option gostring) : Json A :=
  {| marshal := write; decode_strict s := match DecodeStrict s with Ok a => Some a | Err _ => None end |}.

(** ** Values *)

(** The tokens of a value. *)
Fixpoint tokens_of (v : json) : list token :=
  match v with
  | JNull => [TNull]
  | JBool b => [TBool b]
  | JNumber n => [TNumber n]
  | JString s => [TString s]
  | JArray l => TOpenArray :: concat (tokens_of <$> l) ++ [TCloseArray]
  | JObject l => TOpenObject :: concat ((fun m => TString m.1 :: tokens_of m.2) <$> l) ++ [TCloseObject]
  end.

Definition element_tokens (l : list json) : list token := concat (tokens_of <$> l).
Definition member_tokens (l : list (gostring * json)) : list token := concat ((fun m => TString m.1 :: tokens_of m.2) <$> l).

(** No object in a value names a key twice. *)
Inductive distinct_keys : json -> Prop :=
  | dk_null : distinct_keys JNull
  | dk_bool b : distinct_keys (JBool b)
  | dk_number n : distinct_keys (JNumber n)
  | dk_string s : distinct_keys (JString s)
  | dk_array l : Forall distinct_keys l -> distinct_keys (JArray l)
  | dk_object l : NoDup l.*1 -> Forall (fun m => distinct_keys m.2) l -> distinct_keys (JObject l).
#[local] Hint Constructors distinct_keys : core.

(** ** What the walk accepts *)

Lemma consume_sound fuel :
  (forall ts rest, consumeValue fuel ts = Ok rest -> exists v, distinct_keys v /\ ts = tokens_of v ++ rest) /\
  (forall seen ts rest, consume_members fuel seen ts = Ok rest ->
     exists l, NoDup l.*1 /\ (forall k, k ∈ l.*1 -> k ∉ seen) /\ Forall (fun m => distinct_keys m.2) l /\
       ts = member_tokens l ++ TCloseObject :: rest) /\
  (forall ts rest, consume_elements fuel ts = Ok rest ->
     exists l, Forall distinct_keys l /\ ts = element_tokens l ++ TCloseArray :: rest).
Proof.
  induction fuel as [|fuel (IHv & IHm & IHe)]; [done|]. split_and!.
  - intros [|[| | | |s|literal|b|] ts] rest; cbn [consumeValue]; try done.
    + intros (l & Hn & _ & Hf & ->)%IHm. exists (JObject l). split; [by constructor|]. cbn. by rewrite <- app_assoc.
    + intros (l & Hf & ->)%IHe. exists (JArray l). split; [by constructor|]. cbn. by rewrite <- app_assoc.
    + intros [= <-]. by exists (JString s).
    + intros [= <-]. by exists (JNumber literal).
    + intros [= <-]. by exists (JBool b).
    + intros [= <-]. by exists JNull.
  - intros seen [|[| | | |s|literal|b|] ts] rest; cbn [consume_members more]; try done.
    + intros [= <-]. exists []. repeat constructor. by intros k ?%elem_of_nil.
    + case_decide as Hk; [done|]. intros (ts' & (v & Hv & ->)%IHv & (l & Hn & Hs & Hf & ->)%IHm)%bind_Ok.
      exists ((s, v) :: l). split_and!; cbn.
      * constructor; [|done]. intros Hin%Hs. set_solver.
      * intros k [->|Hin]%elem_of_cons; [done|]. apply Hs in Hin. set_solver.
      * by constructor.
      * by rewrite <- app_assoc.
  - intros ts rest. cbn [consume_elements]. destruct (more ts) eqn:Em.
    + intros (ts' & (v & Hv & ->)%IHv & (l & Hf & ->)%IHe)%bind_Ok. exists (v :: l). split; [by constructor|].
      cbn. by rewrite <- app_assoc.
    + destruct ts as [|[] ts]; try done. intros [= <-]. by exists [].
Qed.

Lemma tokens_more v rest : more (tokens_of v ++ rest) = true.
Proof. by destruct v. Qed.

Lemma tokens_nonempty v : (0 < length (tokens_of v))%nat.
Proof. destruct v; cbn; lia. Qed.

Lemma consume_complete fuel :
  (forall v rest, (2 * length (tokens_of v) < fuel)%nat -> distinct_keys v -> consumeValue fuel (tokens_of v ++ rest) = Ok rest) /\
  (forall seen l rest, (2 * length (member_tokens l) < fuel)%nat -> NoDup l.*1 -> (forall k, k ∈ l.*1 -> k ∉ seen) ->
     Forall (fun m => distinct_keys m.2) l -> consume_members fuel seen (member_tokens l ++ TCloseObject :: rest) = Ok rest) /\
  (forall l rest, (2 * length (element_tokens l) + 1 < fuel)%nat -> Forall distinct_keys l ->
     consume_elements fuel (element_tokens l ++ TCloseArray :: rest) = Ok rest).
Proof.
  induction fuel as [|fuel (IHv & IHm & IHe)]; [split_and!; lia|]. split_and!.
  - intros v rest Hlen Hv. destruct Hv as [| | | |l Hf|l Hn Hf]; cbn [tokens_of app consumeValue]; try done; rewrite <- app_assoc.
    + apply IHe; [|done]. cbn [tokens_of length] in Hlen. rewrite length_app in Hlen. cbn [length] in Hlen. unfold element_tokens. lia.
    + apply IHm; [|done|set_solver|done]. cbn [tokens_of length] in Hlen. rewrite length_app in Hlen. unfold member_tokens. lia.
  - intros seen [|[k v] l] rest Hlen Hn Hs Hf; [done|]. unfold member_tokens in *. cbn in Hlen, Hn, Hs, Hf |- *.
    apply NoDup_cons in Hn as [Hk Hn]. inversion_clear Hf. rewrite length_app in Hlen.
    rewrite decide_False by (apply Hs; left). rewrite <- app_assoc, IHv; [|lia|done]. cbn [mbind result_bind].
    apply IHm; [lia|done| |done]. intros k' Hin. apply not_elem_of_union. split; [|apply Hs; by right].
    intros ->%elem_of_singleton. done.
  - intros [|v l] rest Hlen Hf; [done|]. unfold element_tokens in *. cbn in Hlen |- *. inversion_clear Hf.
    rewrite length_app in Hlen. pose proof (tokens_nonempty v). rewrite <- app_assoc, tokens_more, IHv; [|lia|done]. cbn [mbind result_bind].
    apply IHe; [lia|done].
Qed.

(** The walk never runs out of fuel. *)
Lemma consume_decides fuel :
  (forall ts, (2 * length ts < fuel)%nat ->
     match consumeValue fuel ts with Ok rest => (length rest < length ts)%nat | Err e => e <> OutOfFuel end) /\
  (forall seen ts, (2 * length ts < fuel)%nat ->
     match consume_members fuel seen ts with Ok rest => (length rest < length ts)%nat | Err e => e <> OutOfFuel end) /\
  (forall ts, (2 * length ts + 1 < fuel)%nat ->
     match consume_elements fuel ts with Ok rest => (length rest < length ts)%nat | Err e => e <> OutOfFuel end).
Proof.
  induction fuel as [|fuel (IHv & IHm & IHe)]; [split_and!; lia|]. split_and!.
  - intros [|[] ts] Hlen; cbn [consumeValue length] in *; try done; try lia.
    + specialize (IHm ∅ ts ltac:(lia)). destruct (consume_members _ _ _); [lia|done].
    + specialize (IHe ts ltac:(lia)). destruct (consume_elements _ _); [lia|done].
  - intros seen [|[| | | |s|literal|b|] ts] Hlen; cbn [consume_members more length] in *; try done; try lia.
    case_decide; [done|]. specialize (IHv ts ltac:(lia)). destruct (consumeValue fuel ts) as [rest|]; [|done]. cbn [mbind result_bind].
    specialize (IHm ({[s]} ∪ seen) rest ltac:(lia)). destruct (consume_members _ _ rest); [lia|done].
  - intros ts Hlen. cbn [consume_elements]. destruct (more ts) eqn:Em.
    + assert (Hv : match consumeValue fuel ts with Ok rest => (length rest < length ts)%nat | Err e => e <> OutOfFuel end) by (apply IHv; lia).
      destruct (consumeValue fuel ts) as [rest|]; [|done]. cbn [mbind result_bind].
      specialize (IHe rest ltac:(lia)). destruct (consume_elements _ rest); [lia|done].
    + destruct ts as [|[] ts]; try done. cbn. lia.
Qed.

(** C29. The walk decides, for every list of tokens, whether it starts with the tokens of a value
    in which no object names a key twice, and leaves exactly what follows the value. *)
Theorem consume_spec ts :
  consume ts <> Err OutOfFuel /\
  forall rest, consume ts = Ok rest <-> exists v, distinct_keys v /\ ts = tokens_of v ++ rest.
Proof.
  unfold consume. split.
  - intros E. destruct (consume_decides (2 * length ts + 2)) as [Hv _]. specialize (Hv ts ltac:(lia)). by rewrite E in Hv.
  - intros rest. split; [apply consume_sound|]. intros (v & Hv & ->). apply consume_complete; [|done].
    rewrite length_app. lia.
Qed.

(** What [DecodeStrict] returns was decoded from the text of one value without repeated
    keys, with nothing after it. *)
Lemma DecodeStrict_Ok `{Tokenizer} `{TypedDecoder A} raw a :
  DecodeStrict raw = Ok a ->
  typed_decode raw = Some (a, true) /\ exists v, distinct_keys v /\ json_tokens raw = (tokens_of v, true).
Proof.
  unfold DecodeStrict. case_bool_decide; [done|]. destruct (json_tokens raw) as [ts ended].
  intros (rest & (v & Hv & ->)%consume_spec & Hd)%bind_Ok.
  destruct rest, ended; try done. destruct (typed_decode raw) as [[? []]|]; try done. injection Hd as ->.
  split; [done|]. exists v. by rewrite app_nil_r.
Qed.

Lemma DecodeStrict_accepts `{Tokenizer} `{TypedDecoder A} raw a v :
  trim_space raw <> [] -> json_tokens raw = (tokens_of v, true) -> distinct_keys v -> typed_decode raw = Some (a, true) ->
  DecodeStrict raw = Ok a.
Proof.
  intros Ht Hj Hv Hd. unfold DecodeStrict. rewrite bool_decide_false by done. rewrite Hj.
  assert (consume (tokens_of v) = Ok []) as ->. { apply consume_spec. exists v. by rewrite app_nil_r. }
  cbn [mbind result_bind]. by rewrite Hd.
Qed.

(** ** Keys that differ only in their case *)

(** [encoding/json] gives a member to the field whose name it equals when case is ignored,
    so these are one field to the decoder; the walk lets both through. *)
Example case_variants_pass :
  consume (tokens_of (JObject [("session_id" : gostring, JString "a"); ("Session_ID" : gostring, JString "b")])) = Ok [].
Proof. reflexivity. Qed.

Example repeated_key_refused :
  consume (tokens_of (JArray [JObject [("id" : gostring, JNull); ("x" : gostring, JBool true); ("id" : gostring, JNull)]])) =
  Err (DuplicateField "id").
Proof. reflexivity. Qed.

Lemma trailing_value_left : consume (tokens_of (JNumber "1") ++ tokens_of JNull) = Ok [TNull].
Proof. reflexivity. Qed.
