(* ===== verification/AuditLog.v ===== *)
(** * The audit log ([internal/audit/audit.go])

    Events are prepared, redacted and appended to a log as lines of JSON; a
    transaction is a record written before an operation and one written after it. *)
From S2P Require Import Prelude GoStrings Strconv Utf8 Token FileEdit Redact.
#[local] Open Scope Z_scope.

(** The fields of an event that are strings. *)
Inductive str_field :=
  | UserID | ClientID | SessionID | AuthPrincipal | Transport | BridgeInstanceID | RemoteIP
  | RequestID | ClientRequestID | TokenID | Tool
  | WorkspaceID | WorkspacePath | Path | NetworkTarget
  | PolicyID | PolicyVersion | PolicyDecision
  | ApprovalMode | ApprovalSource | ApprovalID | Approver
  | WorkerID | Stage | BeforeHash | AfterHash | Status | SecurityDegradationReason.

#[export] Instance str_field_eq_dec : EqDecision str_field.
Proof. solve_decision. Defined.

(** A nil slice of [SecurityDegradationFields] is [None]. *)
Record Event := mkEvent {
  e_Time : gotime; e_str : str_field -> gostring; e_ParameterSummary : option ParameterSummary;
  e_Allowed : bool; e_ApprovalRequired : bool; e_Approved : bool; e_ApprovalVerified : bool;
  e_StartedAt : gotime; e_EndedAt : gotime; e_DurationMS : Z; e_InputBytes : Z; e_OutputBytes : Z;
  e_SecurityDegraded : bool; e_SecurityDegradationFields : option (list gostring)
}.

Definition set_str (f : str_field) (v : gostring) (e : Event) : Event :=
  mkEvent (e_Time e) (fun g => if decide (g = f) then v else e_str e g) (e_ParameterSummary e) (e_Allowed e)
    (e_ApprovalRequired e) (e_Approved e) (e_ApprovalVerified e) (e_StartedAt e) (e_EndedAt e) (e_DurationMS e)
    (e_InputBytes e) (e_OutputBytes e) (e_SecurityDegraded e) (e_SecurityDegradationFields e).

(** The times, the duration and [Approved]. *)
Definition set_times (time started ended duration : Z) (approved : bool) (e : Event) : Event :=
  mkEvent time (e_str e) (e_ParameterSummary e) (e_Allowed e) (e_ApprovalRequired e) approved (e_ApprovalVerified e)
    started ended duration (e_InputBytes e) (e_OutputBytes e) (e_SecurityDegraded e) (e_SecurityDegradationFields e).
Definition set_Time (t : gotime) (e : Event) := set_times t (e_StartedAt e) (e_EndedAt e) (e_DurationMS e) (e_Approved e) e.
Definition set_StartedAt (t : gotime) (e : Event) := set_times (e_Time e) t (e_EndedAt e) (e_DurationMS e) (e_Approved e) e.
Definition set_EndedAt (t : gotime) (e : Event) := set_times (e_Time e) (e_StartedAt e) t (e_DurationMS e) (e_Approved e) e.
Definition set_DurationMS (d : Z) (e : Event) := set_times (e_Time e) (e_StartedAt e) (e_EndedAt e) d (e_Approved e) e.
Definition set_Approved (b : bool) (e : Event) := set_times (e_Time e) (e_StartedAt e) (e_EndedAt e) (e_DurationMS e) b e.

Definition IsZero (t : gotime) : bool := t =? zero_time.

(** [t.Sub(u).Milliseconds()]: a [Duration] saturates, the division truncates. *)
Definition sub_ms (t u : gotime) : Z := Z.quot (Z.max min_int (Z.min max_int (t - u))) 1000000.

Inductive write_error := InvalidCount | NoProgress | WriterError (message : gostring) | OutOfFuel.

(** An [io.Writer]: the count and the error it returns. [Flush] and [Sync] are the
    optional interfaces of the writer. *)
Class Writer (W : Type) := {
  w_write : gostring -> W -> (Z * option gostring) * W;
  w_flush : option (W -> option gostring * W);
  w_sync : option (W -> option gostring * W)
}.

(** The log is what was written; a writer may write a part, miscount or fail. *)
Class WriterLaws (W : Type) `{Writer W} := {
  written : W -> gostring;
  write_appends p w n err w' : w_write p w = ((n, err), w') ->
    exists k, (k <= length p)%nat /\ written w' = written w ++ take k p /\ (0 <= n <= len p -> n = Z.of_nat k);
  flush_keeps f w r w' : w_flush = Some f -> f w = (r, w') -> written w' = written w;
  sync_keeps f w r w' : w_sync = Some f -> f w = (r, w') -> written w' = written w
}.

(** [json.Marshal] of an event, which fails for a year out of range. *)
Class EventJson := { marshal_event : Event -> option gostring }.

Inductive failure := NilWriter | WriteFailed (e : write_error) | FlushFailed (m : gostring) | SyncFailed (m : gostring).
Inductive audit_error := Unavailable (f : failure) | MarshalFailed | TransactionFinished.

Record Logger := mkLogger { has_writer : bool; failed : option failure; pending : gmap gostring gotime }.
Record Transaction := mkTransaction { t_start : Event; t_finished : bool }.

Definition New (has_writer : bool) : Logger := mkLogger has_writer None ∅.

Section audit.
Context `{TextTables} `{UnicodeTables} `{JsonText} `{Crypto} `{EventJson} {W : Type} `{Writer W}.

(** ** Preparing events *)

Definition isTerminalStatus (status : gostring) : bool :=
  negb (bool_decide (to_lower (trim_space status) ∈
    ([[]; "started"; "starting"; "pending"; "running"; "in_progress"] : list gostring))).

Definition redacted_summary (original : ParameterSummary) : ParameterSummary :=
  match summarizeParameters (Normalized original) false with
  | Ok clean => mkSummary (Normalized clean) (SHA256 clean) (Bytes original)
                  (uniqueSorted (RedactedFields clean ++ RedactedFields original))
  | Err _ =>
      let text := byte_of 34 :: RedactedValue ++ [byte_of 34] in
      mkSummary text (digestBytes text) (Bytes original) ["parameter_summary"]
  end.

Definition sanitizeEvent (e : Event) : Event :=
  mkEvent (e_Time e) (fun f => RedactSensitiveValue (e_str e f)) (redacted_summary <$> e_ParameterSummary e) (e_Allowed e)
    (e_ApprovalRequired e) (e_Approved e) (e_ApprovalVerified e) (e_StartedAt e) (e_EndedAt e) (e_DurationMS e)
    (e_InputBytes e) (e_OutputBytes e) (e_SecurityDegraded e)
    (match e_SecurityDegradationFields e with
     | Some (x :: l) => Some (RedactSensitiveValue <$> x :: l)
     | _ => None
     end).

Definition is_empty (s : gostring) : bool := bool_decide (s = []).
Definition status_of (e : Event) : gostring := e_str e Status.
Definition terminal (e : Event) : bool := isTerminalStatus (status_of e).

Definition prepareEvent (now : gotime) (e : Event) : Event :=
  let e := if IsZero (e_Time e) then set_Time now e else e in
  let e := if IsZero (e_StartedAt e) then set_StartedAt (e_Time e) e else e in
  let e := if IsZero (e_EndedAt e) && terminal e then set_EndedAt (e_Time e) e else e in
  let e := if negb (IsZero (e_EndedAt e)) && (e_DurationMS e =? 0)
           then set_DurationMS (Z.max 0 (sub_ms (e_EndedAt e) (e_StartedAt e))) e else e in
  let e := if is_empty (e_str e Stage) && negb (is_empty (status_of e))
           then set_str Stage (if terminal e then "completed" else "started") e else e in
  let e := if negb (is_empty (e_str e ApprovalID)) then set_Approved true e else e in
  let e := if is_empty (e_str e PolicyDecision) && negb (is_empty (e_str e PolicyID))
           then set_str PolicyDecision (if e_Allowed e then "allow" else "deny") e else e in
  sanitizeEvent e.

Definition prepareStart (now : gotime) (e : Event) : Event :=
  let e := if IsZero (e_StartedAt e) then set_StartedAt now e else e in
  let e := if IsZero (e_Time e) then set_Time (e_StartedAt e) e else e in
  let e := if is_empty (e_str e Stage) then set_str Stage "started" e else e in
  if is_empty (status_of e) then set_str Status "started" e else e.

Definition prepareFinish (now : gotime) (e : Event) : Event :=
  let e := if IsZero (e_EndedAt e) then set_EndedAt now e else e in
  let e := if IsZero (e_Time e) then set_Time (e_EndedAt e) e else e in
  let e := if is_empty (e_str e Stage) || bool_decide (e_str e Stage = "started") then set_str Stage "completed" e else e in
  let e := if is_empty (status_of e) || bool_decide (status_of e = "started") then set_str Status "success" e else e in
  if negb (IsZero (e_StartedAt e)) then set_DurationMS (Z.max 0 (sub_ms (e_EndedAt e) (e_StartedAt e))) e else e.

(** Field by field, what is not the zero value of its type. *)
Definition mergeEvents (start result : Event) : Event :=
  let z (a b : Z) := if b =? 0 then a else b in
  let t (a b : gotime) := if IsZero b then a else b in
  mkEvent (t (e_Time start) (e_Time result))
    (fun f => if is_empty (e_str result f) then e_str start f else e_str result f)
    (match e_ParameterSummary result with None => e_ParameterSummary start | s => s end)
    (e_Allowed start || e_Allowed result) (e_ApprovalRequired start || e_ApprovalRequired result)
    (e_Approved start || e_Approved result) (e_ApprovalVerified start || e_ApprovalVerified result)
    (t (e_StartedAt start) (e_StartedAt result)) (t (e_EndedAt start) (e_EndedAt result))
    (z (e_DurationMS start) (e_DurationMS result)) (z (e_InputBytes start) (e_InputBytes result))
    (z (e_OutputBytes start) (e_OutputBytes result)) (e_SecurityDegraded start || e_SecurityDegraded result)
    (match e_SecurityDegradationFields result with None => e_SecurityDegradationFields start | s => s end).

(** ** Appending *)

Fixpoint writeAll (fuel : nat) (p : gostring) (w : W) : option write_error * W :=
  match p, fuel with
  | [], _ => (None, w)
  | _, O => (Some OutOfFuel, w)
  | _, S fuel =>
      let '(n, err, w) := w_write p w in
      if (n <? 0) || (len p <? n) then (Some InvalidCount, w)
      else match err with
           | Some m => (Some (WriterError m), w)
           | None => if n =? 0 then (Some NoProgress, w) else writeAll fuel (drop (Z.to_nat n) p) w
           end
  end.

(** The event as it is written: a terminal event without a start takes that of the
    pending request. *)
Definition logged_event (l : Logger) (now : gotime) (e0 : Event) : Event :=
  let e := prepareEvent now e0 in
  if terminal e && IsZero (e_StartedAt e0) && negb (is_empty (e_str e RequestID)) then
    match pending l !! e_str e RequestID with
    | Some startedAt => set_DurationMS (Z.max 0 (sub_ms (e_EndedAt e) startedAt)) (set_StartedAt startedAt e)
    | None => e
    end
  else e.

Definition fail (l : Logger) (f : failure) : Logger := mkLogger (has_writer l) (Some f) (pending l).

Definition if_durable (durable : bool) (op : option (W -> option gostring * W)) (w : W) : option gostring * W :=
  match op with Some f => if durable then f w else (None, w) | None => (None, w) end.

Definition track (l : Logger) (e : Event) : Logger :=
  if is_empty (e_str e RequestID) then l
  else mkLogger (has_writer l) (failed l)
    (if terminal e then delete (e_str e RequestID) (pending l) else <[e_str e RequestID := e_StartedAt e]> (pending l)).

Definition record (l : Logger) (now : gotime) (e0 : Event) (durable : bool) (w : W)
  : result audit_error unit * Logger * W :=
  match failed l with
  | Some f => (Err (Unavailable f), l, w)
  | None =>
      if negb (has_writer l) then (Err (Unavailable NilWriter), fail l NilWriter, w)
      else
        let e := logged_event l now e0 in
        match marshal_event e with
        | None => (Err MarshalFailed, l, w)
        | Some json =>
            let line := json ++ [LF] in
            match writeAll (length line) line w with
            | (Some err, w) => (Err (Unavailable (WriteFailed err)), fail l (WriteFailed err), w)
            | (None, w) =>
                match if_durable durable w_flush w with
                | (Some m, w) => (Err (Unavailable (FlushFailed m)), fail l (FlushFailed m), w)
                | (None, w) =>
                    match if_durable durable w_sync w with
                    | (Some m, w) => (Err (Unavailable (SyncFailed m)), fail l (SyncFailed m), w)
                    | (None, w) => (Ok tt, track l e, w)
                    end
                end
            end
        end
  end.

Definition Record_ (l : Logger) (now : gotime) (e : Event) (w : W) := record l now e false w.

(** [now] and [now'] are the clock readings of [prepareStart] and [prepareEvent]. *)
Definition Prewrite (l : Logger) (now now' : gotime) (e : Event) (w : W)
  : result audit_error Transaction * Logger * W :=
  let e := prepareStart now e in
  match record l now' e true w with
  | (Ok _, l, w) => (Ok (mkTransaction e false), l, w)
  | (Err err, l, w) => (Err err, l, w)
  end.

Definition final_event (start result : Event) (now : gotime) : Event :=
  let final := set_EndedAt (e_EndedAt result) (set_Time (e_Time result) (mergeEvents start result)) in
  prepareFinish now final.

Definition Finish (t : Transaction) (result : Event) (l : Logger) (now now' : gotime) (w : W)
  : Prelude.result audit_error unit * Transaction * Logger * W :=
  if t_finished t then (Err TransactionFinished, t, l, w)
  else
    let '(r, l, w) := record l now' (final_event (t_start t) result now) true w in
    (r, mkTransaction (t_start t) true, l, w).

Definition Complete (t : Transaction) (status : gostring) (update : Event -> Event) (l : Logger) (now now' : gotime) (w : W) :=
  let result := set_DurationMS 0 (set_EndedAt zero_time (set_Time zero_time (t_start t))) in
  Finish t (update (set_str Stage "completed" (set_str Status status result))) l now now' w.

(** ** The log *)

Section log.
Context `{!WriterLaws W}.
#[local] Set Default Proof Using "All".

(** With as much fuel as there are bytes, a write ends: everything is appended, or a
    part and an error of the writer. *)
Lemma writeAll_spec fuel p w r w' :
  (length p <= fuel)%nat -> writeAll fuel p w = (r, w') ->
  exists k, (k <= length p)%nat /\ written w' = written w ++ take k p /\
    (r = None -> k = length p) /\ r <> Some OutOfFuel.
Proof.
  revert p w. induction fuel as [|fuel IH]; intros p w Hl Hr.
  { destruct p; [|cbn in Hl; lia]. injection Hr as <- <-. exists 0%nat. by rewrite take_0, app_nil_r. }
  destruct p as [|c p]; [injection Hr as <- <-; exists 0%nat; by rewrite take_0, app_nil_r|].
  remember (c :: p) as q eqn:Hq. cbn [writeAll] in Hr. rewrite Hq in Hr at 1. cbn match in Hr.
  destruct (w_write q w) as [[n err] w1] eqn:E. apply write_appends in E as (k & Hk & Hw & Hn).
  destruct (_ || _) eqn:Hb; [injection Hr as <- <-; by exists k|]. apply orb_false_iff in Hb as [?%Z.ltb_ge ?%Z.ltb_ge].
  specialize (Hn ltac:(lia)). subst n.
  destruct err as [m|]; [injection Hr as <- <-; by exists k|].
  destruct (Z.eqb_spec (Z.of_nat k) 0) as [?|Hk0]; [injection Hr as <- <-; by exists k|].
  rewrite Nat2Z.id in Hr. apply IH in Hr as (k' & Hk' & Hw' & Hr & Ho); [|rewrite length_drop; lia].
  rewrite length_drop in *. exists (k + k')%nat. split; [lia|]. split; [|split; [intros E; specialize (Hr E); lia|done]].
  by rewrite Hw', Hw, <- (assoc_L (++)), take_take_drop.
Qed.

Definition line_of (l : Logger) (now : gotime) (e : Event) : gostring :=
  default [] (marshal_event (logged_event l now e)) ++ [LF].

Definition unavailable {A} (r : result audit_error A) : Prop := exists f, r = Err (Unavailable f).

Lemma if_durable_keeps durable op w r w' :
  op = w_flush \/ op = w_sync -> if_durable durable op w = (r, w') -> written w' = written w.
Proof.
  intros Ho. unfold if_durable. destruct op as [f|] eqn:E; [|by intros [= _ <-]]. destruct durable; [|by intros [= _ <-]].
  destruct Ho as [Ho|Ho]; [by apply flush_keeps|by apply sync_keeps].
Qed.

(** One record: a whole line, or nothing, or a part of a line and a failed logger. *)
Lemma record_spec l now e durable w r l' w' :
  record l now e durable w = (r, l', w') ->
  exists k, (k <= length (line_of l now e))%nat /\ written w' = written w ++ take k (line_of l now e) /\
    match r with
    | Ok _ => failed l = None /\ k = length (line_of l now e) /\ l' = track l (logged_event l now e)
    | Err (Unavailable f) => failed l' = Some f /\ (forall g, failed l = Some g -> k = 0%nat /\ l' = l)
    | Err _ => failed l = None /\ k = 0%nat /\ l' = l
    end.
Proof.
  unfold record. destruct (failed l) as [f|] eqn:Hf.
  { intros [= <- <- <-]. exists 0%nat. rewrite take_0, app_nil_r. split; [lia|]. split; [done|]. by split. }
  destruct (negb _); [intros [= <- <- <-]; exists 0%nat; rewrite take_0, app_nil_r; split; [lia|]; by repeat split|].
  destruct (marshal_event _) as [json|] eqn:Hm;
    [|intros [= <- <- <-]; exists 0%nat; rewrite take_0, app_nil_r; split; [lia|]; by repeat split].
  assert (Hline : line_of l now e = json ++ [LF]) by (unfold line_of; by rewrite Hm). rewrite Hline.
  destruct (writeAll _ _ _) as [[err|] w1] eqn:Hw.
  { apply writeAll_spec in Hw as (k & Hk & Hw & _); [|done]. intros [= <- <- <-]. exists k. by repeat split. }
  apply writeAll_spec in Hw as (k & Hk & Hw & Hall & _); [|done]. rewrite (Hall eq_refl) in *. rewrite take_ge in Hw by done.
  destruct (if_durable durable w_flush w1) as [fl w2] eqn:Hfl. apply if_durable_keeps in Hfl as Hw2; [|by left].
  destruct fl as [m|]; [intros [= <- <- <-]; exists (length (json ++ [LF])); rewrite take_ge, Hw2 by done; by repeat split|].
  destruct (if_durable durable w_sync w2) as [sy w3] eqn:Hsy. apply if_durable_keeps in Hsy as Hw3; [|by right].
  destruct sy as [m|]; intros [= <- <- <-]; exists (length (json ++ [LF])); rewrite take_ge, Hw3, Hw2 by done; by repeat split.
Qed.

(** Records as they come; each outcome with the line it was for. *)
Fixpoint run (ops : list (gotime * Event * bool)) (l : Logger) (w : W)
  : list (result audit_error unit * gostring) * Logger * W :=
  match ops with
  | [] => ([], l, w)
  | (now, e, durable) :: ops =>
      let '(r, l1, w1) := record l now e durable w in
      let '(outs, l2, w2) := run ops l1 w1 in ((r, line_of l now e) :: outs, l2, w2)
  end.

Definition accepted (outs : list (result audit_error unit * gostring)) : list gostring :=
  omap (fun x => if is_ok x.1 then Some x.2 else None) outs.

Definition lost (x : result audit_error unit * gostring) : Prop := unavailable x.1.

Lemma run_failed ops l w f outs l' w' :
  failed l = Some f -> run ops l w = (outs, l', w') ->
  Forall lost outs /\ accepted outs = [] /\ l' = l /\ written w' = written w.
Proof.
  intros Hf. revert w outs l' w'. induction ops as [|[[now e] durable] ops IH]; intros w outs l' w'; cbn [run].
  { by intros [= <- <- <-]. }
  destruct (record l now e durable w) as [[r l1] w1] eqn:Hr.
  assert (r = Err (Unavailable f) /\ l1 = l /\ w1 = w) as (-> & -> & ->)
    by (unfold record in Hr; rewrite Hf in Hr; by injection Hr as <- <- <-).
  destruct (run ops l w) as [[outs' l2] w2] eqn:E. apply IH in E as (Ho & Ha & -> & Hw).
  intros [= <- <- <-]. split; [constructor; [by eexists|done]|]. by rewrite <- Ha, Hw.
Qed.

(** The beginning of a line, or nothing. *)
Definition part_of_line (part : gostring) : Prop :=
  part = [] \/ exists l now e k, part = take k (line_of l now e).

Lemma run_intact ops l w outs l' w' :
  failed l = None -> run ops l w = (outs, l', w') ->
  exists good bad part, outs = good ++ bad /\ Forall (fun x => ~ lost x) good /\ Forall lost bad /\
    written w' = written w ++ concat (accepted outs) ++ part /\ accepted bad = [] /\
    part_of_line part /\ (failed l' = None -> part = [] /\ bad = []).
Proof.
  revert l w outs l' w'. induction ops as [|[[now e] durable] ops IH]; intros l w outs l' w' Hf; cbn [run].
  { intros [= <- <- <-]. exists [], [], []. cbn. rewrite app_nil_r. repeat (split; [done|]). split; [by left|done]. }
  destruct (record l now e durable w) as [[r l1] w1] eqn:Hr. apply record_spec in Hr as (k & Hk & Hw & Hr).
  destruct (run ops l1 w1) as [[outs' l2] w2] eqn:E. intros [= <- <- <-].
  assert (Hgo : forall line, ~ unavailable r -> failed l1 = None -> take k (line_of l now e) = line ->
            (if is_ok r then line else []) = line ->
            exists good bad part, (r, line_of l now e) :: outs' = good ++ bad /\ Forall (fun x => ~ lost x) good /\
              Forall lost bad /\ written w2 = written w ++ (line ++ concat (accepted outs')) ++ part /\ accepted bad = [] /\
              part_of_line part /\ (failed l2 = None -> part = [] /\ bad = [])).
  { intros line Hn Hf1 Hline _. destruct (IH _ _ _ _ _ Hf1 E) as (good & bad & part & -> & Hg & Hb & Hw2 & Hrest).
    exists ((r, line_of l now e) :: good), bad, part. split; [done|]. split; [by constructor|]. split; [done|].
    split; [|done]. by rewrite Hw2, Hw, Hline, <- !(assoc_L (++)). }
  destruct r as [[]|[f| |]].
  - destruct Hr as (_ & -> & ->). rewrite take_ge in Hgo by done.
    destruct (Hgo (line_of l now e)) as (good & bad & part & Hx); [by intros [? ?]| |done..|].
    + unfold track. by destruct (is_empty _).
    + exists good, bad, part. exact Hx.
  - destruct Hr as [Hf1 _]. apply (run_failed _ _ _ f) in E as (Ho & Ha & -> & Hw2); [|done].
    exists [], ((Err (Unavailable f), line_of l now e) :: outs'), (take k (line_of l now e)).
    split; [done|]. split; [done|]. split; [constructor; [by eexists|done]|].
    unfold accepted in *. cbn [omap list_omap is_ok fst]. rewrite Ha. split; [by rewrite Hw2, Hw|]. split; [done|].
    split; [right; by eexists _, _, _, _|congruence].
  - destruct Hr as (_ & -> & ->). destruct (Hgo []) as (good & bad & part & Hx); [by intros [? ?]|done..|].
    by exists good, bad, part.
  - destruct Hr as (_ & -> & ->). destruct (Hgo []) as (good & bad & part & Hx); [by intros [? ?]|done..|].
    by exists good, bad, part.
Qed.

(** C30. Whatever the writer does, the log is the lines of the records that were reported as
    written, whole and in their order, followed at most by a part of one line; from
    the first failure of the writer on every record is refused and nothing is
    appended, so that a damaged line is always the last. *)
Theorem log_intact ops w outs l' w' :
  run ops (New true) w = (outs, l', w') ->
  exists good bad part, outs = good ++ bad /\ Forall (fun x => ~ lost x) good /\ Forall lost bad /\
    written w' = written w ++ concat (accepted good) ++ part /\ part_of_line part /\
    (failed l' = None -> part = [] /\ bad = []).
Proof.
  intros (good & bad & part & -> & Hg & Hb & Hw & Ha & Hp)%run_intact; [|done]. exists good, bad, part.
  split; [done|]. split; [done|]. split; [done|]. split; [|done]. rewrite Hw. do 3 f_equal. unfold accepted in *. by rewrite omap_app, Ha, app_nil_r.
Qed.

(** ** Transactions *)

(** A transaction that is finished several times. *)
Fixpoint finish_all (t : Transaction) (results : list (Event * gotime * gotime)) (l : Logger) (w : W)
  : list (Prelude.result audit_error unit) * Logger * W :=
  match results with
  | [] => ([], l, w)
  | (result, now, now') :: results =>
      let '(r, t, l, w) := Finish t result l now now' w in
      let '(outs, l, w) := finish_all t results l w in (r :: outs, l, w)
  end.

Lemma finish_all_finished t results l w outs l' w' :
  t_finished t = true -> finish_all t results l w = (outs, l', w') ->
  Forall (fun r => r = Err TransactionFinished) outs /\ l' = l /\ w' = w.
Proof.
  intros Ht. revert outs l' w'. induction results as [|[[result now] now'] results IH]; intros outs l' w'; cbn [finish_all].
  { by intros [= <- <- <-]. }
  unfold Finish. rewrite Ht. destruct (finish_all t results l w) as [[outs' l1] w1] eqn:E.
  destruct (IH _ _ _ eq_refl) as (Ho & -> & ->). intros [= <- <- <-]. by repeat constructor.
Qed.

Definition inherited (start result : Event) (f : str_field) : gostring :=
  if is_empty (e_str result f) then e_str start f else e_str result f.

Lemma final_event_str start result now f :
  f <> Stage -> f <> Status -> e_str (final_event start result now) f = inherited start result f.
Proof.
  intros Hs1 Hs2. unfold final_event, prepareFinish. repeat case_match; cbn; rewrite ?decide_False by done; done.
Qed.

Lemma final_event_duration start result now :
  let ev := final_event start result now in
  IsZero (e_StartedAt ev) = false -> e_DurationMS ev = Z.max 0 (sub_ms (e_EndedAt ev) (e_StartedAt ev)).
Proof.
  unfold final_event, prepareFinish. cbv zeta.
  match goal with |- context [negb (IsZero (e_StartedAt ?e))] => destruct (IsZero (e_StartedAt e)) eqn:E end;
    cbn [negb]; intros Hs; [congruence|done].
Qed.

(** An operation that was recorded before it ran is recorded once more at most, however
    often it is finished: the later calls are refused. The first record is in the log
    before [Prewrite] returns; the second carries the identity of the first in every
    field the result leaves empty, and the time between the two. *)
Theorem transaction_recorded l now now' e w t l1 w1 result later later' more outs l2 w2 :
  Prewrite l now now' e w = (Ok t, l1, w1) ->
  finish_all t ((result, later, later') :: more) l1 w1 = (outs, l2, w2) ->
  let final := final_event (t_start t) result later in
  t_start t = prepareStart now e /\ written w1 = written w ++ line_of l now' (prepareStart now e) /\
  (exists r, head outs = Some r /\ Forall (fun r => r = Err TransactionFinished) (tail outs) /\
     exists k, written w2 = written w1 ++ take k (line_of l1 later' final) /\
       (r = Ok tt -> (length (line_of l1 later' final) <= k)%nat)) /\
  (forall f, f <> Stage -> f <> Status -> e_str final f = inherited (t_start t) result f) /\
  (IsZero (e_StartedAt final) = false ->
     e_DurationMS final = Z.max 0 (sub_ms (e_EndedAt final) (e_StartedAt final))).
Proof.
  unfold Prewrite. destruct (record l now' _ true w) as [[r0 l0] w0] eqn:Hp. apply record_spec in Hp as (k0 & Hk0 & Hw0 & Hr0).
  destruct r0 as [[]|]; [|done]. destruct Hr0 as (_ & -> & ->). rewrite take_ge in Hw0 by done. intros [= <- <- <-].
  cbn [finish_all]. unfold Finish. cbn [t_finished t_start].
  destruct (record _ later' _ true w0) as [[r1 l1'] w1'] eqn:Hf. apply record_spec in Hf as (k & Hk & Hw & Hr).
  destruct (finish_all _ more _ _) as [[outs' l2'] w2'] eqn:Hm. apply finish_all_finished in Hm as (Ho & -> & ->); [|done].
  intros [= <- <- <-]. split; [done|]. split; [done|]. split; [|split; [|apply final_event_duration]].
  - exists r1. split; [done|]. split; [done|]. exists k. split; [done|]. intros ->. destruct Hr as (_ & -> & _). done.
  - intros f ? ?. by apply final_event_str.
Qed.
End log.
End audit.

(** ** Witnesses *)

(** A disk of bounded size. *)
Definition disk_writer : Writer (gostring * nat) := {|
  w_write p w :=
    let k := Nat.min (length p) w.2 in
    ((Z.of_nat k, if (length p <=? w.2)%nat then None else Some "full"), (w.1 ++ take k p, (w.2 - k)%nat));
  w_flush := None;
  w_sync := Some (fun w => (None, w))
|}.

Lemma disk_writer_laws : @WriterLaws (gostring * nat) disk_writer.
Proof.
  refine {| written := fst |}; cbn.
  - intros p [d c] n err [d' c'] [= <- _ <- _]. exists (Nat.min (length p) c). cbn. split; [lia|]. done.
  - done.
  - by intros f w r w' [= <-] [= _ <-].
Defined.

Definition id_json : EventJson := {| marshal_event e := Some (e_str e RequestID) |}.
Definition sample_event (id : gostring) : Event :=
  mkEvent zero_time (fun f => if decide (f = RequestID) then id else []) None false false false false zero_time zero_time
    0 0 0 false None.

Definition sample_run :=
  @run pwd_tables ascii_tables small_json toy_crypto id_json (gostring * nat) disk_writer
    [(1, sample_event "r1", false); (2, sample_event "r2", true); (3, sample_event "r3", true)] (New true) ([], 5%nat).

Lemma triple_eta {A B C} (x : A * B * C) : x = (x.1.1, x.1.2, x.2).
Proof. by destruct x as [[]]. Qed.

Lemma log_intact_witness :
  sample_run.2.1 = "r1" ++ [LF] ++ "r2" /\ exists good part, sample_run.2.1 = concat (accepted good) ++ part /\ length good = 1%nat.
Proof.
  split; [vm_compute; reflexivity|].
  destruct (@log_intact pwd_tables ascii_tables small_json toy_crypto id_json (gostring * nat) disk_writer disk_writer_laws
    _ _ sample_run.1.1 sample_run.1.2 sample_run.2 (triple_eta sample_run)) as (good & bad & part & Hs & Hg & Hb & Hw & _).
  exists good, part. split; [exact Hw|].
  assert (Hx : sample_run.1.1 = [(Ok tt, "r1" ++ [LF]); (Err (Unavailable (WriteFailed (WriterError "full"))), "r2" ++ [LF]);
    (Err (Unavailable (WriteFailed (WriterError "full"))), "r3" ++ [LF])]) by (vm_compute; reflexivity).
  rewrite Hx in Hs. destruct good as [|x [|y good]]; [|reflexivity|].
  - destruct bad as [|b bad]; [discriminate Hs|]. injection Hs as <- _. inversion Hb as [|? ? [f Hl] ?]. discriminate Hl.
  - injection Hs as <- <- _. inversion Hg as [|? ? _ Hg']. inversion Hg' as [|? ? Hn _]. destruct Hn. eexists. reflexivity.
Defined.

Definition sample_prewrite :=
  @Prewrite pwd_tables ascii_tables small_json toy_crypto id_json (gostring * nat) disk_writer (New true) 1 2
    (sample_event "r1") ([], 9%nat).
Lemma transaction_recorded_witness :
  exists t l1 w1, sample_prewrite = (Ok t, l1, w1) /\
    e_str (final_event (t_start t) (sample_event []) 5) RequestID = "r1".
Proof.
  assert (Hok : is_ok sample_prewrite.1.1 = true) by (vm_compute; reflexivity).
  destruct sample_prewrite as [[[t|] l1] w1] eqn:E; [clear Hok|discriminate Hok]. exists t, l1, w1. split; [reflexivity|].
  destruct (@finish_all pwd_tables ascii_tables small_json toy_crypto id_json (gostring * nat) disk_writer t
    [(sample_event [], 5, 6); (sample_event "r9", 7, 8)] l1 w1) as [[outs l2] w2] eqn:F.
  destruct (@transaction_recorded pwd_tables ascii_tables small_json toy_crypto id_json (gostring * nat) disk_writer
    disk_writer_laws (New true) 1 2 (sample_event "r1") ([], 9%nat) t l1 w1 (sample_event []) 5 6
    [(sample_event "r9", 7, 8)] outs l2 w2 E F) as (Hs & _ & _ & Hi & _).
  rewrite Hs in Hi |- *. etransitivity; [exact (Hi RequestID ltac:(discriminate) ltac:(discriminate))|vm_compute; reflexivity].
Defined.
