(* ===== verification/ApprovalView.v ===== *)
(** * Review views ([internal/approvalview/view.go])

    What an approver is shown: the dry run of an operation joined with the claims to be
    approved. Its digest is part of what an approval binds. *)
From S2P Require Import Prelude GoStrings Strconv Utf8 GoPath Token FileEdit Replay Approval.
#[local] Open Scope Z_scope.

Definition SchemaVersion : gostring := "approval-review/v1".
Definition MaxFiles : Z := 20.
Definition MaxDiffBytes : Z := Z.shiftl 1 20.

Record DryRunFile := mkDryRunFile {
  df_Path : gostring; df_BeforeSHA256 : gostring; df_AfterSHA256 : gostring; df_Diff : gostring;
  df_DiffTruncated : bool; df_Encoding : gostring; df_Newline : gostring; df_Bytes : Z
}.
Record DryRun := mkDryRun { dr_Risk : gostring; dr_Files : list DryRunFile }.

Record ViewTarget := mkViewTarget {
  vt_Order : Z; vt_Path : gostring; vt_BeforeSHA256 : gostring; vt_AfterSHA256 : gostring; vt_Diff : gostring;
  vt_Encoding : gostring; vt_Newline : gostring; vt_Bytes : Z
}.
Record View := mkView {
  v_Schema : gostring; v_Risk : gostring; v_Operation : gostring; v_Approver : gostring; v_Session : gostring;
  v_Challenge : gostring; v_Expiry : gostring; v_Persisted : bool; v_Targets : list ViewTarget
}.

Inductive view_error :=
  | BadRisk | BadClaims | BadChallenge | NoTargets | LegacyMismatch | TargetLimit | BadTargetPath | TargetTwice
  | BadTargetHash | TargetMismatch | BadFile | FileTwice | DiffLimit | BadHeader | BadIdentity | BadExpiry
  | BadOrder | BadMetadata | MarshalError.

(** [time.Format] and [time.Parse] with the layout [time.RFC3339Nano]. *)
Class TimeText := {
  format_time : gotime -> gostring;
  parse_time : gostring -> option gotime
}.

(** [json.Marshal] of a view. *)
Class ViewJson := { marshal_view : View -> option gostring }.

Section view.
Context `{UnicodeTables} `{Crypto} `{TimeText} `{ViewJson}.

Definition validRisk (risk : gostring) : bool :=
  bool_decide (risk ∈ (["L0"; "L1"; "L2"; "L3"; "L4"] : list gostring)).

Definition isNormalizedPath (value : gostring) : bool := utf8_valid value && is_normalized value.

Definition validDisplayValue (value : gostring) (maxBytes : Z) (required : bool) : bool :=
  utf8_valid value && (len value <=? maxBytes) && negb (required && bool_decide (value = [])) &&
  forallb (fun r => negb ((r <? 32) || (r =? 127))) (runes value).

Definition hashes_ok (before after : gostring) : bool := validSHA256 after && optional_SHA256 before.

(** ** Targets of the claims *)

Fixpoint check_targets (targets : list Target) (seen : gset gostring) : result view_error unit :=
  match targets with
  | [] => Ok tt
  | t :: rest =>
      reject negb (isNormalizedPath (t_Path t)) with BadTargetPath;
      reject bool_decide (t_Path t ∈ seen) with TargetTwice;
      reject negb (hashes_ok (t_BeforeSHA256 t) (t_AfterSHA256 t)) with BadTargetHash;
      check_targets rest ({[t_Path t]} ∪ seen)
  end.

Definition claimed_targets (claims : Claims) : result view_error (list Target) :=
  let given (s : gostring) := negb (bool_decide (s = [])) in
  match Targets claims with
  | [] =>
      reject bool_decide (Path claims = []) || bool_decide (ContentSHA256 claims = []) with NoTargets;
      Ok [mkTarget (Path claims) (ExpectedHash claims) (ContentSHA256 claims)]
  | targets =>
      reject (given (Path claims) || given (ExpectedHash claims) || given (ContentSHA256 claims)) &&
             negb (bool_decide (targets = [mkTarget (Path claims) (ExpectedHash claims) (ContentSHA256 claims)]))
        with LegacyMismatch;
      Ok targets
  end.

Definition targetsFromClaims (claims : Claims) : result view_error (list Target) :=
  targets ← claimed_targets claims;
  reject (len targets =? 0) || (MaxFiles <? len targets) with TargetLimit;
  _ ← check_targets targets ∅;
  Ok targets.

(** ** Files of the dry run *)

Definition validateDryRunFile (f : DryRunFile) : result view_error unit :=
  reject negb (isNormalizedPath (df_Path f)) with BadFile;
  reject negb (hashes_ok (df_BeforeSHA256 f) (df_AfterSHA256 f)) with BadFile;
  reject df_DiffTruncated f with BadFile;
  reject negb (utf8_valid (df_Diff f)) with BadFile;
  reject negb (validDisplayValue (df_Encoding f) 64 false) || negb (validDisplayValue (df_Newline f) 64 false) with BadFile;
  reject df_Bytes f <? 0 with BadFile;
  Ok tt.

Fixpoint collect_files (fs : list DryRunFile) (files : gmap gostring DryRunFile) (totalDiffBytes : Z)
  : result view_error (gmap gostring DryRunFile) :=
  match fs with
  | [] => Ok files
  | f :: rest =>
      _ ← validateDryRunFile f;
      reject bool_decide (is_Some (files !! df_Path f)) with FileTwice;
      reject MaxDiffBytes - totalDiffBytes <? len (df_Diff f) with DiffLimit;
      collect_files rest (<[df_Path f := f]> files) (totalDiffBytes + len (df_Diff f))
  end.

Definition view_target (i : nat) (t : Target) (f : DryRunFile) : ViewTarget :=
  mkViewTarget (Z.of_nat i + 1) (t_Path t) (t_BeforeSHA256 t) (t_AfterSHA256 t) (df_Diff f) (df_Encoding f)
    (df_Newline f) (df_Bytes f).

(** Joins the targets with the files, each file being used once. *)
Fixpoint join_targets (i : nat) (targets : list Target) (files : gmap gostring DryRunFile)
  : result view_error (list ViewTarget * gmap gostring DryRunFile) :=
  match targets with
  | [] => Ok ([], files)
  | t :: rest =>
      match files !! t_Path t with
      | None => Err TargetMismatch
      | Some f =>
          reject negb (bool_decide (df_BeforeSHA256 f = t_BeforeSHA256 t)) ||
                 negb (bool_decide (df_AfterSHA256 f = t_AfterSHA256 t)) with TargetMismatch;
          '(targets, files) ← join_targets (S i) rest (delete (t_Path t) files);
          Ok (view_target i t f :: targets, files)
      end
  end.

Definition challenge_of (claims : Claims) : gostring :=
  if decide (ChallengeID claims = []) then ApprovalID claims else ChallengeID claims.

Definition New (claims : Claims) (dryRun : DryRun) : result view_error View :=
  reject negb (validRisk (dr_Risk dryRun)) with BadRisk;
  reject negb (validDisplayValue (Operation claims) 256 true) || negb (validDisplayValue (SessionID claims) 4096 true) ||
         negb (validDisplayValue (Approver claims) 256 false) || negb (validDisplayValue (ApprovalID claims) 4096 true) ||
         (ExpiresAt claims =? zero_time) with BadClaims;
  reject negb (bool_decide (challenge_of claims = ApprovalID claims)) ||
         negb (validDisplayValue (challenge_of claims) 4096 true) with BadChallenge;
  claimTargets ← targetsFromClaims claims;
  reject negb (len (dr_Files dryRun) =? len claimTargets) with TargetMismatch;
  files ← collect_files (dr_Files dryRun) ∅ 0;
  '(targets, files) ← join_targets 0 claimTargets files;
  reject negb (bool_decide (files = ∅)) with TargetMismatch;
  Ok (mkView SchemaVersion (dr_Risk dryRun) (Operation claims) (Approver claims) (SessionID claims)
        (challenge_of claims) (format_time (ExpiresAt claims)) false targets).

(** ** Views *)

Fixpoint check_view_targets (i : nat) (targets : list ViewTarget) (seen : gset gostring) (totalDiffBytes : Z)
  : result view_error unit :=
  match targets with
  | [] => Ok tt
  | t :: rest =>
      reject negb (vt_Order t =? Z.of_nat i + 1) || negb (isNormalizedPath (vt_Path t)) with BadOrder;
      reject bool_decide (vt_Path t ∈ seen) with TargetTwice;
      reject negb (hashes_ok (vt_BeforeSHA256 t) (vt_AfterSHA256 t)) with BadTargetHash;
      reject negb (utf8_valid (vt_Diff t)) || (MaxDiffBytes - totalDiffBytes <? len (vt_Diff t)) with DiffLimit;
      reject negb (validDisplayValue (vt_Encoding t) 64 false) || negb (validDisplayValue (vt_Newline t) 64 false) ||
             (vt_Bytes t <? 0) with BadMetadata;
      check_view_targets (S i) rest ({[vt_Path t]} ∪ seen) (totalDiffBytes + len (vt_Diff t))
  end.

Definition validateView (v : View) : result view_error unit :=
  reject negb (bool_decide (v_Schema v = SchemaVersion)) || negb (validRisk (v_Risk v)) || v_Persisted v with BadHeader;
  reject negb (validDisplayValue (v_Operation v) 256 true) || negb (validDisplayValue (v_Approver v) 256 false) ||
         negb (validDisplayValue (v_Session v) 4096 true) || negb (validDisplayValue (v_Challenge v) 4096 true)
    with BadIdentity;
  match parse_time (v_Expiry v) with
  | None => Err BadExpiry
  | Some expiresAt =>
      reject negb (bool_decide (v_Expiry v = format_time expiresAt)) with BadExpiry;
      reject (len (v_Targets v) =? 0) || (MaxFiles <? len (v_Targets v)) with TargetLimit;
      check_view_targets 0 (v_Targets v) ∅ 0
  end.

Definition CanonicalJSON (v : View) : result view_error gostring :=
  _ ← validateView v;
  match marshal_view v with Some s => Ok s | None => Err MarshalError end.

Definition ReviewDigest (v : View) : result view_error gostring := digestBytes <$> CanonicalJSON v.

(** ** What a view shows *)

Definition keyed (fs : list DryRunFile) : list (gostring * DryRunFile) := (fun f => (df_Path f, f)) <$> fs.
Definition diff_bytes (fs : list DryRunFile) : Z := foldr (fun f n => len (df_Diff f) + n) 0 fs.
Definition valid_file (f : DryRunFile) : Prop := validateDryRunFile f = Ok tt.

Lemma keyed_keys fs : (keyed fs).*1 = df_Path <$> fs.
Proof. unfold keyed. rewrite <- list_fmap_compose. by apply list_fmap_ext. Qed.

Lemma diff_bytes_nonneg fs : 0 <= diff_bytes fs.
Proof. induction fs as [|f fs IH]; cbn [diff_bytes foldr]; [done|]. pose proof (len_nonneg (df_Diff f)). unfold diff_bytes in IH. lia. Qed.

Lemma keyed_lookup_None fs p :
  (list_to_map (keyed fs) : gmap gostring DryRunFile) !! p = None <-> p ∉ df_Path <$> fs.
Proof. rewrite <- keyed_keys. symmetry. apply not_elem_of_list_to_map. Qed.

Lemma collect_files_Ok fs m0 total m :
  total <= MaxDiffBytes ->
  collect_files fs m0 total = Ok m <->
  Forall valid_file fs /\ NoDup (df_Path <$> fs) /\ Forall (fun f => m0 !! df_Path f = None) fs /\
  total + diff_bytes fs <= MaxDiffBytes /\ m = list_to_map (keyed fs) ∪ m0.
Proof.
  revert m0 total. induction fs as [|f fs IH]; intros m0 total Ht; cbn [collect_files].
  { unfold diff_bytes. cbn [foldr keyed fmap list_fmap list_to_map]. rewrite map_empty_union. split; [intros [= ->]|intros (_ & _ & _ & _ & ->); done].
    repeat (split; [by constructor|]). split; [lia|done]. }
  rewrite fmap_cons, !Forall_cons, NoDup_cons. change (valid_file f) with (validateDryRunFile f = Ok tt).
  destruct (validateDryRunFile f) as [[]|]; [|split; [done|by intros [[? _] _]]].
  cbn [mbind result_bind diff_bytes foldr]. fold (diff_bytes fs).
  rewrite !guard_Ok, bool_decide_eq_false, Z.ltb_ge, <- eq_None_not_Some.
  pose proof (diff_bytes_nonneg fs) as Hpos. split.
  - intros (Hn & Hd & (Hvs & Hdup & Hfree & Hsum & ->)%IH); [|lia].
    assert (df_Path f ∉ df_Path <$> fs) as Hnew.
    { intros (g & Hg & Hin)%list_elem_of_fmap. rewrite Forall_forall in Hfree. specialize (Hfree g Hin).
      by rewrite <- Hg, lookup_insert_eq in Hfree. }
    split; [done|]. split; [done|]. split; [split; [done|]|].
    { eapply Forall_impl; [exact Hfree|]. intros g. cbn. rewrite lookup_insert_None. tauto. }
    split; [lia|]. rewrite <- insert_union_r by by apply keyed_lookup_None. by rewrite insert_union_l.
  - intros ((Hv & Hvs) & (Hnew & Hdup) & (Hn & Hfree) & Hsum & ->). split; [done|]. split; [lia|].
    apply IH; [lia|]. repeat (split; [done|]). split; [|split; [lia|]].
    + apply Forall_forall. intros g Hg. rewrite lookup_insert_None. rewrite Forall_forall in Hfree.
      split; [by apply Hfree|]. intros E. apply Hnew. rewrite E. by apply list_elem_of_fmap_2.
    + rewrite <- insert_union_r by by apply keyed_lookup_None. by rewrite insert_union_l.
Qed.

Definition shown (t : Target) (f : DryRunFile) : Prop :=
  df_Path f = t_Path t /\ df_BeforeSHA256 f = t_BeforeSHA256 t /\ df_AfterSHA256 f = t_AfterSHA256 t.

Fixpoint view_targets (i : nat) (ts : list Target) (fs : list DryRunFile) : list ViewTarget :=
  match ts, fs with
  | t :: ts, f :: fs => view_target i t f :: view_targets (S i) ts fs
  | _, _ => []
  end.

Definition well_keyed (m : gmap gostring DryRunFile) : Prop := forall k f, m !! k = Some f -> df_Path f = k.

Lemma keyed_well fs : well_keyed (list_to_map (keyed fs)).
Proof. intros k f Hk%elem_of_list_to_map_2. apply list_elem_of_fmap in Hk as (g & [= -> ->] & _). done. Qed.

Lemma keyed_inj fs gs :
  NoDup (df_Path <$> fs) -> NoDup (df_Path <$> gs) ->
  (list_to_map (keyed fs) : gmap gostring DryRunFile) = list_to_map (keyed gs) -> fs ≡ₚ gs.
Proof.
  intros Hf Hg E. apply list_to_map_inj in E; [|by rewrite keyed_keys..].
  apply (fmap_Permutation snd) in E. unfold keyed in E. by rewrite <- !list_fmap_compose, !list_fmap_id in E.
Qed.

Lemma join_targets_Ok ts i files vs :
  well_keyed files -> join_targets i ts files = Ok (vs, ∅) ->
  exists fs, files = list_to_map (keyed fs) /\ Forall2 shown ts fs /\ vs = view_targets i ts fs.
Proof.
  revert i files vs. induction ts as [|t ts IH]; intros i files vs Hk; cbn [join_targets].
  { intros [= <- ->]. by exists []. }
  destruct (files !! t_Path t) as [f|] eqn:Ef; [|done].
  intros [[Hb Ha]%orb_false_iff Hj]%guard_Ok. bool_props. apply bind_Ok in Hj as ([vs' rest] & Hj & [= <- ->]).
  apply IH in Hj as (fs & Hd & Hs & ->).
  - exists (f :: fs). split; [|split; [constructor; [|done]|done]].
    + cbn [keyed fmap list_fmap list_to_map foldr uncurry]. unfold keyed in Hd. rewrite <- Hd, (Hk _ _ Ef). cbn.
      by rewrite insert_delete_eq, insert_id.
    + split; [by apply Hk|done].
  - intros k g Hg. apply lookup_delete_Some in Hg as [_ Hg]. by apply Hk.
Qed.

Lemma view_targets_length i ts fs : length ts = length fs -> length (view_targets i ts fs) = length ts.
Proof. revert i fs. induction ts as [|t ts IH]; intros i [|f fs]; cbn; intros; [done..|]. f_equal. apply IH. lia. Qed.

Lemma shown_paths ts fs : Forall2 shown ts fs -> df_Path <$> fs = t_Path <$> ts.
Proof. induction 1 as [|t f ts fs (Hp & _) _ IH]; [done|]. rewrite !fmap_cons. by f_equal. Qed.

Lemma check_view_targets_Ok ts fs i seen total :
  check_targets ts seen = Ok tt -> Forall2 shown ts fs -> Forall valid_file fs ->
  total + diff_bytes fs <= MaxDiffBytes -> check_view_targets i (view_targets i ts fs) seen total = Ok tt.
Proof.
  intros Hc Hs. revert i seen total Hc. induction Hs as [|t f ts fs Hf Hs IH]; intros i seen total Hc Hv Ht; [done|].
  apply Forall_cons in Hv as [Hv Hvs]. cbn [check_targets] in Hc. apply guard_Ok in Hc as [Hp Hc].
  apply guard_Ok in Hc as [Hn Hc]. apply guard_Ok in Hc as [Hh Hc].
  unfold valid_file, validateDryRunFile in Hv. rewrite !guard_Ok in Hv. destruct Hv as (_ & _ & _ & Hu & Hm & Hbytes & _).
  cbn [diff_bytes foldr] in Ht. fold (diff_bytes fs) in Ht. pose proof (diff_bytes_nonneg fs) as Hpos.
  cbn [view_targets check_view_targets view_target vt_Order vt_Path vt_BeforeSHA256 vt_AfterSHA256 vt_Diff vt_Encoding
    vt_Newline vt_Bytes].
  rewrite Z.eqb_refl, Hp, Hn, Hh, Hu, Hm, Hbytes. cbn [negb orb guard_err].
  rewrite (proj2 (Z.ltb_ge _ _)) by lia. cbn [guard_err]. apply IH; [done..|lia].
Qed.

Lemma check_targets_NoDup ts seen :
  check_targets ts seen = Ok tt -> NoDup (t_Path <$> ts) /\ Forall (.∉ seen) (t_Path <$> ts).
Proof.
  revert seen. induction ts as [|t ts IH]; intros seen Hc; [by repeat constructor|]. cbn [check_targets] in Hc.
  apply guard_Ok in Hc as [_ Hc]. apply guard_Ok in Hc as [Hn%bool_decide_eq_false Hc]. apply guard_Ok in Hc as [_ Hc].
  apply IH in Hc as [Hd Hf]. rewrite fmap_cons. rewrite Forall_forall in Hf. split; constructor; [|done..|].
  - intros Hin%Hf. set_solver.
  - apply Forall_forall. intros p Hp%Hf. set_solver.
Qed.

Lemma targetsFromClaims_Ok claims ts :
  targetsFromClaims claims = Ok ts ->
  claimed_targets claims = Ok ts /\ 0 < len ts <= MaxFiles /\ check_targets ts ∅ = Ok tt.
Proof.
  unfold targetsFromClaims. intros (ts' & Hc & Ht)%bind_Ok. apply guard_Ok in Ht as [[Hx1 Hx2]%orb_false_iff Ht].
  apply bind_Ok in Ht as ([] & Ht & [= <-]). bool_props. pose proof (len_nonneg ts'). split; [done|]. split; [lia|done].
Qed.

Lemma diff_bytes_permutation fs gs : fs ≡ₚ gs -> diff_bytes fs = diff_bytes gs.
Proof. induction 1; cbn [diff_bytes foldr] in *; unfold diff_bytes in *; lia. Qed.

(** The checks of the claims alone. *)
Definition header_ok (claims : Claims) (risk : gostring) : bool :=
  validRisk risk && validDisplayValue (Operation claims) 256 true && validDisplayValue (SessionID claims) 4096 true &&
  validDisplayValue (Approver claims) 256 false && validDisplayValue (challenge_of claims) 4096 true.

Lemma New_Ok claims dr v :
  New claims dr = Ok v ->
  header_ok claims (dr_Risk dr) = true /\
  exists ts fs, targetsFromClaims claims = Ok ts /\ fs ≡ₚ dr_Files dr /\ Forall2 shown ts fs /\
    Forall valid_file (dr_Files dr) /\ diff_bytes (dr_Files dr) <= MaxDiffBytes /\
    v = mkView SchemaVersion (dr_Risk dr) (Operation claims) (Approver claims) (SessionID claims) (challenge_of claims)
          (format_time (ExpiresAt claims)) false (view_targets 0 ts fs).
Proof.
  unfold New. intros [Hr Hn]%guard_Ok. apply guard_Ok in Hn as [Hc Hn]. apply guard_Ok in Hn as [Hch Hn].
  apply bind_Ok in Hn as (ts & Hts & Hn). apply guard_Ok in Hn as [_ Hn]. apply bind_Ok in Hn as (m & Hm & Hn).
  apply bind_Ok in Hn as ([vs rest] & Hj & Hn). apply guard_Ok in Hn as [->%negb_false_iff%bool_decide_eq_true [= <-]].
  apply collect_files_Ok in Hm as (Hv & Hd & _ & Hs & ->); [|done]. rewrite (right_id_L ∅ (∪)) in Hj.
  apply join_targets_Ok in Hj as (fs & E & Hsh & ->); [|apply keyed_well]. split.
  - bool_props. unfold header_ok. by repeat match goal with Hx : _ = true |- _ => rewrite Hx; clear Hx end.
  - exists ts, fs. split; [done|]. split; [|by repeat split]. symmetry. apply keyed_inj; [done| |done].
    rewrite (shown_paths _ _ Hsh). by apply targetsFromClaims_Ok in Hts as (_ & _ & [Hnd _]%check_targets_NoDup).
Qed.

(** A view shows what is to be approved, all of it and nothing else: one target for each
    target of the claims, in the order of the claims, with the hashes claimed and the
    difference of the file of the dry run that has this path and these hashes; the
    files are all used. Such a view passes its own validation, so that its digest is
    defined. *)
Theorem New_view claims dr v :
  New claims dr = Ok v -> parse_time (format_time (ExpiresAt claims)) = Some (ExpiresAt claims) ->
  validateView v = Ok tt /\
  exists ts fs, claimed_targets claims = Ok ts /\ fs ≡ₚ dr_Files dr /\ Forall2 shown ts fs /\
    v_Targets v = view_targets 0 ts fs.
Proof.
  intros (Hh & ts & fs & Hts & Hp & Hs & Hf & Hb & ->)%New_Ok Ht.
  apply targetsFromClaims_Ok in Hts as (Hc & Hl & Hcheck). split; [|by exists ts, fs].
  assert (length ts = length fs) as Hlen by (by eapply Forall2_length).
  unfold header_ok in Hh. rewrite !andb_true_iff in Hh. destruct Hh as ((((Hx1 & Hx2) & Hx3) & Hx4) & Hx5).
  unfold validateView. cbn [v_Schema v_Risk v_Persisted v_Operation v_Approver v_Session v_Challenge v_Expiry v_Targets].
  rewrite bool_decide_eq_true_2, Hx1, Hx2, Hx3, Hx4, Hx5, Ht, bool_decide_eq_true_2 by done. cbn [negb orb guard_err].
  unfold len. rewrite view_targets_length by done. fold (len ts). rewrite (proj2 (Z.eqb_neq _ _)), (proj2 (Z.ltb_ge _ _)) by lia.
  cbn [orb guard_err]. apply check_view_targets_Ok; [done..|by rewrite Hp|].
  by rewrite (diff_bytes_permutation _ _ Hp).
Qed.

(** The order in which the dry run lists its files does not matter. *)
Theorem New_order claims risk fs fs' v :
  fs ≡ₚ fs' -> New claims (mkDryRun risk fs) = Ok v -> New claims (mkDryRun risk fs') = Ok v.
Proof.
  intros Hp. unfold New. cbn [dr_Risk dr_Files]. rewrite !guard_Ok. intros (Hr & Hc & Hch & Hn).
  split; [exact Hr|]. split; [exact Hc|]. split; [exact Hch|]. revert Hn. rewrite !bind_Ok. intros (ts & Hts & [Hl Hn]%guard_Ok). exists ts. split; [exact Hts|].
  apply guard_Ok. split; [unfold len in *; by rewrite <- (Permutation_length Hp)|].
  revert Hn. rewrite !bind_Ok. intros (m & Hm & Hn). exists m. split; [|exact Hn].
  apply collect_files_Ok; [done|]. apply collect_files_Ok in Hm as (Hv & Hd & Hf & Hs & ->); [|done].
  rewrite <- (diff_bytes_permutation fs fs' Hp).
  assert (Forall valid_file fs') as Hv' by (by rewrite <- Hp). split; [exact Hv'|].
  assert (NoDup (df_Path <$> fs')) as Hd' by (by rewrite <- (fmap_Permutation df_Path _ _ Hp)).
  split; [exact Hd'|]. split; [by apply Forall_forall|]. split; [exact Hs|].
  f_equal. apply list_to_map_proper; [by rewrite keyed_keys|]. by apply fmap_Permutation.
Qed.
End view.

(** ** Witnesses *)

Definition decimal_time : TimeText := {| format_time t := itoa t; parse_time s := atoi s |}.
Definition order_json : ViewJson := {| marshal_view v := Some (concat (vt_Path <$> v_Targets v)) |}.

Definition two_claims : Claims :=
  mkClaims "a1" [] [] "s1" "multi_edit" [mkTarget "b" [] sample_hash; mkTarget "a" sample_hash sample_hash] [] [] [] [] 5.
Definition two_files : list DryRunFile :=
  [mkDryRunFile "a" sample_hash sample_hash "-x" false "utf-8" "lf" 1; mkDryRunFile "b" [] sample_hash "+y" false [] [] 2].

Definition sample_new (fs : list DryRunFile) : result view_error View :=
  @New ascii_tables decimal_time two_claims (mkDryRun "L2" fs).
Definition sample_view : View :=
  match sample_new two_files with Ok v => v | Err _ => mkView [] [] [] [] [] [] [] false [] end.

Lemma New_view_witness : @validateView ascii_tables decimal_time sample_view = Ok tt.
Proof.
  apply (@New_view ascii_tables decimal_time two_claims (mkDryRun "L2" two_files) sample_view);
    vm_compute; reflexivity.
Defined.

Lemma New_order_witness : sample_new (reverse two_files) = Ok sample_view.
Proof.
  apply (@New_order ascii_tables decimal_time two_claims "L2" two_files (reverse two_files) sample_view).
  - symmetry. apply reverse_Permutation.
  - vm_compute. reflexivity.
Defined.
