(* ===== verification/ReviewParse.v ===== *)
(** * Reading a review back ([internal/approvalview/view.go], [StrictParseView])

    The text of a review is walked token by token, to refuse objects that name a field twice
    and nesting deeper than a review has; its fields are compared with the ones of a view, and
    only then is it decoded and validated. [encoding/json] is a parameter; the walk and the
    checks are the code's. *)
From S2P Require Import Prelude GoStrings Strconv Utf8 GoPath Token FileEdit Replay Approval ApprovalView Redact StrictJson.
#[local] Open Scope Z_scope.

(** [json.Unmarshal] into a map of raw members, and into a slice of such maps. *)
Class RawJson := {
  raw_object : gostring -> option (gmap gostring gostring);
  raw_objects : gostring -> option (list (gmap gostring gostring))
}.

Definition maxReviewBytes : Z := Z.shiftl 2 20.
Definition maxReviewDepth : Z := 16.

Inductive parse_error :=
  | ReviewSize | TooDeep | BadToken | FieldNotString | FieldTwice (name : gostring) | NotTerminated | ReviewTrailing | NoFuel
  | NotObject | ViewFields | TargetsNotArray | TargetFields | ReviewNotDecoded | ReviewInvalid (e : view_error).

(** ** The walk *)

(** [consumeJSONValue] and its two loops; every call of the three takes fuel. *)
Fixpoint consumeJSONValue (fuel : nat) (depth : Z) (ts : list token) : result parse_error (list token) :=
  match fuel with
  | O => Err NoFuel
  | S fuel =>
      reject maxReviewDepth <? depth with TooDeep;
      match ts with
      | [] => Err BadToken
      | TOpenObject :: ts => review_members fuel depth ∅ ts
      | TOpenArray :: ts => review_elements fuel depth ts
      | TCloseObject :: _ | TCloseArray :: _ => Err BadToken
      | _ :: ts => Ok ts
      end
  end
with review_members (fuel : nat) (depth : Z) (seen : gset gostring) (ts : list token) : result parse_error (list token) :=
  match fuel with
  | O => Err NoFuel
  | S fuel =>
      if more ts then
        match ts with
        | TString name :: ts =>
            if decide (name ∈ seen) then Err (FieldTwice name)
            else ts ← consumeJSONValue fuel (depth + 1) ts; review_members fuel depth ({[name]} ∪ seen) ts
        | _ => Err FieldNotString
        end
      else match ts with TCloseObject :: ts => Ok ts | _ => Err NotTerminated end
  end
with review_elements (fuel : nat) (depth : Z) (ts : list token) : result parse_error (list token) :=
  match fuel with
  | O => Err NoFuel
  | S fuel =>
      if more ts then ts ← consumeJSONValue fuel (depth + 1) ts; review_elements fuel depth ts
      else match ts with TCloseArray :: ts => Ok ts | _ => Err NotTerminated end
  end.

Definition consume_review (ts : list token) : result parse_error (list token) := consumeJSONValue (2 * length ts + 2) 0 ts.

(** ** The shape of a review *)

Definition hasExactFields (object : gmap gostring gostring) (required : list gostring) : bool :=
  (Z.of_nat (size object) =? len required) && forallb (fun name => bool_decide (is_Some (object !! name))) required.

Definition requiredViewFields : list gostring :=
  ["schema"; "risk"; "operation"; "approver"; "session"; "challenge"; "expiry"; "persisted"; "targets"].
Definition requiredTargetFields : list gostring :=
  ["order"; "path"; "before_sha256"; "after_sha256"; "diff"; "encoding"; "newline"; "bytes"].

Section parse.
Context `{UnicodeTables} `{TimeText} `{Tokenizer} `{RawJson} `{TypedDecoder View}.

Definition rejectDuplicateJSONNames (data : gostring) : result parse_error unit :=
  let '(ts, ended) := json_tokens data in
  rest ← consume_review ts;
  match rest, ended with [], true => Ok tt | _, _ => Err ReviewTrailing end.

Definition validateRawViewShape (data : gostring) : result parse_error unit :=
  match raw_object data with
  | None => Err NotObject
  | Some object =>
      reject negb (hasExactFields object requiredViewFields) with ViewFields;
      match raw_objects (default [] (object !! ("targets" : gostring))) with
      | None => Err TargetsNotArray
      | Some targets =>
          reject negb (forallb (fun t => hasExactFields t requiredTargetFields) targets) with TargetFields; Ok tt
      end
  end.

Definition StrictParseView (data : gostring) : result parse_error View :=
  reject (len data =? 0) || (maxReviewBytes <? len data) with ReviewSize;
  _ ← rejectDuplicateJSONNames data;
  _ ← validateRawViewShape data;
  match typed_decode data with
  | None => Err ReviewNotDecoded
  | Some (_, false) => Err ReviewTrailing
  | Some (view, true) => match validateView view with Ok _ => Ok view | Err e => Err (ReviewInvalid e) end
  end.
End parse.

(** ** What the walk accepts *)

(** A value whose objects name no field twice, and that stands at depth [d] without going
    deeper than a review may. *)
Inductive reviewable : Z -> json -> Prop :=
  | rv_null d : d <= maxReviewDepth -> reviewable d JNull
  | rv_bool d b : d <= maxReviewDepth -> reviewable d (JBool b)
  | rv_number d n : d <= maxReviewDepth -> reviewable d (JNumber n)
  | rv_string d s : d <= maxReviewDepth -> reviewable d (JString s)
  | rv_array d l : d <= maxReviewDepth -> Forall (reviewable (d + 1)) l -> reviewable d (JArray l)
  | rv_object d l : d <= maxReviewDepth -> NoDup l.*1 -> Forall (fun m => reviewable (d + 1) m.2) l -> reviewable d (JObject l).

Lemma reviewable_depth d v : reviewable d v -> d <= maxReviewDepth.
Proof. by destruct 1. Qed.

Lemma review_sound fuel :
  (forall d ts rest, consumeJSONValue fuel d ts = Ok rest -> exists v, reviewable d v /\ ts = tokens_of v ++ rest) /\
  (forall d seen ts rest, review_members fuel d seen ts = Ok rest ->
     exists l, NoDup l.*1 /\ (forall k, k ∈ l.*1 -> k ∉ seen) /\ Forall (fun m => reviewable (d + 1) m.2) l /\
       ts = member_tokens l ++ TCloseObject :: rest) /\
  (forall d ts rest, review_elements fuel d ts = Ok rest ->
     exists l, Forall (reviewable (d + 1)) l /\ ts = element_tokens l ++ TCloseArray :: rest).
Proof.
  induction fuel as [|fuel (IHv & IHm & IHe)]; [done|]. split_and!.
  - intros d ts rest. cbn [consumeJSONValue]. intros [Hd%Z.ltb_ge Hc]%guard_Ok. revert Hc.
    destruct ts as [|[| | | |s|literal|b|] ts]; try done.
    + intros (l & Hn & _ & Hf & ->)%IHm. exists (JObject l). split; [by constructor|]. cbn. by rewrite <- app_assoc.
    + intros (l & Hf & ->)%IHe. exists (JArray l). split; [by constructor|]. cbn. by rewrite <- app_assoc.
    + intros [= <-]. exists (JString s). by split; [constructor|].
    + intros [= <-]. exists (JNumber literal). by split; [constructor|].
    + intros [= <-]. exists (JBool b). by split; [constructor|].
    + intros [= <-]. exists JNull. by split; [constructor|].
  - intros d seen [|[| | | |s|literal|b|] ts] rest; cbn [review_members more]; try done.
    + intros [= <-]. exists []. repeat constructor. by intros k ?%elem_of_nil.
    + case_decide as Hk; [done|]. intros (ts' & (v & Hv & ->)%IHv & (l & Hn & Hs & Hf & ->)%IHm)%bind_Ok.
      exists ((s, v) :: l). split_and!; cbn.
      * constructor; [|done]. intros Hin%Hs. set_solver.
      * intros k [->|Hin]%elem_of_cons; [done|]. apply Hs in Hin. set_solver.
      * by constructor.
      * by rewrite <- app_assoc.
  - intros d ts rest. cbn [review_elements]. destruct (more ts) eqn:Em.
    + intros (ts' & (v & Hv & ->)%IHv & (l & Hf & ->)%IHe)%bind_Ok. exists (v :: l). split; [by constructor|].
      cbn. by rewrite <- app_assoc.
    + destruct ts as [|[] ts]; try done. intros [= <-]. by exists [].
Qed.

(** Where a value is not too deep, the walk is that of [StrictJson]. *)
Lemma review_complete fuel :
  (forall d v rest, (2 * length (tokens_of v) < fuel)%nat -> reviewable d v -> consumeJSONValue fuel d (tokens_of v ++ rest) = Ok rest) /\
  (forall d seen l rest, (2 * length (member_tokens l) < fuel)%nat -> NoDup l.*1 -> (forall k, k ∈ l.*1 -> k ∉ seen) ->
     Forall (fun m => reviewable (d + 1) m.2) l -> review_members fuel d seen (member_tokens l ++ TCloseObject :: rest) = Ok rest) /\
  (forall d l rest, (2 * length (element_tokens l) + 1 < fuel)%nat -> Forall (reviewable (d + 1)) l ->
     review_elements fuel d (element_tokens l ++ TCloseArray :: rest) = Ok rest).
Proof.
  induction fuel as [|fuel (IHv & IHm & IHe)]; [split_and!; lia|]. split_and!.
  - intros d v rest Hlen Hv. pose proof (reviewable_depth _ _ Hv) as Hd%Z.ltb_ge. cbn [consumeJSONValue]. rewrite Hd. cbn [guard_err].
    destruct Hv as [| | | |d l _ Hf|d l _ Hn Hf]; cbn [tokens_of app]; try done; rewrite <- app_assoc.
    + apply IHe; [|done]. cbn [tokens_of length] in Hlen. rewrite length_app in Hlen. cbn [length] in Hlen. unfold element_tokens. lia.
    + apply IHm; [|done|set_solver|done]. cbn [tokens_of length] in Hlen. rewrite length_app in Hlen. unfold member_tokens. lia.
  - intros d seen [|[k v] l] rest Hlen Hn Hs Hf; [done|]. unfold member_tokens in *. cbn in Hlen, Hn, Hs, Hf |- *.
    apply NoDup_cons in Hn as [Hk Hn]. inversion_clear Hf. rewrite length_app in Hlen.
    rewrite decide_False by (apply Hs; left). rewrite <- app_assoc, IHv; [|lia|done]. cbn [mbind result_bind].
    apply IHm; [lia|done| |done]. intros k' Hin. apply not_elem_of_union. split; [|apply Hs; by right].
    intros ->%elem_of_singleton. done.
  - intros d [|v l] rest Hlen Hf; [done|]. unfold element_tokens in *. cbn in Hlen |- *. inversion_clear Hf.
    rewrite length_app in Hlen. pose proof (tokens_nonempty v). rewrite <- app_assoc, tokens_more, IHv; [|lia|done]. cbn [mbind result_bind].
    apply IHe; [lia|done].
Qed.

(** The walk never runs out of fuel. *)
Lemma review_decides fuel :
  (forall d ts, (2 * length ts < fuel)%nat ->
     match consumeJSONValue fuel d ts with Ok rest => (length rest < length ts)%nat | Err e => e <> NoFuel end) /\
  (forall d seen ts, (2 * length ts < fuel)%nat ->
     match review_members fuel d seen ts with Ok rest => (length rest < length ts)%nat | Err e => e <> NoFuel end) /\
  (forall d ts, (2 * length ts + 1 < fuel)%nat ->
     match review_elements fuel d ts with Ok rest => (length rest < length ts)%nat | Err e => e <> NoFuel end).
Proof.
  induction fuel as [|fuel (IHv & IHm & IHe)]; [split_and!; lia|]. split_and!.
  - intros d ts Hlen. cbn [consumeJSONValue]. destruct (maxReviewDepth <? d); [done|]. cbn [guard_err].
    destruct ts as [|[] ts]; cbn [length] in *; try done; try lia.
    + specialize (IHm d ∅ ts ltac:(lia)). destruct (review_members _ _ _ _); [lia|done].
    + specialize (IHe d ts ltac:(lia)). destruct (review_elements _ _ _); [lia|done].
  - intros d seen [|[| | | |s|literal|b|] ts] Hlen; cbn [review_members more length] in *; try done; try lia.
    case_decide; [done|]. specialize (IHv (d + 1) ts ltac:(lia)).
    destruct (consumeJSONValue fuel (d + 1) ts) as [rest|]; [|done]. cbn [mbind result_bind].
    specialize (IHm d ({[s]} ∪ seen) rest ltac:(lia)). destruct (review_members _ _ _ rest); [lia|done].
  - intros d ts Hlen. cbn [review_elements]. destruct (more ts) eqn:Em.
    + assert (Hv : match consumeJSONValue fuel (d + 1) ts with Ok rest => (length rest < length ts)%nat | Err e => e <> NoFuel end)
        by (apply IHv; lia).
      destruct (consumeJSONValue fuel (d + 1) ts) as [rest|]; [|done]. cbn [mbind result_bind].
      specialize (IHe d rest ltac:(lia)). destruct (review_elements _ _ rest); [lia|done].
    + destruct ts as [|[] ts]; try done. cbn. lia.
Qed.

(** The walk decides whether the tokens begin with a value of at most sixteen levels in which
    no object names a field twice. *)
Theorem consume_review_spec ts :
  consume_review ts <> Err NoFuel /\
  forall rest, consume_review ts = Ok rest <-> exists v, reviewable 0 v /\ ts = tokens_of v ++ rest.
Proof.
  unfold consume_review. split.
  - intros E. destruct (review_decides (2 * length ts + 2)) as [Hv _]. specialize (Hv 0 ts ltac:(lia)). by rewrite E in Hv.
  - intros rest. split; [apply review_sound|]. intros (v & Hv & ->). apply review_complete; [|done].
    rewrite length_app. lia.
Qed.

(** ** The fields *)

Lemma hasExactFields_dom object required :
  NoDup required -> hasExactFields object required = true <-> dom object = list_to_set required.
Proof.
  intros Hn. unfold hasExactFields, len. rewrite andb_true_iff, Z.eqb_eq, forallb_Forall, Forall_forall.
  rewrite <- size_dom. assert (Hs : size (list_to_set required : gset gostring) = length required) by by apply size_list_to_set.
  split.
  - intros [Hl Hr]. symmetry. apply (set_subseteq_size_eq (list_to_set required)); [|lia].
    intros k Hk%elem_of_list_to_set. apply elem_of_dom. specialize (Hr k Hk). by apply bool_decide_eq_true in Hr.
  - intros E. rewrite E, Hs. split; [done|]. intros k Hk. apply bool_decide_eq_true, elem_of_dom. rewrite E. by apply elem_of_list_to_set.
Qed.

Lemma view_fields_distinct : NoDup requiredViewFields /\ NoDup requiredTargetFields.
Proof. split; apply (bool_decide_unpack _); vm_compute; exact I. Qed.

(** ** Reading what was written *)

(** The members of a view and of its targets, under the names of the structs' tags. *)
Definition target_value (t : ViewTarget) : json :=
  JObject [("order" : gostring, JNumber (itoa (vt_Order t))); ("path" : gostring, JString (vt_Path t));
           ("before_sha256" : gostring, JString (vt_BeforeSHA256 t)); ("after_sha256" : gostring, JString (vt_AfterSHA256 t));
           ("diff" : gostring, JString (vt_Diff t)); ("encoding" : gostring, JString (vt_Encoding t));
           ("newline" : gostring, JString (vt_Newline t)); ("bytes" : gostring, JNumber (itoa (vt_Bytes t)))].

Definition view_value (v : View) : json :=
  JObject [("schema" : gostring, JString (v_Schema v)); ("risk" : gostring, JString (v_Risk v));
           ("operation" : gostring, JString (v_Operation v)); ("approver" : gostring, JString (v_Approver v));
           ("session" : gostring, JString (v_Session v)); ("challenge" : gostring, JString (v_Challenge v));
           ("expiry" : gostring, JString (v_Expiry v)); ("persisted" : gostring, JBool (v_Persisted v));
           ("targets" : gostring, JArray (target_value <$> v_Targets v))].

Definition target_text (t : ViewTarget) : Prop :=
  Forall (fun s => utf8_valid s = true)
    [vt_Path t; vt_BeforeSHA256 t; vt_AfterSHA256 t; vt_Diff t; vt_Encoding t; vt_Newline t].
Definition view_text (v : View) : Prop :=
  Forall (fun s => utf8_valid s = true)
    [v_Schema v; v_Risk v; v_Operation v; v_Approver v; v_Session v; v_Challenge v; v_Expiry v] /\ Forall target_text (v_Targets v).

(** What [encoding/json] promises of the parameters: the raw members of an object are its
    members, with the last of those that share a name; a view whose strings are valid UTF-8 is
    written as the object of its fields, and read back from it. *)
Class ReviewJsonLaws `{Tokenizer} `{RawJson} `{TypedDecoder View} `{ViewJson} := {
  raw_object_members data l :
    json_tokens data = (tokens_of (JObject l), true) ->
    exists m, raw_object data = Some m /\ dom m = list_to_set l.*1 /\
      forall k raw, m !! k = Some raw -> exists v, (k, v) ∈ l /\ json_tokens raw = (tokens_of v, true);
  raw_objects_members data (ls : list (list (gostring * json))) :
    json_tokens data = (tokens_of (JArray (JObject <$> ls)), true) ->
    exists ms, raw_objects data = Some ms /\ Forall2 (fun m l => dom m = list_to_set l.*1) ms ls;
  marshal_view_text v s :
    view_text v -> marshal_view v = Some s -> json_tokens s = (tokens_of (view_value v), true) /\ typed_decode s = Some (v, true)
}.

(** [time.Format] writes ASCII. *)
Class TimeTextLaws `{TimeText} := { format_time_text t : utf8_valid (format_time t) = true }.

Section roundtrip.
Context `{UnicodeTables} `{Crypto} `{TimeText} `{Tokenizer} `{RawJson} `{TypedDecoder View} `{ViewJson}.

(** What a text that was accepted is: one value that the walk lets through, with exactly the
    fields of a view, decoded to a valid view. *)
Lemma StrictParseView_Ok data v :
  StrictParseView data = Ok v <->
  0 < len data <= maxReviewBytes /\ (exists j, reviewable 0 j /\ json_tokens data = (tokens_of j, true)) /\
  validateRawViewShape data = Ok tt /\ typed_decode data = Some (v, true) /\ validateView v = Ok tt.
Proof.
  pose proof (len_nonneg data) as Hl. unfold StrictParseView. rewrite guard_Ok, orb_false_iff, Z.eqb_neq, Z.ltb_ge, bind_Ok. split.
  - intros (Hs & [] & Hd & (u & Hv & Ht)%bind_Ok). split; [lia|]. split.
    + unfold rejectDuplicateJSONNames in Hd. destruct (json_tokens data) as [ts ended].
      apply bind_Ok in Hd as (rest & (j & Hj & ->)%consume_review_spec & Hd). exists j. split; [done|].
      destruct rest, ended; try done. by rewrite app_nil_r.
    + destruct u. split; [done|]. destruct (typed_decode data) as [[v' []]|]; try done.
      destruct (validateView v') as [[]|] eqn:Ev; [|done]. by injection Ht as ->.
  - intros (Hs & (j & Hj & Et) & Hv & Ed & Hval). split; [lia|]. exists tt. split.
    + unfold rejectDuplicateJSONNames. rewrite Et. apply bind_Ok. exists []. split; [|done].
      apply consume_review_spec. exists j. by rewrite app_nil_r.
    + rewrite Hv. cbn [mbind result_bind]. by rewrite Ed, Hval.
Qed.

Lemma target_reviewable d t : d + 1 <= maxReviewDepth -> reviewable d (target_value t).
Proof.
  intros Hd. apply rv_object; [lia|apply (bool_decide_unpack _); vm_compute; exact I|].
  repeat (apply Forall_cons; split; [by constructor|]). done.
Qed.

Lemma view_reviewable v : reviewable 0 (view_value v).
Proof.
  apply rv_object; [done|apply (bool_decide_unpack _); vm_compute; exact I|].
  repeat (apply Forall_cons; split; [by constructor|]). apply Forall_cons. split; [|done]. cbn [snd].
  apply rv_array; [done|]. apply Forall_fmap, Forall_true. intros t. by apply target_reviewable.
Qed.

Definition target_members (t : ViewTarget) : list (gostring * json) :=
  match target_value t with JObject l => l | _ => [] end.

Lemma hash_text h : validSHA256 h = true -> utf8_valid h = true.
Proof.
  unfold validSHA256, hex_decodes. intros [_ [_ Hx]%andb_true_iff]%andb_true_iff. apply utf8_valid_all_ascii.
  apply forallb_Forall in Hx. eapply Forall_impl; [exact Hx|]. intros c. unfold is_hex. cbv zeta beta. rewrite !orb_true_iff, !andb_true_iff, !Z.leb_le. lia.
Qed.

Lemma optional_hash_text h : optional_SHA256 h = true -> utf8_valid h = true.
Proof. unfold optional_SHA256. intros [->%bool_decide_eq_true|Hh]%orb_true_iff; [done|by apply hash_text]. Qed.

Lemma display_text s n r : validDisplayValue s n r = true -> utf8_valid s = true.
Proof. unfold validDisplayValue. rewrite !andb_true_iff. tauto. Qed.

Lemma targets_text i ts seen total : check_view_targets i ts seen total = Ok tt -> Forall target_text ts.
Proof.
  revert i seen total. induction ts as [|t ts IH]; intros i seen total; cbn [check_view_targets]; [done|].
  rewrite !guard_Ok, !orb_false_iff, !negb_false_iff. intros ([_ Hp] & _ & Hh & [Hd _] & [[He Hn] _] & Hts%IH).
  constructor; [|done]. unfold isNormalizedPath in Hp. unfold hashes_ok in Hh. apply andb_true_iff in Hp as [Hp _], Hh as [Ha Hb].
  repeat constructor; eauto using hash_text, optional_hash_text, display_text.
Qed.

Context `{!ReviewJsonLaws} `{!TimeTextLaws}.
#[local] Set Default Proof Using "Type*".

Lemma view_shape v s : view_text v -> marshal_view v = Some s -> validateRawViewShape s = Ok tt.
Proof.
  intros Ht Hm. pose proof (marshal_view_text v s Ht Hm) as [Es _]. pose proof view_fields_distinct as [Hdv Hdt].
  destruct (raw_object_members s _ Es) as (m & Em & Hdom & Hraw). unfold validateRawViewShape. rewrite Em.
  rewrite (proj2 (hasExactFields_dom m requiredViewFields Hdv)) by exact Hdom. cbn [negb guard_err].
  assert (is_Some (m !! ("targets" : gostring))) as [raw Er].
  { apply elem_of_dom. rewrite Hdom. apply elem_of_list_to_set. apply (bool_decide_unpack _). vm_compute. exact I. }
  rewrite Er. destruct (Hraw _ _ Er) as (w & Hw & Ew). cbn [default].
  assert (w = JArray (target_value <$> v_Targets v)) as ->.
  { repeat (apply elem_of_cons in Hw as [Hw|Hw]; [first [discriminate Hw|by injection Hw]|]). by apply elem_of_nil in Hw. }
  replace (target_value <$> v_Targets v) with (JObject <$> (target_members <$> v_Targets v)) in Ew
    by (rewrite <- list_fmap_compose; by apply list_fmap_ext).
  destruct (raw_objects_members raw _ Ew) as (ms & Ems & Hms). change (id raw) with raw. rewrite Ems.
  assert (forallb (fun t => hasExactFields t requiredTargetFields) ms = true) as ->; [|done].
  apply forallb_Forall, Forall_forall. intros x Hx. apply list_elem_of_lookup in Hx as [i Hi].
  destruct (Forall2_lookup_l _ _ _ _ _ Hms Hi) as (l & Hl & Hd). apply list_lookup_fmap_Some in Hl as (t & -> & _).
  apply hasExactFields_dom; [done|]. by rewrite Hd.
Qed.

(** A valid view has no string that [json.Marshal] would change. *)
Lemma valid_view_text v : validateView v = Ok tt -> view_text v.
Proof.
  unfold validateView. rewrite !guard_Ok, !orb_false_iff, !negb_false_iff.
  intros ([[Hs%bool_decide_eq_true Hr] _] & [[[Ho Ha] Hse] Hc] & He).
  destruct (parse_time (v_Expiry v)) as [t|]; [|done]. rewrite !guard_Ok in He.
  destruct He as (Hx%negb_false_iff%bool_decide_eq_true & _ & Hts%targets_text). split; [|done].
  unfold validRisk in Hr. apply bool_decide_eq_true in Hr. rewrite Hs, Hx.
  repeat constructor; eauto using display_text; [|apply format_time_text].
  repeat (apply elem_of_cons in Hr as [->|Hr]; [vm_compute; reflexivity|]). by apply elem_of_nil in Hr.
Qed.

(** The text that the digest of a review covers, when it is not too long, is read back to this
    review. *)
Theorem StrictParseView_CanonicalJSON v s :
  CanonicalJSON v = Ok s -> 0 < len s <= maxReviewBytes -> StrictParseView s = Ok v.
Proof.
  unfold CanonicalJSON. intros ([] & Hv & Hm)%bind_Ok Hl. destruct (marshal_view v) as [s'|] eqn:Em; [|done]. injection Hm as ->.
  pose proof (valid_view_text v Hv) as Ht. pose proof (marshal_view_text v s Ht Em) as [Es Ed].
  apply StrictParseView_Ok. split; [done|]. split; [exists (view_value v); split; [apply view_reviewable|done]|].
  split; [by apply view_shape with (v := v)|]. by split.
Qed.
End roundtrip.

(** A longer text is refused, whatever review it is of: [json.Marshal] writes a character such
    as [<] in six bytes, so a difference within [MaxDiffBytes] can be too long. *)
Lemma long_review_refused `{UnicodeTables, TimeText, Tokenizer, RawJson, TypedDecoder View} s :
  maxReviewBytes < len s -> StrictParseView s = Err ReviewSize.
Proof. intros Hl%Z.ltb_lt. unfold StrictParseView. by rewrite Hl, orb_true_r. Qed.

(** ** One text, one value *)

Definition unambiguous (n : nat) : Prop :=
  forall v w r r', (length (tokens_of v) <= n)%nat -> tokens_of v ++ r = tokens_of w ++ r' -> v = w /\ r = r'.

Lemma elements_unambiguous n l l' r r' :
  unambiguous n -> (length (element_tokens l) <= n)%nat ->
  element_tokens l ++ TCloseArray :: r = element_tokens l' ++ TCloseArray :: r' -> l = l' /\ r = r'.
Proof.
  intros Hu. revert l'. induction l as [|v l IH]; intros [|w l'] Hlen E; unfold element_tokens in *; cbn in Hlen, E.
  - by injection E.
  - apply (f_equal more) in E. rewrite <- app_assoc, tokens_more in E. done.
  - apply (f_equal more) in E. rewrite <- app_assoc, tokens_more in E. done.
  - rewrite length_app in Hlen. rewrite <- !app_assoc in E. apply Hu in E as [<- E]; [|lia]. apply IH in E as [<- <-]; [done|lia].
Qed.

Lemma members_unambiguous n l l' r r' :
  unambiguous n -> (length (member_tokens l) <= n)%nat ->
  member_tokens l ++ TCloseObject :: r = member_tokens l' ++ TCloseObject :: r' -> l = l' /\ r = r'.
Proof.
  intros Hu. revert l'. induction l as [|[k v] l IH]; intros [|[k' w] l'] Hlen E; unfold member_tokens in *; cbn in Hlen, E; try done.
  - by injection E.
  - injection E as <- E. rewrite length_app in Hlen. rewrite <- !app_assoc in E. apply Hu in E as [<- E]; [|lia].
    apply IH in E as [[= <-] <-]; [done|lia].
Qed.

Lemma tokens_unambiguous n : unambiguous n.
Proof.
  induction n as [|n IH]; intros v w r r' Hlen E; [pose proof (tokens_nonempty v); lia|].
  destruct v as [|b|m|s|l|l], w as [|b'|m'|s'|l'|l']; cbn in E; try discriminate E; try (injection E; intros; by subst).
  - injection E as E. rewrite <- !app_assoc in E. cbn in E, Hlen. rewrite length_app in Hlen.
    apply (elements_unambiguous n) in E as [-> ->]; [done|exact IH|unfold element_tokens; lia].
  - injection E as E. rewrite <- !app_assoc in E. cbn in E, Hlen. rewrite length_app in Hlen.
    apply (members_unambiguous n) in E as [-> ->]; [done|exact IH|unfold member_tokens; lia].
Qed.

(** The tokens of a value are those of no other. *)
Lemma tokens_of_inj v w : tokens_of v = tokens_of w -> v = w.
Proof. intros E. apply (tokens_unambiguous (length (tokens_of v)) v w [] []); [done|]. by rewrite E. Qed.

Lemma tokens_pair_inj v w : (tokens_of v, true) = (tokens_of w, true) -> v = w.
Proof. intros E%(f_equal fst). by apply tokens_of_inj. Qed.

(** ** Witnesses *)

#[export] Instance ViewTarget_eq_dec : EqDecision ViewTarget.
Proof. solve_decision. Defined.
#[export] Instance View_eq_dec : EqDecision View.
Proof. solve_decision. Defined.

(** One view: its text is a brace, and the raw text of a member its name. *)
Section one_view.
Variable v : View.

Definition one_text : gostring := "{".
Definition object_members (j : json) : list (gostring * json) := match j with JObject l => l | _ => [] end.
Definition view_members : list (gostring * json) := object_members (view_value v).
Definition raw_members (j : json) : gmap gostring gostring := list_to_map ((fun m => (m.1, m.1)) <$> object_members j).

Fixpoint member_named (k : gostring) (l : list (gostring * json)) : option json :=
  match l with [] => None | (k', w) :: l => if decide (k' = k) then Some w else member_named k l end.

Definition one_tokenizer : Tokenizer := {|
  json_tokens s := if decide (s = one_text) then (tokens_of (view_value v), true)
                   else match member_named s view_members with Some w => (tokens_of w, true) | None => ([], false) end
|}.
Definition one_raw : RawJson := {|
  raw_object s := if decide (s = one_text) then Some (raw_members (view_value v)) else None;
  raw_objects s := if decide (s = "targets") then Some (raw_members ∘ target_value <$> v_Targets v) else None
|}.
Definition one_decoder : TypedDecoder View := {| typed_decode s := if decide (s = one_text) then Some (v, true) else None |}.
Definition one_view_json : ViewJson := {| marshal_view u := if decide (u = v) then Some one_text else None |}.

Lemma raw_members_dom j : dom (raw_members j) = list_to_set (object_members j).*1.
Proof. unfold raw_members. rewrite dom_list_to_map_L, <- list_fmap_compose. done. Qed.

Lemma member_named_In k w l : NoDup l.*1 -> (k, w) ∈ l -> member_named k l = Some w.
Proof.
  induction l as [|[k' w'] l IH]; cbn; intros Hn Hin; [by apply elem_of_nil in Hin|]. apply NoDup_cons in Hn as [Hk Hn].
  apply elem_of_cons in Hin as [[= <- <-]|Hin]; [by rewrite decide_True|].
  rewrite decide_False; [by apply IH|]. intros ->. apply Hk, list_elem_of_fmap. by exists (k, w).
Qed.

Lemma member_named_Some k w l : member_named k l = Some w -> (k, w) ∈ l.
Proof. induction l as [|[k' w'] l IH]; cbn; [done|]. case_decide as E; [intros [= <-]; subst; left|intros Hm; right; by apply IH]. Qed.

Lemma one_view_laws : @ReviewJsonLaws one_tokenizer one_raw one_decoder one_view_json.
Proof.
  split; cbn [json_tokens raw_object raw_objects marshal_view typed_decode one_tokenizer one_raw one_decoder one_view_json].
  - intros data l. case_decide as Ed.
    + intros E%(tokens_pair_inj _ (JObject l)). exists (raw_members (view_value v)). rewrite raw_members_dom, E. split; [done|].
      split; [done|]. cbn [object_members]. intros k raw Hk. apply elem_of_list_to_map_2, list_elem_of_fmap in Hk as ([k' w] & [= -> ->] & Hin).
      exists w. split; [done|]. cbn [fst] in *.
      assert (k' <> one_text). { intros ->. injection E as <-. unfold one_text in Hin.
        repeat (apply elem_of_cons in Hin as [Hin|Hin]; [discriminate Hin|]). by apply elem_of_nil in Hin. }
      rewrite decide_False by done. unfold view_members. rewrite E. cbn [object_members].
      erewrite member_named_In; [done| |exact Hin]. injection E as <-. apply (bool_decide_unpack _). vm_compute. exact I.
    + destruct (member_named data view_members) as [w|] eqn:Em; [|done]. intros ->%(tokens_pair_inj _ (JObject l)).
      apply member_named_Some in Em. unfold view_members, view_value in Em. cbn [object_members] in Em.
      repeat (apply elem_of_cons in Em as [Em|Em]; [discriminate Em|]). by apply elem_of_nil in Em.
  - intros data ls. case_decide as Ed; [by intros E%(tokens_pair_inj _ (JArray _))|].
    destruct (member_named data view_members) as [w|] eqn:Em; [|done]. intros ->%(tokens_pair_inj _ (JArray _)).
    apply member_named_Some in Em. unfold view_members, view_value in Em. cbn [object_members] in Em.
    do 8 (apply elem_of_cons in Em as [Em|Em]; [discriminate Em|]). apply elem_of_cons in Em as [Em|Em]; [|by apply elem_of_nil in Em].
    injection Em as -> E. symmetry in E.
    rewrite decide_True by done. eexists. split; [done|]. clear -E. revert ls E.
    induction (v_Targets v) as [|t ts IH]; intros [|l ls] E; try discriminate E; [constructor|].
    pose proof (f_equal head E) as El. apply (f_equal tail) in E. apply (inj Some) in El. rewrite fmap_cons. constructor; [|by apply IH].
    cbn [compose]. by rewrite raw_members_dom, El.
  - intros u s _. case_decide as Eu; [|done]. subst u. by intros [= <-].
Qed.
End one_view.

Lemma decimal_time_laws : @TimeTextLaws decimal_time.
Proof.
  split. intros t. cbn [format_time decimal_time]. apply utf8_valid_all_ascii.
  destruct (itoa_digits t) as (_ & _ & _ & Hd). eapply Forall_impl; [exact Hd|]. cbn. lia.
Qed.
