(* ===== verification/WorkspaceRegistry.v ===== *)
(** * The registry of workspaces ([internal/workspaceregistry/])

    The trusted configuration of workspaces, the routes under which they are served, and
    their lifecycle in memory. Cleanup callbacks run outside the lock: the calls that an
    operation makes are part of its result. *)
From S2P Require Import Prelude GoStrings Utf8 GoPath Redact StrictJson ApprovalView.
#[local] Open Scope Z_scope.

(** ** Workspaces *)

Definition CurrentVersion : gostring := "v1".
Definition maxConfigSize : Z := Z.shiftl 1 20.
Definition minIDLength : Z := 16.
Definition maxIDLength : Z := 256.

Record WorkspaceConfig := mkWorkspace {
  wc_ID : gostring; wc_Root : gostring; wc_ReadOnly : bool; wc_ExpiresAt : gotime; wc_DeniedNames : list gostring
}.
#[export] Instance WorkspaceConfig_eq_dec : EqDecision WorkspaceConfig.
Proof. solve_decision. Defined.

Inductive registry_error :=
  | IDLength | IDCharacter | RootEmpty | RootNotAbsolute | RootNotClean | ExpiryNotFuture | DeniedNameInvalid
  | DeniedNameDuplicate (name : gostring) | ErrNotFound | ErrExpired | ErrAlreadyExists | DuplicateID | NilCallback
  | ValidationTime | BadShape (e : strict_error) | NotJSON | MissingFields | UnsupportedVersion | NoWorkspaces | BadTimestamp
  | ConfigTooLarge.

Definition safeIDByte (c : ascii) : bool :=
  let n := code c in
  ((97 <=? n) && (n <=? 122)) || ((65 <=? n) && (n <=? 90)) || ((48 <=? n) && (n <=? 57)) || contains_byte "!$&'*+-.^_`|~" c.

Definition ValidateID (id : gostring) : result registry_error unit :=
  reject (len id <? minIDLength) || (maxIDLength <? len id) with IDLength;
  reject negb (forallb safeIDByte id) with IDCharacter;
  Ok tt.



Fixpoint check_denied_names (names : list gostring) (seen : gset gostring) : result registry_error unit :=
  match names with
  | [] => Ok tt
  | name :: rest =>
      reject bool_decide (trim_space name = []) || bool_decide (name = ".") || bool_decide (name = "..") ||
             existsb (contains_byte name) [NUL; SLASH; BSL] with DeniedNameInvalid;
      reject bool_decide (name ∈ seen) with DeniedNameDuplicate name;
      check_denied_names rest ({[name]} ∪ seen)
  end.

Definition validateWorkspace (w : WorkspaceConfig) (now : gotime) : result registry_error unit :=
  _ ← ValidateID (wc_ID w);
  reject bool_decide (wc_Root w = []) with RootEmpty;
  reject contains_byte (wc_Root w) NUL || negb (is_rooted (wc_Root w)) with RootNotAbsolute;
  reject negb (bool_decide (clean (wc_Root w) = wc_Root w)) with RootNotClean;
  reject bool_decide (wc_ExpiresAt w = zero_time) || negb (after (wc_ExpiresAt w) now) with ExpiryNotFuture;
  check_denied_names (wc_DeniedNames w) ∅.

(** ** The configuration file *)

Record workspaceJSON := mkWorkspaceJSON {
  wj_ID : option gostring; wj_Root : option gostring; wj_ReadOnly : option bool; wj_ExpiresAt : option gostring;
  wj_DeniedNames : option (list gostring)
}.
Record configJSON := mkConfigJSON { cj_Version : option gostring; cj_Workspaces : option (list workspaceJSON) }.
Record Config := mkConfig { cf_Version : gostring; cf_Workspaces : list WorkspaceConfig }.

Definition decodeWorkspace `{TimeText} (raw : workspaceJSON) : result registry_error WorkspaceConfig :=
  match raw with
  | mkWorkspaceJSON (Some id) (Some root) (Some readOnly) (Some expiresAt) (Some names) =>
      match parse_time expiresAt with
      | None => Err BadTimestamp
      | Some t => Ok (mkWorkspace id root readOnly t names)
      end
  | _ => Err MissingFields
  end.

Fixpoint decode_workspaces `{TimeText} (items : list workspaceJSON) (seen : gset gostring) (now : gotime)
  : result registry_error (list WorkspaceConfig) :=
  match items with
  | [] => Ok []
  | item :: rest =>
      workspace ← decodeWorkspace item;
      reject bool_decide (wc_ID workspace ∈ seen) with DuplicateID;
      _ ← validateWorkspace workspace now;
      workspaces ← decode_workspaces rest ({[wc_ID workspace]} ∪ seen) now;
      Ok (workspace :: workspaces)
  end.

Definition ParseConfig `{TimeText} `{Tokenizer} `{TypedDecoder configJSON} (data : gostring) (now : gotime)
  : result registry_error Config :=
  reject bool_decide (now = zero_time) with ValidationTime;
  match validateJSONShape data with
  | Err e => Err (BadShape e)
  | Ok _ =>
      match typed_decode data with
      | None => Err NotJSON
      | Some (mkConfigJSON (Some version) (Some items), _) =>
          reject negb (bool_decide (version = CurrentVersion)) with UnsupportedVersion;
          reject bool_decide (items = []) with NoWorkspaces;
          workspaces ← decode_workspaces items ∅ now;
          Ok (mkConfig version workspaces)
      | Some _ => Err MissingFields
      end
  end.

(** The part of [LoadFile] after the file has been opened and found regular: [size] is what
    [Stat] said, [content] what [ReadAll] of the limited file returns. *)
Definition LoadFile `{TimeText} `{Tokenizer} `{TypedDecoder configJSON} (size : Z) (content : gostring) (now : gotime)
  : result registry_error Config :=
  reject maxConfigSize <? size with ConfigTooLarge;
  let data := take (Z.to_nat (maxConfigSize + 1)) content in
  reject maxConfigSize <? len data with ConfigTooLarge;
  ParseConfig data now.

(** ** The registry *)

Record View := mkView { vw_ID : gostring; vw_ReadOnly : bool; vw_ExpiresAt : gotime; vw_DeniedNames : list gostring; vw_Generation : Z }.
Record AdminView := mkAdminView { av_View : View; av_Root : gostring }.

Definition viewOf (w : WorkspaceConfig) (generation : Z) : View :=
  mkView (wc_ID w) (wc_ReadOnly w) (wc_ExpiresAt w) (wc_DeniedNames w) generation.
Definition adminViewOf (w : WorkspaceConfig) (generation : Z) : AdminView := mkAdminView (viewOf w generation) (wc_Root w).

(** [sort.Slice] by identifier. *)
Definition view_le (a b : View) : Prop := str_le (vw_ID a) (vw_ID b).
#[export] Instance view_le_dec a b : base.Decision (view_le a b).
Proof. unfold view_le. apply _. Defined.
Definition admin_le (a b : AdminView) : Prop := view_le (av_View a) (av_View b).
#[export] Instance admin_le_dec a b : base.Decision (admin_le a b).
Proof. unfold admin_le. apply _. Defined.
Definition sortAdminViews (l : list AdminView) : list AdminView := merge_sort admin_le l.

Definition sameWorkspace (left right : WorkspaceConfig) : bool :=
  bool_decide (wc_ID left = wc_ID right) && bool_decide (wc_Root left = wc_Root right) &&
  bool_decide (wc_ReadOnly left = wc_ReadOnly right) && bool_decide (wc_ExpiresAt left = wc_ExpiresAt right) &&
  bool_decide (wc_DeniedNames left = wc_DeniedNames right).

Definition wrap_u64 (n : Z) : Z := n mod 2 ^ 64.

Section registry.
Context {C : Type}.

(** [C] is the type of callbacks. *)
Record Registry := mkRegistry { rg_workspaces : gmap gostring WorkspaceConfig; rg_generation : Z; rg_callbacks : list C }.

Definition New (callbacks : list (option C)) : Registry := mkRegistry ∅ 0 (omap Datatypes.id callbacks).

(** A change of the set of workspaces. *)
Definition next_generation (m : gmap gostring WorkspaceConfig) (r : Registry) : Registry :=
  mkRegistry m (wrap_u64 (rg_generation r + 1)) (rg_callbacks r).

(** The calls that [runCleanup] makes, in their order. *)
Definition runCleanup (callbacks : list C) (removed : list AdminView) : list (C * AdminView) :=
  v ← removed; c ← callbacks; [(c, v)].

Definition OnCleanup (callback : option C) (r : Registry) : result registry_error unit * Registry :=
  match callback with
  | None => (Err NilCallback, r)
  | Some c => (Ok tt, mkRegistry (rg_workspaces r) (rg_generation r) (rg_callbacks r ++ [c]))
  end.

Definition Register (w : WorkspaceConfig) (now : gotime) (r : Registry) : Z * result registry_error unit * Registry :=
  match validateWorkspace w now with
  | Err e => (rg_generation r, Err e, r)
  | Ok _ =>
      match rg_workspaces r !! wc_ID w with
      | Some _ => (rg_generation r, Err ErrAlreadyExists, r)
      | None => let r := next_generation (<[wc_ID w := w]> (rg_workspaces r)) r in (rg_generation r, Ok tt, r)
      end
  end.

(** The loop of [ReplaceAll] that checks its argument. *)
Fixpoint next_workspaces (ws : list WorkspaceConfig) (now : gotime) (next : gmap gostring WorkspaceConfig)
  : result registry_error (gmap gostring WorkspaceConfig) :=
  match ws with
  | [] => Ok next
  | w :: rest =>
      _ ← validateWorkspace w now;
      match next !! wc_ID w with
      | Some _ => Err DuplicateID
      | None => next_workspaces rest now (<[wc_ID w := w]> next)
      end
  end.

(** What [ReplaceAll] removes: the registrations that are absent from the new set or
    changed by it. *)
Definition outdated (next : gmap gostring WorkspaceConfig) (p : gostring * WorkspaceConfig) : Prop :=
  match next !! p.1 with Some replacement => sameWorkspace p.2 replacement = false | None => True end.
#[export] Instance outdated_dec next p : base.Decision (outdated next p).
Proof. unfold outdated. case_match; apply _. Defined.

Definition views_of (generation : Z) (m : gmap gostring WorkspaceConfig) : list AdminView :=
  sortAdminViews ((fun p => adminViewOf p.2 generation) <$> map_to_list m).

Definition ReplaceAll (ws : list WorkspaceConfig) (now : gotime) (r : Registry)
  : Z * result registry_error unit * list (C * AdminView) * Registry :=
  match next_workspaces ws now ∅ with
  | Err e => (rg_generation r, Err e, [], r)
  | Ok next =>
      let r' := next_generation next r in
      (rg_generation r', Ok tt, runCleanup (rg_callbacks r) (views_of (rg_generation r') (filter (outdated next) (rg_workspaces r))), r')
  end.

(** [get]: the workspace, whether it had expired, and the registry without it if so. *)
Definition get (id : gostring) (now : gotime) (r : Registry) : option (WorkspaceConfig * bool) * Registry :=
  match rg_workspaces r !! id with
  | None => (None, r)
  | Some w =>
      if negb (after (wc_ExpiresAt w) now) then (Some (w, true), next_generation (delete id (rg_workspaces r)) r)
      else (Some (w, false), r)
  end.

Definition get_as {V} (view : WorkspaceConfig -> Z -> V) (id : gostring) (now : gotime) (r : Registry)
  : result registry_error V * list (C * AdminView) * Registry :=
  let '(found, r') := get id now r in
  match found with
  | None => (Err ErrNotFound, [], r')
  | Some (w, true) => (Err ErrExpired, runCleanup (rg_callbacks r) [adminViewOf w (rg_generation r')], r')
  | Some (w, false) => (Ok (view w (rg_generation r')), [], r')
  end.
Definition Get := get_as viewOf.
Definition GetAdmin := get_as adminViewOf.

Definition Revoke (id : gostring) (r : Registry) : Z * result registry_error unit * list (C * AdminView) * Registry :=
  match rg_workspaces r !! id with
  | None => (rg_generation r, Err ErrNotFound, [], r)
  | Some w =>
      let r' := next_generation (delete id (rg_workspaces r)) r in
      (rg_generation r', Ok tt, runCleanup (rg_callbacks r) [adminViewOf w (rg_generation r')], r')
  end.

Definition has_expired (now : gotime) (p : gostring * WorkspaceConfig) : Prop := after (wc_ExpiresAt p.2) now = false.

#[export] Instance has_expired_dec now p : base.Decision (has_expired now p).
Proof. unfold has_expired. apply _. Defined.

Definition snapshot (now : gotime) (r : Registry) : gmap gostring WorkspaceConfig * list (C * AdminView) * Registry :=
  let expired := filter (has_expired now) (rg_workspaces r) in
  let rest := filter (fun p => ~ has_expired now p) (rg_workspaces r) in
  let r' := if decide (expired = ∅) then mkRegistry rest (rg_generation r) (rg_callbacks r) else next_generation rest r in
  (rest, runCleanup (rg_callbacks r) (views_of (rg_generation r') expired), r').

Definition List_ (now : gotime) (r : Registry) : list View * list (C * AdminView) * Registry :=
  let '(ws, calls, r') := snapshot now r in
  (merge_sort view_le ((fun p => viewOf p.2 (rg_generation r')) <$> map_to_list ws), calls, r').
Definition ListAdmin (now : gotime) (r : Registry) : list AdminView * list (C * AdminView) * Registry :=
  let '(ws, calls, r') := snapshot now r in (views_of (rg_generation r') ws, calls, r').
End registry.
Arguments Registry : clear implicits.

(** ** Routes ([path.go]) *)

Definition DefaultPath : gostring := "/mcp".

Inductive Route := DefaultRoute | WorkspaceRoute (id : gostring).

(** [url.PathEscape] and [url.PathUnescape] of the standard library. *)
Definition path_byte (c : ascii) : bool :=
  let n := code c in
  ((97 <=? n) && (n <=? 122)) || ((65 <=? n) && (n <=? 90)) || ((48 <=? n) && (n <=? 57)) || contains_byte "-_.~$&+:=@" c.
Definition hex_upper (n : Z) : ascii := byte_of (if n <? 10 then 48 + n else 55 + n).
Definition unhex (c : ascii) : option Z :=
  let n := code c in
  if (48 <=? n) && (n <=? 57) then Some (n - 48)
  else if (97 <=? n) && (n <=? 102) then Some (n - 87)
  else if (65 <=? n) && (n <=? 70) then Some (n - 55) else None.
Definition PathEscape (s : gostring) : gostring :=
  c ← s; if path_byte c then [c] else ["%"%char; hex_upper (code c / 16); hex_upper (code c mod 16)].
Fixpoint PathUnescape (s : gostring) : option gostring :=
  match s with
  | [] => Some []
  | c :: rest =>
      if Ascii.eqb c "%" then
        match rest with
        | a :: b :: rest => high ← unhex a; low ← unhex b; t ← PathUnescape rest; Some (byte_of (16 * high + low) :: t)
        | _ => None
        end
      else t ← PathUnescape rest; Some (c :: t)
  end.

Definition WorkspacePath (id : gostring) : result registry_error gostring :=
  _ ← ValidateID id; Ok (DefaultPath ++ "/" ++ PathEscape id).

Inductive route_error := OutsideEndpoint | NotOneSegment | BadEscape | BadID (e : registry_error) | NotCanonical.

Definition ParsePath (path : gostring) : result route_error Route :=
  if bool_decide (path = DefaultPath) then Ok DefaultRoute
  else if negb (has_prefix path (DefaultPath ++ "/")) then Err OutsideEndpoint
  else
    let segment := drop (length (DefaultPath ++ "/")) path in
    if bool_decide (segment = []) || existsb (contains_byte segment) "/?#" then Err NotOneSegment
    else
      match PathUnescape segment with
      | None => Err BadEscape
      | Some id =>
          match WorkspacePath id with
          | Err e => Err (BadID e)
          | Ok canonical => if bool_decide (canonical = path) then Ok (WorkspaceRoute id) else Err NotCanonical
          end
      end.

(** ** Routes are unambiguous *)

Lemma unhex_upper n : 0 <= n < 16 -> unhex (hex_upper n) = Some n.
Proof.
  intros Hn. unfold unhex, hex_upper. rewrite code_byte_of by (destruct (n <? 10) eqn:E; lia).
  destruct (n <? 10) eqn:E.
  - rewrite (proj2 (Z.leb_le _ _)), (proj2 (Z.leb_le _ _)) by lia. cbn. f_equal. lia.
  - rewrite (proj2 (Z.leb_gt (55 + n) 57)), (proj2 (Z.leb_gt 97 (55 + n))), (proj2 (Z.leb_le 65 (55 + n))), (proj2 (Z.leb_le (55 + n) 70)) by lia.
    rewrite andb_false_r. cbn. f_equal. lia.
Qed.

Lemma PathEscape_cons c s :
  PathEscape (c :: s) = (if path_byte c then [c] else ["%"%char; hex_upper (code c / 16); hex_upper (code c mod 16)]) ++ PathEscape s.
Proof. done. Qed.

Lemma PathUnescape_escape s : PathUnescape (PathEscape s) = Some s.
Proof.
  induction s as [|c s IH]; [done|]. rewrite PathEscape_cons. pose proof (code_range c) as Hc. destruct (path_byte c) eqn:Ep.
  - cbn [app PathUnescape]. destruct (Ascii.eqb_spec c "%") as [->|_]; [by vm_compute in Ep|]. by rewrite IH.
  - cbn [app PathUnescape]. change (Ascii.eqb "%" "%") with true. cbn iota.
    rewrite !unhex_upper by (pose proof (Z.mod_pos_bound (code c) 16); pose proof (Z.div_mod (code c) 16); lia). cbn. rewrite IH. cbn. f_equal. f_equal.
    replace (16 * (code c / 16) + code c mod 16) with (code c) by (pose proof (Z.div_mod (code c) 16); lia).
    apply byte_of_code.
Qed.

(** What an escaped segment cannot contain. *)
Lemma PathEscape_plain s c : c ∈ PathEscape s -> c ∉ ("/?#" : gostring).
Proof.
  induction s as [|d s IH]; [by intros ?%elem_of_nil|]. rewrite PathEscape_cons. intros [Hin|Hin]%elem_of_app; [|by apply IH].
  pose proof (code_range d) as Hd. intros Hbad.
  assert (Hup : forall n, 0 <= n < 16 -> c <> hex_upper n).
  { intros n Hn ->. unfold hex_upper in Hbad.
    assert (48 <= (if n <? 10 then 48 + n else 55 + n) <= 70 /\ (if n <? 10 then 48 + n else 55 + n) <> 63) as [Hr Hq] by (destruct (n <? 10) eqn:E; lia).
    revert Hr Hq Hbad. generalize (if n <? 10 then 48 + n else 55 + n). intros k Hr Hq Hin'.
    repeat (apply elem_of_cons in Hin' as [Hin'|Hin']; [apply (f_equal code) in Hin'; rewrite code_byte_of in Hin' by lia; vm_compute in Hin'; subst k; lia|]).
    by apply elem_of_nil in Hin'. }
  destruct (path_byte d) eqn:Ep.
  - apply list_elem_of_singleton in Hin as ->. repeat (apply elem_of_cons in Hbad as [->|Hbad]; [by vm_compute in Ep|]). by apply elem_of_nil in Hbad.
  - apply elem_of_cons in Hin as [->|Hin].
    { repeat (apply elem_of_cons in Hbad as [Hbad|Hbad]; [discriminate Hbad|]). by apply elem_of_nil in Hbad. }
    repeat (apply elem_of_cons in Hin as [->|Hin]; [by eapply Hup; [|reflexivity]; pose proof (Z.mod_pos_bound (code d) 16); pose proof (Z.div_mod (code d) 16); lia|]).
    by apply elem_of_nil in Hin.
Qed.

Lemma ValidateID_nonempty id : ValidateID id = Ok tt -> id <> [].
Proof. intros [H _]%guard_Ok ->. by vm_compute in H. Qed.

Lemma WorkspacePath_parses id path : WorkspacePath id = Ok path -> path <> DefaultPath /\ ParsePath path = Ok (WorkspaceRoute id).
Proof.
  intros Hw. assert (Hw' := Hw). apply bind_Ok in Hw' as ([] & Hv & E). assert (path <> DefaultPath) as Hd by (injection E as <-; discriminate).
  split; [done|]. unfold ParsePath. rewrite bool_decide_false by done.
  assert (path = (DefaultPath ++ "/") ++ PathEscape id) as -> by (by injection E as <-).
  rewrite has_prefix_app, drop_app_length. cbn [negb]. rewrite PathUnescape_escape. rewrite Hw.
  rewrite (bool_decide_false (PathEscape id = [])), bool_decide_true by (done ||
    (intros Hnil; apply (f_equal PathUnescape) in Hnil; rewrite PathUnescape_escape in Hnil; injection Hnil as ->; by apply ValidateID_nonempty in Hv)).
  assert (existsb (contains_byte (PathEscape id)) "/?#" = false) as ->; [|done].
  apply existsb_false_Forall, Forall_forall. intros c Hc. unfold contains_byte.
  apply bool_decide_eq_false. intros Hin. by eapply PathEscape_plain.
Qed.

(** Exactly the canonical paths are routes to workspaces: no workspace has two, and no path
    leads to two. *)
Theorem ParsePath_spec path :
  (forall id, ParsePath path = Ok (WorkspaceRoute id) <-> WorkspacePath id = Ok path) /\
  (ParsePath path = Ok DefaultRoute <-> path = DefaultPath).
Proof.
  unfold ParsePath. split.
  - intros id. split; [|apply WorkspacePath_parses]. case_bool_decide; [done|]. destruct (negb _); [done|]. destruct (_ || _); [done|].
    destruct (PathUnescape _) as [i|]; [|done]. destruct (WorkspacePath i) as [canonical|] eqn:E; [|done]. case_bool_decide; [|done].
    intros [= <-]. congruence.
  - split; [|intros ->; by rewrite bool_decide_true]. case_bool_decide; [done|]. destruct (negb _); [done|]. destruct (_ || _); [done|].
    destruct (PathUnescape _) as [i|]; [|done]. destruct (WorkspacePath i); [|done]. by case_bool_decide.
Qed.

(** ** The configuration *)



(** What does not depend on the time. *)
Definition valid_workspace (w : WorkspaceConfig) : Prop := forall now, now < wc_ExpiresAt w -> validateWorkspace w now = Ok tt.

Lemma validateWorkspace_Ok w now : validateWorkspace w now = Ok tt -> now < wc_ExpiresAt w /\ valid_workspace w.
Proof.
  assert (Hv : forall t, validateWorkspace w t = Ok tt <-> is_ok (ValidateID (wc_ID w)) && negb (bool_decide (wc_Root w = [])) &&
      negb (contains_byte (wc_Root w) NUL || negb (is_rooted (wc_Root w))) && bool_decide (clean (wc_Root w) = wc_Root w) &&
      negb (bool_decide (wc_ExpiresAt w = zero_time)) && (t <? wc_ExpiresAt w) && is_ok (check_denied_names (wc_DeniedNames w) ∅) = true).
  { intros t. unfold validateWorkspace, after. destruct (ValidateID (wc_ID w)) as [[]|]; [|done]. cbn [mbind result_bind is_ok].
    destruct (check_denied_names _ _) as [[]|];
      repeat (match goal with |- context [bool_decide ?P] => destruct (bool_decide P) | |- context [contains_byte ?a ?b] => destruct (contains_byte a b)
              | |- context [is_rooted ?a] => destruct (is_rooted a) | |- context [?a <? ?b] => destruct (a <? b) end); cbn; done. }
  intros Hn%Hv. apply andb_true_iff in Hn as [[Hn Ht]%andb_true_iff Hc]. split; [by apply Z.ltb_lt|].
  intros t Ht'. apply Hv. by rewrite Hn, (proj2 (Z.ltb_lt _ _) Ht').
Qed.

Lemma valid_workspace_id w : valid_workspace w -> ValidateID (wc_ID w) = Ok tt.
Proof.
  intros Hv. specialize (Hv (wc_ExpiresAt w - 1) ltac:(lia)). unfold validateWorkspace in Hv. by destruct (ValidateID _) as [[]|].
Qed.

Lemma decode_workspaces_Ok `{TimeText} items seen now ws :
  decode_workspaces items seen now = Ok ws ->
  Forall valid_workspace ws /\ NoDup (wc_ID <$> ws) /\ (forall id, id ∈ wc_ID <$> ws -> id ∉ seen) /\
  Forall (fun w => now < wc_ExpiresAt w) ws.
Proof.
  revert seen ws. induction items as [|item items IH]; intros seen ws; cbn [decode_workspaces].
  { intros [= <-]. repeat constructor. by intros id ?%elem_of_nil. }
  intros (w & _ & (Hs & ([] & (Ht & Hv)%validateWorkspace_Ok & (ws' & (Hf & Hn & Hd & Hx)%IH & [= <-])%bind_Ok)%bind_Ok)%guard_Ok)%bind_Ok.
  apply bool_decide_eq_false in Hs. cbn. split_and!; try by constructor.
  - constructor; [|done]. intros Hin%Hd. set_solver.
  - intros id [->|Hin]%elem_of_cons; [done|]. apply Hd in Hin. set_solver.
Qed.

Lemma next_workspaces_Ok ws now next :
  Forall (fun w => valid_workspace w /\ now < wc_ExpiresAt w) ws -> NoDup (wc_ID <$> ws) -> (forall id, id ∈ wc_ID <$> ws -> next !! id = None) ->
  exists next', next_workspaces ws now next = Ok next' /\
    (forall id, next' !! id = match list_find (fun w => wc_ID w = id) ws with Some (_, w) => Some w | None => next !! id end).
Proof.
  revert next. induction ws as [|w ws IH]; intros next Hf Hn Hd; [by exists next|]. cbn [next_workspaces].
  inversion_clear Hf as [|? ? [Hv Ht] Hf']. rewrite Hv by done. cbn [mbind result_bind]. cbn in Hn. apply NoDup_cons in Hn as [Hni Hn].
  rewrite Hd by left. destruct (IH (<[wc_ID w:=w]> next)) as (next' & -> & Hl); [done|done| |].
  { intros id Hin. rewrite lookup_insert_ne; [by apply Hd; right|]. intros E; apply Hni; by rewrite E. }
  exists next'. split; [done|]. intros id. rewrite Hl. cbn [list_find]. case_decide as Hid.
  - subst id. destruct (list_find _ ws) as [[i w']|] eqn:Ef.
    + apply list_find_Some in Ef as (Hw' & E & _). exfalso. apply Hni. rewrite <- E. apply list_elem_of_fmap. exists w'. split; [done|].
      by eapply list_elem_of_lookup_2.
    + by rewrite lookup_insert_eq.
  - destruct (list_find _ ws) as [[i w']|]; cbn; [done|]. by rewrite lookup_insert_ne.
Qed.

(** ** Lifecycle *)

Section lifecycle.
Context {C : Type}.
Implicit Type r : Registry C.

Lemma sameWorkspace_eq a b : sameWorkspace a b = true <-> a = b.
Proof. unfold sameWorkspace. rewrite !andb_true_iff, !bool_decide_eq_true. destruct a, b; cbn. naive_solver. Qed.

(** Every registration is stored under its identifier and is valid but for its time. *)
Definition registry_ok r : Prop := map_Forall (fun id w => wc_ID w = id /\ valid_workspace w) (rg_workspaces r).

Inductive op :=
  | ORegister (w : WorkspaceConfig) (now : gotime)
  | OReplace (ws : list WorkspaceConfig) (now : gotime)
  | OGet (id : gostring) (now : gotime)
  | OGetAdmin (id : gostring) (now : gotime)
  | ORevoke (id : gostring)
  | OList (now : gotime)
  | OListAdmin (now : gotime)
  | OOnCleanup (callback : option C).

Definition apply_op (o : op) r : list (C * AdminView) * Registry C :=
  match o with
  | ORegister w now => ([], (Register w now r).2)
  | OReplace ws now => let '(_, _, calls, r) := ReplaceAll ws now r in (calls, r)
  | OGet id now => let '(_, calls, r) := Get id now r in (calls, r)
  | OGetAdmin id now => let '(_, calls, r) := GetAdmin id now r in (calls, r)
  | ORevoke id => let '(_, _, calls, r) := Revoke id r in (calls, r)
  | OList now => let '(_, calls, r) := List_ now r in (calls, r)
  | OListAdmin now => let '(_, calls, r) := ListAdmin now r in (calls, r)
  | OOnCleanup c => ([], (OnCleanup c r).2)
  end.

(** What an operation registers anew: [ReplaceAll] leaves unchanged registrations alone. *)
Definition installed (o : op) r : list WorkspaceConfig :=
  match o with
  | ORegister w now => if (Register w now r).1.2 is Ok _ then [w] else []
  | OReplace ws now =>
      if next_workspaces ws now ∅ is Ok next then (map_to_list (filter (outdated (rg_workspaces r)) next)).*2 else []
  | _ => []
  end.

Fixpoint run (os : list op) r : list (C * AdminView) * list WorkspaceConfig * Registry C :=
  match os with
  | [] => ([], [], r)
  | o :: os =>
      let '(calls, r') := apply_op o r in
      let '(calls', new, r'') := run os r' in (calls ++ calls', installed o r ++ new, r'')
  end.

Definition config_of (v : AdminView) : WorkspaceConfig :=
  mkWorkspace (vw_ID (av_View v)) (av_Root v) (vw_ReadOnly (av_View v)) (vw_ExpiresAt (av_View v)) (vw_DeniedNames (av_View v)).

Lemma config_of_view w (g : Z) : config_of (adminViewOf w g) = w.
Proof. by destruct w. Qed.

Definition present r : list WorkspaceConfig := (map_to_list (rg_workspaces r)).*2.

Lemma present_split (P : gostring * WorkspaceConfig -> Prop) `{!forall p, base.Decision (P p)} (m : gmap gostring WorkspaceConfig) :
  (map_to_list m).*2 ≡ₚ (map_to_list (filter P m)).*2 ++ (map_to_list (filter (fun p => ~ P p) m)).*2.
Proof.
  rewrite <- fmap_app. apply fmap_Permutation, NoDup_Permutation.
  - apply NoDup_map_to_list.
  - apply NoDup_app. split_and!; [apply NoDup_map_to_list| |apply NoDup_map_to_list].
    intros [k w] [_ Hp]%elem_of_map_to_list%map_lookup_filter_Some [_ Hn]%elem_of_map_to_list%map_lookup_filter_Some. done.
  - intros [k w]. rewrite elem_of_app, !elem_of_map_to_list, !map_lookup_filter_Some. destruct (decide (P (k, w))); naive_solver.
Qed.

Lemma views_config (g : Z) (m : gmap gostring WorkspaceConfig) : config_of <$> views_of g m ≡ₚ (map_to_list m).*2.
Proof.
  unfold views_of, sortAdminViews. rewrite (merge_sort_Permutation admin_le _), <- list_fmap_compose.
  erewrite list_fmap_ext; [done|]. intros i [id w] _. apply config_of_view.
Qed.

(** The registrations that an operation removes, as its calls name them. *)
Definition removes (o : op) r (gone : list AdminView) : Prop := (apply_op o r).1 = runCleanup (rg_callbacks r) gone.

Lemma snapshot_balance now r :
  exists gone, (snapshot now r).1.2 = runCleanup (rg_callbacks r) gone /\
    present r ++ [] ≡ₚ present (snapshot now r).2 ++ (config_of <$> gone).
Proof.
  eexists. split; [done|]. rewrite views_config, app_nil_r. unfold present, snapshot. cbn [fst snd].
  rewrite (present_split (has_expired now) (rg_workspaces r)), Permutation_app_comm. by case_decide.
Qed.

(** An operation moves registrations: what was there or is new is still there or removed. *)
Lemma op_balance o r :
  exists gone, removes o r gone /\ present r ++ installed o r ≡ₚ present (apply_op o r).2 ++ (config_of <$> gone).
Proof.
  unfold removes. destruct o as [w now|ws now|id now|id now|id|now|now|c]; cbn [apply_op installed].
  - exists []. split; [done|]. unfold Register. destruct (validateWorkspace w now) as [[]|]; [|done].
    destruct (rg_workspaces r !! wc_ID w) eqn:E; [done|]. cbn. unfold present. cbn. rewrite map_to_list_insert by done. cbn.
    rewrite app_nil_r. symmetry. apply Permutation_cons_append.
  - unfold ReplaceAll. destruct (next_workspaces ws now ∅) as [next|]; [|by exists []]. eexists. split; [done|].
    rewrite views_config. unfold present. cbn.
    rewrite (present_split (outdated next) (rg_workspaces r)), (present_split (outdated (rg_workspaces r)) next).
    assert (filter (fun p => ~ outdated next p) (rg_workspaces r) = filter (fun p => ~ outdated (rg_workspaces r) p) next) as ->.
    { apply map_eq. intros id. apply option_eq. intros w. rewrite !map_lookup_filter_Some. unfold outdated. cbn. split.
      - intros [Hr Hn]. destruct (next !! id) as [w'|] eqn:E; [|by destruct Hn]. apply not_false_iff_true, sameWorkspace_eq in Hn as ->.
        rewrite Hr. split; [done|]. apply not_false_iff_true. by apply sameWorkspace_eq.
      - intros [Hn Hr]. destruct (rg_workspaces r !! id) as [w'|] eqn:E; [|by destruct Hr]. apply not_false_iff_true, sameWorkspace_eq in Hr as ->.
        rewrite Hn. split; [done|]. apply not_false_iff_true. by apply sameWorkspace_eq. }
    rewrite Permutation_app_comm, <- app_assoc. apply Permutation_app_head, Permutation_app_comm.
  - unfold Get, get_as, get. destruct (rg_workspaces r !! id) as [w|] eqn:E; [|by exists []]. destruct (negb _); [|by exists []].
    eexists. split; [done|]. cbn. rewrite config_of_view. unfold present. cbn. rewrite app_nil_r.
    rewrite <- (map_to_list_delete _ _ _ E). cbn. apply Permutation_cons_append.
  - unfold GetAdmin, get_as, get. destruct (rg_workspaces r !! id) as [w|] eqn:E; [|by exists []]. destruct (negb _); [|by exists []].
    eexists. split; [done|]. cbn. rewrite config_of_view. unfold present. cbn. rewrite app_nil_r.
    rewrite <- (map_to_list_delete _ _ _ E). cbn. apply Permutation_cons_append.
  - unfold Revoke. destruct (rg_workspaces r !! id) as [w|] eqn:E; [|by exists []].
    eexists. split; [done|]. cbn. rewrite config_of_view. unfold present. cbn. rewrite app_nil_r.
    rewrite <- (map_to_list_delete _ _ _ E). cbn. apply Permutation_cons_append.
  - apply snapshot_balance.
  - apply snapshot_balance.
  - exists []. split; [done|]. destruct c; done.
Qed.

(** *** Cleanup happens once *)

Context `{!EqDecision C}.

(** What a callback has been told. *)
Definition told (c : C) (calls : list (C * AdminView)) : list AdminView :=
  omap (fun p => if decide (p.1 = c) then Some p.2 else None) calls.

Lemma told_app c l k : told c (l ++ k) = told c l ++ told c k.
Proof. apply omap_app. Qed.

Lemma told_runCleanup c callbacks gone : filter (fun c' => c' = c) callbacks = [c] -> told c (runCleanup callbacks gone) = gone.
Proof.
  intros Hc. unfold runCleanup. induction gone as [|v gone IH]; [done|]. cbn [mbind list_bind]. rewrite told_app, IH. clear IH.
  assert (told c (callbacks ≫= fun c' => [(c', v)]) = (fun _ => v) <$> filter (fun c' => c' = c) callbacks) as ->; [|by rewrite Hc].
  clear Hc. unfold told. induction callbacks as [|c' callbacks IH]; [done|]. rewrite filter_cons. cbn [mbind list_bind app omap list_omap fst snd] in *.
  case_decide; cbn [fmap list_fmap]; [by f_equal|done].
Qed.

Lemma apply_op_callbacks c o r :
  o <> OOnCleanup (Some c) -> filter (fun c' => c' = c) (rg_callbacks r) = [c] ->
  filter (fun c' => c' = c) (rg_callbacks (apply_op o r).2) = [c].
Proof.
  intros Ho Hc. destruct o as [w now|ws now|id now|id now|id|now|now|c']; cbn [apply_op];
    unfold Register, ReplaceAll, Get, GetAdmin, get_as, get, Revoke, List_, ListAdmin, snapshot, OnCleanup;
    repeat case_match; simplify_eq; try done.
  cbn. rewrite filter_app, Hc, filter_cons, decide_False by (by intros ->). done.
Qed.

(** C19. Each registration that ever was in the registry is still there, or each callback has
    been told of its removal, once; and it is told of nothing else. *)
Theorem cleanup_once c os r calls new r' :
  run os r = (calls, new, r') -> filter (fun c' => c' = c) (rg_callbacks r) = [c] -> Forall (fun o => o <> OOnCleanup (Some c)) os ->
  present r ++ new ≡ₚ present r' ++ (config_of <$> told c calls).
Proof.
  revert r calls new. induction os as [|o os IH]; intros r calls new; cbn [run].
  { intros [= <- <- <-] _ _. done. }
  destruct (apply_op o r) as [calls1 r1] eqn:E. destruct (run os r1) as [[calls2 new2] r2] eqn:E2. intros [= <- <- ->] Hc [Ho Hos]%Forall_cons.
  destruct (op_balance o r) as (gone & Hg & Hb). unfold removes in Hg. rewrite E in Hg, Hb. cbn in Hg, Hb. subst calls1.
  specialize (IH _ _ _ E2). rewrite told_app, told_runCleanup, fmap_app by done. rewrite app_assoc, Hb.
  rewrite <- app_assoc, (Permutation_app_comm (config_of <$> gone)), app_assoc, IH.
  - rewrite <- app_assoc. apply Permutation_app_head, Permutation_app_comm.
  - pose proof (apply_op_callbacks c o r Ho Hc) as Hcb. by rewrite E in Hcb.
  - done.
Qed.

(** *** Well-formedness *)

Lemma next_workspaces_keys ws now next next' :
  map_Forall (fun id w => wc_ID w = id /\ valid_workspace w) next -> next_workspaces ws now next = Ok next' ->
  map_Forall (fun id w => wc_ID w = id /\ valid_workspace w) next'.
Proof.
  revert next. induction ws as [|w ws IH]; intros next Hn; cbn [next_workspaces]; [by intros [= <-]|].
  intros ([] & [_ Hv]%validateWorkspace_Ok & Hr)%bind_Ok. destruct (next !! wc_ID w); [done|]. eapply IH; [|exact Hr].
  by apply map_Forall_insert_2.
Qed.

Lemma registry_op_ok o r : registry_ok r -> registry_ok (apply_op o r).2.
Proof.
  unfold registry_ok. intros Hr. destruct o as [w now|ws now|id now|id now|id|now|now|c]; cbn [apply_op].
  - unfold Register. destruct (validateWorkspace w now) as [[]|] eqn:Ev; [|done]. destruct (rg_workspaces r !! wc_ID w); [done|]. cbn.
    apply map_Forall_insert_2; [|done]. split; [done|]. by apply validateWorkspace_Ok in Ev as [_ ?].
  - unfold ReplaceAll. destruct (next_workspaces ws now ∅) as [next|] eqn:E; [|done]. cbn. eapply next_workspaces_keys; [|exact E].
    apply map_Forall_empty.
  - unfold Get, get_as, get. destruct (rg_workspaces r !! id); [|done]. destruct (negb _); [|done]. cbn. by apply map_Forall_delete.
  - unfold GetAdmin, get_as, get. destruct (rg_workspaces r !! id); [|done]. destruct (negb _); [|done]. cbn. by apply map_Forall_delete.
  - unfold Revoke. destruct (rg_workspaces r !! id); [|done]. cbn. by apply map_Forall_delete.
  - unfold List_, snapshot. cbn. case_decide; cbn; intros id w [Hw _]%map_lookup_filter_Some; by apply Hr.
  - unfold ListAdmin, snapshot. cbn. case_decide; cbn; intros id w [Hw _]%map_lookup_filter_Some; by apply Hr.
  - by destruct c.
Qed.

Lemma run_ok os r : registry_ok r -> registry_ok (run os r).2.
Proof.
  revert r. induction os as [|o os IH]; intros r Hr; [done|]. cbn [run]. pose proof (registry_op_ok o r Hr) as H1.
  destruct (apply_op o r) as [calls r1]. specialize (IH r1 H1). by destruct (run os r1) as [[]].
Qed.

(** *** From the file to the registry *)

Lemma NoDup_fmap_unique {A B} (f : A -> B) (l : list A) a b : NoDup (f <$> l) -> a ∈ l -> b ∈ l -> f a = f b -> a = b.
Proof.
  induction l as [|x l IH]; [by intros _ ?%elem_of_nil|]. cbn. intros [Hx Hn]%NoDup_cons Ha Hb E.
  apply elem_of_cons in Ha as [->|Ha], Hb as [->|Hb]; [done| | |by apply IH]; destruct Hx; apply list_elem_of_fmap; eauto.
Qed.

(** A configuration that parses is installed as it stands, while none of its workspaces has
    expired: afterwards the registry holds exactly its workspaces, and each is served under
    one route. *)
Theorem configuration_installed `{TimeText} `{Tokenizer} `{TypedDecoder configJSON} data now config later r :
  ParseConfig data now = Ok config -> Forall (fun w => later < wc_ExpiresAt w) (cf_Workspaces config) ->
  exists g calls r', ReplaceAll (cf_Workspaces config) later r = (g, Ok tt, calls, r') /\
    cf_Workspaces config <> [] /\
    (forall w, w ∈ cf_Workspaces config <-> rg_workspaces r' !! wc_ID w = Some w) /\
    (forall id w, rg_workspaces r' !! id = Some w -> wc_ID w = id /\
       exists path, WorkspacePath id = Ok path /\ ParsePath path = Ok (WorkspaceRoute id)).
Proof.
  unfold ParseConfig. intros [_ Hp]%guard_Ok Hl. destruct (validateJSONShape data); [|done].
  destruct (typed_decode data) as [[[[version|] [items|]] ?]|]; try done.
  apply guard_Ok in Hp as [_ [Hi (ws & Hws & [= <-])%bind_Ok]%guard_Ok]. cbn [cf_Workspaces] in *. apply bool_decide_eq_false in Hi.
  assert (Hne : ws <> []).
  { destruct items as [|item items]; [done|]. cbn in Hws. intros ->. by apply bind_Ok in Hws as (? & _ & (_ & ([] & _ & (? & _ & ?)%bind_Ok)%bind_Ok)%guard_Ok). }
  apply decode_workspaces_Ok in Hws as (Hv & Hn & _ & _).
  destruct (next_workspaces_Ok ws later ∅) as (next & Hnext & Hlook); [|done|by intros; apply lookup_empty|].
  { apply Forall_and. done. }
  unfold ReplaceAll. rewrite Hnext. do 3 eexists. split; [done|]. split; [done|]. cbn.
  assert (Hin : forall id w, next !! id = Some w <-> wc_ID w = id /\ w ∈ ws).
  { intros id w. rewrite Hlook. split.
    - destruct (list_find _ ws) as [[i w']|] eqn:Ef; [|done]. intros [= ->]. apply list_find_Some in Ef as (Hw & E & _). split; [done|].
      by eapply list_elem_of_lookup_2.
    - intros [<- Hw]. destruct (list_find _ ws) as [[i w']|] eqn:Ef.
      + apply list_find_Some in Ef as (Hw' & E & _). f_equal. apply list_elem_of_lookup_2 in Hw'. by eapply (NoDup_fmap_unique wc_ID).
      + exfalso. eapply (list_find_None _ _) in Ef. rewrite Forall_forall in Ef. by eapply Ef. }
  split; [intros w; rewrite Hin; naive_solver|]. intros id w [<- Hw]%Hin. split; [done|]. rewrite Forall_forall in Hv.
  pose proof (valid_workspace_id w (Hv w Hw)) as Hid. exists (DefaultPath ++ "/" ++ PathEscape (wc_ID w)).
  assert (Hpath : WorkspacePath (wc_ID w) = Ok (DefaultPath ++ "/" ++ PathEscape (wc_ID w))) by (unfold WorkspacePath; by rewrite Hid).
  split; [done|]. by apply WorkspacePath_parses.
Qed.
End lifecycle.

(** ** Examples *)

Definition sample_id : gostring := "workspace-0000001".
Definition sample_workspace : WorkspaceConfig := mkWorkspace sample_id "/srv/one" false (100 * second) [".git" : gostring].

Example sample_route : WorkspacePath "a!b~0123456789abc" = Ok ("/mcp/a%21b~0123456789abc" : gostring).
Proof. reflexivity. Qed.
Example other_spelling_refused : ParsePath "/mcp/%61!b~0123456789abc" = Err NotCanonical.
Proof. reflexivity. Qed.

Lemma cleanup_once_witness :
  present (New (C := nat) [Some 7%nat]) ++ [sample_workspace] ≡ₚ [] ++ [sample_workspace].
Proof.
  refine (@cleanup_once nat _ 7%nat [ORegister sample_workspace second; ORevoke sample_id] (New [Some 7%nat])
    [(7%nat, adminViewOf sample_workspace 2)] [sample_workspace] (mkRegistry ∅ 2 [7%nat]) _ _ _).
  - vm_compute. reflexivity.
  - reflexivity.
  - repeat constructor; discriminate.
Defined.

Definition sample_times : TimeText := {| format_time _ := "t"; parse_time _ := Some (100 * second) |}.
Definition sample_tokens : Tokenizer := {| json_tokens _ := (tokens_of JNull, true) |}.
Definition sample_decoder : TypedDecoder configJSON := {|
  typed_decode _ := Some (mkConfigJSON (Some CurrentVersion) (Some [mkWorkspaceJSON (Some sample_id) (Some ("/srv/one" : gostring)) (Some false)
    (Some ("t" : gostring)) (Some [".git" : gostring])]), true) |}.

Lemma configuration_installed_witness :
  exists g calls r', ReplaceAll [sample_workspace] (2 * second) (New (C := nat) []) = (g, Ok tt, calls, r') /\
    rg_workspaces r' !! sample_id = Some sample_workspace.
Proof.
  destruct (@configuration_installed nat sample_times sample_tokens sample_decoder "{}" second
    (mkConfig CurrentVersion [sample_workspace]) (2 * second) (New [])) as (g & calls & r' & Hr & _ & Hin & _).
  - vm_compute. reflexivity.
  - repeat constructor.
  - exists g, calls, r'. split; [exact Hr|]. apply (Hin sample_workspace). left.
Defined.
