(* ===== verification/WorkspaceRouter.v ===== *)
(** * The router of workspaces ([internal/gateway/workspace_router.go])

    One endpoint per registered workspace. The functions that hold the mutex of the router
    are single steps; a request is looked up in one of them and enters the server it found
    in a later one. A server is named by its address, and [Revoke] of a server by the set of
    those it was called for. *)
From S2P Require Import Prelude GoStrings WorkspaceRegistry.
#[local] Open Scope Z_scope.

(** ** The router *)

Record router := mkRouter {
  rt_registry : Registry Empty_set; rt_handlers : gmap gostring Z; rt_expires : gmap gostring gotime; rt_closed : bool;
  rt_revoked : gset Z; rt_installed : gset Z
}.

(** [rt_installed] is a history: every server that was ever in the table. *)
Definition NewWorkspaceRouter : router := mkRouter (New []) ∅ ∅ false ∅ ∅.

Inductive router_error := NilHandler | DuplicateHandler | RouterClosed | FromRegistry (e : registry_error).

Definition revoke_servers (hs : gset Z) (rt : router) : router :=
  mkRouter (rt_registry rt) (rt_handlers rt) (rt_expires rt) (rt_closed rt) (hs ∪ rt_revoked rt) (rt_installed rt).

(** [delete] of both tables, and the [Revoke] of the server that was there. *)
Definition drop_handler (id : gostring) (rt : router) : router :=
  let rt' := mkRouter (rt_registry rt) (delete id (rt_handlers rt)) (delete id (rt_expires rt)) (rt_closed rt) (rt_revoked rt) (rt_installed rt) in
  match rt_handlers rt !! id with Some h => revoke_servers {[h]} rt' | None => rt' end.

Definition with_registry (r : Registry Empty_set) (rt : router) : router :=
  mkRouter r (rt_handlers rt) (rt_expires rt) (rt_closed rt) (rt_revoked rt) (rt_installed rt).

(** The first part of [ServeHTTP]: the server of a request, or none. *)
Definition lookup_route (query path : gostring) (now : gotime) (rt : router) : option (gostring * Z) * router :=
  if negb (bool_decide (query = [])) then (None, rt)
  else
    match ParsePath path with
    | Ok (WorkspaceRoute id) =>
        if rt_closed rt then (None, rt)
        else
          let '(found, _, r) := Get id now (rt_registry rt) in
          let rt' := with_registry r rt in
          match found, rt_handlers rt !! id with
          | Ok _, Some h => (Some (id, h), rt')
          | Err _, Some _ => (None, drop_handler id rt')
          | _, None => (None, rt')
          end
    | _ => (None, rt)
    end.

(** The loop of [ReplaceAll] over the bindings. *)
Fixpoint bind_handlers (bindings : list (WorkspaceConfig * option Z)) (hs : gmap gostring Z) (es : gmap gostring gotime)
  : result router_error (gmap gostring Z * gmap gostring gotime) :=
  match bindings with
  | [] => Ok (hs, es)
  | (_, None) :: _ => Err NilHandler
  | (w, Some h) :: rest =>
      match hs !! wc_ID w with
      | Some _ => Err DuplicateHandler
      | None => bind_handlers rest (<[wc_ID w := h]> hs) (<[wc_ID w := wc_ExpiresAt w]> es)
      end
  end.

Definition servers_of (m : gmap gostring Z) : gset Z := list_to_set (map_to_list m).*2.

(** The old handlers that are not those of the new table under the same identifier. *)
Definition replaced (next : gmap gostring Z) (p : gostring * Z) : Prop := next !! p.1 <> Some p.2.

Definition RouterReplaceAll (bindings : list (WorkspaceConfig * option Z)) (now : gotime) (rt : router) : result router_error unit * router :=
  match bind_handlers bindings ∅ ∅ with
  | Err e => (Err e, rt)
  | Ok (hs, es) =>
      if rt_closed rt then (Err RouterClosed, rt)
      else
        match ReplaceAll bindings.*1 now (rt_registry rt) with
        | (_, Err e, _, _) => (Err (FromRegistry e), rt)
        | (_, Ok _, _, r) =>
            (Ok tt,
             mkRouter r hs es false (servers_of (filter (replaced hs) (rt_handlers rt)) ∪ rt_revoked rt) (servers_of hs ∪ rt_installed rt))
        end
  end.

Definition RouterRevoke (id : gostring) (rt : router) : result router_error unit * router :=
  if rt_closed rt then (Err (FromRegistry ErrNotFound), rt)
  else
    match Revoke id (rt_registry rt) with
    | (_, Err e, _, _) => (Err (FromRegistry e), rt)
    | (_, Ok _, _, r) => (Ok tt, drop_handler id (with_registry r rt))
    end.

(** The section of [Close] under the mutex; a closed registry is emptied at any time. *)
Definition RouterClose (now : gotime) (rt : router) : router :=
  if rt_closed rt then rt
  else
    let '(_, _, _, r) := ReplaceAll [] now (rt_registry rt) in
    mkRouter r ∅ ∅ true (servers_of (rt_handlers rt) ∪ rt_revoked rt) (rt_installed rt).

(** One round of [expireLoop]: what has expired is dropped, and the earliest of the other
    expiries is found, the zero time if there is none. *)
Definition expire_one (now : gotime) (acc : router * gotime) (p : gostring * gotime) : router * gotime :=
  let '(rt, next) := acc in
  let '(id, expiresAt) := p in
  if negb (after expiresAt now) then
    let '(_, _, _, r) := Revoke id (rt_registry rt) in (drop_handler id (with_registry r rt), next)
  else (rt, if (next =? zero_time) || before expiresAt next then expiresAt else next).

Definition expire_round (now : gotime) (rt : router) : router * gotime :=
  if rt_closed rt then (rt, zero_time) else fold_left (expire_one now) (map_to_list (rt_expires rt)) (rt, zero_time).

(** ** Requests *)

(** A request that was given a server, and one that [Server.admit] let in or not. *)
Inductive phase := Routed (id : gostring) (h : Z) | LetIn (id : gostring) (h : Z) | Refused.

Record system := mkSystem { sy_router : router; sy_requests : gmap Z phase }.

Inductive event :=
  | ELookup (n : Z) (query path : gostring) (now : gotime)
  | EAdmit (n : Z)
  | EReplace (bindings : list (WorkspaceConfig * option Z)) (now : gotime)
  | ERevoke (id : gostring)
  | EExpire (now : gotime)
  | EClose (now : gotime).

Definition step (e : event) (σ : system) : option system :=
  let rt := sy_router σ in
  match e with
  | ELookup n query path now =>
      if decide (sy_requests σ !! n = None) then
        let '(found, rt) := lookup_route query path now rt in
        Some (mkSystem rt (<[n := match found with Some (id, h) => Routed id h | None => Refused end]> (sy_requests σ)))
      else None
  | EAdmit n =>
      match sy_requests σ !! n with
      | Some (Routed id h) =>
          Some (mkSystem rt (<[n := if decide (h ∈ rt_revoked rt) then Refused else LetIn id h]> (sy_requests σ)))
      | _ => None
      end
  | EReplace bindings now => Some (mkSystem (RouterReplaceAll bindings now rt).2 (sy_requests σ))
  | ERevoke id => Some (mkSystem (RouterRevoke id rt).2 (sy_requests σ))
  | EExpire now => Some (mkSystem (expire_round now rt).1 (sy_requests σ))
  | EClose now => Some (mkSystem (RouterClose now rt) (sy_requests σ))
  end.

Fixpoint run (es : list event) (σ : system) : option system :=
  match es with [] => Some σ | e :: es => step e σ ≫= run es end.

Definition start : system := mkSystem NewWorkspaceRouter ∅.

(** ** The invariant *)

(** The registry and the two tables name the same workspaces with the same expiries, and
    every server that was ever in the table is in it or was revoked. *)
Record router_ok (rt : router) : Prop := {
  ro_registry : registry_ok (rt_registry rt);
  ro_handlers : dom (rt_handlers rt) = dom (rg_workspaces (rt_registry rt));
  ro_expires : forall id, rt_expires rt !! id = wc_ExpiresAt <$> rg_workspaces (rt_registry rt) !! id;
  ro_closed : rt_closed rt = true -> rt_handlers rt = ∅;
  ro_installed : forall h, h ∈ rt_installed rt -> (exists id, rt_handlers rt !! id = Some h) \/ h ∈ rt_revoked rt;
  ro_known : forall id h, rt_handlers rt !! id = Some h -> h ∈ rt_installed rt
}.

(** What every operation does: a server leaves the table only to be revoked. *)
Record evolves (rt rt' : router) : Prop := {
  ev_ok : router_ok rt';
  ev_keep : forall id h, rt_handlers rt !! id = Some h -> rt_handlers rt' !! id = Some h \/ h ∈ rt_revoked rt';
  ev_revoked : rt_revoked rt ⊆ rt_revoked rt';
  ev_installed : rt_installed rt ⊆ rt_installed rt'
}.

Lemma evolves_refl rt : router_ok rt -> evolves rt rt.
Proof. intros Hok. split; auto. Qed.

Lemma evolves_trans rt1 rt2 rt3 : evolves rt1 rt2 -> evolves rt2 rt3 -> evolves rt1 rt3.
Proof.
  intros [_ K1 R1 I1] [O2 K2 R2 I2]. split; [done| |set_solver..]. intros id h [Hh|Hh]%K1; [by apply K2|right; set_solver].
Qed.

Lemma with_registry_evolves r rt :
  router_ok rt -> rg_workspaces r = rg_workspaces (rt_registry rt) -> evolves rt (with_registry r rt).
Proof. intros [] Hr. split; cbn; auto. split; cbn; unfold registry_ok; rewrite ?Hr; auto. Qed.

(** Removing a workspace from the registry and its server from the table. *)
Lemma drop_evolves id r rt :
  router_ok rt -> rg_workspaces r = delete id (rg_workspaces (rt_registry rt)) -> evolves rt (drop_handler id (with_registry r rt)).
Proof.
  intros [Hreg Hdom Hexp Hcl Hin Hkn] Hr.
  assert (Hok' : registry_ok r) by (unfold registry_ok; rewrite Hr; by apply map_Forall_delete).
  assert (He : forall id', delete id (rt_expires rt) !! id' = wc_ExpiresAt <$> rg_workspaces r !! id').
  { intros id'. rewrite Hr. destruct (decide (id' = id)) as [->|Hne]; [by rewrite !lookup_delete_eq|]. by rewrite !lookup_delete_ne. }
  assert (Hd : dom (delete id (rt_handlers rt)) = dom (rg_workspaces r)) by (rewrite Hr, !dom_delete_L; congruence).
  unfold drop_handler. cbn. destruct (rt_handlers rt !! id) as [h|] eqn:E.
  - split; cbn; [|intros id' h' Hh'; destruct (decide (id' = id)) as [->|Hne]; [right; rewrite E in Hh'; set_solver|left; by rewrite lookup_delete_ne]
                 |set_solver|done].
    split; cbn; auto.
    + intros Hc. rewrite (Hcl Hc) in E. by rewrite lookup_empty in E.
    + intros h' [[id' Hh']|Hh']%Hin; [|right; set_solver]. destruct (decide (id' = id)) as [->|Hne]; [right; rewrite E in Hh'; set_solver|].
      left. exists id'. by rewrite lookup_delete_ne.
    + intros id' h' [_ Hh']%lookup_delete_Some. by eapply Hkn.
  - rewrite delete_id by done. rewrite delete_id in Hd by done. split; cbn; auto. split; cbn; auto.
Qed.

Lemma Revoke_workspaces {C} id (r : Registry C) : rg_workspaces (Revoke id r).2 = delete id (rg_workspaces r).
Proof. unfold Revoke. destruct (rg_workspaces r !! id) eqn:E; [done|]. cbn. by rewrite delete_id. Qed.

Lemma lookup_route_evolves query path now rt : router_ok rt -> evolves rt (lookup_route query path now rt).2.
Proof.
  intros Hok. unfold lookup_route. destruct (negb _); [by apply evolves_refl|].
  destruct (ParsePath path) as [[|id]|]; [by apply evolves_refl| |by apply evolves_refl].
  destruct (rt_closed rt); [by apply evolves_refl|]. unfold Get, get_as, get.
  pose proof (ro_handlers _ Hok) as Hd.
  destruct (rg_workspaces (rt_registry rt) !! id) as [w|] eqn:E.
  - destruct (negb (after _ _)).
    + destruct (rt_handlers rt !! id) as [h|] eqn:Eh; cbn; [by apply drop_evolves|]. exfalso.
      assert (id ∈ dom (rt_handlers rt)) as [? ?]%elem_of_dom by (rewrite Hd; by apply elem_of_dom). congruence.
    + destruct (rt_handlers rt !! id); cbn; by apply with_registry_evolves.
  - destruct (rt_handlers rt !! id) as [h|] eqn:Eh; cbn; [|by apply with_registry_evolves]. exfalso.
    assert (id ∈ dom (rg_workspaces (rt_registry rt))) as [? ?]%elem_of_dom by (rewrite <- Hd; by apply elem_of_dom). congruence.
Qed.

Lemma RouterRevoke_evolves id rt : router_ok rt -> evolves rt (RouterRevoke id rt).2.
Proof.
  intros Hok. unfold RouterRevoke. destruct (rt_closed rt); [by apply evolves_refl|].
  pose proof (Revoke_workspaces id (rt_registry rt)) as Hw. destruct (Revoke id (rt_registry rt)) as [[[g [[]|e]] calls] r]; cbn in *.
  - by apply drop_evolves.
  - by apply evolves_refl.
Qed.

Lemma elem_of_servers h m : h ∈ servers_of m <-> exists id, m !! id = Some h.
Proof.
  unfold servers_of. rewrite elem_of_list_to_set, list_elem_of_fmap. split.
  - intros ([id h'] & -> & Hh%elem_of_map_to_list). by exists id.
  - intros [id Hh]. exists (id, h). split; [done|]. by apply elem_of_map_to_list.
Qed.

(** What the loop over the bindings builds follows what the registry builds from them. *)
Lemma bind_handlers_Ok bindings now hs es next hs' es' next' :
  bind_handlers bindings hs es = Ok (hs', es') -> next_workspaces bindings.*1 now next = Ok next' ->
  dom hs = dom next -> (forall id, es !! id = wc_ExpiresAt <$> next !! id) ->
  dom hs' = dom next' /\ (forall id, es' !! id = wc_ExpiresAt <$> next' !! id).
Proof.
  revert hs es next. induction bindings as [|[w [h|]] bindings IH]; intros hs es next; cbn [bind_handlers fmap list_fmap next_workspaces fst];
    [by intros [= <- <-] [= <-]| |done].
  destruct (hs !! wc_ID w) eqn:Eh; [done|]. intros Hb ([] & _ & Hn)%bind_Ok Hd He. destruct (next !! wc_ID w) eqn:En; [done|].
  eapply IH; [exact Hb|exact Hn| |].
  - rewrite !dom_insert_L. congruence.
  - intros id. destruct (decide (id = wc_ID w)) as [->|Hne]; [by rewrite !lookup_insert_eq|]. by rewrite !lookup_insert_ne.
Qed.

Lemma RouterReplaceAll_evolves bindings now rt : router_ok rt -> evolves rt (RouterReplaceAll bindings now rt).2.
Proof.
  intros Hok. unfold RouterReplaceAll. destruct (bind_handlers bindings ∅ ∅) as [[hs es]|] eqn:Eb; [|by apply evolves_refl].
  destruct (rt_closed rt) eqn:Ec; [by apply evolves_refl|]. unfold ReplaceAll.
  destruct (next_workspaces bindings.*1 now ∅) as [next|] eqn:En; [|by apply evolves_refl].
  destruct (bind_handlers_Ok _ _ _ _ _ _ _ _ Eb En) as [Hd He]; [by rewrite !dom_empty_L|intros; by rewrite !lookup_empty|].
  assert (Hkeep : forall id h, rt_handlers rt !! id = Some h -> hs !! id = Some h \/ h ∈ servers_of (filter (replaced hs) (rt_handlers rt)) ∪ rt_revoked rt).
  { intros id h Hh. destruct (decide (hs !! id = Some h)) as [|Hne]; [by left|]. right. apply elem_of_union. left. apply elem_of_servers. exists id.
    by apply map_lookup_filter_Some. }
  split; cbn; [|done|set_solver..]. split; cbn; [|done|done|done| |].
  - eapply next_workspaces_keys; [|exact En]. apply map_Forall_empty.
  - intros h [[id Hh]%elem_of_servers|Hh]%elem_of_union; [left; by exists id|].
    apply (ro_installed _ Hok) in Hh as [[id Hh]|Hh]; [|right; set_solver]. apply Hkeep in Hh as [Hh|Hh]; [left; by exists id|by right].
  - intros id h Hh. apply elem_of_union. left. apply elem_of_servers. by exists id.
Qed.

Lemma RouterClose_evolves now rt : router_ok rt -> evolves rt (RouterClose now rt).
Proof.
  intros Hok. unfold RouterClose. destruct (rt_closed rt); [by apply evolves_refl|]. cbn.
  assert (Hs : forall id h, rt_handlers rt !! id = Some h -> h ∈ servers_of (rt_handlers rt) ∪ rt_revoked rt).
  { intros id h Hh. apply elem_of_union. left. apply elem_of_servers. by exists id. }
  split; cbn; [|intros id h Hh; right; by eapply Hs|set_solver..]. split; cbn.
  - apply map_Forall_empty.
  - by rewrite !dom_empty_L.
  - intros id. by rewrite !lookup_empty.
  - done.
  - intros h [[id Hh]|Hh]%(ro_installed _ Hok); right; [by eapply Hs|set_solver].
  - intros id h. by rewrite lookup_empty.
Qed.

Lemma expire_one_evolves now rt next p : router_ok rt -> evolves rt (expire_one now (rt, next) p).1.
Proof.
  intros Hok. destruct p as [id t]. unfold expire_one. destruct (negb _); [|by apply evolves_refl].
  pose proof (Revoke_workspaces id (rt_registry rt)) as Hw. destruct (Revoke id (rt_registry rt)) as [[[g res] calls] r]. cbn in *. by apply drop_evolves.
Qed.

Lemma expire_fold_evolves now l acc : router_ok acc.1 -> evolves acc.1 (fold_left (expire_one now) l acc).1.
Proof.
  revert acc. induction l as [|p l IH]; intros [rt next] Hok; cbn [fold_left]; [by apply evolves_refl|].
  pose proof (expire_one_evolves now rt next p Hok) as H1. eapply evolves_trans; [exact H1|]. apply IH, H1.
Qed.

Lemma expire_round_evolves now rt : router_ok rt -> evolves rt (expire_round now rt).1.
Proof. intros Hok. unfold expire_round. destruct (rt_closed rt); [by apply evolves_refl|]. by apply (expire_fold_evolves now _ (rt, _)). Qed.

(** *** Requests *)

Definition routed_ok (σ : system) : Prop :=
  forall n id h, sy_requests σ !! n = Some (Routed id h) -> rt_handlers (sy_router σ) !! id = Some h \/ h ∈ rt_revoked (sy_router σ).

Lemma routed_evolves rt rt' reqs : routed_ok (mkSystem rt reqs) -> evolves rt rt' -> routed_ok (mkSystem rt' reqs).
Proof. intros Hr [_ K R _] n id h [Hh|Hh]%Hr; cbn in *; [by apply K|right; set_solver]. Qed.

(** The server that a lookup finds is the one of a registration that has not expired. *)
Lemma lookup_route_Some query path now rt id h :
  (lookup_route query path now rt).1 = Some (id, h) ->
  WorkspacePath id = Ok path /\ rt_closed rt = false /\ rt_handlers (lookup_route query path now rt).2 !! id = Some h /\
  exists w, rg_workspaces (rt_registry rt) !! id = Some w /\ now < wc_ExpiresAt w.
Proof.
  unfold lookup_route. destruct (negb _); [done|]. destruct (ParsePath path) as [[|i]|] eqn:Ep; [done| |done].
  destruct (rt_closed rt); [done|]. unfold Get, get_as, get. destruct (rg_workspaces (rt_registry rt) !! i) as [w|] eqn:E.
  - destruct (negb (after _ _)) eqn:Ea; destruct (rt_handlers rt !! i) as [h'|] eqn:Eh; cbn; try done.
    intros [= <- <-]. split; [by apply ParsePath_spec|]. split; [done|]. split; [done|]. exists w. split; [done|].
    unfold after in Ea. by bool_props.
  - by destruct (rt_handlers rt !! i).
Qed.

Lemma step_evolves e σ σ' :
  router_ok (sy_router σ) -> routed_ok σ -> step e σ = Some σ' -> evolves (sy_router σ) (sy_router σ') /\ routed_ok σ'.
Proof.
  intros Hok Hr. destruct σ as [rt reqs]. destruct e as [n query path now|n|bindings now|id|now|now]; cbn [step sy_router sy_requests] in *.
  - case_decide as Hn; [|done]. pose proof (lookup_route_evolves query path now rt Hok) as Hev.
    pose proof (lookup_route_Some query path now rt) as Hs. destruct (lookup_route query path now rt) as [found rt']. intros [= <-]. cbn in *.
    split; [done|]. intros m id h. cbn. rewrite lookup_insert_Some. intros [[-> Hp]|[_ Hm]].
    + destruct found as [[id' h']|]; [|done]. injection Hp as -> ->. left. by apply (Hs id h).
    + by apply (routed_evolves rt rt' reqs Hr Hev m).
  - destruct (reqs !! n) as [[id h| |]|] eqn:E; try done. intros [= <-]. cbn. split; [by apply evolves_refl|].
    intros m id' h'. cbn. rewrite lookup_insert_Some. intros [[-> Hp]|[_ Hm]]; [by case_decide|]. by apply (Hr m).
  - intros [= <-]. cbn. pose proof (RouterReplaceAll_evolves bindings now rt Hok). split; [done|]. by eapply routed_evolves.
  - intros [= <-]. cbn. pose proof (RouterRevoke_evolves id rt Hok). split; [done|]. by eapply routed_evolves.
  - intros [= <-]. cbn. pose proof (expire_round_evolves now rt Hok). split; [done|]. by eapply routed_evolves.
  - intros [= <-]. cbn. pose proof (RouterClose_evolves now rt Hok). split; [done|]. by eapply routed_evolves.
Qed.

Lemma start_ok : router_ok (sy_router start) /\ routed_ok start.
Proof.
  split; [|intros n id h; cbn; by rewrite lookup_empty]. split; cbn; try done.
Qed.

Lemma run_evolves es σ σ' :
  router_ok (sy_router σ) -> routed_ok σ -> run es σ = Some σ' -> evolves (sy_router σ) (sy_router σ') /\ routed_ok σ'.
Proof.
  revert σ. induction es as [|e es IH]; intros σ Hok Hr; cbn [run]; [intros [= <-]; split; [by apply evolves_refl|done]|].
  intros (σ1 & H1 & H2)%bind_Some. destruct (step_evolves _ _ _ Hok Hr H1) as [E1 R1].
  destruct (IH σ1 (ev_ok _ _ E1) R1 H2) as [E2 R2]. split; [by eapply evolves_trans|done].
Qed.

(** ** What the router guarantees *)


(** *** Expiry *)

Lemma drop_handler_expires id rt : rt_expires (drop_handler id rt) = delete id (rt_expires rt).
Proof. unfold drop_handler. by case_match. Qed.

(** The fold of a round over some of the entries: the expired ones are dropped, and [next]
    becomes the least of the others. *)
Lemma expire_fold_spec now l rt next :
  NoDup l.*1 -> (forall id t, (id, t) ∈ l -> t <> zero_time) ->
  let '(rt', next') := fold_left (expire_one now) l (rt, next) in
  (forall id t, (id, t) ∈ l -> t <= now -> rt_expires rt' !! id = None) /\
  (forall id, (forall t, (id, t) ∈ l -> now < t) -> rt_expires rt' !! id = rt_expires rt !! id) /\
  (forall id, rt_expires rt !! id = None -> rt_expires rt' !! id = None) /\
  (next' = next \/ exists id, (id, next') ∈ l /\ now < next') /\
  (forall id t, (id, t) ∈ l -> now < t -> next' <= t /\ next' <> zero_time) /\ (next <> zero_time -> next' <= next /\ next' <> zero_time).
Proof.
  revert rt next. induction l as [|[id t] l IH]; intros rt next Hnd Hz; cbn [fold_left].
  { split_and!; try done; [by intros ? ? ?%elem_of_nil|by left|by intros ? ? ?%elem_of_nil]. }
  apply NoDup_cons in Hnd as [Hni Hnd]. assert (Hz' : forall id t, (id, t) ∈ l -> t <> zero_time) by (intros i u Hi; apply (Hz i u); by right).
  assert (Hno : forall u, (id, u) ∉ l) by (intros u Hu; apply Hni; apply list_elem_of_fmap; by exists (id, u)).
  pose proof (Hz id t ltac:(left)) as Htz.
  unfold expire_one at 2. destruct (negb (after t now)) eqn:Ea.
  - apply negb_true_iff in Ea. unfold after in Ea. apply Z.ltb_ge in Ea. destruct (Revoke id (rt_registry rt)) as [[[g res] calls] r].
    specialize (IH (drop_handler id (with_registry r rt)) next Hnd Hz'). destruct (fold_left _ l _) as [rt' next'].
    destruct IH as (He & Hk & Hnn & Hn & Hm & Hl). rewrite drop_handler_expires in *. cbn in Hk, Hnn.
    split_and!; [| | |destruct Hn as [|(i & ? & ?)]; [by left|right; exists i; split; [by right|done]]| |done].
    + intros i u [[= -> ->]|Hu]%elem_of_cons Hle; [apply Hnn, lookup_delete_eq|by eapply He].
    + intros i Hi. assert (i <> id) by (intros ->; specialize (Hi t ltac:(left)); lia).
      rewrite Hk by (intros u Hu; apply Hi; by right). by rewrite lookup_delete_ne.
    + intros i Hi. apply Hnn. destruct (decide (i = id)) as [->|Hne]; [apply lookup_delete_eq|by rewrite lookup_delete_ne].
    + intros i u [[= -> ->]|Hu]%elem_of_cons Hlt; [lia|]. by eapply Hm.
  - apply negb_false_iff in Ea. unfold after in Ea. apply Z.ltb_lt in Ea.
    set (m := if (next =? zero_time) || before t next then t else next).
    assert (Hm0 : m <> zero_time /\ m <= t /\ (next <> zero_time -> m <= next) /\ (m = t \/ m = next)).
    { unfold m, before. destruct (Z.eqb_spec next zero_time); cbn [orb]; [split_and!; (done || lia || by left)|].
      destruct (Z.ltb_spec t next); split_and!; (done || lia || by left || by right). }
    specialize (IH rt m Hnd Hz'). destruct (fold_left _ l _) as [rt' next']. destruct IH as (He & Hk & Hnn & Hn & Hm & Hl).
    destruct Hm0 as (Hmz & Hmt & Hmn & Hme). destruct (Hl Hmz) as [Hl1 Hl2]. split_and!.
    + intros i u [[= -> ->]|Hu]%elem_of_cons Hle; [lia|by eapply He].
    + intros i Hi. apply Hk. intros u Hu. apply Hi. by right.
    + done.
    + destruct Hn as [->|(i & ? & ?)]; [|right; exists i; split; [by right|done]].
      destruct Hme as [->| ->]; [right; exists id; split; [by left|done]|by left].
    + intros i u [[= -> ->]|Hu]%elem_of_cons Hlt; [split; [lia|done]|]. by eapply Hm.
    + intros Hnz. split; [specialize (Hmn Hnz); lia|done].
Qed.

Lemma expire_fold_sub now l acc :
  rg_workspaces (rt_registry (fold_left (expire_one now) l acc).1) ⊆ rg_workspaces (rt_registry acc.1).
Proof.
  revert acc. induction l as [|[id t] l IH]; intros [rt next]; cbn [fold_left]; [done|]. etrans; [apply IH|]. unfold expire_one.
  destruct (negb _); [|done]. pose proof (Revoke_workspaces id (rt_registry rt)) as Hw.
  destruct (Revoke id (rt_registry rt)) as [[[g res] calls] r]. cbn in *. unfold drop_handler. cbn.
  destruct (rt_handlers rt !! id); cbn; rewrite Hw; apply delete_subseteq.
Qed.

Lemma valid_workspace_expiry w : valid_workspace w -> wc_ExpiresAt w <> zero_time.
Proof.
  intros Hv E. specialize (Hv (wc_ExpiresAt w - 1) ltac:(lia)). unfold validateWorkspace in Hv. rewrite E in Hv.
  destruct (ValidateID _) as [[]|]; [|done]. cbn [mbind result_bind] in Hv. do 3 apply guard_Ok in Hv as [_ Hv]. by apply guard_Ok in Hv as [? _].
Qed.

(** A round of the expiry loop drops exactly the workspaces that have expired, from the
    registry and from the table, revokes their servers, and finds the time of the next
    expiry: none is missed while the loop sleeps until then. *)
Theorem expire_round_exact now es σ rt next :
  run es start = Some σ -> rt_closed (sy_router σ) = false -> expire_round now (sy_router σ) = (rt, next) ->
  (forall id w, rg_workspaces (rt_registry rt) !! id = Some w <-> rg_workspaces (rt_registry (sy_router σ)) !! id = Some w /\ now < wc_ExpiresAt w) /\
  dom (rt_handlers rt) = dom (rg_workspaces (rt_registry rt)) /\
  (forall id h, rt_handlers (sy_router σ) !! id = Some h -> rt_handlers rt !! id = Some h \/ h ∈ rt_revoked rt) /\
  (rt_handlers rt = ∅ -> next = zero_time) /\
  (forall id w, rg_workspaces (rt_registry rt) !! id = Some w -> now < next <= wc_ExpiresAt w).
Proof.
  intros Hrun Hc Hx. destruct start_ok as [Ho Hr]. destruct (run_evolves es start σ Ho Hr Hrun) as [[Hok _ _ _] _]. clear Ho Hr Hrun.
  destruct (expire_round_evolves now _ Hok) as [Hok' Hkeep _ _]. rewrite Hx in Hok', Hkeep. cbn in Hok', Hkeep.
  unfold expire_round in Hx. rewrite Hc in Hx. pose proof (expire_fold_sub now (map_to_list (rt_expires (sy_router σ))) (sy_router σ, zero_time)) as Hsub.
  assert (Hval : forall id t, (id, t) ∈ map_to_list (rt_expires (sy_router σ)) <-> exists w, rg_workspaces (rt_registry (sy_router σ)) !! id = Some w /\ wc_ExpiresAt w = t).
  { intros id t. rewrite elem_of_map_to_list, (ro_expires _ Hok), fmap_Some. naive_solver. }
  pose proof (expire_fold_spec now (map_to_list (rt_expires (sy_router σ))) (sy_router σ) zero_time (NoDup_fst_map_to_list _)) as Hs.
  rewrite Hx in Hs, Hsub. cbn in Hsub. destruct Hs as (He & Hk & _ & Hn & Hm & _).
  { intros id t (w & Hw & <-)%Hval. apply valid_workspace_expiry. by apply (ro_registry _ Hok _ _ Hw). }
  assert (Hiff : forall id w, rg_workspaces (rt_registry rt) !! id = Some w <-> rg_workspaces (rt_registry (sy_router σ)) !! id = Some w /\ now < wc_ExpiresAt w).
  { intros id w. split.
    - intros Hw. pose proof (lookup_weaken _ _ _ _ Hw Hsub) as Hw'. split; [done|]. apply Z.nle_gt. intros Hle.
      assert (rt_expires rt !! id = None) as Hnone by (eapply He; [apply Hval; by exists w|done]). by rewrite (ro_expires _ Hok'), Hw in Hnone.
    - intros [Hw Hlt]. assert (Hl : rt_expires rt !! id = rt_expires (sy_router σ) !! id).
      { apply Hk. intros t (w' & Hw' & <-)%Hval. rewrite Hw in Hw'. by injection Hw' as <-. }
      rewrite (ro_expires _ Hok), (ro_expires _ Hok'), Hw in Hl. destruct (rg_workspaces (rt_registry rt) !! id) as [w'|] eqn:E; [|done].
      pose proof (lookup_weaken _ _ _ _ E Hsub). congruence. }
  assert (Hnext : forall id w, rg_workspaces (rt_registry rt) !! id = Some w -> next <= wc_ExpiresAt w /\ next <> zero_time).
  { intros id w [Hw Hlt]%Hiff. apply (Hm id); [apply Hval; by exists w|done]. }
  split; [done|]. split; [apply (ro_handlers _ Hok')|]. split; [done|]. split.
  - intros Hempty. destruct Hn as [->|(id & (w & Hw & Ht)%Hval & Hlt)]; [done|].
    assert (rg_workspaces (rt_registry rt) !! id = Some w) as Hw' by (apply Hiff; split; [done|lia]).
    assert (id ∈ dom (rg_workspaces (rt_registry rt))) as Hin by (by apply elem_of_dom).
    by rewrite <- (ro_handlers _ Hok'), Hempty, dom_empty_L in Hin.
  - intros id w Hw. destruct (Hnext id w Hw) as [Hle Hnz]. split; [|done]. destruct Hn as [->|(i & _ & ?)]; [done|lia].
Qed.

(** ** Examples *)

Definition sample_bindings : list (WorkspaceConfig * option Z) := [(sample_workspace, Some 1)].
Definition sample_path : gostring := "/mcp/workspace-0000001".

(** A request is looked up, its workspace is revoked, and the server refuses it. *)
Example revoked_in_between :
  sy_requests <$> run [EReplace sample_bindings second; ELookup 1 [] sample_path second; ERevoke sample_id; EAdmit 1] start =
  Some {[1 := Refused]}.
Proof. vm_compute. reflexivity. Qed.

Definition sample_state : system := default start (run [EReplace sample_bindings second; ELookup 1 [] sample_path second] start).


Lemma expire_round_exact_witness : (expire_round (200 * second) (sy_router sample_state)).2 = zero_time.
Proof.
  refine (proj1 (proj2 (proj2 (proj2 (expire_round_exact (200 * second) [EReplace sample_bindings second; ELookup 1 [] sample_path second] sample_state
    (expire_round (200 * second) (sy_router sample_state)).1 _ _ _ _)))) _); vm_compute; reflexivity.
Defined.
