(* ===== verification/Image.v ===== *)
(** * Images ([internal/fileworker/image.go])

    The type of an image is told from its first bytes; its dimensions come from the
    decoders of the standard library, and for WebP from a scan of the RIFF chunks. *)
From S2P Require Import Prelude GoStrings Base64 Token FileEdit.
#[local] Open Scope Z_scope.

Definition MaxImageBytes : Z := Z.shiftl 10 20.
Definition MaxImagePixels : Z := 40000000.

Record ImageResult := mkImage {
  im_Base64 : gostring; im_MIMEType : gostring; im_Bytes : Z; im_SHA256 : gostring; im_Width : Z; im_Height : Z
}.

(** [Panics] is an index or a slice out of range. *)
Inductive image_error :=
  | ByteLimit | Unsupported | DataInvalid | PixelLimit | Panics | NoFuel.

(** [image.DecodeConfig] with the GIF, JPEG and PNG decoders of the standard library. *)
Class StdImages := { std_decode_config : gostring -> option (Z * Z * gostring) }.

(** ** Reading bytes *)

Definition byte_at (s : gostring) (i : Z) : result image_error Z :=
  match s !! Z.to_nat i with
  | Some c => if i <? 0 then Err Panics else Ok (code c)
  | None => Err Panics
  end.

(** [s[i:j]]. *)
Definition cut (s : gostring) (i j : Z) : result image_error gostring :=
  reject (i <? 0) || (j <? i) || (len s <? j) with Panics; Ok (slice (Z.to_nat i) (Z.to_nat j) s).

(** [binary.LittleEndian.Uint16] and [Uint32]. *)
Definition le16 (s : gostring) : result image_error Z :=
  b1 ← byte_at s 1; b0 ← byte_at s 0; Ok (Z.lor b0 (Z.shiftl b1 8)).
Definition le32 (s : gostring) : result image_error Z :=
  b3 ← byte_at s 3; b0 ← byte_at s 0; b1 ← byte_at s 1; b2 ← byte_at s 2;
  Ok (Z.lor (Z.lor (Z.lor b0 (Z.shiftl b1 8)) (Z.shiftl b2 16)) (Z.shiftl b3 24)).

(** ** WebP *)

Definition validWebPMagic (raw : gostring) : result image_error bool :=
  if len raw <? 12 then Ok false
  else
    head ← cut raw 0 4;
    if negb (bool_decide (head = "RIFF")) then Ok false
    else
      form ← cut raw 8 12;
      if negb (bool_decide (form = "WEBP")) then Ok false
      else sizes ← cut raw 4 8; size ← le32 sizes; Ok (size + 8 =? len raw).

Definition VP8_start : gostring := [byte_of 0x9d; byte_of 0x01; byte_of 0x2a].

Definition webPDimensions (kind payload : gostring) : result image_error (option (Z * Z)) :=
  if decide (kind = "VP8X") then
    if len payload <? 10 then Ok None
    else
      b4 ← byte_at payload 4; b5 ← byte_at payload 5; b6 ← byte_at payload 6;
      b7 ← byte_at payload 7; b8 ← byte_at payload 8; b9 ← byte_at payload 9;
      Ok (Some (1 + b4 + Z.shiftl b5 8 + Z.shiftl b6 16, 1 + b7 + Z.shiftl b8 8 + Z.shiftl b9 16))
  else if decide (kind = "VP8L") then
    if len payload <? 5 then Ok None
    else
      b0 ← byte_at payload 0;
      if negb (b0 =? 0x2f) then Ok None
      else
        b1 ← byte_at payload 1; b2 ← byte_at payload 2; b3 ← byte_at payload 3; b4 ← byte_at payload 4;
        Ok (Some (1 + b1 + Z.shiftl (Z.land b2 0x3f) 8,
                  1 + Z.shiftr b2 6 + Z.shiftl b3 2 + Z.shiftl (Z.land b4 0x0f) 10))
  else if decide (kind = "VP8 ") then
    if len payload <? 10 then Ok None
    else
      start ← cut payload 3 6;
      if negb (bool_decide (start = VP8_start)) then Ok None
      else
        ws ← cut payload 6 8; w ← le16 ws; hs ← cut payload 8 10; h ← le16 hs;
        Ok (Some (Z.land w 0x3fff, Z.land h 0x3fff))
  else Ok None.

(** The chunks from [offset] on. *)
Fixpoint webp_chunks (fuel : nat) (raw : gostring) (offset : Z) : result image_error (Z * Z) :=
  if negb (offset + 8 <=? len raw) then Err DataInvalid
  else
    match fuel with
    | O => Err NoFuel
    | S fuel =>
        kind ← cut raw offset (offset + 4);
        sizes ← cut raw (offset + 4) (offset + 8); size ← le32 sizes;
        let payloadStart := offset + 8 in
        let payloadEnd := payloadStart + size in
        reject (size <? 0) || (len raw <? payloadEnd) with DataInvalid;
        payload ← cut raw payloadStart payloadEnd;
        dimensions ← webPDimensions kind payload;
        match dimensions with
        | Some d => Ok d
        | None =>
            let next := payloadEnd + Z.rem size 2 in
            reject (next <=? offset) || (len raw <? next) with DataInvalid;
            webp_chunks fuel raw next
        end
    end.

(** The reader holds the whole file. *)
Definition decodeWebPConfig (data : gostring) : result image_error (Z * Z) :=
  let raw := take (Z.to_nat (MaxImageBytes + 1)) data in
  reject MaxImageBytes <? len raw with DataInvalid;
  magic ← validWebPMagic raw;
  reject negb magic with DataInvalid;
  webp_chunks (length raw) raw 12.

(** ** Any image *)

Definition PNG_magic : gostring := byte_of 0x89 :: "PNG" ++ [CR; LF; byte_of 0x1a; LF].
Definition JPEG_magic : gostring := [byte_of 0xff; byte_of 0xd8; byte_of 0xff].

(** The MIME type and the name of the format. *)
Definition imageFormat (raw : gostring) : result image_error (option (gostring * gostring)) :=
  if has_prefix raw PNG_magic then Ok (Some ("image/png", "png"))
  else if has_prefix raw JPEG_magic then Ok (Some ("image/jpeg", "jpeg"))
  else if has_prefix raw "GIF87a" || has_prefix raw "GIF89a" then Ok (Some ("image/gif", "gif"))
  else webp ← validWebPMagic raw; Ok (if webp : bool then Some ("image/webp" : gostring, "webp" : gostring) else None).

(** ** No index is out of range, and the scan ends *)

Definition safe {A} (r : result image_error A) : Prop := r <> Err Panics /\ r <> Err NoFuel.

Lemma safe_Ok {A} (a : A) : safe (Ok a).
Proof. done. Qed.

Lemma safe_bind {A B} (r : result image_error A) (k : A -> result image_error B) :
  safe r -> (forall a, r = Ok a -> safe (k a)) -> safe (r ≫= k).
Proof. intros [] Hk. destruct r as [a|e]; [by apply Hk|]. split; intros [=]; by subst. Qed.

Lemma safe_reject {A} b e (k : result image_error A) :
  e <> Panics -> e <> NoFuel -> (b = false -> safe k) -> safe (guard_err b e k).
Proof. intros ? ? Hk. destruct b; [split; by intros [=]|by apply Hk]. Qed.

Lemma byte_at_ok s i : 0 <= i < len s -> exists b, byte_at s i = Ok b /\ 0 <= b.
Proof.
  intros Hi. unfold byte_at, len in *. destruct (lookup_lt_is_Some_2 s (Z.to_nat i)) as [c ->]; [lia|].
  rewrite (proj2 (Z.ltb_ge _ _)) by lia. exists (code c). pose proof (code_range c). split; [done|lia].
Qed.

Lemma cut_ok s i j : 0 <= i <= j -> j <= len s -> exists t, cut s i j = Ok t /\ len t = j - i.
Proof.
  intros Hi Hj. unfold cut. rewrite !(proj2 (Z.ltb_ge _ _)) by lia. cbn [orb guard_err]. eexists. split; [done|].
  unfold len in *. rewrite slice_length; lia.
Qed.

(** Evaluates the accesses of a bound piece of bytes. *)
Ltac access :=
  repeat match goal with
  | |- context [byte_at ?s ?i] =>
      let b := fresh "b" in let Hb := fresh "Hb" in let Hn := fresh "Hn" in
      destruct (byte_at_ok s i) as (b & Hb & Hn); [lia|rewrite Hb; cbn [mbind result_bind]]
  | |- context [cut ?s ?i ?j] =>
      let t := fresh "t" in let Ht := fresh "Ht" in let Hl := fresh "Hl" in
      destruct (cut_ok s i j) as (t & Ht & Hl); [lia..|rewrite Ht; cbn [mbind result_bind]]
  end.

Lemma le32_ok s : len s = 4 -> exists n, le32 s = Ok n /\ 0 <= n.
Proof.
  intros Hl. unfold le32. access. eexists. split; [done|].
  rewrite !Z.lor_nonneg, !Z.shiftl_nonneg. auto.
Qed.

Lemma le16_ok s : len s = 2 -> exists n, le16 s = Ok n.
Proof. intros Hl. unfold le16. access. by eexists. Qed.

Ltac reads :=
  repeat match goal with
  | |- context [le32 ?s] =>
      let n := fresh "n" in let Hn := fresh "Hn" in let Hp := fresh "Hp" in
      destruct (le32_ok s) as (n & Hn & Hp); [lia|rewrite Hn; cbn [mbind result_bind]]
  | |- context [le16 ?s] =>
      let n := fresh "n" in let Hn := fresh "Hn" in
      destruct (le16_ok s) as (n & Hn); [lia|rewrite Hn; cbn [mbind result_bind]]
  | _ => progress access
  end.

Lemma validWebPMagic_safe raw : safe (validWebPMagic raw).
Proof.
  unfold validWebPMagic. destruct (Z.ltb_spec (len raw) 12); [done|]. reads. case_match; [done|]. reads.
  case_match; [done|]. by reads.
Qed.

Lemma webPDimensions_safe kind payload : safe (webPDimensions kind payload).
Proof.
  unfold webPDimensions. repeat case_decide; try done.
  - destruct (Z.ltb_spec (len payload) 10); [done|]. by reads.
  - destruct (Z.ltb_spec (len payload) 5); [done|]. reads. case_match; [done|]. by reads.
  - destruct (Z.ltb_spec (len payload) 10); [done|]. reads. case_match; [done|]. by reads.
Qed.

Lemma webp_chunks_safe fuel raw offset :
  0 <= offset -> len raw - offset <= Z.of_nat fuel -> safe (webp_chunks fuel raw offset).
Proof.
  revert offset. induction fuel as [|fuel IH]; intros offset Ho Hf; cbn [webp_chunks];
    destruct (Z.leb_spec (offset + 8) (len raw)); cbn [negb]; try done; [lia|].
  reads.
  apply safe_reject; [done..|]. intros [_ Hend%Z.ltb_ge]%orb_false_iff. reads.
  apply safe_bind; [apply webPDimensions_safe|]. intros [d|] _; [done|].
  apply safe_reject; [done..|]. intros [Hnext%Z.leb_gt _]%orb_false_iff.
  apply IH; lia.
Qed.

Lemma decodeWebPConfig_safe data : safe (decodeWebPConfig data).
Proof.
  unfold decodeWebPConfig. apply safe_reject; [done..|]. intros _. apply safe_bind; [apply validWebPMagic_safe|].
  intros magic _. apply safe_reject; [done..|]. intros _. apply webp_chunks_safe; [done|]. unfold len. lia.
Qed.

Section image.
Context `{StdImages} `{Crypto}.

(** [image.DecodeConfig]: the registered decoder whose magic the data has. *)
Definition DecodeConfig (raw : gostring) : result image_error (Z * Z * gostring) :=
  if has_prefix raw "RIFF" && bool_decide (slice 8 12 raw = "WEBP") then
    '(w, h) ← decodeWebPConfig raw; Ok (w, h, "webp")
  else match std_decode_config raw with Some config => Ok config | None => Err DataInvalid end.

Definition DecodeImage (raw : gostring) : result image_error ImageResult :=
  reject (len raw =? 0) || (MaxImageBytes <? len raw) with ByteLimit;
  format ← imageFormat raw;
  match format with
  | None => Err Unsupported
  | Some (mimeType, expectedFormat) =>
      '(width, height, format) ← DecodeConfig raw;
      reject negb (bool_decide (format = expectedFormat)) || (width <=? 0) || (height <=? 0) with DataInvalid;
      reject Z.quot MaxImagePixels height <? width with PixelLimit;
      Ok (mkImage (std_encode raw) mimeType (len raw) (digestBytes raw) width height)
  end.

Lemma imageFormat_safe raw : safe (imageFormat raw).
Proof. unfold imageFormat. repeat case_match; try done. apply safe_bind; [apply validWebPMagic_safe|done]. Qed.

Lemma DecodeConfig_safe raw : safe (DecodeConfig raw).
Proof.
  unfold DecodeConfig. case_match; [|by case_match]. apply safe_bind; [apply decodeWebPConfig_safe|]. by intros [w h] _.
Qed.

(** C40. No input makes the decoder index or slice out of range, and the scan of the chunks
    of a WebP file ends within one step per byte. *)
Theorem DecodeImage_safe raw : DecodeImage raw <> Err Panics /\ DecodeImage raw <> Err NoFuel.
Proof.
  change (safe (DecodeImage raw)). unfold DecodeImage. apply safe_reject; [done..|]. intros _.
  apply safe_bind; [apply imageFormat_safe|]. intros [[m e]|] _; [|done].
  apply safe_bind; [apply DecodeConfig_safe|]. intros [[w h] f] _. apply safe_reject; [done..|]. intros _.
  by apply safe_reject.
Qed.

(** An accepted image is the file itself, canonically encoded, with its size and digest;
    it has at most 10 MiB and 40 million pixels, and its type is that of its first
    bytes and of the decoder that gave its dimensions. *)
Theorem DecodeImage_bounds raw im :
  DecodeImage raw = Ok im ->
  std_decode (im_Base64 im) = Some raw /\ im_Bytes im = len raw /\ 0 < len raw <= MaxImageBytes /\
  im_SHA256 im = digestBytes raw /\ 0 < im_Width im /\ 0 < im_Height im /\ im_Width im * im_Height im <= MaxImagePixels /\
  exists format, imageFormat raw = Ok (Some (im_MIMEType im, format)) /\
    DecodeConfig raw = Ok (im_Width im, im_Height im, format).
Proof.
  unfold DecodeImage. intros [[Hx1 Hx2]%orb_false_iff Hd]%guard_Ok. apply bind_Ok in Hd as ([[mime expected]|] & Hf & Hd); [|done].
  apply bind_Ok in Hd as ([[w h] format] & Hc & Hd). apply guard_Ok in Hd as [[[Hx3 Hx4]%orb_false_iff Hx5]%orb_false_iff Hd].
  apply guard_Ok in Hd as [Hx6 [= <-]]. bool_props. pose proof (len_nonneg raw). cbn.
  split; [apply std_decode_encode|]. split; [done|]. split; [lia|]. split; [done|]. split; [done|]. split; [done|].
  split; [|exists format; by subst].
  pose proof (Z.mul_quot_le MaxImagePixels h). unfold MaxImagePixels in *. nia.
Qed.
End image.

(** ** Witness *)

(** A WebP file of 3 x 2 pixels: one chunk to skip and a VP8X chunk. *)
Definition le4 (n : Z) : gostring := [byte_of n; NUL; NUL; NUL].
Definition sample_webp : gostring :=
  "RIFF" ++ le4 32 ++ "WEBP" ++ "ICCP" ++ le4 1 ++ "xx" ++ "VP8X" ++ le4 10 ++
  [NUL; NUL; NUL; NUL; byte_of 2; NUL; NUL; byte_of 1; NUL; NUL].
Definition no_images : StdImages := {| std_decode_config _ := None |}.

Lemma DecodeImage_bounds_witness :
  exists im, @DecodeImage no_images toy_crypto sample_webp = Ok im /\ im_Width im = 3 /\ im_Height im = 2 /\
    im_Width im * im_Height im <= MaxImagePixels.
Proof.
  destruct (@DecodeImage no_images toy_crypto sample_webp) as [im|] eqn:E; [|vm_compute in E; discriminate E].
  exists im. pose proof (@DecodeImage_bounds no_images toy_crypto sample_webp im E) as (_ & _ & _ & _ & _ & _ & Hp & _).
  split; [reflexivity|]. vm_compute in E. injection E as E. rewrite <- E in *. split; [reflexivity|]. split; [reflexivity|exact Hp].
Defined.
