(* ===== verification/FileRead.v ===== *)
(** * Reading text in the file worker ([internal/fileworker/worker.go])

    Decoding a file, cutting a range of lines out of the decoded text, and reading
    several files within one byte limit. *)
From S2P Require Import Prelude GoStrings Utf8 TextTypes Codec Token Workspace FileEdit FileJob.
#[local] Open Scope Z_scope.

Definition NEL : Z := 0x85.
Definition LS : Z := 0x2028.
Definition PS : Z := 0x2029.

(** The fields of [FileResult] that a read fills in. *)
Record TextResult := mkText {
  tr_Path : gostring; tr_Content : gostring; tr_Bytes : Z; tr_StartLine : Z; tr_EndLine : Z; tr_TotalLines : Z;
  tr_Truncated : bool; tr_BeforeSHA256 : gostring; tr_Metadata : Metadata
}.

Inductive read_error :=
  | ReadFailed (e : ws_error) | DecodeFailed (e : text_error) | BadRange | RangePastEnd | FileCount | TotalLimit.

(** ** Lines *)

(** Where the line ends that the rune [r] at [index] ends; a line feed after a carriage
    return has been counted with it. *)
Definition separator_end (text : gostring) (index : nat) (r : Z) : option nat :=
  if r =? code CR then Some (if decide (text !! (index + 1)%nat = Some LF) then index + 2 else index + 1)%nat
  else if r =? code LF then
    if (0 <? index)%nat && bool_decide (text !! (index - 1)%nat = Some CR) then None else Some (index + 1)%nat
  else if r =? NEL then Some (index + 2)%nat
  else if (r =? LS) || (r =? PS) then Some (index + 3)%nat
  else None.

(** The spans of the lines from [lineStart] on. *)
Fixpoint line_spans (text : gostring) (rs : list (nat * Z)) (lineStart : nat) : list (nat * nat) :=
  match rs with
  | [] => if (lineStart <? length text)%nat then [(lineStart, length text)] else []
  | (index, r) :: rs =>
      match separator_end text index r with
      | Some e => (lineStart, e) :: line_spans text rs e
      | None => line_spans text rs lineStart
      end
  end.

Definition spans (text : gostring) : list (nat * nat) := line_spans text (range_string text) 0.

(** The content, the first and last line it has, the number of lines, and whether it is
    less than the whole. *)
Definition sliceTextLines (text : gostring) (startLine endLine : Z)
  : result read_error (gostring * Z * Z * Z * bool) :=
  reject negb (validateLineRange startLine endLine) with BadRange;
  let lines := spans text in
  let total := len lines in
  if startLine =? 0 then
    if total =? 0 then Ok (text, 0, 0, 0, false) else Ok (text, 1, total, total, false)
  else if total <? startLine then Err RangePastEnd
  else
    let actualEnd := if total <? endLine then total else endLine in
    match lines !! Z.to_nat (startLine - 1), lines !! Z.to_nat (actualEnd - 1) with
    | Some first, Some last =>
        Ok (slice first.1 last.2 text, startLine, actualEnd, total, (1 <? startLine) || (actualEnd <? total))
    | _, _ => Err BadRange
    end.

Section read.
Context `{XText, ScriptTables, Crypto}.

Definition DecodeText (raw : gostring) (max startLine endLine : Z) : result read_error TextResult :=
  match Decode raw (textLimits max) with
  | Err e => Err (DecodeFailed e)
  | Ok decoded =>
      '(content, actualStart, actualEnd, total, truncated) ← sliceTextLines (file_text decoded) startLine endLine;
      Ok (mkText [] content (len raw) actualStart actualEnd total truncated (digestBytes raw) (file_meta decoded))
  end.

Context {F : Type} `{FileSystem F}.

Definition with_path (path : gostring) (t : TextResult) : TextResult :=
  mkText path (tr_Content t) (tr_Bytes t) (tr_StartLine t) (tr_EndLine t) (tr_TotalLines t) (tr_Truncated t)
    (tr_BeforeSHA256 t) (tr_Metadata t).

Definition readText (path : gostring) (max startLine endLine : Z) (f : F) : result read_error TextResult * F :=
  match fs_read path max f with
  | (Err e, f) => (Err (ReadFailed e), f)
  | (Ok raw, f) => (with_path path <$> DecodeText raw max startLine endLine, f)
  end.

Fixpoint multi_loop (paths : list gostring) (remaining : Z) (f : F) : result read_error (list TextResult) * F :=
  match paths with
  | [] => (Ok [], f)
  | path :: paths =>
      if remaining <=? 0 then (Err TotalLimit, f)
      else
        match readText path remaining 0 0 f with
        | (Err e, f) => (Err e, f)
        | (Ok r, f) =>
            let '(rs, f) := multi_loop paths (remaining - tr_Bytes r) f in (cons r <$> rs, f)
        end
  end.

Definition multiRead (paths : list gostring) (max : Z) (f : F) : result read_error (list TextResult) * F :=
  if (len paths =? 0) || (maxBatchFiles <? len paths) then (Err FileCount, f) else multi_loop paths max f.
End read.

(** ** The spans cut the text into its lines *)

Definition pieces (text : gostring) (ss : list (nat * nat)) : list gostring := (fun s => slice s.1 s.2 text) <$> ss.
Definition text_lines (text : gostring) : list gostring := pieces text (spans text).

(** Consecutive spans that are not empty, from [a] to [b]. *)
Fixpoint tiles (a : nat) (ss : list (nat * nat)) (b : nat) : Prop :=
  match ss with
  | [] => a = b
  | s :: ss => s.1 = a /\ (s.1 < s.2)%nat /\ tiles s.2 ss b
  end.

Lemma tiles_le a ss b : tiles a ss b -> (a <= b)%nat.
Proof. revert a. induction ss as [|s ss IH]; intros a; cbn; [lia|]. intros (-> & ? & ?%IH). lia. Qed.

Lemma slice_0_cons {A} (x : A) n l : slice 0 (S n) (x :: l) = x :: slice 0 n l.
Proof. unfold slice. by rewrite !Nat.sub_0_r. Qed.

Lemma tiles_cut a ss b (i j : nat) s t text :
  tiles a ss b -> (b <= length text)%nat -> (i <= j)%nat -> ss !! i = Some s -> ss !! j = Some t ->
  slice s.1 t.2 text = concat (slice i (j + 1) (pieces text ss)).
Proof.
  revert a i j s. induction ss as [|u ss IH]; intros a i j s Ht Hb Hij Hi Hj; [done|].
  destruct Ht as (<- & Hu & Ht). pose proof (tiles_le _ _ _ Ht) as Hle.
  destruct i as [|i].
  - injection Hi as <-. destruct j as [|j].
    + injection Hj as <-. cbn. by rewrite app_nil_r.
    + destruct ss as [|v ss]; [done|]. pose proof (IH _ 0%nat j _ Ht Hb (Nat.le_0_l _) eq_refl Hj) as E.
      pose proof Ht as (Hv & _ & _). cbn [lookup list_lookup] in Hj.
      unfold pieces in *. change (S j + 1)%nat with (S (j + 1)). rewrite fmap_cons, slice_0_cons. cbn [concat]. rewrite <- E. rewrite Hv. symmetry. apply slice_app; [lia|].
      clear -Ht Hj. revert Hj Ht. generalize (v :: ss) (u.2). intros l. revert j.
      induction l as [|x l IH]; intros j n Hj Ht; [done|]. destruct Ht as (<- & ? & Ht).
      destruct j as [|j]; [injection Hj as <-; lia|]. specialize (IH j _ Hj Ht). lia.
  - destruct j as [|j]; [lia|]. apply (IH u.2 i j s); [done|done|lia|done|done].
Qed.

(** ** The width of a rune *)

(** A fact about every byte, by evaluation. *)
Lemma every_byte (P : Z -> bool) c : forallb P (seqZ 0 256) = true -> P (code c) = true.
Proof.
  intros Hf%forallb_Forall. rewrite Forall_forall in Hf. apply Hf, elem_of_seqZ. pose proof (code_range c). lia.
Qed.

Definition log_between (lo n hi : Z) : bool := (0 <=? n) && (lo <=? Z.log2 n) && (Z.log2 n <=? hi).

Lemma log_between_lor lo hi a b : log_between lo a hi = true -> log_between 0 b hi = true -> log_between lo (Z.lor a b) hi = true.
Proof.
  unfold log_between. rewrite !andb_true_iff, !Z.leb_le, Z.lor_nonneg. intros [[? ?] ?] [[? ?] ?].
  rewrite Z.log2_lor by done. lia.
Qed.

Lemma log_between_lor_r lo hi a b : log_between 0 a hi = true -> log_between lo b hi = true -> log_between lo (Z.lor a b) hi = true.
Proof. intros. rewrite Z.lor_comm. by apply log_between_lor. Qed.

Lemma every_two_bytes (P : Z -> Z -> bool) c d :
  forallb (fun a => forallb (P a) (seqZ 0 256)) (seqZ 0 256) = true -> P (code c) (code d) = true.
Proof. intros Hf. apply (every_byte (P (code c))), (every_byte (fun a => forallb (P a) (seqZ 0 256))), Hf. Qed.

(** The bits that the first two bytes of a rune contribute. *)
Lemma lead_two_log c : 0xC2 <= code c < 0xE0 -> log_between 7 (Z.shiftl (Z.land (code c) 0x1F) 6) 10 = true.
Proof.
  intros Hc. pose proof (every_byte (fun z => implb ((0xC2 <=? z) && (z <? 0xE0)) (log_between 7 (Z.shiftl (Z.land z 0x1F) 6) 10))
    c ltac:(vm_compute; reflexivity)) as Hp. cbn beta in Hp.
  by rewrite (proj2 (Z.leb_le _ _)), (proj2 (Z.ltb_lt _ _)) in Hp by lia.
Qed.

Lemma lead_three_log c d :
  0xE0 <= code c < 0xF0 -> in_range (accept_lo (code c)) (accept_hi (code c)) d = true ->
  log_between 11 (Z.lor (Z.shiftl (Z.land (code c) 0x0F) 12) (Z.shiftl (Z.land (code d) 0x3F) 6)) 15 = true.
Proof.
  intros Hc Hd. pose proof (every_two_bytes (fun z y => implb ((0xE0 <=? z) && (z <? 0xF0) && ((accept_lo z <=? y) && (y <=? accept_hi z)))
    (log_between 11 (Z.lor (Z.shiftl (Z.land z 0x0F) 12) (Z.shiftl (Z.land y 0x3F) 6)) 15))
    c d ltac:(vm_compute; reflexivity)) as Hp. cbn beta in Hp. unfold in_range in Hd.
  by rewrite (proj2 (Z.leb_le _ _)), (proj2 (Z.ltb_lt _ _)), Hd in Hp by lia.
Qed.

Lemma lead_four_log c d :
  0xF0 <= code c <= 0xF4 -> in_range (accept_lo (code c)) (accept_hi (code c)) d = true ->
  log_between 16 (Z.lor (Z.shiftl (Z.land (code c) 0x07) 18) (Z.shiftl (Z.land (code d) 0x3F) 12)) 20 = true.
Proof.
  intros Hc Hd. pose proof (every_two_bytes (fun z y => implb ((0xF0 <=? z) && (z <=? 0xF4) && ((accept_lo z <=? y) && (y <=? accept_hi z)))
    (log_between 16 (Z.lor (Z.shiftl (Z.land z 0x07) 18) (Z.shiftl (Z.land y 0x3F) 12)) 20))
    c d ltac:(vm_compute; reflexivity)) as Hp. cbn beta in Hp. unfold in_range in Hd.
  by rewrite Hd, !(proj2 (Z.leb_le _ _)) in Hp by lia.
Qed.

Lemma trail_log c k hi : 5 + k <= hi -> 0 <= k -> log_between 0 (Z.shiftl (Z.land (code c) 0x3F) k) hi = true.
Proof.
  intros Hk H0. assert (Hc : ((0 <=? Z.land (code c) 0x3F) && (Z.land (code c) 0x3F <? 64)) = true)
    by (apply (every_byte (fun z => (0 <=? Z.land z 0x3F) && (Z.land z 0x3F <? 64))); vm_compute; reflexivity).
  apply andb_true_iff in Hc as [H1%Z.leb_le H2%Z.ltb_lt]. set (t := Z.land (code c) 0x3F) in *.
  unfold log_between. rewrite !andb_true_iff, !Z.leb_le, Z.shiftl_nonneg. split; [split; [done|apply Z.log2_nonneg]|].
  destruct (Z.eq_dec t 0) as [->|Hn]; [rewrite Z.shiftl_0_l; cbn; lia|].
  rewrite Z.log2_shiftl by lia. assert (Z.log2 t < 6) by (apply Z.log2_lt_pow2; lia). lia.
Qed.

Lemma rune_width c s r n :
  decode_rune (c :: s) = (r, n) ->
  (r < 128 -> n = 1%nat /\ code c = r) /\ (128 <= r < 2048 -> n = 2%nat) /\ (2048 <= r < 65533 -> n = 3%nat).
Proof.
  assert (Hlog : forall m lo hi, log_between lo m hi = true -> 0 < lo -> 2 ^ lo <= m < 2 ^ (hi + 1)).
  { intros m lo hi [[H1%Z.leb_le H2%Z.leb_le]%andb_true_iff H3%Z.leb_le]%andb_true_iff Hlo.
    assert (0 < m) by (destruct (Z.eq_dec m 0) as [->|]; [cbn in H2; lia|lia]).
    pose proof (Z.log2_spec m ltac:(done)) as [Ha Hb]. split.
    - eapply Z.le_trans; [|exact Ha]. apply Z.pow_le_mono_r; lia.
    - eapply Z.lt_le_trans; [exact Hb|]. apply Z.pow_le_mono_r; lia. }
  pose proof (code_range c) as Hc. unfold decode_rune, RuneError.
  repeat case_match; intros [= <- <-]; bool_props; try (split_and!; [split; lia|lia|lia]).
  - pose proof (Hlog _ 7 10 (log_between_lor _ _ _ _ (lead_two_log c ltac:(lia)) (trail_log a 0 10 ltac:(lia) ltac:(lia))) ltac:(lia)).
    rewrite Z.shiftl_0_r in *. split_and!; lia.
  - assert (log_between 11 (Z.lor (Z.lor (Z.shiftl (Z.land (code c) 15) 12) (Z.shiftl (Z.land (code a) 63) 6)) (Z.land (code a0) 63)) 15
      = true) as Hb by (apply log_between_lor; [by apply lead_three_log|rewrite <- (Z.shiftl_0_r (Z.land _ _)); by apply trail_log]).
    apply Hlog in Hb; [|lia]. split_and!; lia.
  - assert (log_between 16 (Z.lor (Z.lor (Z.lor (Z.shiftl (Z.land (code c) 7) 18) (Z.shiftl (Z.land (code a) 63) 12))
      (Z.shiftl (Z.land (code a0) 63) 6)) (Z.land (code a1) 63)) 20 = true) as Hb.
    { apply log_between_lor; [apply log_between_lor; [by apply lead_four_log|by apply trail_log]|].
      rewrite <- (Z.shiftl_0_r (Z.land _ _)). by apply trail_log. }
    apply Hlog in Hb; [|lia]. split_and!; lia.
Qed.

(** ** The spans tile the text *)

(** The position of the scan: at most one line feed, counted already, is still ahead. *)
Definition scanned (text : gostring) (lineStart index : nat) : Prop :=
  (lineStart <= index)%nat \/
  (lineStart = index + 1 /\ text !! index = Some LF /\ 0 < index /\ text !! (index - 1) = Some CR)%nat.

Lemma separator_step text i c s :
  drop i text = c :: s -> (i <= length text)%nat ->
  let d := decode_rune (c :: s) in
  match separator_end text i d.1 with
  | Some e => (i < e <= length text)%nat /\ scanned text e (i + d.2) /\ ~ (text !! i = Some LF /\ 0 < i /\ text !! (i - 1) = Some CR)%nat
  | None => text !! i = Some LF -> d.2 = 1%nat
  end.
Proof.
  intros Hd Hi. pose proof (decode_rune_size c s) as Hsize. destruct (decode_rune (c :: s)) as [r n] eqn:Er. cbn [fst snd] in *.
  pose proof (rune_width c s r n Er) as (H1 & H2 & H3).
  assert (Hl : (length (c :: s) = length text - i)%nat) by (by rewrite <- Hd, length_drop).
  assert (Hc : text !! i = Some c) by (rewrite <- (Nat.add_0_r i), <- lookup_drop, Hd; done).
  unfold separator_end. rewrite Hc.
  destruct (Z.eqb_spec r (code CR)) as [->|Hcr].
  { destruct H1 as [-> E%code_inj]; [by vm_compute|]. subst c. case_decide as Hn.
    - pose proof (lookup_lt_Some _ _ _ Hn). split; [lia|]. split; [|by intros [? _]]. right. split; [lia|]. split; [done|]. split; [lia|].
      by replace (i + 1 - 1)%nat with i by lia.
    - split; [lia|]. split; [by left; lia|by intros [? _]]. }
  destruct (Z.eqb_spec r (code LF)) as [->|Hlf].
  { destruct H1 as [-> E%code_inj]; [by vm_compute|]. subst c. destruct (_ && _) eqn:Eb; [done|].
    split; [lia|]. split; [left; lia|]. intros (_ & Hpos & Hcr'). rewrite (proj2 (Nat.ltb_lt _ _)), bool_decide_eq_true_2 in Eb by done. done. }
  assert (Hlfc : c = LF -> n = 1%nat /\ r = code LF).
  { intros ->. change (decode_rune (LF :: s)) with (code LF, 1%nat) in Er. by injection Er as <- <-. }
  destruct (Z.eqb_spec r NEL) as [->|Hnel].
  { rewrite H2 in * by (unfold NEL; lia). split; [lia|]. split; [left; lia|]. intros ([= ->] & _). by destruct (Hlfc eq_refl). }
  destruct (_ || _) eqn:Els.
  { assert (2048 <= r < 65533) as Hr by (apply orb_true_iff in Els as [->%Z.eqb_eq | ->%Z.eqb_eq]; unfold LS, PS; lia).
    rewrite H3 in * by done. split; [lia|]. split; [left; lia|]. intros ([= ->] & _). by destruct (Hlfc eq_refl). }
  intros [= ->]. by destruct (Hlfc eq_refl).
Qed.

Lemma line_spans_tiles text m i lineStart :
  (length text - i <= m)%nat -> (i <= length text)%nat -> (lineStart <= length text)%nat -> scanned text lineStart i ->
  tiles lineStart (line_spans text (runes_from 0 i (drop i text)) lineStart) (length text).
Proof.
  revert i lineStart. induction m as [|m IH]; intros i lineStart Hm Hi Hs Hsc.
  all: destruct (drop i text) as [|c s] eqn:Hd.
  all: assert (Hl : (length (drop i text) = length text - i)%nat) by apply length_drop; rewrite Hd in Hl; cbn [length] in Hl.
  1,3: cbn [runes_from line_spans]; destruct (Nat.ltb_spec lineStart (length text)); cbn; lia.
  { lia. }
  rewrite runes_from_cons. cbn [line_spans]. pose proof (decode_rune_size c s) as Hsize.
  pose proof (separator_step text i c s Hd Hi) as Hstep. cbv zeta in Hstep. cbn [length] in Hsize.
  assert (forall k, drop k (c :: s) = drop (i + k) text) as -> by (intros k; by rewrite <- Hd, drop_drop).
  destruct (separator_end text i _) as [e|].
  - destruct Hstep as ((H1 & H2) & He & Hno). cbn [tiles fst snd]. split; [done|]. split.
    + destruct Hsc as [?|(_ & Hx)]; [lia|]. by destruct Hno.
    + apply IH; [lia..|done].
  - apply IH; [lia..|]. left. destruct Hsc as [?|(-> & Hlf & _)]; [lia|]. rewrite (Hstep Hlf). lia.
Qed.

Lemma spans_tiles text : tiles 0 (spans text) (length text).
Proof.
  unfold spans, range_string. rewrite <- (drop_0 text) at 1. apply (line_spans_tiles text (length text)); [lia..|]. left. lia.
Qed.

(** ** Ranges of lines *)

Lemma validateLineRange_spec a b :
  validateLineRange a b = true <-> a = 0 /\ b = 0 \/ 1 <= a <= b /\ b - a < MaxLineRange.
Proof.
  unfold validateLineRange. rewrite orb_true_iff, andb_true_iff, !Z.eqb_eq, negb_true_iff, !orb_false_iff, !Z.ltb_ge. lia.
Qed.

Lemma pieces_concat text ss a : tiles a ss (length text) -> concat (pieces text ss) = drop a text.
Proof.
  revert a. induction ss as [|s ss IH]; intros a Ht; cbn [tiles] in Ht.
  - subst. cbn. by rewrite drop_ge.
  - destruct Ht as (<- & Hs & Ht). pose proof (tiles_le _ _ _ Ht). unfold pieces in *. rewrite fmap_cons. cbn [concat].
    rewrite (IH _ Ht), <- !slice_drop by lia. apply slice_app; lia.
Qed.

Lemma pieces_nonempty text ss a : tiles a ss (length text) -> Forall (fun l => l <> []) (pieces text ss).
Proof.
  revert a. induction ss as [|s ss IH]; intros a Ht; [constructor|]. destruct Ht as (_ & Hs & Ht).
  pose proof (tiles_le _ _ _ Ht). constructor; [|by eapply IH]. intros E. apply (f_equal length) in E. rewrite slice_length in E by lia.
  cbn in E. lia.
Qed.

(** The lines of a text are not empty and make up the text. A request without a range
    yields the whole text; a range yields exactly its lines, up to the last one there
    is, and says which they are and whether something is left out; a range that is
    malformed or starts past the end is refused. *)
Theorem sliceTextLines_exact text a b :
  concat (text_lines text) = text /\ Forall (fun l => l <> []) (text_lines text) /\
  sliceTextLines text a b =
    (let total := len (text_lines text) in
     let last := Z.min b total in
     if negb (validateLineRange a b) then Err BadRange
     else if a =? 0 then Ok (text, if total =? 0 then 0 else 1, total, total, false)
     else if total <? a then Err RangePastEnd
     else Ok (concat (slice (Z.to_nat (a - 1)) (Z.to_nat last) (text_lines text)), a, last, total, (1 <? a) || (last <? total))).
Proof.
  pose proof (spans_tiles text) as Ht. split; [by apply (pieces_concat text _ 0%nat)|].
  split; [by apply (pieces_nonempty text _ 0%nat)|].
  assert (Hlen : len (text_lines text) = len (spans text)) by (unfold len, text_lines, pieces; by rewrite length_fmap).
  cbv zeta. rewrite Hlen. unfold sliceTextLines. destruct (validateLineRange a b) eqn:Hv; cbn [negb guard_err]; [|done].
  apply validateLineRange_spec in Hv. destruct (Z.eqb_spec a 0) as [->|Ha]; [by destruct (Z.eqb_spec (len (spans text)) 0) as [->|]|].
  destruct (Z.ltb_spec (len (spans text)) a); [done|].
  assert ((if len (spans text) <? b then len (spans text) else b) = Z.min b (len (spans text))) as -> by
    (destruct (Z.ltb_spec (len (spans text)) b); lia).
  set (last := Z.min b (len (spans text))). unfold len in *.
  destruct (lookup_lt_is_Some_2 (spans text) (Z.to_nat (a - 1))) as [s Hs]; [lia|].
  destruct (lookup_lt_is_Some_2 (spans text) (Z.to_nat (last - 1))) as [t Hl]; [lia|]. rewrite Hs, Hl. do 5 f_equal.
  rewrite (tiles_cut 0 _ _ _ _ s t text Ht (le_n _)) with (3 := Hl) (2 := Hs) by lia.
  by replace (Z.to_nat (last - 1) + 1)%nat with (Z.to_nat last) by lia.
Qed.

(** ** Reading several files *)

Section read_laws.
Context `{XText, ScriptTables, Crypto} {F : Type} `{FileSystem F} `{!FileSystemLaws F}.
#[local] Set Default Proof Using "All".

Lemma DecodeText_Ok raw max a b r :
  0 < max -> DecodeText raw max a b = Ok r ->
  exists file content first last total cut, Decode raw (textLimits max) = Ok file /\
    sliceTextLines (file_text file) a b = Ok (content, first, last, total, cut) /\
    r = mkText [] content (len raw) first last total cut (digestBytes raw) (file_meta file) /\ len raw <= max.
Proof.
  intros Hm. unfold DecodeText. destruct (Decode raw (textLimits max)) as [file|] eqn:Hd; [|done].
  intros ([[[[content first] last] total] cut] & Hs & [= <-])%bind_Ok. eexists _, _, _, _, _, _. split; [done|]. split; [done|].
  split; [done|]. unfold Decode in Hd. apply bind_Ok in Hd as (l & Hl & Hd). apply guard_Ok in Hd as [Hle%Z.ltb_ge _].
  unfold resolveLimits in Hl. apply guard_Ok in Hl as [_ [= <-]]. cbn [MaxInputBytes textLimits] in Hle.
  rewrite (proj2 (Z.leb_gt _ _)) in Hle by lia. unfold or_default, min64 in Hle.
  assert (0 < hardMaxBytes) by done. repeat case_match; bool_props; lia.
Qed.

(** What a read of the whole of [path] returns. *)
Definition whole (c : gostring -> option gostring) (path : gostring) (r : TextResult) : Prop :=
  exists raw max file, c path = Some raw /\ Decode raw (textLimits max) = Ok file /\
    tr_Path r = path /\ tr_Content r = file_text file /\ tr_Bytes r = len raw /\ tr_BeforeSHA256 r = digestBytes raw.

Lemma readText_Ok path max f r f' :
  0 < max -> readText path max 0 0 f = (Ok r, f') ->
  content f' = content f /\ whole (content f) path r /\ 0 <= tr_Bytes r <= max.
Proof.
  intros Hm. unfold readText. pose proof (fs_read_content path max f) as Hc.
  destruct (fs_read path max f) as [[raw|e] f1] eqn:Er; [|done]. apply fs_read_Ok in Er.
  destruct (DecodeText raw max 0 0) as [t|] eqn:Hd; [|done]. intros [= <- <-].
  apply DecodeText_Ok in Hd as (file & content & first & last & total & cut & Hd & Hs & -> & Hle); [|done].
  split; [done|]. cbn. pose proof (len_nonneg raw). split; [|lia]. exists raw, max, file. repeat (split; [done|]). split; [|done]. cbn.
  destruct (sliceTextLines_exact (file_text file) 0 0) as (_ & _ & E). rewrite E in Hs. cbv zeta in Hs. by injection Hs as <-.
Qed.

Lemma multi_loop_Ok paths remaining f rs f' :
  0 <= remaining -> multi_loop paths remaining f = (Ok rs, f') ->
  Forall2 (whole (content f)) paths rs /\ foldr (fun r n => tr_Bytes r + n) 0 rs <= remaining.
Proof.
  revert remaining f rs f'. induction paths as [|path paths IH]; intros remaining f rs f' Hr; cbn [multi_loop].
  { intros [= <- _]. split; [constructor|done]. }
  destruct (Z.leb_spec remaining 0); [done|]. destruct (readText path remaining 0 0 f) as [[r|e] f1] eqn:E; [|done].
  apply readText_Ok in E as (Hc & Hw & Hb); [|done]. destruct (multi_loop paths _ f1) as [[rs'|e] f2] eqn:El; [|done].
  apply IH in El as [Hall Hsum]; [|lia]. intros [= <- _]. rewrite Hc in Hall. split; [by constructor|]. cbn [foldr]. lia.
Qed.

(** Several files are read whole, in the order asked for, at most twenty, and together
    within the byte limit. *)
Theorem multiRead_exact paths max f rs f' :
  0 <= max -> multiRead paths max f = (Ok rs, f') ->
  Forall2 (whole (content f)) paths rs /\ foldr (fun r n => tr_Bytes r + n) 0 rs <= max /\ 0 < len paths <= maxBatchFiles.
Proof.
  intros Hm. unfold multiRead. destruct (_ || _) eqn:E; [done|]. apply orb_false_iff in E as [Hx1%Z.eqb_neq Hx2%Z.ltb_ge].
  pose proof (len_nonneg paths). intros [? ?]%multi_loop_Ok; [|done]. split; [done|]. split; [done|lia].
Qed.
End read_laws.

(** ** Witness *)

Definition sample_multi := @multiRead latin1_xtext no_scripts toy_crypto flaky (@flaky_fs toy_crypto) ["b"; "a"] 10 (mkFlaky sample_disk []).
Definition multi_results : list TextResult := match sample_multi.1 with Ok rs => rs | Err _ => [] end.

Lemma multiRead_exact_witness : tr_Path <$> multi_results = ["b"; "a"] /\ foldr (fun r n => tr_Bytes r + n) 0 multi_results <= 10.
Proof.
  destruct (@multiRead_exact latin1_xtext no_scripts toy_crypto flaky (@flaky_fs toy_crypto) (@flaky_laws toy_crypto)
    ["b"; "a"] 10 (mkFlaky sample_disk []) multi_results sample_multi.2) as (_ & Hs & _).
  - vm_compute. discriminate.
  - vm_compute. reflexivity.
  - split; [vm_compute; reflexivity|exact Hs].
Defined.
