(* ===== verification/FileWorker.v ===== *)
(** * The file worker ([internal/fileworker/worker.go])

    One job per process: authorise it, run its operation, and answer. The operations
    reach the workspace through [FileSystem] and [Scanning]; what the worker may change
    is bounded by the capability. *)
From S2P Require Import Prelude GoStrings Base64 Utf8 TextTypes Codec EditorConfig Diff Edit Token Capability Workspace FileEdit FileJob FileRead Image.
#[local] Open Scope Z_scope.

Record FileInfo := mkInfo { Size : Z; Mode : Z; ModifiedAt : gotime; IsDir : bool }.

(** The operations of the workspace that only look. *)
Class Scanning (F : Type) := {
  fs_list : gostring -> Z -> F -> result ws_error (list gostring) * F;
  fs_info : gostring -> F -> result ws_error FileInfo * F;
  fs_glob : gostring -> gostring -> Z -> Z -> F -> result ws_error GlobScanResult * F;
  fs_grep : gostring -> gostring -> Z -> Z -> Z -> F -> result ws_error GrepScanResult * F
}.

Class ScanningLaws (F : Type) `{Scanning F} `{FileSystemLaws F} := {
  fs_list_content path max f : content (fs_list path max f).2 = content f;
  fs_info_content path f : content (fs_info path f).2 = content f;
  fs_glob_content path pattern n m f : content (fs_glob path pattern n m f).2 = content f;
  fs_grep_content path query n m b f : content (fs_grep path query n m b f).2 = content f
}.

Inductive ErrorKind :=
  | ErrorKindInvalidPath | ErrorKindDeniedPath | ErrorKindNotFound | ErrorKindPermission | ErrorKindNotDirectory
  | ErrorKindInvalidFileType | ErrorKindUnsafeFile | ErrorKindLimitExceeded | ErrorKindInvalidPattern
  | ErrorKindConflict | ErrorKindIO.

(** [errors.Is] against the classes of the workspace; a response carries the kind. *)
Definition ErrorKindFor (e : ws_error) : option ErrorKind :=
  match e with
  | ErrInvalidPath => Some ErrorKindInvalidPath
  | ErrDeniedPath => Some ErrorKindDeniedPath
  | Workspace.ErrNotFound => Some ErrorKindNotFound
  | ErrPermission => Some ErrorKindPermission
  | ErrNotDirectory => Some ErrorKindNotDirectory
  | ErrInvalidFileType => Some ErrorKindInvalidFileType
  | ErrUnsafeFile => Some ErrorKindUnsafeFile
  | ErrLimitExceeded | errTraversalFileLimit | errTraversalDepthLimit => Some ErrorKindLimitExceeded
  | ErrInvalidPattern => Some ErrorKindInvalidPattern
  | ErrConflict => Some ErrorKindConflict
  | ErrIO => Some ErrorKindIO
  | _ => None
  end.

(** What the client makes of the kind. *)
Definition workspaceErrorForKind (kind : ErrorKind) : ws_error :=
  match kind with
  | ErrorKindInvalidPath => ErrInvalidPath
  | ErrorKindDeniedPath => ErrDeniedPath
  | ErrorKindNotFound => Workspace.ErrNotFound
  | ErrorKindPermission => ErrPermission
  | ErrorKindNotDirectory => ErrNotDirectory
  | ErrorKindInvalidFileType => ErrInvalidFileType
  | ErrorKindUnsafeFile => ErrUnsafeFile
  | ErrorKindLimitExceeded => ErrLimitExceeded
  | ErrorKindInvalidPattern => ErrInvalidPattern
  | ErrorKindConflict => ErrConflict
  | ErrorKindIO => ErrIO
  end.

Lemma ErrorKindFor_inverse kind : ErrorKindFor (workspaceErrorForKind kind) = Some kind.
Proof. by destruct kind. Qed.

Inductive worker_error :=
  | WorkspaceFailed (e : ws_error) | ReadError (e : read_error) | ImageFailed (e : image_error) | ImageLimit
  | DiffFailed (e : text_error) | DiffTooLarge | BadData | UnsupportedOperation.

(** The responses of the operations; a failure keeps its error. *)
Inductive response :=
  | TextResponse (t : TextResult)
  | BinaryResponse (base64 : gostring) (bytes : Z) (sha256 : gostring)
  | ImageResponse (i : ImageResult)
  | FilesResponse (files : list TextResult)
  | EntriesResponse (entries : list gostring)
  | ChecksumResponse (sum : gostring)
  | InfoResponse (i : FileInfo)
  | GlobResponse (r : GlobScanResult)
  | GrepResponse (r : GrepScanResult)
  | DiffResponse (path diff before after : gostring)
  | EditResponse (r : edit_response)
  | WriteResponse (sum : gostring)
  | FailedResponse (e : worker_error).

Section worker.
Context `{XText, ScriptTables, Regexp, UnicodeTables, Crypto, StdImages, ArgumentsJson, Ed25519, Json Claims}.
Context {F : Type} `{FileSystem F} `{Scanning F}.

(** [json.Marshal] of the version and the names. *)
Definition workerPolicyID (marshal_names : list gostring -> gostring) (deniedNames : list gostring) : gostring :=
  "file-policy-sha256:" ++ digestBytes (marshal_names (sort_strings (remove_dups (to_lower <$> deniedNames)))).

Definition respond {A} (k : A -> response) (wrap : ws_error -> worker_error) (r : result ws_error A * F) : response * F :=
  (match r.1 with Ok a => k a | Err e => FailedResponse (wrap e) end, r.2).

Definition respond_read (k : TextResult -> response) (r : result read_error TextResult * F) : response * F :=
  (match r.1 with Ok t => k t | Err e => FailedResponse (ReadError e) end, r.2).

Definition readImage (path : gostring) (max : Z) (f : F) : response * F :=
  if (max <=? 0) || (Image.MaxImageBytes <? max) then (FailedResponse ImageLimit, f)
  else
    match fs_read path max f with
    | (Err e, f) => (FailedResponse (WorkspaceFailed e), f)
    | (Ok raw, f) => (match DecodeImage raw with Ok i => ImageResponse i | Err e => FailedResponse (ImageFailed e) end, f)
    end.

Definition diff (j : Job) (f : F) : response * F :=
  let a := j_Arguments j in
  match readText (a_Path a) (a_MaxBytes a) 0 0 f with
  | (Err e, f) => (FailedResponse (ReadError e), f)
  | (Ok original, f) =>
      (match decodeJobData j with
       | None => FailedResponse BadData
       | Some data =>
           if a_MaxBytes a <? len data then FailedResponse DiffTooLarge
           else match UnifiedDiff (tr_Content original) data (diff_options (a_Path a)) with
                | Err e => FailedResponse (DiffFailed e)
                | Ok d => DiffResponse (a_Path a) d (tr_BeforeSHA256 original) (digestBytes data)
                end
       end, f)
  end.

Definition job_files (a : Arguments) : list EditFile :=
  if decide (a_Operation a = "edit") then [mkEditFile (a_Path a) (a_Edits a)] else a_Files a.

Definition executeAuthorized (j : Job) (f : F) : response * F :=
  let a := j_Arguments j in
  let op := a_Operation a in
  if decide (op = "read_file") then
    respond_read TextResponse (readText (a_Path a) (a_MaxBytes a) (a_StartLine a) (a_EndLine a) f)
  else if decide (op = "read_binary") then
    respond (fun raw => BinaryResponse (std_encode raw) (len raw) (digestBytes raw)) WorkspaceFailed
      (fs_read (a_Path a) (a_MaxBytes a) f)
  else if decide (op = "read_image") then readImage (a_Path a) (a_MaxBytes a) f
  else if decide (op = "multi_read") then
    let '(r, f) := multiRead (a_Paths a) (a_MaxBytes a) f in
    (match r with Ok files => FilesResponse files | Err e => FailedResponse (ReadError e) end, f)
  else if decide (op = "list_dir") then respond EntriesResponse WorkspaceFailed (fs_list (a_Path a) (a_MaxEntries a) f)
  else if decide (op = "checksum") then respond ChecksumResponse WorkspaceFailed (fs_checksum (a_Path a) f)
  else if decide (op = "file_info") then respond InfoResponse WorkspaceFailed (fs_info (a_Path a) f)
  else if decide (op = "glob") then
    respond GlobResponse WorkspaceFailed (fs_glob (a_Path a) (a_Pattern a) (a_MaxFiles a) (a_MaxResults a) f)
  else if decide (op = "grep") then
    respond GrepResponse WorkspaceFailed (fs_grep (a_Path a) (a_Query a) (a_MaxFiles a) (a_MaxResults a) (a_MaxBytes a) f)
  else if decide (op = "diff") then diff j f
  else if decide (op = "edit" \/ op = "multi_edit") then
    let '(r, f) := edit (job_files a) (a_Apply a) (a_Targets a) (a_MaxBytes a) f in (EditResponse r, f)
  else if decide (op = "write_file") then
    match decodeJobData j with
    | None => (FailedResponse BadData, f)
    | Some data => respond WriteResponse WorkspaceFailed (fs_write (a_Path a) data (a_ExpectedHash a) (a_MaxBytes a) f)
    end
  else (FailedResponse UnsupportedOperation, f).

(** [Service.Execute]: a job that is not authorised is answered with the error alone. *)
Definition Execute (policyID : gostring) (caps : Verifier) (j : Job) (now : gotime) (f : F)
  : result job_error (Claims * response) * Verifier * F :=
  match authorize policyID caps j now with
  | (Err e, caps) => (Err e, caps, f)
  | (Ok claims, caps) => let '(r, f) := executeAuthorized j f in (Ok (claims, r), caps, f)
  end.

(** ** Reads change nothing *)

Definition commits (a : Arguments) : Prop :=
  a_Operation a = "write_file" \/ (a_Operation a = "edit" \/ a_Operation a = "multi_edit") /\ a_Apply a = true.

Context `{!FileSystemLaws F} `{!ScanningLaws F}.
#[local] Set Default Proof Using "All".

Lemma respond_content {A} (k : A -> response) wrap r f : content r.2 = content f -> content (respond k wrap r).2 = content f.
Proof. done. Qed.

Lemma readText_content path max a b f : content (readText path max a b f).2 = content f.
Proof. unfold readText. pose proof (fs_read_content path max f) as Hc. by destruct (fs_read path max f) as [[|] ?]. Qed.

Lemma multi_loop_content paths remaining f : content (multi_loop paths remaining f).2 = content f.
Proof.
  revert remaining f. induction paths as [|path paths IH]; intros remaining f; cbn [multi_loop]; [done|].
  case_match; [done|]. pose proof (readText_content path remaining 0 0 f) as Hc.
  destruct (readText path remaining 0 0 f) as [[r|e] f1]; [|done]. pose proof (IH (remaining - tr_Bytes r) f1) as Hl.
  destruct (multi_loop paths _ f1). cbn [snd] in *. congruence.
Qed.

Lemma readImage_content path max f : content (readImage path max f).2 = content f.
Proof.
  unfold readImage. case_match; [done|]. pose proof (fs_read_content path max f) as Hc. by destruct (fs_read path max f) as [[|] ?].
Qed.

Lemma diff_content j f : content (diff j f).2 = content f.
Proof.
  unfold diff. pose proof (readText_content (a_Path (j_Arguments j)) (a_MaxBytes (j_Arguments j)) 0 0 f) as Hc.
  by destruct (readText _ _ 0 0 f) as [[|] ?].
Qed.

Lemma edit_no_apply files targets max f : content (edit files false targets max f).2 = content f.
Proof.
  unfold edit. pose proof (stable_preflight files max f) as Hc. by destruct (preflightEdits files max f) as [[|] ?].
Qed.

(** An operation that does not commit leaves every file as it is. *)
Lemma executeAuthorized_reads j f : ~ commits (j_Arguments j) -> content (executeAuthorized j f).2 = content f.
Proof.
  intros Hn. unfold executeAuthorized, commits in *. cbv zeta.
  repeat case_decide; try (apply respond_content);
    auto using fs_read_content, fs_checksum_content, fs_list_content, fs_info_content, fs_glob_content, fs_grep_content,
      readImage_content, diff_content.
  - apply (readText_content _ _ _ _ f).
  - pose proof (multi_loop_content (a_Paths (j_Arguments j)) (a_MaxBytes (j_Arguments j)) f) as Hc. unfold multiRead.
    destruct (_ || _); [done|]. by destruct (multi_loop _ _ f).
  - assert (a_Apply (j_Arguments j) = false) as -> by (destruct (a_Apply _); [exfalso; tauto|done]).
    pose proof (edit_no_apply (job_files (j_Arguments j)) (a_Targets (j_Arguments j)) (a_MaxBytes (j_Arguments j)) f) as Hc.
    by destruct (edit _ _ _ _ f).
  - exfalso. tauto.
Qed.

(** ** What a capability allows to change *)

(** An edit changes only files of its plan, from the content that it was prepared on to the
    content that its target names. *)
Lemma edit_confined files apply targets max f r f' q :
  edit files apply targets max f = (r, f') -> content f' q <> content f q ->
  apply = true /\ q ∈ ef_Path <$> files /\
  exists t, t ∈ targets /\ FileEdit.Path t = q /\ digest_at f q (BeforeSHA256 t) /\ digest_at f' q (AfterSHA256 t).
Proof.
  intros He Hq. destruct apply; [|exfalso; apply Hq; pose proof (edit_no_apply files targets max f) as Hc; rewrite He in Hc; cbn in Hc; by rewrite Hc].
  split; [done|]. unfold edit in He. destruct (preflightEdits files max f) as [[plans|e] f1] eqn:Ep; cycle 1.
  { injection He as _ <-. pose proof (stable_preflight files max f) as Hs. rewrite Ep in Hs. cbn in Hs. by rewrite Hs in Hq. }
  apply preflight_Ok in Ep as (Hall & Hnd & Hc). cbn [negb] in He.
  case_bool_decide as Ht; cbn [negb] in He; [|injection He as _ <-; by rewrite Hc in Hq].
  pose proof (start_batch _ _ _ _ _ Hall Hnd Hc) as Hib. pose proof (ib_hashed _ _ _ _ Hib) as Hh. pose proof (ib_before _ _ _ _ Hib) as Hb.
  apply (commit_spec (content f)) in He as (Ho & Hei & _); [|done]. cbn [app] in *. rewrite Forall_forall in Hh.
  destruct (decide (q ∈ paths_of plans)) as [Hin|Hin]; [|by rewrite Ho in Hq].
  split; [rewrite <- (planned_paths _ _ _ _ Hall); exact Hin|].
  apply list_elem_of_fmap in Hin as (p & -> & Hp). exists (plan_target p). rewrite <- Ht. split; [by apply list_elem_of_fmap_2|].
  split; [done|]. destruct (Hh p Hp) as [Hbefore Hafter]. rewrite Hbefore, Hafter. unfold digest_at.
  split; [by rewrite (Hb p Hp)|]. destruct (Hei p Hp) as [E|E]; [rewrite (Hb p Hp), E in Hq; done|]. by rewrite E.
Qed.

Lemma write_confined path data expected max f r f' q :
  fs_write path data expected max f = (r, f') -> content f' q <> content f q ->
  q = path /\ content f' q = Some data /\ expected = current_digest (content f q).
Proof.
  intros Hw Hq. pose proof (write_only path data expected max f) as Ho. pose proof (write_value path data expected max f) as Hv.
  pose proof (fs_write_expected path data expected max f) as Hx. rewrite Hw in Ho, Hv, Hx. cbn [snd] in Ho, Hv, Hx.
  destruct (decide (q = path)) as [->|Hne].
  - split; [done|]. split; [by destruct Hv|by apply Hx].
  - exfalso. apply Hq, Ho. by rewrite list_elem_of_singleton.
Qed.

(** How a job changes a file: by a write of its path, or by an edit of one of its files. *)
Inductive job_change (j : Job) (f f' : F) (q : gostring) : Prop :=
  | ChangedByWrite data :
      a_Operation (j_Arguments j) = "write_file" -> q = a_Path (j_Arguments j) ->
      decodeJobData j = Some data -> digestBytes data = a_ContentSHA256 (j_Arguments j) -> content f' q = Some data ->
      a_ExpectedHash (j_Arguments j) = current_digest (content f q) -> job_change j f f' q
  | ChangedByEdit t :
      a_Operation (j_Arguments j) = "edit" \/ a_Operation (j_Arguments j) = "multi_edit" -> a_Apply (j_Arguments j) = true ->
      q ∈ ef_Path <$> job_files (j_Arguments j) -> t ∈ a_Targets (j_Arguments j) -> FileEdit.Path t = q ->
      digest_at f q (BeforeSHA256 t) -> digest_at f' q (AfterSHA256 t) -> job_change j f f' q.

Lemma executeAuthorized_write j f :
  a_Operation (j_Arguments j) = "write_file" ->
  executeAuthorized j f =
    match decodeJobData j with
    | None => (FailedResponse BadData, f)
    | Some data => respond WriteResponse WorkspaceFailed
        (fs_write (a_Path (j_Arguments j)) data (a_ExpectedHash (j_Arguments j)) (a_MaxBytes (j_Arguments j)) f)
    end.
Proof.
  intros E. unfold executeAuthorized. cbv zeta. rewrite E.
  repeat match goal with |- context [decide ?P] => rewrite (decide_False (P := P)) by (try intros [?|?]; discriminate) end.
  by rewrite decide_True.
Qed.

Lemma executeAuthorized_edit j f :
  a_Operation (j_Arguments j) = "edit" \/ a_Operation (j_Arguments j) = "multi_edit" ->
  executeAuthorized j f =
    let '(r, f) := edit (job_files (j_Arguments j)) (a_Apply (j_Arguments j)) (a_Targets (j_Arguments j)) (a_MaxBytes (j_Arguments j)) f in
    (EditResponse r, f).
Proof.
  intros E. unfold executeAuthorized. cbv zeta.
  destruct E as [E|E]; rewrite E;
    repeat match goal with |- context [decide ?P] =>
      first [rewrite (decide_True (P := P)) by (reflexivity || (left; reflexivity) || (right; reflexivity))
            |rewrite (decide_False (P := P)) by (try intros [?|?]; discriminate)] end; reflexivity.
Qed.

Lemma executeAuthorized_confined j f r f' q :
  is_ok (scopeForJob j) = true -> executeAuthorized j f = (r, f') -> content f' q <> content f q -> job_change j f f' q.
Proof.
  intros Hs He Hq. destruct (scopeForJob j) as [s|] eqn:Es; [|done]. apply scopeForJob_Ok in Es as (_ & _ & _ & _ & _ & Hf).
  destruct (decide (commits (j_Arguments j))) as [Hco|Hco]; cycle 1.
  { exfalso. apply Hq. pose proof (executeAuthorized_reads j f Hco) as Hr. rewrite He in Hr. cbn in Hr. by rewrite Hr. }
  destruct Hco as [Hop|[Hop Hap]].
  - rewrite executeAuthorized_write in He by done. destruct (write_content j Hf Hop) as (data & Hd & _ & Hh & _).
    rewrite Hd in He. unfold respond in He. destruct (fs_write _ data _ _ f) as [rw fw] eqn:Ew. injection He as _ <-.
    apply write_confined with (q := q) in Ew as (-> & Ew & Hx); [|done]. by eapply ChangedByWrite.
  - rewrite executeAuthorized_edit in He by done. destruct (edit _ _ _ _ f) as [re fe] eqn:Ee. injection He as _ <-.
    apply edit_confined with (q := q) in Ee as (_ & Hin & t & Ht & Hp & Hb & Ha); [|done]. by eapply ChangedByEdit.
Qed.

End worker.

(** ** Witness *)

#[export] Instance blind_scanning : Scanning flaky := {|
  fs_list _ _ f := (Err ErrIO, f); fs_info _ f := (Err ErrIO, f); fs_glob _ _ _ _ f := (Err ErrIO, f);
  fs_grep _ _ _ _ _ f := (Err ErrIO, f)
|}.

Lemma blind_laws : @ScanningLaws flaky blind_scanning (@flaky_fs toy_crypto) toy_crypto (@flaky_laws toy_crypto).
Proof. by split. Qed.

Definition sample_execute :=
  @Execute latin1_xtext no_scripts star_regexp ascii_tables toy_crypto no_images path_json toy_ed job_json flaky
    (@flaky_fs toy_crypto) blind_scanning "wp" sample_caps sample_job 1 (mkFlaky sample_disk []).

