(* ===== verification/ExecProfile.v ===== *)
(** * Task profiles of the exec worker ([internal/execworker/types.go], [config.go])

    What an administrator allows to be run: the executable, the argument prefixes, the
    environment names, and the limits that every job must respect. *)
From S2P Require Import Prelude GoStrings GoPath Token.
#[local] Open Scope Z_scope.

(** ** Limits *)

Record Limits := mkLimits {
  TimeoutMillis : Z; CPUSeconds : Z; MemoryBytes : Z; PIDs : Z; OutputBytes : Z; ScanRegions : Z; ScanBytes : Z; ScanResults : Z
}.
#[export] Instance Limits_eq_dec : EqDecision Limits.
Proof. solve_decision. Defined.

Inductive exec_error :=
  | LimitsNotPositive | LimitsTooLarge | ScanLimitsInvalid
  | NoName | BadExecutable | BadWorkspaceMode | ProfileLimits (e : exec_error) | ArgvNUL | EmptyPrefix
  | BadEnvName | DuplicateEnvName | TooManyCachePaths | BadCachePath | CachePathRoot | CachePathSensitive | DuplicateCachePath.

(** [Limits.Validate]. *)
Definition Limits_Validate (l : Limits) : result exec_error unit :=
  reject (TimeoutMillis l <=? 0) || (CPUSeconds l <=? 0) || (MemoryBytes l <=? 0) || (PIDs l <=? 0) || (OutputBytes l <=? 0)
    with LimitsNotPositive;
  reject (24 * 3600 * 1000 <? TimeoutMillis l) || (86400 <? CPUSeconds l) || (Z.shiftl 1 50 <? MemoryBytes l) ||
         (Z.shiftl 1 20 <? PIDs l) || (Z.shiftl 2 20 <? OutputBytes l) with LimitsTooLarge;
  reject (ScanRegions l <? 0) || (ScanBytes l <? 0) || (ScanResults l <? 0) || (4096 <? ScanRegions l) ||
         (Z.shiftl 1 30 <? ScanBytes l) || (10000 <? ScanResults l) with ScanLimitsInvalid;
  Ok tt.

Definition Within (l max : Limits) : bool :=
  (TimeoutMillis l <=? TimeoutMillis max) && (CPUSeconds l <=? CPUSeconds max) && (MemoryBytes l <=? MemoryBytes max) &&
  (PIDs l <=? PIDs max) && (OutputBytes l <=? OutputBytes max) && (ScanRegions l <=? ScanRegions max) &&
  (ScanBytes l <=? ScanBytes max) && (ScanResults l <=? ScanResults max).

(** ** Profiles *)

(** [WorkspaceMode] is a string of the configuration. *)
Definition WorkspaceNone : gostring := "none".
Definition WorkspaceReadOnly : gostring := "read_only".
Definition WorkspaceReadWrite : gostring := "read_write".

Record TaskProfile := mkTaskProfile {
  Name : gostring; Executable : gostring; FixedArgv : list gostring; AllowedArgvPrefixes : list (list gostring);
  WorkspaceMode : gostring; EnvAllowlist : list gostring; CachePaths : list gostring; ProfLimits : Limits
}.

(** [^[A-Za-z_][A-Za-z0-9_]*$] *)
Definition word_char (c : ascii) : bool :=
  let d := code c in
  ((48 <=? d) && (d <=? 57)) || ((65 <=? d) && (d <=? 90)) || ((97 <=? d) && (d <=? 122)) || bool_decide (c = "_"%char).
Definition digit_char (c : ascii) : bool := (48 <=? code c) && (code c <=? 57).
Definition envNamePattern (s : gostring) : bool :=
  match s with c :: rest => word_char c && negb (digit_char c) && forallb word_char rest | [] => false end.

Definition has_NUL (s : gostring) : bool := contains_byte s NUL.

Definition sensitive_trees : list gostring := ["/proc"; "/sys"; "/dev"; "/run"; "/var/run"].

Definition validateCachePath (value : gostring) : result exec_error unit :=
  reject bool_decide (value = []) || has_NUL value || negb (is_rooted value) || negb (bool_decide (clean value = value))
    with BadCachePath;
  reject bool_decide (value = [SLASH]) with CachePathRoot;
  reject existsb (fun denied => bool_decide (value = denied) || has_prefix value (denied ++ [SLASH])) sensitive_trees
    with CachePathSensitive;
  Ok tt.

Fixpoint check_prefixes (prefixes : list (list gostring)) : result exec_error unit :=
  match prefixes with
  | [] => Ok tt
  | prefix :: rest =>
      reject bool_decide (prefix = []) with EmptyPrefix;
      reject existsb has_NUL prefix with ArgvNUL;
      check_prefixes rest
  end.

Fixpoint check_env_names (names : list gostring) (seen : gset gostring) : result exec_error unit :=
  match names with
  | [] => Ok tt
  | name :: rest =>
      reject negb (envNamePattern name) with BadEnvName;
      reject bool_decide (name ∈ seen) with DuplicateEnvName;
      check_env_names rest ({[name]} ∪ seen)
  end.

Fixpoint check_cache_paths (paths : list gostring) (seen : gset gostring) : result exec_error unit :=
  match paths with
  | [] => Ok tt
  | p :: rest =>
      _ ← validateCachePath p;
      reject bool_decide (clean p ∈ seen) with DuplicateCachePath;
      check_cache_paths rest ({[clean p]} ∪ seen)
  end.

(** [TaskProfile.Validate]. *)
Definition Profile_Validate (p : TaskProfile) : result exec_error unit :=
  reject bool_decide (Name p = []) || has_NUL (Name p) with NoName;
  reject bool_decide (Executable p = []) || negb (is_rooted (Executable p)) || has_NUL (Executable p) with BadExecutable;
  reject negb (bool_decide (WorkspaceMode p ∈ [WorkspaceNone; WorkspaceReadOnly; WorkspaceReadWrite])) with BadWorkspaceMode;
  _ ← match Limits_Validate (ProfLimits p) with Ok u => Ok u | Err e => Err (ProfileLimits e) end;
  reject existsb has_NUL (FixedArgv p) with ArgvNUL;
  _ ← check_prefixes (AllowedArgvPrefixes p);
  _ ← check_env_names (EnvAllowlist p) ∅;
  reject 16 <? len (CachePaths p) with TooManyCachePaths;
  check_cache_paths (CachePaths p) ∅.

Fixpoint hasStringPrefix (value prefix : list gostring) : bool :=
  match prefix, value with
  | [], _ => true
  | p :: prefix, v :: value => bool_decide (v = p) && hasStringPrefix value prefix
  | _ :: _, [] => false
  end.

Definition AllowsArgv (p : TaskProfile) (argv : list gostring) : bool :=
  bool_decide (argv = []) || existsb (hasStringPrefix argv) (AllowedArgvPrefixes p).

(** The environment is a map; the order of its entries has no effect. *)
Definition AllowsEnv (p : TaskProfile) (env : list (gostring * gostring)) : bool :=
  forallb (fun '(name, value) => bool_decide (name ∈ EnvAllowlist p) && envNamePattern name && negb (has_NUL value)) env.

(** [json.Marshal] of a profile, and of a list of strings. *)
Class ProfileJson := {
  marshal_profile : TaskProfile -> gostring;
  marshal_strings : list gostring -> gostring
}.

Section digest.
Context `{Crypto} `{ProfileJson}.

Definition prefix_le (a b : list gostring) : Prop := str_le (marshal_strings a) (marshal_strings b).
#[export] Instance prefix_le_dec a b : base.Decision (prefix_le a b).
Proof. unfold prefix_le. apply _. Defined.

(** The profile with its lists in order. *)
Definition canonical (p : TaskProfile) : TaskProfile :=
  mkTaskProfile (Name p) (Executable p) (FixedArgv p) (merge_sort prefix_le (AllowedArgvPrefixes p)) (WorkspaceMode p)
    (sort_strings (EnvAllowlist p)) (sort_strings (CachePaths p)) (ProfLimits p).

(** [TaskProfile.Digest]. *)
Definition Profile_Digest (p : TaskProfile) : result exec_error gostring :=
  _ ← Profile_Validate p; Ok (hex_encode (sha256 (marshal_profile (canonical p)))).
End digest.

(** ** The administrator's configuration *)

Inductive config_error := BadConfigJson | BadConfigVersion | NoProfiles | BadProfileName | DuplicateProfile | BadProfile (e : exec_error).

Record AdministratorConfig := mkAdministratorConfig { ac_Version : gostring; ac_Profiles : list TaskProfile }.

(** [^[A-Za-z0-9][A-Za-z0-9._-]{0,127}$] *)
Definition opaqueTaskProfile (s : gostring) : bool :=
  let alnum c := word_char c && negb (bool_decide (c = "_"%char)) in
  match s with
  | c :: rest => alnum c && (len rest <=? 127) && forallb (fun c => alnum c || contains_byte "._-" c) rest
  | [] => false
  end.

Fixpoint check_profiles (profiles : list TaskProfile) (seen : gset gostring) : result config_error unit :=
  match profiles with
  | [] => Ok tt
  | p :: rest =>
      reject negb (opaqueTaskProfile (Name p)) with BadProfileName;
      reject bool_decide (Name p ∈ seen) with DuplicateProfile;
      _ ← match Profile_Validate p with Ok u => Ok u | Err e => Err (BadProfile e) end;
      check_profiles rest ({[Name p]} ∪ seen)
  end.

Definition ParseAdministratorConfig `{Json AdministratorConfig} (raw : gostring) : result config_error AdministratorConfig :=
  match decode_strict raw with
  | None => Err BadConfigJson
  | Some config =>
      reject negb (bool_decide (ac_Version config = "v1")) with BadConfigVersion;
      reject bool_decide (ac_Profiles config = []) with NoProfiles;
      _ ← check_profiles (ac_Profiles config) ∅;
      Ok config
  end.

(** A map from names to profiles; a later profile of the same name replaces an earlier one. *)
Definition ProfileMap (config : AdministratorConfig) : gmap gostring TaskProfile :=
  foldl (fun m p => <[Name p := p]> m) ∅ (ac_Profiles config).
