(* ===== verification/ExecCapability.v ===== *)
(** * Capabilities of the exec worker ([internal/execworker/capability.go], [types.go])

    A job of the exec worker carries a signed statement of everything that matters about it:
    who asked, where, under which profile, with which limits and inputs. A supervisor
    accepts each statement once. *)
From S2P Require Import Prelude GoStrings Base64 Utf8 Token Capability ExecProfile.
#[local] Open Scope Z_scope.

(** ** Jobs *)

Record MemoryScan := mkMemoryScan { ms_Pattern : gostring; ms_Mode : gostring; ms_IncludeContext : bool }.
#[export] Instance MemoryScan_eq_dec : EqDecision MemoryScan.
Proof. solve_decision. Defined.

Record ExecJob := mkExecJob {
  xj_Token : gostring; xj_CapabilityID : gostring; xj_Principal : gostring; xj_SessionID : gostring; xj_WorkspaceID : gostring;
  xj_TaskID : gostring; xj_Profile : gostring; xj_Operation : gostring; xj_Limits : Limits; xj_Argv : list gostring;
  xj_Env : list (gostring * gostring); xj_ProcessID : gostring; xj_Signal : gostring; xj_Memory : option MemoryScan
}.

(** ** Responses *)

Record ProcessStatus := mkProcessStatus {
  ps_ProcessID : gostring; ps_State : gostring; ps_StartedAt : gotime; ps_FinishedAt : gotime; ps_ExitCode : Z;
  ps_Signaled : bool; ps_TimedOut : bool
}.
Record MemoryMatch := mkMemoryMatch {
  mm_RegionIndex : Z; mm_Offset : Z; mm_Digest : gostring; mm_Context : gostring; mm_ContextMode : gostring; mm_Sensitive : bool
}.
Record ExecResponse := mkExecResponse {
  xo_CapabilityID : gostring; xo_ProcessID : gostring; xo_Status : option ProcessStatus; xo_Stdout : gostring;
  xo_Stderr : gostring; xo_Truncated : bool; xo_Matches : list MemoryMatch; xo_ScannedBytes : Z; xo_Error : gostring
}.
Definition exec_response (id text : gostring) : ExecResponse := mkExecResponse id [] None [] [] false [] 0 text.

(** ** Capabilities *)

Record CapabilityClaims := mkCapabilityClaims {
  cc_CapabilityID : gostring; cc_Principal : gostring; cc_SessionID : gostring; cc_WorkspaceID : gostring; cc_TaskID : gostring;
  cc_Profile : gostring; cc_ProfileDigest : gostring; cc_Operation : gostring; cc_Limits : Limits; cc_InputDigest : gostring;
  cc_ExpiresAt : gotime; cc_SingleUse : bool
}.
#[export] Instance CapabilityClaims_eq_dec : EqDecision CapabilityClaims.
Proof. solve_decision. Defined.

(** What [JobInputDigest] covers. *)
Record job_input := mkInput {
  in_Argv : list gostring; in_Env : list (gostring * gostring); in_ProcessID : gostring; in_Signal : gostring;
  in_Memory : option MemoryScan
}.
Class InputJson := { marshal_input : job_input -> gostring }.

Definition execTokenVersion : gostring := "exec-v1".
Definition execMaxTokenBytes : Z := Z.shiftl 64 10.
Definition execMaxTokenLifetime : Z := minute.

Inductive exec_cap_error :=
  | ExecBadKey | ExecBadFormat | ExecBadPayload | ExecBadSignature | ExecIncomplete | ExecBadDigest | ExecBadLimits (e : exec_error)
  | ExecBadClaims | ExecBadExpiry | ExecExpired | ExecScopeMismatch | ExecNotSingleUse | ExecAlreadyUsed.

Section capability.
Context `{UnicodeTables} `{Crypto} `{Ed25519} `{Json CapabilityClaims} `{InputJson}.

(** The environment is a map: its names are sorted and looked up. *)
Definition sorted_env (env : list (gostring * gostring)) : list (gostring * gostring) :=
  let m : gmap gostring gostring := list_to_map env in
  (fun name => (name, default [] (m !! name))) <$> sort_strings (elements (dom m)).

Definition input_of (j : ExecJob) : job_input :=
  mkInput (xj_Argv j) (sorted_env (xj_Env j)) (xj_ProcessID j) (xj_Signal j) (xj_Memory j).
Definition JobInputDigest (j : ExecJob) : gostring := hex_encode (sha256 (marshal_input (input_of j))).

Definition validateCapabilityClaims (c : CapabilityClaims) : result exec_cap_error unit :=
  let missing (s : gostring) := bool_decide (s = []) in
  reject missing (cc_CapabilityID c) || missing (cc_Principal c) || missing (cc_SessionID c) || missing (cc_WorkspaceID c) ||
         missing (cc_TaskID c) || missing (cc_Profile c) || missing (cc_Operation c) || (cc_ExpiresAt c =? zero_time)
    with ExecIncomplete;
  reject negb (validSHA256 (cc_ProfileDigest c)) || negb (validSHA256 (cc_InputDigest c)) with ExecBadDigest;
  match Limits_Validate (cc_Limits c) with Ok u => Ok u | Err e => Err (ExecBadLimits e) end.

Definition claims_for (j : ExecJob) (profileDigest : gostring) (expiresAt : gotime) : CapabilityClaims :=
  mkCapabilityClaims (xj_CapabilityID j) (xj_Principal j) (xj_SessionID j) (xj_WorkspaceID j) (xj_TaskID j) (xj_Profile j)
    profileDigest (xj_Operation j) (xj_Limits j) (JobInputDigest j) expiresAt true.

Definition ClaimsForJob (j : ExecJob) (profileDigest : gostring) (expiresAt : gotime) : result exec_cap_error CapabilityClaims :=
  let claims := claims_for j profileDigest expiresAt in
  _ ← validateCapabilityClaims claims; Ok claims.

(** ** Signing *)

Definition NewCapabilitySigner (key : gostring) : result exec_cap_error gostring :=
  reject negb (len key =? 64) with ExecBadKey; Ok key.
Definition NewCapabilitySignerFromSeed (seed : gostring) : result exec_cap_error gostring :=
  reject negb (len seed =? 32) with ExecBadKey; NewCapabilitySigner (ed_from_seed seed).

Definition exec_signed (payload : gostring) : gostring := execTokenVersion ++ "." ++ b64_encode payload.

(** [CapabilitySigner.Sign]. *)
Definition exec_Sign (key : gostring) (c : CapabilityClaims) (now : gotime) : result exec_cap_error gostring :=
  _ ← validateCapabilityClaims c;
  reject negb (after (cc_ExpiresAt c) now) || after (cc_ExpiresAt c) (now + execMaxTokenLifetime) with ExecBadExpiry;
  match marshal c with
  | None => Err ExecBadPayload
  | Some payload => Ok (exec_signed payload ++ "." ++ b64_encode (ed_sign key (exec_signed payload)))
  end.

(** ** Verification *)

(** [ev_used] maps the identifiers that were accepted to the expiry of their token. *)
Record CapabilityVerifier := mkCapabilityVerifier { ev_publicKey : gostring; ev_used : gmap gostring gotime }.

Definition NewCapabilityVerifier (key : gostring) : result exec_cap_error CapabilityVerifier :=
  reject negb (len key =? 32) with ExecBadKey; Ok (mkCapabilityVerifier key ∅).

(** Claims are compared as JSON; what cannot be written is nil. *)
Definition equalClaims (a b : CapabilityClaims) : bool := bool_decide (default [] (marshal a) = default [] (marshal b)).

Definition with_expiry (expected claims : CapabilityClaims) : CapabilityClaims :=
  mkCapabilityClaims (cc_CapabilityID expected) (cc_Principal expected) (cc_SessionID expected) (cc_WorkspaceID expected)
    (cc_TaskID expected) (cc_Profile expected) (cc_ProfileDigest expected) (cc_Operation expected) (cc_Limits expected)
    (cc_InputDigest expected) (cc_ExpiresAt claims) (cc_SingleUse claims).

(** The claims a token carries, when it is authentic. *)
Definition opened (publicKey token : gostring) : result exec_cap_error CapabilityClaims :=
  reject (len token =? 0) || (execMaxTokenBytes <? len token) with ExecBadFormat;
  match split_byte "." token with
  | [version; payload64; signature64] =>
      reject negb (bool_decide (version = execTokenVersion)) with ExecBadFormat;
      match decodeCanonicalBase64 payload64 with
      | None => Err ExecBadPayload
      | Some payload =>
          match decodeCanonicalBase64 signature64 with
          | None => Err ExecBadSignature
          | Some signature =>
              reject negb (len signature =? 64) || negb (ed_verify publicKey (version ++ "." ++ payload64) signature)
                with ExecBadSignature;
              match decode_strict payload with None => Err ExecBadPayload | Some claims => Ok claims end
          end
      end
  | _ => Err ExecBadFormat
  end.

Definition exec_authenticate (publicKey token : gostring) (expected : CapabilityClaims) (now : gotime)
  : result exec_cap_error CapabilityClaims :=
  claims ← opened publicKey token;
  _ ← match validateCapabilityClaims claims with Ok u => Ok u | Err _ => Err ExecBadClaims end;
  reject negb (before now (cc_ExpiresAt claims)) || after (cc_ExpiresAt claims) (now + execMaxTokenLifetime) with ExecExpired;
  reject negb (equalClaims claims (with_expiry expected claims)) with ExecScopeMismatch;
  reject negb (cc_SingleUse claims) with ExecNotSingleUse;
  Ok claims.

(** [CapabilityVerifier.Verify]: expired identifiers are forgotten first. *)
Definition exec_Verify (v : CapabilityVerifier) (token : gostring) (expected : CapabilityClaims) (now : gotime)
  : result exec_cap_error CapabilityClaims * CapabilityVerifier :=
  match exec_authenticate (ev_publicKey v) token expected now with
  | Err e => (Err e, v)
  | Ok claims =>
      let swept := filter (fun kv : gostring * gotime => before now kv.2 = true) (ev_used v) in
      if bool_decide (is_Some (swept !! cc_CapabilityID claims))
      then (Err ExecAlreadyUsed, mkCapabilityVerifier (ev_publicKey v) swept)
      else (Ok claims, mkCapabilityVerifier (ev_publicKey v) (<[cc_CapabilityID claims := cc_ExpiresAt claims]> swept))
  end.

(** ** What the checks mean *)

Definition exec_token (payload signature : gostring) : gostring := exec_signed payload ++ "." ++ b64_encode signature.

Lemma split_exec_token payload signature :
  split_byte "." (exec_token payload signature) = [execTokenVersion; b64_encode payload; b64_encode signature].
Proof.
  unfold exec_token, exec_signed. rewrite <- !app_assoc. cbn [app].
  rewrite split_byte_cons_sep by (unfold execTokenVersion; set_solver).
  rewrite split_byte_cons_sep by apply b64_encode_no_dot.
  by rewrite split_byte_app_no_sep by apply b64_encode_no_dot.
Qed.

(** The token is the signed JSON of the claims. *)
Definition carries (publicKey token : gostring) (c : CapabilityClaims) : Prop :=
  exists payload signature, token = exec_token payload signature /\ length signature = 64%nat /\
    ed_verify publicKey (exec_signed payload) signature = true /\ decode_strict payload = Some c /\ len token <= execMaxTokenBytes.

Lemma opened_Ok publicKey token c : opened publicKey token = Ok c <-> carries publicKey token c.
Proof.
  unfold opened, carries. rewrite guard_Ok, orb_false_iff, Z.eqb_neq, Z.ltb_ge. split.
  - intros ((_ & Hlen) & Ha). destruct (split_byte "." token) as [|v [|p [|s [|]]]] eqn:Hs; try done.
    apply guard_Ok in Ha as [Hv%negb_false_iff%bool_decide_eq_true Ha]. subst v.
    destruct (decodeCanonicalBase64 p) as [payload|] eqn:Hp; [|done].
    destruct (decodeCanonicalBase64 s) as [signature|] eqn:Hg; [|done].
    apply decodeCanonicalBase64_Some in Hp as ->. apply decodeCanonicalBase64_Some in Hg as ->.
    apply guard_Ok in Ha as [[Hl%negb_false_iff%Z.eqb_eq He%negb_false_iff]%orb_false_iff Ha].
    destruct (decode_strict payload) as [c'|] eqn:Hd; [|done]. injection Ha as <-. exists payload, signature.
    split; [by apply split_three in Hs; rewrite Hs|]. split; [unfold len in Hl; lia|]. done.
  - intros (payload & signature & -> & Hl & He & Hd & Hlen). split.
    { split; [|done]. unfold exec_token, exec_signed. rewrite !len_app. unfold len. cbn. lia. }
    rewrite split_exec_token, bool_decide_eq_true_2, !decodeCanonicalBase64_encode by done. cbn [negb guard_err].
    unfold len. rewrite Hl. unfold exec_signed in He. rewrite He. cbn [Z.of_nat negb orb]. by rewrite Hd.
Qed.

(** What makes claims acceptable for a job: they are those of the token, valid, fresh, for
    one use, and equal as JSON to the claims expected for the job. *)
Record exec_acceptable (publicKey token : gostring) (expected : CapabilityClaims) (now : gotime) (c : CapabilityClaims) : Prop := {
  ea_carries : carries publicKey token c;
  ea_valid : validateCapabilityClaims c = Ok tt;
  ea_fresh : now < cc_ExpiresAt c <= now + execMaxTokenLifetime;
  ea_scope : equalClaims c (with_expiry expected c) = true;
  ea_single : cc_SingleUse c = true
}.

Lemma exec_authenticate_Ok publicKey token expected now c :
  exec_authenticate publicKey token expected now = Ok c <-> exec_acceptable publicKey token expected now c.
Proof.
  unfold exec_authenticate. rewrite bind_Ok. split.
  - intros (c0 & Ho & Hx). apply bind_Ok in Hx as ([] & Hv & Hx). rewrite !guard_Ok in Hx. destruct Hx as (Ht & Hs & Hu & [= <-]).
    apply orb_false_iff in Ht as [Ht1 Ht2]. unfold before, after in *. rewrite negb_false_iff in *.
    apply Z.ltb_lt in Ht1. apply Z.ltb_ge in Ht2. apply opened_Ok in Ho.
    split; [done| |lia|done|done]. by destruct (validateCapabilityClaims c0) as [[]|].
  - intros [Ho Hv Ht Hs Hu]. exists c. split; [by apply opened_Ok|]. rewrite Hv. cbn [mbind result_bind].
    unfold before, after. rewrite (proj2 (Z.ltb_lt _ _)), (proj2 (Z.ltb_ge _ _)), Hs, Hu by lia. done.
Qed.

Lemma lookup_swept (m : gmap gostring gotime) now id e :
  filter (fun kv : gostring * gotime => before now kv.2 = true) m !! id = Some e <-> m !! id = Some e /\ now < e.
Proof. rewrite map_lookup_filter_Some. unfold before. cbn. by rewrite Z.ltb_lt. Qed.

Lemma exec_Verify_Ok v token expected now c v' :
  exec_Verify v token expected now = (Ok c, v') ->
  exec_acceptable (ev_publicKey v) token expected now c /\ ev_publicKey v' = ev_publicKey v /\
  (forall e, ev_used v !! cc_CapabilityID c = Some e -> e <= now) /\ ev_used v' !! cc_CapabilityID c = Some (cc_ExpiresAt c).
Proof.
  unfold exec_Verify. destruct (exec_authenticate _ _ _ _) as [c0|] eqn:Ha; [|done]. apply exec_authenticate_Ok in Ha. cbv zeta.
  case_bool_decide as Hu; [done|]. intros [= -> <-]. split; [done|]. split; [done|]. split; [|apply lookup_insert_eq].
  intros e He. apply Z.nlt_ge. intros Hlt. apply Hu. exists e. by apply lookup_swept.
Qed.

(** ** What is signed is accepted *)

Lemma exec_Sign_Ok key c now token :
  exec_Sign key c now = Ok token <->
  validateCapabilityClaims c = Ok tt /\ now < cc_ExpiresAt c <= now + execMaxTokenLifetime /\
  exists payload, marshal c = Some payload /\ token = exec_token payload (ed_sign key (exec_signed payload)).
Proof.
  unfold exec_Sign. destruct (validateCapabilityClaims c) as [[]|]; [|naive_solver]. cbn [mbind result_bind].
  rewrite guard_Ok, orb_false_iff, negb_false_iff. unfold after, exec_token. rewrite Z.ltb_lt, Z.ltb_ge.
  destruct (marshal c) as [payload|]; [|naive_solver]. split.
  - intros (? & [= <-]). split; [done|]. split; [lia|]. by exists payload.
  - intros (_ & ? & (p & [= <-] & ->)). split; [lia|done].
Qed.

Definition exec_claims_text (c : CapabilityClaims) : Prop :=
  Forall (fun s => utf8_valid s = true)
    [cc_CapabilityID c; cc_Principal c; cc_SessionID c; cc_WorkspaceID c; cc_TaskID c; cc_Profile c; cc_ProfileDigest c;
     cc_Operation c; cc_InputDigest c].

(** Claims are accepted wherever they are expected up to their expiry. *)
Lemma exec_Sign_acceptable `{!Ed25519Laws} `{!JsonLaws CapabilityClaims exec_claims_text} seed key c expected t0 now token :
  NewCapabilitySignerFromSeed seed = Ok key -> exec_Sign key c t0 = Ok token -> with_expiry expected c = c ->
  cc_SingleUse c = true -> exec_claims_text c -> len token <= execMaxTokenBytes -> t0 <= now < cc_ExpiresAt c ->
  exec_acceptable (ed_public key) token expected now c.
Proof using Type*.
  unfold NewCapabilitySignerFromSeed, NewCapabilitySigner. intros [Hseed%negb_false_iff%Z.eqb_eq Hk]%guard_Ok HS He Hs Ht Hl Hn.
  apply guard_Ok in Hk as [_ [= <-]]. assert (length seed = 32%nat) as Hlen by (unfold len in Hseed; lia).
  apply exec_Sign_Ok in HS as (Hv & Hx & payload & Hm & ->).
  split; [|done|lia| |done]; [|by unfold equalClaims; rewrite He, bool_decide_eq_true].
  exists payload, (ed_sign (ed_from_seed seed) (exec_signed payload)). split; [done|]. split; [by apply ed_sign_length, ed_seed_length|].
  split; [by apply ed_verify_sign|]. split; [by eapply decode_marshal|done].
Qed.

(** ** Once *)

(** The identifier cannot be accepted with that expiry from that time on. *)
Definition closed_for (id : gostring) (e t : gotime) (v : CapabilityVerifier) : Prop := ev_used v !! id = Some e \/ e <= t.

Lemma exec_Verify_closed v token expected now r v' id e t :
  closed_for id e t v -> t <= now -> exec_Verify v token expected now = (r, v') -> closed_for id e now v'.
Proof.
  intros [Hu|He] Ht; [|right; lia]. destruct (decide (e <= now)) as [?|Hne]; [by right|].
  assert (Hs : filter (fun kv : gostring * gotime => before now kv.2 = true) (ev_used v) !! id = Some e) by (apply lookup_swept; split; [done|lia]).
  unfold exec_Verify. destruct (exec_authenticate _ _ _ _) as [c|]; [|intros [= _ <-]; by left].
  cbv zeta. case_bool_decide as Hb; intros [= _ <-]; left; [done|]. cbn [ev_used].
  rewrite lookup_insert_ne; [done|]. intros E. apply Hb. rewrite E. by eexists.
Qed.

Definition attempt : Type := gostring * CapabilityClaims * gotime.

(** Attempts one after the other; the tokens that were accepted. *)
Fixpoint accepted_tokens (attempts : list attempt) (v : CapabilityVerifier) : list gostring :=
  match attempts with
  | [] => []
  | (token, expected, now) :: rest =>
      match exec_Verify v token expected now with
      | (Ok _, v) => token :: accepted_tokens rest v
      | (Err _, v) => accepted_tokens rest v
      end
  end.

Lemma exec_Verify_publicKey v token expected now : ev_publicKey (exec_Verify v token expected now).2 = ev_publicKey v.
Proof. unfold exec_Verify. destruct (exec_authenticate _ _ _ _); [|done]. cbv zeta. by case_bool_decide. Qed.

Lemma closed_never attempts v token c t :
  carries (ev_publicKey v) token c -> closed_for (cc_CapabilityID c) (cc_ExpiresAt c) t v ->
  Forall (fun a : attempt => t <= a.2) attempts -> StronglySorted (fun a b : attempt => a.2 <= b.2) attempts ->
  token ∉ accepted_tokens attempts v.
Proof.
  revert v t. induction attempts as [|[[token' expected] now] rest IH]; intros v t Hc Hcl Hge Hs; cbn [accepted_tokens]; [set_solver|].
  apply Forall_cons in Hge as [Hnow Hge]. apply StronglySorted_inv in Hs as [Hs Hall]. cbn in Hnow.
  destruct (exec_Verify v token' expected now) as [r v'] eqn:E. pose proof (exec_Verify_publicKey v token' expected now) as Hk.
  rewrite E in Hk. cbn in Hk. pose proof (exec_Verify_closed _ _ _ _ _ _ _ _ _ Hcl Hnow E) as Hcl'.
  assert (Hrest : token ∉ accepted_tokens rest v') by (apply (IH v' now); rewrite ?Hk; done).
  destruct r as [c'|]; [|done]. intros [->|Hin]%elem_of_cons; [|done].
  apply exec_Verify_Ok in E as ([Hc' _ Hf _ _] & _ & Hno & _).
  assert (c' = c) as ->.
  { apply opened_Ok in Hc, Hc'. congruence. }
  destruct Hcl as [Hu|He]; [specialize (Hno _ Hu); lia|lia].
Qed.

(** No token is accepted twice by a supervisor, whatever jobs it comes with and however
    many identifiers expire and are forgotten in between, as long as its clock does not go
    back. *)
Theorem exec_Verify_once attempts v :
  StronglySorted (fun a b : attempt => a.2 <= b.2) attempts -> NoDup (accepted_tokens attempts v).
Proof.
  revert v. induction attempts as [|[[token expected] now] rest IH]; intros v Hs; cbn [accepted_tokens]; [constructor|].
  apply StronglySorted_inv in Hs as [Hs Hall]. destruct (exec_Verify v token expected now) as [[c|] v'] eqn:E; [|by apply IH].
  constructor; [|by apply IH]. pose proof (exec_Verify_Ok _ _ _ _ _ _ E) as ([Hc _ _ _ _] & Hk & _ & Hu).
  apply (closed_never rest v' token c now); [by rewrite Hk|by left|by cbn in Hall|done].
Qed.
End capability.
