(* ===== verification/ExecServer.v ===== *)
(** * The exec supervisor and the child it starts
    ([internal/execworker/server.go], [child_linux.go], [client.go])

    [handle] is the whole path of a request up to the point where it may touch processes:
    the cookie, the profile, the workspace, the shape of the job, the capability. What an
    accepted job may launch is [launch_spec]; the child checks it again before it replaces
    itself by the program of the profile. What happens to the processes is in ExecTable. *)
From S2P Require Import Prelude GoStrings GoPath Base64 Token Capability ExecProfile ExecCapability.
#[local] Open Scope Z_scope.

Definition OperationExecRun : gostring := "exec_run".
Definition OperationProcessStart : gostring := "process_start".
Definition OperationProcessStatus : gostring := "process_status".
Definition OperationProcessStop : gostring := "process_stop".
Definition OperationDebugStatus : gostring := "debug_status".
Definition OperationDebugSignal : gostring := "debug_signal".
Definition OperationMemScan : gostring := "mem_scan".
Definition OperationSessionRevoke : gostring := "session_revoke".
Definition MemoryHex : gostring := "hex".
Definition MemoryBase64 : gostring := "base64".

(** ** The shape of a job *)

Definition allowedDebugSignal (value : gostring) : bool :=
  bool_decide (value ∈ (["stop"; "continue"; "interrupt"; "terminate"] : list gostring)).

Definition empty_field (s : gostring) : bool := bool_decide (s = []).

Definition is_launch (operation : gostring) : bool := bool_decide (operation = OperationExecRun) || bool_decide (operation = OperationProcessStart).

Definition no_memory (j : ExecJob) : bool := match xj_Memory j with None => true | Some _ => false end.
Definition has_launch_input (j : ExecJob) : bool := negb (len (xj_Argv j) =? 0) || negb (len (xj_Env j) =? 0).

(** The fields that each operation takes. *)
Definition operation_fields (j : ExecJob) : result gostring unit :=
  let op := xj_Operation j in
  if is_launch op then
    reject negb (empty_field (xj_ProcessID j)) || negb (empty_field (xj_Signal j)) || negb (no_memory j)
      with "launch job contains unrelated fields" : gostring; Ok tt
  else if decide (op ∈ [OperationProcessStatus; OperationProcessStop; OperationDebugStatus]) then
    reject empty_field (xj_ProcessID j) || has_launch_input j || negb (empty_field (xj_Signal j)) || negb (no_memory j)
      with "process job fields are invalid" : gostring; Ok tt
  else if decide (op = OperationDebugSignal) then
    reject empty_field (xj_ProcessID j) || has_launch_input j || negb (no_memory j) || negb (allowedDebugSignal (xj_Signal j))
      with "debug signal job is invalid" : gostring; Ok tt
  else if decide (op = OperationMemScan) then
    reject empty_field (xj_ProcessID j) || has_launch_input j || negb (empty_field (xj_Signal j)) ||
           match xj_Memory j with
           | None => true
           | Some m => negb (bool_decide (ms_Mode m = MemoryHex)) && negb (bool_decide (ms_Mode m = MemoryBase64))
           end with "memory scan job is invalid" : gostring;
    reject (ScanRegions (xj_Limits j) <=? 0) || (ScanBytes (xj_Limits j) <=? 0) || (ScanResults (xj_Limits j) <=? 0)
      with "memory scan requires positive signed scan limits" : gostring; Ok tt
  else if decide (op = OperationSessionRevoke) then
    reject negb (empty_field (xj_ProcessID j)) || has_launch_input j || negb (empty_field (xj_Signal j)) || negb (no_memory j)
      with "session revoke job contains unrelated fields" : gostring; Ok tt
  else Err ("exec operation is not supported" : gostring).

Definition validateJob (j : ExecJob) (p : TaskProfile) : result gostring unit :=
  reject empty_field (xj_Token j) || empty_field (xj_CapabilityID j) || empty_field (xj_Principal j) || empty_field (xj_SessionID j) ||
         empty_field (xj_WorkspaceID j) || empty_field (xj_TaskID j) || empty_field (xj_Profile j)
    with "exec job scope is incomplete" : gostring;
  reject negb (bool_decide (xj_Profile j = Name p)) || negb (Within (xj_Limits j) (ProfLimits p))
    with "exec job exceeds task profile" : gostring;
  reject negb (is_ok (Limits_Validate (xj_Limits j))) with "exec job limits are invalid" : gostring;
  reject existsb has_NUL (xj_Argv j) with "exec argv contains NUL" : gostring;
  reject negb (AllowsArgv p (xj_Argv j)) || negb (AllowsEnv p (xj_Env j))
    with "exec argv or environment is not allowed by task profile" : gostring;
  operation_fields j.

(** ** The supervisor *)

Record configuredProfile := mkConfigured { cp_profile : TaskProfile; cp_digest : gostring }.

Record Supervisor := mkSupervisor {
  sv_cookie : gostring; sv_caps : CapabilityVerifier; sv_profiles : gmap gostring configuredProfile; sv_roots : gmap gostring gostring
}.
Definition with_caps (s : Supervisor) (caps : CapabilityVerifier) : Supervisor :=
  mkSupervisor (sv_cookie s) caps (sv_profiles s) (sv_roots s).

Record ExecRequest := mkExecRequest { xr_Cookie : gostring; xr_Job : ExecJob }.

(** What [Verify] says. *)
Definition cap_error_text (e : exec_cap_error) : gostring :=
  match e with
  | ExecBadFormat => "invalid exec capability format"
  | ExecBadPayload => "invalid exec capability payload"
  | ExecBadSignature => "invalid exec capability signature"
  | ExecBadClaims => "invalid exec capability claims"
  | ExecExpired => "exec capability expired or lifetime is invalid"
  | ExecScopeMismatch => "exec capability scope mismatch"
  | ExecNotSingleUse => "exec capability must be single-use"
  | ExecAlreadyUsed => "exec capability already used"
  | ExecIncomplete => "exec capability claims are incomplete"
  | ExecBadDigest => "exec capability digest is invalid"
  | ExecBadExpiry => "exec capability expiry is invalid"
  | ExecBadKey | ExecBadLimits _ => []
  end.

(** A request is answered at once, or its job goes on to the processes with the profile and
    the root it may use. *)
Inductive verdict :=
  | Answer (r : ExecResponse)
  | Admit (j : ExecJob) (profile : TaskProfile) (root : gostring).

(** [filepath.EvalSymlinks] and [os.Stat] of the configured roots, and whether the backend
    of the platform starts. *)
Class Host := {
  eval_symlinks : gostring -> option gostring;
  is_directory : gostring -> bool;
  backend_ready : bool
}.

Inductive supervisor_error :=
  | NeedPaths | BadCookie | BadKey (e : exec_cap_error) | ProfileKey | ConfiguredProfile (e : exec_error) | NoProfile
  | BadWorkspace | WorkspaceUnavailable | WorkspaceNotDirectory | NoWorkspace | BackendFailed.

Section supervisor.
Context `{UnicodeTables} `{Crypto} `{Ed25519} `{Json CapabilityClaims} `{InputJson} `{ProfileJson}.

(** A configuration is a map; whichever of its faults is met first is reported. *)
Fixpoint configure_profiles (profiles : list (gostring * TaskProfile)) : result supervisor_error (list (gostring * configuredProfile)) :=
  match profiles with
  | [] => Ok []
  | (key, p) :: rest =>
      reject empty_field key || negb (bool_decide (key = Name p)) with ProfileKey;
      match Profile_Digest p with
      | Err e => Err (ConfiguredProfile e)
      | Ok digest => configured ← configure_profiles rest; Ok ((key, mkConfigured p digest) :: configured)
      end
  end.

Fixpoint configure_roots `{Host} (workspaces : list (gostring * gostring)) : result supervisor_error (list (gostring * gostring)) :=
  match workspaces with
  | [] => Ok []
  | (id, root) :: rest =>
      reject empty_field id || has_NUL id || negb (is_rooted root) with BadWorkspace;
      match eval_symlinks root with
      | None => Err WorkspaceUnavailable
      | Some canonical =>
          reject negb (is_directory canonical) with WorkspaceNotDirectory;
          roots ← configure_roots rest; Ok ((id, canonical) :: roots)
      end
  end.

Definition cookie_ok (cookie : gostring) : bool :=
  match decodeCanonicalBase64 cookie with Some raw => len raw =? 32 | None => false end.

Definition NewSupervisor `{Host} (socketPath workerBinary cookie publicKey : gostring)
    (profiles : gmap gostring TaskProfile) (workspaces : gmap gostring gostring) : result supervisor_error Supervisor :=
  reject negb (is_rooted socketPath) || empty_field workerBinary || negb (is_rooted workerBinary) with NeedPaths;
  reject negb (cookie_ok cookie) with BadCookie;
  match NewCapabilityVerifier publicKey with
  | Err e => Err (BadKey e)
  | Ok caps =>
      configured ← configure_profiles (map_to_list profiles);
      reject bool_decide (profiles = ∅) with NoProfile;
      roots ← configure_roots (map_to_list workspaces);
      reject bool_decide (workspaces = ∅) with NoWorkspace;
      reject negb backend_ready with BackendFailed;
      Ok (mkSupervisor cookie caps (list_to_map configured) (list_to_map roots))
  end.

(** [jobExpiryPlaceholder]: [time.Unix(1, 0)]. *)
Definition jobExpiryPlaceholder : gotime := second.

Definition handle (request : ExecRequest) (now : gotime) (s : Supervisor) : verdict * Supervisor :=
  let j := xr_Job request in
  let no text := (Answer (exec_response (xj_CapabilityID j) text), s) in
  if negb (bool_decide (xr_Cookie request = sv_cookie s)) then no ("exec supervisor authentication rejected" : gostring)
  else
    match sv_profiles s !! xj_Profile j with
    | None => no ("task profile is not configured" : gostring)
    | Some configured =>
        match sv_roots s !! xj_WorkspaceID j with
        | None => no ("workspace is not configured" : gostring)
        | Some root =>
            match validateJob j (cp_profile configured) with
            | Err text => no text
            | Ok _ =>
                match ClaimsForJob j (cp_digest configured) jobExpiryPlaceholder with
                | Err _ => no ("invalid exec capability scope" : gostring)
                | Ok expected =>
                    match exec_Verify (sv_caps s) (xj_Token j) expected now with
                    | (Err e, caps) =>
                        (Answer (exec_response (xj_CapabilityID j) ("exec capability rejected: " ++ cap_error_text e)), with_caps s caps)
                    | (Ok _, caps) => (Admit j (cp_profile configured) root, with_caps s caps)
                    end
                end
            end
        end
    end.
End supervisor.

(** ** What is launched *)

Record childSpec := mkChildSpec {
  cs_Executable : gostring; cs_Argv : list gostring; cs_Env : list (gostring * gostring); cs_Workspace : gostring;
  cs_WorkspaceMode : gostring; cs_CachePaths : list gostring; cs_Limits : Limits; cs_Production : bool
}.

(** [launch] writes this to the child. *)
Definition launch_spec (production : bool) (j : ExecJob) (p : TaskProfile) (root : gostring) : childSpec :=
  mkChildSpec (Executable p) (FixedArgv p ++ xj_Argv j) (xj_Env j) root (ExecProfile.WorkspaceMode p) (CachePaths p) (xj_Limits j) production.

Inductive child_error := ChildPaths | ChildLimits | ChildMode | ChildCachePath | ChildArgv | ChildEnv.

Definition validateChildSpec (spec : childSpec) : result child_error unit :=
  reject negb (is_rooted (cs_Executable spec)) || negb (is_rooted (cs_Workspace spec)) || has_NUL (cs_Executable spec) ||
         has_NUL (cs_Workspace spec) with ChildPaths;
  reject negb (is_ok (Limits_Validate (cs_Limits spec))) with ChildLimits;
  reject negb (bool_decide (cs_WorkspaceMode spec ∈ [WorkspaceNone; WorkspaceReadOnly; WorkspaceReadWrite])) with ChildMode;
  reject existsb (fun c => negb (is_ok (validateCachePath c))) (cs_CachePaths spec) with ChildCachePath;
  reject existsb has_NUL (cs_Argv spec) with ChildArgv;
  reject existsb (fun '(name, value) => negb (envNamePattern name) || has_NUL value) (cs_Env spec) with ChildEnv;
  Ok tt.

(** The arguments of the final [exec]: the program, its arguments from the program name on,
    and the environment sorted by name. *)
Definition exec_arguments (spec : childSpec) : gostring * list gostring * list gostring :=
  (cs_Executable spec, cs_Executable spec :: cs_Argv spec,
   (fun kv : gostring * gostring => kv.1 ++ "=" ++ kv.2) <$> sorted_env (cs_Env spec)).

(** The working directory that it has. *)
Definition child_directory (spec : childSpec) : gostring :=
  if decide (cs_WorkspaceMode spec = WorkspaceNone) then [SLASH] else cs_Workspace spec.

(** ** The client *)

Definition execClientTimeout (configured : Z) (j : ExecJob) : Z :=
  let configured := if configured <=? 0 then 30 * second else configured in
  if negb (bool_decide (xj_Operation j = OperationExecRun)) || (TimeoutMillis (xj_Limits j) <=? 0) then configured
  else
    let taskTimeout := TimeoutMillis (xj_Limits j) * (second / 1000) + 5 * second in
    if configured <? taskTimeout then taskTimeout else configured.

Inductive client_error := NotConfigured | Transport | IdentityMismatch | Reported (text : gostring).

(** [Client.Do]; [exchange] sends the request over the socket and yields the response,
    unless the connection fails. *)
Definition client_Do (socketPath cookie : gostring) (exchange : ExecRequest -> option ExecResponse) (j : ExecJob)
  : ExecResponse * option client_error :=
  if empty_field socketPath || empty_field cookie then (exec_response [] [], Some NotConfigured)
  else
    match exchange (mkExecRequest cookie j) with
    | None => (exec_response [] [], Some Transport)
    | Some response =>
        if negb (bool_decide (xo_CapabilityID response = xj_CapabilityID j)) then (response, Some IdentityMismatch)
        else if negb (empty_field (xo_Error response)) then (response, Some (Reported (xo_Error response)))
        else (response, None)
    end.

(** ** What an admitted job may do *)

Lemma sublist_StronglySorted {A} (R : relation A) l k : l `sublist_of` k -> StronglySorted R k -> StronglySorted R l.
Proof.
  induction 1 as [|x l k Hs IH|x l k Hs IH]; [done| |]; intros [Hk Hx]%StronglySorted_inv; [|by apply IH].
  constructor; [by apply IH|]. rewrite Forall_forall in *. intros y Hy. apply Hx. by eapply elem_of_sublist.
Qed.

Lemma hasStringPrefix_spec value prefix : hasStringPrefix value prefix = true <-> prefix `prefix_of` value.
Proof.
  revert value. induction prefix as [|p prefix IH]; intros value; cbn; [split; [intros _; apply prefix_nil|by destruct value]|].
  destruct value as [|v value]; [split; [done|by intros ?%prefix_nil_not]|].
  change (bool_decide (v = p) && hasStringPrefix value prefix = true <-> p :: prefix `prefix_of` v :: value).
  rewrite andb_true_iff, IH, bool_decide_eq_true. split; [intros [-> ?]; by apply prefix_cons|].
  intros Hp. split; [symmetry; by apply prefix_cons_inv_1 in Hp|by eapply prefix_cons_inv_2].
Qed.

Lemma AllowsArgv_spec p argv :
  AllowsArgv p argv = true <-> argv = [] \/ exists prefix, prefix ∈ AllowedArgvPrefixes p /\ prefix `prefix_of` argv.
Proof.
  unfold AllowsArgv. rewrite orb_true_iff, bool_decide_eq_true, existsb_exists.
  setoid_rewrite hasStringPrefix_spec. by setoid_rewrite <- list_elem_of_In.
Qed.

Lemma AllowsEnv_spec p env :
  AllowsEnv p env = true <->
  forall name value, (name, value) ∈ env -> name ∈ EnvAllowlist p /\ envNamePattern name = true /\ has_NUL value = false.
Proof.
  unfold AllowsEnv. rewrite forallb_Forall, Forall_forall. split.
  - intros Ha name value Hin. specialize (Ha _ Hin). cbn in Ha. rewrite !andb_true_iff, negb_true_iff, bool_decide_eq_true in Ha. tauto.
  - intros Ha [name value] Hin. destruct (Ha _ _ Hin) as (? & -> & ->). cbn. by rewrite bool_decide_eq_true_2.
Qed.

Lemma StronglySorted_fmap {A B} (f : A -> B) (R : relation B) l :
  StronglySorted R (f <$> l) <-> StronglySorted (fun a b => R (f a) (f b)) l.
Proof.
  induction l as [|a l IH]; [split; constructor|]. rewrite fmap_cons. split; intros [Hs Hx]%StronglySorted_inv; constructor.
  1, 3: by apply IH. all: by apply Forall_fmap.
Qed.

(** The part of the checks that concerns what runs: the limits, the arguments and the
    environment stay within the profile. *)
Record job_allowed (j : ExecJob) (p : TaskProfile) : Prop := {
  ja_profile : xj_Profile j = Name p;
  ja_within : Within (xj_Limits j) (ProfLimits p) = true;
  ja_limits : Limits_Validate (xj_Limits j) = Ok tt;
  ja_text : existsb has_NUL (xj_Argv j) = false;
  ja_argv : xj_Argv j = [] \/ exists prefix, prefix ∈ AllowedArgvPrefixes p /\ prefix `prefix_of` xj_Argv j;
  ja_env : forall name value, (name, value) ∈ xj_Env j -> name ∈ EnvAllowlist p /\ envNamePattern name = true /\ has_NUL value = false;
  ja_fields : operation_fields j = Ok tt
}.

Lemma is_ok_unit {E} (r : result E unit) : is_ok r = true <-> r = Ok tt.
Proof. destruct r as [[]|]; cbn; naive_solver. Qed.

Lemma validateJob_allowed j p : validateJob j p = Ok tt -> job_allowed j p.
Proof.
  unfold validateJob. rewrite !guard_Ok, !orb_false_iff, !negb_false_iff, bool_decide_eq_true, is_ok_unit, AllowsArgv_spec, AllowsEnv_spec.
  intros (_ & [? ?] & ? & ? & [? ?] & ?). by split.
Qed.

Section admission.
Context `{UnicodeTables} `{Crypto} `{Ed25519} `{Json CapabilityClaims} `{InputJson} `{ProfileJson}.

(** The request gets as far as its capability, which is checked against these claims. *)
Definition presents (s : Supervisor) (request : ExecRequest) (p : TaskProfile) (root : gostring) (expected : CapabilityClaims) : Prop :=
  let j := xr_Job request in
  xr_Cookie request = sv_cookie s /\ sv_roots s !! xj_WorkspaceID j = Some root /\ validateJob j p = Ok tt /\
  exists digest, sv_profiles s !! xj_Profile j = Some (mkConfigured p digest) /\ ClaimsForJob j digest jobExpiryPlaceholder = Ok expected.

Ltac refuse := eexists; split; [reflexivity|]; intros ? ? ? (? & ? & ? & ? & ? & ?); congruence.

Lemma handle_cases request now s :
  (exists text, handle request now s = (Answer (exec_response (xj_CapabilityID (xr_Job request)) text), s) /\
     forall p root expected, ~ presents s request p root expected) \/
  (exists p root expected, presents s request p root expected /\
     handle request now s =
       let '(r, caps) := exec_Verify (sv_caps s) (xj_Token (xr_Job request)) expected now in
       (match r with
        | Err e => Answer (exec_response (xj_CapabilityID (xr_Job request)) ("exec capability rejected: " ++ cap_error_text e))
        | Ok _ => Admit (xr_Job request) p root
        end, with_caps s caps)).
Proof.
  unfold handle, presents. destruct (bool_decide _) eqn:Hc; cbn [negb].
  2:{ apply bool_decide_eq_false in Hc. left. refuse. }
  apply bool_decide_eq_true in Hc. destruct (sv_profiles s !! _) as [[p digest]|] eqn:Hp; [|left; refuse].
  destruct (sv_roots s !! _) as [root|] eqn:Hr; [|left; refuse]. cbn [cp_profile cp_digest].
  destruct (validateJob (xr_Job request) p) as [[]|] eqn:Hv; [|left; refuse].
  destruct (ClaimsForJob (xr_Job request) digest jobExpiryPlaceholder) as [expected|] eqn:He; [|left; refuse].
  right. exists p, root, expected. split; [naive_solver|]. by destruct (exec_Verify _ _ _ _) as [[]].
Qed.

Lemma handle_config request now s :
  sv_cookie (handle request now s).2 = sv_cookie s /\ sv_profiles (handle request now s).2 = sv_profiles s /\
  sv_roots (handle request now s).2 = sv_roots s /\ ev_publicKey (sv_caps (handle request now s).2) = ev_publicKey (sv_caps s).
Proof.
  destruct (handle_cases request now s) as [(text & -> & _)|(p & root & expected & _ & ->)]; [done|].
  pose proof (exec_Verify_publicKey (sv_caps s) (xj_Token (xr_Job request)) expected now) as Hk. by destruct (exec_Verify _ _ _ _).
Qed.

(** A request is admitted only with the cookie of the supervisor, for a configured profile
    and workspace, a job that the profile allows, and a capability that is signed with the
    gateway's key, fresh, unspent and made out for exactly this job; and then it is spent. *)
Lemma handle_admits request now s j p root s' :
  handle request now s = (Admit j p root, s') ->
  j = xr_Job request /\ xr_Cookie request = sv_cookie s /\ sv_roots s !! xj_WorkspaceID j = Some root /\ job_allowed j p /\
  exists digest claims,
    sv_profiles s !! xj_Profile j = Some (mkConfigured p digest) /\
    exec_acceptable (ev_publicKey (sv_caps s)) (xj_Token j) (claims_for j digest jobExpiryPlaceholder) now claims /\
    (forall e, ev_used (sv_caps s) !! cc_CapabilityID claims = Some e -> e <= now) /\
    ev_used (sv_caps s') !! cc_CapabilityID claims = Some (cc_ExpiresAt claims).
Proof.
  destruct (handle_cases request now s) as [(text & -> & _)|(p' & root' & expected & (Hc & Hr & Hv & digest & Hp & He) & ->)]; [done|].
  destruct (exec_Verify _ _ _ _) as [[claims|] caps] eqn:E; [|done]. intros [= <- <- <- <-].
  apply exec_Verify_Ok in E as (Ha & _ & Hn & Hu). apply validateJob_allowed in Hv. do 4 (split; [done|]).
  unfold ClaimsForJob in He. inv_ok. exists digest, claims. done.
Qed.

(** ** A supervisor over time *)

Definition timed_request : Type := ExecRequest * gotime.

(** Requests one after the other, as the mutex of the verifier orders them. *)
Fixpoint serve (requests : list timed_request) (s : Supervisor) : list verdict * Supervisor :=
  match requests with
  | [] => ([], s)
  | (request, now) :: rest =>
      let '(v, s) := handle request now s in
      let '(vs, s) := serve rest s in (v :: vs, s)
  end.

Definition admitted (vs : list verdict) : list ExecJob :=
  omap (fun v => match v with Admit j _ _ => Some j | Answer _ => None end) vs.

(** The tokens of the jobs it admits are accepted by one verifier. *)
Lemma serve_tokens requests s :
  exists attempts, attempts.*2 `sublist_of` requests.*2 /\ xj_Token <$> admitted (serve requests s).1 = accepted_tokens attempts (sv_caps s).
Proof.
  revert s. induction requests as [|[request now] rest IH]; intros s; [by exists []|]. cbn [serve].
  destruct (handle_cases request now s) as [(text & -> & _)|(p & root & expected & _ & ->)].
  - destruct (IH s) as (attempts & Hs & Ht). destruct (serve rest s) as [vs s']. exists attempts. split; [by apply sublist_cons|done].
  - destruct (exec_Verify _ _ _ _) as [r caps] eqn:E. destruct (IH (with_caps s caps)) as (attempts & Hs & Ht).
    destruct (serve rest (with_caps s caps)) as [vs s']. exists ((xj_Token (xr_Job request), expected, now) :: attempts).
    split; [by apply sublist_skip|]. cbn [accepted_tokens]. rewrite E. destruct r; cbn in Ht |- *; by rewrite <- Ht.
Qed.

(** No token is admitted twice by a supervisor, as long as its clock does not go back:
    forgetting the identifiers of expired tokens loses nothing. *)
Theorem served_once requests s :
  StronglySorted Z.le requests.*2 -> NoDup (xj_Token <$> admitted (serve requests s).1).
Proof.
  intros Hs. destruct (serve_tokens requests s) as (attempts & Hsub & ->). apply exec_Verify_once.
  assert (Ha : StronglySorted Z.le attempts.*2) by (by eapply sublist_StronglySorted).
  exact (proj1 (StronglySorted_fmap snd Z.le attempts) Ha).
Qed.
End admission.

(** ** From the configuration to the child *)

(** An absolute path without NUL resolves to one. *)
Class HostLaws `{Host} := {
  eval_symlinks_rooted root canonical :
    is_rooted root = true -> eval_symlinks root = Some canonical -> is_rooted canonical = true /\ has_NUL canonical = false
}.

Section launch.
Context `{UnicodeTables} `{Crypto} `{Ed25519} `{Json CapabilityClaims} `{InputJson} `{ProfileJson} `{Host}.

Lemma configure_profiles_Ok l configured key cp :
  configure_profiles l = Ok configured -> (key, cp) ∈ configured ->
  (key, cp_profile cp) ∈ l /\ key = Name (cp_profile cp) /\ Profile_Digest (cp_profile cp) = Ok (cp_digest cp).
Proof.
  revert configured. induction l as [|[k p] rest IH]; intros configured Hc Hin; cbn in Hc; [injection Hc as <-; set_solver|].
  apply guard_Ok in Hc as [[_ Hk%negb_false_iff%bool_decide_eq_true]%orb_false_iff Hc].
  destruct (Profile_Digest p) as [digest|] eqn:Hd; [|done]. inv_ok.
  apply elem_of_cons in Hin as [[= -> ->]|Hin]; [cbn; split; [left|done]|].
  edestruct IH as (? & ? & ?); [done..|]. split; [by right|done].
Qed.

Lemma configure_roots_Ok l roots id root :
  configure_roots l = Ok roots -> (id, root) ∈ roots ->
  exists configured, (id, configured) ∈ l /\ is_rooted configured = true /\ eval_symlinks configured = Some root /\ is_directory root = true.
Proof.
  revert roots. induction l as [|[k r] rest IH]; intros roots Hc Hin; cbn in Hc; [injection Hc as <-; set_solver|].
  apply guard_Ok in Hc as [[_ Hr%negb_false_iff]%orb_false_iff Hc]. destruct (eval_symlinks r) as [canonical|] eqn:He; [|done].
  apply guard_Ok in Hc as [Hd%negb_false_iff Hc]. inv_ok.
  apply elem_of_cons in Hin as [[= -> ->]|Hin]; [exists r; split; [left|done]|].
  edestruct IH as (c & ? & ?); [done..|]. exists c. split; [by right|done].
Qed.

(** What a supervisor is configured with. *)
Record configured_with (cookie publicKey : gostring) (profiles : gmap gostring TaskProfile) (workspaces : gmap gostring gostring)
    (s : Supervisor) : Prop := {
  cw_cookie : sv_cookie s = cookie;
  cw_key : ev_publicKey (sv_caps s) = publicKey;
  cw_profiles : forall name cp, sv_profiles s !! name = Some cp ->
    profiles !! name = Some (cp_profile cp) /\ name = Name (cp_profile cp) /\ Profile_Digest (cp_profile cp) = Ok (cp_digest cp);
  cw_roots : forall id root, sv_roots s !! id = Some root ->
    exists configured, workspaces !! id = Some configured /\ is_rooted configured = true /\
      eval_symlinks configured = Some root /\ is_directory root = true
}.

Lemma NewSupervisor_Ok socketPath binary cookie publicKey profiles workspaces s :
  NewSupervisor socketPath binary cookie publicKey profiles workspaces = Ok s ->
  configured_with cookie publicKey profiles workspaces s /\ ev_used (sv_caps s) = ∅.
Proof.
  unfold NewSupervisor, NewCapabilityVerifier. intros Hs. apply guard_Ok in Hs as [_ Hs]. apply guard_Ok in Hs as [_ Hs].
  destruct (len publicKey =? 32); cbn [negb guard_err] in Hs; [|done]. apply bind_Ok in Hs as (configured & Hc & Hs).
  apply guard_Ok in Hs as [_ Hs]. apply bind_Ok in Hs as (roots & Hr & Hs). do 2 apply guard_Ok in Hs as [_ Hs].
  injection Hs as <-. split; [|done]. split; cbn; [done..| |].
  - intros name cp Hin%elem_of_list_to_map_2. destruct (configure_profiles_Ok _ _ _ _ Hc Hin) as (Hp & ? & ?).
    by apply elem_of_map_to_list in Hp.
  - intros id root Hin%elem_of_list_to_map_2. destruct (configure_roots_Ok _ _ _ _ Hr Hin) as (c & Hw & ?).
    exists c. by apply elem_of_map_to_list in Hw.
Qed.

Lemma configured_preserved cookie publicKey profiles workspaces request now s :
  configured_with cookie publicKey profiles workspaces s ->
  configured_with cookie publicKey profiles workspaces (handle request now s).2.
Proof.
  intros []. destruct (handle_config request now s) as (Hc & Hp & Hr & Hk). split; rewrite ?Hc, ?Hk, ?Hp, ?Hr; done.
Qed.

Lemma check_cache_paths_Ok paths seen : check_cache_paths paths seen = Ok tt -> Forall (fun c => validateCachePath c = Ok tt) paths.
Proof.
  revert seen. induction paths as [|c paths IH]; intros seen; cbn; [constructor|].
  intros Hc. apply bind_Ok in Hc as ([] & Hv & Hc). apply guard_Ok in Hc as [_ Hc]. constructor; [done|by eapply IH].
Qed.

(** The child finds nothing to refuse in what the supervisor writes to it. *)
Lemma child_accepts production j p root :
  Profile_Validate p = Ok tt -> job_allowed j p -> is_rooted root = true -> has_NUL root = false ->
  validateChildSpec (launch_spec production j p root) = Ok tt.
Proof.
  unfold Profile_Validate. rewrite !guard_Ok. intros (_ & (Hx & (Hm & Hp))) [_ _ Hl Ht _ He _] Hr Hn.
  apply bind_Ok in Hp as ([] & _ & Hp). apply guard_Ok in Hp as [Hf Hp].
  apply bind_Ok in Hp as ([] & _ & Hp). apply bind_Ok in Hp as ([] & _ & Hp). apply guard_Ok in Hp as [_ Hp].
  apply check_cache_paths_Ok in Hp. apply orb_false_iff in Hx as [[_ Hx%negb_false_iff]%orb_false_iff Hx'].
  unfold validateChildSpec, launch_spec.
  cbn [cs_Executable cs_Argv cs_Env cs_Workspace cs_WorkspaceMode cs_CachePaths cs_Limits]. rewrite Hx, Hx', Hr, Hn, Hl. cbn [negb orb guard_err is_ok]. rewrite Hm. cbn [guard_err].
  rewrite existsb_app, Hf, Ht. cbn [orb guard_err].
  assert (existsb (fun c => negb (is_ok (validateCachePath c))) (CachePaths p) = false) as ->.
  { apply existsb_false_Forall. eapply Forall_impl; [exact Hp|]. by intros c ->. }
  assert (existsb (fun '(name, value) => negb (envNamePattern name) || has_NUL value) (xj_Env j) = false) as ->; [|done].
  apply existsb_false_Forall, Forall_forall. intros [name value] Hin. destruct (He _ _ Hin) as (_ & -> & ->). done.
Qed.
End launch.

Section guarantees.
Context `{UnicodeTables} `{Crypto} `{Ed25519} `{Json CapabilityClaims} `{InputJson} `{ProfileJson} `{HL : HostLaws}.
#[local] Set Default Proof Using "Type*".

Lemma serve_admits requests s0 cookie publicKey profiles workspaces j p root :
  configured_with cookie publicKey profiles workspaces s0 -> Admit j p root ∈ (serve requests s0).1 ->
  exists request now s s', (request, now) ∈ requests /\ configured_with cookie publicKey profiles workspaces s /\
    handle request now s = (Admit j p root, s').
Proof.
  revert s0. induction requests as [|[request now] rest IH]; intros s0 Hc; cbn [serve]; [by intros ?%elem_of_nil|].
  destruct (handle request now s0) as [v s1] eqn:E. destruct (serve rest s1) as [vs s2] eqn:Er. cbn [fst].
  intros [<-|Hin]%elem_of_cons; [exists request, now, s0, s1; split; [left|done]|].
  destruct (IH s1) as (request' & now' & s & s' & ? & ?); [|by rewrite Er|].
  - pose proof (configured_preserved _ _ _ _ request now s0 Hc) as Hc'. by rewrite E in Hc'.
  - exists request', now', s, s'. split; [by right|done].
Qed.

(** What makes it right to run a job: the profile is the one that the administrator
    configured under that name and allows the job; the directory is the one configured for
    the workspace; a request with the cookie of the supervisor brought the job with a
    capability, signed with the gateway's key and fresh, for this very job and this very
    profile; the child gets the program of the profile with its fixed arguments before those
    of the job, and finds nothing to refuse. *)
Record launch_authorised (cookie publicKey : gostring) (profiles : gmap gostring TaskProfile) (workspaces : gmap gostring gostring)
    (requests : list timed_request) (j : ExecJob) (p : TaskProfile) (root : gostring) : Prop := {
  la_profile : profiles !! xj_Profile j = Some p;
  la_allowed : job_allowed j p;
  la_workspace : exists configured, workspaces !! xj_WorkspaceID j = Some configured /\ eval_symlinks configured = Some root;
  la_request : exists request now digest claims, (request, now) ∈ requests /\ xr_Job request = j /\ xr_Cookie request = cookie /\
    Profile_Digest p = Ok digest /\ exec_acceptable publicKey (xj_Token j) (claims_for j digest jobExpiryPlaceholder) now claims;
  la_program : forall production, (exec_arguments (launch_spec production j p root)).1 = (Executable p, Executable p :: FixedArgv p ++ xj_Argv j);
  la_child : forall production, validateChildSpec (launch_spec production j p root) = Ok tt
}.

(** Whatever requests a supervisor gets, and in whatever order, it admits only such jobs. *)
Lemma admitted_launch socketPath binary cookie publicKey profiles workspaces s0 requests j p root :
  NewSupervisor socketPath binary cookie publicKey profiles workspaces = Ok s0 -> Admit j p root ∈ (serve requests s0).1 ->
  launch_authorised cookie publicKey profiles workspaces requests j p root.
Proof.
  intros [Hc _]%NewSupervisor_Ok Hin. destruct (serve_admits _ _ _ _ _ _ _ _ _ Hc Hin) as (request & now & s & s' & Hreq & [] & Hh).
  apply handle_admits in Hh as (-> & Hcookie & Hr & Ha & digest & claims & Hp & Hx & _).
  destruct (cw_profiles0 _ _ Hp) as (Hp' & _ & Hd). destruct (cw_roots0 _ _ Hr) as (configured & Hw & Hroot & He & _).
  destruct (eval_symlinks_rooted _ _ Hroot He) as [Hroot' Hnul]. cbn in Hp', Hd. split; [done|done|by exists configured| |done|].
  - exists request, now, digest, claims. split; [done|]. split; [done|]. split; [congruence|]. split; [done|]. congruence.
  - intros production. apply child_accepts; [|done..]. unfold Profile_Digest in Hd. by apply bind_Ok in Hd as ([] & ? & _).
Qed.

(** ** What the gateway signs is admitted *)

Definition with_token (token : gostring) (j : ExecJob) : ExecJob :=
  mkExecJob token (xj_CapabilityID j) (xj_Principal j) (xj_SessionID j) (xj_WorkspaceID j) (xj_TaskID j) (xj_Profile j)
    (xj_Operation j) (xj_Limits j) (xj_Argv j) (xj_Env j) (xj_ProcessID j) (xj_Signal j) (xj_Memory j).

(** A job signed with the key of the gateway for a profile that both sides have is admitted
    by the supervisor, until it expires and unless its identifier is in use, when the
    profile allows it. *)
Theorem signed_exec_job_admitted `{!Ed25519Laws} `{!JsonLaws CapabilityClaims exec_claims_text}
    seed key (s : Supervisor) j p root digest expiry claims t0 token now :
  NewCapabilitySignerFromSeed seed = Ok key -> ev_publicKey (sv_caps s) = ed_public key ->
  sv_profiles s !! xj_Profile j = Some (mkConfigured p digest) -> sv_roots s !! xj_WorkspaceID j = Some root ->
  ClaimsForJob j digest expiry = Ok claims -> exec_Sign key claims t0 = Ok token ->
  exec_claims_text claims -> len token <= execMaxTokenBytes -> t0 <= now < expiry ->
  validateJob (with_token token j) p = Ok tt ->
  (handle (mkExecRequest (sv_cookie s) (with_token token j)) now s).1 =
    (if match ev_used (sv_caps s) !! xj_CapabilityID j with Some e => now <? e | None => false end
     then Answer (exec_response (xj_CapabilityID j) "exec capability rejected: exec capability already used")
     else Admit (with_token token j) p root).
Proof.
  intros Hk Hpub Hp Hr Hc HS Ht Hl Hn Hv. unfold ClaimsForJob in Hc. apply bind_Ok in Hc as ([] & Hval & [= <-]).
  assert (Ha : exec_acceptable (ev_publicKey (sv_caps s)) token (claims_for j digest jobExpiryPlaceholder) now (claims_for j digest expiry)).
  { rewrite Hpub. by eapply exec_Sign_acceptable. }
  assert (Hexp : ClaimsForJob (with_token token j) digest jobExpiryPlaceholder = Ok (claims_for j digest jobExpiryPlaceholder)).
  { assert (Hval' : validateCapabilityClaims (claims_for j digest jobExpiryPlaceholder) = Ok tt); 
      [|by unfold ClaimsForJob; change (claims_for (with_token token j)) with (claims_for j); cbv zeta; rewrite Hval'].
    revert Hval. unfold validateCapabilityClaims. rewrite !guard_Ok, !orb_false_iff. intros ((? & _) & ?). done. }
  unfold handle. cbn [xr_Job xr_Cookie with_token xj_Profile xj_WorkspaceID]. rewrite bool_decide_eq_true_2 by done. cbn [negb].
  rewrite Hp, Hr. cbn [cp_profile cp_digest]. rewrite Hv, Hexp. cbn [with_token xj_Token xj_CapabilityID].
  unfold exec_Verify. apply exec_authenticate_Ok in Ha. rewrite Ha. cbn zeta. cbn [claims_for cc_CapabilityID].
  case_bool_decide as Hu; destruct (ev_used (sv_caps s) !! xj_CapabilityID j) as [e|] eqn:Hd.
  - destruct Hu as [e' [? ?]%lookup_swept]. simplify_eq. by rewrite (proj2 (Z.ltb_lt _ _)).
  - destruct Hu as [e' [? ?]%lookup_swept]. congruence.
  - rewrite (proj2 (Z.ltb_ge _ _)); [done|]. apply Z.nlt_ge. intros Hlt. apply Hu. exists e. by apply lookup_swept.
  - done.
Qed.
End guarantees.

(** ** Examples *)

Definition sample_limits : Limits := mkLimits 1000 1 1048576 4 4096 0 0 0.
Definition sample_profile : TaskProfile := mkTaskProfile "build" "/usr/bin/make" ["-C"; "."] [["all"]] WorkspaceReadWrite ["CC"] [] sample_limits.
Definition sample_exec_job : ExecJob :=
  mkExecJob [] "cap-1" "alice" "session-1" "ws" "task-1" "build" OperationExecRun sample_limits ["all"; "-j4"] [("CC" : gostring, "cc" : gostring)]
    [] [] None.

Definition plain_profiles : ProfileJson := {| marshal_profile p := Name p; marshal_strings l := concat l |}.
Definition plain_inputs : InputJson := {| marshal_input i := concat (in_Argv i) |}.
Definition sample_digest : gostring := hex_encode (@sha256 toy_crypto (Name sample_profile)).
Definition sample_exec_claims : CapabilityClaims :=
  @claims_for toy_crypto plain_inputs sample_exec_job sample_digest (30 * second).
Definition exec_claims_json : Json CapabilityClaims := one_json sample_exec_claims.
Definition sample_seed : gostring := replicate 32 (byte_of 9).
Definition sample_key : gostring := sample_seed ++ sample_seed.
Definition sample_exec_token : gostring := exec_token "{}" (@ed_sign toy_ed sample_key (exec_signed "{}")).
Definition sample_cookie : gostring := b64_encode (replicate 32 (byte_of 7)).

Definition plain_host : Host := {| eval_symlinks r := if is_rooted r && negb (has_NUL r) then Some r else None; is_directory _ := true; backend_ready := true |}.
Lemma plain_host_laws : @HostLaws plain_host.
Proof.
  split. cbn. intros root canonical Hr. rewrite Hr. destruct (has_NUL root) eqn:Hn; cbn; [done|]. by intros [= <-].
Qed.

Definition sample_supervisor : Supervisor :=
  mkSupervisor sample_cookie (mkCapabilityVerifier sample_seed ∅) {["build" : gostring := mkConfigured sample_profile sample_digest]}
    {["ws" : gostring := "/srv/ws" : gostring]}.
Definition sample_request : ExecRequest := mkExecRequest sample_cookie (with_token sample_exec_token sample_exec_job).

Lemma signed_exec_job_admitted_witness :
  (@handle ascii_tables toy_crypto toy_ed exec_claims_json plain_inputs sample_request second sample_supervisor).1 =
  Admit (with_token sample_exec_token sample_exec_job) sample_profile "/srv/ws".
Proof.
  refine (eq_trans (@signed_exec_job_admitted ascii_tables toy_crypto toy_ed exec_claims_json plain_inputs toy_ed_laws
    (one_json_laws _ _) sample_seed sample_key sample_supervisor sample_exec_job sample_profile "/srv/ws" sample_digest
    (30 * second) sample_exec_claims 0 sample_exec_token second _ _ _ _ _ _ _ _ _ _) _).
  all: try match goal with |- @eq _ _ _ => vm_compute; reflexivity end.
  - repeat constructor.
  - apply (bool_decide_unpack _). vm_compute. exact I.
  - split; apply (bool_decide_unpack _); vm_compute; exact I.
Defined.

Lemma served_once_witness :
  NoDup (xj_Token <$> admitted (@serve ascii_tables toy_crypto toy_ed exec_claims_json plain_inputs
    [(sample_request, second); (sample_request, 2 * second)] sample_supervisor).1).
Proof.
  apply (@served_once ascii_tables toy_crypto toy_ed exec_claims_json plain_inputs). repeat constructor; apply (bool_decide_unpack _); vm_compute; exact I.
Defined.
