(* ===== verification/ExecTable.v ===== *)
(** * Managed processes of the exec supervisor
    ([internal/execworker/backend_linux.go], [executeAuthorized] of [server.go])

    Requests run concurrently. [world] is what they share: the set of revoked sessions under
    [executionMu], the table of processes under the mutex of the backend, and, from the
    operating system, which processes are alive. [phase] is where a request is between two
    critical sections, and a list of [event]s is one interleaving. *)
From S2P Require Import Prelude GoStrings Token ExecProfile ExecCapability ExecServer.
#[local] Open Scope Z_scope.

(** ** Output of a process *)

Record boundedOutput := mkOutput { bo_remaining : Z; bo_stdout : gostring; bo_stderr : gostring; bo_truncated : bool }.

Definition newBoundedOutput (limit : Z) : boundedOutput := mkOutput limit [] [] false.

(** [outputWriter.Write]; a writer is told that everything was written. *)
Definition output_Write (stderr : bool) (value : gostring) (b : boundedOutput) : Z * boundedOutput :=
  let over := bo_remaining b <? len value in
  let accepted := if over then bo_remaining b else len value in
  let kept := take (Z.to_nat accepted) value in
  (len value,
   if 0 <? accepted
   then mkOutput (bo_remaining b - accepted) (if stderr then bo_stdout b else bo_stdout b ++ kept)
          (if stderr then bo_stderr b ++ kept else bo_stderr b) (bo_truncated b || over)
   else mkOutput (bo_remaining b) (bo_stdout b) (bo_stderr b) (bo_truncated b || over)).

(** ** Records *)

Record processRecord := mkRecord {
  pr_principal : gostring; pr_sessionID : gostring; pr_workspaceID : gostring; pr_profile : gostring; pr_pid : Z; pr_starttime : Z;
  pr_startedAt : gotime; pr_finishedAt : gotime; pr_state : gostring; pr_exitCode : Z; pr_signaled : bool; pr_timedOut : bool;
  pr_done : bool
}.

Definition new_record (j : ExecJob) (pid starttime : Z) (now : gotime) : processRecord :=
  mkRecord (xj_Principal j) (xj_SessionID j) (xj_WorkspaceID j) (xj_Profile j) pid starttime now zero_time "running" (-1) false false false.

(** What [cmd.Wait] reports: success, a status of the process, or another error. *)
Inductive wait_result := WaitOk | WaitStatus (code : Z) (signaled : bool) | WaitFailed.

(** The end of [wait]. *)
Definition reaped (w : wait_result) (now : gotime) (r : processRecord) : processRecord :=
  let '(code, signaled) :=
    match w with WaitOk => (0, pr_signaled r) | WaitStatus code signaled => (code, signaled) | WaitFailed => (-1, pr_signaled r) end in
  mkRecord (pr_principal r) (pr_sessionID r) (pr_workspaceID r) (pr_profile r) (pr_pid r) (pr_starttime r) (pr_startedAt r) now "exited"
    code signaled (pr_timedOut r) true.

Definition is_running (r : processRecord) : bool := bool_decide (pr_state r = "running").

(** The timer of a process marks it only while it runs. *)
Definition timed_out (r : processRecord) : processRecord :=
  if is_running r
  then mkRecord (pr_principal r) (pr_sessionID r) (pr_workspaceID r) (pr_profile r) (pr_pid r) (pr_starttime r) (pr_startedAt r)
         (pr_finishedAt r) (pr_state r) (pr_exitCode r) (pr_signaled r) true (pr_done r)
  else r.

(** [seen] is the start time that the system reports now for the pid of the record. *)
Definition verifyProcessIdentity (seen : option Z) (r : processRecord) : bool := bool_decide (seen = Some (pr_starttime r)).

Definition live_now (seen : option Z) (r : processRecord) : bool := is_running r && verifyProcessIdentity seen r.

Definition record_owned (j : ExecJob) (r : processRecord) : bool :=
  bool_decide (pr_principal r = xj_Principal j) && bool_decide (pr_sessionID r = xj_SessionID j) &&
  bool_decide (pr_workspaceID r = xj_WorkspaceID j) && bool_decide (pr_profile r = xj_Profile j).

Definition statusFor (id : gostring) (r : processRecord) : ProcessStatus :=
  mkProcessStatus id (pr_state r) (pr_startedAt r) (pr_finishedAt r) (pr_exitCode r) (pr_signaled r) (pr_timedOut r).

(** ** What requests share *)

(** An admitted job with the profile and the root that [handle] found for it. *)
Record ticket := mkTicket { tk_job :> ExecJob; tk_profile : TaskProfile; tk_root : gostring }.

Definition owner : Type := gostring * gostring.
Definition owner_of (j : ExecJob) : owner := (xj_Principal j, xj_SessionID j).

(** Records are shared pointers: [w_records] is the store they live in, [w_items] the keys of
    the table. [w_origin] and [w_signals] are a history: what each process was started
    for, and each signal that was sent with the session on whose behalf, if any. *)
Record world := mkWorld {
  w_revoked : gset owner; w_executionMu : option Z;
  w_records : gmap gostring processRecord; w_items : gset gostring; w_closed : bool;
  w_outputs : gmap gostring boundedOutput; w_alive : gset gostring;
  w_origin : gmap gostring ticket; w_signals : list (option owner * gostring)
}.

Definition with_lock (l : option Z) (w : world) : world :=
  mkWorld (w_revoked w) l (w_records w) (w_items w) (w_closed w) (w_outputs w) (w_alive w) (w_origin w) (w_signals w).
Definition with_revoked (o : owner) (w : world) : world :=
  mkWorld ({[o]} ∪ w_revoked w) (w_executionMu w) (w_records w) (w_items w) (w_closed w) (w_outputs w) (w_alive w) (w_origin w) (w_signals w).
Definition with_records (m : gmap gostring processRecord) (w : world) : world :=
  mkWorld (w_revoked w) (w_executionMu w) m (w_items w) (w_closed w) (w_outputs w) (w_alive w) (w_origin w) (w_signals w).
Definition with_items (s : gset gostring) (w : world) : world :=
  mkWorld (w_revoked w) (w_executionMu w) (w_records w) s (w_closed w) (w_outputs w) (w_alive w) (w_origin w) (w_signals w).
Definition with_closed (w : world) : world :=
  mkWorld (w_revoked w) (w_executionMu w) (w_records w) (w_items w) true (w_outputs w) (w_alive w) (w_origin w) (w_signals w).
Definition with_output (id : gostring) (b : boundedOutput) (w : world) : world :=
  mkWorld (w_revoked w) (w_executionMu w) (w_records w) (w_items w) (w_closed w) (<[id := b]> (w_outputs w)) (w_alive w) (w_origin w) (w_signals w).
Definition with_spawned (id : gostring) (j : ticket) (w : world) : world :=
  mkWorld (w_revoked w) (w_executionMu w) (w_records w) (w_items w) (w_closed w)
    (<[id := newBoundedOutput (OutputBytes (xj_Limits j))]> (w_outputs w)) ({[id]} ∪ w_alive w) (<[id := j]> (w_origin w)) (w_signals w).
Definition with_ended (id : gostring) (w : world) : world :=
  mkWorld (w_revoked w) (w_executionMu w) (w_records w) (w_items w) (w_closed w) (w_outputs w) (w_alive w ∖ {[id]}) (w_origin w) (w_signals w).
Definition with_signal (s : option owner * gostring) (w : world) : world :=
  mkWorld (w_revoked w) (w_executionMu w) (w_records w) (w_items w) (w_closed w) (w_outputs w) (w_alive w) (w_origin w) (s :: w_signals w).

(** [responseFor] *)
Definition responseFor (id : gostring) (includeOutput : bool) (w : world) : ExecResponse :=
  let b := default (newBoundedOutput 0) (if includeOutput then w_outputs w !! id else None) in
  mkExecResponse [] id (statusFor id <$> w_records w !! id) (bo_stdout b) (bo_stderr b) (bo_truncated b) [] 0 [].

(** [ownedRecord] *)
Definition ownedRecord (j : ExecJob) (w : world) : option gostring :=
  let id := xj_ProcessID j in
  r ← w_records w !! id;
  if bool_decide (id ∈ w_items w) && record_owned j r then Some id else None.

(** [signalRecord]: whether the signal is sent, and the world with it sent. *)
Definition signalRecord (seen : option Z) (by_ : option owner) (id : gostring) (w : world) : bool * world :=
  match w_records w !! id with
  | Some r => if live_now seen r then (true, with_signal (by_, id) w) else (false, w)
  | None => (false, w)
  end.

Definition with_capability (j : ExecJob) (r : ExecResponse) : ExecResponse :=
  mkExecResponse (xj_CapabilityID j) (xo_ProcessID r) (xo_Status r) (xo_Stdout r) (xo_Stderr r) (xo_Truncated r) (xo_Matches r)
    (xo_ScannedBytes r) (xo_Error r).
Definition without_id (r : ExecResponse) : ExecResponse :=
  mkExecResponse (xo_CapabilityID r) []
    ((fun s => mkProcessStatus [] (ps_State s) (ps_StartedAt s) (ps_FinishedAt s) (ps_ExitCode s) (ps_Signaled s) (ps_TimedOut s)) <$> xo_Status r)
    (xo_Stdout r) (xo_Stderr r) (xo_Truncated r) (xo_Matches r) (xo_ScannedBytes r) (xo_Error r).
Definition with_state (state : gostring) (r : ExecResponse) : ExecResponse :=
  mkExecResponse (xo_CapabilityID r) (xo_ProcessID r)
    ((fun s => mkProcessStatus (ps_ProcessID s) state (ps_StartedAt s) (ps_FinishedAt s) (ps_ExitCode s) (ps_Signaled s) (ps_TimedOut s)) <$> xo_Status r)
    (xo_Stdout r) (xo_Stderr r) (xo_Truncated r) (xo_Matches r) (xo_ScannedBytes r) (xo_Error r).

(** ** Requests *)

(** Where a request is: at the door of [executeAuthorized]; past it and before [cmd.Start];
    with a child that is not in the table yet, or that is being dropped - killed and waited
    for - because its launch failed or the supervisor is closed; with its record in the table, before the answer; waiting for the
    process of an [exec_run], and with its answer, before the record is deleted. The other
    operations: looking for the record, with the record, with the record found live, waiting
    for the stopped process. A revocation after each of its sections; at the end every
    request is [Answered], with the process its answer is about. Then the timer of a
    process, and [close]. *)
Inductive phase :=
  | Arrived (j : ticket)
  | Launching (j : ticket)
  | Spawned (j : ticket) (id : gostring)
  | Dropping (j : ticket) (id : gostring)
  | Published (j : ticket) (id : gostring)
  | RunWaiting (j : ticket) (id : gostring)
  | RunDeleting (j : ticket) (id : gostring) (r : ExecResponse)
  | Searching (j : ticket)
  | Found (j : ticket) (id : gostring)
  | FoundLive (j : ticket) (id : gostring)
  | Stopping (j : ticket) (id : gostring)
  | Sweeping (j : ticket)
  | Killing (j : ticket) (todo all : list gostring)
  | Reaping (j : ticket) (todo all : list gostring)
  | Forgetting (j : ticket) (all : list gostring)
  | Answered (j : ticket) (about : option gostring) (r : ExecResponse)
  | TimerFired (id : gostring)
  | Finished
  | CloseKilling (todo all : list gostring)
  | CloseReaping (todo : list gostring)
  | CloseDone.

(** What the system answers is part of the event: process identifiers, start times, the state
    in /proc, the result of a memory scan, and the order in which a map is visited. *)
Inductive event :=
  | EArrive (n : Z) (request : ExecRequest) (now : gotime)
  | EEnter (n : Z)
  | EStart (n : Z) (id : gostring)
  | EStartFailed (n : Z)
  | EPublish (n : Z) (pid starttime : Z) (now : gotime)
  | EDrop (n : Z)
  | EDropped (n : Z)
  | EReport (n : Z)
  | EForgetRun (n : Z)
  | EFind (n : Z)
  | EUse (n : Z) (seen : option Z) (state : option gostring)
  | EAct (n : Z) (seen : option Z) (scan : result gostring (list MemoryMatch * Z))
  | ESweep (n : Z) (l : list gostring)
  | EKill (n : Z) (seen : option Z)
  | EAwait (n : Z)
  | EForget (n : Z)
  | ETimer (n : Z) (id : gostring)
  | EClose (n : Z) (l : list gostring)
  | EOutput (id : gostring) (stderr : bool) (value : gostring)
  | EExit (id : gostring)
  | EReap (id : gostring) (how : wait_result) (now : gotime).

Record system := mkSystem { sy_supervisor : Supervisor; sy_world : world; sy_threads : gmap Z phase }.

Definition is_start (j : ExecJob) : bool := bool_decide (xj_Operation j = OperationProcessStart).
Definition is_run (j : ExecJob) : bool := bool_decide (xj_Operation j = OperationExecRun).

(** [process_start] keeps [executionMu] until it has its result. *)
Definition unlock (j : ExecJob) (w : world) : world := if is_start j then with_lock None w else w.

Definition revoked_text : gostring := "exec session has been revoked".
(** [safeProcessError] *)
Definition launch_failed_text : gostring := "managed task could not be started with required isolation".

Definition answer (j : ticket) (about : option gostring) (r : ExecResponse) : phase := Answered j about (with_capability j r).
Definition fail_with (j : ticket) (text : gostring) : phase := answer j None (exec_response [] text).

(** The section of [executeAuthorized] under [executionMu]. *)
Definition enter (n : Z) (j : ticket) (w : world) : option (phase * world) :=
  match w_executionMu w with
  | Some _ => None
  | None =>
      if decide (xj_Operation j = OperationSessionRevoke) then Some (Sweeping j, with_revoked (owner_of j) w)
      else if decide (owner_of j ∈ w_revoked w) then Some (fail_with j revoked_text, w)
      else if is_start j then Some (Launching j, with_lock (Some n) w)
      else if is_run j then Some (Launching j, w)
      else Some (Searching j, w)
  end.

(** The records of a session, in the order in which the table was visited. *)
Definition of_owner (o : owner) (w : world) (id : gostring) : bool :=
  match w_records w !! id with Some r => bool_decide ((pr_principal r, pr_sessionID r) = o) | None => false end.
Definition running_in (w : world) (id : gostring) : bool :=
  match w_records w !! id with Some r => is_running r | None => false end.
Definition visits (P : gostring -> bool) (w : world) (l : list gostring) : bool :=
  bool_decide (NoDup l) && bool_decide (list_to_set (C := gset gostring) l = filter (fun id => P id = true) (w_items w)).

Definition done_in (w : world) (id : gostring) : bool :=
  match w_records w !! id with Some r => pr_done r | None => false end.

Definition not_owned_text : gostring := "managed process is not owned by this session".
Definition not_running_text : gostring := "managed process is not running or its identity changed".
Definition identity_text : gostring := "managed process identity is no longer valid".
Definition signal_failed_text : gostring := "managed process signal failed".

(** With the record found: status is answered, the others need a live process. *)
Definition use_record (j : ticket) (id : gostring) (seen : option Z) (state : option gostring) (w : world) : phase :=
  let op := xj_Operation j in
  if decide (op = OperationProcessStatus) then answer j (Some id) (responseFor id true w)
  else if decide (op = OperationDebugStatus) then
    if running_in w id
    then match state with
         | Some s => answer j (Some id) (with_state s (responseFor id false w))
         | None => fail_with j identity_text
         end
    else answer j (Some id) (responseFor id false w)
  else if decide (op ∈ [OperationProcessStop; OperationDebugSignal; OperationMemScan]) then
    match w_records w !! id with
    | Some r => if live_now seen r then FoundLive j id else fail_with j not_running_text
    | None => fail_with j not_running_text
    end
  else fail_with j "exec operation is not supported".

(** What is done to a live process. *)
Definition act_on (j : ticket) (id : gostring) (seen : option Z) (scan : result gostring (list MemoryMatch * Z)) (w : world) : phase * world :=
  let op := xj_Operation j in
  if decide (op = OperationProcessStop) then (Stopping j id, (signalRecord seen (Some (owner_of j)) id w).2)
  else if decide (op = OperationDebugSignal) then
    let '(sent, w) := signalRecord seen (Some (owner_of j)) id w in
    (if sent then answer j (Some id) (responseFor id false w) else fail_with j signal_failed_text, w)
  else
    (match scan with
     | Ok (matches, scanned) => answer j (Some id) (mkExecResponse [] id None [] [] false matches scanned [])
     | Err text => fail_with j text
     end, w).

Definition thread_step (e : event) (n : Z) (p : phase) (w : world) : option (phase * world) :=
  match e, p with
  | EEnter _, Arrived j => enter n j w
  | EStart _ id, Launching j => if decide (w_origin w !! id = None) then Some (Spawned j id, with_spawned id j w) else None
  | EStartFailed _, Launching j => Some (fail_with j launch_failed_text, unlock j w)
  | EPublish _ pid starttime now, Spawned j id =>
      if w_closed w then Some (Dropping j id, w)
      else Some (if is_run j then RunWaiting j id else Published j id,
                 with_items ({[id]} ∪ w_items w) (with_records (<[id := new_record j pid starttime now]> (w_records w)) w))
  | EDrop _, Spawned j id => Some (Dropping j id, w)
  | EDropped _, Dropping j id =>
      if decide (id ∈ w_alive w) then None else Some (fail_with j launch_failed_text, unlock j w)
  | EReport _, Published j id => Some (answer j (Some id) (responseFor id false w), unlock j w)
  | EReport _, RunWaiting j id => if done_in w id then Some (RunDeleting j id (without_id (responseFor id true w)), w) else None
  | EReport _, Stopping j id => if done_in w id then Some (answer j (Some id) (responseFor id true w), w) else None
  | EForgetRun _, RunDeleting j id r => Some (answer j (Some id) r, with_items (w_items w ∖ {[id]}) w)
  | EFind _, Searching j =>
      Some (match ownedRecord j w with Some id => Found j id | None => fail_with j not_owned_text end, w)
  | EUse _ seen state, Found j id => Some (use_record j id seen state w, w)
  | EAct _ seen scan, FoundLive j id => Some (act_on j id seen scan w)
  | ESweep _ l, Sweeping j => if visits (of_owner (owner_of j) w) w l then Some (Killing j l l, w) else None
  | EKill _ seen, Killing j (id :: todo) all => Some (Killing j todo all, (signalRecord seen (Some (owner_of j)) id w).2)
  | EAwait _, Killing j [] all => Some (Reaping j all all, w)
  | EAwait _, Reaping j (id :: todo) all => if done_in w id then Some (Reaping j todo all, w) else None
  | EAwait _, Reaping j [] all => Some (Forgetting j all, w)
  | EForget _, Forgetting j all => Some (answer j None (exec_response [] []), with_items (w_items w ∖ list_to_set all) w)
  | EKill _ seen, TimerFired id => Some (Finished, (signalRecord seen None id w).2)
  | EKill _ seen, CloseKilling (id :: todo) all => Some (CloseKilling todo all, (signalRecord seen None id w).2)
  | EAwait _, CloseKilling [] all => Some (CloseReaping all, w)
  | EAwait _, CloseReaping (id :: todo) => if done_in w id then Some (CloseReaping todo, w) else None
  | EAwait _, CloseReaping [] => Some (CloseDone, w)
  | _, _ => None
  end.

(** The timer of a process, or a call of [close]. *)
Definition new_thread (e : event) (w : world) : option (phase * world) :=
  match e with
  | ETimer _ id =>
      r ← w_records w !! id; Some (TimerFired id, with_records (<[id := timed_out r]> (w_records w)) w)
  | EClose _ l =>
      if w_closed w then Some (Finished, w)
      else if visits (running_in w) w l then Some (CloseKilling l l, with_closed w) else None
  | _ => None
  end.

(** What processes do by themselves, and the goroutine that waits for one. *)
Definition process_step (e : event) (w : world) : option world :=
  match e with
  | EOutput id stderr value =>
      b ← w_outputs w !! id;
      if decide (id ∈ w_alive w) then Some (with_output id (output_Write stderr value b).2 w) else None
  | EExit id => if decide (id ∈ w_alive w) then Some (with_ended id w) else None
  | EReap id how now =>
      r ← w_records w !! id;
      if decide (id ∈ w_alive w) then None
      else if pr_done r then None else Some (with_records (<[id := reaped how now r]> (w_records w)) w)
  | _ => None
  end.

Inductive event_kind := OfThread (n : Z) | NewThread (n : Z) | OfProcess | OfRequest (n : Z) (request : ExecRequest) (now : gotime).
Definition kind_of (e : event) : event_kind :=
  match e with
  | EArrive n request now => OfRequest n request now
  | ETimer n _ | EClose n _ => NewThread n
  | EOutput _ _ _ | EExit _ | EReap _ _ _ => OfProcess
  | EEnter n | EStart n _ | EStartFailed n | EPublish n _ _ _ | EDrop n | EDropped n | EReport n | EForgetRun n | EFind n | EUse n _ _
  | EAct n _ _ | ESweep n _ | EKill n _ | EAwait n | EForget n => OfThread n
  end.

Section system.
Context `{UnicodeTables} `{Crypto} `{Ed25519} `{Json CapabilityClaims} `{InputJson}.

Definition step (e : event) (σ : system) : option system :=
  let sv := sy_supervisor σ in
  match kind_of e with
  | OfThread n =>
      p ← sy_threads σ !! n; '(q, w) ← thread_step e n p (sy_world σ); Some (mkSystem sv w (<[n := q]> (sy_threads σ)))
  | NewThread n =>
      if decide (sy_threads σ !! n = None)
      then '(q, w) ← new_thread e (sy_world σ); Some (mkSystem sv w (<[n := q]> (sy_threads σ))) else None
  | OfProcess => w ← process_step e (sy_world σ); Some (mkSystem sv w (sy_threads σ))
  | OfRequest n request now =>
      if decide (sy_threads σ !! n = None)
      then match handle request now sv with
           | (Answer _, sv) => Some (mkSystem sv (sy_world σ) (sy_threads σ))
           | (Admit j p root, sv) => Some (mkSystem sv (sy_world σ) (<[n := Arrived (mkTicket j p root)]> (sy_threads σ)))
           end
      else None
  end.

Fixpoint run (es : list event) (σ : system) : option system :=
  match es with [] => Some σ | e :: es => step e σ ≫= run es end.

Definition start (sv : Supervisor) : system := mkSystem sv (mkWorld ∅ None ∅ ∅ false ∅ ∅ ∅ []) ∅.
End system.

(** ** Output *)

(** What a process writes to one of its streams. *)
Definition stream (stderr : bool) (writes : list (bool * gostring)) : gostring :=
  concat (snd <$> filter (fun x : bool * gostring => x.1 = stderr) writes).

Definition write_all (writes : list (bool * gostring)) (b : boundedOutput) : boundedOutput :=
  fold_left (fun b x => (output_Write x.1 x.2 b).2) writes b.

Lemma stream_cons stderr x writes : stream stderr (x :: writes) = (if bool_decide (x.1 = stderr) then x.2 else []) ++ stream stderr writes.
Proof. unfold stream. rewrite filter_cons. case_decide; case_bool_decide; done. Qed.

Lemma output_Write_room e value b :
  len value <= bo_remaining b ->
  (output_Write e value b).2 =
    mkOutput (bo_remaining b - len value) (if e then bo_stdout b else bo_stdout b ++ value) (if e then bo_stderr b ++ value else bo_stderr b)
      (bo_truncated b).
Proof.
  intros Hl. unfold output_Write. rewrite (proj2 (Z.ltb_ge (bo_remaining b) (len value))), orb_false_r by done. cbn [snd].
  destruct (0 <? len value) eqn:Hp.
  - unfold len. rewrite Nat2Z.id, firstn_all. by destruct e.
  - apply Z.ltb_ge in Hp. destruct value; [|unfold len in Hp; cbn [length] in Hp; lia]. unfold len. cbn. rewrite Z.sub_0_r. by destruct e; rewrite ?app_nil_r.
Qed.

Lemma output_Write_full e value b : bo_remaining b = 0 ->
  (output_Write e value b).2 = mkOutput 0 (bo_stdout b) (bo_stderr b) (bo_truncated b || (0 <? len value)).
Proof.
  intros Hr. unfold output_Write. rewrite Hr. cbn [snd]. destruct (0 <? len value) eqn:Hp; [by rewrite Z.ltb_irrefl|by rewrite Hp].
Qed.

Lemma write_all_full writes b : bo_remaining b = 0 ->
  exists truncated, write_all writes b = mkOutput 0 (bo_stdout b) (bo_stderr b) truncated /\ (bo_truncated b = true -> truncated = true).
Proof.
  revert b. induction writes as [|[e value] writes IH]; intros b Hr; unfold write_all in *; cbn [fold_left fst snd].
  - exists (bo_truncated b). destruct b. cbn in *. by subst.
  - rewrite output_Write_full by done. destruct (IH (mkOutput 0 (bo_stdout b) (bo_stderr b) (bo_truncated b || (0 <? len value)))) as (t & -> & Ht); [done|].
    exists t. split; [done|]. intros E. apply Ht. cbn. by rewrite E.
Qed.

Lemma output_Write_over e value b : 0 <= bo_remaining b < len value ->
  exists so se, (output_Write e value b).2 = mkOutput 0 (bo_stdout b ++ so) (bo_stderr b ++ se) true /\
    len so + len se <= bo_remaining b /\ (so `prefix_of` if e then [] else value) /\ (se `prefix_of` if e then value else []).
Proof.
  intros Hr. unfold output_Write. rewrite (proj2 (Z.ltb_lt (bo_remaining b) (len value))), orb_true_r by lia. cbn [snd].
  set (kept := take (Z.to_nat (bo_remaining b)) value).
  assert (Hk : len kept <= bo_remaining b) by (unfold len, kept; rewrite length_take; lia).
  assert (Hkp : kept `prefix_of` value) by (exists (drop (Z.to_nat (bo_remaining b)) value); unfold kept; by rewrite take_drop).
  destruct (0 <? bo_remaining b) eqn:Hp.
  - rewrite Z.sub_diag. destruct e; [exists [], kept|exists kept, []]; rewrite app_nil_r; (split; [done|]); unfold len in *; cbn;
      (split; [lia|]); split; try done; apply prefix_nil.
  - apply Z.ltb_ge in Hp. exists [], []. rewrite !app_nil_r. replace (bo_remaining b) with 0 by lia.
    split; [done|]. split; [done|]. destruct e; split; apply prefix_nil.
Qed.

Lemma stream_same e value writes : stream e ((e, value) :: writes) = value ++ stream e writes.
Proof. rewrite stream_cons. by destruct e. Qed.

Lemma stream_other e value writes : stream (negb e) ((e, value) :: writes) = stream (negb e) writes.
Proof. rewrite stream_cons. by destruct e. Qed.

(** What is kept of the writes that follow. *)
Record kept_of (b : boundedOutput) (writes : list (bool * gostring)) (b' : boundedOutput) (so se : gostring) : Prop := {
  ko_stdout : bo_stdout b' = bo_stdout b ++ so; ko_stderr : bo_stderr b' = bo_stderr b ++ se;
  ko_prefix_out : so `prefix_of` stream false writes; ko_prefix_err : se `prefix_of` stream true writes;
  ko_bound : len so + len se <= bo_remaining b;
  ko_whole : bo_truncated b' = false -> so = stream false writes /\ se = stream true writes;
  ko_fits : len (stream false writes) + len (stream true writes) <= bo_remaining b -> bo_truncated b' = false
}.

Lemma kept_cons_room e value writes b b' so se :
  kept_of (output_Write e value b).2 writes b' so se -> len value <= bo_remaining b ->
  exists so' se', kept_of b ((e, value) :: writes) b' so' se'.
Proof.
  intros [Hso Hse Hpo Hpe Hl Hw Hfit] Hv. rewrite output_Write_room in * by done. cbn [bo_stdout bo_stderr bo_remaining] in *.
  destruct e; [exists so, (value ++ se)|exists (value ++ so), se].
  all: pose proof (stream_same true value writes) as E1; pose proof (stream_other true value writes) as E2.
  all: pose proof (stream_same false value writes) as E3; pose proof (stream_other false value writes) as E4.
  all: split; cbn [negb] in *; rewrite ?E1, ?E2, ?E3, ?E4; try done; rewrite ?app_assoc; try done; rewrite ?len_app; try by apply prefix_app.
  all: try lia; try (intros E; destruct (Hw E) as [-> ->]; done). all: intros ?; apply Hfit; lia.
Qed.

Lemma kept_cons_over e value writes b :
  0 <= bo_remaining b < len value -> exists so' se', kept_of b ((e, value) :: writes) (write_all ((e, value) :: writes) b) so' se'.
Proof.
  intros Hr. destruct (output_Write_over e value b Hr) as (so & se & Hw & Hl & Hpo & Hpe). cbn [write_all fold_left fst snd]. rewrite Hw.
  destruct (write_all_full writes (mkOutput 0 (bo_stdout b ++ so) (bo_stderr b ++ se) true)) as (t & Hx & Ht); [done|].
  unfold write_all in Hx. rewrite Hx, (Ht eq_refl). exists so, se.
  pose proof (len_nonneg (stream false writes)). pose proof (len_nonneg (stream true writes)).
  pose proof (stream_same e value writes) as E1. pose proof (stream_other e value writes) as E2.
  split; cbn [bo_stdout bo_stderr bo_truncated]; try done.
  - destruct e; cbn [negb] in *; rewrite ?E1, ?E2; [apply prefix_nil_inv in Hpo as ->; apply prefix_nil|by apply prefix_app_r].
  - destruct e; cbn [negb] in *; rewrite ?E1, ?E2; [by apply prefix_app_r|apply prefix_nil_inv in Hpe as ->; apply prefix_nil].
  - destruct e; cbn [negb] in *; rewrite E1, E2, len_app; lia.
Qed.

Lemma write_all_kept writes b :
  0 <= bo_remaining b -> bo_truncated b = false -> exists so se, kept_of b writes (write_all writes b) so se.
Proof.
  revert b. induction writes as [|[e value] writes IH]; intros b Hr Ht.
  - exists [], []. split; cbn; rewrite ?app_nil_r; try done.
  - destruct (decide (len value <= bo_remaining b)) as [Hv|Hv]; [|apply kept_cons_over; lia].
    destruct (IH (output_Write e value b).2) as (so & se & Hk).
    1, 2: rewrite output_Write_room by done; cbn; try done; lia.
    by eapply kept_cons_room.
Qed.

(** Whatever a process writes to its two streams, and however the writes are cut up and
    interleaved, the supervisor keeps a prefix of each stream, at most the signed number of
    bytes together; if it says that nothing was cut off it has everything, and it has
    everything when everything fits. *)
Theorem output_bounded limit writes :
  0 <= limit ->
  let b := write_all writes (newBoundedOutput limit) in
  bo_stdout b `prefix_of` stream false writes /\ bo_stderr b `prefix_of` stream true writes /\
  len (bo_stdout b) + len (bo_stderr b) <= limit /\
  (bo_truncated b = false -> bo_stdout b = stream false writes /\ bo_stderr b = stream true writes) /\
  (len (stream false writes) + len (stream true writes) <= limit -> bo_truncated b = false).
Proof.
  intros Hlimit. cbv zeta. destruct (write_all_kept writes (newBoundedOutput limit)) as (so & se & [-> -> ? ? ? ? ?]); [done..|].
  by cbn in *.
Qed.

(** ** What holds of the shared state *)

(** The request that holds [executionMu], and the child that is not in the table. *)
Definition holds (p : phase) : option ticket :=
  match p with
  | Launching j | Spawned j _ | Dropping j _ | Published j _ => if is_start j then Some j else None
  | _ => None
  end.
Definition pending (p : phase) : option (ticket * gostring) :=
  match p with Spawned j id | Dropping j id => Some (j, id) | _ => None end.

Record world_ok (w : world) : Prop := {
  wo_origin : forall id r, w_records w !! id = Some r -> exists j : ticket, w_origin w !! id = Some j /\ record_owned j r = true;
  wo_items : forall id, id ∈ w_items w -> is_Some (w_records w !! id);
  wo_kept : forall id r, w_records w !! id = Some r -> id ∉ w_items w -> pr_done r = true;
  wo_alive : forall id, id ∈ w_alive w -> is_Some (w_origin w !! id);
  wo_done : forall id r, w_records w !! id = Some r -> pr_done r = true -> id ∉ w_alive w;
  wo_state : forall id r, w_records w !! id = Some r -> is_running r = negb (pr_done r);
  wo_signals : forall o id, (Some o, id) ∈ w_signals w -> exists j : ticket, w_origin w !! id = Some j /\ owner_of j = o
}.

(** Every process that [process_start] has put in the table for the session is one of these
    or has ended; then the same for all processes. *)
Definition settled (w : world) (o : owner) (ids : list gostring) : Prop :=
  forall id r (j : ticket), w_records w !! id = Some r -> w_origin w !! id = Some j -> is_start j = true -> owner_of j = o ->
    pr_done r = true \/ id ∈ ids.
Definition all_settled (w : world) (ids : list gostring) : Prop :=
  forall id r, w_records w !! id = Some r -> pr_done r = true \/ id ∈ ids.

(** The process was started by the session, in the workspace and under the profile of [j]. *)
Definition same_scope (j k : ExecJob) : Prop :=
  owner_of j = owner_of k /\ xj_WorkspaceID j = xj_WorkspaceID k /\ xj_Profile j = xj_Profile k.
Definition process_of (w : world) (j : ExecJob) (id : gostring) : Prop :=
  is_Some (w_records w !! id) /\ exists k : ticket, w_origin w !! id = Some k /\ same_scope k j.

Definition session_of (w : world) (o : owner) (ids : list gostring) : Prop :=
  forall id, id ∈ ids -> exists k : ticket, w_origin w !! id = Some k /\ owner_of k = o.

Definition phase_ok (w : world) (p : phase) : Prop :=
  match p with
  | Sweeping j => owner_of j ∈ w_revoked w
  | Killing j todo all =>
      owner_of j ∈ w_revoked w /\ settled w (owner_of j) all /\ session_of w (owner_of j) todo
  | Reaping j todo all =>
      owner_of j ∈ w_revoked w /\ settled w (owner_of j) todo /\ forall id, id ∈ all -> done_in w id = true \/ id ∈ todo
  | Forgetting j all =>
      owner_of j ∈ w_revoked w /\ settled w (owner_of j) [] /\ forall id, id ∈ all -> done_in w id = true
  | Answered j about r =>
      (xj_Operation j = OperationSessionRevoke -> owner_of j ∈ w_revoked w /\ settled w (owner_of j) []) /\
      match about with
      | Some id => process_of w j id
      | None => xo_ProcessID r = [] /\ xo_Status r = None /\ xo_Stdout r = [] /\ xo_Stderr r = [] /\ xo_Matches r = []
      end
  | Published j id | RunWaiting j id | Found j id | FoundLive j id | Stopping j id =>
      process_of w j id /\ xj_Operation j <> OperationSessionRevoke
  | RunDeleting j id _ => process_of w j id /\ xj_Operation j <> OperationSessionRevoke /\ done_in w id = true
  | Launching j | Spawned j _ | Dropping j _ | Searching j => xj_Operation j <> OperationSessionRevoke
  | CloseKilling _ ids | CloseReaping ids => w_closed w = true /\ all_settled w ids
  | CloseDone => w_closed w = true /\ all_settled w []
  | Arrived _ | TimerFired _ | Finished => True
  end.

Record inv (σ : system) : Prop := {
  i_world : world_ok (sy_world σ);
  i_phase : forall n p, sy_threads σ !! n = Some p -> phase_ok (sy_world σ) p;
  i_lock : forall n p j, sy_threads σ !! n = Some p -> holds p = Some j ->
    w_executionMu (sy_world σ) = Some n /\ owner_of j ∉ w_revoked (sy_world σ);
  i_pending : forall n p j id, sy_threads σ !! n = Some p -> pending p = Some (j, id) ->
    w_origin (sy_world σ) !! id = Some j /\ w_records (sy_world σ) !! id = None;
  i_unique : forall n m p q j k id, sy_threads σ !! n = Some p -> sy_threads σ !! m = Some q ->
    pending p = Some (j, id) -> pending q = Some (k, id) -> n = m;
  i_alive : forall id, id ∈ w_alive (sy_world σ) -> w_records (sy_world σ) !! id = None ->
    exists n p j, sy_threads σ !! n = Some p /\ pending p = Some (j, id)
}.

(** How the shared state changes: sessions stay revoked, a closed table stays closed,
    processes that ended stay ended, and a record is only added for a session that is not
    revoked, unless [exec_run] adds it. *)
Record grows (w w' : world) : Prop := {
  g_revoked : w_revoked w ⊆ w_revoked w';
  g_closed : w_closed w = true -> w_closed w' = true;
  g_origin : forall id j, w_origin w !! id = Some j -> w_origin w' !! id = Some j;
  g_records : forall id r, w_records w !! id = Some r -> exists r', w_records w' !! id = Some r' /\ (pr_done r = true -> pr_done r' = true);
  g_new : forall id r', w_records w' !! id = Some r' -> w_records w !! id = None ->
    w_closed w = false /\ forall j : ticket, w_origin w' !! id = Some j -> is_start j = true -> owner_of j ∉ w_revoked w'
}.

#[export] Instance grows_refl : Reflexive grows.
Proof. intros w. split; try done; [naive_solver|congruence]. Qed.

Lemma grows_done w w' id : grows w w' -> done_in w id = true -> done_in w' id = true.
Proof.
  unfold done_in. intros G Hd. destruct (w_records w !! id) as [r|] eqn:Hr; [|done].
  destruct (g_records _ _ G _ _ Hr) as (r' & -> & ?). auto.
Qed.

Lemma settled_grows w w' o ids : world_ok w -> grows w w' -> o ∈ w_revoked w -> settled w o ids -> settled w' o ids.
Proof.
  intros W G Ho Hs id r' j Hr Hj Hst Hjo. destruct (w_records w !! id) as [r|] eqn:Hw.
  - destruct (wo_origin _ W _ _ Hw) as (j0 & Hj0 & _). pose proof (g_origin _ _ G _ _ Hj0) as Hj1. simplify_eq.
    destruct (g_records _ _ G _ _ Hw) as (r1 & ? & Hd). simplify_eq. destruct (Hs id r j Hw Hj0 Hst eq_refl); auto.
  - destruct (g_new _ _ G _ _ Hr Hw) as [_ Hn]. exfalso. apply (Hn j Hj Hst). apply (g_revoked _ _ G). by rewrite Hjo.
Qed.

Lemma all_settled_grows w w' ids : grows w w' -> w_closed w = true -> all_settled w ids -> all_settled w' ids.
Proof.
  intros G Hc Hs id r' Hr. destruct (w_records w !! id) as [r|] eqn:Hw.
  - destruct (g_records _ _ G _ _ Hw) as (r1 & ? & Hd). simplify_eq. destruct (Hs id r Hw); auto.
  - destruct (g_new _ _ G _ _ Hr Hw). congruence.
Qed.

Lemma process_of_grows w w' j id : grows w w' -> process_of w j id -> process_of w' j id.
Proof.
  intros G [[r Hr] (k & Hk & Hs)]. split; [|exists k; split; [by apply (g_origin _ _ G)|done]].
  destruct (g_records _ _ G _ _ Hr) as (? & ? & _). by eexists.
Qed.

Lemma session_of_grows w w' o ids : grows w w' -> session_of w o ids -> session_of w' o ids.
Proof. intros G Hs id Hin. destruct (Hs id Hin) as (k & Hk & ?). exists k. split; [by apply (g_origin _ _ G)|done]. Qed.

#[local] Hint Resolve settled_grows all_settled_grows process_of_grows session_of_grows grows_done g_closed : core.

Lemma phase_ok_grows w w' p : world_ok w -> grows w w' -> phase_ok w p -> phase_ok w' p.
Proof.
  intros W G. pose proof (g_revoked _ _ G). destruct p; cbn; try done.
  all: try (intros (? & ?); split; [by eauto|]; done).
  all: try (intros (? & ? & ?); split; [by eauto|]; split; eauto; done).
  - set_solver.
  - intros (? & ? & Hd). split; [set_solver|]. split; [by eauto|]. intros id Hin. destruct (Hd id Hin); eauto.
  - intros (Hr & Ha). split; [|by destruct about; eauto]. intros Hop. destruct (Hr Hop). split; [set_solver|by eauto].
  - intros (? & ?). split; eauto.
  - intros (? & ?). split; eauto.
  - intros (? & ?). split; eauto.
Qed.

(** ** A step of a request *)

Record thread_change (n : Z) (p q : phase) (w w' : world) : Prop := {
  tc_grows : grows w w';
  tc_world : world_ok w';
  tc_phase : phase_ok w' q;
  tc_mutex : forall m, m <> n -> w_executionMu w = Some m -> w_executionMu w' = Some m /\ w_revoked w' = w_revoked w;
  tc_holds : forall j, holds q = Some j -> w_executionMu w' = Some n /\ owner_of j ∉ w_revoked w';
  tc_pending : forall j id, pending q = Some (j, id) ->
    w_origin w' !! id = Some j /\ w_records w' !! id = None /\ (pending p = Some (j, id) \/ w_origin w !! id = None);
  tc_records : forall id, w_records w !! id = None -> w_records w' !! id = None \/ exists j, pending p = Some (j, id);
  tc_alive : forall id, id ∈ w_alive w' -> id ∈ w_alive w \/ exists j, pending q = Some (j, id);
  tc_ended : forall j id, pending p = Some (j, id) -> pending q = Some (j, id) \/ is_Some (w_records w' !! id) \/ id ∉ w_alive w'
}.

Lemma inv_thread sv sv' w w' th n p q :
  inv (mkSystem sv w th) -> th !! n = Some p -> thread_change n p q w w' -> inv (mkSystem sv' w' (<[n := q]> th)).
Proof.
  intros [W P L D U A] Hn [G W' Q M Hh Hp R Al E]. cbn in *. split; cbn; [done|..].
  - intros m r [[<- <-]|[? Hm]]%lookup_insert_Some; [done|]. exact (phase_ok_grows _ _ _ W G (P _ _ Hm)).
  - intros m r j [[<- <-]|[Hne Hm]]%lookup_insert_Some Hr; [by apply Hh|].
    destruct (L _ _ _ Hm Hr) as [Hl Ho]. destruct (M m) as [-> ->]; auto.
  - intros m r j id [[<- <-]|[Hne Hm]]%lookup_insert_Some Hr; [by destruct (Hp _ _ Hr) as (? & ? & _)|].
    destruct (D _ _ _ _ Hm Hr) as [Ho Hrec]. split; [by apply (g_origin _ _ G)|].
    destruct (R _ Hrec) as [?|[j' Hj']]; [done|]. destruct Hne. by eapply U.
  - assert (Hu : forall m r j k id, th !! m = Some r -> n <> m -> pending q = Some (j, id) -> pending r = Some (k, id) -> False).
    { intros m r j k id Hm Hne Hq Hr. destruct (Hp _ _ Hq) as (_ & _ & [Hpq|Ho]); [apply Hne; by eapply U|].
      destruct (D _ _ _ _ Hm Hr). congruence. }
    intros m1 m2 p1 p2 j k id [[<- <-]|[Hne1 Hm1]]%lookup_insert_Some [[<- <-]|[Hne2 Hm2]]%lookup_insert_Some H1 H2; [done|..].
    + exfalso. by eapply Hu.
    + exfalso. by eapply (Hu m1).
    + by eapply U.
  - intros id Ha Hr. destruct (Al _ Ha) as [Hw|[j Hj]]; [|exists n, q, j; by rewrite lookup_insert_eq].
    assert (Hrw : w_records w !! id = None).
    { destruct (w_records w !! id) as [r|] eqn:Hw'; [|done]. destruct (g_records _ _ G _ _ Hw') as (? & ? & _). congruence. }
    destruct (A _ Hw Hrw) as (m & r & j & Hm & Hj). destruct (decide (m = n)) as [->|Hne].
    + simplify_eq. exists n, q, j. rewrite lookup_insert_eq. split; [done|].
      destruct (E _ _ Hj) as [?|[[? ?]|?]]; [done|congruence|done].
    + exists m, r, j. by rewrite lookup_insert_ne.
Qed.

(** *** Changes of the shared state *)

Lemma grows_same w w' :
  w_revoked w ⊆ w_revoked w' -> (w_closed w = true -> w_closed w' = true) -> w_origin w' = w_origin w -> w_records w' = w_records w ->
  grows w w'.
Proof. intros Hr Hc Ho Hrec. split; rewrite ?Ho, ?Hrec; try done; [naive_solver|congruence]. Qed.

Lemma lock_ok l w : world_ok w -> world_ok (with_lock l w).
Proof. by intros []. Qed.
Lemma lock_grows l w : grows w (with_lock l w).
Proof. by apply grows_same. Qed.

Lemma unlock_ok j w : world_ok w -> world_ok (unlock j w).
Proof. unfold unlock. destruct (is_start j); [apply lock_ok|done]. Qed.
Lemma unlock_grows j w : grows w (unlock j w).
Proof. unfold unlock. destruct (is_start j); [apply lock_grows|done]. Qed.

Lemma revoked_ok o w : world_ok w -> world_ok (with_revoked o w).
Proof. by intros []. Qed.
Lemma revoked_grows o w : grows w (with_revoked o w).
Proof. apply grows_same; try done. cbn. set_solver. Qed.

Lemma closed_ok w : world_ok w -> world_ok (with_closed w).
Proof. by intros []. Qed.

Lemma items_ok s w : world_ok w -> (forall id, id ∈ s -> done_in w id = true) -> world_ok (with_items (w_items w ∖ s) w).
Proof.
  intros [] Hs. split; cbn; try done.
  - intros id Hin. apply wo_items0. set_solver.
  - intros id r Hr Hin. destruct (decide (id ∈ s)) as [Hd|Hd]; [|apply (wo_kept0 id); set_solver].
    specialize (Hs _ Hd). unfold done_in in Hs. by rewrite Hr in Hs.
Qed.

Lemma signal_ok o id w : world_ok w -> (forall o', o = Some o' -> exists k : ticket, w_origin w !! id = Some k /\ owner_of k = o') ->
  world_ok (with_signal (o, id) w).
Proof.
  intros [] Ho. split; cbn; try done. intros o' id' [[= <- ->]|Hin]%elem_of_cons; [by apply Ho|by apply wo_signals0].
Qed.

Lemma signalRecord_world seen o id w :
  (signalRecord seen o id w).2 = w \/ (signalRecord seen o id w).2 = with_signal (o, id) w.
Proof. unfold signalRecord. destruct (w_records w !! id) as [r|]; [|by left]. destruct (live_now seen r); [by right|by left]. Qed.

Lemma spawned_ok id j w : world_ok w -> w_origin w !! id = None -> world_ok (with_spawned id j w).
Proof.
  intros [] Ho. assert (Hrec : w_records w !! id = None).
  { destruct (w_records w !! id) as [r|] eqn:Hr; [|done]. destruct (wo_origin0 _ _ Hr) as (? & ? & _). congruence. }
  split; cbn; try done.
  - intros i r Hr. destruct (wo_origin0 _ _ Hr) as (k & ? & ?). exists k. rewrite lookup_insert_ne by congruence. done.
  - intros i Hi. destruct (decide (i = id)) as [->|Hne]; [rewrite lookup_insert_eq; by eexists|].
    rewrite lookup_insert_ne by done. apply wo_alive0. set_solver.
  - intros i r Hr Hd Hi. apply (wo_done0 i r Hr Hd). assert (i <> id) by congruence. set_solver.
  - intros o i Hi. destruct (wo_signals0 _ _ Hi) as (k & ? & ?). exists k. rewrite lookup_insert_ne by congruence. done.
Qed.
Lemma spawned_grows id j w : w_origin w !! id = None -> grows w (with_spawned id j w).
Proof.
  intros Ho. split; cbn; try done; [|naive_solver|congruence]. intros i k Hk. rewrite lookup_insert_ne; [done|congruence].
Qed.

Definition publish (id : gostring) (r : processRecord) (w : world) : world :=
  with_items ({[id]} ∪ w_items w) (with_records (<[id := r]> (w_records w)) w).

Lemma publish_ok id (j : ticket) pid starttime now w :
  world_ok w -> w_origin w !! id = Some j -> world_ok (publish id (new_record j pid starttime now) w).
Proof.
  intros [] Ho. split; cbn; try done.
  - intros i r [[<- <-]|[? Hr]]%lookup_insert_Some; [|by apply wo_origin0]. exists j. split; [done|].
    unfold record_owned. cbn. by rewrite !bool_decide_eq_true_2.
  - intros i Hi. destruct (decide (i = id)) as [->|Hne]; [rewrite lookup_insert_eq; by eexists|].
    rewrite lookup_insert_ne by done. apply wo_items0. set_solver.
  - intros i r [[<- <-]|[? Hr]]%lookup_insert_Some Hi; [set_solver|]. apply (wo_kept0 i); [done|set_solver].
  - intros i r [[<- <-]|[? Hr]]%lookup_insert_Some Hd; [done|by eapply wo_done0].
  - intros i r [[<- <-]|[? Hr]]%lookup_insert_Some; [done|by eapply wo_state0].
Qed.

Lemma publish_grows id (j : ticket) r w :
  w_records w !! id = None -> w_origin w !! id = Some j -> w_closed w = false ->
  (is_start j = true -> owner_of j ∉ w_revoked w) -> grows w (publish id r w).
Proof.
  intros Hr Ho Hc Hn. split; cbn; try done.
  - intros i s Hs. exists s. rewrite lookup_insert_ne; [done|congruence].
  - intros i s [[<- <-]|[? Hs]]%lookup_insert_Some Hi; [|congruence]. split; [done|]. intros k Hk. simplify_eq. done.
Qed.

(** A record that changes keeps its owner. *)
Lemma update_ok id r r' w :
  world_ok w -> w_records w !! id = Some r -> (forall j, record_owned j r = true -> record_owned j r' = true) ->
  is_running r' = negb (pr_done r') -> (pr_done r = true -> pr_done r' = true) -> (pr_done r' = true -> id ∉ w_alive w) ->
  world_ok (with_records (<[id := r']> (w_records w)) w) /\ grows w (with_records (<[id := r']> (w_records w)) w).
Proof.
  intros [] Hr Ho Hst Hd Ha. split; split; cbn; try done.
  - intros i s [[<- <-]|[? Hs]]%lookup_insert_Some; [|by apply wo_origin0]. destruct (wo_origin0 _ _ Hr) as (j & ? & ?). exists j. auto.
  - intros i Hi. destruct (decide (i = id)) as [->|Hne]; [rewrite lookup_insert_eq; by eexists|rewrite lookup_insert_ne by done; auto].
  - intros i s [[<- <-]|[? Hs]]%lookup_insert_Some Hi; [|by apply (wo_kept0 i)]. apply Hd. by apply (wo_kept0 id).
  - intros i s [[<- <-]|[? Hs]]%lookup_insert_Some Hdone; [auto|by eapply wo_done0].
  - intros i s [[<- <-]|[? Hs]]%lookup_insert_Some; [done|by eapply wo_state0].
  - intros i s Hs. destruct (decide (i = id)) as [->|Hne]; [|exists s; by rewrite lookup_insert_ne].
    exists r'. rewrite lookup_insert_eq. simplify_eq. auto.
  - intros i s [[<- <-]|[? Hs]]%lookup_insert_Some Hi; congruence.
Qed.

(** *** Steps *)

(** What the invariant says of one request. *)
Record request_ok (n : Z) (p : phase) (w : world) : Prop := {
  ro_world : world_ok w;
  ro_phase : phase_ok w p;
  ro_lock : forall j, holds p = Some j -> w_executionMu w = Some n /\ owner_of j ∉ w_revoked w;
  ro_pending : forall j id, pending p = Some (j, id) -> w_origin w !! id = Some j /\ w_records w !! id = None
}.

Lemma inv_request σ n p : inv σ -> sy_threads σ !! n = Some p -> request_ok n p (sy_world σ).
Proof. intros [] Hn. split; eauto. Qed.

(** A step that changes neither the mutex, the records, nor the processes. *)
Record quiet (w w' : world) : Prop := {
  q_mutex : w_executionMu w' = w_executionMu w; q_revoked : w_revoked w' = w_revoked w; q_closed : w_closed w' = w_closed w;
  q_records : w_records w' = w_records w; q_alive : w_alive w' = w_alive w; q_origin : w_origin w' = w_origin w
}.

#[export] Instance quiet_refl : Reflexive quiet.
Proof. by intros w. Qed.
#[local] Hint Extern 1 (quiet _ _) => reflexivity : core.

Lemma quiet_grows w w' : quiet w w' -> grows w w'.
Proof. intros []. apply grows_same; congruence. Qed.

Lemma change_quiet n p q w w' :
  request_ok n p w -> quiet w w' -> world_ok w' -> phase_ok w' q -> pending q = pending p -> holds q = holds p \/ holds q = None ->
  thread_change n p q w w'.
Proof.
  intros [W P L D] Q W' P' Hp Hh. pose proof (quiet_grows _ _ Q) as G. destruct Q as [Hm Hr Hc Hrec Ha Ho].
  split; rewrite ?Hm, ?Hr, ?Hrec, ?Ha, ?Ho; try done.
  - intros j Hj. apply L. destruct Hh; congruence.
  - intros j id Hj. rewrite Hp in Hj. destruct (D _ _ Hj). auto.
  - auto.
  - auto.
  - intros j id Hj. left. congruence.
Qed.

(** A request that leaves with the mutex, if it holds it. *)
Lemma change_unlock n p q (j : ticket) w :
  request_ok n p w -> holds p = (if is_start j then Some j else None) -> phase_ok w q -> holds q = None -> pending q = None ->
  (forall k id, pending p = Some (k, id) -> id ∉ w_alive w) -> thread_change n p q w (unlock j w).
Proof.
  intros [W P L D] Hh P' Hq Hpq Ha.
  assert (E : w_revoked (unlock j w) = w_revoked w /\ w_records (unlock j w) = w_records w /\ w_alive (unlock j w) = w_alive w)
    by (unfold unlock; by destruct (is_start j)).
  destruct E as (Er & Erec & Ea). split; rewrite ?Er, ?Erec, ?Ea, ?Hq, ?Hpq; try done; auto using unlock_ok, unlock_grows.
  - eapply phase_ok_grows; [exact W|apply unlock_grows|done].
  - intros m Hm Hl. split; [|done]. unfold unlock. destruct (is_start j); [|done]. destruct (L _ Hh). congruence.
  - intros k id Hk. right. right. by eapply Ha.
Qed.

Lemma is_start_not_revoke j : is_start j = true -> xj_Operation j <> OperationSessionRevoke.
Proof. unfold is_start. rewrite bool_decide_eq_true. by intros ->. Qed.

Lemma fail_ok w (j : ticket) text : xj_Operation j <> OperationSessionRevoke -> phase_ok w (fail_with j text).
Proof. done. Qed.

Lemma answer_ok w (j : ticket) id r : process_of w j id -> xj_Operation j <> OperationSessionRevoke -> phase_ok w (answer j (Some id) r).
Proof. done. Qed.

#[local] Hint Resolve fail_ok answer_ok : core.

Lemma enter_change n (j : ticket) w q w' :
  request_ok n (Arrived j) w -> enter n j w = Some (q, w') -> thread_change n (Arrived j) q w w'.
Proof.
  intros R He. pose proof (ro_world _ _ _ R) as W. unfold enter in He. destruct (w_executionMu w) eqn:Hm; [done|].
  destruct (decide (xj_Operation j = OperationSessionRevoke)) as [Hop|Hop].
  { injection He as <- <-. split; cbn; try done; auto using revoked_grows, revoked_ok; [set_solver|intros m _; congruence]. }
  destruct (decide (owner_of j ∈ w_revoked w)) as [Hrev|Hrev]; [|destruct (is_start j) eqn:Hs; [|destruct (is_run j)]].
  - injection He as <- <-. apply change_quiet; auto; done.
  - injection He as <- <-. split; try done; auto using lock_grows, lock_ok.
    + intros m _. congruence.
    + intros k. cbn [holds]. rewrite Hs. by intros [= <-].
  - injection He as <- <-. apply change_quiet; auto. right. cbn [holds]. by rewrite Hs.
  - injection He as <- <-. apply change_quiet; auto; done.
Qed.

Lemma start_change n (j : ticket) id w :
  request_ok n (Launching j) w -> w_origin w !! id = None -> thread_change n (Launching j) (Spawned j id) w (with_spawned id j w).
Proof.
  intros [W P L _] Ho. assert (Hrec : w_records w !! id = None).
  { destruct (w_records w !! id) as [r|] eqn:Hr; [|done]. destruct (wo_origin _ W _ _ Hr) as (? & ? & _). congruence. }
  split; cbn; auto using spawned_ok, spawned_grows.
  - intros k i [= <- <-]. rewrite lookup_insert_eq. auto.
  - intros i Hi. apply elem_of_union in Hi as [->%elem_of_singleton|?]; eauto.
  - done.
Qed.

Lemma publish_change n (j : ticket) id pid starttime now w :
  request_ok n (Spawned j id) w -> w_closed w = false ->
  thread_change n (Spawned j id) (if is_run j then RunWaiting j id else Published j id) w (publish id (new_record j pid starttime now) w).
Proof.
  intros [W P L D] Hc. cbn in *. destruct (D j id eq_refl) as [Ho Hr].
  assert (Hq : pending (if is_run j then RunWaiting j id else Published j id) = None) by (by destruct (is_run j)).
  split; rewrite ?Hq; auto using publish_ok.
  - apply (publish_grows id j); auto. intros Hs. rewrite Hs in L. by apply L.
  - destruct (is_run j); (split; [split; [cbn; rewrite lookup_insert_eq; by eexists|exists j; cbn; done]|done]).
  - intros k Hk. apply L. destruct (is_run j); [done|exact Hk].
  - done.
  - intros i Hi. cbn. destruct (decide (i = id)) as [->|Hne]; [right; by exists j|]. left. by rewrite lookup_insert_ne.
  - intros k i [= <- <-]. right. left. cbn. rewrite lookup_insert_eq. by eexists.
Qed.

Lemma record_owned_scope (j k : ExecJob) r : record_owned j r = true -> record_owned k r = true -> same_scope k j.
Proof.
  unfold record_owned, same_scope, owner_of. rewrite !andb_true_iff, !bool_decide_eq_true.
  intros [[[-> ->] ->] ->] [[[-> ->] ->] ->]. done.
Qed.

Lemma ownedRecord_ok (j : ticket) w id : world_ok w -> ownedRecord j w = Some id -> process_of w j id.
Proof.
  intros W. unfold ownedRecord. destruct (w_records w !! xj_ProcessID j) as [r|] eqn:Hr; [|done]. cbn.
  destruct (bool_decide (xj_ProcessID j ∈ w_items w)); [|done]. destruct (record_owned j r) eqn:Ho; [|done]. intros [= <-].
  split; [by eexists|]. destruct (wo_origin _ W _ _ Hr) as (k & ? & ?). exists k. split; [done|]. by eapply record_owned_scope.
Qed.

Lemma signal_for (j : ExecJob) seen id w : world_ok w -> (exists k : ticket, w_origin w !! id = Some k /\ owner_of k = owner_of j) ->
  world_ok (signalRecord seen (Some (owner_of j)) id w).2.
Proof.
  intros W Ho. destruct (signalRecord_world seen (Some (owner_of j)) id w) as [-> | ->]; [done|].
  apply signal_ok; [done|]. by intros o' [= <-].
Qed.
Lemma signal_nobody seen id w : world_ok w -> world_ok (signalRecord seen None id w).2.
Proof. intros W. destruct (signalRecord_world seen None id w) as [-> | ->]; [done|]. by apply signal_ok. Qed.
Lemma signal_quiet seen o id w : quiet w (signalRecord seen o id w).2.
Proof. by destruct (signalRecord_world seen o id w) as [-> | ->]. Qed.

#[local] Hint Resolve signal_for signal_nobody signal_quiet : core.

Lemma process_of_session w (j : ExecJob) id : process_of w j id -> exists k : ticket, w_origin w !! id = Some k /\ owner_of k = owner_of j.
Proof. intros [_ (k & ? & ? & _)]. by exists k. Qed.

Lemma use_record_ok (j : ticket) id seen state w :
  process_of w j id -> xj_Operation j <> OperationSessionRevoke ->
  let q := use_record j id seen state w in phase_ok w q /\ pending q = None /\ holds q = None.
Proof.
  intros Hp Ho. unfold use_record. cbv zeta. repeat case_decide; repeat case_match; try done.
Qed.

Lemma act_on_ok (j : ticket) id seen scan w :
  world_ok w -> process_of w j id -> xj_Operation j <> OperationSessionRevoke ->
  let '(q, w') := act_on j id seen scan w in
  world_ok w' /\ quiet w w' /\ phase_ok w' q /\ pending q = None /\ holds q = None.
Proof.
  intros W Hp Ho. pose proof (process_of_session _ _ _ Hp) as Hs. unfold act_on. destruct (decide _) as [_|_].
  - split; [auto|]. split; [auto|]. split; [|done]. split; [|done]. eapply process_of_grows; [apply quiet_grows, signal_quiet|done].
  - destruct (decide _) as [_|_]; [|by destruct scan as [[matches scanned]|text]].
    pose proof (signal_for j seen id w W Hs) as Hw. pose proof (signal_quiet seen (Some (owner_of j)) id w) as Hq.
    destruct (signalRecord seen (Some (owner_of j)) id w) as [sent w']. cbn in Hw, Hq. split; [done|]. split; [done|].
    pose proof (process_of_grows _ _ _ _ (quiet_grows _ _ Hq) Hp). by destruct sent.
Qed.

Lemma visits_complete P w l id : visits P w l = true -> id ∈ w_items w -> P id = true -> id ∈ l.
Proof.
  unfold visits. rewrite andb_true_iff, !bool_decide_eq_true. intros [_ E] Hi HP.
  rewrite <- (elem_of_list_to_set (C := gset gostring)), E. by apply elem_of_filter.
Qed.
Lemma visits_sound P w l id : visits P w l = true -> id ∈ l -> P id = true.
Proof.
  unfold visits. rewrite andb_true_iff, !bool_decide_eq_true. intros [_ E] Hi.
  rewrite <- (elem_of_list_to_set (C := gset gostring)), E in Hi. by apply elem_of_filter in Hi as [? _].
Qed.

Lemma of_owner_spec w id r (j : ExecJob) : w_records w !! id = Some r -> record_owned j r = true -> of_owner (owner_of j) w id = true.
Proof.
  intros Hr Ho. unfold of_owner. rewrite Hr. unfold record_owned in Ho. rewrite !andb_true_iff, !bool_decide_eq_true in Ho.
  destruct Ho as [[[-> ->] _] _]. by apply bool_decide_eq_true.
Qed.

(** The snapshot of a revocation has every process of the session that has not ended. *)
Lemma sweep_ok (j : ticket) w l :
  world_ok w -> owner_of j ∈ w_revoked w -> visits (of_owner (owner_of j) w) w l = true -> phase_ok w (Killing j l l).
Proof.
  intros W Hj Hv. split; [done|]. split.
  - intros id r k Hr Hk _ Hok. destruct (decide (id ∈ w_items w)) as [Hi|Hi]; [|left; by eapply wo_kept].
    right. eapply visits_complete; [done..|]. destruct (wo_origin _ W _ _ Hr) as (k' & ? & ?). assert (k' = k) as -> by congruence. rewrite <- Hok.
    by eapply of_owner_spec.
  - intros id Hi. pose proof (visits_sound _ _ _ _ Hv Hi) as Ho. unfold of_owner in Ho.
    destruct (w_records w !! id) as [r|] eqn:Hr; [|done]. apply bool_decide_eq_true in Ho.
    destruct (wo_origin _ W _ _ Hr) as (k & Hk & Hrk). exists k. split; [done|].
    unfold record_owned in Hrk. rewrite !andb_true_iff, !bool_decide_eq_true in Hrk. destruct Hrk as [[[E1 E2] _] _].
    unfold owner_of. by rewrite <- E1, <- E2, Ho.
Qed.

Lemma done_in_record w id r : done_in w id = true -> w_records w !! id = Some r -> pr_done r = true.
Proof. unfold done_in. intros Hd Hr. by rewrite Hr in Hd. Qed.

Lemma settled_done w o id ids : settled w o (id :: ids) -> done_in w id = true -> settled w o ids.
Proof.
  intros Hs Hd i r j Hr Hj Hst Ho. destruct (Hs i r j Hr Hj Hst Ho) as [?|[->|?]%elem_of_cons]; auto. left. by eapply done_in_record.
Qed.
Lemma all_settled_done w id ids : all_settled w (id :: ids) -> done_in w id = true -> all_settled w ids.
Proof.
  intros Hs Hd i r Hr. destruct (Hs i r Hr) as [?|[->|?]%elem_of_cons]; auto. left. by eapply done_in_record.
Qed.

Lemma forget_change n (j : ticket) all w :
  request_ok n (Forgetting j all) w ->
  thread_change n (Forgetting j all) (answer j None (exec_response [] [])) w (with_items (w_items w ∖ list_to_set all) w).
Proof.
  intros R. pose proof (ro_phase _ _ _ R) as (? & ? & Hd). apply change_quiet; auto; [by split| |by split].
  apply items_ok; [apply R|]. intros id Hid%elem_of_list_to_set. by apply Hd.
Qed.

(** A revocation goes through its list. *)
Lemma revoke_change n e p q w w' :
  request_ok n p w -> thread_step e n p w = Some (q, w') ->
  match p with Sweeping _ | Killing _ _ _ | Reaping _ _ _ | Forgetting _ _ => True | _ => False end -> thread_change n p q w w'.
Proof.
  intros R Hs Hp. pose proof (ro_world _ _ _ R) as W. pose proof (ro_phase _ _ _ R) as P.
  destruct p as [| | | | | | | | | | |j|j todo all|j todo all|j all| | | | | |]; try done; destruct e; try done; cbn in Hs, P.
  - destruct (visits _ w l) eqn:Hv; [|done]. injection Hs as <- <-. apply change_quiet; auto. by apply sweep_ok.
  - destruct todo as [|id todo]; [done|]. injection Hs as <- <-. destruct P as (Hr & Hst & Hse).
    assert (Hid : exists k : ticket, w_origin w !! id = Some k /\ owner_of k = owner_of j) by (apply Hse; left).
    apply change_quiet; auto. pose proof (quiet_grows _ _ (signal_quiet seen (Some (owner_of j)) id w)) as G.
    split; [by apply (g_revoked _ _ G)|]. split; [by eapply settled_grows|]. eapply session_of_grows; [exact G|].
    intros i Hi. apply Hse. by right.
  - destruct todo; [|done]. injection Hs as <- <-. destruct P as (? & ? & _). apply change_quiet; auto. split; [done|]. auto.
  - destruct P as (Hr & Hst & Ha). destruct todo as [|id todo].
    + injection Hs as <- <-. apply change_quiet; auto. split; [done|]. split; [done|].
      intros i Hi. destruct (Ha i Hi) as [?|?%elem_of_nil]; done.
    + destruct (done_in w id) eqn:Hd; [|done]. injection Hs as <- <-. apply change_quiet; auto.
      split; [done|]. split; [by eapply settled_done|]. intros i Hi.
      destruct (Ha i Hi) as [?|[->|?]%elem_of_cons]; auto.
  - injection Hs as <- <-. by apply forget_change.
Qed.

(** [close] and the timers. *)
Lemma close_change n e p q w w' :
  request_ok n p w -> thread_step e n p w = Some (q, w') ->
  match p with TimerFired _ | Finished | CloseKilling _ _ | CloseReaping _ | CloseDone => True | _ => False end -> thread_change n p q w w'.
Proof.
  intros R Hs Hp. pose proof (ro_world _ _ _ R) as W. pose proof (ro_phase _ _ _ R) as P.
  destruct p as [| | | | | | | | | | | | | | | |id| |todo all|todo|]; try done; destruct e; try done; cbn in Hs, P.
  - injection Hs as <- <-. apply change_quiet; auto.
  - destruct todo as [|id todo]; [done|]. injection Hs as <- <-. apply change_quiet; auto.
    pose proof (signal_quiet seen None id w) as Q. cbn. rewrite (q_closed _ _ Q). destruct P. split; [done|].
    eapply all_settled_grows; [by apply quiet_grows|done..].
  - destruct todo; [|done]. injection Hs as <- <-. apply change_quiet; auto.
  - destruct P as [Hc Ha]. destruct todo as [|id todo].
    + injection Hs as <- <-. apply change_quiet; auto. by split.
    + destruct (done_in w id) eqn:Hd; [|done]. injection Hs as <- <-. apply change_quiet; auto. split; [done|]. by eapply all_settled_done.
Qed.

Lemma holds_published (j : ticket) id : holds (Published j id) = if is_start j then Some j else None.
Proof. done. Qed.

Lemma thread_step_change n e p q w w' :
  request_ok n p w -> thread_step e n p w = Some (q, w') -> thread_change n p q w w'.
Proof.
  intros R Hs. pose proof (ro_world _ _ _ R) as W. pose proof (ro_phase _ _ _ R) as P.
  destruct p as [j|j|j id|j id|j id|j id|j id r|j|j id|j id|j id|j|j todo all|j todo all|j all|j about r|id| |todo all|todo|];
    try (by eapply revoke_change); try (by eapply close_change); destruct e; try done; cbn [thread_step] in Hs.
  - by apply enter_change.
  - destruct (decide _) as [Ho|]; [|done]. injection Hs as <- <-. by apply start_change.
  - injection Hs as <- <-. apply change_unlock; done.
  - destruct (w_closed w) eqn:Hc; injection Hs as <- <-; [by apply change_quiet; auto|by apply publish_change].
  - injection Hs as <- <-. apply change_quiet; auto.
  - destruct (decide _) as [|Ha]; [done|]. injection Hs as <- <-. apply change_unlock; try done. by intros k i [= <- <-].
  - injection Hs as <- <-. destruct P. apply change_unlock; done.
  - destruct (done_in w id) eqn:Hd; [|done]. injection Hs as <- <-. destruct P. apply change_quiet; auto. done.
  - injection Hs as <- <-. destruct P as (Hp & Hop & Hd). apply change_quiet; auto.
    + by split.
    + apply items_ok; [done|]. by intros i ->%elem_of_singleton.
  - injection Hs as <- <-. destruct (ownedRecord j w) as [id|] eqn:Ho; apply change_quiet; auto. split; [by apply ownedRecord_ok|done].
  - injection Hs as <- <-. destruct P. destruct (use_record_ok j id seen state w) as (? & ? & ?); [done..|]. apply change_quiet; auto.
  - injection Hs as Hs. destruct P. pose proof (act_on_ok j id seen scan w) as Ha. rewrite Hs in Ha. destruct Ha as (? & ? & ? & ? & ?); [done..|].
    apply change_quiet; auto.
  - destruct (done_in w id) eqn:Hd; [|done]. injection Hs as <- <-. destruct P. apply change_quiet; auto.
Qed.

(** ** Steps of the others *)

Lemma inv_process sv w w' th :
  inv (mkSystem sv w th) -> world_ok w' -> grows w w' -> w_executionMu w' = w_executionMu w -> w_revoked w' = w_revoked w ->
  (forall id, w_records w !! id = None -> w_records w' !! id = None) -> w_alive w' ⊆ w_alive w -> inv (mkSystem sv w' th).
Proof.
  intros [W P L D U A] W' G Hm Hr Hrec Ha. cbn in *. split; cbn; rewrite ?Hm, ?Hr; try done.
  - intros n p Hn. exact (phase_ok_grows _ _ _ W G (P _ _ Hn)).
  - intros n p j id Hn Hp. destruct (D _ _ _ _ Hn Hp). split; [by apply (g_origin _ _ G)|auto].
  - intros id Hid Hi. apply A; [set_solver|]. destruct (w_records w !! id) as [r|] eqn:E; [|done].
    destruct (g_records _ _ G _ _ E) as (? & ? & _). congruence.
Qed.

Lemma process_step_inv sv w w' th e : inv (mkSystem sv w th) -> process_step e w = Some w' -> inv (mkSystem sv w' th).
Proof.
  intros I Hs. pose proof (i_world _ I) as W. cbn in W. destruct e as [| | | | | | | | | | | | | | | | | |id stderr value|id|id how now]; try done; cbn in Hs.
  - destruct (w_outputs w !! id) as [b|]; [|done]. cbn in Hs. destruct (decide _); [|done]. injection Hs as <-.
    eapply inv_process; [exact I|..]; try done; [by destruct W|by apply grows_same].
  - destruct (decide _); [|done]. injection Hs as <-. eapply inv_process; [exact I|..]; try done; [|by apply grows_same|cbn; set_solver].
    destruct W. split; cbn; try done; [intros i Hi; apply wo_alive0; set_solver|]. intros i r Hr Hd. specialize (wo_done0 i r Hr Hd). set_solver.
  - destruct (w_records w !! id) as [r|] eqn:Hr; [|done]. cbn in Hs. destruct (decide _) as [|Hi]; [done|].
    destruct (pr_done r) eqn:Hd; [done|]. injection Hs as <-. destruct (update_ok id r (reaped how now r) w) as [W' G]; try done.
    1-3: unfold reaped; by destruct how.
    eapply inv_process; [exact I|..]; try done. intros i E. cbn. rewrite lookup_insert_ne; [done|congruence].
Qed.

(** A new thread is one that had finished. *)
Lemma inv_fresh sv w th n : inv (mkSystem sv w th) -> th !! n = None -> inv (mkSystem sv w (<[n := Finished]> th)).
Proof.
  intros [W P L D U A] Hn. cbn in *. split; cbn; [done|..].
  - intros m p [[<- <-]|[? ?]]%lookup_insert_Some; eauto. done.
  - intros m p j [[<- <-]|[? ?]]%lookup_insert_Some; eauto. done.
  - intros m p j id [[<- <-]|[? ?]]%lookup_insert_Some; eauto. done.
  - intros m1 m2 p q j k id [[<- <-]|[? ?]]%lookup_insert_Some [[<- <-]|[? ?]]%lookup_insert_Some; eauto; done.
  - intros id Ha Hr. destruct (A id Ha Hr) as (m & p & j & Hm & Hj). exists m, p, j. rewrite lookup_insert_ne by congruence. done.
Qed.

Lemma inv_new sv sv' w w' th n q :
  inv (mkSystem sv w th) -> th !! n = None -> thread_change n Finished q w w' -> inv (mkSystem sv' w' (<[n := q]> th)).
Proof.
  intros I Hn C. rewrite <- (insert_insert_eq th n q Finished). eapply inv_thread; [by apply inv_fresh|by rewrite lookup_insert_eq|done].
Qed.

Lemma timed_out_same r :
  (forall j, record_owned j (timed_out r) = record_owned j r) /\ is_running (timed_out r) = is_running r /\ pr_done (timed_out r) = pr_done r.
Proof. unfold timed_out. destruct (is_running r) eqn:E; done. Qed.

Lemma new_thread_change n e q w w' : world_ok w -> new_thread e w = Some (q, w') -> thread_change n Finished q w w'.
Proof.
  intros W Hs. assert (R : request_ok n Finished w) by (by split).
  destruct e as [| | | | | | | | | | | | | | | |m id|m l| | |]; try done; cbn in Hs.
  - destruct (w_records w !! id) as [r|] eqn:Hr; [|done]. injection Hs as <- <-.
    destruct (timed_out_same r) as (Ho & Hst & Hd).
    destruct (update_ok id r (timed_out r) w) as [W' G]; rewrite ?Hst, ?Hd; try done;
      [intros j; by rewrite Ho|by eapply wo_state|by eapply wo_done|].
    split; try done; intros i Hi; left; [|done]. cbn. rewrite lookup_insert_ne; [done|congruence].
  - destruct (w_closed w) eqn:Hc; [injection Hs as <- <-; apply change_quiet; auto; done|]. destruct (visits _ _ _) eqn:Hv; [|done].
    injection Hs as <- <-. split; try done; auto using closed_ok; [by apply grows_same|]. split; [done|].
    intros id r Hr. destruct (pr_done r) eqn:Hd; [by left|]. right. eapply (visits_complete _ w); [done| |].
    + destruct (decide (id ∈ w_items w)); [done|]. pose proof (wo_kept _ W _ _ Hr). naive_solver congruence.
    + unfold running_in. cbn in Hr. rewrite Hr, (wo_state _ W _ _ Hr), Hd. done.
Qed.

Section runs.
Context `{UnicodeTables} `{Crypto} `{Ed25519} `{Json CapabilityClaims} `{InputJson}.

Lemma inv_step e σ σ' : inv σ -> step e σ = Some σ' -> inv σ'.
Proof.
  destruct σ as [sv w th]. intros I. unfold step. cbn [sy_supervisor sy_world sy_threads]. destruct (kind_of e) as [n|n| |n request now].
  - destruct (th !! n) as [p|] eqn:Hn; [|done]. cbn. destruct (thread_step e n p w) as [[q w']|] eqn:Hs; [|done]. intros [= <-].
    eapply inv_thread; [done..|]. eapply thread_step_change; [|done]. by apply (inv_request _ _ _ I).
  - destruct (decide _) as [Hn|]; [|done]. destruct (new_thread e w) as [[q w']|] eqn:Hs; [|done]. intros [= <-].
    eapply inv_new; [done..|]. eapply new_thread_change; [|done]. apply (i_world _ I).
  - destruct (process_step e w) as [w'|] eqn:Hs; [|done]. intros [= <-]. by eapply process_step_inv.
  - destruct (decide _) as [Hn|]; [|done]. destruct (handle request now sv) as [[r|j p root] sv'].
    + intros [= <-]. by destruct I.
    + intros [= <-]. eapply inv_new; [done..|]. apply change_quiet; auto; [|apply (i_world _ I)|done]. split; try done. apply (i_world _ I).
Qed.

Lemma inv_run es σ σ' : inv σ -> run es σ = Some σ' -> inv σ'.
Proof.
  revert σ. induction es as [|e es IH]; intros σ I; cbn; [by intros [= <-]|].
  destruct (step e σ) as [σ1|] eqn:E; [|done]. intros Hr. eapply IH; [|done]. by eapply inv_step.
Qed.

Lemma inv_start sv : inv (start sv).
Proof. split; cbn; try done. split; cbn; try done. intros ? ? ?%elem_of_nil. done. Qed.

Lemma reachable_inv es sv σ : run es (start sv) = Some σ -> inv σ.
Proof. apply inv_run, inv_start. Qed.
End runs.

(** ** Where processes come from *)

Definition ticket_of (p : phase) : option ticket :=
  match p with
  | Arrived j | Launching j | Spawned j _ | Dropping j _ | Published j _ | RunWaiting j _ | RunDeleting j _ _ | Searching j
  | Found j _ | FoundLive j _ | Stopping j _ | Sweeping j | Killing j _ _ | Reaping j _ _ | Forgetting j _ | Answered j _ _ => Some j
  | TimerFired _ | Finished | CloseKilling _ _ | CloseReaping _ | CloseDone => None
  end.

Definition arrivals (es : list event) : list timed_request :=
  omap (fun e => match e with EArrive _ request now => Some (request, now) | _ => None end) es.

(** Every request and every process has one of these tickets, and processes come from the
    operations that launch. *)
Definition launches (p : phase) : Prop := match p with Launching j => is_launch (xj_Operation j) = true | _ => True end.
Record from_tickets (P : ticket -> Prop) (σ : system) : Prop := {
  ft_threads : forall n p j, sy_threads σ !! n = Some p -> ticket_of p = Some j -> P j;
  ft_launching : forall n p, sy_threads σ !! n = Some p -> launches p;
  ft_origin : forall id j, w_origin (sy_world σ) !! id = Some j -> P j /\ is_launch (xj_Operation j) = true
}.

(** A step keeps the ticket, and a process is only added by a request that launches. *)
Definition keeps_ticket (p q : phase) (w w' : world) : Prop :=
  ticket_of q = ticket_of p /\ launches q /\
  (w_origin w' = w_origin w \/ exists j id, p = Launching j /\ w_origin w' = <[id := j]> (w_origin w)).

Lemma enter_ticket n (j : ticket) w q w' : enter n j w = Some (q, w') -> keeps_ticket (Arrived j) q w w'.
Proof.
  unfold enter. destruct (w_executionMu w); [done|]. destruct (decide (xj_Operation j = OperationSessionRevoke));
    [intros [= <- <-]; split; [done|]; split; [done|]; by left|].
  destruct (decide (owner_of j ∈ w_revoked w)); [intros [= <- <-]; split; [done|]; split; [done|]; auto|].
  destruct (is_start j) eqn:Hs; [|destruct (is_run j) eqn:Hr]; intros [= <- <-]; (split; [done|]); (split; [|by left]); try done; cbn; unfold is_launch.
  - unfold is_start in Hs. by rewrite Hs, orb_true_r.
  - unfold is_run in Hr. by rewrite Hr.
Qed.

Lemma use_record_ticket (j : ticket) id seen state w : keeps_ticket (Found j id) (use_record j id seen state w) w w.
Proof.
  assert (E : ticket_of (use_record j id seen state w) = Some j /\ launches (use_record j id seen state w)).
  { unfold use_record. cbv zeta. repeat case_decide; repeat case_match; done. }
  destruct E as [E El]. split; [done|]. split; [done|]. by left.
Qed.

Lemma act_on_ticket (j : ticket) id seen scan w : keeps_ticket (FoundLive j id) (act_on j id seen scan w).1 w (act_on j id seen scan w).2.
Proof.
  unfold act_on. pose proof (q_origin _ _ (signal_quiet seen (Some (owner_of j)) id w)) as Ho.
  destruct (decide _) as [_|_]; [split; [done|]; split; [done|]; by left|]. destruct (decide _) as [_|_].
  - destruct (signalRecord _ _ _ _) as [sent w']. cbn in Ho. by destruct sent; (split; [done|]); (split; [done|]); left.
  - destruct scan as [[? ?]|]; (split; [done|]); (split; [done|]); by left.
Qed.

Lemma unlock_origin j w : w_origin (unlock j w) = w_origin w.
Proof. unfold unlock. by destruct (is_start j). Qed.

Ltac same_ticket := split; [done|]; split; [done|]; left;
  rewrite ?unlock_origin; try done; apply (q_origin _ _ (signal_quiet _ _ _ _)).

Lemma thread_step_ticket e n p w q w' : thread_step e n p w = Some (q, w') -> keeps_ticket p q w w'.
Proof.
  intros Hs. destruct p; destruct e; try done; cbn [thread_step] in Hs; try (injection Hs as <- <-; same_ticket).
  - by eapply enter_ticket.
  - destruct (decide _); [|done]. injection Hs as <- <-. split; [done|]. split; [done|]. right. by eexists _, _.
  - destruct (w_closed w); injection Hs as <- <-; [same_ticket|]. destruct (is_run j); same_ticket.
  - destruct (decide _); [done|]. injection Hs as <- <-. same_ticket.
  - destruct (done_in w id); [|done]. injection Hs as <- <-. same_ticket.
  - injection Hs as <- <-. destruct (ownedRecord j w); same_ticket.
  - injection Hs as <- <-. apply use_record_ticket.
  - injection Hs as Hs. pose proof (act_on_ticket j id seen scan w) as Ha. by rewrite Hs in Ha.
  - destruct (done_in w id); [|done]. injection Hs as <- <-. same_ticket.
  - destruct (visits _ _ _); [|done]. injection Hs as <- <-. same_ticket.
  - destruct todo; [done|]. injection Hs as <- <-. same_ticket.
  - destruct todo; [|done]. injection Hs as <- <-. same_ticket.
  - destruct todo; [injection Hs as <- <-; same_ticket|]. destruct (done_in w _); [|done]. injection Hs as <- <-. same_ticket.
  - destruct todo; [done|]. injection Hs as <- <-. same_ticket.
  - destruct todo; [|done]. injection Hs as <- <-. same_ticket.
  - destruct todo; [injection Hs as <- <-; same_ticket|]. destruct (done_in w _); [|done]. injection Hs as <- <-. same_ticket.
Qed.

Lemma new_thread_ticket e w q w' : new_thread e w = Some (q, w') -> ticket_of q = None /\ launches q /\ w_origin w' = w_origin w.
Proof.
  destruct e; try done; cbn; intros Hs.
  - destruct (w_records w !! id) as [r|]; [|done]. by injection Hs as <- <-.
  - destruct (w_closed w); [by injection Hs as <- <-|]. destruct (visits _ _ _); [|done]. by injection Hs as <- <-.
Qed.

Lemma process_step_origin e w w' : process_step e w = Some w' -> w_origin w' = w_origin w.
Proof.
  destruct e; try done; cbn; intros Hs.
  - destruct (w_outputs w !! id) as [b|]; [|done]. cbn in Hs. destruct (decide _); [|done]. by injection Hs as <-.
  - destruct (decide _); [|done]. by injection Hs as <-.
  - destruct (w_records w !! id) as [r|]; [|done]. cbn in Hs. destruct (decide _); [done|]. destruct (pr_done r); [done|]. by injection Hs as <-.
Qed.

Section origins.
Context `{UnicodeTables} `{Crypto} `{Ed25519} `{Json CapabilityClaims} `{InputJson}.

Lemma from_tickets_step P e σ σ' :
  from_tickets P σ -> step e σ = Some σ' ->
  (forall n request now j p root sv, kind_of e = OfRequest n request now ->
     handle request now (sy_supervisor σ) = (Admit j p root, sv) -> P (mkTicket j p root)) ->
  from_tickets P σ'.
Proof.
  destruct σ as [sv w th]. intros [T L O] Hs Ha. unfold step in Hs. cbn [sy_supervisor sy_world sy_threads] in *.
  assert (Hth : forall n q w', (forall j, ticket_of q = Some j -> P j) -> launches q ->
    (forall id j, w_origin w' !! id = Some j -> P j /\ is_launch (xj_Operation j) = true) -> forall sv', from_tickets P (mkSystem sv' w' (<[n := q]> th))).
  { intros n q w' Hq Hl Ho sv'. split; [| |exact Ho]; cbn; intros m r; [intros j|]; intros [[<- <-]|[_ Hm]]%lookup_insert_Some; eauto. }
  destruct (kind_of e) as [n|n| |n request now] eqn:Hk.
  - destruct (th !! n) as [p|] eqn:Hn; [|done]. cbn in Hs. destruct (thread_step e n p w) as [[q w']|] eqn:Ht; [|done]. injection Hs as <-.
    apply thread_step_ticket in Ht as (Et & Hl & Ho). apply Hth; [rewrite Et; eauto|done|].
    destruct Ho as [-> |(j & id & -> & ->)]; [done|]. intros i k [[<- <-]|[_ Hi]]%lookup_insert_Some; [|eauto].
    split; [by eapply (T n)|]. exact (L _ _ Hn).
  - destruct (decide _); [|done]. destruct (new_thread e w) as [[q w']|] eqn:Ht; [|done]. injection Hs as <-.
    apply new_thread_ticket in Ht as (Et & Hl & Ho). apply Hth; [by rewrite Et|done|by rewrite Ho].
  - destruct (process_step e w) as [w'|] eqn:Ht; [|done]. injection Hs as <-. apply process_step_origin in Ht. split; cbn; rewrite ?Ht; done.
  - destruct (decide _); [|done]. destruct (handle request now sv) as [[r|j p root] sv'] eqn:Hh; injection Hs as <-; [by split|].
    apply Hth; [|done|done]. intros k [= <-]. by eapply Ha.
Qed.

Lemma from_tickets_run P es σ σ' :
  from_tickets P σ -> run es σ = Some σ' ->
  (forall j p root, Admit j p root ∈ (serve (arrivals es) (sy_supervisor σ)).1 -> P (mkTicket j p root)) -> from_tickets P σ'.
Proof.
  revert σ. induction es as [|e es IH]; intros σ F; cbn [run]; [by intros [= <-]|].
  destruct (step e σ) as [σ1|] eqn:E; [|done]. cbn [mbind option_bind]. intros Hr Ha.
  assert (Hsv : (exists n request now, kind_of e = OfRequest n request now /\ arrivals (e :: es) = (request, now) :: arrivals es /\
      sy_supervisor σ1 = (handle request now (sy_supervisor σ)).2) \/
    (forall n request now, kind_of e <> OfRequest n request now) /\ arrivals (e :: es) = arrivals es /\ sy_supervisor σ1 = sy_supervisor σ).
  { unfold step in E. destruct (kind_of e) as [n|n| |n request now] eqn:Hk.
    - right. split; [done|]. destruct (sy_threads σ !! n); [|done]. cbn in E. destruct (thread_step _ _ _ _) as [[]|]; [|done]. injection E as <-. by destruct e.
    - right. split; [done|]. destruct (decide _); [|done]. destruct (new_thread _ _) as [[]|]; [|done]. injection E as <-. by destruct e.
    - right. split; [done|]. destruct (process_step _ _); [|done]. injection E as <-. by destruct e.
    - left. exists n, request, now. split; [done|]. destruct e; try done. injection Hk as -> -> ->. split; [done|].
      destruct (decide _); [|done]. destruct (handle _ _ _) as [[]]; by injection E as <-. }
  eapply IH; [eapply from_tickets_step; [done..|]|done|].
  - intros n request now j p root sv Hk Hh. apply Ha. destruct Hsv as [(n' & r' & t' & Hk' & -> & _)|[Hno _]]; [|by destruct (Hno _ _ _ Hk)].
    rewrite Hk in Hk'. injection Hk' as <- <- <-. cbn [serve]. rewrite Hh. destruct (serve _ sv) as [vs sv']. left.
  - intros j p root Hin. apply Ha. destruct Hsv as [(n & r & t & _ & -> & Hs)|(_ & -> & Hs)]; rewrite Hs in Hin; [|done].
    cbn [serve]. destruct (handle r t (sy_supervisor σ)) as [v sv]. cbn in Hin. destruct (serve (arrivals es) sv) as [vs sv']. by right.
Qed.

(** C3. Every process of a supervisor, in every interleaving of requests, revocations, timers,
    closing and exits, was started by [exec_run] or [process_start] for a job that was
    authorised: see [launch_authorised]. *)
Theorem processes_authorised `{ProfileJson} `{HL : HostLaws} socketPath binary cookie publicKey profiles workspaces s0 es σ id (k : ticket) :
  NewSupervisor socketPath binary cookie publicKey profiles workspaces = Ok s0 -> run es (start s0) = Some σ ->
  w_origin (sy_world σ) !! id = Some k ->
  is_launch (xj_Operation k) = true /\
  launch_authorised cookie publicKey profiles workspaces (arrivals es) k (tk_profile k) (tk_root k).
Proof.
  intros Hs Hr Hk. destruct (from_tickets_run (fun k => Admit (tk_job k) (tk_profile k) (tk_root k) ∈ (serve (arrivals es) s0).1) es (start s0) σ)
    as [_ _ Ho]; [by split|done|done|]. destruct (Ho _ _ Hk) as [Hin Hl]. split; [done|]. by eapply admitted_launch.
Qed.

(** ** Revocation *)

(** C13. Once a revocation of a session has answered, no process that [process_start] started for
    the session is alive, and none is being started: whatever ran at the same time, and
    whatever comes after. *)
Theorem revoked_session_ended es sv σ n j about r :
  run es (start sv) = Some σ ->
  sy_threads σ !! n = Some (Answered j about r) -> xj_Operation j = OperationSessionRevoke ->
  (forall id (k : ticket), w_origin (sy_world σ) !! id = Some k -> is_start k = true -> owner_of k = owner_of j -> id ∉ w_alive (sy_world σ)) /\
  (forall m p (k : ticket), sy_threads σ !! m = Some p -> holds p = Some k -> owner_of k <> owner_of j).
Proof.
  intros I%reachable_inv Hn Hop. destruct (i_phase _ I _ _ Hn) as [Hans _]. destruct (Hans Hop) as [Hrev Hset].
  assert (Hhold : forall m p (k : ticket), sy_threads σ !! m = Some p -> holds p = Some k -> owner_of k <> owner_of j).
  { intros m p k Hm Hk E. destruct (i_lock _ I _ _ _ Hm Hk) as [_ Hnot]. apply Hnot. by rewrite E. }
  split; [|exact Hhold]. intros id k Hk Hst Ho Ha. destruct (w_records (sy_world σ) !! id) as [rec|] eqn:Hrec.
  - destruct (Hset id rec k Hrec Hk Hst Ho) as [Hd|Hd]; [|by apply elem_of_nil in Hd]. by apply (wo_done _ (i_world _ I) _ _ Hrec Hd).
  - destruct (i_alive _ I _ Ha Hrec) as (m & p & k' & Hm & Hp). destruct (i_pending _ I _ _ _ _ Hm Hp) as [Hk' _].
    assert (k' = k) as -> by congruence. apply (Hhold m p k Hm); [|done]. destruct p; try done; injection Hp as -> ->; cbn [holds]; by rewrite Hst.
Qed.

(** Once [close] has returned from its own run, every process of the table has ended; what
    is alive belongs to a request that is dropping it, or has just started it and will. *)
Theorem close_ends_processes es sv σ n :
  run es (start sv) = Some σ -> sy_threads σ !! n = Some CloseDone ->
  forall id, id ∈ w_alive (sy_world σ) ->
    w_records (sy_world σ) !! id = None /\ exists m p k, sy_threads σ !! m = Some p /\ pending p = Some (k, id).
Proof.
  intros I%reachable_inv Hn id Ha. destruct (i_phase _ I _ _ Hn) as [_ Hs].
  assert (Hr : w_records (sy_world σ) !! id = None); [|split; [done|by apply (i_alive _ I)]].
  destruct (w_records (sy_world σ) !! id) as [r|] eqn:Hr; [|done]. destruct (Hs id r Hr) as [Hd|Hd]; [|by apply elem_of_nil in Hd].
  by destruct (wo_done _ (i_world _ I) _ _ Hr Hd).
Qed.

(** Sessions do not see or touch each other's processes: the process an answer is about was
    started by the same principal and session in the same workspace under the same profile,
    an answer about none has nothing of any, and a signal sent on behalf of a session goes
    to a process of that session. *)
Theorem sessions_isolated es sv σ :
  run es (start sv) = Some σ ->
  (forall n j id r, sy_threads σ !! n = Some (Answered j (Some id) r) ->
     exists k : ticket, w_origin (sy_world σ) !! id = Some k /\ same_scope k j) /\
  (forall n j r, sy_threads σ !! n = Some (Answered j None r) ->
     xo_ProcessID r = [] /\ xo_Status r = None /\ xo_Stdout r = [] /\ xo_Stderr r = [] /\ xo_Matches r = []) /\
  (forall o id, (Some o, id) ∈ w_signals (sy_world σ) -> exists k : ticket, w_origin (sy_world σ) !! id = Some k /\ owner_of k = o).
Proof.
  intros I%reachable_inv. split; [|split].
  - intros n j id r Hn. by destruct (i_phase _ I _ _ Hn) as [_ [_ ?]].
  - intros n j r Hn. by destruct (i_phase _ I _ _ Hn) as [_ ?].
  - apply (wo_signals _ (i_world _ I)).
Qed.
End origins.

(** ** Examples *)

Definition sample_of (op id : gostring) (argv : list gostring) : ExecJob :=
  mkExecJob [] id "alice" "session-1" "ws" "task-1" "build" op sample_limits argv [] [] [] None.
Definition run_job : ExecJob := sample_of OperationExecRun "cap-1" ["all"].
Definition start_job : ExecJob := sample_of OperationProcessStart "cap-2" ["all"; "watch"].
Definition revoke_job : ExecJob := sample_of OperationSessionRevoke "cap-3" [].

Definition sample_claims_of (j : ExecJob) : CapabilityClaims := @claims_for toy_crypto plain_inputs j sample_digest (30 * second).
Definition sample_jobs_json : Json CapabilityClaims := {|
  marshal c := if decide (c = sample_claims_of run_job) then Some ("1" : gostring)
               else if decide (c = sample_claims_of start_job) then Some ("2" : gostring)
               else if decide (c = sample_claims_of revoke_job) then Some ("3" : gostring) else None;
  decode_strict s := if decide (s = ("1" : gostring)) then Some (sample_claims_of run_job)
                     else if decide (s = ("2" : gostring)) then Some (sample_claims_of start_job)
                     else if decide (s = ("3" : gostring)) then Some (sample_claims_of revoke_job) else None
|}.
Definition sample_arrival (n : Z) (j : ExecJob) (payload : gostring) : event :=
  EArrive n (mkExecRequest sample_cookie (with_token (exec_token payload (@ed_sign toy_ed sample_key (exec_signed payload))) j)) second.

Definition sample_run (es : list event) : option system :=
  @run ascii_tables toy_crypto toy_ed sample_jobs_json plain_inputs es (start sample_supervisor).

(** A process is started, its session is revoked, the process is killed and ends. *)
Definition revoke_schedule : list event :=
  [sample_arrival 1 start_job "2"; EEnter 1; EStart 1 "p1"; EPublish 1 100 7 second; EReport 1; EOutput "p1" false "hello";
   sample_arrival 2 revoke_job "3"; EEnter 2; ESweep 2 ["p1"]; EKill 2 (Some 7); EExit "p1"; EReap "p1" (WaitStatus (-1) true) (2 * second);
   EAwait 2; EAwait 2; EAwait 2; EForget 2].

(** The check of an [exec_run], then a whole revocation, then the start of the process. *)
Definition late_schedule : list event :=
  [sample_arrival 1 run_job "1"; EEnter 1; sample_arrival 2 revoke_job "3"; EEnter 2; ESweep 2 []; EAwait 2; EAwait 2; EForget 2;
   EStart 1 "p1"; EPublish 1 100 7 second].

(** Request [n] is an answered revocation, and process [id] of its session is alive. *)
Definition outlives (n : Z) (id : gostring) (σ : system) : bool :=
  match sy_threads σ !! n, w_origin (sy_world σ) !! id with
  | Some (Answered j _ _), Some (mkTicket k _ _) =>
      bool_decide (xj_Operation j = OperationSessionRevoke) && bool_decide (owner_of k = owner_of j) && bool_decide (id ∈ w_alive (sy_world σ))
  | _, _ => false
  end.

(** [exec_run] is checked under [executionMu] but launched outside of it: its process can
    start after a revocation of its session has answered. *)
Theorem exec_run_outlives_revocation : outlives 2 "p1" <$> sample_run late_schedule = Some true.
Proof. vm_compute. reflexivity. Qed.

Definition sample_end : system := default (start sample_supervisor) (sample_run revoke_schedule).

Lemma revoked_session_ended_witness : ("p1" : gostring) ∉ w_alive (sy_world sample_end).
Proof.
  destruct (sy_threads sample_end !! 2) as [[| | | | | | | | | | | | | | |j about r| | | | |]|] eqn:E; try (vm_compute in E; discriminate E).
  refine (proj1 (@revoked_session_ended ascii_tables toy_crypto toy_ed sample_jobs_json plain_inputs revoke_schedule sample_supervisor
    sample_end 2 j about r _ E _) "p1" (default (mkTicket j sample_profile []) (w_origin (sy_world sample_end) !! ("p1" : gostring))) _ _ _).
  - vm_compute. reflexivity.
  - vm_compute in E. injection E as <- _ _. reflexivity.
  - vm_compute. reflexivity.
  - vm_compute. reflexivity.
  - vm_compute in E. injection E as <- _ _. vm_compute. reflexivity.
Defined.

Lemma sessions_isolated_witness :
  exists k : ticket, w_origin (sy_world sample_end) !! ("p1" : gostring) = Some k /\ owner_of k = ("alice" : gostring, "session-1" : gostring).
Proof.
  refine (proj2 (proj2 (@sessions_isolated ascii_tables toy_crypto toy_ed sample_jobs_json plain_inputs revoke_schedule sample_supervisor
    sample_end _)) ("alice" : gostring, "session-1" : gostring) "p1" _).
  - vm_compute. reflexivity.
  - replace (w_signals (sy_world sample_end)) with [(Some ("alice" : gostring, "session-1" : gostring), "p1" : gostring)] by (vm_compute; reflexivity).
    left.
Defined.

Lemma processes_authorised_witness :
  exists k : ticket, w_origin (sy_world sample_end) !! ("p1" : gostring) = Some k /\
    @job_allowed k (tk_profile k) /\ Executable (tk_profile k) = "/usr/bin/make".
Proof.
  exists (default (mkTicket start_job sample_profile []) (w_origin (sy_world sample_end) !! ("p1" : gostring))). split; [vm_compute; reflexivity|].
  split; [|vm_compute; reflexivity].
  refine (la_allowed _ _ _ _ _ _ _ _ (proj2 (@processes_authorised ascii_tables toy_crypto toy_ed sample_jobs_json plain_inputs plain_profiles
    plain_host plain_host_laws "/run/x/exec.sock" "/usr/bin/exec-worker" sample_cookie sample_seed
    {["build" : gostring := sample_profile]} {["ws" : gostring := "/srv/ws" : gostring]} sample_supervisor revoke_schedule sample_end "p1" _ _ _ _))).
  all: vm_compute; reflexivity.
Defined.

Lemma output_bounded_witness : bo_stdout (write_all [(false, "abc" : gostring); (true, "de" : gostring); (false, "f" : gostring)] (newBoundedOutput 4)) `prefix_of` "abcf".
Proof. exact (proj1 (output_bounded 4 [(false, "abc" : gostring); (true, "de" : gostring); (false, "f" : gostring)] ltac:(lia))). Defined.
