(* ===== verification/ExecMemory.v ===== *)
(** * Memory scans of managed processes ([internal/execworker/mem_linux.go])

    A scan reads the readable regions of a process in chunks and looks for a pattern. A match
    may lie across two chunks, so the last bytes of a chunk are carried over to the next. The
    files of [/proc] are parameters: the text of [maps] and the reads of [mem]. *)
From S2P Require Import Prelude GoStrings Strconv Base64 Token ExecProfile ExecCapability ExecServer.
#[local] Open Scope Z_scope.

Definition maxMemoryPatternBytes : Z := 4096.
Definition memoryReadChunk : Z := Z.shiftl 64 10.
Definition maxMemoryContextBytes : Z := 16.

Inductive scan_error := MemoryPattern | ProcessIdentity | MapsUnreadable | MemUnreadable.

(** [safeMemoryError] *)
Definition safeMemoryError (e : scan_error) : gostring :=
  match e with
  | ProcessIdentity => "managed process identity is no longer valid"
  | MemoryPattern => "memory scan pattern is invalid"
  | _ => "bounded memory scan failed"
  end.

(** ** The pattern *)

Definition hex_value (c : ascii) : option Z :=
  let n := code c in
  if (48 <=? n) && (n <=? 57) then Some (n - 48)
  else if (97 <=? n) && (n <=? 102) then Some (n - 87)
  else if (65 <=? n) && (n <=? 70) then Some (n - 55) else None.

(** [hex.DecodeString] *)
Fixpoint hex_decode (s : gostring) : option gostring :=
  match s with
  | [] => Some []
  | h :: l :: s => a ← hex_value h; b ← hex_value l; rest ← hex_decode s; Some (byte_of (16 * a + b) :: rest)
  | [_] => None
  end.

Definition decodeMemoryPattern `{UnicodeTables} (request : MemoryScan) : result scan_error gostring :=
  let p := ms_Pattern request in
  let canonical (decode : gostring -> option gostring) (encode : gostring -> gostring) : option gostring :=
    value ← decode p; if bool_decide (encode value = p) then Some value else None in
  let value :=
    if decide (ms_Mode request = MemoryHex) then
      if bool_decide (p = []) || negb (bool_decide (to_lower p = p)) || negb (len p mod 2 =? 0) then None else canonical hex_decode hex_encode
    else if decide (ms_Mode request = MemoryBase64) then canonical std_decode std_encode
    else None in
  match value with
  | None => Err MemoryPattern
  | Some v => reject (len v =? 0) || (maxMemoryPatternBytes <? len v) with MemoryPattern; Ok v
  end.

(** ** Regions *)

Record memoryRegion := mkRegion { rg_start : Z; rg_end : Z }.

(** [strings.Fields] of a line, as far as its white space is ASCII. *)
Definition is_space (c : ascii) : bool := let n := code c in (n =? 32) || ((9 <=? n) && (n <=? 13)).
Fixpoint fields_from (word : gostring) (s : gostring) : list gostring :=
  match s with
  | [] => if decide (word = []) then [] else [word]
  | c :: s =>
      if is_space c then (if decide (word = []) then fields_from [] s else word :: fields_from [] s)
      else fields_from (word ++ [c]) s
  end.
Definition fields (s : gostring) : list gostring := fields_from [] s.

(** [strconv.ParseUint(s, 16, 64)] *)
Definition parse_hex (s : gostring) : option Z :=
  if decide (s = []) then None
  else
    n ← foldl (fun acc c => n ← acc; d ← hex_value c; Some (16 * n + d)) (Some 0) s;
    if n <? 2 ^ 64 then Some n else None.

Definition parse_region (line : gostring) : option memoryRegion :=
  match fields line with
  | range :: perms :: _ =>
      if negb (has_prefix perms "r") then None
      else
        match index range "-" with
        | None => None
        | Some i =>
            start ← parse_hex (take i range); end_ ← parse_hex (drop (S i) range);
            if (end_ <=? start) || (max_int <? start) then None else Some (mkRegion start end_)
        end
  | _ => None
  end.

(** The first [max] readable regions; [max] is at least 1 in a signed job. *)
Definition readableMemoryRegions (maps : gostring) (max : Z) : list memoryRegion :=
  take (Z.to_nat max) (omap parse_region (split_byte LF maps)).

(** ** The identity of a process ([internal/execworker/proc_linux.go]) *)

(** [strings.LastIndexByte] *)
Fixpoint last_index_byte (s : gostring) (c : ascii) : option nat :=
  match s with
  | [] => None
  | d :: s => match last_index_byte s c with Some i => Some (S i) | None => if decide (d = c) then Some O else None end
  end.

(** [strconv.ParseUint(s, 10, 64)] *)
Definition parse_decimal (s : gostring) : option Z :=
  if decide (s = []) then None
  else
    n ← foldl (fun acc c => n ← acc; if (48 <=? code c) && (code c <=? 57) then Some (10 * n + (code c - 48)) else None) (Some 0) s;
    if n <? 2 ^ 64 then Some n else None.

(** The text of [/proc/<pid>/stat]; what follows the command starts at field 3, and the start
    time is field 22. *)
Definition procStarttime (raw : gostring) : option Z :=
  match last_index_byte raw ")" with
  | None => None
  | Some closeParen =>
      if len raw <=? Z.of_nat closeParen + 2 then None
      else
        let fields := fields (drop (closeParen + 2) raw) in
        if len fields <=? 19 then None else field ← fields !! 19%nat; parse_decimal field
  end.

Definition process_state (letter : gostring) : gostring :=
  if decide (letter ∈ (["T"; "t"] : list gostring)) then "stopped"
  else if decide (letter ∈ (["Z"; "X"; "x"] : list gostring)) then "exited" else "running".

(** The text of [/proc/<pid>/status]. *)
Fixpoint state_line (lines : list gostring) : option gostring :=
  match lines with
  | [] => None
  | line :: rest =>
      if has_prefix line "State:"
      then match fields (trim_prefix line "State:") with letter :: _ => Some (process_state letter) | [] => state_line rest end
      else state_line rest
  end.

(** [procState]: [None] when the process is another one or a file cannot be read. *)
Definition procState (stat status : option gostring) (expectedStarttime : Z) : option gostring :=
  if decide ((stat ≫= procStarttime) = Some expectedStarttime) then text ← status; state_line (split_byte LF text) else None.

Definition is_word (w : gostring) : Prop := w <> [] /\ Forall (fun c => is_space c = false /\ c <> ")"%char) w.

Lemma fields_from_word word w s : Forall (fun c => is_space c = false) w -> fields_from word (w ++ s) = fields_from (word ++ w) s.
Proof.
  revert word. induction w as [|c w IH]; intros word; [by rewrite app_nil_r|]. intros [Hc Hw]%Forall_cons. cbn. rewrite Hc, IH by done.
  by rewrite <- app_assoc.
Qed.

Lemma fields_join ws : Forall is_word ws -> fields (join [SP] ws) = ws.
Proof.
  unfold fields. induction ws as [|w ws IH]; [done|]. intros [[Hne Hw] Hws]%Forall_cons.
  assert (Hs : Forall (fun c => is_space c = false) w) by (eapply Forall_impl; [exact Hw|]; by intros c [? _]).
  destruct ws as [|w' ws].
  - cbn [join]. rewrite <- (app_nil_r w) at 1. rewrite fields_from_word by done. cbn. by rewrite decide_False.
  - rewrite join_cons, fields_from_word by done. cbn [app fields_from].
    replace (is_space SP) with true by done. rewrite decide_False by done. by rewrite IH.
Qed.

Lemma last_index_byte_none s c : c ∉ s -> last_index_byte s c = None.
Proof.
  induction s as [|d s IH]; [done|]. intros [Hd Hs]%not_elem_of_cons. cbn. rewrite IH by done. by rewrite decide_False.
Qed.

Lemma last_index_byte_app s t c : c ∉ t -> last_index_byte (s ++ c :: t) c = Some (length s).
Proof.
  intros Ht. induction s as [|d s IH]; cbn; [|by rewrite IH]. by rewrite last_index_byte_none, decide_True.
Qed.

Lemma join_word_clean ws : Forall is_word ws -> ")"%char ∉ join [SP] ws.
Proof.
  induction ws as [|w ws IH]; [intros _; apply not_elem_of_nil|]. intros [[_ Hw] Hws]%Forall_cons.
  assert (Hc : ")"%char ∉ w) by (rewrite Forall_forall in Hw; intros Hin; by destruct (Hw _ Hin)).
  destruct ws as [|w' ws]; [done|]. rewrite join_cons by done. rewrite !not_elem_of_app. split; [done|]. split; [|by apply IH].
  by intros ?%list_elem_of_singleton.
Qed.

(** A process cannot forge its start time by its name: whatever the command in the stat line
    is, with blanks and parentheses, field 22 is what is read. *)
Lemma procStarttime_robust pid command ws field :
  Forall is_word ws -> ws !! 19%nat = Some field ->
  procStarttime (pid ++ " (" ++ command ++ ") " ++ join [SP] ws) = parse_decimal field.
Proof.
  intros Hw Hf. unfold procStarttime.
  replace (pid ++ " (" ++ command ++ ") " ++ join [SP] ws) with ((pid ++ " (" ++ command) ++ ")"%char :: SP :: join [SP] ws)
    by (rewrite <- !app_assoc; done).
  rewrite last_index_byte_app by (apply not_elem_of_cons; split; [done|by apply join_word_clean]).
  set (head := pid ++ " (" ++ command). rewrite drop_app_ge by lia. replace (length head + 2 - length head)%nat with 2%nat by lia. cbn [drop].
  cbv zeta. rewrite drop_0, fields_join by done. pose proof (lookup_lt_Some _ _ _ Hf) as Hl. rewrite Hf.
  assert (Hj : 0 < len (join [SP] ws)).
  { destruct ws as [|w ws]; [done|]. apply Forall_cons in Hw as [[Hne _] _]. destruct w; [done|].
    destruct ws; [unfold len; cbn; lia|]. rewrite join_cons by done. rewrite len_app. unfold len. cbn [length]. lia. }
  destruct (Z.leb_spec (len (head ++ ")"%char :: SP :: join [SP] ws)) (Z.of_nat (length head) + 2)) as [Hc|_].
  { exfalso. revert Hc Hj. rewrite len_app. unfold len. cbn [length]. lia. }
  destruct (Z.leb_spec (len ws) 19) as [Hc|_]; [exfalso; unfold len in Hc; lia|]. done.
Qed.

(** ** Matches *)

(** The [n] low bytes of a number, the highest first. *)
Definition big_endian (n : nat) (z : Z) : gostring :=
  (fun i => byte_of (Z.shiftr z (8 * Z.of_nat i) mod 256)) <$> reverse (seq 0 n).

Section scan.
Context `{Crypto}.

Definition memoryMatch (regionIndex offset : Z) (pattern combined : gostring) (found : nat) (request : MemoryScan) : MemoryMatch :=
  let digest := hex_encode (sha256 (big_endian 4 regionIndex ++ big_endian 8 offset ++ pattern)) in
  if negb (ms_IncludeContext request) then mkMemoryMatch regionIndex offset digest [] [] false
  else
    let start := Z.of_nat found in
    let start := if len pattern <? maxMemoryContextBytes then start - (maxMemoryContextBytes - len pattern) / 2 else start in
    let start := if start <? 0 then 0 else start in
    let start := if len combined <? start then len combined else start in
    let end_ := start + maxMemoryContextBytes in
    let end_ := if len combined <? end_ then len combined else end_ in
    let contextBytes := slice (Z.to_nat start) (Z.to_nat end_) combined in
    mkMemoryMatch regionIndex offset digest
      (if decide (ms_Mode request = MemoryHex) then hex_encode contextBytes else std_encode contextBytes) (ms_Mode request) true.

(** The inner loop: every position moves [searchAt], so [length combined + 1] rounds are
    enough. *)
Fixpoint search_loop (fuel : nat) (regionIndex base consumed : Z) (pattern combined : gostring) (request : MemoryScan) (maxResults : Z)
    (searchAt : nat) (matches : list MemoryMatch) : list MemoryMatch :=
  match fuel with
  | O => matches
  | S fuel =>
      if (Z.of_nat searchAt <=? len combined - len pattern) && (len matches <? maxResults) then
        match index (drop searchAt combined) pattern with
        | None => matches
        | Some i =>
            let found := (i + searchAt)%nat in
            let offset := base + Z.of_nat found in
            let matches :=
              if consumed <? offset + len pattern then matches ++ [memoryMatch regionIndex offset pattern combined found request]
              else matches in
            search_loop fuel regionIndex base consumed pattern combined request maxResults (found + 1) matches
        end
      else matches
  end.

(** [pread offset want] is what [unix.Pread] of that many bytes at that place of the region
    reads, and whether it reports an error. *)
Fixpoint region_loop (fuel : nat) (pread : Z -> Z -> gostring * bool) (regionIndex budget : Z) (pattern : gostring) (request : MemoryScan)
    (maxResults consumed : Z) (carry : gostring) (matches : list MemoryMatch) : list MemoryMatch * Z :=
  match fuel with
  | O => (matches, consumed)
  | S fuel =>
      if (consumed <? budget) && (len matches <? maxResults) then
        let want := if budget - consumed <? memoryReadChunk then budget - consumed else memoryReadChunk in
        let '(chunk, failed) := pread consumed want in
        if len chunk <=? 0 then (matches, consumed)
        else
          let combined := carry ++ chunk in
          let base := consumed - len carry in
          let matches := search_loop (S (length combined)) regionIndex base consumed pattern combined request maxResults 0 matches in
          let consumed := consumed + len chunk in
          let carryBytes := if len combined <? len pattern - 1 then len combined else len pattern - 1 in
          let carry := drop (Z.to_nat (len combined - carryBytes)) combined in
          if failed || (len chunk <? want) then (matches, consumed)
          else region_loop fuel pread regionIndex budget pattern request maxResults consumed carry matches
      else (matches, consumed)
  end.

(** Every round reads at least a byte. *)
Definition scanMemoryRegion (pread : Z -> Z -> gostring * bool) (regionIndex budget : Z) (pattern : gostring) (request : MemoryScan)
    (maxResults : Z) : list MemoryMatch * Z :=
  region_loop (S (Z.to_nat budget)) pread regionIndex budget pattern request maxResults 0 [] [].

(** [mem region] reads at an offset of the region; addresses are 64-bit integers. *)
Fixpoint scan_regions (mem : Z -> Z -> gostring * bool) (regions : list memoryRegion) (regionIndex : Z) (pattern : gostring)
    (request : MemoryScan) (limits : Limits) (matches : list MemoryMatch) (scanned : Z) : list MemoryMatch * Z :=
  match regions with
  | [] => (matches, scanned)
  | region :: rest =>
      if (ScanBytes limits <=? scanned) || (ScanResults limits <=? len matches) then (matches, scanned)
      else
        let regionBytes := wrap64 (rg_end region - rg_start region) in
        let remaining := ScanBytes limits - scanned in
        let regionBytes := if remaining <? regionBytes then remaining else regionBytes in
        let '(found, readBytes) :=
          scanMemoryRegion (fun offset want => mem (wrap64 (rg_start region + offset)) want) regionIndex regionBytes pattern request
            (ScanResults limits - len matches) in
        scan_regions mem rest (regionIndex + 1) pattern request limits (matches ++ found) (scanned + readBytes)
  end.

(** [before] and [after_] are the start times that the system reports for the process before
    and after the scan. *)
Definition scanProcessMemory `{UnicodeTables} (before_ after_ : option Z) (maps : option gostring) (mem : option (Z -> Z -> gostring * bool))
    (expectedStarttime : Z) (request : MemoryScan) (limits : Limits) : result scan_error (list MemoryMatch * Z) :=
  pattern ← decodeMemoryPattern request;
  reject negb (bool_decide (before_ = Some expectedStarttime)) with ProcessIdentity;
  match maps with
  | None => Err MapsUnreadable
  | Some text =>
      match mem with
      | None => Err MemUnreadable
      | Some pread =>
          let r := scan_regions pread (readableMemoryRegions text (ScanRegions limits)) 0 pattern request limits [] 0 in
          reject negb (bool_decide (after_ = Some expectedStarttime)) with ProcessIdentity;
          Ok r
      end
  end.

(** ** The reference: all occurrences *)

(** The positions from [a] on, [n] of them, where the pattern occurs. *)
Definition hits (text pattern : gostring) (a n : nat) : list nat :=
  filter (fun i => has_prefix (drop i text) pattern = true) (seq a n).

(** The positions of the occurrences within the first [hi] bytes. *)
Definition occurrences (image pattern : gostring) (hi : nat) : list nat := hits image pattern 0 (S hi - length pattern).

Lemma hits_none text pattern a n :
  (forall i, (a <= i < a + n)%nat -> has_prefix (drop i text) pattern = false) -> hits text pattern a n = [].
Proof.
  revert a. induction n as [|n IH]; intros a Hn; [done|]. unfold hits in *. cbn [seq]. rewrite filter_cons_False; [|rewrite Hn; [done|lia]].
  apply IH. intros i Hi. apply Hn. lia.
Qed.

Lemma hits_app text pattern a n m : hits text pattern a (n + m) = hits text pattern a n ++ hits text pattern (a + n) m.
Proof. unfold hits. by rewrite seq_app, filter_app. Qed.

Lemma hits_cons text pattern a n : has_prefix (drop a text) pattern = true -> hits text pattern a (S n) = a :: hits text pattern (S a) n.
Proof. intros Hp. unfold hits. cbn [seq]. by rewrite filter_cons_True. Qed.

Lemma hits_index text pattern a i :
  (a <= length text)%nat -> index (drop a text) pattern = Some i ->
  hits text pattern a (S (length text) - a) = (i + a)%nat :: hits text pattern (i + a + 1) (S (length text) - (i + a + 1)).
Proof.
  intros Ha (Hp & Hn & Hi)%index_Some. rewrite drop_drop in Hp. rewrite length_drop in Hi.
  replace (S (length text) - a)%nat with (i + S (S (length text) - (i + a + 1)))%nat by lia.
  rewrite hits_app, hits_none; [|intros j Hj; specialize (Hn (j - a)%nat ltac:(lia)); rewrite drop_drop in Hn; by replace (a + (j - a))%nat with j in Hn by lia].
  rewrite hits_cons by done. cbn [app]. f_equal; [lia|]. f_equal; lia.
Qed.


Lemma hits_short text pattern a n : pattern <> [] -> (length text < a + length pattern)%nat -> hits text pattern a n = [].
Proof.
  intros Hp Hl. apply hits_none. intros i Hi. destruct (has_prefix (drop i text) pattern) eqn:E; [|done].
  apply has_prefix_length in E. rewrite length_drop in E. destruct pattern; [done|]. cbn in *. lia.
Qed.

(** ** The inner loop *)

(** The new matches of a chunk, in order. *)
Definition new_matches (regionIndex base consumed : Z) (pattern combined : gostring) (request : MemoryScan) (positions : list nat) : list MemoryMatch :=
  (fun i => memoryMatch regionIndex (base + Z.of_nat i) pattern combined i request) <$>
    filter (fun i => (consumed <? base + Z.of_nat i + len pattern) = true) positions.

Lemma new_matches_nil r b c p t q n : take n (new_matches r b c p t q []) = [].
Proof. apply take_nil. Qed.

Lemma search_loop_spec fuel regionIndex base consumed pattern combined request maxResults a matches :
  pattern <> [] -> (length combined < fuel + a)%nat ->
  search_loop fuel regionIndex base consumed pattern combined request maxResults a matches =
  matches ++ take (Z.to_nat (maxResults - len matches))
    (new_matches regionIndex base consumed pattern combined request (hits combined pattern a (S (length combined) - a))).
Proof.
  intros Hp. revert a matches. induction fuel as [|fuel IH]; intros a matches Hf; cbn [search_loop].
  { replace (S (length combined) - a)%nat with 0%nat by lia. change (hits combined pattern a 0) with (@nil nat). by rewrite new_matches_nil, app_nil_r. }
  destruct (Z.leb_spec (Z.of_nat a) (len combined - len pattern)) as [Ha|Ha]; cbn [andb]; cycle 1.
  { rewrite hits_short by (done || unfold len in *; lia). by rewrite new_matches_nil, app_nil_r. }
  assert (Hal : (a <= length combined)%nat) by (unfold len in *; lia).
  destruct (Z.ltb_spec (len matches) maxResults) as [Hl|Hl]; cycle 1.
  { replace (Z.to_nat (maxResults - len matches)) with 0%nat by lia. by rewrite take_0, app_nil_r. }
  destruct (index (drop a combined) pattern) as [i|] eqn:Hi; cycle 1.
  { rewrite hits_none; [by rewrite new_matches_nil, app_nil_r|]. intros j Hj. rewrite index_None in Hi. specialize (Hi (j - a)%nat).
    rewrite length_drop, drop_drop in Hi. replace (a + (j - a))%nat with j in Hi by lia. apply Hi. lia. }
  rewrite (hits_index _ _ _ _ Hal Hi), IH by lia. unfold new_matches at 2. rewrite filter_cons.
  destruct (consumed <? base + Z.of_nat (i + a) + len pattern) eqn:Hc.
  - rewrite decide_True by done. rewrite fmap_cons, <- app_assoc, len_app. cbn [app]. f_equal.
    replace (Z.to_nat (maxResults - len matches)) with
      (S (Z.to_nat (maxResults - (len matches + len [memoryMatch regionIndex (base + Z.of_nat (i + a)) pattern combined (i + a) request]))))
      by (unfold len in *; cbn [length]; lia).
    done.
  - by rewrite decide_False.
Qed.

(** ** A region *)

(** The reads are of one text: the memory does not change during the scan. *)
Definition reads_image (pread : Z -> Z -> gostring * bool) (image : gostring) : Prop :=
  forall offset want, 0 <= offset -> 0 <= want ->
    len (pread offset want).1 <= want /\
    (pread offset want).1 = take (length (pread offset want).1) (drop (Z.to_nat offset) image).

(** A match without its context. *)
Definition place_of (m : MemoryMatch) : Z * Z * gostring := (mm_RegionIndex m, mm_Offset m, mm_Digest m).
Definition place_at (regionIndex : Z) (pattern : gostring) (i : nat) : Z * Z * gostring :=
  (regionIndex, Z.of_nat i, hex_encode (sha256 (big_endian 4 regionIndex ++ big_endian 8 (Z.of_nat i) ++ pattern))).

Lemma place_of_match regionIndex offset pattern combined i request :
  place_of (memoryMatch regionIndex offset pattern combined i request) =
  (regionIndex, offset, hex_encode (sha256 (big_endian 4 regionIndex ++ big_endian 8 offset ++ pattern))).
Proof. unfold memoryMatch. by destruct (ms_IncludeContext request). Qed.

Lemma slice_hit (image pattern : gostring) a b i :
  pattern <> [] -> (b <= length image)%nat ->
  has_prefix (drop i (slice a b image)) pattern = true <-> has_prefix (drop (a + i) image) pattern = true /\ (a + i + length pattern <= b)%nat.
Proof.
  intros Hp Hb. unfold slice. rewrite skipn_firstn_comm, drop_drop, !has_prefix_take, take_take.
  assert (0 < length pattern)%nat by (destruct pattern; [done|cbn; lia]).
  destruct (decide (a + i + length pattern <= b)%nat) as [Hle|Hgt].
  - replace (length pattern `min` (b - a - i))%nat with (length pattern) by lia. naive_solver.
  - split; [|lia]. intros E. apply (f_equal length) in E. rewrite length_take, length_drop in E. lia.
Qed.

Lemma hits_shift t1 t2 pattern b a n :
  (forall i, (a <= i < a + n)%nat -> has_prefix (drop (b + i) t1) pattern = has_prefix (drop i t2) pattern) ->
  hits t1 pattern (b + a) n = (fun i => b + i)%nat <$> hits t2 pattern a n.
Proof.
  revert a. induction n as [|n IH]; intros a Hi; [done|]. unfold hits in *. cbn [seq].
  pose proof (Hi a ltac:(lia)) as Ha. rewrite <- Nat.add_succ_r.
  destruct (has_prefix (drop a t2) pattern) eqn:E.
  - rewrite !filter_cons_True, fmap_cons by done. f_equal. apply IH. intros i ?. apply Hi. lia.
  - rewrite !filter_cons_False by congruence. apply IH. intros i ?. apply Hi. lia.
Qed.

Lemma filter_all {A} (P : A -> Prop) `{forall x, base.Decision (P x)} l : Forall P l -> filter P l = l.
Proof. induction 1 as [|x l Hx _ IH]; [done|]. by rewrite filter_cons_True, IH. Qed.

(** What a chunk adds to the occurrences is what the loop finds in the carried bytes and the
    chunk: none is reported twice, none is lost at the border. *)
Lemma chunk_occurrences (image pattern : gostring) c n :
  pattern <> [] -> (c + n <= length image)%nat ->
  let base := (S c - length pattern)%nat in
  let combined := slice base (c + n) image in
  occurrences image pattern (c + n) = occurrences image pattern c ++
    ((fun i => base + i)%nat <$> filter (fun i => (Z.of_nat c <? Z.of_nat base + Z.of_nat i + len pattern) = true)
                                   (hits combined pattern 0 (S (length combined) - 0))).
Proof.
  intros Hp Hn base combined. assert (0 < length pattern)%nat by (destruct pattern; [done|cbn; lia]).
  assert (Hlen : length combined = (c + n - base)%nat) by (unfold combined; apply slice_length; lia).
  unfold occurrences. set (m := (S (c + n) - length pattern - base)%nat).
  replace (S (c + n) - length pattern)%nat with (base + m)%nat by lia.
  rewrite hits_app. fold base. f_equal. rewrite filter_all by (apply Forall_forall; intros i _; apply Z.ltb_lt; unfold len; lia).
  rewrite Hlen, Nat.sub_0_r. replace (S (c + n - base))%nat with (m + (S (c + n - base) - m))%nat by lia.
  rewrite hits_app, (hits_short combined pattern (0 + m)), app_nil_r by (done || lia).
  replace (0 + base)%nat with (base + 0)%nat by lia. apply (hits_shift image combined pattern base 0). intros i Hi. unfold combined. apply eq_true_iff_eq.
  rewrite slice_hit by (done || lia). split; [intros ?; split; [done|lia]|naive_solver].
Qed.

Lemma slice_slice {A} (l : list A) a b i j : (a + j <= b)%nat -> slice i j (slice a b l) = slice (a + i) (a + j) l.
Proof. intros Hj. unfold slice. rewrite skipn_firstn_comm, take_take, drop_drop. f_equal. lia. Qed.

Lemma drop_slice {A} (l : list A) a b k : drop k (slice a b l) = slice (a + k) b l.
Proof. unfold slice. rewrite skipn_firstn_comm, drop_drop. f_equal. lia. Qed.

(** What a match shows of the memory around it: at most 16 bytes, and only when asked. *)
Definition context_ok (image : gostring) (request : MemoryScan) (m : MemoryMatch) : Prop :=
  if ms_IncludeContext request
  then mm_Sensitive m = true /\ exists a b, (b <= a + 16)%nat /\ (b <= length image)%nat /\
    mm_Context m = if decide (ms_Mode request = MemoryHex) then hex_encode (slice a b image) else std_encode (slice a b image)
  else mm_Sensitive m = false /\ mm_Context m = [].

Lemma match_context (image : gostring) a b regionIndex offset pattern found request :
  (a <= b)%nat -> (b <= length image)%nat ->
  context_ok image request (memoryMatch regionIndex offset pattern (slice a b image) found request).
Proof.
  intros Ha Hb. unfold context_ok, memoryMatch. destruct (ms_IncludeContext request); [|done]. cbn [negb].
  split; [done|]. cbn [mm_Context]. set (start := if len (slice a b image) <? _ then _ else _). set (end_ := if _ <? start + _ then _ else _).
  assert (Hl : len (slice a b image) = Z.of_nat (b - a)) by (unfold len; f_equal; by apply slice_length).
  assert (He : end_ <= start + 16 /\ end_ <= len (slice a b image)).
  { unfold end_, maxMemoryContextBytes. destruct (Z.ltb_spec (len (slice a b image)) (start + 16)); lia. }
  destruct (decide (0 <= end_)) as [Hp|Hn].
  - assert (Hs : 0 <= start).
    { unfold start. pose proof (len_nonneg (slice a b image)). repeat case_match; bool_props; lia. }
    exists (a + Z.to_nat start)%nat, (a + Z.to_nat end_)%nat. split; [lia|]. split; [lia|].
    by rewrite slice_slice by lia.
  - exists 0%nat, 0%nat. split; [lia|]. split; [lia|]. replace (Z.to_nat end_) with 0%nat by lia. by unfold slice.
Qed.

(** After the first [c] bytes of a region. *)
Record region_inv (image pattern : gostring) (regionIndex : Z) (request : MemoryScan) (maxResults : Z) (c : nat) (carry : gostring)
    (matches : list MemoryMatch) : Prop := {
  ri_in : (c <= length image)%nat;
  ri_carry : carry = slice (S c - length pattern) c image;
  ri_places : place_of <$> matches = take (Z.to_nat maxResults) (place_at regionIndex pattern <$> occurrences image pattern c);
  ri_context : Forall (context_ok image request) matches
}.

Lemma new_places regionIndex base c pattern combined request positions :
  place_of <$> new_matches regionIndex (Z.of_nat base) c pattern combined request positions =
  place_at regionIndex pattern <$> ((fun i => base + i)%nat <$> filter (fun i => (c <? Z.of_nat base + Z.of_nat i + len pattern) = true) positions).
Proof.
  unfold new_matches. rewrite <- !list_fmap_compose. apply list_fmap_ext. intros _ i _. cbn. rewrite place_of_match. unfold place_at.
  by rewrite Nat2Z.inj_add.
Qed.

Lemma region_chunk image pattern regionIndex request maxResults c carry matches n :
  pattern <> [] -> region_inv image pattern regionIndex request maxResults c carry matches -> len matches < maxResults ->
  (c + n <= length image)%nat ->
  let combined := carry ++ slice c (c + n) image in
  let consumed := Z.of_nat c in
  region_inv image pattern regionIndex request maxResults (c + n)
    (drop (Z.to_nat (len combined - (if len combined <? len pattern - 1 then len combined else len pattern - 1))) combined)
    (search_loop (S (length combined)) regionIndex (consumed - len carry) consumed pattern combined request maxResults 0 matches).
Proof.
  intros Hp [Hin -> Hpl Hcx] Hl Hn. cbv zeta. assert (0 < length pattern)%nat by (destruct pattern; [done|cbn; lia]).
  rewrite slice_app by lia. set (base := (S c - length pattern)%nat). set (combined := slice base (c + n) image).
  assert (Hlen : length combined = (c + n - base)%nat) by (unfold combined; apply slice_length; lia).
  replace (Z.of_nat c - len (slice base c image)) with (Z.of_nat base) by (unfold len; rewrite slice_length by lia; lia).
  rewrite search_loop_spec by (done || lia). split; [done| | |].
  - unfold combined at 4. rewrite drop_slice. f_equal. unfold len. rewrite Hlen. destruct (Z.ltb_spec (Z.of_nat (c + n - base)) (Z.of_nat (length pattern) - 1)); lia.
  - rewrite fmap_app, fmap_take, new_places, Hpl, chunk_occurrences by done. fold base combined. rewrite fmap_app, take_app.
    assert (Hall : length (place_at regionIndex pattern <$> occurrences image pattern c) = length matches).
    { apply (f_equal length) in Hpl. rewrite length_fmap, length_take in Hpl. unfold len in Hl. lia. }
    rewrite Hall. f_equal. f_equal. unfold len. lia.
  - apply Forall_app. split; [done|]. apply Forall_take. unfold new_matches. apply Forall_fmap, Forall_forall. intros i _. cbn.
    apply match_context; lia.
Qed.

Lemma region_loop_inv fuel pread image pattern regionIndex budget request maxResults c carry matches ms consumed :
  pattern <> [] -> reads_image pread image -> region_inv image pattern regionIndex request maxResults c carry matches ->
  Z.of_nat c <= Z.max 0 budget ->
  region_loop fuel pread regionIndex budget pattern request maxResults (Z.of_nat c) carry matches = (ms, consumed) ->
  exists c' carry', consumed = Z.of_nat c' /\ consumed <= Z.max 0 budget /\
    region_inv image pattern regionIndex request maxResults c' carry' ms.
Proof.
  intros Hp Hr. revert c carry matches. induction fuel as [|fuel IH]; intros c carry matches I Hb; cbn [region_loop].
  { intros [= <- <-]. by exists c, carry. }
  destruct (Z.ltb_spec (Z.of_nat c) budget) as [Hc|]; cbn [andb]; [|intros [= <- <-]; by exists c, carry].
  destruct (Z.ltb_spec (len matches) maxResults) as [Hl|]; [|intros [= <- <-]; by exists c, carry].
  set (want := if budget - Z.of_nat c <? memoryReadChunk then _ else _).
  assert (Hw : 0 <= want <= budget - Z.of_nat c).
  { assert (memoryReadChunk = 65536) by done. unfold want. destruct (Z.ltb_spec (budget - Z.of_nat c) memoryReadChunk); lia. }
  pose proof (Hr (Z.of_nat c) want ltac:(lia) ltac:(lia)) as [Hlen Hchunk]. rewrite Nat2Z.id in Hchunk.
  destruct (pread (Z.of_nat c) want) as [chunk failed]. cbn [fst] in *.
  destruct (len chunk <=? 0); [intros [= <- <-]; by exists c, carry|].
  set (n := length chunk) in *. assert (Hn : (c + n <= length image)%nat).
  { pose proof (ri_in _ _ _ _ _ _ _ _ I). apply (f_equal length) in Hchunk. rewrite length_take, length_drop in Hchunk. fold n in Hchunk. lia. }
  assert (E : chunk = slice c (c + n) image) by (unfold slice; replace (c + n - c)%nat with n by lia; done).
  pose proof (region_chunk _ _ _ _ _ _ _ _ n Hp I Hl Hn) as I'. cbv zeta in I'. rewrite <- E in I'.
  replace (Z.of_nat c + len chunk) with (Z.of_nat (c + n)) by (unfold len; fold n; lia).
  assert (Hb' : Z.of_nat (c + n) <= Z.max 0 budget) by (unfold len in Hlen; fold n in Hlen; lia).
  destruct (failed || (len chunk <? want)); [intros [= <- <-]; by eexists _, _|]. by apply IH.
Qed.

(** C28. The scan of a region, chunk by chunk, reports exactly what a search of the bytes it read
    as one text finds: every occurrence, overlapping ones and those across chunks included,
    each once, in order, up to the limit, with its offset in the region and its digest. It
    reads at most its budget, and shows at most 16 bytes of the memory around a match. *)
Theorem scanMemoryRegion_exact pread image regionIndex budget pattern request maxResults matches consumed :
  pattern <> [] -> reads_image pread image ->
  scanMemoryRegion pread regionIndex budget pattern request maxResults = (matches, consumed) ->
  0 <= consumed <= Z.max 0 budget /\ consumed <= len image /\
  place_of <$> matches = take (Z.to_nat maxResults) (place_at regionIndex pattern <$> occurrences image pattern (Z.to_nat consumed)) /\
  Forall (context_ok image request) matches.
Proof.
  intros Hp Hr Hs. assert (I0 : region_inv image pattern regionIndex request maxResults 0 [] []).
  { assert (0 < length pattern)%nat by (destruct pattern; [done|cbn; lia]). split; [lia| | |constructor].
    - unfold slice. by rewrite Nat.sub_0_l.
    - unfold occurrences. replace (1 - length pattern)%nat with 0%nat by lia. symmetry. apply take_nil. }
  destruct (region_loop_inv _ _ _ _ _ _ _ _ 0 _ _ _ _ Hp Hr I0 ltac:(lia) Hs) as (c & carry & -> & Hb & [Hin _ Hpl Hcx]).
  rewrite Nat2Z.id. unfold len. split; [lia|]. split; [lia|]. done.
Qed.

(** When every read is whole and the limit on matches is not reached, the scan goes on to
    the end of the budget or of the memory. *)
Definition reads_whole (pread : Z -> Z -> gostring * bool) (image : gostring) : Prop :=
  forall offset want, 0 <= offset -> 0 <= want -> pread offset want = (take (Z.to_nat want) (drop (Z.to_nat offset) image), false).

Lemma reads_whole_image pread image : reads_whole pread image -> reads_image pread image.
Proof.
  intros Hr offset want Ho Hw. rewrite Hr by done. cbn [fst]. unfold len. rewrite length_take, length_drop. split; [lia|].
  destruct (decide (Z.to_nat want <= length image - Z.to_nat offset)%nat); [by rewrite Nat.min_l by lia|].
  rewrite Nat.min_r by lia. rewrite !take_ge by (rewrite length_drop; lia). done.
Qed.

Lemma region_loop_end fuel pread image pattern regionIndex budget request maxResults c carry matches ms consumed :
  reads_whole pread image -> (c <= length image)%nat -> Z.of_nat c <= budget -> (Z.to_nat (budget - Z.of_nat c) < fuel)%nat ->
  region_loop fuel pread regionIndex budget pattern request maxResults (Z.of_nat c) carry matches = (ms, consumed) ->
  maxResults <= len ms \/ consumed = Z.min budget (len image).
Proof.
  intros Hr. revert c carry matches. induction fuel as [|fuel IH]; intros c carry matches Hi Hb Hf; [lia|]. cbn [region_loop].
  destruct (Z.ltb_spec (Z.of_nat c) budget) as [Hc|]; cbn [andb]; [|intros [= <- <-]; right; unfold len; lia].
  destruct (Z.ltb_spec (len matches) maxResults) as [Hl|]; [|intros [= <- <-]; by left].
  set (want := if budget - Z.of_nat c <? memoryReadChunk then _ else _).
  assert (Hw : 0 < want <= budget - Z.of_nat c /\ (want = budget - Z.of_nat c \/ want = memoryReadChunk)).
  { assert (memoryReadChunk = 65536) by done. unfold want. destruct (Z.ltb_spec (budget - Z.of_nat c) memoryReadChunk); lia. }
  rewrite Hr, Nat2Z.id by lia. cbn zeta iota beta. set (chunk := take (Z.to_nat want) (drop c image)).
  assert (Hn : len chunk = Z.min want (len image - Z.of_nat c)) by (unfold chunk, len; rewrite length_take, length_drop; lia).
  destruct (Z.leb_spec (len chunk) 0) as [He|He]; [intros [= <- <-]; right; unfold len in *; lia|]. cbn [orb].
  destruct (Z.ltb_spec (len chunk) want) as [Hs|Hs]; [intros [= <- <-]; right; lia|].
  replace (Z.of_nat c + len chunk) with (Z.of_nat (c + length chunk)) by (unfold len; lia). apply IH; unfold len in *; lia.
Qed.

Theorem scanMemoryRegion_complete pread image regionIndex budget pattern request maxResults matches consumed :
  reads_whole pread image -> 0 <= budget ->
  scanMemoryRegion pread regionIndex budget pattern request maxResults = (matches, consumed) ->
  maxResults <= len matches \/ consumed = Z.min budget (len image).
Proof.
  intros Hr Hb. unfold scanMemoryRegion. apply (region_loop_end _ _ image _ _ _ _ _ 0); try done; lia.
Qed.

(** ** A process *)

(** A read returns at most what was asked for, and something only when it was asked for. *)
Definition reads_bounded (pread : Z -> Z -> gostring * bool) : Prop := forall offset want, len (pread offset want).1 <= Z.max 0 want.

Lemma search_loop_length fuel regionIndex base consumed pattern combined request maxResults a matches :
  len matches <= Z.max 0 maxResults ->
  len (search_loop fuel regionIndex base consumed pattern combined request maxResults a matches) <= Z.max 0 maxResults.
Proof.
  revert a matches. induction fuel as [|fuel IH]; intros a matches Hl; cbn [search_loop]; [done|].
  destruct (_ <=? _); cbn [andb]; [|done]. destruct (Z.ltb_spec (len matches) maxResults); [|done].
  destruct (index _ _); [|done]. apply IH. destruct (consumed <? _); [|done]. rewrite len_app. unfold len in *. cbn [length]. lia.
Qed.

Lemma region_loop_bounds fuel pread regionIndex budget pattern request maxResults consumed carry matches :
  reads_bounded pread -> 0 <= consumed <= Z.max 0 budget -> len matches <= Z.max 0 maxResults ->
  let r := region_loop fuel pread regionIndex budget pattern request maxResults consumed carry matches in
  len r.1 <= Z.max 0 maxResults /\ 0 <= r.2 <= Z.max 0 budget.
Proof.
  intros Hr. revert consumed carry matches. induction fuel as [|fuel IH]; intros consumed carry matches Hc Hl; cbn [region_loop]; [done|].
  destruct (Z.ltb_spec consumed budget) as [Hb|]; cbn [andb]; [|done]. destruct (len matches <? maxResults); [|done].
  set (want := if budget - consumed <? memoryReadChunk then _ else _).
  assert (Hw : want <= budget - consumed) by (unfold want; destruct (Z.ltb_spec (budget - consumed) memoryReadChunk); lia).
  pose proof (Hr consumed want) as Hlen. destruct (pread consumed want) as [chunk failed]. cbn [fst] in Hlen.
  destruct (Z.leb_spec (len chunk) 0); [done|]. cbv zeta.
  assert (Hc' : 0 <= consumed + len chunk <= Z.max 0 budget) by (unfold memoryReadChunk in *; lia).
  destruct (failed || _); [split; [by apply search_loop_length|done]|]. apply IH; [done|by apply search_loop_length].
Qed.

Lemma scan_regions_bounds mem regions regionIndex pattern request limits matches scanned :
  reads_bounded mem -> 0 <= scanned <= Z.max 0 (ScanBytes limits) -> len matches <= Z.max 0 (ScanResults limits) ->
  let r := scan_regions mem regions regionIndex pattern request limits matches scanned in
  len r.1 <= Z.max 0 (ScanResults limits) /\ 0 <= r.2 <= Z.max 0 (ScanBytes limits).
Proof.
  intros Hr. revert regionIndex matches scanned. induction regions as [|region rest IH]; intros regionIndex matches scanned Hs Hl; cbn [scan_regions]; [done|].
  destruct (Z.leb_spec (ScanBytes limits) scanned); cbn [orb]; [done|]. destruct (Z.leb_spec (ScanResults limits) (len matches)); [done|].
  set (budget := if _ <? wrap64 _ then _ else _). set (pread := fun offset want => _).
  assert (Hb : budget <= ScanBytes limits - scanned).
  { unfold budget. destruct (Z.ltb_spec (ScanBytes limits - scanned) (wrap64 (rg_end region - rg_start region))); lia. }
  pose proof (region_loop_bounds (S (Z.to_nat budget)) pread regionIndex budget pattern request (ScanResults limits - len matches) 0 [] []) as Hreg.
  unfold scanMemoryRegion. destruct (region_loop _ _ _ _ _ _ _ _ _ _) as [found readBytes]. cbn [fst snd] in Hreg.
  destruct Hreg as [Hr1 Hr2]; [intros offset want; apply Hr|lia|unfold len; cbn; lia|]. apply IH; [lia|]. rewrite len_app. lia.
Qed.

Lemma decodeMemoryPattern_Ok `{UnicodeTables} request v :
  decodeMemoryPattern request = Ok v ->
  1 <= len v <= maxMemoryPatternBytes /\
  ms_Pattern request = if decide (ms_Mode request = MemoryHex) then hex_encode v else std_encode v.
Proof.
  unfold decodeMemoryPattern. cbv zeta.
  assert (Hc : forall (decode : gostring -> option gostring) (encode : gostring -> gostring) value,
    (v0 ← decode (ms_Pattern request); if bool_decide (encode v0 = ms_Pattern request) then Some v0 else None) = Some value -> ms_Pattern request = encode value).
  { intros decode encode value. destruct (decode _); [|done]. cbn. case_bool_decide; [|done]. by intros [= <-]. }
  destruct (decide (ms_Mode request = MemoryHex)).
  - destruct (_ || _ || _); [done|]. destruct (_ ≫= _) as [value|] eqn:E; [|done]. intros [Hb [= <-]]%guard_Ok. apply Hc in E.
    split; [|done]. pose proof (len_nonneg value). bool_props. lia.
  - destruct (decide (ms_Mode request = MemoryBase64)); [|done]. destruct (_ ≫= _) as [value|] eqn:E; [|done].
    intros [Hb [= <-]]%guard_Ok. apply Hc in E. split; [|done]. pose proof (len_nonneg value). bool_props. lia.
Qed.

(** A scan stays within the signed limits: at most [scan_bytes] bytes are read and at most
    [scan_results] matches reported, for a canonical pattern of 1 to 4096 bytes, and only
    when the process is still the one that was started, before and after. *)
Theorem scanProcessMemory_bounds `{UnicodeTables} before_ after_ maps mem starttime request limits matches scanned :
  (forall pread, mem = Some pread -> reads_bounded pread) ->
  scanProcessMemory before_ after_ maps mem starttime request limits = Ok (matches, scanned) ->
  len matches <= Z.max 0 (ScanResults limits) /\ 0 <= scanned <= Z.max 0 (ScanBytes limits) /\
  before_ = Some starttime /\ after_ = Some starttime /\
  exists v, 1 <= len v <= maxMemoryPatternBytes /\
    ms_Pattern request = if decide (ms_Mode request = MemoryHex) then hex_encode v else std_encode v.
Proof.
  intros Hm. unfold scanProcessMemory. intros (v & Hv & Hs)%bind_Ok. apply guard_Ok in Hs as [Hb%negb_false_iff%bool_decide_eq_true Hs].
  destruct maps as [text|]; [|done]. destruct mem as [pread|]; [|done]. cbv zeta in Hs.
  apply guard_Ok in Hs as [Ha%negb_false_iff%bool_decide_eq_true Hs].
  pose proof (scan_regions_bounds pread (readableMemoryRegions text (ScanRegions limits)) 0 v request limits [] 0) as Hx.
  destruct (scan_regions _ _ _ _ _ _ _ _) as [ms sc]. injection Hs as -> ->. cbn [fst snd] in Hx.
  destruct Hx as [? ?]; [by apply Hm|lia|unfold len; cbn; lia|]. do 4 (split; [done|]). exists v. by apply decodeMemoryPattern_Ok.
Qed.
End scan.

(** ** Examples *)

Definition sample_memory : gostring := "xxabcabcabcxx".
(** Reads that are whole. *)
Definition small_reads (offset want : Z) : gostring * bool := (take (Z.to_nat want) (drop (Z.to_nat offset) sample_memory), false).
Definition sample_scan : MemoryScan := mkMemoryScan "616263616263" MemoryHex true.

Lemma sample_reads_whole : reads_whole small_reads sample_memory.
Proof. by intros offset want. Qed.

Lemma scanMemoryRegion_exact_witness :
  place_of <$> (@scanMemoryRegion toy_crypto small_reads 0 13 "abcabc" sample_scan 5).1 = (@place_at toy_crypto 0 "abcabc") <$> [2; 5]%nat.
Proof.
  assert (Ho : occurrences sample_memory "abcabc" 13 = [2; 5]%nat) by reflexivity. rewrite <- Ho.
  refine (proj1 (proj2 (proj2 (@scanMemoryRegion_exact toy_crypto small_reads sample_memory 0 13 "abcabc" sample_scan 5 _ 13 _ _ _)))).
  - discriminate.
  - apply reads_whole_image, sample_reads_whole.
  - vm_compute. reflexivity.
Defined.

Lemma scanMemoryRegion_complete_witness :
  (@scanMemoryRegion toy_crypto small_reads 0 20 "abcabc" sample_scan 5).2 = 13.
Proof.
  destruct (@scanMemoryRegion_complete toy_crypto small_reads sample_memory 0 20 "abcabc" sample_scan 5
    (@scanMemoryRegion toy_crypto small_reads 0 20 "abcabc" sample_scan 5).1 _ sample_reads_whole ltac:(lia) eq_refl) as [Hl|Hc].
  - exfalso. revert Hl. apply Z.lt_nge. apply (bool_decide_unpack _). vm_compute. exact I.
  - etrans; [exact Hc|reflexivity].
Defined.
