(* ===== verification/NetPolicy.v ===== *)
(** * Targets of the network worker ([internal/networkworker/policy.go])

    URLs are brought into one form, and a target is admitted by its scheme, its port and
    either its name or its address; every address a name resolves to is checked again,
    when the job starts, at each redirection and at each connection. *)
From S2P Require Import Prelude GoStrings Utf8 GoPath.
#[local] Open Scope Z_scope.

(** ** Addresses ([net/netip]) *)

Inductive Addr := AddrZero | V4 (n : Z) | V6 (n : Z) (zone : gostring).

#[export] Instance Addr_eq_dec : EqDecision Addr.
Proof. solve_decision. Defined.

Record Prefix := mkPrefix { p_addr : Addr; p_bits : Z }.

Definition BitLen (a : Addr) : Z := match a with AddrZero => 0 | V4 _ => 32 | V6 _ _ => 128 end.
Definition Zone (a : Addr) : gostring := match a with V6 _ zone => zone | _ => [] end.
Definition IsValid (a : Addr) : bool := match a with AddrZero => false | _ => true end.
Definition bits_of (a : Addr) : Z := match a with AddrZero => 0 | V4 n | V6 n _ => n end.

(** An address of a.b.c.d. *)
Definition ipv4 (a b c d : Z) : Addr := V4 (Z.shiftl a 24 + Z.shiftl b 16 + Z.shiftl c 8 + d).

Definition Unmap (a : Addr) : Addr :=
  match a with
  | V6 n zone => if Z.shiftr n 32 =? 0xffff then V4 (Z.land n 0xffffffff) else a
  | _ => a
  end.

(** [Prefix.Contains]: the leading bits of the prefix are those of the address. *)
Definition Contains (p : Prefix) (a : Addr) : bool :=
  IsValid (p_addr p) && (0 <=? p_bits p) && bool_decide (Zone a = []) && (BitLen (p_addr p) =? BitLen a) &&
  (0 <? BitLen a) &&
  (Z.shiftr (bits_of a) (BitLen a - p_bits p) =? Z.shiftr (bits_of (p_addr p)) (BitLen a - p_bits p)).

(** [Prefix.Masked().Addr()]. *)
Definition masked_addr (p : Prefix) : Addr :=
  let w := BitLen (p_addr p) - p_bits p in
  let cut n := Z.shiftl (Z.shiftr n w) w in
  match p_addr p with AddrZero => AddrZero | V4 n => V4 (cut n) | V6 n zone => V6 (cut n) zone end.
Definition Masked (p : Prefix) : Prefix := mkPrefix (masked_addr p) (p_bits p).

Definition leading (a : Addr) (k v : Z) : bool := Z.shiftr (bits_of a) (BitLen a - k) =? v.

Definition IsUnspecified (a : Addr) : bool := match a with AddrZero => false | _ => (bits_of a =? 0) && bool_decide (Zone a = []) end.
Definition IsPrivate (a : Addr) : bool :=
  match a with
  | V4 _ => leading a 8 10 || leading a 12 0xac1 || leading a 16 0xc0a8
  | V6 _ _ => leading a 7 0x7e
  | AddrZero => false
  end.
Definition IsLoopback (a : Addr) : bool :=
  match a with V4 _ => leading a 8 127 | V6 n zone => (n =? 1) && bool_decide (zone = []) | AddrZero => false end.
Definition IsMulticast (a : Addr) : bool :=
  match a with V4 _ => leading a 4 14 | V6 _ _ => leading a 8 255 | AddrZero => false end.
Definition IsLinkLocalUnicast (a : Addr) : bool :=
  match a with V4 _ => leading a 16 0xa9fe | V6 _ _ => leading a 10 0x3fa | AddrZero => false end.
Definition IsLinkLocalMulticast (a : Addr) : bool :=
  match a with V4 _ => leading a 24 0xe00000 | V6 n _ => Z.land (Z.shiftr n 112) 0xff0f =? 0xff02 | AddrZero => false end.
Definition IsGlobalUnicast (a : Addr) : bool :=
  match a with
  | AddrZero => false
  | _ => negb (IsUnspecified a) && negb (bool_decide (a = V4 0xffffffff)) && negb (IsLoopback a) && negb (IsMulticast a) &&
         negb (IsLinkLocalUnicast a)
  end.

(** ** What the package takes from [net/netip], [net/url] and [path] *)

Class Netip := {
  ParseAddr : gostring -> option Addr;
  addr_string : Addr -> gostring;
  ParsePrefix : gostring -> option Prefix;
  prefix_string : Prefix -> gostring
}.

Record URL := mkURL {
  u_Scheme : gostring; u_Opaque : gostring; u_User : bool; u_Host : gostring; u_Path : gostring; u_RawPath : gostring;
  u_RawQuery : gostring; u_Fragment : gostring
}.

(** [url.ParseRequestURI], [url.Parse], [URL.String], [URL.EscapedPath], [url.ParseQuery]
    followed by [Values.Encode], and [net.SplitHostPort]. *)
Class NetURL := {
  ParseRequestURI : gostring -> option URL;
  Parse : gostring -> option URL;
  url_string : URL -> gostring;
  EscapedPath : URL -> gostring;
  reencode_query : gostring -> option gostring;
  SplitHostPort : gostring -> option (gostring * gostring)
}.

Definition COLON : ascii := byte_of 58.
Definition is_digit (c : ascii) : bool := (48 <=? code c) && (code c <=? 57).

Definition validOptionalPort (port : gostring) : bool :=
  match port with [] => true | c :: rest => bool_decide (c = COLON) && forallb is_digit rest end.

(** [URL.Hostname] and [URL.Port]. *)
Definition splitHostPort (hostPort : gostring) : gostring * gostring :=
  let '(host, port) :=
    match last_index_any hostPort [COLON] with
    | Some colon => if validOptionalPort (drop colon hostPort) then (take colon hostPort, drop (S colon) hostPort) else (hostPort, [])
    | None => (hostPort, [])
    end in
  (if has_prefix host "[" && has_suffix host "]" then take (length host - 2) (drop 1 host) else host, port).
Definition Hostname (u : URL) : gostring := (splitHostPort (u_Host u)).1.
Definition Port (u : URL) : gostring := (splitHostPort (u_Host u)).2.

Definition JoinHostPort (host port : gostring) : gostring :=
  if contains_byte host COLON then "[" ++ host ++ "]:" ++ port else host ++ ":" ++ port.

(** [strconv.ParseUint(s, 10, 16)]. *)
Definition parse_uint16 (s : gostring) : option Z :=
  if bool_decide (s = []) || negb (forallb is_digit s) then None
  else let n := foldl (fun n c => 10 * n + (code c - 48)) 0 s in
       if 65535 <? n then None else Some n.

(** ** Policies *)

Record Policy := mkPolicy {
  AllowedDomains : list gostring; AllowedPorts : list Z; AllowedSchemes : list gostring; AllowedCIDRs : list gostring;
  AllowedRequestHeaders : list gostring; AllowPrivate : bool
}.

Inductive net_error :=
  | URLControl | URLForm | URLUserinfo | URLScheme | ScopedAddress | BadDNSName | BadPort | AmbiguousPath | BadQuery
  | DomainIsAddress | BadDomain | ShortWildcard | BadScheme | ZeroPort | BadCIDR | BadRequestHeader
  | NotNormalized | SchemeDenied | PortDenied | BadDialHost | MetadataHost | CIDRDenied | DomainDenied
  | ResolutionFailed | NoAddresses | InvalidAddress | MetadataAddress | PrivateAddress.

Definition hardAllowedRequestHeaders : list gostring :=
  ["accept"; "content-type"; "if-match"; "if-modified-since"; "if-none-match"; "if-unmodified-since"; "range"; "user-agent"].

Definition permanentlyDeniedHostnames : list gostring :=
  ["instance-data"; "instance-data.ec2.internal"; "metadata.google.internal"; "metadata.goog"; "metadata.azure.internal"].

Definition permanentlyDeniedAddresses : list Addr :=
  [ipv4 169 254 169 254; ipv4 169 254 170 2; ipv4 169 254 0 23; ipv4 100 100 100 200; ipv4 168 63 129 16;
   V6 (Z.shiftl 0xfd000ec2 96 + 0x254) []; V6 (Z.shiftl 0xfe80 112 + 0xa9fea9fe) []].

Definition restrictedAddressRanges : list Prefix :=
  [mkPrefix (ipv4 0 0 0 0) 32; mkPrefix (ipv4 10 0 0 0) 8; mkPrefix (ipv4 100 64 0 0) 10; mkPrefix (ipv4 127 0 0 0) 8;
   mkPrefix (ipv4 169 254 0 0) 16; mkPrefix (ipv4 172 16 0 0) 12; mkPrefix (ipv4 192 168 0 0) 16;
   mkPrefix (ipv4 224 0 0 0) 4; mkPrefix (ipv4 240 0 0 0) 4; mkPrefix (V6 0 []) 128; mkPrefix (V6 1 []) 128;
   mkPrefix (V6 (Z.shiftl 0xfc 120) []) 7; mkPrefix (V6 (Z.shiftl 0xfe80 112) []) 10; mkPrefix (V6 (Z.shiftl 0xff 120) []) 8].

Section policy.
Context `{UnicodeTables} `{Netip} `{NetURL}.

(** ** Names *)

Definition label_char (c : ascii) : bool := ((97 <=? code c) && (code c <=? 122)) || is_digit c || bool_decide (c = "-"%char).

Definition label_ok (label : gostring) : bool :=
  negb (bool_decide (label = [])) && (len label <=? 63) && negb (has_prefix label "-") && negb (has_suffix label "-") &&
  forallb label_char label.

Definition validateDNSName (host : gostring) : result net_error unit :=
  reject bool_decide (host = []) || (253 <? len host) || negb (is_ascii host) with BadDNSName;
  reject negb (forallb label_ok (split_byte "." host)) with BadDNSName;
  Ok tt.

Definition normalizeHost (raw : gostring) : result net_error gostring :=
  let host := to_lower (trim_suffix raw ".") in
  match ParseAddr host with
  | Some address => reject negb (bool_decide (Zone address = [])) with ScopedAddress; Ok (addr_string (Unmap address))
  | None => _ ← validateDNSName host; Ok host
  end.

Definition hostForURL (host : gostring) : gostring := if contains host ":" then "[" ++ host ++ "]" else host.

(** ** URLs *)

(** The port that remains in a normal URL: not the default of the scheme. *)
Definition normal_port (scheme port : gostring) : result net_error gostring :=
  if decide (port = []) then Ok []
  else match parse_uint16 port with
       | None => Err BadPort
       | Some value =>
           reject value =? 0 with BadPort;
           Ok (if (bool_decide (scheme = "https") && (value =? 443)) || (bool_decide (scheme = "http") && (value =? 80))
               then [] else port)
       end.

Definition clean_url_path (p : gostring) : gostring :=
  let cleaned := clean p in
  let cleaned := if decide (cleaned = DOT) then [SLASH] else cleaned in
  let cleaned := if has_prefix cleaned [SLASH] then cleaned else SLASH :: cleaned in
  if has_suffix p [SLASH] && negb (bool_decide (cleaned = [SLASH])) then cleaned ++ [SLASH] else cleaned.

Definition NormalizeURL (raw : gostring) : result net_error gostring :=
  reject bool_decide (raw = []) || existsb is_control (runes raw) with URLControl;
  match ParseRequestURI raw with
  | None => Err URLForm
  | Some parsed =>
      reject bool_decide (u_Scheme parsed = []) || negb (bool_decide (u_Opaque parsed = [])) || bool_decide (u_Host parsed = [])
        with URLForm;
      reject u_User parsed || negb (bool_decide (u_Fragment parsed = [])) with URLUserinfo;
      let scheme := to_lower (u_Scheme parsed) in
      reject negb (bool_decide (scheme = "http")) && negb (bool_decide (scheme = "https")) with URLScheme;
      host ← normalizeHost (Hostname parsed);
      port ← normal_port scheme (Port parsed);
      let escaped := to_lower (EscapedPath (mkURL scheme (u_Opaque parsed) (u_User parsed) (u_Host parsed) (u_Path parsed)
                                  (u_RawPath parsed) (u_RawQuery parsed) (u_Fragment parsed))) in
      reject contains escaped "%2f" || contains escaped "%5c" || contains (u_Path parsed) [BSL] with AmbiguousPath;
      query ← (if decide (u_RawQuery parsed = []) then Ok []
               else match reencode_query (u_RawQuery parsed) with Some q => Ok q | None => Err BadQuery end);
      Ok (url_string (mkURL scheme (u_Opaque parsed) (u_User parsed)
            (if decide (port = []) then hostForURL host else JoinHostPort host port)
            (clean_url_path (u_Path parsed)) [] query (u_Fragment parsed)))
  end.

(** ** Normal policies *)

(** The values of a list brought into form one by one; the first error ends the loop. *)
Fixpoint each {A B} (f : A -> result net_error B) (l : list A) : result net_error (list B) :=
  match l with
  | [] => Ok []
  | x :: l => y ← f x; ys ← each f l; Ok (y :: ys)
  end.

Definition normal_domain (domain : gostring) : result net_error gostring :=
  let value := to_lower (trim_suffix (trim_space domain) ".") in
  let name := trim_prefix value "*." in
  match ParseAddr name with
  | Some _ => Err DomainIsAddress
  | None =>
      match validateDNSName name with
      | Err _ => Err BadDomain
      | Ok _ =>
          if has_prefix value "*." then reject negb (contains name ".") with ShortWildcard; Ok ("*." ++ name)
          else Ok name
      end
  end.

Definition normal_scheme (scheme : gostring) : result net_error gostring :=
  let value := to_lower (trim_space scheme) in
  reject negb (bool_decide (value = "http")) && negb (bool_decide (value = "https")) with BadScheme; Ok value.

Definition normal_allowed_port (port : Z) : result net_error Z := reject port =? 0 with ZeroPort; Ok port.

Definition normal_cidr (raw : gostring) : result net_error gostring :=
  match ParsePrefix (trim_space raw) with None => Err BadCIDR | Some prefix => Ok (prefix_string (Masked prefix)) end.

Definition normal_header (raw : gostring) : result net_error gostring :=
  let name := to_lower (trim_space raw) in
  reject negb (bool_decide (name ∈ hardAllowedRequestHeaders)) with BadRequestHeader; Ok name.

(** The loop of [sortedUnique] and [uniquePorts] over a sorted slice. *)
Fixpoint drop_repeats {A} `{EqDecision A} (last : A) (l : list A) : list A :=
  match l with
  | [] => []
  | x :: l => if decide (x = last) then drop_repeats last l else x :: drop_repeats x l
  end.
Definition unique {A} `{EqDecision A} (l : list A) : list A :=
  match l with [] => [] | x :: l => x :: drop_repeats x l end.

Definition sortedUnique (values : list gostring) : list gostring := unique (sort_strings values).
Definition uniquePorts (values : list Z) : list Z := unique values.

Definition normalizePolicy (policy : Policy) : result net_error Policy :=
  domains ← each normal_domain (AllowedDomains policy);
  schemes ← each normal_scheme (AllowedSchemes policy);
  ports ← each normal_allowed_port (AllowedPorts policy);
  cidrs ← each normal_cidr (AllowedCIDRs policy);
  headers ← each normal_header (AllowedRequestHeaders policy);
  Ok (mkPolicy (sortedUnique domains) (uniquePorts (merge_sort Z.le ports)) (sortedUnique schemes) (sortedUnique cidrs)
        (sortedUnique headers) (AllowPrivate policy)).

(** [sort.Search] over [i, j); the fuel is the length of the interval. *)
Fixpoint Search (fuel i j : nat) (f : nat -> bool) : nat :=
  match fuel with
  | O => i
  | S fuel => if (i <? j)%nat then let h := Nat.div (i + j) 2 in if f h then Search fuel i h f else Search fuel (S h) j f else i
  end.

Definition contains_value (values : list gostring) (wanted : gostring) : bool :=
  let at_least i := match values !! i with Some v => negb (str_lt v wanted) | None => true end in
  bool_decide (values !! Search (length values) 0 (length values) at_least = Some wanted).

Definition containsPort (values : list Z) (wanted : Z) : bool :=
  let at_least i := match values !! i with Some v => wanted <=? v | None => true end in
  bool_decide (values !! Search (length values) 0 (length values) at_least = Some wanted).

(** ** Admission *)

Definition isRestrictedAddress (a : Addr) : bool :=
  negb (IsGlobalUnicast a) || IsPrivate a || IsLoopback a || IsLinkLocalUnicast a || IsLinkLocalMulticast a ||
  IsMulticast a || IsUnspecified a.

Definition addressInCIDRs (a : Addr) (cidrs : list gostring) : bool :=
  existsb (fun raw => match ParsePrefix raw with Some prefix => Contains prefix a | None => false end) cidrs.

Definition restricted_class (a : Addr) : option Prefix := head (filter (fun p => Contains p a = true) restrictedAddressRanges).

Definition addressInExplicitRestrictedCIDR (a : Addr) (cidrs : list gostring) : bool :=
  existsb (fun raw =>
    match ParsePrefix raw with
    | None => false
    | Some prefix =>
        Contains prefix a &&
        match restricted_class a with
        | Some class => (p_bits class <=? p_bits prefix) && Contains class (masked_addr prefix)
        | None => p_bits prefix =? BitLen a
        end
    end) cidrs.

Definition validateAddress (a : Addr) (policy : Policy) : result net_error unit :=
  reject bool_decide (a ∈ permanentlyDeniedAddresses) with MetadataAddress;
  reject isRestrictedAddress a && (negb (AllowPrivate policy) || negb (addressInExplicitRestrictedCIDR a (AllowedCIDRs policy)))
    with PrivateAddress;
  Ok tt.

Definition pattern_allows (host pattern : gostring) : bool :=
  if has_prefix pattern "*." then
    let suffix := trim_prefix pattern "*." in has_suffix host ("." ++ suffix) && negb (bool_decide (host = suffix))
  else bool_decide (host = pattern).

Definition domainAllowed (host : gostring) (patterns : list gostring) : bool := existsb (pattern_allows host) patterns.

(** The loop over the addresses of a name; [seen] holds those met so far. *)
Fixpoint validate_resolved (addresses : list Addr) (policy : Policy) (seen : list Addr) : result net_error (list Addr) :=
  match addresses with
  | [] => Ok []
  | a :: rest =>
      reject negb (IsValid a) || negb (bool_decide (Zone a = [])) with InvalidAddress;
      _ ← validateAddress (Unmap a) policy;
      if decide (Unmap a ∈ seen) then validate_resolved rest policy seen
      else out ← validate_resolved rest policy (Unmap a :: seen); Ok (Unmap a :: out)
  end.

(** [resolver] is [LookupNetIP]. *)
Definition validateHost (resolver : gostring -> option (list Addr)) (host : gostring) (policy : Policy)
  : result net_error (list Addr) :=
  reject bool_decide (host ∈ permanentlyDeniedHostnames) with MetadataHost;
  match ParseAddr host with
  | Some address =>
      reject negb (addressInCIDRs (Unmap address) (AllowedCIDRs policy)) with CIDRDenied;
      _ ← validateAddress (Unmap address) policy;
      Ok [Unmap address]
  | None =>
      reject negb (domainAllowed host (AllowedDomains policy)) with DomainDenied;
      match resolver host with
      | None => Err ResolutionFailed
      | Some addresses =>
          reject bool_decide (addresses = []) with NoAddresses;
          validate_resolved addresses policy []
      end
  end.

Definition effectivePort (u : URL) : option Z :=
  if negb (bool_decide (Port u = [])) then parse_uint16 (Port u)
  else if decide (u_Scheme u = "https") then Some 443
  else if decide (u_Scheme u = "http") then Some 80
  else None.

Definition validateTarget (resolver : gostring -> option (list Addr)) (rawURL : gostring) (policy : Policy)
  : result net_error (list Addr) :=
  match NormalizeURL rawURL with
  | Err _ => Err NotNormalized
  | Ok normalizedURL =>
      reject negb (bool_decide (normalizedURL = rawURL)) with NotNormalized;
      match Parse normalizedURL with
      | None => Err URLForm
      | Some parsed =>
          reject negb (contains_value (AllowedSchemes policy) (u_Scheme parsed)) with SchemeDenied;
          match effectivePort parsed with
          | None => Err PortDenied
          | Some port =>
              reject negb (containsPort (AllowedPorts policy) port) with PortDenied;
              validateHost resolver (Hostname parsed) policy
          end
      end
  end.

Definition validateDialTarget (resolver : gostring -> option (list Addr)) (rawHost : gostring) (port : Z) (policy : Policy)
  : result net_error (list Addr) :=
  reject negb (containsPort (AllowedPorts policy) port) with PortDenied;
  match normalizeHost rawHost with
  | Err _ => Err BadDialHost
  | Ok host => validateHost resolver host policy
  end.

(** [Service.dialContext]: the candidates are tried in order until one connects. [dial]
    says whether a connection is made; the addresses tried come first. *)
Fixpoint dial_each (dial : gostring -> bool) (port : gostring) (candidates : list Addr) : list Addr * option Addr :=
  match candidates with
  | [] => ([], None)
  | a :: rest =>
      if dial (JoinHostPort (addr_string a) port) then ([a], Some a)
      else let '(tried, r) := dial_each dial port rest in (a :: tried, r)
  end.

Definition dialContext (resolver : gostring -> option (list Addr)) (dial : gostring -> bool) (policy : Policy)
    (address : gostring) : list Addr * result net_error (option Addr) :=
  match SplitHostPort address with
  | None => ([], Err BadDialHost)
  | Some (host, portText) =>
      match parse_uint16 portText with
      | None => ([], Err BadPort)
      | Some port =>
          if port =? 0 then ([], Err BadPort)
          else match validateDialTarget resolver host port policy with
               | Err e => ([], Err e)
               | Ok candidates => let '(tried, r) := dial_each dial portText candidates in (tried, Ok r)
               end
      end
  end.

(** ** Searching a sorted list *)

Lemma Search_spec fuel i j f :
  (i <= j)%nat -> (j - i <= fuel)%nat -> (forall x y, (x <= y)%nat -> f x = true -> f y = true) ->
  let r := Search fuel i j f in
  (i <= r <= j)%nat /\ (forall x, (i <= x < r)%nat -> f x = false) /\ (forall x, (r <= x < j)%nat -> f x = true).
Proof.
  intros Hij Hf Hm. revert i j Hij Hf. induction fuel as [|fuel IH]; intros i j Hij Hf; cbn [Search]; cbv zeta.
  { split; [lia|]. split; intros; lia. }
  destruct (Nat.ltb_spec i j) as [Hlt|?]; [|split; [lia|]; split; intros; lia].
  pose proof (Nat.div_mod_eq (i + j) 2) as Hd. pose proof (Nat.mod_upper_bound (i + j) 2 ltac:(lia)) as Hr.
  set (h := ((i + j) / 2)%nat) in *. destruct (f h) eqn:Hh.
  - destruct (IH i h ltac:(lia) ltac:(lia)) as (Hb & Hl & Hg). split; [lia|]. split; [done|].
    intros x Hx. destruct (decide (x < h)%nat); [apply Hg; lia|]. apply (Hm h); [lia|done].
  - destruct (IH (S h) j ltac:(lia) ltac:(lia)) as (Hb & Hl & Hg). split; [lia|]. split; [|done].
    intros x Hx. destruct (decide (h < x)%nat); [apply Hl; lia|].
    destruct (f x) eqn:E; [|done]. rewrite (Hm x h) in Hh; [done|lia|done].
Qed.

Lemma drop_repeats_elem `{EqDecision A} (last x : A) l : x ∈ last :: drop_repeats last l <-> x ∈ last :: l.
Proof.
  revert last. induction l as [|y l IH]; intros last; cbn [drop_repeats]; [done|].
  case_decide as E; [subst; rewrite IH; set_solver|]. rewrite elem_of_cons, IH. set_solver.
Qed.

Lemma unique_elem `{EqDecision A} (x : A) l : x ∈ unique l <-> x ∈ l.
Proof. destruct l as [|y l]; [done|]. apply drop_repeats_elem. Qed.

Lemma drop_repeats_sublist `{EqDecision A} (last : A) l : drop_repeats last l `sublist_of` l.
Proof.
  revert last. induction l as [|y l IH]; intros last; cbn [drop_repeats]; [done|]. case_decide; by constructor.
Qed.

Section search.
Context {A : Type} `{EqDecision A} (R : relation A) `{!forall x y, Decision (R x y), !PartialOrder R}.
#[local] Set Default Proof Using "Type*".

Lemma sorted_lookup (values : list A) x y vx vy :
  StronglySorted R values -> (x < y)%nat -> values !! x = Some vx -> values !! y = Some vy -> R vx vy.
Proof.
  intros Hs Hxy Hx Hy. rewrite <- (take_drop_middle values y vy Hy) in Hs.
  apply (StronglySorted_app_1_elem_of _ _ _ _ _ Hs); [|by left].
  apply (list_elem_of_lookup_2 _ x). by rewrite lookup_take_lt.
Qed.

Lemma sorted_sublist (k l : list A) : k `sublist_of` l -> StronglySorted R l -> StronglySorted R k.
Proof.
  induction 1 as [|x k l Hk IH|x k l Hk IH]; intros Hs; [constructor|..]; inversion_clear Hs as [|? ? Hl Hx];
    [constructor|]; auto. rewrite Forall_forall in *. intros y Hy. apply Hx. by eapply elem_of_sublist.
Qed.

Lemma Search_mem (values : list A) wanted (f : nat -> bool) :
  StronglySorted R values -> (forall i, f i = match values !! i with Some v => bool_decide (R wanted v) | None => true end) ->
  bool_decide (values !! Search (length values) 0 (length values) f = Some wanted) = bool_decide (wanted ∈ values).
Proof.
  intros Hs Hf. apply bool_decide_ext.
  assert (Hm : forall x y, (x <= y)%nat -> f x = true -> f y = true).
  { intros x y Hxy. rewrite !Hf. destruct (values !! y) as [vy|] eqn:Ey; [|done].
    destruct (lookup_lt_is_Some_2 values x) as [vx Ex]; [apply lookup_lt_Some in Ey; lia|]. rewrite Ex, !bool_decide_eq_true.
    intros Hw. destruct (decide (x = y)) as [->|]; [congruence|]. transitivity vx; [done|].
    apply (sorted_lookup values x y); [done|lia|done..]. }
  destruct (Search_spec (length values) 0 (length values) f ltac:(lia) ltac:(lia) Hm) as (Hb & Hl & Hg).
  split; [apply list_elem_of_lookup_2|]. intros [k Hk]%list_elem_of_lookup. pose proof (lookup_lt_Some _ _ _ Hk) as Hlt.
  set (r := Search _ _ _ _) in *. destruct (decide (k < r)%nat) as [?|Hkr].
  { specialize (Hl k ltac:(lia)). rewrite Hf, Hk, bool_decide_eq_false in Hl. by destruct Hl. }
  specialize (Hg r ltac:(lia)) as Hr. destruct (lookup_lt_is_Some_2 values r ltac:(lia)) as [v Ev].
  rewrite Hf, Ev, bool_decide_eq_true in Hr. rewrite Ev. f_equal. destruct (decide (r = k)) as [->|]; [congruence|].
  apply (anti_symm R); [|done]. apply (sorted_lookup values r k); [done|lia|done..].
Qed.

Lemma unique_sorted l : StronglySorted R l -> StronglySorted R (unique l).
Proof.
  destruct l as [|y l]; [done|]. apply sorted_sublist. constructor. apply drop_repeats_sublist.
Qed.
End search.

Lemma sortedUnique_elem x l : x ∈ sortedUnique l <-> x ∈ l.
Proof. unfold sortedUnique. by rewrite unique_elem, sort_strings_perm. Qed.

Lemma sortedUnique_sorted l : StronglySorted str_le (sortedUnique l).
Proof. apply unique_sorted; [apply _..|]. apply sort_strings_sorted. Qed.

Lemma contains_value_elem l x : StronglySorted str_le l -> contains_value l x = bool_decide (x ∈ l).
Proof.
  intros Hs. unfold contains_value. apply (Search_mem str_le); [done|]. intros i. destruct (l !! i) as [v|]; [|done].
  symmetry. case_bool_decide as Hx; unfold str_le in Hx; destruct (str_lt v x); by try destruct (Hx eq_refl).
Qed.

Lemma containsPort_elem l x : StronglySorted Z.le l -> containsPort l x = bool_decide (x ∈ l).
Proof.
  intros Hs. unfold containsPort. apply (Search_mem Z.le); [done|]. intros i. destruct (l !! i) as [v|]; [|done].
  destruct (Z.leb_spec x v); by rewrite ?bool_decide_eq_true_2, ?bool_decide_eq_false_2 by lia.
Qed.

(** ** What a policy admits *)

(** [netip.ParsePrefix] only gives prefixes that fit their address. *)
Class NetipLaws `{Netip} := {
  ParsePrefix_fits s p : ParsePrefix s = Some p -> p_bits p <= BitLen (p_addr p)
}.

(** Every address of the prefix is in the class. *)
Definition within (p class : Prefix) : Prop := forall b, Contains p b = true -> Contains class b = true.

Lemma Contains_true p a :
  Contains p a = true <->
  IsValid (p_addr p) = true /\ 0 <= p_bits p /\ Zone a = [] /\ BitLen (p_addr p) = BitLen a /\ 0 < BitLen a /\
  Z.shiftr (bits_of a) (BitLen a - p_bits p) = Z.shiftr (bits_of (p_addr p)) (BitLen a - p_bits p).
Proof.
  unfold Contains. rewrite !andb_true_iff, Z.leb_le, Z.ltb_lt, bool_decide_eq_true, !Z.eqb_eq. tauto.
Qed.

Lemma masked_BitLen p : BitLen (masked_addr p) = BitLen (p_addr p).
Proof. unfold masked_addr. by destruct (p_addr p). Qed.

Lemma masked_bits p : 
  bits_of (masked_addr p) = Z.shiftl (Z.shiftr (bits_of (p_addr p)) (BitLen (p_addr p) - p_bits p)) (BitLen (p_addr p) - p_bits p).
Proof. unfold masked_addr. destruct (p_addr p); cbn [bits_of BitLen]; [|done..]. by rewrite Z.shiftr_0_l, Z.shiftl_0_l. Qed.

(** A longer prefix whose first address is in a class lies in it. *)
Lemma masked_within p class :
  p_bits p <= BitLen (p_addr p) -> p_bits class <= p_bits p -> Contains class (masked_addr p) = true -> within p class.
Proof.
  intros Hf Hb (Hv & Hx0 & _ & Hl & Hp & Hc)%Contains_true b (_ & _ & Hz & Hlb & _ & Hpb)%Contains_true.
  rewrite masked_BitLen, masked_bits in *. apply Contains_true. rewrite <- Hlb in *. rewrite <- Hl in *.
  split; [done|]. split; [lia|]. split; [done|]. split; [done|]. split; [lia|].
  rewrite <- Hc. replace (BitLen (p_addr class) - p_bits class)
    with ((BitLen (p_addr class) - p_bits p) + (p_bits p - p_bits class)) by lia.
  rewrite <- !Z.shiftr_shiftr by lia. rewrite Hpb. f_equal. rewrite Z.shiftr_shiftl_l by lia.
  by rewrite Z.sub_diag, Z.shiftl_0_r.
Qed.

(** The exception a profile can make: an allowed CIDR that holds the address and stays in
    the special range the address belongs to, or is the address alone. *)
Definition excepted (a : Addr) (cidrs : list gostring) : Prop :=
  exists raw p, raw ∈ cidrs /\ ParsePrefix raw = Some p /\ Contains p a = true /\
    ((exists class, class ∈ restrictedAddressRanges /\ Contains class a = true /\ within p class) \/ p_bits p = BitLen a).

Definition admitted (a : Addr) (policy : Policy) : Prop :=
  a ∉ permanentlyDeniedAddresses /\
  (isRestrictedAddress a = true -> AllowPrivate policy = true /\ excepted a (AllowedCIDRs policy)).

Lemma each_Ok {A B} (f : A -> result net_error B) l k : each f l = Ok k <-> Forall2 (fun x y => f x = Ok y) l k.
Proof.
  revert k. induction l as [|x l IH]; intros k; cbn [each].
  - split; [intros [= <-]; constructor|]. by inversion 1.
  - rewrite bind_Ok. setoid_rewrite bind_Ok. split.
    + intros (y & Hy & ys & Hys & [= <-]). constructor; [done|]. by apply IH.
    + inversion 1; subst. eexists. split; [done|]. eexists. split; [by apply IH|done].
Qed.

Lemma each_elem {A B} (f : A -> result net_error B) l k y : each f l = Ok k -> y ∈ k -> exists x, x ∈ l /\ f x = Ok y.
Proof.
  intros Hf%each_Ok Hy. induction Hf as [|x z l k Hx _ IH]; [set_solver|]. apply elem_of_cons in Hy as [->|Hy].
  - exists x. split; [by left|done].
  - destruct (IH Hy) as (x' & ? & ?). exists x'. split; [by right|done].
Qed.

Lemma normalizePolicy_Ok raw policy :
  normalizePolicy raw = Ok policy ->
  StronglySorted Z.le (AllowedPorts policy) /\ StronglySorted str_le (AllowedSchemes policy) /\
  (forall p, p ∈ AllowedPorts policy -> p ∈ AllowedPorts raw) /\
  (forall s, s ∈ AllowedSchemes policy -> exists x, x ∈ AllowedSchemes raw /\ normal_scheme x = Ok s) /\
  (forall d, d ∈ AllowedDomains policy -> exists x, x ∈ AllowedDomains raw /\ normal_domain x = Ok d) /\
  (forall c, c ∈ AllowedCIDRs policy -> exists x, x ∈ AllowedCIDRs raw /\ normal_cidr x = Ok c) /\
  AllowPrivate policy = AllowPrivate raw.
Proof.
  unfold normalizePolicy. intros (ds & Hd & Hp)%bind_Ok. apply bind_Ok in Hp as (ss & Hs & Hp).
  apply bind_Ok in Hp as (ps & Hps & Hp). apply bind_Ok in Hp as (cs & Hc & Hp). apply bind_Ok in Hp as (hs & _ & [= <-]).
  cbn [AllowedPorts AllowedSchemes AllowedDomains AllowedCIDRs AllowPrivate].
  split; [apply unique_sorted; [apply _..|]; by apply (StronglySorted_merge_sort Z.le)|]. split; [apply sortedUnique_sorted|].
  split; [|split; [|split; [|split; [|done]]]].
  - unfold uniquePorts. intros p Hp. rewrite unique_elem, (merge_sort_Permutation Z.le) in Hp.
    destruct (each_elem _ _ _ _ Hps Hp) as (x & Hx & [_ [= <-]]%guard_Ok). done.
  - intros x Hx. rewrite sortedUnique_elem in Hx. exact (each_elem _ _ _ _ Hs Hx).
  - intros x Hx. rewrite sortedUnique_elem in Hx. exact (each_elem _ _ _ _ Hd Hx).
  - intros x Hx. rewrite sortedUnique_elem in Hx. exact (each_elem _ _ _ _ Hc Hx).
Qed.

Section laws.
Context `{!NetipLaws}.
#[local] Set Default Proof Using "Type*".

Lemma explicit_excepted a cidrs : addressInExplicitRestrictedCIDR a cidrs = true -> excepted a cidrs.
Proof.
  intros (raw & Hin & Hr)%existsb_exists. destruct (ParsePrefix raw) as [p|] eqn:Ep; [|done].
  apply andb_true_iff in Hr as [Hc Hr]. exists raw, p. split; [by apply list_elem_of_In|]. split; [done|]. split; [done|].
  unfold restricted_class in Hr. destruct (filter _ _) as [|class l] eqn:Ef; cbn [head] in Hr; [right; by apply Z.eqb_eq|].
  apply andb_true_iff in Hr as [Hb Hm]. left. exists class.
  assert (class ∈ filter (fun p => Contains p a = true) restrictedAddressRanges) as [Hca Hcr]%list_elem_of_filter
    by (rewrite Ef; by left).
  split; [done|]. split; [done|]. apply masked_within; [by eapply ParsePrefix_fits|by apply Z.leb_le|done].
Qed.

Lemma validateAddress_Ok a policy : validateAddress a policy = Ok tt -> admitted a policy.
Proof.
  unfold validateAddress. rewrite !guard_Ok. intros (Hd%bool_decide_eq_false & Hr & _). split; [exact Hd|].
  intros E. rewrite E in Hr. apply orb_false_iff in Hr as [Hx1 Hx2]. rewrite negb_false_iff in *.
  split; [done|]. by apply explicit_excepted.
Qed.

Lemma validate_resolved_Ok addresses policy seen out :
  validate_resolved addresses policy seen = Ok out ->
  Forall (fun a => admitted a policy) out /\ (forall a, a ∈ addresses -> Unmap a ∈ seen ++ out).
Proof.
  revert seen out. induction addresses as [|a rest IH]; intros seen out; cbn [validate_resolved].
  { intros [= <-]. split; [done|]. set_solver. }
  intros (_ & Hv)%guard_Ok. apply bind_Ok in Hv as ([] & Hv & Hr). apply validateAddress_Ok in Hv.
  case_decide as Hin.
  - apply IH in Hr as [Hf Hs]. split; [done|]. intros b [->|Hb]%elem_of_cons; [set_solver|auto].
  - apply bind_Ok in Hr as (out' & Hr & [= <-]). apply IH in Hr as [Hf Hs]. split; [by constructor|].
    intros b [->|Hb]%elem_of_cons; [set_solver|]. specialize (Hs b Hb). set_solver.
Qed.

(** What a host must be. *)
Definition host_allowed (host : gostring) (policy : Policy) : Prop :=
  host ∉ permanentlyDeniedHostnames /\
  match ParseAddr host with
  | Some a => addressInCIDRs (Unmap a) (AllowedCIDRs policy) = true
  | None => domainAllowed host (AllowedDomains policy) = true
  end.

Lemma validateHost_Ok resolver host policy addrs :
  validateHost resolver host policy = Ok addrs ->
  host_allowed host policy /\ addrs <> [] /\ Forall (fun a => admitted a policy) addrs.
Proof.
  unfold validateHost, host_allowed. intros [Hm Hv]%guard_Ok. apply bool_decide_eq_false in Hm.
  destruct (ParseAddr host) as [a|].
  - apply guard_Ok in Hv as [Hc Hv]. apply bind_Ok in Hv as ([] & Hv & [= <-]). apply validateAddress_Ok in Hv.
    rewrite negb_false_iff in Hc. split; [done|]. split; [done|]. by constructor.
  - apply guard_Ok in Hv as [Hd Hv]. destruct (resolver host) as [l|]; [|done]. apply guard_Ok in Hv as [Hn Hv].
    apply validate_resolved_Ok in Hv as [Hf Hs]. rewrite negb_false_iff in Hd. split; [done|]. split; [|done].
    apply bool_decide_eq_false in Hn. destruct l as [|b l]; [done|]. specialize (Hs b ltac:(left)). intros ->. set_solver.
Qed.


Lemma dial_each_tried dial port candidates tried r :
  dial_each dial port candidates = (tried, r) -> tried `prefix_of` candidates /\ (forall a, r = Some a -> a ∈ tried).
Proof.
  revert tried r. induction candidates as [|a rest IH]; intros tried r; cbn [dial_each].
  { intros [= <- <-]. done. }
  destruct (dial _); [intros [= <- <-]; split; [by apply prefix_cons, prefix_nil|intros ? [= <-]; by left]|].
  destruct (dial_each dial port rest) as [tried' r']. destruct (IH _ _ eq_refl) as [Hp Hr]. intros [= <- <-].
  split; [by apply prefix_cons|]. intros b E. right. auto.
Qed.

(** Whatever the name resolves to when the connection is made, the worker only connects to
    addresses that the policy admits. *)
Theorem dial_admitted resolver dial raw policy address tried r :
  normalizePolicy raw = Ok policy -> dialContext resolver dial policy address = (tried, r) ->
  Forall (fun a => admitted a policy) tried /\
  (forall a, r = Ok (Some a) -> a ∈ tried /\ exists host portText port, SplitHostPort address = Some (host, portText) /\
    parse_uint16 portText = Some port /\ port ∈ AllowedPorts raw).
Proof.
  intros (Hps & _ & Hp & _)%normalizePolicy_Ok. unfold dialContext.
  destruct (SplitHostPort address) as [[host portText]|]; [|by intros [= <- <-]].
  destruct (parse_uint16 portText) as [port|] eqn:Hport; [|by intros [= <- <-]].
  destruct (port =? 0); [by intros [= <- <-]|].
  destruct (validateDialTarget _ _ _ _) as [candidates|] eqn:Hv; [|by intros [= <- <-]].
  destruct (dial_each _ _ _) as [tried' r'] eqn:Ed. apply dial_each_tried in Ed as [[k ->] Hr]. intros [= <- <-].
  unfold validateDialTarget in Hv. apply guard_Ok in Hv as [Hpo Hv].
  rewrite negb_false_iff, containsPort_elem, bool_decide_eq_true in Hpo by done.
  destruct (normalizeHost host) as [h|]; [|done]. apply validateHost_Ok in Hv as (_ & _ & Hf).
  split; [by apply Forall_app in Hf as [Hf _]|]. intros a [= E]. split; [auto|]. exists host, portText, port. auto.
Qed.
End laws.

(** Shared address space (100.64.0.0/10) and the reserved block 240.0.0.0/4 are listed
    among the restricted ranges, but the test for a restricted address does not consult
    them: such an address passes without [AllowPrivate]. *)
Lemma shared_space_open policy :
  Exists (fun p => Contains p (ipv4 100 64 0 1) = true) restrictedAddressRanges /\
  validateAddress (ipv4 100 64 0 1) policy = Ok tt /\ validateAddress (ipv4 240 0 0 1) policy = Ok tt.
Proof.
  split; [|split; vm_compute; reflexivity]. apply Exists_exists. exists (mkPrefix (ipv4 100 64 0 0) 10).
  split; [|vm_compute; reflexivity]. unfold restrictedAddressRanges. set_solver.
Qed.
End policy.

(** ** Witnesses *)

Definition table_netip : Netip := {|
  ParseAddr s := if decide (s = "10.0.0.7") then Some (ipv4 10 0 0 7) else None;
  addr_string a := if decide (a = ipv4 10 0 0 7) then "10.0.0.7" else "?";
  ParsePrefix s := if decide (s = "10.0.0.0/24") then Some (mkPrefix (ipv4 10 0 0 0) 24) else None;
  prefix_string p := "10.0.0.0/24"
|}.

Lemma table_netip_laws : @NetipLaws table_netip.
Proof. split. intros s p. cbn. case_decide; [by intros [= <-]|done]. Qed.

Definition sample_url : URL := mkURL "http" [] false "a.b" "/x" [] [] [].
Definition table_url : NetURL := {|
  ParseRequestURI s := if decide (s = "http://a.b/x") then Some sample_url else None;
  Parse s := if decide (s = "http://a.b/x") then Some sample_url else None;
  url_string u := u_Scheme u ++ "://" ++ u_Host u ++ u_Path u;
  EscapedPath := u_Path;
  reencode_query q := Some q;
  SplitHostPort s := if decide (s = "a.b:80") then Some ("a.b" : gostring, "80" : gostring) else None
|}.

Definition sample_profile : Policy := mkPolicy ["*.b.c"; "A.B."] [443; 80] [" HTTP"] ["10.0.0.0/24"] ["Accept"] true.
Definition sample_policy : Policy := mkPolicy ["*.b.c"; "a.b"] [80; 443] ["http"] ["10.0.0.0/24"] ["accept"] true.
Definition sample_resolver (host : gostring) : option (list Addr) := Some [ipv4 10 0 0 7; ipv4 10 0 0 7].


Lemma dial_admitted_witness : @admitted table_netip (ipv4 10 0 0 7) sample_policy.
Proof.
  destruct (@dial_admitted ascii_tables table_netip table_url table_netip_laws sample_resolver (fun _ => true)
    sample_profile sample_policy "a.b:80" [ipv4 10 0 0 7] (Ok (Some (ipv4 10 0 0 7)))) as [Ha _];
    [vm_compute; reflexivity..|]. by apply Forall_inv in Ha.
Defined.
