(* ===== verification/Tools.v ===== *)
(** * Tools ([internal/gateway/registry.go], and the validation of arguments in
    [gateway.go] and [external.go])

    The tools a server offers, how the arguments of a call are decoded, checked and brought
    into normal form, and the request that is made of them. Descriptions and JSON schemas
    of the tools are shown to clients and not modelled. *)
From S2P Require Import Prelude GoStrings Base64 Utf8 GoPath Token ExecCapability Policy FileEdit FileJob NetPolicy.
#[local] Open Scope Z_scope.

Definition ApprovalModeServerToken : gostring := "server_token".
Definition ApprovalModeClientManaged : gostring := "client_managed".


(** Maps are lists of entries with distinct keys, in the order an iteration visits them. *)
Record toolArguments := mkToolArguments {
  ta_Path : gostring; ta_Paths : list gostring; ta_Content : gostring; ta_ExpectedHash : gostring; ta_Apply : bool;
  ta_ApprovalToken : gostring; ta_StartLine : Z; ta_EndLine : Z; ta_Pattern : gostring; ta_Query : gostring;
  ta_Edits : list WireEdit; ta_Files : list EditFile; ta_Profile : gostring; ta_URL : gostring; ta_Method : gostring;
  ta_Headers : list (gostring * list gostring); ta_RemotePath : gostring; ta_DestinationPath : gostring;
  ta_Argv : list gostring; ta_Env : list (gostring * gostring); ta_ProcessID : gostring; ta_Signal : gostring;
  ta_Memory : option MemoryScan
}.

(** Arguments of a file tool and of an external tool; the other fields are zero. *)
Definition file_arguments path paths content expected apply token first last pattern query edits files : toolArguments :=
  mkToolArguments path paths content expected apply token first last pattern query edits files [] [] [] [] [] [] [] [] [] [] None.
Definition external_arguments path expected pattern profile url method headers remote destination argv env process signal memory :=
  mkToolArguments path [] [] expected false [] 0 0 pattern [] [] [] profile url method headers remote destination argv env
    process signal memory.

Inductive decoder :=
  | DecodePath | DecodeReadFile | DecodeMultiRead | DecodeGlob | DecodeGrep | DecodeWrite | DecodeDiff | DecodeEdit
  | DecodeMultiEdit | DecodeNetwork | DecodeRemote | DecodeExec.

Record toolSpec := mkToolSpec {
  ts_Name : gostring; ts_Risk : gostring; ts_Worker : gostring; ts_Approval : bool; ts_ReadOnly : bool;
  ts_Destructive : bool; ts_Idempotent : bool; ts_OpenWorld : bool; ts_Decode : decoder
}.

Definition file_reader (name : gostring) (d : decoder) : toolSpec := mkToolSpec name "L1" "file" false true false true false d.
Definition file_writer (name : gostring) (d : decoder) : toolSpec := mkToolSpec name "L2" "file" true false true true false d.

Definition registry : list toolSpec :=
  [file_reader "read_file" DecodeReadFile;
   file_reader "read_image" DecodePath;
   file_reader "multi_read" DecodeMultiRead;
   file_reader "list_dir" DecodePath;
   file_reader "checksum" DecodePath;
   file_reader "file_info" DecodePath;
   file_reader "glob" DecodeGlob;
   file_reader "grep" DecodeGrep;
   file_reader "diff" DecodeDiff;
   file_writer "edit" DecodeEdit;
   file_writer "multi_edit" DecodeMultiEdit;
   file_writer "write_file" DecodeWrite;
   mkToolSpec "web_fetch" "L3" "network" false true false true true DecodeNetwork;
   mkToolSpec "download" "L3" "network" true false true true true DecodeNetwork;
   mkToolSpec "upload" "L4" "network" true false true false true DecodeNetwork;
   mkToolSpec "ssh_exec" "L4" "remote" true false true false true DecodeRemote;
   mkToolSpec "sftp_list" "L3" "remote" false true false true true DecodeRemote;
   mkToolSpec "sftp_read" "L3" "remote" false true false true true DecodeRemote;
   mkToolSpec "sftp_write" "L4" "remote" true false true true true DecodeRemote;
   mkToolSpec "sftp_mkdir" "L4" "remote" true false true true true DecodeRemote;
   mkToolSpec "sftp_rename" "L4" "remote" true false true true true DecodeRemote;
   mkToolSpec "exec_run" "L3" "exec" false false true false false DecodeExec;
   mkToolSpec "process_start" "L3" "exec" false false true false false DecodeExec;
   mkToolSpec "process_status" "L3" "exec" false true false true false DecodeExec;
   mkToolSpec "process_stop" "L4" "exec" true false true true false DecodeExec;
   mkToolSpec "debug_status" "L3" "exec" false true false true false DecodeExec;
   mkToolSpec "debug_signal" "L4" "exec" true false true false false DecodeExec;
   mkToolSpec "mem_scan" "L4" "exec" true true false false false DecodeExec].

Definition find_tool (specs : list toolSpec) (name : gostring) : option toolSpec :=
  head (filter (fun s => ts_Name s = name) specs).

(** Which executors the configuration of a server has. *)
Record Executors := mkExecutors { has_network : bool; has_remote : bool; has_exec : bool }.

Definition workerConfigured (config : Executors) (worker : gostring) : bool :=
  if decide (worker = "file") then true
  else if decide (worker = "network") then has_network config
  else if decide (worker = "remote") then has_remote config
  else if decide (worker = "exec") then has_exec config
  else false.

(** The table [New] builds: the tools of the configured workers. *)
Definition toolsByName (config : Executors) : list toolSpec :=
  filter (fun s => workerConfigured config (ts_Worker s) = true) registry.

Definition externalApprovalBlocked (mode : gostring) (spec : toolSpec) : bool :=
  bool_decide (mode = ApprovalModeServerToken) && negb (bool_decide (ts_Worker spec = "file")) && ts_Approval spec.
Definition serverApprovalRequired (mode : gostring) (spec : toolSpec) : bool :=
  bool_decide (mode = ApprovalModeServerToken) && bool_decide (ts_Worker spec = "file") && ts_Approval spec.

Definition policyOperation (operation : gostring) : gostring := if decide (operation = "read_image") then "read_file" else operation.

Definition riskLevel (value : gostring) : Z :=
  match value with
  | [l; d] => if bool_decide (l = "L"%char) && (48 <=? code d) && (code d <=? 52) then code d - 48 else 4
  | _ => 4
  end.

(** ** Decoding *)

Record pathInput := mkPathInput { pi_Path : gostring }.
Record readFileInput := mkReadFileInput { ri_Path : gostring; ri_StartLine : option Z; ri_EndLine : option Z }.
Record multiReadInput := mkMultiReadInput { mi_Paths : list gostring }.
Record searchInput := mkSearchInput { si_Path : gostring; si_Pattern : gostring; si_Query : gostring }.
Record writeInput := mkWriteInput {
  wi_Path : gostring; wi_Content : gostring; wi_ExpectedHash : gostring; wi_Apply : bool; wi_ApprovalToken : gostring
}.
Record diffInput := mkDiffInput { di_Path : gostring; di_Content : gostring }.
Record editInput := mkEditInput { ei_Path : gostring; ei_Edits : list WireEdit; ei_Apply : bool; ei_ApprovalToken : gostring }.
Record multiEditInput := mkMultiEditInput { me_Files : list EditFile; me_Apply : bool; me_ApprovalToken : gostring }.
Record networkInput := mkNetworkInput {
  ni_Profile : gostring; ni_URL : gostring; ni_Path : gostring; ni_Method : gostring;
  ni_Headers : list (gostring * gostring); ni_ExpectedHash : gostring
}.
Record remoteInput := mkRemoteInput {
  mo_Profile : gostring; mo_RemotePath : gostring; mo_DestinationPath : gostring; mo_Path : gostring; mo_Argv : list gostring
}.
Record execInput := mkExecInput {
  xi_Profile : gostring; xi_Argv : list gostring; xi_Env : list (gostring * gostring); xi_ProcessID : gostring;
  xi_Signal : gostring; xi_Pattern : gostring; xi_Mode : gostring; xi_IncludeContext : bool
}.

(** [protocol.DecodeStrict] into each type; [None] for text that is not such a value. *)
Class Inputs := {
  decode_pathInput : gostring -> option pathInput;
  decode_readFileInput : gostring -> option readFileInput;
  decode_multiReadInput : gostring -> option multiReadInput;
  decode_searchInput : gostring -> option searchInput;
  decode_writeInput : gostring -> option writeInput;
  decode_diffInput : gostring -> option diffInput;
  decode_editInput : gostring -> option editInput;
  decode_multiEditInput : gostring -> option multiEditInput;
  decode_networkInput : gostring -> option networkInput;
  decode_remoteInput : gostring -> option remoteInput;
  decode_execInput : gostring -> option execInput
}.

Definition decodeInto {T} (decode : gostring -> option T) (raw : gostring) : option T :=
  if decide (raw = []) then None else decode raw.

Definition path_only (path : gostring) : toolArguments := file_arguments path [] [] [] false [] 0 0 [] [] [] [].

Section decode.
Context `{Inputs}.

Definition decodeReadFile (raw : gostring) : option toolArguments :=
  v ← decodeInto decode_readFileInput raw;
  match ri_StartLine v, ri_EndLine v with
  | None, None => Some (path_only (ri_Path v))
  | Some first, Some last =>
      if (first <? 1) || (last <? first) || (MaxLineRange <? last - first + 1) then None
      else Some (file_arguments (ri_Path v) [] [] [] false [] first last [] [] [] [])
  | _, _ => None
  end.

Definition decodeExec (raw : gostring) : option toolArguments :=
  v ← decodeInto decode_execInput raw;
  let memory := if negb (bool_decide (xi_Pattern v = [])) || negb (bool_decide (xi_Mode v = [])) || xi_IncludeContext v
                then Some (mkMemoryScan (xi_Pattern v) (xi_Mode v) (xi_IncludeContext v)) else None in
  Some (external_arguments [] [] (xi_Pattern v) (xi_Profile v) [] [] [] [] [] (xi_Argv v) (xi_Env v) (xi_ProcessID v)
          (xi_Signal v) memory).

Definition decodeNetwork (raw : gostring) : option toolArguments :=
  v ← decodeInto decode_networkInput raw;
  Some (external_arguments (ni_Path v) (ni_ExpectedHash v) [] (ni_Profile v) (ni_URL v) (ni_Method v)
          ((fun '(name, value) => (name, [value])) <$> ni_Headers v) [] [] [] [] [] [] None).

Definition decodeRemote (raw : gostring) : option toolArguments :=
  v ← decodeInto decode_remoteInput raw;
  Some (external_arguments (mo_Path v) [] [] (mo_Profile v) [] [] [] (mo_RemotePath v) (mo_DestinationPath v) (mo_Argv v)
          [] [] [] None).

Definition Decode (d : decoder) (raw : gostring) : option toolArguments :=
  match d with
  | DecodePath => v ← decodeInto decode_pathInput raw; Some (path_only (pi_Path v))
  | DecodeReadFile => decodeReadFile raw
  | DecodeMultiRead => v ← decodeInto decode_multiReadInput raw; Some (file_arguments [] (mi_Paths v) [] [] false [] 0 0 [] [] [] [])
  | DecodeGlob => v ← decodeInto decode_searchInput raw;
      Some (file_arguments (si_Path v) [] [] [] false [] 0 0 (si_Pattern v) [] [] [])
  | DecodeGrep => v ← decodeInto decode_searchInput raw;
      Some (file_arguments (si_Path v) [] [] [] false [] 0 0 [] (si_Query v) [] [])
  | DecodeWrite => v ← decodeInto decode_writeInput raw;
      Some (file_arguments (wi_Path v) [] (wi_Content v) (wi_ExpectedHash v) (wi_Apply v) (wi_ApprovalToken v) 0 0 [] [] [] [])
  | DecodeDiff => v ← decodeInto decode_diffInput raw;
      Some (file_arguments (di_Path v) [] (di_Content v) [] false [] 0 0 [] [] [] [])
  | DecodeEdit => v ← decodeInto decode_editInput raw;
      Some (file_arguments (ei_Path v) [] [] [] (ei_Apply v) (ei_ApprovalToken v) 0 0 [] [] (ei_Edits v) [])
  | DecodeMultiEdit => v ← decodeInto decode_multiEditInput raw;
      Some (file_arguments [] [] [] [] (me_Apply v) (me_ApprovalToken v) 0 0 [] [] [] (me_Files v))
  | DecodeNetwork => decodeNetwork raw
  | DecodeRemote => decodeRemote raw
  | DecodeExec => decodeExec raw
  end.
End decode.

(** ** Validation *)

Inductive arg_error :=
  | PathRequired | TooLong | BadLineRange | RangeNotAllowed | PatternRequired | QueryRequired | BadExpectedHash
  | ContentLimit | PathInvalid | TooManyFiles | PathsNotUnique | EditPathsNotUnique | BadFileEdits | InvalidEdit
  | TooManyEdits | EditLimit | NoPaths | NoFiles | NoEdits
  | BadProfile | URLTooLong | URLInvalid | TooManyHeaders | HeaderInvalid | HeaderTwice | BadToolArguments
  | BadRemotePath | BadDestinationPath | ArgvCount | ArgvInvalid | TooManyVariables | EnvInvalid | BadProcessID
  | BadMemoryPattern | UnsupportedWorker.

Section validate.
Context `{UnicodeTables} `{Netip} `{NetURL}.

Definition empty_string (s : gostring) : bool := bool_decide (s = []).

Definition bad_edit (e : WireEdit) : bool :=
  empty_string (we_Old e) ||
  (negb (empty_string (we_Mode e)) && negb (bool_decide (we_Mode e = "once")) && negb (bool_decide (we_Mode e = "all"))).
Definition edit_bytes (edits : list WireEdit) : Z := foldr (fun e n => len (we_Old e) + len (we_New e) + n) 0 edits.

Definition normal_path (e : arg_error) (path : gostring) : result arg_error gostring :=
  match NormalizePath path with Ok p => Ok p | Err _ => Err e end.

(** The loops over the paths and the files; [seen] holds the normal paths met so far. *)
Fixpoint normalize_paths (paths : list gostring) (seen : gset gostring) : result arg_error (list gostring * gset gostring) :=
  match paths with
  | [] => Ok ([], seen)
  | path :: rest =>
      p ← normal_path PathsNotUnique path;
      reject bool_decide (p ∈ seen) with PathsNotUnique;
      '(ps, seen) ← normalize_paths rest ({[p]} ∪ seen);
      Ok (p :: ps, seen)
  end.

Fixpoint normalize_files (files : list EditFile) (seen : gset gostring) : result arg_error (list EditFile) :=
  match files with
  | [] => Ok []
  | file :: rest =>
      p ← normal_path EditPathsNotUnique (ef_Path file);
      reject bool_decide (p ∈ seen) with EditPathsNotUnique;
      reject (len (ef_Edits file) =? 0) || (128 <? len (ef_Edits file)) with BadFileEdits;
      reject existsb bad_edit (ef_Edits file) with InvalidEdit;
      fs ← normalize_files rest ({[p]} ∪ seen);
      Ok (mkEditFile p (ef_Edits file) :: fs)
  end.

Definition with_paths (a : toolArguments) (path : gostring) (paths : list gostring) (files : list EditFile) : toolArguments :=
  mkToolArguments path paths (ta_Content a) (ta_ExpectedHash a) (ta_Apply a) (ta_ApprovalToken a) (ta_StartLine a)
    (ta_EndLine a) (ta_Pattern a) (ta_Query a) (ta_Edits a) files (ta_Profile a) (ta_URL a) (ta_Method a) (ta_Headers a)
    (ta_RemotePath a) (ta_DestinationPath a) (ta_Argv a) (ta_Env a) (ta_ProcessID a) (ta_Signal a) (ta_Memory a).

Definition bad_line_range (first last : Z) : bool :=
  negb (Bool.eqb (first =? 0) (last =? 0)) || (first <? 0) || (last <? 0) || (last <? first) ||
  ((0 <? first) && (MaxLineRange <? last - first + 1)).

(** The checks for file tools; [maxWriteBytes] is that of the policy. *)
Definition validateFileArguments (maxWriteBytes : Z) (spec : toolSpec) (a : toolArguments) : result arg_error toolArguments :=
  let named (name : gostring) := bool_decide (ts_Name spec = name) in
  reject empty_string (ta_Path a) && negb (named "multi_read") && negb (named "multi_edit") with PathRequired;
  reject (32768 <? len (ta_ApprovalToken a)) || (1024 <? len (ta_Pattern a)) || (1024 <? len (ta_Query a)) with TooLong;
  reject bad_line_range (ta_StartLine a) (ta_EndLine a) with BadLineRange;
  reject negb (named "read_file") && (negb (ta_StartLine a =? 0) || negb (ta_EndLine a =? 0)) with RangeNotAllowed;
  reject named "glob" && empty_string (ta_Pattern a) with PatternRequired;
  reject named "grep" && empty_string (ta_Query a) with QueryRequired;
  reject negb (optional_SHA256 (ta_ExpectedHash a)) with BadExpectedHash;
  reject maxWriteBytes <? len (ta_Content a) with ContentLimit;
  path ← (if decide (ta_Path a = []) then Ok [] else normal_path PathInvalid (ta_Path a));
  reject 20 <? len (ta_Paths a) with TooManyFiles;
  '(paths, seen) ← normalize_paths (ta_Paths a) ∅;
  reject 20 <? len (ta_Files a) with TooManyFiles;
  files ← normalize_files (ta_Files a) seen;
  reject 128 <? len (ta_Edits a) with TooManyEdits;
  reject existsb bad_edit (ta_Edits a) with InvalidEdit;
  reject maxWriteBytes <? foldr (fun f n => edit_bytes (ef_Edits f) + n) 0 files + edit_bytes (ta_Edits a) with EditLimit;
  reject named "multi_read" && (len (ta_Paths a) =? 0) with NoPaths;
  reject named "multi_edit" && (len (ta_Files a) =? 0) with NoFiles;
  reject named "edit" && (len (ta_Edits a) =? 0) with NoEdits;
  Ok (with_paths a path paths files).

(** *** External tools *)

Definition alnum (c : ascii) : bool :=
  let d := code c in ((48 <=? d) && (d <=? 57)) || ((65 <=? d) && (d <=? 90)) || ((97 <=? d) && (d <=? 122)).

(** [^[A-Za-z0-9][A-Za-z0-9._-]{0,255}$] *)
Definition opaqueArgumentID (s : gostring) : bool :=
  match s with
  | c :: rest => alnum c && (len rest <=? 255) && forallb (fun c => alnum c || contains_byte "._-" c) rest
  | [] => false
  end.

(** A header name of 1 to 128 token characters. *)
Definition token_char (c : ascii) : bool := alnum c || contains_byte (byte_of 96 :: "!#$%&'*+.^_|~-") c.
Definition headerName (s : gostring) : bool := (1 <=? len s) && (len s <=? 128) && forallb token_char s.

(** [^[A-Za-z_][A-Za-z0-9_]{0,127}$] *)
Definition envName (s : gostring) : bool :=
  match s with
  | c :: rest => (alnum c || bool_decide (c = "_"%char)) && negb (is_digit c) && (len rest <=? 127) &&
                 forallb (fun c => alnum c || bool_decide (c = "_"%char)) rest
  | [] => false
  end.

Definition upper (c : ascii) : ascii := if (97 <=? code c) && (code c <=? 122) then byte_of (code c - 32) else c.

(** [textproto.CanonicalMIMEHeaderKey] of a name that [headerName] accepts. *)
Fixpoint canonical_from (start : bool) (s : gostring) : gostring :=
  match s with
  | [] => []
  | c :: rest => (if start then upper c else lower_byte c) :: canonical_from (bool_decide (c = "-"%char)) rest
  end.
Definition CanonicalMIMEHeaderKey (s : gostring) : gostring := canonical_from true s.

Fixpoint normalize_headers (headers : list (gostring * list gostring)) (seen : gset gostring)
  : result arg_error (list (gostring * list gostring)) :=
  match headers with
  | [] => Ok []
  | (name, values) :: rest =>
      match headerName name, values with
      | true, [v] =>
          reject (8192 <? len v) || existsb (contains_byte [CR; LF; NUL]) v with HeaderInvalid;
          let canonical := CanonicalMIMEHeaderKey name in
          reject bool_decide (canonical ∈ seen) with HeaderTwice;
          hs ← normalize_headers rest ({[canonical]} ∪ seen);
          Ok ((canonical, [v]) :: hs)
      | _, _ => Err HeaderInvalid
      end
  end.

Definition validRemotePath (value : gostring) : bool :=
  (len value <=? 4096) && negb (contains_byte value NUL) && is_rooted value && bool_decide (clean value = value).

Definition validateArgv (argv : list gostring) (required : bool) : result arg_error unit :=
  reject (required && (len argv =? 0)) || (64 <? len argv) with ArgvCount;
  reject existsb (fun argument => (4096 <? len argument) || contains_byte argument NUL) argv with ArgvInvalid;
  Ok tt.

Definition with_target (a : toolArguments) (path url method : gostring) (headers : list (gostring * list gostring)) : toolArguments :=
  mkToolArguments path (ta_Paths a) (ta_Content a) (ta_ExpectedHash a) (ta_Apply a) (ta_ApprovalToken a) (ta_StartLine a)
    (ta_EndLine a) (ta_Pattern a) (ta_Query a) (ta_Edits a) (ta_Files a) (ta_Profile a) url method headers
    (ta_RemotePath a) (ta_DestinationPath a) (ta_Argv a) (ta_Env a) (ta_ProcessID a) (ta_Signal a) (ta_Memory a).

Definition validateNetworkArguments (name path : gostring) (a : toolArguments) : result arg_error toolArguments :=
  let given (s : gostring) := negb (empty_string s) in
  reject 8192 <? len (ta_URL a) with URLTooLong;
  url ← match NormalizeURL (ta_URL a) with Ok u => Ok u | Err _ => Err URLInvalid end;
  let method := if decide (name = "download") then ("GET" : gostring) else ta_Method a in
  reject 32 <? len (ta_Headers a) with TooManyHeaders;
  headers ← normalize_headers (ta_Headers a) ∅;
  let is_method (m : gostring) := bool_decide (method = m) in
  reject bool_decide (name = "web_fetch") && (given path || (negb (is_method "GET") && negb (is_method "HEAD")))
    with BadToolArguments;
  reject bool_decide (name = "download") && (empty_string path || negb (len headers =? 0)) with BadToolArguments;
  reject bool_decide (name = "upload") && (empty_string path || (negb (is_method "POST") && negb (is_method "PUT")))
    with BadToolArguments;
  Ok (with_target a path url method headers).

Definition validateRemoteArguments (name path : gostring) (a : toolArguments) : result arg_error toolArguments :=
  let given (s : gostring) := negb (empty_string s) in
  let argv := negb (len (ta_Argv a) =? 0) in
  reject given (ta_RemotePath a) && negb (validRemotePath (ta_RemotePath a)) with BadRemotePath;
  reject given (ta_DestinationPath a) && negb (validRemotePath (ta_DestinationPath a)) with BadDestinationPath;
  _ ← validateArgv (ta_Argv a) (bool_decide (name = "ssh_exec"));
  reject bool_decide (name = "ssh_exec") && (given (ta_RemotePath a) || given (ta_DestinationPath a) || given path)
    with BadToolArguments;
  reject bool_decide (name ∈ (["sftp_list"; "sftp_read"; "sftp_mkdir"] : list gostring)) &&
         (empty_string (ta_RemotePath a) || given (ta_DestinationPath a) || given path || argv) with BadToolArguments;
  reject bool_decide (name = "sftp_write") &&
         (empty_string (ta_RemotePath a) || empty_string path || given (ta_DestinationPath a) || argv) with BadToolArguments;
  reject bool_decide (name = "sftp_rename") &&
         (empty_string (ta_RemotePath a) || empty_string (ta_DestinationPath a) || given path || argv) with BadToolArguments;
  Ok (with_target a path (ta_URL a) (ta_Method a) (ta_Headers a)).

Definition validateExecArguments (name path : gostring) (a : toolArguments) : result arg_error toolArguments :=
  let given (s : gostring) := negb (empty_string s) in
  let has_memory := match ta_Memory a with Some _ => true | None => false end in
  let hasLaunch := negb (len (ta_Argv a) =? 0) || negb (len (ta_Env a) =? 0) in
  _ ← validateArgv (ta_Argv a) false;
  reject 32 <? len (ta_Env a) with TooManyVariables;
  reject existsb (fun '(name, value) => negb (envName name) || (8192 <? len value) || contains_byte value NUL) (ta_Env a)
    with EnvInvalid;
  reject given (ta_ProcessID a) && negb (opaqueArgumentID (ta_ProcessID a)) with BadProcessID;
  reject match ta_Memory a with
         | Some m => (len (ms_Pattern m) =? 0) || (4096 <? len (ms_Pattern m))
         | None => false
         end with BadMemoryPattern;
  reject bool_decide (name ∈ (["exec_run"; "process_start"] : list gostring)) &&
         (given (ta_ProcessID a) || given (ta_Signal a) || has_memory) with BadToolArguments;
  reject bool_decide (name ∈ (["process_status"; "process_stop"; "debug_status"] : list gostring)) &&
         (empty_string (ta_ProcessID a) || hasLaunch || given (ta_Signal a) || has_memory) with BadToolArguments;
  reject bool_decide (name = "debug_signal") &&
         (empty_string (ta_ProcessID a) || hasLaunch || empty_string (ta_Signal a) || has_memory) with BadToolArguments;
  reject bool_decide (name = "mem_scan") &&
         (empty_string (ta_ProcessID a) || hasLaunch || given (ta_Signal a) || negb has_memory) with BadToolArguments;
  Ok (with_target a path (ta_URL a) (ta_Method a) (ta_Headers a)).

Definition validateExternalArguments (spec : toolSpec) (a : toolArguments) : result arg_error toolArguments :=
  reject negb (opaqueArgumentID (ta_Profile a)) with BadProfile;
  reject (32768 <? len (ta_ApprovalToken a)) || (64 <? len (ta_ExpectedHash a)) with TooLong;
  reject negb (optional_SHA256 (ta_ExpectedHash a)) with BadExpectedHash;
  path ← (if decide (ta_Path a = []) then Ok [] else normal_path PathInvalid (ta_Path a));
  if decide (ts_Worker spec = "network") then validateNetworkArguments (ts_Name spec) path a
  else if decide (ts_Worker spec = "remote") then validateRemoteArguments (ts_Name spec) path a
  else if decide (ts_Worker spec = "exec") then validateExecArguments (ts_Name spec) path a
  else Err UnsupportedWorker.

Definition validateAndNormalize (maxWriteBytes : Z) (spec : toolSpec) (a : toolArguments) : result arg_error toolArguments :=
  if decide (ts_Worker spec = "file") then validateFileArguments maxWriteBytes spec a else validateExternalArguments spec a.

Definition argumentPaths (a : toolArguments) : list gostring :=
  if negb (empty_string (ta_Path a)) then [ta_Path a]
  else if 0 <? len (ta_Paths a) then ta_Paths a
  else ef_Path <$> ta_Files a.

(** The request of a file tool; [policy] gives the limits. *)
Definition workerRequest (policy : Config) (operation : gostring) (a : toolArguments) (tokenID : gostring) : Request :=
  let maxBytes :=
    if decide (operation ∈ (["read_file"; "multi_read"; "diff"] : list gostring)) then MaxReadBytes policy
    else if decide (operation = "grep") then MaxScanBytes policy
    else if decide (operation = "read_image") then min64 (MaxReadBytes policy) FileJob.MaxImageBytes
    else if decide (operation ∈ (["edit"; "multi_edit"; "write_file"] : list gostring)) then MaxWriteBytes policy
    else 0 in
  let scan := bool_decide (operation ∈ (["glob"; "grep"] : list gostring)) in
  mkRequest tokenID operation (ta_Path a) (ta_Paths a) maxBytes (ta_StartLine a) (ta_EndLine a)
    (if decide (operation = "list_dir") then 10000 else 0) (if scan then 10000 else 0) (if scan then 1000 else 0)
    (ta_Pattern a) (ta_Query a) (if decide (operation = "diff") then ta_Content a else []) (ta_ExpectedHash a) (ta_Edits a)
    (ta_Files a) (ta_Apply a) [].

(** ** Properties *)

Lemma NoDup_names specs s s' :
  NoDup (ts_Name <$> specs) -> s ∈ specs -> s' ∈ specs -> ts_Name s = ts_Name s' -> s = s'.
Proof.
  intros Hn [i Hi]%list_elem_of_lookup [j Hj]%list_elem_of_lookup E.
  assert (i = j) as ->; [|congruence]. apply (NoDup_lookup _ _ _ (ts_Name s) Hn); rewrite list_lookup_fmap; [rewrite Hi|rewrite Hj, E]; done.
Qed.

(** The table of tools and the policy engine agree. *)
Definition tool_consistent (cfg : Config) (spec : toolSpec) : Prop :=
  let d := decide_tool cfg (policyOperation (ts_Name spec)) in
  (Allowed d = true -> Approval d = ts_Approval spec) /\
  PolicyID d <> "deny-unknown-tool" /\
  (ts_Worker spec = "file" -> ts_ReadOnly spec = negb (ts_Approval spec) /\ (ts_ReadOnly spec = true -> Allowed d = true)) /\
  (AllowWrite cfg = false -> ts_Worker spec = "file" -> ts_ReadOnly spec = false -> Allowed d = false).

Lemma find_tool_Some config name spec :
  find_tool (toolsByName config) name = Some spec ->
  spec ∈ registry /\ ts_Name spec = name /\ workerConfigured config (ts_Worker spec) = true.
Proof.
  unfold find_tool. destruct (filter _ _) as [|s l] eqn:E; [done|]. intros [= ->].
  assert (spec ∈ spec :: l) as Hs by by left. rewrite <- E in Hs.
  by apply list_elem_of_filter in Hs as [? [? ?]%list_elem_of_filter].
Qed.


Definition normal (p : gostring) : Prop := NormalizePath p = Ok p.

Lemma normal_path_Ok e path p : normal_path e path = Ok p -> normal p.
Proof.
  unfold normal_path. destruct (NormalizePath path) as [q|] eqn:E; [|done]. intros [= <-]. by apply NormalizePath_clean in E.
Qed.

Lemma normalize_paths_Ok paths seen ps seen' :
  normalize_paths paths seen = Ok (ps, seen') ->
  length ps = length paths /\ Forall normal ps /\ NoDup ps /\ Forall (.∉ seen) ps /\ seen' = list_to_set ps ∪ seen.
Proof.
  revert seen ps seen'. induction paths as [|path paths IH]; intros seen ps seen'; cbn [normalize_paths].
  { intros [= <- <-]. repeat (split; [by repeat constructor|]). set_solver. }
  intros (p & Hp%normal_path_Ok & Hx)%bind_Ok. apply guard_Ok in Hx as [Hn%bool_decide_eq_false Hx].
  apply bind_Ok in Hx as ([ps1 seen1] & Hr & [= <- <-]). apply IH in Hr as (Hl & Hf & Hd & Hs & ->).
  rewrite Forall_forall in Hs. split; [cbn; lia|]. split; [by constructor|]. split; [constructor; [|done]|split].
  - intros Hin%Hs. set_solver.
  - constructor; [done|]. apply Forall_forall. intros x Hx%Hs. set_solver.
  - cbn. set_solver.
Qed.

Lemma normalize_files_Ok files seen fs :
  normalize_files files seen = Ok fs ->
  length fs = length files /\ Forall normal (ef_Path <$> fs) /\ NoDup (ef_Path <$> fs) /\ Forall (.∉ seen) (ef_Path <$> fs).
Proof.
  revert seen fs. induction files as [|file files IH]; intros seen fs; cbn [normalize_files].
  { intros [= <-]. by repeat constructor. }
  intros (p & Hp%normal_path_Ok & Hx)%bind_Ok. apply guard_Ok in Hx as [Hn%bool_decide_eq_false Hx].
  apply guard_Ok in Hx as [_ Hx]. apply guard_Ok in Hx as [_ Hx].
  apply bind_Ok in Hx as (fs1 & Hr & [= <-]). apply IH in Hr as (Hl & Hf & Hd & Hs).
  rewrite fmap_cons. cbn [ef_Path]. rewrite Forall_forall in Hs. split; [cbn; lia|]. split; [by constructor|]. split; constructor; try done.
  - intros Hin%Hs. set_solver.
  - apply Forall_forall. intros x Hx%Hs. set_solver.
Qed.

Lemma when (P : Prop) `{base.Decision P} (b : bool) : bool_decide P && b = false -> P -> b = false.
Proof. intros Hb HP. by rewrite bool_decide_eq_true_2 in Hb. Qed.

(** What a validated call of a file tool looks like. *)
Record file_call (maxWriteBytes : Z) (spec : toolSpec) (a b : toolArguments) : Prop := {
  fc_shape : b = with_paths a (ta_Path b) (ta_Paths b) (ta_Files b);
  fc_path : ta_Path b = [] /\ ta_Path a = [] /\ (ts_Name spec = "multi_read" \/ ts_Name spec = "multi_edit") \/
            ta_Path b <> [] /\ ta_Path a <> [] /\ normal (ta_Path b);
  fc_paths : Forall normal (ta_Paths b ++ (ef_Path <$> ta_Files b)) /\ NoDup (ta_Paths b ++ (ef_Path <$> ta_Files b));
  fc_counts : length (ta_Paths b) = length (ta_Paths a) /\ length (ta_Files b) = length (ta_Files a) /\
              len (ta_Paths b) <= 20 /\ len (ta_Files b) <= 20;
  fc_given : (ts_Name spec = "multi_read" -> ta_Paths b <> []) /\ (ts_Name spec = "multi_edit" -> ta_Files b <> []) /\
             (ts_Name spec = "edit" -> ta_Edits b <> []) /\ (ts_Name spec = "glob" -> ta_Pattern b <> []) /\
             (ts_Name spec = "grep" -> ta_Query b <> []);
  fc_range : bad_line_range (ta_StartLine b) (ta_EndLine b) = false /\
             (ts_Name spec <> "read_file" -> ta_StartLine b = 0 /\ ta_EndLine b = 0);
  fc_lengths : len (ta_Pattern b) <= 1024 /\ len (ta_Query b) <= 1024 /\ optional_SHA256 (ta_ExpectedHash b) = true
}.

Lemma validateFileArguments_Ok max spec a b : validateFileArguments max spec a = Ok b -> file_call max spec a b.
Proof.
  unfold validateFileArguments. cbv zeta. rewrite !guard_Ok. intros (Hx1 & Hx2 & Hx3 & Hx4 & Hx5 & Hx6 & Hx7 & _ & Hx).
  apply bind_Ok in Hx as (path & Hp & Hx). apply guard_Ok in Hx as [Hc1 Hx]. apply bind_Ok in Hx as ([paths seen] & Hps & Hx).
  apply guard_Ok in Hx as [Hc2 Hx]. apply bind_Ok in Hx as (files & Hfs & Hx). rewrite !guard_Ok in Hx.
  destruct Hx as (_ & _ & _ & Hg1 & Hg2 & Hg3 & [= <-]).
  apply normalize_paths_Ok in Hps as (Hl1 & Hf1 & Hd1 & _ & ->). apply normalize_files_Ok in Hfs as (Hl2 & Hf2 & Hd2 & Hs2).
  apply Z.ltb_ge in Hc1, Hc2. unfold len in Hc1, Hc2.
  assert (Hpath : path = [] /\ ta_Path a = [] \/ path <> [] /\ ta_Path a <> [] /\ normal path).
  { case_decide as E; [injection Hp as <-; by left|]. right. apply normal_path_Ok in Hp. split; [|done]. intros ->. done. }
  split; cbn [ta_Path ta_Paths ta_Files ta_Edits ta_Pattern ta_Query ta_StartLine ta_EndLine ta_ExpectedHash with_paths].
  - done.
  - destruct Hpath as [[-> E]|?]; [left|by right]. split; [done|]. split; [done|]. unfold empty_string in Hx1. rewrite E in Hx1.
    rewrite bool_decide_eq_true_2 in Hx1 by done. rewrite !andb_true_l, andb_false_iff, !negb_false_iff, !bool_decide_eq_true in Hx1. done.
  - rewrite Forall_app, NoDup_app. split; [done|]. split; [done|]. split; [|done]. rewrite Forall_forall in Hs2. set_solver.
  - unfold len. rewrite Hl1, Hl2. repeat split; lia.
  - repeat split; intros E; [specialize (when _ _ Hg1 E) as Hg|specialize (when _ _ Hg2 E) as Hg|specialize (when _ _ Hg3 E) as Hg
      |specialize (when _ _ Hx5 E) as Hg|specialize (when _ _ Hx6 E) as Hg]; unfold empty_string in *; bool_props; [..|done|done].
    + intros ->. unfold len in Hg. rewrite <- Hl1 in Hg. done.
    + intros ->. unfold len in Hg. rewrite <- Hl2 in Hg. done.
    + intros E2. by rewrite E2 in Hg.
  - split; [done|]. intros E. rewrite bool_decide_eq_false_2 in Hx4 by done. cbn [negb andb] in Hx4. by bool_props.
  - bool_props. done.
Qed.

(** ** Requests the worker accepts *)

Definition with_apply (r : Request) (apply : bool) (targets : list FileEdit.Target) : Request :=
  mkRequest (rq_TokenID r) (rq_Operation r) (rq_Path r) (rq_Paths r) (rq_MaxBytes r) (rq_StartLine r) (rq_EndLine r)
    (rq_MaxEntries r) (rq_MaxFiles r) (rq_MaxResults r) (rq_Pattern r) (rq_Query r) (rq_Data r) (rq_ExpectedHash r)
    (rq_Edits r) (rq_Files r) apply targets.

Lemma normalize_all_normal {A} (get : A -> gostring) set (l : list A) :
  Forall normal (get <$> l) -> (forall x, set x (get x) = x) -> normalize_all get set l = Ok l.
Proof.
  intros Hn Hs. induction l as [|x l IH]; [done|]. rewrite fmap_cons in Hn. apply Forall_cons in Hn as [Hx Hn]. cbn [normalize_all]. unfold normalize.
  rewrite Hx. cbn [mbind result_bind]. by rewrite IH, Hs.
Qed.

Section accept.
Context `{Crypto} `{ArgumentsJson} `{Inputs}.

Definition request_arguments (r : Request) : Arguments :=
  mkArguments (rq_Operation r) (default_path r) (rq_Paths r) (rq_MaxBytes r) (rq_StartLine r) (rq_EndLine r) (rq_MaxEntries r)
    (rq_MaxFiles r) (rq_MaxResults r) (rq_Pattern r) (rq_Query r) (rq_ExpectedHash r)
    (if decide (rq_Data r = []) then [] else digestBytes (rq_Data r)) (rq_Edits r) (rq_Files r) (rq_Apply r) (rq_Targets r).

Definition request_paths (r : Request) : list gostring :=
  default_path r :: rq_Paths r ++ (ef_Path <$> rq_Files r) ++ (FileEdit.Path <$> rq_Targets r).

Lemma jobFromRequest_normal r meta wp :
  Forall normal (request_paths r) ->
  jobFromRequest r meta wp =
    Ok (mkJob [] (rq_TokenID r) FileWorkerType meta wp (digestBytes (marshal_arguments (request_arguments r)))
          (if decide (rq_Data r = []) then [] else std_encode (rq_Data r)) (request_arguments r)).
Proof.
  unfold request_paths. intros [Hd Hx]%Forall_cons. rewrite !Forall_app in Hx. destruct Hx as (Hp & Hf & Ht).
  unfold jobFromRequest. unfold normalize at 1. rewrite Hd. cbn [mbind result_bind].
  rewrite (normalize_all_normal id) by (rewrite ?list_fmap_id; done). cbn [mbind result_bind].
  rewrite (normalize_all_normal ef_Path) by (done || by intros []). cbn [mbind result_bind].
  rewrite (normalize_all_normal FileEdit.Path) by (done || by intros []). done.
Qed.

(** The targets an edit is applied to, one for each of its files. *)
Definition good_commit (spec : toolSpec) (b : toolArguments) (targets : list FileEdit.Target) : Prop :=
  Forall normal (FileEdit.Path <$> targets) /\ Forall (fun t => bad_target_hash t = false) targets /\
  (ts_Name spec = "edit" /\ len targets = 1 \/ ts_Name spec = "multi_edit" /\ length targets = length (ta_Files b)).

(** The fields that decoding leaves zero. *)
Record file_shape (name : gostring) (a : toolArguments) : Prop := {
  sh_edits : name <> "edit" -> ta_Edits a = [];
  sh_files : name <> "multi_edit" -> ta_Files a = [];
  sh_paths : name <> "multi_read" -> ta_Paths a = [];
  sh_pattern : name <> "glob" -> ta_Pattern a = [];
  sh_query : name <> "grep" -> ta_Query a = [];
  sh_hash : name <> "write_file" -> ta_ExpectedHash a = [];
  sh_batch : name = "multi_read" \/ name = "multi_edit" -> ta_Path a = []
}.

Lemma Decode_shape spec raw a :
  spec ∈ registry -> ts_Worker spec = "file" -> Decode (ts_Decode spec) raw = Some a -> file_shape (ts_Name spec) a.
Proof.
  intros Hin Hw Hd. unfold registry in Hin.
  repeat (apply elem_of_cons in Hin as [->|Hin]; [try (vm_compute in Hw; done)|]); [..|by apply not_elem_of_nil in Hin].
  all: cbn [ts_Decode Decode ts_Name file_reader file_writer] in *; unfold decodeReadFile, decodeInto in Hd.
  all: case_decide; [done|]; apply bind_Some in Hd as (v & _ & Hd); repeat (case_match; try done).
  all: injection Hd as <-; split; intros Hx; try reflexivity; try (exfalso; apply Hx; reflexivity).
  all: by destruct Hx.
Qed.

Context `{!CryptoLaws}.
#[local] Set Default Proof Using "Type*".

Lemma digest_nonempty data : digestBytes data <> [].
Proof.
  unfold digestBytes, hex_encode. destruct (sha256 data) as [|c l] eqn:E; [|done].
  pose proof (sha256_length data) as Hl. by rewrite E in Hl.
Qed.

(** Decides the tests of an operation's name. *)
Ltac resolve_op :=
  repeat match goal with
  | |- context [decide ?P] =>
      first [rewrite (decide_True (P := P)) by (apply (bool_decide_unpack _); vm_compute; exact I)
            |rewrite (decide_False (P := P)) by (apply (bool_decide_eq_false_1 _); vm_compute; reflexivity)]
  end.

Lemma line_range_agrees first last : bad_line_range first last = false -> validateLineRange first last = true.
Proof.
  unfold bad_line_range, validateLineRange. rewrite !orb_false_iff, !Z.ltb_ge. intros [[[[Hz Hf] Hl] Ho] Hr].
  apply negb_false_iff, eqb_prop in Hz.
  destruct (first =? 0) eqn:E1; rewrite <- Hz; [done|]. symmetry in Hz. bool_props. cbn [andb orb].
  rewrite (proj2 (Z.ltb_lt 0 first)) in Hr by lia. cbn [andb] in Hr. rewrite Hr.
  by rewrite !(proj2 (Z.ltb_ge _ _)) by lia.
Qed.

Lemma negb_empty {A} (l : list A) : l <> [] -> negb (empty l) = true.
Proof. by destruct l. Qed.

Lemma std_encode_nonempty data : data <> [] -> std_encode data <> [].
Proof. intros Hd E. pose proof (std_decode_encode data) as Hx. rewrite E in Hx. injection Hx as Hx. by apply Hd. Qed.

(** The request of a validated call: what it has and what it lacks. *)
Record ready (cfg : Config) (spec : toolSpec) (b : toolArguments) : Prop := {
  rd_limits : 0 < Policy.MaxReadBytes cfg /\ 0 < Policy.MaxScanBytes cfg /\ 0 < Policy.MaxWriteBytes cfg;
  rd_call : file_call (Policy.MaxWriteBytes cfg) spec b b;
  rd_shape : file_shape (ts_Name spec) b;
  rd_diff : ts_Name spec = "diff" -> ta_Content b <> []
}.

Lemma ready_of cfg spec raw a b :
  spec ∈ registry -> ts_Worker spec = "file" -> Decode (ts_Decode spec) raw = Some a ->
  validateAndNormalize (Policy.MaxWriteBytes cfg) spec a = Ok b ->
  0 < Policy.MaxReadBytes cfg -> 0 < Policy.MaxScanBytes cfg -> 0 < Policy.MaxWriteBytes cfg ->
  (ts_Name spec = "diff" -> ta_Content b <> []) -> ready cfg spec b.
Proof.
  intros Hin Hw Hd Hv Hr Hs Hm Hdiff. unfold validateAndNormalize in Hv. rewrite decide_True in Hv by done.
  apply validateFileArguments_Ok in Hv as [Hsh Hpath Hps Hcnt Hgiven Hrange Hlen].
  apply Decode_shape in Hd as [He Hf Hp Hpa Hq Hh Hb]; [|done..]. split; [done| | |done].
  - constructor; [by destruct b| |exact Hps|destruct Hcnt as (_ & _ & Hc); repeat split; apply Hc|assumption..].
    destruct Hpath as [(Hp1 & _ & Hp3)|(Hp1 & _ & Hp3)]; [left|right]; repeat split; assumption.
  - split; [rewrite Hsh; exact He| | |rewrite Hsh; exact Hpa|rewrite Hsh; exact Hq|rewrite Hsh; exact Hh|].
    + intros E%Hf. destruct Hcnt as (_ & Hl & _). rewrite E in Hl. by apply nil_length_inv.
    + intros E%Hp. destruct Hcnt as (Hl & _). rewrite E in Hl. by apply nil_length_inv.
    + intros E%Hb. by destruct Hpath as [[-> _]|(_ & Hne & _)].
Qed.

(** The job of a request, as [jobFromRequest_normal] gives it. *)
Definition job_of (r : Request) (meta : Meta) (wp : gostring) : Job :=
  mkJob [] (rq_TokenID r) FileWorkerType meta wp (digestBytes (marshal_arguments (request_arguments r)))
    (if decide (rq_Data r = []) then [] else std_encode (rq_Data r)) (request_arguments r).

Definition commit_ok (spec : toolSpec) (b : toolArguments) (apply : bool) (targets : list FileEdit.Target) : Prop :=
  apply = false /\ targets = [] \/ apply = true /\ good_commit spec b targets.

Lemma ready_paths cfg spec b token apply targets :
  spec ∈ registry -> ready cfg spec b -> commit_ok spec b apply targets ->
  Forall normal (request_paths (with_apply (workerRequest cfg (ts_Name spec) b token) apply targets)).
Proof.
  intros _ [_ [_ Hpath [Hps _] _ [Hg1 [Hg2 _]] _ _] _ _] Hc. unfold request_paths, default_path.
  cbn [with_apply workerRequest rq_Path rq_Paths rq_Files rq_Targets]. rewrite (assoc_L (++)). apply Forall_cons.
  assert (Ht : Forall normal (FileEdit.Path <$> targets)).
  { destruct Hc as [[_ ->]|[_ [Ht _]]]; [by apply Forall_nil|exact Ht]. }
  split; [|by apply Forall_app]. case_decide as E; [|by destruct Hpath as [[? _]|(_ & _ & ?)]].
  destruct Hpath as [(_ & _ & [Hn|Hn])|[? _]]; [specialize (Hg1 Hn)|specialize (Hg2 Hn)|done].
  - destruct (ta_Paths b) as [|p ps]; [done|]. by apply Forall_cons in Hps as [? _].
  - destruct (ta_Paths b) as [|p ps]; [|by apply Forall_cons in Hps as [? _]]. destruct (ta_Files b) as [|f fs]; [done|].
    by apply Forall_cons in Hps as [? _].
Qed.

Lemma validateNormalizedPaths_job r meta wp :
  Forall normal (request_paths r) -> Forall (fun t => bad_target_hash t = false) (rq_Targets r) ->
  validateNormalizedPaths (job_of r meta wp) = Ok tt.
Proof.
  assert (Hl : forall l, Forall normal l -> forallb is_normalized l = true).
  { intros l Hx. apply forallb_Forall. eapply Forall_impl; [exact Hx|]. intros x. apply is_normalized_spec. }
  unfold request_paths. intros [Hd Hx]%Forall_cons Hh. rewrite !Forall_app in Hx. destruct Hx as (Hp & Hf & Ht).
  apply is_normalized_spec in Hd. unfold validateNormalizedPaths, job_of.
  cbn [j_Arguments request_arguments a_Path a_Paths a_Files a_Targets]. rewrite Hd, !Hl by done. cbn [negb guard_err].
  destruct (existsb _ _) eqn:E; [|done]. apply existsb_exists in E as (t & Hin%list_elem_of_In & Hb).
  rewrite Forall_forall in Hh. by rewrite (Hh t Hin) in Hb.
Qed.

Lemma ready_fields cfg spec b token meta wp apply targets :
  spec ∈ registry -> ts_Worker spec = "file" -> ts_Name spec <> "write_file" ->
  ready cfg spec b -> commit_ok spec b apply targets ->
  fields_ok (job_of (with_apply (workerRequest cfg (ts_Name spec) b token) apply targets) meta wp) = Some true.
Proof.
  intros Hin Hw Hnw [(Hr & Hs & Hm) [_ _ _ (_ & _ & Hc1 & Hc2) (Hg1 & Hg2 & Hg3 & Hg4 & Hg5) [Hrg Hz] _] [He Hf Hp Hpa Hq Hh _] Hdiff] Hc.
  unfold registry in Hin. repeat (apply elem_of_cons in Hin as [->|Hin]; [try (vm_compute in Hw; done)|]); [..|by apply not_elem_of_nil in Hin].
  all: cbn [ts_Name file_reader file_writer] in *; try (by destruct Hnw).
  all: destruct Hc as [[-> ->]|[-> (_ & _ & [[E Ht]|[E Ht]])]]; cbn [ts_Name file_reader file_writer] in *; try discriminate E; clear Hw Hnw.
  all: cbv beta iota zeta delta [fields_ok job_of workerRequest with_apply request_arguments j_Arguments j_Data a_Operation a_Path a_Paths a_MaxBytes
    a_StartLine a_EndLine a_MaxEntries a_MaxFiles a_MaxResults a_Pattern a_Query a_ExpectedHash a_ContentSHA256 a_Edits a_Files
    a_Apply a_Targets rq_TokenID rq_Operation rq_Path rq_Paths rq_MaxBytes rq_StartLine rq_EndLine rq_MaxEntries rq_MaxFiles
    rq_MaxResults rq_Pattern rq_Query rq_Data rq_ExpectedHash rq_Edits rq_Files rq_Apply rq_Targets].
  all: resolve_op.
  all: try rewrite Hh by discriminate; try rewrite He by discriminate; try rewrite Hq by discriminate.
  all: try rewrite Hpa by discriminate; try rewrite Hf by discriminate; try rewrite Hp by discriminate.
  all: try (destruct Hz as [-> ->]; [discriminate|]).
  all: f_equal; repeat (apply andb_true_iff; split); try reflexivity; try (by apply Z.ltb_lt); try (by apply Z.leb_le).
  all: try (apply Z.ltb_lt; unfold min64; case_match; [lia|vm_compute; reflexivity]).
  all: try (apply negb_empty; auto using eq_refl; fail).
  all: try (by apply line_range_agrees).
  all: try (rewrite decide_False by (apply Hdiff; reflexivity); apply negb_empty, std_encode_nonempty, Hdiff; reflexivity).
  all: try (rewrite decide_False by (apply Hdiff; reflexivity); apply negb_empty, digest_nonempty).
  - apply Z.leb_le. unfold min64. case_match eqn:E; [apply Z.ltb_lt in E; lia|done].
  - unfold decodeJobData. cbn [j_Data j_Arguments a_ContentSHA256]. rewrite !decide_False by (apply Hdiff; reflexivity).
    by rewrite std_decode_encode, !bool_decide_eq_true_2.
  - by apply Z.eqb_eq.
  - apply Z.eqb_eq. unfold len. by rewrite Ht.
Qed.

End accept.
End validate.

(** ** Witness *)

Definition no_inputs : Inputs := {|
  decode_pathInput _ := None; decode_readFileInput _ := None; decode_multiReadInput _ := None; decode_searchInput _ := None;
  decode_writeInput s := Some (mkWriteInput "a/./b" s [] false []);
  decode_diffInput _ := None;
  decode_editInput s := Some (mkEditInput "a/./b" [mkWireEdit s "y" [] false] true "t.t");
  decode_multiEditInput _ := None; decode_networkInput _ := None; decode_remoteInput _ := None; decode_execInput _ := None
|}.

Definition sample_config : Config := mkConfig 100 100 100 [] true false false false false false.
Definition edit_spec : toolSpec := file_writer "edit" DecodeEdit.
Definition sample_arguments : toolArguments :=
  file_arguments "a/b" [] [] [] true "t.t" 0 0 [] [] [mkWireEdit "x" "y" [] false] [].
Definition sample_target : FileEdit.Target := FileEdit.mkTarget "a/b" (replicate 64 "a"%char) (replicate 64 "b"%char).

