(* ===== verification/Calls.v ===== *)
(** * What a tool call uses ([internal/gateway/gateway.go], [external.go], [executor.go])

    The state a call runs in, the interface of the file executor, and the steps the
    handlers share: reading the clock, making identifiers, running a request, writing the
    audit log, asking the approval manager. A handler is a function on the state that may
    return early with a reply. *)
From S2P Require Import Prelude GoStrings Strconv Utf8 GoPath Base64 TextTypes Token Replay Policy FileEdit FileJob Workspace FileRead FileWorker Image Redact Approval ApprovalView ExecProfile ExecCapability NetPolicy Tools AuditLog.
#[local] Open Scope Z_scope.

(** ** Replies *)

(** An error of an executor: its text, and what [errors.Is] finds in it. *)
Inductive cause := Canceled | DeadlineExceeded | NotFoundCause | OtherCause.
#[export] Instance cause_eq_dec : EqDecision cause.
Proof. solve_decision. Defined.
Record error := mkError { err_cause : cause; err_text : gostring }.

(** The metadata of a text, as a worker sends it. *)
Record TextMetadata := mkTextMetadata {
  tm_Encoding : gostring; tm_BOM : gostring; tm_Newline : gostring; tm_DominantNewline : gostring; tm_Confidence : Float64.t
}.

Record WireResult := mkWireResult {
  wr_Path : gostring; wr_Content : gostring; wr_Bytes : Z; wr_StartLine : Z; wr_EndLine : Z; wr_TotalLines : Z;
  wr_Truncated : bool; wr_BeforeSHA256 : gostring; wr_AfterSHA256 : gostring; wr_Diff : gostring;
  wr_Metadata : option TextMetadata; wr_Replacements : Z
}.

Record Response := mkResponse {
  rs_TokenID : gostring; rs_WorkerID : gostring; rs_Content : gostring; rs_Base64 : gostring; rs_MIMEType : gostring;
  rs_Bytes : Z; rs_Width : Z; rs_Height : Z; rs_StartLine : Z; rs_EndLine : Z; rs_TotalLines : Z; rs_Truncated : bool;
  rs_Metadata : option TextMetadata; rs_Entries : list gostring; rs_Checksum : gostring; rs_Info : option FileInfo;
  rs_Matches : list Workspace.Match; rs_Paths : list gostring; rs_Scan : option ScanStats; rs_Files : list WireResult;
  rs_Diff : gostring; rs_RolledBack : bool
}.

(** A response that only identifies itself. *)
Definition bare_response (tokenID workerID : gostring) : Response :=
  mkResponse tokenID workerID [] [] [] 0 0 0 0 0 0 false None [] [] None [] [] None [] [] false.

(** The values of the fields of a result. *)
Inductive public_value :=
  | PText (s : gostring) | PInt (n : Z) | PBool (b : bool) | PFloat (f : Float64.t) | PTime (t : gotime)
  | PTexts (l : list gostring) | PFiles (l : list WireResult) | PInfo (i : option FileInfo) | PMatches (l : list Workspace.Match)
  | PScan (s : option ScanStats) | PTargets (l : list Approval.Target) | PReview (v : View)
  | PHeaders (h : list (gostring * list gostring)) | PStatus (s : option ProcessStatus) | PMemory (l : list MemoryMatch).

(** The messages of tool errors; those of other packages are kept as they are. *)
Inductive message :=
  | Text (s : gostring)
  | PolicyReason (policyID : gostring)
  | ReviewRefused (e : view_error)
  | ApprovalRequired (e : approval_error).

Inductive reply :=
  | Failure (code : Z) (m : gostring)
  | ArgumentFailure (e : arg_error)
  | ToolError (m : message) (policyID : gostring)
  | ToolSuccess (fields : list (gostring * public_value))
  | ImageSuccess (base64 mimeType : gostring) (metadata : list (gostring * public_value)).

(** ** The file executor *)

Class ContextExecutor (F : Type) := {
  fs_execute : Meta -> Request -> F -> (Response * option error) * F
}.

(** The paths a commit request may change. *)
Definition commit_paths (r : Request) : list gostring :=
  if decide (rq_Operation r = "multi_edit") then ef_Path <$> rq_Files r else [default_path r].

(** What stands under every path, and what the gateway relies on: a path changes only under
    a commit request that names it, from content with the digest that the request expects to
    content with the digest of its data, or of the target of an edit. FileExecutor.v proves
    it of the executor of the program. *)
Class ExecutorLaws (F : Type) `{ContextExecutor F} `{Crypto} := {
  file_content : F -> gostring -> option gostring;
  fs_execute_confined meta r f q :
    file_content (fs_execute meta r f).2 q <> file_content f q ->
    isCommitRequest r = true /\ (exists p, p ∈ commit_paths r /\ Token.NormalizePath p = Ok q) /\
    exists data, file_content (fs_execute meta r f).2 q = Some data /\
      (rq_Operation r = "write_file" /\ rq_ExpectedHash r = current_digest (file_content f q) /\
         digestBytes data = digestBytes (rq_Data r) \/
       (rq_Operation r = "edit" \/ rq_Operation r = "multi_edit") /\
       exists t, t ∈ rq_Targets r /\ Token.NormalizePath (FileEdit.Path t) = Ok q /\
         FileEdit.BeforeSHA256 t = current_digest (file_content f q) /\ FileEdit.AfterSHA256 t = digestBytes data)
}.

(** [newID] and [Config.Now]: the values they give one after the other. *)
Class Environment := {
  random_hex : nat -> gostring;
  clock : nat -> gotime
}.

(** [absolutePathRE.ReplaceAllString] with "$1[host-path]", and [len] of [json.Marshal] of a
    response. *)
Class ReplyText := {
  replace_host_paths : gostring -> gostring;
  response_json_length : Response -> Z
}.

(** The configuration of a server that its handlers read. *)
Record Server := mkServer {
  sv_ApprovalMode : gostring; sv_ClientID : gostring; sv_UserID : gostring; sv_Transport : gostring;
  sv_WorkspaceID : gostring; sv_WorkspaceReadOnly : bool; sv_PolicyVersion : gostring; sv_SecurityDegraded : bool;
  sv_SecurityDegradationReason : gostring; sv_SecurityDegradationFields : list gostring;
  sv_policy : Policy.Config; sv_executors : Executors; sv_approvals : option Manager
}.

(** ** The state of a call *)

Record world (S W F X : Type) := mkWorld {
  w_store : S; w_logger : Logger; w_log : W; w_files : F; w_external : X; w_tick : nat
}.
Arguments mkWorld {S W F X} _ _ _ _ _ _.
Arguments w_store {S W F X} _.
Arguments w_logger {S W F X} _.
Arguments w_log {S W F X} _.
Arguments w_files {S W F X} _.
Arguments w_external {S W F X} _.
Arguments w_tick {S W F X} _.

Definition handler (S W F X A : Type) : Type := world S W F X -> result reply A * world S W F X.

#[export] Instance handler_ret S W F X : MRet (handler S W F X) := fun _ a w => (Ok a, w).
#[export] Instance handler_bind S W F X : MBind (handler S W F X) := fun _ _ k m w =>
  match m w with (Ok a, w') => k a w' | (Err r, w') => (Err r, w') end.

Definition stop {S W F X A} (r : reply) : handler S W F X A := fun w => (Err r, w).

(** The reply of a handler, however it ended. *)
Definition reply_of {S W F X} (m : handler S W F X reply) (w : world S W F X) : reply * world S W F X :=
  match m w with (Ok r, w') => (r, w') | (Err r, w') => (r, w') end.

(** ** Events *)

Definition with_counts (input output : Z) (verified : bool) (summary : option ParameterSummary) (e : Event) : Event :=
  mkEvent (e_Time e) (e_str e) summary (e_Allowed e) (e_ApprovalRequired e) (e_Approved e) verified (e_StartedAt e)
    (e_EndedAt e) (e_DurationMS e) input output (e_SecurityDegraded e) (e_SecurityDegradationFields e).
Definition set_InputBytes (n : Z) (e : Event) := with_counts n (e_OutputBytes e) (e_ApprovalVerified e) (e_ParameterSummary e) e.
Definition set_OutputBytes (n : Z) (e : Event) := with_counts (e_InputBytes e) n (e_ApprovalVerified e) (e_ParameterSummary e) e.
Definition set_ApprovalVerified (b : bool) (e : Event) :=
  with_counts (e_InputBytes e) (e_OutputBytes e) b (e_ParameterSummary e) e.
Definition set_ParameterSummary (s : option ParameterSummary) (e : Event) :=
  with_counts (e_InputBytes e) (e_OutputBytes e) (e_ApprovalVerified e) s e.

Definition set_worker (tokenID workerID : gostring) (e : Event) : Event := set_str WorkerID workerID (set_str TokenID tokenID e).
Definition set_hashes (before after : gostring) (e : Event) : Event := set_str AfterHash after (set_str BeforeHash before e).
Definition set_approval (approvalID approver : gostring) (e : Event) : Event :=
  set_ApprovalVerified true (set_Approved true (set_str AuditLog.Approver approver (set_str AuditLog.ApprovalID approvalID e))).

Definition event_policy (e : Event) : gostring := e_str e AuditLog.PolicyID.

Definition mapDecision (d : Policy.Decision) : gostring := if Allowed d then "allow" else "deny".
Definition auditPath (paths : list gostring) : gostring := match paths with [p] => p | _ => [] end.
Definition approvalSource (mode : gostring) : gostring :=
  if decide (mode = ApprovalModeClientManaged) then "mcp_client_policy" else "server_token".

(** ** Errors *)

Definition statusForError (e : error) : gostring :=
  match err_cause e with Canceled | DeadlineExceeded => "cancelled" | _ => "error" end.

(** The status a transaction is completed with. *)
Definition outcome_status (e : option error) : gostring := match e with None => "success" | Some e => statusForError e end.

Section text.
Context `{TextTables} `{UnicodeTables} `{JsonText} `{Crypto} `{ReplyText}.

(** [strings.Trim] with a set of ASCII characters. *)
Fixpoint trim_left_any (chars s : gostring) : gostring :=
  match s with c :: rest => if contains_byte chars c then trim_left_any chars rest else s | [] => [] end.
Definition trim_any (chars s : gostring) : gostring := reverse (trim_left_any chars (reverse (trim_left_any chars s))).

Definition quoting : gostring := byte_of 34 :: "'(),.".

Definition safeToolError (e : error) : gostring :=
  match err_cause e with
  | Canceled => "request cancelled"
  | DeadlineExceeded => "request timed out"
  | _ =>
      let value := replace_host_paths (RedactSensitiveValue (err_text e)) in
      if is_rooted (trim_any quoting value) then "file operation failed" else value
  end.

Definition responseBytes (r : Response) : Z := if 0 <? rs_Bytes r then rs_Bytes r else response_json_length r.

(** ** Results *)

Definition identity (r : Response) : list (gostring * public_value) :=
  [("token_id" : gostring, PText (rs_TokenID r)); ("worker_id" : gostring, PText (rs_WorkerID r))].

Definition metadata_fields (m : option TextMetadata) : list (gostring * public_value) :=
  match m with
  | None => []
  | Some m => [("encoding" : gostring, PText (tm_Encoding m)); ("bom" : gostring, PText (tm_BOM m));
               ("newline" : gostring, PText (tm_Newline m)); ("dominant_newline" : gostring, PText (tm_DominantNewline m));
               ("confidence" : gostring, PFloat (tm_Confidence m))]
  end.

Definition publicResult (operation : gostring) (r : Response) : list (gostring * public_value) :=
  let f (name : gostring) (v : public_value) := (name, v) in
  identity r ++
  (if decide (operation = "read_file") then
     [f "content" (PText (rs_Content r)); f "bytes" (PInt (rs_Bytes r)); f "sha256" (PText (rs_Checksum r));
      f "start_line" (PInt (rs_StartLine r)); f "end_line" (PInt (rs_EndLine r)); f "total_lines" (PInt (rs_TotalLines r));
      f "truncated" (PBool (rs_Truncated r))] ++ metadata_fields (rs_Metadata r)
   else if decide (operation = "read_image") then
     [f "bytes" (PInt (rs_Bytes r)); f "sha256" (PText (rs_Checksum r)); f "mime_type" (PText (rs_MIMEType r));
      f "width" (PInt (rs_Width r)); f "height" (PInt (rs_Height r))]
   else if decide (operation ∈ (["multi_read"; "edit"; "multi_edit"] : list gostring)) then [f "files" (PFiles (rs_Files r))]
   else if decide (operation = "list_dir") then [f "entries" (PTexts (rs_Entries r))]
   else if decide (operation = "checksum") then [f "sha256" (PText (rs_Checksum r))]
   else if decide (operation = "file_info") then [f "info" (PInfo (rs_Info r))]
   else if decide (operation = "glob") then [f "paths" (PTexts (rs_Paths r)); f "scan" (PScan (rs_Scan r))]
   else if decide (operation = "grep") then [f "matches" (PMatches (rs_Matches r)); f "scan" (PScan (rs_Scan r))]
   else if decide (operation = "diff") then [f "diff" (PText (rs_Diff r)); f "files" (PFiles (rs_Files r))]
   else []).

Definition imageToolSuccess (r : Response) : reply := ImageSuccess (rs_Base64 r) (rs_MIMEType r) (publicResult "read_image" r).

(** The image a worker sends is what its own bytes decode to. *)
Definition validateImageResponse `{StdImages} (r : Response) : bool :=
  match std_decode (rs_Base64 r) with
  | None => false
  | Some raw =>
      bool_decide (std_encode raw = rs_Base64 r) &&
      match DecodeImage raw with
      | Err _ => false
      | Ok i => (im_Bytes i =? rs_Bytes r) && bool_decide (im_SHA256 i = rs_Checksum r) &&
                bool_decide (im_MIMEType i = rs_MIMEType r) && (im_Width i =? rs_Width r) && (im_Height i =? rs_Height r)
      end
  end.

(** ** The summary of the parameters in the audit log *)

(** [protocol.DecodeStrict] into a map. *)
Class ValuesJson := { decode_values : gostring -> option (list (gostring * json)) }.

Definition lookup_value (values : list (gostring * json)) (key : gostring) : option json :=
  snd <$> head (filter (fun kv => kv.1 = key) values).

Definition add_count (key suffix : gostring) (n : Z) : gostring * json := (key ++ suffix, JNumber (itoa n)).

Definition string_length (values : list (gostring * json)) (key : gostring) : list (gostring * json) :=
  match lookup_value values key with Some (JString s) => [add_count key "_bytes" (len s)] | _ => [] end.

Definition json_string_length (v : json) : Z := match v with JString s => len s | _ => 0 end.

Definition array_stats (values : list (gostring * json)) (key : gostring) : list (gostring * json) :=
  match lookup_value values key with
  | Some (JArray items) =>
      [add_count key "_count" (len items);
       add_count key "_total_bytes" (foldr (fun v n => json_string_length v + n) 0 items)]
  | _ => []
  end.

(** [addStringMapStats] with the names included, as it is always called. *)
Definition map_stats (values : list (gostring * json)) (key : gostring) : list (gostring * json) :=
  match lookup_value values key with
  | Some (JObject items) =>
      [add_count key "_count" (len items);
       add_count key "_total_bytes" (foldr (fun '(name, v) n => len name + json_string_length v + n) 0 items)]
  | _ => []
  end.

Definition profile_present (values : list (gostring * json)) : gostring * json :=
  ("profile_present" : gostring, JBool match lookup_value values "profile" with None | Some JNull => false | Some _ => true end).

Definition network_names : list gostring := ["web_fetch"; "download"; "upload"].
Definition remote_names : list gostring := ["ssh_exec"; "sftp_list"; "sftp_read"; "sftp_write"; "sftp_mkdir"; "sftp_rename"].
Definition exec_names : list gostring :=
  ["exec_run"; "process_start"; "process_status"; "process_stop"; "debug_status"; "debug_signal"; "mem_scan"].

Definition safe_parameters (tool : gostring) (values : list (gostring * json)) : list (gostring * json) :=
  ("operation" : gostring, JString tool) ::
  if decide (tool ∈ network_names) then
    profile_present values :: string_length values "url" ++ string_length values "path" ++ map_stats values "headers"
  else if decide (tool ∈ remote_names) then
    profile_present values :: string_length values "remote_path" ++ string_length values "destination_path" ++
      string_length values "path" ++ array_stats values "argv"
  else if decide (tool ∈ exec_names) then
    profile_present values :: array_stats values "argv" ++ map_stats values "env" ++ string_length values "process_id" ++
      string_length values "pattern" ++
      match lookup_value values "signal" with Some _ => [("signal_present" : gostring, JBool true)] | None => [] end ++
      match lookup_value values "include_context" with Some (JBool b) => [("include_context" : gostring, JBool b)] | _ => [] end
  else
    string_length values "path" ++ string_length values "pattern" ++ string_length values "query" ++
      match lookup_value values "paths" with Some (JArray l) => [add_count "path_count" [] (len l)] | _ => [] end ++
      match lookup_value values "apply" with Some (JBool b) => [("apply" : gostring, JBool b)] | _ => [] end.

Definition summarizeToolParameters `{ValuesJson} (tool raw : gostring) : option ParameterSummary :=
  values ← decode_values raw;
  match SummarizeParameters (marshal_json (map_json (assign_all (safe_parameters tool values)))) with
  | Err _ => None
  | Ok s => Some (mkSummary (Normalized s) (SHA256 s) (len raw) (RedactedFields s))
  end.

(** The digest of the review is added to the summary of an event. *)
Definition attachReviewDigest (reviewSHA256 : gostring) (e : Event) : Event :=
  match e_ParameterSummary e with
  | None => e
  | Some s =>
      if negb (validSHA256 reviewSHA256) then e
      else match decode_json (Normalized s) with
           | Some (JObject normalized) =>
               let encoded := marshal_json (map_json (<["review_sha256" := JString reviewSHA256]> (assign_all normalized))) in
               set_ParameterSummary (Some (mkSummary encoded (digestBytes encoded) (Bytes s) (RedactedFields s))) e
           | _ => e
           end
  end.
End text.

(** ** Reviews *)

Definition approvalTargets (files : list WireResult) : list Approval.Target :=
  (fun f => Approval.mkTarget (wr_Path f) (wr_BeforeSHA256 f) (wr_AfterSHA256 f)) <$> files.
Definition workerTargets (targets : list Approval.Target) : list FileEdit.Target :=
  (fun t => FileEdit.mkTarget (t_Path t) (t_BeforeSHA256 t) (t_AfterSHA256 t)) <$> targets.
Definition totalAfterBytes (files : list WireResult) : Z := foldr (fun f n => wr_Bytes f + n) 0 files.

(** [json.Marshal] of paths with hashes. *)
Class HashesJson := { marshal_hashes : list (gostring * gostring) -> gostring }.

Definition dry_run_file (f : WireResult) : DryRunFile :=
  let '(encoding, newline) := match wr_Metadata f with Some m => (tm_Encoding m, tm_Newline m) | None => ([], []) end in
  mkDryRunFile (wr_Path f) (wr_BeforeSHA256 f) (wr_AfterSHA256 f) (wr_Diff f) false encoding newline (wr_Bytes f).

Definition newlineStyle (content : gostring) : gostring :=
  let hasCRLF := contains content [CR; LF] in
  let withoutCRLF := replace_all content [CR; LF] [] in
  let hasLF := contains withoutCRLF [LF] in
  let hasCR := contains withoutCRLF [CR] in
  if (1 <? Z.b2z hasCRLF + Z.b2z hasLF + Z.b2z hasCR) then "mixed"
  else if hasCRLF then "crlf" else if hasLF then "lf" else if hasCR then "cr" else "none".

Definition writeReviewFile (a : toolArguments) (target : Approval.Target) : WireResult :=
  mkWireResult (t_Path target) [] (len (ta_Content a)) 0 0 0 false (t_BeforeSHA256 target) (t_AfterSHA256 target) []
    (Some (mkTextMetadata "utf-8" [] (newlineStyle (ta_Content a)) [] (Float64.of_Z 0))) 0.

Section review.
Context `{UnicodeTables} `{Crypto} `{TimeText} `{ViewJson} `{HashesJson} `{Json Approval.Claims}.

Definition aggregateApprovalHashes (targets : list Approval.Target) : gostring * gostring :=
  match targets with
  | [t] => (t_BeforeSHA256 t, t_AfterSHA256 t)
  | _ => (digestBytes (marshal_hashes ((fun t => (t_Path t, t_BeforeSHA256 t)) <$> targets)),
          digestBytes (marshal_hashes ((fun t => (t_Path t, t_AfterSHA256 t)) <$> targets)))
  end.

Definition buildApprovalReview (claims : Approval.Claims) (risk : gostring) (files : list WireResult)
  : result view_error (View * gostring) :=
  view ← ApprovalView.New claims (mkDryRun risk (dry_run_file <$> files));
  reviewSHA256 ← ReviewDigest view;
  Ok (view, reviewSHA256).

(** The public fields of a token, before it is authenticated. *)
Definition untrustedApprovalClaims (token : gostring) : option Approval.Claims :=
  if (len token =? 0) || (Z.shiftl 32 10 <? len token) then None
  else match split_byte "." token with
       | [payload64; _] => decodeCanonicalBase64 payload64 ≫= decode_strict
       | _ => None
       end.
End review.

(** ** Steps *)

Section steps.
Context {S W F X : Type} `{Store S} `{ChallengeStore S} `{Writer W} `{ContextExecutor F}.
Context `{TextTables} `{UnicodeTables} `{JsonText} `{Crypto} `{EventJson} `{Json Approval.Claims} `{Environment}.
Abbreviation handler := (handler S W F X).

Definition tick : handler nat := fun w =>
  (Ok (w_tick w), mkWorld (w_store w) (w_logger w) (w_log w) (w_files w) (w_external w) (Datatypes.S (w_tick w))).

Definition now : handler gotime := n ← tick; mret (clock n).
Definition newID (prefix : gostring) : handler gostring := n ← tick; mret (prefix ++ random_hex n).

(** [s.fs.Execute]. *)
Definition execute (meta : Meta) (r : Request) : handler (Response * option error) := fun w =>
  let '(out, f) := fs_execute meta r (w_files w) in
  (Ok out, mkWorld (w_store w) (w_logger w) (w_log w) f (w_external w) (w_tick w)).

Definition with_log {A} (k : Logger -> W -> A * Logger * W) : handler A := fun w =>
  let '(a, l, log) := k (w_logger w) (w_log w) in (Ok a, mkWorld (w_store w) l log (w_files w) (w_external w) (w_tick w)).

Definition with_store {A} (k : S -> A * S) : handler A := fun w =>
  let '(a, s) := k (w_store w) in (Ok a, mkWorld s (w_logger w) (w_log w) (w_files w) (w_external w) (w_tick w)).

Definition log_record (e : Event) : handler (result audit_error unit) :=
  t ← now; with_log (fun l log => Record_ l t e log).

(** [_ = s.audit.Record(event)] with the status of a reply that ends the call. *)
Definition record_status (status : gostring) (e : Event) : handler unit := _ ← log_record (set_str Status status e); mret tt.

Definition refuse {A} (status : gostring) (e : Event) (m : message) : handler A :=
  _ ← record_status status e; stop (ToolError m (event_policy e)).

Definition prewrite (e : Event) : handler (result audit_error Transaction) :=
  t ← now; t' ← now; with_log (fun l log => Prewrite l t t' e log).

Definition complete (tx : Transaction) (status : gostring) (update : Event -> Event) : handler (result audit_error unit) :=
  t ← now; t' ← now;
  with_log (fun l log => let '(r, _, l, log) := Complete tx status update l t t' log in (r, l, log)).

Definition register_challenge (m : Manager) (c : Approval.Claims) : handler (result approval_error unit) :=
  t ← now; with_store (fun s => RegisterChallenge m s c t).

Definition inspect_token (m : Manager) (token : gostring) (scope : Approval.Scope) : handler (result approval_error Approval.Claims) :=
  t ← now; with_store (fun s => (inspect m s token scope t, s)).

Definition verify_token (m : Manager) (token : gostring) (scope : Approval.Scope) : handler (result approval_error Approval.Claims) :=
  t ← now; with_store (fun s => Approval.Verify m s token scope t).
End steps.
