(* ===== verification/External.v ===== *)
(** * Calls of external tools ([internal/gateway/external.go])

    Network, remote and exec tools: the audit log brackets every call of risk 2 and more,
    bytes reach and leave the workspace through the file executor, and failures of the
    workers are reported without their text. *)
From S2P Require Import Prelude GoStrings Utf8 GoPath Base64 Token Replay Policy FileEdit FileJob Redact Approval ExecProfile ExecCapability NetPolicy Tools AuditLog Calls.
#[local] Open Scope Z_scope.

(** ** The workers *)

Record ResourceLimits := mkResourceLimits {
  rl_MaxRequestBodyBytes : Z; rl_MaxResponseBodyBytes : Z; rl_MaxRequestHeaderBytes : Z; rl_MaxResponseHeaderBytes : Z;
  rl_MaxRedirects : Z; rl_TimeoutMillis : Z
}.
Record NetworkProfile := mkNetworkProfile {
  np_ID : gostring; np_Policy : NetPolicy.Policy; np_Limits : ResourceLimits; np_ExpiresAt : gotime
}.

Record NetworkRequest := mkNetworkRequest {
  nr_TokenID : gostring; nr_Meta : Meta; nr_WorkspaceID : gostring; nr_Operation : gostring; nr_URL : gostring;
  nr_Method : gostring; nr_Headers : list (gostring * list gostring); nr_Body : gostring; nr_PolicyID : gostring;
  nr_ProfileID : gostring; nr_Policy : NetPolicy.Policy; nr_Limits : ResourceLimits
}.
Record NetworkResponse := mkNetworkResponse {
  no_TokenID : gostring; no_WorkerID : gostring; no_Status : Z; no_Headers : list (gostring * list gostring);
  no_Text : gostring; no_Base64 : gostring; no_MIMEType : gostring; no_Bytes : Z; no_SHA256 : gostring
}.

Record RemoteRequest := mkRemoteRequest {
  rr_Meta : Meta; rr_WorkspaceID : gostring; rr_ProfileName : gostring; rr_Operation : gostring; rr_RemotePath : gostring;
  rr_DestinationPath : gostring; rr_Argv : list gostring; rr_Content : gostring;
  rr_MaxOutputBytes : Z; rr_MaxFileBytes : Z; rr_MaxEntries : Z; rr_TimeoutMillis : Z
}.
Record RemoteResponse := mkRemoteResponse {
  ro_JobID : gostring; ro_Stdout : gostring; ro_Stderr : gostring; ro_ExitStatus : Z; ro_Entries : list gostring;
  ro_Content : gostring; ro_SHA256 : gostring; ro_Bytes : Z
}.

(** The executors of the configuration. *)
Class ExternalExecutors (X : Type) := {
  network_execute : NetworkRequest -> X -> (NetworkResponse * option error) * X;
  remote_execute : RemoteRequest -> X -> (RemoteResponse * option error) * X;
  exec_do : ExecJob -> X -> (ExecResponse * option error) * X
}.

(** What the configuration holds for them; [ex_execSigner] is the private key of the
    [CapabilitySigner]. *)
Record Externals := mkExternals {
  ex_networkProfiles : gmap gostring NetworkProfile; ex_execProfiles : gmap gostring TaskProfile; ex_execWorkerID : gostring;
  ex_execSigner : gostring
}.

Definition externalWorkerError (worker : gostring) (e : error) : gostring :=
  match err_cause e with
  | Canceled => "request cancelled"
  | DeadlineExceeded => "request timed out"
  | _ =>
      if decide (worker = "network") then "network worker operation failed"
      else if decide (worker = "remote") then "remote worker operation failed"
      else if decide (worker = "exec") then "exec worker operation failed"
      else if decide (worker = "file") then "workspace transfer failed"
      else "external worker operation failed"
  end.

Definition plain_error (text : gostring) : error := mkError OtherCause text.

Section external.
Context {S W F X : Type} `{Store S} `{ChallengeStore S} `{Writer W} `{ContextExecutor F} `{ExternalExecutors X}.
Context `{TextTables} `{UnicodeTables} `{JsonText} `{Crypto} `{EventJson} `{Json Approval.Claims} `{Environment}.
Context `{Ed25519} `{ProfileJson} `{InputJson} `{Json CapabilityClaims}.
Variable (sv : Server) (ex : Externals).
Abbreviation handler := (handler S W F X).

(** ** The audit bracket *)

Definition beginExternalAudit (e : Event) (spec : toolSpec) : handler (result audit_error (option Transaction)) :=
  if riskLevel (ts_Risk spec) <? 2 then mret (Ok None)
  else r ← prewrite e; mret (Some <$> r).

(** The update of [finishExternalAudit]: the event as it is now, with the start of the
    transaction. *)
Definition finish_update (e : Event) (status : gostring) (done : Event) : Event :=
  set_str Stage "completed" (set_str Status status (set_StartedAt (e_StartedAt done) e)).

Definition finishExternalAudit (tx : option Transaction) (e : Event) (status : gostring) : handler (result audit_error unit) :=
  match tx with
  | None => log_record (set_str Status status e)
  | Some tx => complete tx status (finish_update e status)
  end.

Definition confirm (m : message) (e : Event) (r : result audit_error unit) : handler unit :=
  match r with Ok _ => mret tt | Err _ => stop (ToolError m (event_policy e)) end.

Definition unconfirmed : message := Text "audit unavailable; external operation result cannot be confirmed".

Definition externalFailure {A} (tx : option Transaction) (e : Event) (status text : gostring) : handler A :=
  r ← finishExternalAudit tx e status;
  _ ← confirm unconfirmed e r;
  stop (ToolError (Text text) (event_policy e)).

(** ** Bytes of the workspace *)

Definition readBinary (meta : Meta) (path : gostring) (max : Z) : handler (Response * result error gostring) :=
  let max := min64 max (min64 (MaxReadBytes (sv_policy sv)) MaxBinaryBytes) in
  if max <=? 0 then mret (bare_response [] [], Err (plain_error "binary transfer is disabled by policy"))
  else
    id ← newID "cap-";
    '(response, e) ← execute meta (mkRequest id "read_binary" path [] max 0 0 0 0 0 [] [] [] [] [] [] false []);
    match e with
    | Some e => mret (response, Err e)
    | None =>
        let invalid := Err (plain_error "file worker returned invalid binary bytes") in
        mret (response,
          match std_decode (rs_Base64 response) with
          | None => invalid
          | Some raw =>
              if negb (bool_decide (std_encode raw = rs_Base64 response)) || (max <? len raw) ||
                 negb (len raw =? rs_Bytes response) || negb (bool_decide (digestBytes raw = rs_Checksum response))
              then invalid else Ok raw
          end)
    end.

(** The bytes that an upload sends; the event takes the identity of the file worker. *)
Definition outgoing (meta : Meta) (path : gostring) (max : Z) (tx : option Transaction) (e : Event) : handler (gostring * Event) :=
  '(response, body) ← readBinary meta path max;
  let e := set_worker (rs_TokenID response) (rs_WorkerID response) e in
  match body with
  | Err err => externalFailure tx e (statusForError err) (externalWorkerError "file" err)
  | Ok body => mret (body, set_InputBytes (len body) e)
  end.

(** ** Network *)

Definition network_call (r : NetworkRequest) : handler (NetworkResponse * option error) := fun w =>
  let '(out, x) := network_execute r (w_external w) in
  (Ok out, mkWorld (w_store w) (w_logger w) (w_log w) (w_files w) x (w_tick w)).

Definition with_response_limit (l : ResourceLimits) (n : Z) : ResourceLimits :=
  mkResourceLimits (rl_MaxRequestBodyBytes l) n (rl_MaxRequestHeaderBytes l) (rl_MaxResponseHeaderBytes l) (rl_MaxRedirects l)
    (rl_TimeoutMillis l).
Definition with_request_limit (l : ResourceLimits) (n : Z) : ResourceLimits :=
  mkResourceLimits n (rl_MaxResponseBodyBytes l) (rl_MaxRequestHeaderBytes l) (rl_MaxResponseHeaderBytes l) (rl_MaxRedirects l)
    (rl_TimeoutMillis l).

Definition network_limits (name : gostring) (l : ResourceLimits) : ResourceLimits :=
  let l := if decide (name = "upload") then with_request_limit l (min64 (rl_MaxRequestBodyBytes l) MaxBinaryBytes) else l in
  if decide (name = "download")
  then with_response_limit l (min64 (rl_MaxResponseBodyBytes l) (min64 MaxBinaryBytes (MaxWriteBytes (sv_policy sv)))) else l.

(** The bytes of a download, when the response is consistent. *)
Definition download_body (r : NetworkResponse) (transferLimit : Z) : option gostring :=
  match std_decode (no_Base64 r) with
  | None => None
  | Some body =>
      if negb (bool_decide (std_encode body = no_Base64 r)) || negb (len body =? no_Bytes r) || (transferLimit <? no_Bytes r) ||
         negb (bool_decide (digestBytes body = no_SHA256 r)) then None else Some body
  end.

(** The request that replaces a file, or creates it when [before] is empty. *)
Definition write_request (tokenID path data before : gostring) (max : Z) : Request :=
  mkRequest tokenID "write_file" path [] max 0 0 0 0 0 [] [] data before [] [] false [].
Definition checksum_request (tokenID path : gostring) : Request :=
  mkRequest tokenID "checksum" path [] 0 0 0 0 0 0 [] [] [] [] [] [] false [].

Definition finishDownload (meta : Meta) (a : toolArguments) (e : Event) (r : NetworkResponse) (transferLimit : Z)
    (tx : option Transaction) : handler reply :=
  match download_body r transferLimit with
  | None => externalFailure tx e "error" "network worker returned invalid download bytes"
  | Some body =>
      id ← newID "cap-";
      '(current, checksumErr) ← execute meta (checksum_request id (ta_Path a));
      before ← match checksumErr with
               | None => mret (rs_Checksum current)
               | Some err => if decide (err_cause err = NotFoundCause) then mret []
                             else externalFailure tx e (statusForError err) (externalWorkerError "file" err)
               end;
      if negb (bool_decide (before = [])) && bool_decide (ta_ExpectedHash a = [])
      then externalFailure tx e "denied" "expected_hash is required when replacing an existing file"
      else if negb (bool_decide (ta_ExpectedHash a = before))
      then externalFailure tx e "denied" "expected_hash does not match preflight"
      else
        let e := set_InputBytes (no_Bytes r) (set_hashes before (no_SHA256 r) e) in
        id ← newID "cap-";
        '(written, writeErr) ← execute meta (write_request id (ta_Path a) body before (MaxWriteBytes (sv_policy sv)));
        let e := set_OutputBytes (len body) (set_str AfterHash (rs_Checksum written)
                   (set_worker (rs_TokenID written) (rs_WorkerID written) e)) in
        finishErr ← finishExternalAudit tx e (outcome_status writeErr);
        match writeErr with
        | Some err => stop (ToolError (Text (externalWorkerError "file" err)) (event_policy e))
        | None =>
            _ ← confirm (Text "audit unavailable; download result cannot be confirmed") e finishErr;
            mret (ToolSuccess
              ([("written" : gostring, PBool true); ("path" : gostring, PText (ta_Path a)); ("bytes" : gostring, PInt (len body));
                ("sha256" : gostring, PText (rs_Checksum written)); ("untrusted_source" : gostring, PBool true)] ++ identity written))
        end
  end.

Definition network_result (name : gostring) (r : NetworkResponse) : list (gostring * public_value) :=
  [("status" : gostring, PInt (no_Status r)); ("headers" : gostring, PHeaders (no_Headers r));
   ("mime_type" : gostring, PText (no_MIMEType r)); ("bytes" : gostring, PInt (no_Bytes r));
   ("sha256" : gostring, PText (no_SHA256 r)); ("untrusted" : gostring, PBool true);
   ("token_id" : gostring, PText (no_TokenID r)); ("worker_id" : gostring, PText (no_WorkerID r))] ++
  if decide (name = "web_fetch") then
    ("text" : gostring, PText (no_Text r)) ::
    (if negb (bool_decide (no_Base64 r = [])) then [("binary_omitted" : gostring, PBool true)] else [])
  else [].

Definition callNetwork (meta : Meta) (spec : toolSpec) (a : toolArguments) (e : Event) (tx : option Transaction) : handler reply :=
  match ex_networkProfiles ex !! ta_Profile a with
  | Some profile =>
      t ← now;
      if negb (before t (np_ExpiresAt profile)) then externalFailure tx e "denied" "network profile is unavailable"
      else
        let limits := network_limits (ts_Name spec) (np_Limits profile) in
        id ← newID "net-cap-";
        '(body, e) ← (if decide (ts_Name spec = "upload") then outgoing meta (ta_Path a) (rl_MaxRequestBodyBytes limits) tx e
                      else mret ([], e));
        '(response, err) ← network_call (mkNetworkRequest id meta (sv_WorkspaceID sv) (ts_Name spec) (ta_URL a) (ta_Method a)
                             (ta_Headers a) body (event_policy e) (np_ID profile) (np_Policy profile) limits);
        let e := set_worker (no_TokenID response) (no_WorkerID response) e in
        match err with
        | Some err => externalFailure tx e (statusForError err) (externalWorkerError "network" err)
        | None =>
            if decide (ts_Name spec = "download") then finishDownload meta a e response (rl_MaxResponseBodyBytes limits) tx
            else
              let e := set_OutputBytes (no_Bytes response) e in
              r ← finishExternalAudit tx e "success";
              _ ← confirm unconfirmed e r;
              mret (ToolSuccess (network_result (ts_Name spec) response))
        end
  | None => externalFailure tx e "denied" "network profile is unavailable"
  end.

(** ** Remote *)

Definition remote_call (r : RemoteRequest) : handler (RemoteResponse * option error) := fun w =>
  let '(out, x) := remote_execute r (w_external w) in
  (Ok out, mkWorld (w_store w) (w_logger w) (w_log w) (w_files w) x (w_tick w)).

Definition output_field (name data : gostring) : gostring * public_value :=
  if utf8_valid data then (name, PText data) else (name ++ "_base64", PText (std_encode data)).

Definition remote_result (name : gostring) (r : RemoteResponse) : list (gostring * public_value) :=
  [("job_id" : gostring, PText (ro_JobID r)); ("worker_id" : gostring, PText (ro_JobID r));
   ("bytes" : gostring, PInt (ro_Bytes r)); ("sha256" : gostring, PText (ro_SHA256 r))] ++
  if decide (name = "ssh_exec") then
    [output_field "stdout" (ro_Stdout r); output_field "stderr" (ro_Stderr r); ("exit_status" : gostring, PInt (ro_ExitStatus r))]
  else if decide (name = "sftp_list") then [("entries" : gostring, PTexts (ro_Entries r))]
  else if decide (name = "sftp_read") then [("base64" : gostring, PText (std_encode (ro_Content r)))]
  else [("completed" : gostring, PBool true)].

Definition callRemote (meta : Meta) (spec : toolSpec) (a : toolArguments) (e : Event) (tx : option Transaction) : handler reply :=
  '(body, e) ← (if decide (ts_Name spec = "sftp_write") then outgoing meta (ta_Path a) MaxBinaryBytes tx e else mret ([], e));
  '(response, err) ← remote_call (mkRemoteRequest meta (sv_WorkspaceID sv) (ta_Profile a) (ts_Name spec)
                       (if decide (ts_Name spec = "ssh_exec") then [SLASH] else ta_RemotePath a) (ta_DestinationPath a)
                       (ta_Argv a) body (Z.shiftl 2 20) MaxBinaryBytes 10000 30000);
  match err with
  | Some err => externalFailure tx e (statusForError err) (externalWorkerError "remote" err)
  | None =>
      let e := set_OutputBytes (ro_Bytes response) (set_worker (ro_JobID response) (ro_JobID response) e) in
      r ← finishExternalAudit tx e "success";
      _ ← confirm unconfirmed e r;
      mret (ToolSuccess (remote_result (ts_Name spec) response))
  end.

(** ** Exec *)

Definition exec_call (j : ExecJob) : handler (ExecResponse * option error) := fun w =>
  let '(out, x) := exec_do j (w_external w) in
  (Ok out, mkWorld (w_store w) (w_logger w) (w_log w) (w_files w) x (w_tick w)).

Definition execPublicResult (r : ExecResponse) (workerID : gostring) : list (gostring * public_value) :=
  [("process_id" : gostring, PText (xo_ProcessID r)); ("status" : gostring, PStatus (xo_Status r));
   ("stdout" : gostring, PText (xo_Stdout r)); ("stderr" : gostring, PText (xo_Stderr r));
   ("truncated" : gostring, PBool (xo_Truncated r)); ("matches" : gostring, PMemory (xo_Matches r));
   ("scanned_bytes" : gostring, PInt (xo_ScannedBytes r)); ("worker_id" : gostring, PText workerID)].

Definition exec_job (meta : Meta) (spec : toolSpec) (a : toolArguments) (profile : TaskProfile) (id token : gostring) : ExecJob :=
  mkExecJob token id (m_AuthPrincipal meta) (m_SessionID meta) (sv_WorkspaceID sv) (m_RequestID meta) (Name profile)
    (ts_Name spec) (ProfLimits profile) (ta_Argv a) (ta_Env a) (ta_ProcessID a) (ta_Signal a) (ta_Memory a).

Definition callExec (meta : Meta) (spec : toolSpec) (a : toolArguments) (e : Event) (tx : option Transaction) : handler reply :=
  match ex_execProfiles ex !! ta_Profile a with
  | None => externalFailure tx e "denied" "exec profile is unavailable"
  | Some profile =>
      if sv_WorkspaceReadOnly sv && bool_decide (WorkspaceMode profile = WorkspaceReadWrite)
      then externalFailure tx e "denied" "exec profile is unavailable"
      else
        id ← newID "exec-cap-";
        match Profile_Digest profile with
        | Err _ => externalFailure tx e "error" "exec profile is invalid"
        | Ok digest =>
            t ← now;
            signed ← match ClaimsForJob (exec_job meta spec a profile id []) digest (t + 30 * second) with
                     | Err err => mret (Err err)
                     | Ok claims => t' ← now; mret (exec_Sign (ex_execSigner ex) claims t')
                     end;
            match signed with
            | Err _ => externalFailure tx e "error" "exec capability creation failed"
            | Ok token =>
                let e := set_str TokenID id e in
                '(response, executeErr) ← exec_call (exec_job meta spec a profile id token);
                let e := set_OutputBytes (len (xo_Stdout response) + len (xo_Stderr response)) (set_str WorkerID (ex_execWorkerID ex) e) in
                r ← finishExternalAudit tx e (outcome_status executeErr);
                _ ← confirm (Text "audit unavailable; exec result cannot be confirmed") e r;
                match executeErr with
                | Some err => stop (ToolError (Text (externalWorkerError "exec" err)) (event_policy e))
                | None => mret (ToolSuccess (execPublicResult response (ex_execWorkerID ex)))
                end
            end
        end
  end.

Definition callExternal (meta : Meta) (spec : toolSpec) (a : toolArguments) (e : Event) : handler reply :=
  r ← beginExternalAudit e spec;
  match r with
  | Err _ => stop (ToolError (Text "audit unavailable; external operation denied") (event_policy e))
  | Ok tx =>
      if decide (ts_Worker spec = "network") then callNetwork meta spec a e tx
      else if decide (ts_Worker spec = "remote") then callRemote meta spec a e tx
      else if decide (ts_Worker spec = "exec") then callExec meta spec a e tx
      else externalFailure tx e "denied" "worker is unavailable"
  end.
End external.
