(* ===== verification/NetJob.v ===== *)
(** * Jobs of the network worker ([internal/networkworker/token.go], [client.go], [service.go], [config.go])

    A job names a URL, a method, headers and a body, and the policy and the limits it runs
    under. The client brings a request into normal form and signs a capability for it, once;
    the worker accepts a job in normal form whose capability it has not seen. *)
From S2P Require Import Prelude GoStrings Strconv Base64 Utf8 TextTypes Token FileJob Redact NetPolicy StrictJson External.
#[local] Open Scope Z_scope.

(** ** Constants ([types.go], [token.go], [client.go]) *)

Definition WorkerType : gostring := "network".
Definition OperationWebFetch : gostring := "web_fetch".
Definition OperationDownload : gostring := "download".
Definition OperationUpload : gostring := "upload".
Definition maxRequestBodyBytes : Z := Z.shiftl 16 20.
Definition maxResponseBodyBytes : Z := Z.shiftl 16 20.
Definition maxHeaderBytes : Z := Z.shiftl 64 10.
Definition maxRedirects : Z := 10.
Definition millisecond : Z := 1000000.
Definition maxTimeout : Z := 60 * second.
Definition tokenVersion : gostring := "v1".
Definition maxTokenBytes : Z := Z.shiftl 32 10.
Definition maxCapabilityLifetime : Z := minute.
Definition capabilityTTL : Z := 30 * second.

(** ** Data *)

Abbreviation Headers := (gmap gostring (list gostring)).

#[export] Instance ResourceLimits_eq_dec : EqDecision ResourceLimits.
Proof. solve_decision. Defined.

(** What the worker observes of a job; a capability must match it. *)
Record Scope := mkScope {
  s_TokenID : gostring; s_WorkerType : gostring; s_RequestID : gostring; s_Principal : gostring; s_WorkspaceID : gostring;
  s_BridgeID : gostring; s_SessionID : gostring; s_ClientRequestID : gostring; s_Operation : gostring; s_URL : gostring;
  s_Method : gostring; s_HeadersSHA256 : gostring; s_BodySHA256 : gostring; s_PolicyID : gostring; s_ProfileID : gostring;
  s_PolicySHA256 : gostring; s_Limits : ResourceLimits
}.
#[export] Instance Scope_eq_dec : EqDecision Scope.
Proof. solve_decision. Defined.

(** The claims are the fields of the scope and two more. *)
Record Claims := mkClaims { c_Scope : Scope; c_ExpiresAt : gotime; c_SingleUse : bool }.
#[export] Instance Claims_eq_dec : EqDecision Claims.
Proof. solve_decision. Defined.

(** [j_EmptyLists] says whether a list of the policy is there and empty: a job from JSON may
    have such lists, a normal policy has null in their place. *)
Record Job := mkJob {
  j_Token : gostring; j_TokenID : gostring; j_WorkerType : gostring; j_RequestID : gostring; j_Principal : gostring;
  j_WorkspaceID : gostring; j_BridgeID : gostring; j_SessionID : gostring; j_ClientRequestID : gostring;
  j_Operation : gostring; j_URL : gostring; j_Method : gostring; j_Headers : Headers; j_BodyBase64 : gostring;
  j_PolicyID : gostring; j_ProfileID : gostring; j_Policy : NetPolicy.Policy; j_EmptyLists : bool; j_Limits : ResourceLimits
}.

Inductive job_error :=
  | BadKey | Incomplete | MethodNotUpper | MethodDenied | UnknownOperation | URLNotNormal | PolicyRefused (e : net_error)
  | PolicyNotNormal | BadLimits | ForbiddenHeader | HeaderNotListed | HeaderDenied | DuplicateHeader | BadValueCount
  | HeaderControl | HeadersTooLarge | HeadersNotNormal | BodyTooLarge | BodyNotCanonical | BodyNotAllowed | NotMarshalled
  | NotSingleUse | BadDigest | TokenFormat | TokenPayload | TokenSignature | Expired | TooLong | ScopeMismatch | AlreadyUsed
  | IdentityMismatch | TargetRefused (e : net_error).
#[export] Instance net_error_eq_dec : EqDecision net_error.
Proof. solve_decision. Defined.
#[export] Instance job_error_eq_dec : EqDecision job_error.
Proof. solve_decision. Defined.

(** [json.Marshal] of a policy in normal form and of headers. *)
Class NetJson := { marshal_policy : NetPolicy.Policy -> option gostring; marshal_headers : Headers -> option gostring }.

Section job.
Context `{TextTables} `{UnicodeTables} `{Crypto} `{Ed25519} `{Netip} `{NetURL} `{NetJson} `{Json Claims}.

(** ** Checks that both sides make *)

Definition empty (s : gostring) : bool := bool_decide (s = []).

Definition validateOperationMethod (operation method : gostring) : result job_error unit :=
  reject negb (bool_decide (method = to_upper method)) with MethodNotUpper;
  if decide (operation = OperationWebFetch) then
    reject negb (bool_decide (method = "GET")) && negb (bool_decide (method = "HEAD")) with MethodDenied; Ok tt
  else if decide (operation = OperationDownload) then reject negb (bool_decide (method = "GET")) with MethodDenied; Ok tt
  else if decide (operation = OperationUpload) then
    reject negb (bool_decide (method = "POST")) && negb (bool_decide (method = "PUT")) with MethodDenied; Ok tt
  else Err UnknownOperation.

(** The timeout is multiplied as a 64-bit integer. *)
Definition Timeout (l : ResourceLimits) : Z := wrap64 (rl_TimeoutMillis l * millisecond).

Definition validateLimits (l : ResourceLimits) : result job_error unit :=
  let out (n low max : Z) := (n <? low) || (max <? n) in
  reject out (rl_MaxRequestBodyBytes l) 0 maxRequestBodyBytes || out (rl_MaxResponseBodyBytes l) 1 maxResponseBodyBytes ||
         out (rl_MaxRequestHeaderBytes l) 1 maxHeaderBytes || out (rl_MaxResponseHeaderBytes l) 1 maxHeaderBytes ||
         out (rl_MaxRedirects l) 0 maxRedirects || (rl_TimeoutMillis l <=? 0) || (maxTimeout <? Timeout l) with BadLimits;
  Ok tt.

Definition forbidden_headers : list gostring := ["host"; "proxy-authorization"; "cookie"; "authorization"].
Definition control_value (v : gostring) : bool := contains_byte v CR || contains_byte v LF || contains_byte v NUL.

(** The loop of [normalizeHeaders]; Go visits the map in any order, which decides only which
    error is found first. *)
Fixpoint normal_headers (l : list (gostring * list gostring)) (allowed : list gostring) (acc : Headers) (total : Z)
  : result job_error (Headers * Z) :=
  match l with
  | [] => Ok (acc, total)
  | (rawName, values) :: l =>
      let name := to_lower (trim_space rawName) in
      reject empty name || bool_decide (name ∈ forbidden_headers) with ForbiddenHeader;
      reject negb (bool_decide (name ∈ hardAllowedRequestHeaders)) with HeaderNotListed;
      reject negb (bool_decide (name ∈ allowed)) with HeaderDenied;
      reject bool_decide (is_Some (acc !! name)) with DuplicateHeader;
      reject (len values =? 0) || (16 <? len values) with BadValueCount;
      reject existsb control_value values with HeaderControl;
      normal_headers l allowed (<[name := values]> acc) (total + foldr Z.add 0 ((fun v => len name + len v + 4) <$> values))
  end.
Definition normalizeHeaders (headers : Headers) (policy : NetPolicy.Policy) : result job_error (Headers * Z) :=
  normal_headers (map_to_list headers) (AllowedRequestHeaders policy) ∅ 0.

Definition digest (s : gostring) : gostring := hex_encode (sha256 s).
Definition headersDigest (h : Headers) : result job_error gostring :=
  match marshal_headers h with Some s => Ok (digest s) | None => Err NotMarshalled end.
Definition policyDigest (p : NetPolicy.Policy) : result job_error gostring :=
  match marshal_policy p with Some s => Ok (digest s) | None => Err NotMarshalled end.

(** ** Tokens ([token.go]) *)

Definition incomplete_scope (s : Scope) : bool :=
  empty (s_TokenID s) || negb (bool_decide (s_WorkerType s = WorkerType)) || empty (s_RequestID s) || empty (s_Principal s) ||
  empty (s_WorkspaceID s) || empty (s_BridgeID s) || empty (s_SessionID s) || empty (s_ClientRequestID s) || empty (s_Operation s) ||
  empty (s_URL s) || empty (s_Method s) || empty (s_PolicyID s) || empty (s_ProfileID s).

Definition url_is_normal (url : gostring) : bool :=
  match NormalizeURL url with Ok u => bool_decide (u = url) | Err _ => false end.

Definition validateClaims (c : Claims) : result job_error unit :=
  let s := c_Scope c in
  reject incomplete_scope s || (c_ExpiresAt c =? zero_time) with Incomplete;
  reject negb (c_SingleUse c) with NotSingleUse;
  reject negb (forallb validSHA256 [s_HeadersSHA256 s; s_BodySHA256 s; s_PolicySHA256 s]) with BadDigest;
  reject negb (url_is_normal (s_URL s)) with URLNotNormal;
  _ ← validateOperationMethod (s_Operation s) (s_Method s);
  validateLimits (s_Limits s).

(** [Signer.Sign]; a signer is its private key. *)
Definition Sign (privateKey : gostring) (c : Claims) (now : gotime) : result job_error gostring :=
  _ ← validateClaims c;
  reject negb (after (c_ExpiresAt c) now) with Expired;
  reject after (c_ExpiresAt c) (now + maxCapabilityLifetime) with TooLong;
  match marshal c with
  | None => Err NotMarshalled
  | Some payload =>
      let signed := tokenVersion ++ "." ++ b64_encode payload in
      Ok (signed ++ "." ++ b64_encode (ed_sign privateKey signed))
  end.

Record Verifier := mkVerifier { publicKey : gostring; used : gset gostring }.

Definition NewVerifier (publicKey : gostring) : result job_error Verifier :=
  reject negb (len publicKey =? 32) with BadKey; Ok (mkVerifier publicKey ∅).

(** The checks of [Verify] before the use is recorded. *)
Definition authenticate (publicKey token : gostring) (scope : Scope) (now : gotime) : result job_error Claims :=
  reject (len token =? 0) || (maxTokenBytes <? len token) with TokenFormat;
  match split_byte "." token with
  | [version; payload64; signature64] =>
      reject negb (bool_decide (version = tokenVersion)) with TokenFormat;
      match decodeCanonicalBase64 payload64, decodeCanonicalBase64 signature64 with
      | None, _ => Err TokenPayload
      | _, None => Err TokenSignature
      | Some payload, Some signature =>
          reject negb (len signature =? 64) with TokenSignature;
          reject negb (ed_verify publicKey (version ++ "." ++ payload64) signature) with TokenSignature;
          match decode_strict payload with
          | None => Err TokenPayload
          | Some claims =>
              _ ← validateClaims claims;
              reject negb (before now (c_ExpiresAt claims)) with Expired;
              reject after (c_ExpiresAt claims) (now + maxCapabilityLifetime) with TooLong;
              reject negb (bool_decide (c_Scope claims = scope)) with ScopeMismatch;
              Ok claims
          end
      end
  | _ => Err TokenFormat
  end.

Definition Verify (v : Verifier) (token : gostring) (scope : Scope) (now : gotime) : result job_error Claims * Verifier :=
  match authenticate (publicKey v) token scope now with
  | Err e => (Err e, v)
  | Ok claims =>
      if c_SingleUse claims then
        if bool_decide (s_TokenID (c_Scope claims) ∈ used v) then (Err AlreadyUsed, v)
        else (Ok claims, mkVerifier (publicKey v) ({[s_TokenID (c_Scope claims)]} ∪ used v))
      else (Ok claims, v)
  end.

(** ** Building a job ([client.go]) *)

(** [randomID] gives the identifier of a request that has none. *)
Definition BuildSignedJob (privateKey randomID : gostring) (r : NetworkRequest) (expiresAt now : gotime) : result job_error Job :=
  let m := nr_Meta r in
  reject empty (m_RequestID m) || empty (m_AuthPrincipal m) || empty (nr_WorkspaceID r) || empty (m_BridgeID m) || empty (m_SessionID m) ||
         empty (m_ClientRequestID m) || empty (nr_PolicyID r) || empty (nr_ProfileID r) with Incomplete;
  _ ← validateOperationMethod (nr_Operation r) (nr_Method r);
  url ← match NormalizeURL (nr_URL r) with Ok u => Ok u | Err e => Err (TargetRefused e) end;
  policy ← match normalizePolicy (nr_Policy r) with Ok p => Ok p | Err e => Err (PolicyRefused e) end;
  _ ← validateLimits (nr_Limits r);
  '(headers, headerBytes) ← normalizeHeaders (list_to_map (nr_Headers r)) policy;
  reject rl_MaxRequestHeaderBytes (nr_Limits r) <? headerBytes with HeadersTooLarge;
  reject rl_MaxRequestBodyBytes (nr_Limits r) <? len (nr_Body r) with BodyTooLarge;
  reject negb (bool_decide (nr_Operation r = OperationUpload)) && negb (empty (nr_Body r)) with BodyNotAllowed;
  let tokenID := if decide (nr_TokenID r = []) then randomID else nr_TokenID r in
  headersSHA256 ← headersDigest headers;
  policySHA256 ← policyDigest policy;
  let scope := mkScope tokenID WorkerType (m_RequestID m) (m_AuthPrincipal m) (nr_WorkspaceID r) (m_BridgeID m) (m_SessionID m)
    (m_ClientRequestID m) (nr_Operation r) url (nr_Method r) headersSHA256 (digest (nr_Body r)) (nr_PolicyID r) (nr_ProfileID r)
    policySHA256 (nr_Limits r) in
  token ← Sign privateKey (mkClaims scope expiresAt true) now;
  Ok (mkJob token tokenID WorkerType (m_RequestID m) (m_AuthPrincipal m) (nr_WorkspaceID r) (m_BridgeID m) (m_SessionID m)
        (m_ClientRequestID m) (nr_Operation r) url (nr_Method r) headers (if decide (nr_Body r = []) then [] else std_encode (nr_Body r))
        (nr_PolicyID r) (nr_ProfileID r) policy false (nr_Limits r)).

(** ** Checking a job ([service.go]) *)

(** [base64.StdEncoding.DecodedLen]. *)
Definition DecodedLen (n : Z) : Z := n / 4 * 3.

Definition decodeBody (encoded : gostring) (limit : Z) : result job_error gostring :=
  if decide (encoded = []) then Ok []
  else
    reject limit <? DecodedLen (len encoded) with BodyTooLarge;
    match std_decode encoded with
    | None => Err BodyNotCanonical
    | Some body =>
        reject negb (bool_decide (std_encode body = encoded)) with BodyNotCanonical;
        reject limit <? len body with BodyTooLarge;
        Ok body
    end.

(** Comparisons by the JSON of both sides. *)
Definition policiesEqual (j : Job) (normal : NetPolicy.Policy) : bool :=
  negb (j_EmptyLists j) && bool_decide (marshal_policy (j_Policy j) = marshal_policy normal).
Definition headersEqual (left right : Headers) : bool := bool_decide (marshal_headers left = marshal_headers right).

Definition with_normal (j : Job) (headers : Headers) (policy : NetPolicy.Policy) : Job :=
  mkJob (j_Token j) (j_TokenID j) (j_WorkerType j) (j_RequestID j) (j_Principal j) (j_WorkspaceID j) (j_BridgeID j) (j_SessionID j)
    (j_ClientRequestID j) (j_Operation j) (j_URL j) (j_Method j) headers (j_BodyBase64 j) (j_PolicyID j) (j_ProfileID j) policy false
    (j_Limits j).

Definition prepareJob (j : Job) : result job_error (Job * gostring * Scope) :=
  reject empty (j_Token j) || empty (j_TokenID j) || negb (bool_decide (j_WorkerType j = WorkerType)) || empty (j_RequestID j) ||
         empty (j_Principal j) || empty (j_WorkspaceID j) || empty (j_BridgeID j) || empty (j_SessionID j) ||
         empty (j_ClientRequestID j) || empty (j_PolicyID j) || empty (j_ProfileID j) with Incomplete;
  _ ← validateOperationMethod (j_Operation j) (j_Method j);
  reject negb (url_is_normal (j_URL j)) with URLNotNormal;
  policy ← match normalizePolicy (j_Policy j) with Ok p => Ok p | Err e => Err (PolicyRefused e) end;
  reject negb (policiesEqual j policy) with PolicyNotNormal;
  _ ← validateLimits (j_Limits j);
  '(headers, headerBytes) ← normalizeHeaders (j_Headers j) policy;
  reject rl_MaxRequestHeaderBytes (j_Limits j) <? headerBytes with HeadersTooLarge;
  reject negb (headersEqual (j_Headers j) headers) with HeadersNotNormal;
  body ← decodeBody (j_BodyBase64 j) (rl_MaxRequestBodyBytes (j_Limits j));
  reject negb (bool_decide (j_Operation j = OperationUpload)) && negb (empty body) with BodyNotAllowed;
  headersSHA256 ← headersDigest headers;
  policySHA256 ← policyDigest policy;
  Ok (with_normal j headers policy, body,
      mkScope (j_TokenID j) (j_WorkerType j) (j_RequestID j) (j_Principal j) (j_WorkspaceID j) (j_BridgeID j) (j_SessionID j)
        (j_ClientRequestID j) (j_Operation j) (j_URL j) (j_Method j) headersSHA256 (digest body) (j_PolicyID j) (j_ProfileID j)
        policySHA256 (j_Limits j)).

(** ** Profiles ([config.go]) *)

Definition ProfilesVersion : gostring := "v1".

Inductive profile_error :=
  | BadProfileID | ProfileExpired | ProfilePolicy (e : net_error) | NothingAllowed | ProfileLimits (e : job_error)
  | ProfilesNotDecoded (e : strict_error) | ProfilesVersionUnknown | ProfilesMissing | DuplicateProfile.

(** [Profiles]; the list is absent when it is null. *)
Record Profiles := mkProfiles { pf_Version : gostring; pf_Profiles : option (list NetworkProfile) }.

Definition letter_or_digit (c : ascii) : bool :=
  ((97 <=? code c) && (code c <=? 122)) || ((65 <=? code c) && (code c <=? 90)) || is_digit c.

(** The regular expression of identifiers. *)
Definition opaqueProfileID (id : gostring) : bool :=
  match id with
  | [] => false
  | c :: rest => letter_or_digit c && (len rest <=? 127) && forallb (fun c => letter_or_digit c || contains_byte "._-" c) rest
  end.

Definition ValidateProfile (p : NetworkProfile) (now : gotime) : result profile_error unit :=
  reject negb (opaqueProfileID (np_ID p)) with BadProfileID;
  reject (np_ExpiresAt p =? zero_time) || negb (before now (np_ExpiresAt p)) with ProfileExpired;
  policy ← match normalizePolicy (np_Policy p) with Ok q => Ok q | Err e => Err (ProfilePolicy e) end;
  reject bool_decide (AllowedSchemes policy = []) || bool_decide (AllowedPorts policy = []) ||
         (bool_decide (AllowedDomains policy = []) && bool_decide (AllowedCIDRs policy = [])) with NothingAllowed;
  match validateLimits (np_Limits p) with Ok _ => Ok tt | Err e => Err (ProfileLimits e) end.

Definition with_policy (p : NetworkProfile) (q : NetPolicy.Policy) : NetworkProfile :=
  mkNetworkProfile (np_ID p) q (np_Limits p) (np_ExpiresAt p).

Definition normal_profile (p : NetworkProfile) : NetworkProfile :=
  match normalizePolicy (np_Policy p) with Ok q => with_policy p q | Err _ => p end.

(** The loop of [ParseProfiles]. *)
Fixpoint collect_profiles (l : list NetworkProfile) (now : gotime) (acc : gmap gostring NetworkProfile)
  : result profile_error (gmap gostring NetworkProfile) :=
  match l with
  | [] => Ok acc
  | p :: l =>
      _ ← ValidateProfile p now;
      reject bool_decide (is_Some (acc !! np_ID p)) with DuplicateProfile;
      collect_profiles l now
        (<[np_ID p := normal_profile p]> acc)
  end.

Definition ParseProfiles `{Tokenizer} `{TypedDecoder Profiles} (raw : gostring) (now : gotime)
  : result profile_error (gmap gostring NetworkProfile) :=
  match DecodeStrict raw with
  | Err e => Err (ProfilesNotDecoded e)
  | Ok document =>
      reject negb (bool_decide (pf_Version document = ProfilesVersion)) with ProfilesVersionUnknown;
      match pf_Profiles document with None => Err ProfilesMissing | Some l => collect_profiles l now ∅ end
  end.

(** ** Headers in normal form *)

Definition entry_size (e : gostring * list gostring) : Z := foldr Z.add 0 ((fun v => len e.1 + len v + 4) <$> e.2).
Definition normal_entry (e : gostring * list gostring) : gostring * list gostring := (to_lower (trim_space e.1), e.2).
(** What the loop checks of an entry whose name is normal. *)
Definition entry_ok (allowed : list gostring) (e : gostring * list gostring) : Prop :=
  e.1 ∉ forbidden_headers /\ e.1 ∈ hardAllowedRequestHeaders /\ e.1 ∈ allowed /\ 1 <= len e.2 <= 16 /\
  Forall (fun v => control_value v = false) e.2.
Definition total_size (l : list (gostring * list gostring)) : Z := foldr Z.add 0 (entry_size <$> l).

Lemma hard_allowed_normal name : name ∈ hardAllowedRequestHeaders -> to_lower (trim_space name) = name /\ name <> [].
Proof.
  intros Hn. assert (Hall : Forall (fun n => to_lower (trim_space n) = n /\ n <> []) hardAllowedRequestHeaders)
    by (repeat constructor; discriminate).
  rewrite Forall_forall in Hall. by apply Hall.
Qed.

Lemma total_size_cons e l : total_size (e :: l) = entry_size e + total_size l.
Proof. done. Qed.

Lemma total_size_perm l k : l ≡ₚ k -> total_size l = total_size k.
Proof. induction 1; rewrite ?total_size_cons in *; unfold total_size in *; lia. Qed.

Lemma fresh_after_insert (acc : Headers) name values (L : list (gostring * list gostring)) :
  Forall (fun e => <[name := values]> acc !! e.1 = None) L <-> name ∉ L.*1 /\ Forall (fun e => acc !! e.1 = None) L.
Proof.
  induction L as [|[k v] L IH]; [split; [split; [set_solver|constructor]|constructor]|].
  rewrite !Forall_cons, IH. cbn [fmap list_fmap fst]. rewrite lookup_insert_None, not_elem_of_cons. naive_solver.
Qed.

Lemma normal_entry_ok allowed raw values :
  let name := to_lower (trim_space raw) in
  entry_ok allowed (normal_entry (raw, values)) <->
  empty name || bool_decide (name ∈ forbidden_headers) = false /\ negb (bool_decide (name ∈ hardAllowedRequestHeaders)) = false /\
  negb (bool_decide (name ∈ allowed)) = false /\ (len values =? 0) || (16 <? len values) = false /\ existsb control_value values = false.
Proof.
  cbn zeta. unfold entry_ok, normal_entry, empty. cbn [fst snd]. rewrite !orb_false_iff, !negb_false_iff, !bool_decide_eq_true, !bool_decide_eq_false.
  rewrite Z.eqb_neq, Z.ltb_ge, <- existsb_false_Forall. pose proof (len_nonneg values). split.
  - intros (? & Hh & ? & ? & ?). apply hard_allowed_normal in Hh as Hn. repeat split; try tauto; lia.
  - intros ((? & ?) & ? & ? & (? & ?) & ?). repeat split; try tauto; lia.
Qed.

Lemma normal_headers_Ok l allowed acc total h n :
  normal_headers l allowed acc total = Ok (h, n) <->
  Forall (entry_ok allowed) (normal_entry <$> l) /\ NoDup (normal_entry <$> l).*1 /\
  Forall (fun e => acc !! e.1 = None) (normal_entry <$> l) /\
  h = list_to_map (normal_entry <$> l) ∪ acc /\ n = total + total_size (normal_entry <$> l).
Proof.
  revert acc total. induction l as [|[raw values] l IH]; intros acc total; cbn [normal_headers].
  { cbn. rewrite (left_id_L ∅ (∪)), Z.add_0_r. split; [intros [= <- <-]|intros (_ & _ & _ & -> & ->)]; [|done].
    repeat split; constructor. }
  rewrite !guard_Ok, IH, fresh_after_insert, fmap_cons, Forall_cons, fmap_cons, NoDup_cons, Forall_cons, total_size_cons, normal_entry_ok.
  change (normal_entry (raw, values)).1 with (to_lower (trim_space raw)). rewrite Z.add_assoc.
  change (foldr Z.add 0 _) with (entry_size (normal_entry (raw, values))). cbn [list_to_map foldr normal_entry fst snd uncurry].
  set (name := to_lower (trim_space raw)). set (L := normal_entry <$> l).
  assert (Hm : name ∉ L.*1 -> list_to_map L ∪ <[name := values]> acc = <[name := values]> (list_to_map L) ∪ acc).
  { intros Hn. rewrite <- insert_union_r by (by apply not_elem_of_list_to_map_1). by rewrite insert_union_l. }
  assert (Hs : bool_decide (is_Some (acc !! name)) = false <-> acc !! name = None) by (rewrite bool_decide_eq_false, eq_None_not_Some; done).
  rewrite Hs. clear Hs. split.
  - intros (? & ? & ? & ? & ? & ? & ? & ? & (? & ?) & -> & ->). rewrite Hm by done. tauto.
  - intros ((? & ?) & (? & ?) & (? & ?) & -> & ->). rewrite <- Hm by done. tauto.
Qed.

Lemma normalizeHeaders_Ok headers policy h n :
  normalizeHeaders headers policy = Ok (h, n) <->
  let L := normal_entry <$> map_to_list headers in
  Forall (entry_ok (AllowedRequestHeaders policy)) L /\ NoDup L.*1 /\ h = list_to_map L /\ n = total_size L.
Proof.
  unfold normalizeHeaders. rewrite normal_headers_Ok, (right_id_L ∅ (∪)), Z.add_0_l. cbn zeta. split; [tauto|].
  intros (? & ? & ? & ?). repeat (split; [done|]). split; [|done]. apply Forall_true. intros e. apply lookup_empty.
Qed.

(** Normal headers are normal, with the same size. *)
Lemma normalizeHeaders_idemp headers policy h n : normalizeHeaders headers policy = Ok (h, n) -> normalizeHeaders h policy = Ok (h, n).
Proof.
  rewrite !normalizeHeaders_Ok. cbn zeta. set (L := normal_entry <$> map_to_list headers). intros (Hok & Hn & -> & ->).
  assert (Hp : map_to_list (list_to_map L :> Headers) ≡ₚ L) by (by apply map_to_list_to_map).
  assert (Hid : normal_entry <$> map_to_list (list_to_map L :> Headers) = map_to_list (list_to_map L :> Headers)).
  { rewrite <- list_fmap_id. apply list_fmap_ext. intros i [k v] Hi%list_elem_of_lookup_2. rewrite Hp in Hi.
    rewrite Forall_forall in Hok. destruct (Hok _ Hi) as (_ & Hh & _). unfold normal_entry. cbn [fst snd] in *. by apply hard_allowed_normal in Hh as [-> _]. }
  rewrite Hid. split; [by rewrite Hp|]. split; [by rewrite Hp|]. split; [by rewrite list_to_map_to_list|].
  symmetry. by apply total_size_perm.
Qed.

(** ** What a capability proves *)

Definition signed_part (payload : gostring) : gostring := tokenVersion ++ "." ++ b64_encode payload.
Definition token_of (payload signature : gostring) : gostring := signed_part payload ++ "." ++ b64_encode signature.

Lemma split_net_token payload signature :
  split_byte "." (token_of payload signature) = [tokenVersion; b64_encode payload; b64_encode signature].
Proof.
  unfold token_of, signed_part. rewrite <- !app_assoc. cbn [app].
  rewrite split_byte_cons_sep by (unfold tokenVersion; set_solver).
  rewrite split_byte_cons_sep by apply b64_encode_no_dot.
  by rewrite split_byte_app_no_sep by apply b64_encode_no_dot.
Qed.

Record acceptable (pk token : gostring) (now : gotime) (c : Claims) : Prop := {
  ac_signed : exists payload signature, token = token_of payload signature /\ length signature = 64%nat /\
    ed_verify pk (signed_part payload) signature = true /\ decode_strict payload = Some c;
  ac_size : len token <= maxTokenBytes;
  ac_valid : validateClaims c = Ok tt;
  ac_fresh : now < c_ExpiresAt c <= now + maxCapabilityLifetime
}.

Lemma authenticate_net pk token scope now c :
  authenticate pk token scope now = Ok c <-> acceptable pk token now c /\ c_Scope c = scope.
Proof.
  unfold authenticate. rewrite guard_Ok, orb_false_iff, Z.eqb_neq, Z.ltb_ge. split.
  - intros ((_ & Hlen) & Ha). destruct (split_byte "." token) as [|v [|p [|s [|]]]] eqn:Hs; try done.
    apply guard_Ok in Ha as [Hv%negb_false_iff%bool_decide_eq_true Ha]. subst v.
    destruct (decodeCanonicalBase64 p) as [payload|] eqn:Hp, (decodeCanonicalBase64 s) as [signature|] eqn:Hg; try done.
    apply decodeCanonicalBase64_Some in Hp as ->. apply decodeCanonicalBase64_Some in Hg as ->.
    apply guard_Ok in Ha as [Hl%negb_false_iff%Z.eqb_eq Ha]. apply guard_Ok in Ha as [He%negb_false_iff Ha].
    destruct (decode_strict payload) as [c'|] eqn:Hd; [|done]. apply bind_Ok in Ha as ([] & Hc & Ha).
    apply guard_Ok in Ha as [Ht1%negb_false_iff%Z.ltb_lt Ha]. apply guard_Ok in Ha as [Ht2%Z.ltb_ge Ha].
    apply guard_Ok in Ha as [Hm%negb_false_iff%bool_decide_eq_true [= <-]].
    split; [|done]. split; [|done..|lia]. exists payload, signature.
    split; [by rewrite <- (join_split_byte "." token), Hs; unfold token_of, signed_part; rewrite <- !app_assoc|].
    split; [unfold len in Hl; lia|done].
  - intros [[(payload & signature & -> & Hl & He & Hd) Hs Hc Ht] <-]. split.
    { split; [|done]. unfold token_of, signed_part. rewrite !len_app. unfold len. cbn. lia. }
    rewrite split_net_token, bool_decide_eq_true_2, !decodeCanonicalBase64_encode by done.
    cbn [negb guard_err]. unfold len. rewrite Hl. cbn [negb guard_err Z.of_nat].
    unfold signed_part in He. rewrite He, Hd, Hc. cbn [mbind result_bind negb]. unfold before, after.
    rewrite (proj2 (Z.ltb_lt _ _)), (proj2 (Z.ltb_ge _ _)), bool_decide_eq_true_2 by (done || lia). done.
Qed.

Lemma validateClaims_single c : validateClaims c = Ok tt -> c_SingleUse c = true.
Proof. unfold validateClaims. by intros (_ & (?%negb_false_iff & _)%guard_Ok)%guard_Ok. Qed.

Lemma Verify_net v token scope now c v' :
  Verify v token scope now = (Ok c, v') <->
  acceptable (publicKey v) token now c /\ c_Scope c = scope /\ s_TokenID scope ∉ used v /\
  v' = mkVerifier (publicKey v) ({[s_TokenID scope]} ∪ used v).
Proof.
  rewrite (assoc and), <- authenticate_net. unfold Verify. destruct (authenticate _ _ _ _) as [c0|e] eqn:Ha; [|split; [done|by intros [? _]]].
  pose proof (proj1 (authenticate_net _ _ _ _ _) Ha) as [[_ _ Hv _] Hs]. rewrite (validateClaims_single _ Hv), Hs.
  case_bool_decide as Hu; split.
  - done.
  - intros (_ & ? & _). done.
  - intros [= <- <-]. done.
  - by intros ([= ->] & _ & ->).
Qed.

(** ** A job that was built is accepted *)

Lemma Sign_net key c now token :
  Sign key c now = Ok token <->
  validateClaims c = Ok tt /\ now < c_ExpiresAt c <= now + maxCapabilityLifetime /\
  exists payload, marshal c = Some payload /\ token = token_of payload (ed_sign key (signed_part payload)).
Proof.
  unfold Sign. rewrite bind_Ok. setoid_rewrite guard_Ok. setoid_rewrite guard_Ok. unfold after, token_of, signed_part.
  setoid_rewrite negb_false_iff. setoid_rewrite Z.ltb_lt. setoid_rewrite Z.ltb_ge.
  destruct (marshal c) as [payload|]; split.
  - intros ([] & ? & ? & ? & [= <-]). split; [done|]. split; [lia|]. exists payload. by rewrite <- !app_assoc.
  - intros (? & ? & ? & [= <-] & ->). exists tt. split; [done|]. split; [lia|]. split; [lia|]. by rewrite <- !app_assoc.
  - intros ([] & _ & _ & _ & ?). done.
  - intros (_ & _ & ? & ? & _). done.
Qed.

(** The texts of the claims are valid UTF-8. *)
Definition claims_text (c : Claims) : Prop :=
  let s := c_Scope c in
  Forall (fun t => utf8_valid t = true)
    [s_TokenID s; s_WorkerType s; s_RequestID s; s_Principal s; s_WorkspaceID s; s_BridgeID s; s_SessionID s; s_ClientRequestID s;
     s_Operation s; s_URL s; s_Method s; s_HeadersSHA256 s; s_BodySHA256 s; s_PolicyID s; s_ProfileID s; s_PolicySHA256 s].

Lemma decodeBody_encode body limit :
  len body <= limit -> DecodedLen (len (std_encode body)) <= limit ->
  decodeBody (if decide (body = []) then [] else std_encode body) limit = Ok body.
Proof.
  intros Hb Hl. unfold decodeBody. destruct (decide (body = [])) as [->|Hne]; [done|]. rewrite decide_False.
  - rewrite (proj2 (Z.ltb_ge _ _)) by done. cbn [guard_err]. rewrite std_decode_encode, bool_decide_eq_true_2 by done. cbn [negb guard_err].
    by rewrite (proj2 (Z.ltb_ge _ _)).
  - intros E. apply (f_equal std_decode) in E. rewrite std_decode_encode in E. assert (std_decode [] = Some []) by done. congruence.
Qed.

(** What [BuildSignedJob] has checked, and the job it gives. *)
Definition built_scope (r : NetworkRequest) (url tokenID headersSHA256 policySHA256 : gostring) : Scope :=
  let m := nr_Meta r in
  mkScope tokenID WorkerType (m_RequestID m) (m_AuthPrincipal m) (nr_WorkspaceID r) (m_BridgeID m) (m_SessionID m) (m_ClientRequestID m)
    (nr_Operation r) url (nr_Method r) headersSHA256 (digest (nr_Body r)) (nr_PolicyID r) (nr_ProfileID r) policySHA256 (nr_Limits r).

Lemma BuildSignedJob_Ok key randomID r expiresAt now j :
  BuildSignedJob key randomID r expiresAt now = Ok j ->
  exists url policy headers bytes headersSHA256 policySHA256,
    let scope := built_scope r url (j_TokenID j) headersSHA256 policySHA256 in
    NormalizeURL (nr_URL r) = Ok url /\ normalizePolicy (nr_Policy r) = Ok policy /\
    normalizeHeaders (list_to_map (nr_Headers r)) policy = Ok (headers, bytes) /\ bytes <= rl_MaxRequestHeaderBytes (nr_Limits r) /\
    len (nr_Body r) <= rl_MaxRequestBodyBytes (nr_Limits r) /\ (nr_Operation r <> OperationUpload -> nr_Body r = []) /\
    headersDigest headers = Ok headersSHA256 /\ policyDigest policy = Ok policySHA256 /\
    Sign key (mkClaims scope expiresAt true) now = Ok (j_Token j) /\
    j = mkJob (j_Token j) (s_TokenID scope) WorkerType (s_RequestID scope) (s_Principal scope) (s_WorkspaceID scope) (s_BridgeID scope)
          (s_SessionID scope) (s_ClientRequestID scope) (s_Operation scope) url (s_Method scope) headers
          (if decide (nr_Body r = []) then [] else std_encode (nr_Body r)) (s_PolicyID scope) (s_ProfileID scope) policy false (s_Limits scope).
Proof.
  unfold BuildSignedJob. intros [_ ([] & _ & (url & Hu & (policy & Hp & ([] & _ & ([headers bytes] & Hh & Hj)%bind_Ok)%bind_Ok)%bind_Ok)%bind_Ok)%bind_Ok]%guard_Ok.
  apply guard_Ok in Hj as [Hb%Z.ltb_ge Hj]. apply guard_Ok in Hj as [Hl%Z.ltb_ge Hj]. apply guard_Ok in Hj as [Hup Hj].
  apply bind_Ok in Hj as (hd & Hhd & (pd & Hpd & (token & Hs & [= <-])%bind_Ok)%bind_Ok).
  exists url, policy, headers, bytes, hd, pd. cbn.
  split; [by destruct (NormalizeURL _); congruence|]. split; [by destruct (normalizePolicy _); congruence|].
  repeat (split; [done|]). split; [|by repeat split]. intros Hne. rewrite bool_decide_eq_false_2 in Hup by done.
  apply negb_false_iff, bool_decide_eq_true in Hup. done.
Qed.

(** The job of a scope. *)
Definition job_of (token : gostring) (s : Scope) (headers : Headers) (body64 : gostring) (policy : NetPolicy.Policy) : Job :=
  mkJob token (s_TokenID s) (s_WorkerType s) (s_RequestID s) (s_Principal s) (s_WorkspaceID s) (s_BridgeID s) (s_SessionID s)
    (s_ClientRequestID s) (s_Operation s) (s_URL s) (s_Method s) headers body64 (s_PolicyID s) (s_ProfileID s) policy false (s_Limits s).

Lemma prepareJob_signed token s expiresAt headers bytes body body64 policy :
  token <> [] -> validateClaims (mkClaims s expiresAt true) = Ok tt -> normalizePolicy policy = Ok policy ->
  normalizeHeaders headers policy = Ok (headers, bytes) -> bytes <= rl_MaxRequestHeaderBytes (s_Limits s) ->
  decodeBody body64 (rl_MaxRequestBodyBytes (s_Limits s)) = Ok body -> (s_Operation s <> OperationUpload -> body = []) ->
  headersDigest headers = Ok (s_HeadersSHA256 s) -> policyDigest policy = Ok (s_PolicySHA256 s) -> digest body = s_BodySHA256 s ->
  prepareJob (job_of token s headers body64 policy) = Ok (job_of token s headers body64 policy, body, s).
Proof.
  intros Ht Hv Hp Hh Hby Hb Hop Hhd Hpd Hd. unfold validateClaims in Hv. cbn [c_Scope] in Hv.
  apply guard_Ok in Hv as [[Hinc _]%orb_false_iff Hv]. do 2 apply guard_Ok in Hv as [_ Hv].
  apply guard_Ok in Hv as [Hun Hv]. apply bind_Ok in Hv as ([] & Hom & Hli). unfold incomplete_scope in Hinc.
  assert (Hte : empty token = false) by by apply bool_decide_eq_false_2.
  unfold prepareJob, job_of. cbn [j_Token j_TokenID j_WorkerType j_RequestID j_Principal j_WorkspaceID j_BridgeID j_SessionID
    j_ClientRequestID j_Operation j_URL j_Method j_Headers j_BodyBase64 j_PolicyID j_ProfileID j_Policy j_EmptyLists j_Limits].
  rewrite !orb_false_iff in Hinc. destruct_and!.
  repeat match goal with E : ?b = false |- _ => rewrite E; clear E end. cbn [orb guard_err].
  rewrite Hom, Hp. cbn [mbind result_bind]. unfold policiesEqual, headersEqual. cbn [j_EmptyLists j_Policy].
  rewrite Hli, bool_decide_eq_true_2 by done. cbn [negb andb guard_err mbind result_bind]. rewrite Hh. cbn [mbind result_bind].
  rewrite (proj2 (Z.ltb_ge _ _)), bool_decide_eq_true_2, Hb by done. cbn [negb guard_err mbind result_bind]. rewrite Hhd, Hpd. cbn [mbind result_bind]. rewrite Hd.
  replace (negb (bool_decide (s_Operation s = OperationUpload)) && negb (empty body)) with false.
  - cbn [guard_err]. f_equal. f_equal. by destruct s.
  - case_bool_decide as Hu; [done|]. rewrite Hop by done. done.
Qed.

Section laws.
Context `{!Ed25519Laws} `{!JsonLaws Claims claims_text}.
#[local] Set Default Proof Using "All".

End laws.

(** ** Profiles that are loaded *)

Definition profile_entry (p : NetworkProfile) : gostring * NetworkProfile := (np_ID p, normal_profile p).

Lemma collect_profiles_Ok l now acc m :
  collect_profiles l now acc = Ok m ->
  Forall (fun p => ValidateProfile p now = Ok tt) l /\ NoDup (np_ID <$> l) /\ Forall (fun p => acc !! np_ID p = None) l /\
  m = list_to_map (profile_entry <$> l) ∪ acc.
Proof.
  revert acc. induction l as [|x l IH]; intros acc; cbn [collect_profiles].
  { intros [= <-]. split; [constructor|]. split; [constructor|]. split; [constructor|]. cbn. by rewrite (left_id_L ∅ (∪)). }
  intros ([] & Hv & [Hd Hc]%guard_Ok)%bind_Ok. apply bool_decide_eq_false, eq_None_not_Some in Hd.
  apply IH in Hc as (Hf & Hn & Ha & ->). rewrite Forall_forall in Ha. setoid_rewrite lookup_insert_None in Ha.
  assert (Hx : np_ID x ∉ np_ID <$> l). { intros (p & Hid & Hin)%list_elem_of_fmap. by destruct (Ha _ Hin) as [_ []]. }
  split; [by constructor|]. split; [by constructor|]. split.
  - constructor; [done|]. apply Forall_forall. intros p Hin. by destruct (Ha _ Hin).
  - cbn [fmap list_fmap list_to_map foldr profile_entry fst snd uncurry]. rewrite <- insert_union_r, insert_union_l; [done|].
    apply not_elem_of_list_to_map_1. rewrite <- list_fmap_compose. exact Hx.
Qed.

(** A profile that is loaded was configured under its name and once, is well formed and in
    force, and has its policy in normal form; and every configured profile is loaded. *)
Theorem profiles_loaded `{Tokenizer} `{TypedDecoder Profiles} raw now m :
  ParseProfiles raw now = Ok m ->
  exists l, NoDup (np_ID <$> l) /\
    (forall id p, m !! id = Some p <->
       exists c, c ∈ l /\ id = np_ID c /\ normalizePolicy (np_Policy c) = Ok (np_Policy p) /\ p = with_policy c (np_Policy p)) /\
    forall id p, m !! id = Some p -> np_ID p = id /\ opaqueProfileID id = true /\ now < np_ExpiresAt p /\
      AllowedSchemes (np_Policy p) <> [] /\ AllowedPorts (np_Policy p) <> [] /\
      (AllowedDomains (np_Policy p) <> [] \/ AllowedCIDRs (np_Policy p) <> []) /\ validateLimits (np_Limits p) = Ok tt.
Proof.
  unfold ParseProfiles. destruct (DecodeStrict raw) as [document|]; [|done]. intros [_ Hp]%guard_Ok.
  destruct (pf_Profiles document) as [l|]; [|done]. apply collect_profiles_Ok in Hp as (Hv & Hn & _ & ->). exists l. split; [done|].
  rewrite (right_id_L ∅ (∪)). rewrite Forall_forall in Hv.
  assert (Hm : forall id p, (list_to_map (profile_entry <$> l) : gmap gostring NetworkProfile) !! id = Some p <->
    exists c, c ∈ l /\ id = np_ID c /\ normalizePolicy (np_Policy c) = Ok (np_Policy p) /\ p = with_policy c (np_Policy p)).
  { intros id p. rewrite <- elem_of_list_to_map, list_elem_of_fmap by (by rewrite <- list_fmap_compose).
    unfold profile_entry, normal_profile. split.
    - intros (c & [= -> ->] & Hc). exists c. specialize (Hv _ Hc). unfold ValidateProfile in Hv.
      do 2 apply guard_Ok in Hv as [_ Hv]. destruct (normalizePolicy _); done.
    - intros (c & Hc & -> & Hq & Ep). exists c. by rewrite Hq, <- Ep. }
  split; [done|]. intros id p (c & Hc & -> & Hq & ->)%Hm. specialize (Hv _ Hc). cbn. unfold ValidateProfile in Hv.
  apply guard_Ok in Hv as [Hi Hv]. apply guard_Ok in Hv as [He Hv]. rewrite Hq in Hv. cbn [mbind result_bind] in Hv.
  apply guard_Ok in Hv as [Ho Hv]. destruct (validateLimits (np_Limits c)) as [[]|]; [|done].
  apply negb_false_iff in Hi. apply orb_false_iff in He as [_ He%negb_false_iff%Z.ltb_lt].
  rewrite !orb_false_iff, andb_false_iff, !bool_decide_eq_false in Ho. repeat split; try tauto; done.
Qed.

(** ** Two places where the code does not do what it means to do *)

(** The worker compares the decoded length of the base64 text, padding included, with the
    limit: a body of the largest size that the client admits is refused, unless that size
    is a multiple of three. *)
Lemma full_body_refused : decodeBody (std_encode "x") (len "x") = Err BodyTooLarge.
Proof. vm_compute. reflexivity. Qed.

(** The product of the timeout in milliseconds wraps around before it is compared: a timeout
    of some 292 years passes, and is in the past. *)
Lemma timeout_wraps :
  let limits := mkResourceLimits 0 1 1 1 0 9223372036855 in validateLimits limits = Ok tt /\ Timeout limits < 0.
Proof. vm_compute. done. Qed.
End job.

(** ** Witnesses *)

Definition flat_net_json : NetJson := {| marshal_policy _ := Some ("p" : gostring); marshal_headers _ := Some ("h" : gostring) |}.
Definition net_limits : ResourceLimits := mkResourceLimits 3 1000 100 100 2 1000.
Definition upload_meta : Meta := mkMeta "r1" "b1" "s1" "q1" "p1" "ip" "allow" [] true.
Definition upload_request : NetworkRequest :=
  mkNetworkRequest "t1" upload_meta "w1" "upload" "http://a.b/x" "POST" [("Accept" : gostring, ["*/*" : gostring])] "hi!" "allow" "n1"
    NetPolicy.sample_policy net_limits.
Definition upload_scope : Scope :=
  @built_scope toy_crypto upload_request "http://a.b/x" "t1" (@digest toy_crypto "h") (@digest toy_crypto "p").
Definition upload_claims : Claims := mkClaims upload_scope (30 * second) true.
Definition net_seed : gostring := replicate 32 (byte_of 9).
Definition upload_json : Json Claims := one_json upload_claims.
Definition upload_built : result job_error Job :=
  @BuildSignedJob pwd_tables ascii_tables toy_crypto toy_ed table_netip table_url flat_net_json upload_json (@ed_from_seed toy_ed net_seed) []
    upload_request (30 * second) 0.
Definition upload_job : Job := match upload_built with Ok j => j | Err _ => job_of [] upload_scope ∅ [] NetPolicy.sample_policy end.


Definition one_profile : NetworkProfile := mkNetworkProfile "n1" NetPolicy.sample_profile net_limits (100 * second).
Definition profile_tokens : Tokenizer := {| json_tokens _ := ([TNull], true) |}.
Definition profile_decoder : TypedDecoder Profiles := {| typed_decode _ := Some (mkProfiles "v1" (Some [one_profile]), true) |}.
Definition loaded_profiles : result profile_error (gmap gostring NetworkProfile) :=
  @ParseProfiles ascii_tables table_netip profile_tokens profile_decoder "x" 0.

Lemma profiles_loaded_witness : 0 < np_ExpiresAt one_profile.
Proof.
  destruct (@profiles_loaded ascii_tables table_netip profile_tokens profile_decoder "x" 0
    {["n1" := with_policy one_profile NetPolicy.sample_policy]}) as (l & _ & _ & Hp).
  - vm_compute. reflexivity.
  - destruct (Hp "n1" (with_policy one_profile NetPolicy.sample_policy)) as (_ & _ & Hx & _); [reflexivity|exact Hx].
Defined.
