(* ===== verification/NetService.v ===== *)
(** * The network worker ([internal/networkworker/service.go], [protocol.go], [client.go])

    A worker runs one job: it checks it, verifies its capability, and follows the job's URL
    through redirects, each of which must stay within the policy. The answers of the network
    are a list of hops; what is sent to it is part of the result. *)
From S2P Require Import Prelude GoStrings Strconv Base64 Utf8 TextTypes Token FileJob Redact Http NetPolicy StrictJson Calls External NetJob.
#[local] Open Scope Z_scope.

(** ** The network *)

(** A final response: its status, its headers by canonical name, the length it announces (-1 if
    none), the bytes of the body, and whether reading breaks off after them. *)
Record http_reply := mkReply {
  hr_Status : Z; hr_Header : gostring -> list gostring; hr_ContentLength : Z; hr_Body : gostring; hr_Broken : bool
}.

(** What comes back for a request: no response, for some cause; a redirect, with the method and
    the absolute URL that [net/http] has made of it; or a response that is final. *)
Inductive hop := HopFailed (c : cause) (text : gostring) | HopRedirect (method url : gostring) | HopReply (r : http_reply).

(** [http.DetectContentType]. *)
Class Sniffer := { DetectContentType : gostring -> gostring }.

Inductive exec_error :=
  | JobRefused (e : job_error) | CapabilityRefused (e : job_error) | TargetDenied (e : net_error)
  | UploadRedirect | TooManyRedirects | RedirectInvalid | RedirectMethod | RequestFailed (text : gostring) | TimedOut
  | ResponseTooLarge | ResponseUnreadable | OperationUnsupported.

Section service.
Context `{TextTables} `{UnicodeTables} `{Crypto} `{Ed25519} `{Netip} `{NetURL} `{NetJson} `{Json Claims} `{HttpText} `{Sniffer}.

(** ** Redirects *)

(** What a name resolves to may change from one lookup to the next: [resolver k] is the [k]-th. *)
Variable (resolver : nat -> gostring -> option (list Addr)).

(** [CheckRedirect]: the URL in normal form. [via] requests were made before. *)
Definition CheckRedirect (job : Job) (k : nat) (method url : gostring) (via : Z) : result exec_error gostring :=
  if decide (j_Operation job = OperationUpload) then Err UploadRedirect
  else if rl_MaxRedirects (j_Limits job) <? via then Err TooManyRedirects
  else
    match NormalizeURL url with
    | Err _ => Err RedirectInvalid
    | Ok normalized =>
        match Parse normalized with
        | None => Err RedirectInvalid
        | Some _ =>
            match validateOperationMethod (j_Operation job) method with
            | Err _ => Err RedirectMethod
            | Ok _ => match validateTarget (resolver k) normalized (j_Policy job) with Ok _ => Ok normalized | Err e => Err (TargetDenied e) end
            end
        end
    end.

(** [http.Client.Do]: the requests it sends, and the response. *)
Fixpoint follow (job : Job) (hops : list hop) (sent : list (gostring * gostring)) (method url : gostring)
  : list (gostring * gostring) * result exec_error http_reply :=
  let sent := sent ++ [(method, url)] in
  match hops with
  | [] | HopFailed DeadlineExceeded _ :: _ => (sent, Err TimedOut)
  | HopFailed _ text :: _ => (sent, Err (RequestFailed text))
  | HopReply r :: _ => (sent, Ok r)
  | HopRedirect method' url' :: hops =>
      match CheckRedirect job (length sent) method' url' (len sent) with
      | Err e => (sent, Err e)
      | Ok normalized => follow job hops sent method' normalized
      end
  end.

(** ** The response *)

Definition readBounded (r : http_reply) (limit : Z) : result exec_error gostring :=
  reject limit <? hr_ContentLength r with ResponseTooLarge;
  reject limit <? len (hr_Body r) with ResponseTooLarge;
  reject hr_Broken r with ResponseUnreadable;
  Ok (hr_Body r).

Definition safe_response_headers : list gostring := ["Cache-Control"; "Content-Length"; "Content-Type"; "ETag"; "Expires"; "Last-Modified"].
Definition header_value_ok (v : gostring) : bool := (len v <=? Z.shiftl 8 10) && negb (contains_byte v CR) && negb (contains_byte v LF).

Definition responseHeaders (h : gostring -> list gostring) : list (gostring * list gostring) :=
  omap (fun name => match filter (fun v => header_value_ok v = true) (h name) with [] => None | vs => Some (to_lower name, vs) end)
    safe_response_headers.

Definition responseMIME (contentType body : gostring) : gostring :=
  let sniffed :=
    if decide (body = []) then []
    else match ParseMediaType (DetectContentType body) with Some (t, _) => to_lower t | None => "application/octet-stream" end in
  if decide (contentType = []) then sniffed
  else match ParseMediaType contentType with Some (t, _) => to_lower t | None => sniffed end.

Definition isTextual (mimeType : gostring) : bool :=
  has_prefix mimeType "text/" || bool_decide (mimeType = "application/json") || has_suffix mimeType "+json" ||
  bool_decide (mimeType = "application/xml") || has_suffix mimeType "+xml".

(** The result of a response whose body was read; the identities are filled in by [Execute]. *)
Definition response_of (operation : gostring) (r : http_reply) (body : gostring) : result exec_error NetworkResponse :=
  let mimeType := responseMIME (default [] (head (hr_Header r "Content-Type"))) body in
  let result text base64 := mkNetworkResponse [] [] (hr_Status r) (responseHeaders (hr_Header r)) text base64 mimeType (len body) (digest body) in
  if decide (operation = OperationWebFetch) then
    Ok (if isTextual mimeType && utf8_valid body then result body []
        else if decide (body = []) then result [] [] else result [] (std_encode body))
  else if decide (operation = OperationDownload) then Ok (result [] (std_encode body))
  else if decide (operation = OperationUpload) then Ok (result [] [])
  else Err OperationUnsupported.

(** ** A job *)

Definition executeAuthorized (job : Job) (hops : list hop) : list (gostring * gostring) * result exec_error NetworkResponse :=
  match validateTarget (resolver 0) (j_URL job) (j_Policy job) with
  | Err e => ([], Err (TargetDenied e))
  | Ok _ =>
      let '(sent, reply) := follow job hops [] (j_Method job) (j_URL job) in
      (sent, reply ← reply; body ← readBounded reply (rl_MaxResponseBodyBytes (j_Limits job)); response_of (j_Operation job) reply body)
  end.

(** [Service.Execute]; a response of the worker is marked as untrusted in every case. *)
Definition Execute (workerID : gostring) (v : Verifier) (job : Job) (now : gotime) (hops : list hop)
  : list (gostring * gostring) * result exec_error NetworkResponse * Verifier :=
  match prepareJob job with
  | Err e => ([], Err (JobRefused e), v)
  | Ok (prepared, body, scope) =>
      match Verify v (j_Token prepared) scope now with
      | (Err e, v) => ([], Err (CapabilityRefused e), v)
      | (Ok claims, v) =>
          if negb (bool_decide (s_TokenID (c_Scope claims) = j_TokenID prepared)) then ([], Err (CapabilityRefused IdentityMismatch), v)
          else
            let '(sent, r) := executeAuthorized prepared hops in
            (sent, r ← r; Ok (mkNetworkResponse (s_TokenID (c_Scope claims)) workerID (no_Status r) (no_Headers r) (no_Text r) (no_Base64 r)
                               (no_MIMEType r) (no_Bytes r) (no_SHA256 r)), v)
      end
  end.

(** ** What the worker sends *)

(** A request that may be sent: a method of the operation, and a target within the policy. *)
Definition sendable (job : Job) (policy : NetPolicy.Policy) (request : gostring * gostring) : Prop :=
  validateOperationMethod (j_Operation job) request.1 = Ok tt /\
  exists k addrs, validateTarget (resolver k) request.2 policy = Ok addrs.

Lemma CheckRedirect_Ok job k method url via u :
  CheckRedirect job k method url via = Ok u ->
  j_Operation job <> OperationUpload /\ via <= rl_MaxRedirects (j_Limits job) /\ sendable job (j_Policy job) (method, u).
Proof.
  unfold CheckRedirect, sendable. case_decide as Hu; [done|]. destruct (Z.ltb_spec (rl_MaxRedirects (j_Limits job)) via); [done|].
  destruct (NormalizeURL url) as [n|]; [|done]. destruct (Parse n); [|done].
  destruct (validateOperationMethod _ _) as [[]|] eqn:Em; [|done]. destruct (validateTarget _ _ _) as [addrs|] eqn:Et; [|done].
  intros [= <-]. split; [done|]. split; [lia|]. split; [done|]. eauto.
Qed.

Lemma follow_sent job hops : forall sent method url sent' r,
  follow job hops sent method url = (sent', r) -> Forall (sendable job (j_Policy job)) (sent ++ [(method, url)]) ->
  len sent <= rl_MaxRedirects (j_Limits job) -> (j_Operation job = OperationUpload -> sent = []) ->
  sent ++ [(method, url)] `prefix_of` sent' /\ Forall (sendable job (j_Policy job)) sent' /\
  len sent' <= rl_MaxRedirects (j_Limits job) + 1 /\ (j_Operation job = OperationUpload -> sent' = [(method, url)]).
Proof.
  induction hops as [|h hops IH]; intros sent method url sent' r; cbn [follow].
  { intros [= <- <-] Hf Hl Hu. split; [done|]. split; [done|]. rewrite len_app. cbn. split; [unfold len in *; cbn; lia|]. by intros ->%Hu. }
  destruct h as [c text|method' url'|reply].
  - assert (Hstop : forall r0, (sent ++ [(method, url)], r0) = (sent', r) -> sent' = sent ++ [(method, url)]) by (by intros ? [= <-]).
    intros E Hf Hl Hu. assert (sent' = sent ++ [(method, url)]) as -> by (destruct c; by eapply Hstop).
    split; [done|]. split; [done|]. rewrite len_app. split; [unfold len in *; cbn; lia|]. by intros ->%Hu.
  - destruct (CheckRedirect _ _ _ _ _) as [u|e] eqn:Ec.
    + apply CheckRedirect_Ok in Ec as (Hup & Hvia & Hs). intros E Hf Hl Hu.
      destruct (IH _ _ _ _ _ E) as (Hp & Hf' & Hl' & _); [by apply Forall_app; split; [|apply Forall_singleton]|done|done|].
      split; [by etrans; [apply prefix_app_r|exact Hp]|]. split; [done|]. split; [done|]. done.
    + intros [= <- <-] Hf Hl Hu. split; [done|]. split; [done|]. rewrite len_app. split; [unfold len in *; cbn; lia|]. by intros ->%Hu.
  - intros [= <- <-] Hf Hl Hu. split; [done|]. split; [done|]. rewrite len_app. split; [unfold len in *; cbn; lia|]. by intros ->%Hu.
Qed.

Lemma prepareJob_Ok job prepared body scope :
  prepareJob job = Ok (prepared, body, scope) ->
  exists policy headers, prepared = with_normal job headers policy /\ normalizePolicy (j_Policy job) = Ok policy /\
    validateOperationMethod (j_Operation job) (j_Method job) = Ok tt /\ validateLimits (j_Limits job) = Ok tt /\
    policyDigest policy = Ok (s_PolicySHA256 scope) /\ headersDigest headers = Ok (s_HeadersSHA256 scope) /\
    s_BodySHA256 scope = digest body /\ s_TokenID scope = j_TokenID job /\ s_URL scope = j_URL job /\ s_Method scope = j_Method job /\
    s_Operation scope = j_Operation job /\ s_Limits scope = j_Limits job.
Proof.
  unfold prepareJob. intros [_ ([] & Hm & Hp)%bind_Ok]%guard_Ok. apply guard_Ok in Hp as [_ Hp]. apply bind_Ok in Hp as (policy & Hn & Hp).
  apply guard_Ok in Hp as [_ Hp]. apply bind_Ok in Hp as ([] & Hl & Hp). apply bind_Ok in Hp as ([headers bytes] & _ & Hp).
  do 2 apply guard_Ok in Hp as [_ Hp]. apply bind_Ok in Hp as (b & _ & Hp). apply guard_Ok in Hp as [_ Hp].
  apply bind_Ok in Hp as (hd & Hhd & Hp). apply bind_Ok in Hp as (pd & Hpd & [= <- <- <-]). exists policy, headers.
  split; [done|]. split; [by destruct (normalizePolicy _); congruence|]. by repeat split.
Qed.

Lemma limits_redirects l : validateLimits l = Ok tt -> 0 <= rl_MaxRedirects l.
Proof. unfold validateLimits. intros [Hl _]%guard_Ok. rewrite !orb_false_iff, !Z.ltb_ge in Hl. tauto. Qed.


(** ** What the worker returns *)

(** C25. A response is that of a server: within the signed limit, with its true length and digest; a
    download is the body, a fetched text is the body when the body is text and its encoding
    otherwise, and of an upload nothing is reflected. *)
Theorem network_response_exact workerID v job now hops sent response v' :
  Execute workerID v job now hops = (sent, Ok response, v') ->
  exists reply body, hr_Broken reply = false /\ hr_Body reply = body /\ HopReply reply ∈ hops /\
    len body <= rl_MaxResponseBodyBytes (j_Limits job) /\ no_TokenID response = j_TokenID job /\ no_WorkerID response = workerID /\
    no_Status response = hr_Status reply /\ no_Bytes response = len body /\ no_SHA256 response = digest body /\
    (j_Operation job = OperationDownload -> std_decode (no_Base64 response) = Some body /\ no_Text response = []) /\
    (j_Operation job = OperationWebFetch ->
       no_Text response = body /\ no_Base64 response = [] /\ (body = [] \/ utf8_valid body = true) \/
       no_Text response = [] /\ std_decode (no_Base64 response) = Some body) /\
    (j_Operation job = OperationUpload -> no_Text response = [] /\ no_Base64 response = []).
Proof.
  unfold Execute. destruct (prepareJob job) as [[[prepared body] scope]|e] eqn:Ep; [|done].
  apply prepareJob_Ok in Ep as (policy & headers & -> & _ & _ & _ & _ & _ & _ & Hid & _).
  destruct (Verify _ _ _ _) as [[claims|e] v1] eqn:Ev; [|done]. apply Verify_net in Ev as (_ & Hs & _).
  case_bool_decide as Ht; [|done]. cbn [negb]. unfold executeAuthorized. destruct (validateTarget _ _ _); [|done].
  destruct (follow _ _ _ _ _) as [sent0 reply] eqn:Ef. intros [= _ Hr _]. apply bind_Ok in Hr as (res & Hr & [= <-]).
  apply bind_Ok in Hr as (rep & -> & (b & Hb & Hr)%bind_Ok). unfold readBounded in Hb.
  apply guard_Ok in Hb as [_ Hb]. apply guard_Ok in Hb as [Hlen%Z.ltb_ge Hb]. apply guard_Ok in Hb as [Hbr [= <-]].
  exists rep, (hr_Body rep). cbn [no_TokenID no_WorkerID no_Status no_Bytes no_SHA256 no_Base64 no_Text].
  split; [done|]. split; [done|]. split.
  { clear -Ef. revert Ef. generalize (j_Method (with_normal job headers policy)) (j_URL (with_normal job headers policy)) (@nil (gostring * gostring)).
    induction hops as [|[c text|m u|x] hops IH]; intros m0 u0 l; cbn [follow]; [done|destruct c; done| |by intros [= _ <-]; left].
    destruct (CheckRedirect _ _ _ _ _); [|done]. intros E. right. by eapply IH. }
  split; [done|]. split; [by rewrite Ht|]. split; [done|]. unfold response_of in Hr.
  change (j_Operation (with_normal job headers policy)) with (j_Operation job) in Hr.
  destruct (decide (j_Operation job = OperationWebFetch)) as [->|]; [|destruct (decide (j_Operation job = OperationDownload)) as [->|];
    [|destruct (decide (j_Operation job = OperationUpload)) as [->|]; [|done]]]; injection Hr as <-.
  - assert (Hd : std_decode [] = Some []) by done. split; [by repeat case_match|]. split; [by repeat case_match|]. split; [by repeat case_match|].
    split; [done|]. split; [|done]. intros _. destruct (isTextual _ && utf8_valid _) eqn:Et.
    + apply andb_true_iff in Et as [_ Et]. left. auto.
    + case_decide as Hne; cbn; [left; rewrite Hne; auto|]. right. by rewrite std_decode_encode.
  - cbn. rewrite std_decode_encode. by repeat split.
  - by repeat split.
Qed.
End service.

(** ** Between the client and its worker ([protocol.go], [client.go]) *)

Definition MaxJobBytes : Z := Z.shiftl 24 20.
Definition MaxWorkerResponseBytes : Z := Z.shiftl 24 20.

(** A line of the worker: a response with its identities, [wl_Untrusted], and its error. *)
Record worker_line := mkLine { wl_Response : NetworkResponse; wl_Untrusted : bool; wl_Error : gostring }.

(** [limitBuffer]. *)
Record limitBuffer := mkLimitBuffer { lb_buffer : gostring; lb_limit : Z; lb_exceeded : bool }.
Definition newLimitBuffer (limit : Z) : limitBuffer := mkLimitBuffer [] limit false.

(** [Write] accepts every byte, whatever it keeps. *)
Definition Write (b : limitBuffer) (value : gostring) : Z * limitBuffer :=
  let remaining := lb_limit b - len (lb_buffer b) in
  if remaining <=? 0 then (len value, mkLimitBuffer (lb_buffer b) (lb_limit b) true)
  else if remaining <? len value
  then (len value, mkLimitBuffer (lb_buffer b ++ take (Z.to_nat remaining) value) (lb_limit b) true)
  else (len value, mkLimitBuffer (lb_buffer b ++ value) (lb_limit b) (lb_exceeded b)).

Definition write_all (b : limitBuffer) (values : list gostring) : limitBuffer := fold_left (fun b v => (Write b v).2) values b.

(** How the process of a worker ended: what it wrote, in pieces, and whether [Run] failed, for
    a context that was cancelled, had expired, or another reason. *)
Inductive run_failure := RunCanceled | RunTimedOut | RunFailed (text : gostring).
Record process_end := mkEnd { pe_Stdout : list gostring; pe_Stderr : list gostring; pe_Failure : option run_failure }.

Inductive client_error :=
  | ContextDone (c : cause) | NotBuilt (e : job_error) | OutputExceeded | WorkerCanceled | WorkerTimedOut
  | WorkerFailed (text detail : gostring) | InvalidResponse | ResponseMismatch | WorkerReported (text : gostring).

(** [encodeResponse]: a response whose JSON is too long is replaced by an error with its identities. *)
Definition encodeResponse (marshal_line : worker_line -> option gostring) (line : worker_line) : option gostring :=
  encoded ← marshal_line line;
  encoded ← (if MaxWorkerResponseBytes <? len encoded then
               let r := wl_Response line in
               marshal_line (mkLine (mkNetworkResponse (no_TokenID r) (no_WorkerID r) 0 [] [] [] [] 0 []) true "network worker response exceeds limit")
             else Some encoded);
  Some (encoded ++ [LF]).

(** [Service.Serve], for a job of the given text; [None] when it could not be read. *)
Definition Serve (decode_job : gostring -> option Job) (execute : Job -> worker_line) (marshal_line : worker_line -> option gostring)
    (input : option gostring) : option gostring :=
  let failed text := mkLine (mkNetworkResponse [] [] 0 [] [] [] [] 0 []) true text in
  encodeResponse marshal_line
    match input with
    | None => failed "network worker could not read job"
    | Some data =>
        if MaxJobBytes <? len data then failed "network worker job exceeds limit"
        else match decode_job data with None => failed "network worker job is invalid" | Some job => execute job end
    end.

Section client.
Context `{TextTables} `{UnicodeTables} `{Crypto} `{Ed25519} `{Netip} `{NetURL} `{NetJson} `{Json Claims}.
Context (decode_line : gostring -> option worker_line) (run_worker : Job -> process_end).

Definition bare_network_response (tokenID : gostring) : NetworkResponse := mkNetworkResponse tokenID [] 0 [] [] [] [] 0 [].

(** The part of [ProcessExecutor.Execute] after the worker has run. *)
Definition worker_result (tokenID : gostring) (e : process_end) : NetworkResponse * option client_error :=
  let stdout := write_all (newLimitBuffer MaxWorkerResponseBytes) (pe_Stdout e) in
  let stderr := write_all (newLimitBuffer (Z.shiftl 16 10)) (pe_Stderr e) in
  let bare := bare_network_response tokenID in
  if lb_exceeded stdout || lb_exceeded stderr then (bare, Some OutputExceeded)
  else
    match pe_Failure e with
    | Some RunCanceled => (bare, Some WorkerCanceled)
    | Some RunTimedOut => (bare, Some WorkerTimedOut)
    | Some (RunFailed text) => (bare, Some (WorkerFailed text (take 512 (trim_space (lb_buffer stderr)))))
    | None =>
        match decode_line (lb_buffer stdout) with
        | None => (bare, Some InvalidResponse)
        | Some line =>
            let r := wl_Response line in
            if negb (bool_decide (no_TokenID r = tokenID)) || bool_decide (no_WorkerID r = []) || negb (wl_Untrusted line)
            then (bare, Some ResponseMismatch)
            else if bool_decide (wl_Error line = []) then (r, None) else (r, Some (WorkerReported (wl_Error line)))
        end
    end.

(** [ProcessExecutor.Execute]; [done] is the error of the context if it is over. *)
Definition client_Execute (privateKey randomID : gostring) (ctx_done : option cause) (r : NetworkRequest) (now : gotime)
  : NetworkResponse * option client_error :=
  match ctx_done with
  | Some c => (bare_network_response (nr_TokenID r), Some (ContextDone c))
  | None =>
      match BuildSignedJob privateKey randomID r (now + capabilityTTL) now with
      | Err e => (bare_network_response [], Some (NotBuilt e))
      | Ok job => worker_result (j_TokenID job) (run_worker job)
      end
  end.

(** A buffer keeps no more than its limit, and all of the output unless it says otherwise. *)
Lemma Write_spec b v :
  len (lb_buffer b) <= lb_limit b ->
  let b' := (Write b v).2 in
  lb_limit b' = lb_limit b /\ len (lb_buffer b') <= lb_limit b /\
  (lb_exceeded b' = false -> lb_exceeded b = false /\ lb_buffer b' = lb_buffer b ++ v).
Proof.
  intros Hb. unfold Write. destruct (Z.leb_spec (lb_limit b - len (lb_buffer b)) 0); cbn; [by repeat split|].
  destruct (Z.ltb_spec (lb_limit b - len (lb_buffer b)) (len v)); cbn; rewrite len_app.
  - split; [done|]. unfold len in *. rewrite length_take. split; [lia|done].
  - split; [done|]. split; [lia|done].
Qed.

Lemma write_all_spec values b :
  len (lb_buffer b) <= lb_limit b ->
  let b' := write_all b values in
  lb_limit b' = lb_limit b /\ len (lb_buffer b') <= lb_limit b /\
  (lb_exceeded b' = false -> lb_exceeded b = false /\ lb_buffer b' = lb_buffer b ++ concat values).
Proof.
  revert b. induction values as [|v values IH]; intros b Hb; cbn [write_all fold_left concat].
  { by rewrite app_nil_r. }
  destruct (Write_spec b v Hb) as (Hl & Hle & He). destruct (IH (Write b v).2) as (Hl' & Hle' & He'); [by rewrite Hl|].
  fold (write_all (Write b v).2 values). rewrite Hl in *. split; [done|]. split; [done|].
  intros Hx. destruct (He' Hx) as [Hx1 E]. destruct (He Hx1) as [Hx2 E']. rewrite E, E', <- app_assoc. done.
Qed.

(** The gateway takes for the result of a request only what a worker wrote, whole, as one
    response without an error that carries the identifier of the job it was given: one that
    was signed for this request. *)
Theorem client_result_bound privateKey randomID ctx_done r now response :
  client_Execute privateKey randomID ctx_done r now = (response, None) ->
  exists job output line, BuildSignedJob privateKey randomID r (now + capabilityTTL) now = Ok job /\
    output = concat (pe_Stdout (run_worker job)) /\ len output <= MaxWorkerResponseBytes /\
    pe_Failure (run_worker job) = None /\ decode_line output = Some line /\
    wl_Error line = [] /\ wl_Untrusted line = true /\ response = wl_Response line /\ no_TokenID response = j_TokenID job /\ no_WorkerID response <> [].
Proof.
  unfold client_Execute. destruct ctx_done; [done|]. destruct (BuildSignedJob _ _ _ _ _) as [job|]; [|done]. unfold worker_result.
  destruct (write_all_spec (pe_Stdout (run_worker job)) (newLimitBuffer MaxWorkerResponseBytes)) as (_ & Hle & He); [cbn; done|].
  destruct (lb_exceeded _ || _) eqn:Ee; [done|]. apply orb_false_iff in Ee as [Ee _]. apply He in Ee as [_ Hout]. cbn [newLimitBuffer lb_buffer app] in Hout.
  destruct (pe_Failure _) as [[]|] eqn:Ef; [done..|]. rewrite Hout in *. destruct (decode_line _) as [line|] eqn:Ed; [|done].
  destruct (negb _ || _ || _) eqn:Em; [done|]. rewrite !orb_false_iff, !negb_false_iff, bool_decide_eq_true, bool_decide_eq_false in Em.
  destruct Em as [[Hid Hw] Hu]. case_bool_decide as Herr; [|done]. intros [= <-]. exists job, (concat (pe_Stdout (run_worker job))), line. done.
Qed.
End client.

(** ** Witnesses *)

(** The upload of the witness of NetJob.v, and a server that answers it. *)
Definition no_sniffer : Sniffer := {| DetectContentType _ := [] |}.
Definition type_texts : HttpText := {|
  ParseMediaType s := Some (s, []); ParseFloat _ := None; Http.SplitHostPort s := Some s; ParseIP _ := false
|}.
Definition sample_reply : http_reply := mkReply 201 (fun _ => []) (-1) "ok" false.
Definition upload_resolver (_ : nat) : gostring -> option (list Addr) := sample_resolver.
Definition upload_verifier : Verifier := mkVerifier (@ed_public toy_ed (@ed_from_seed toy_ed net_seed)) ∅.
Definition upload_run :=
  @Execute pwd_tables ascii_tables toy_crypto toy_ed table_netip table_url flat_net_json upload_json type_texts no_sniffer upload_resolver
    "w" upload_verifier upload_job second [HopReply sample_reply].


Definition upload_response : NetworkResponse := match upload_run.1.2 with Ok r => r | Err _ => bare_network_response [] end.

Lemma network_response_exact_witness : no_Status upload_response = 201 /\ no_Text upload_response = [].
Proof.
  split; [vm_compute; reflexivity|].
  destruct (@network_response_exact pwd_tables ascii_tables toy_crypto toy_ed table_netip table_url flat_net_json upload_json type_texts no_sniffer
    upload_resolver "w" upload_verifier upload_job second [HopReply sample_reply] upload_run.1.1 upload_response upload_run.2)
    as (reply & body & _ & _ & _ & _ & _ & _ & _ & _ & _ & _ & _ & Hu).
  - vm_compute. reflexivity.
  - apply Hu. vm_compute. reflexivity.
Defined.

Definition upload_line : worker_line := mkLine upload_response true [].
Definition upload_worker (job : Job) : process_end := mkEnd ["a" : gostring; "b" : gostring] [] None.

Lemma client_result_bound_witness : no_WorkerID upload_response <> [].
Proof.
  destruct (@client_result_bound pwd_tables ascii_tables toy_crypto toy_ed table_netip table_url flat_net_json upload_json
    (fun s => if decide (s = "ab") then Some upload_line else None) upload_worker (@ed_from_seed toy_ed net_seed) [] None upload_request 0 upload_response)
    as (job & output & line & _ & _ & _ & _ & _ & _ & _ & _ & _ & Hw).
  - vm_compute. reflexivity.
  - exact Hw.
Defined.
