(* ===== verification/CredentialStore.v ===== *)
(** * SSH credentials ([internal/credentialstore])

    A configuration names profiles: a host, an identity, and what may be done there. The trusted
    parent loads the credential of one profile and hands it to a worker through a pipe, as an
    envelope; what the worker then has is bound by digests to the snapshot of the profile. *)
From S2P Require Import Prelude GoStrings Strconv Base64 Utf8 GoPath Token Replay NetPolicy StrictJson.
#[local] Open Scope Z_scope.

(** ** Data ([config.go], [credential.go], [envelope.go]) *)

Definition ConfigVersion : Z := 1.
Definition maxConfigBytes : Z := Z.shiftl 1 20.
Definition maxPrivateKeyBytes : Z := Z.shiftl 1 20.
Definition maxKnownHostsBytes : Z := Z.shiftl 8 20.
Definition maxProfileNameBytes : Z := 1024.
Definition maxEnvelopeHeaderBytes : Z := Z.shiftl 256 10.

(** A list that JSON may leave null is an option. A prefix of [AllowedCommands] that is null
    and an empty one are both the empty list: validation refuses both, copying makes both nil. *)
Record SFTPPolicy := mkSFTPPolicy { sp_Roots : option (list gostring); sp_Read : bool; sp_Write : bool }.
#[export] Instance SFTPPolicy_eq_dec : EqDecision SFTPPolicy.
Proof. solve_decision. Defined.

Record profile := mkProfile {
  p_Name : gostring; p_Host : gostring; p_Port : Z; p_User : gostring; p_PrivateKeyPath : gostring; p_UseSSHAgent : bool;
  p_KnownHostsPath : gostring; p_AllowedCommands : option (list (list gostring)); p_SFTP : SFTPPolicy; p_ExpiresAt : gotime
}.
Record config := mkConfig { cf_Version : Z; cf_Profiles : option (list profile) }.

Record Snapshot := mkSnapshot {
  sn_Name : gostring; sn_Host : gostring; sn_Port : Z; sn_User : gostring; sn_Authentication : gostring;
  sn_AuthenticationKeysSHA256 : gostring; sn_KnownHostsSHA256 : gostring; sn_AllowedCommands : option (list (list gostring));
  sn_SFTP : SFTPPolicy; sn_ExpiresAt : gotime
}.
#[export] Instance Snapshot_eq_dec : EqDecision Snapshot.
Proof. solve_decision. Defined.

Record RedactedProfile := mkRedacted {
  rp_Name : gostring; rp_Host : gostring; rp_Port : Z; rp_User : gostring; rp_Authentication : gostring; rp_AllowedCommands : Z;
  rp_SFTP : SFTPPolicy; rp_ExpiresAt : gotime
}.

Record envelopeHeader := mkHeader { eh_Version : Z; eh_Snapshot : Snapshot; eh_AuthKind : gostring }.
#[export] Instance envelopeHeader_eq_dec : EqDecision envelopeHeader.
Proof. solve_decision. Defined.

(** ** SSH and the host *)

(** What a host-key callback says of a key: trusted, a [KeyError] with the number of keys that
    were wanted, or another error. *)
Inductive host_check := HostKeyTrusted | HostKeyError (want : Z) | HostCheckFailed.
Abbreviation HostKeyCallback := (gostring -> gostring -> host_check).

(** [golang.org/x/crypto/ssh]: the public key of a private one, the callback of a known_hosts
    file, and the wire form of an Ed25519 public key. *)
Class Ssh := {
  ParsePrivateKey : gostring -> option gostring;
  knownhosts_New : gostring -> option HostKeyCallback;
  NewPublicKey : gostring -> option gostring
}.

(** No key is found in an empty text. *)
Class SshLaws `{Ssh} := { ParsePrivateKey_nil : ParsePrivateKey [] = None }.

(** A connection to an agent: whether it can be inherited, and the identities it lists. *)
Record agent_conn := mkAgent { ag_File : bool; ag_Signers : option (list gostring) }.

(** An open file: whether it is regular, its owner and mode, if they can be read, its bytes, and
    whether reading breaks off after them. *)
Record opened := mkOpened { op_Stat : option (bool * Z * Z); op_Content : gostring; op_Broken : bool }.

(** The host: [open] without following a link at the end, [Geteuid], whether temporary files can
    be written, [SSH_AUTH_SOCK], and a dial of the socket. *)
Record host := mkHost {
  h_open : gostring -> option opened; h_euid : Z; h_temp : bool; h_SSH_AUTH_SOCK : gostring; h_dial : gostring -> option agent_conn
}.

Inductive cred_error :=
  | Unavailable | NotSecure | ReadFailed | TooLarge | ConfigInvalid (e : strict_error) | VersionUnsupported | ProfilesNotArray
  | DuplicateName | InvalidProfile (index : nat) (e : cred_error) | NameInvalid | HostInvalid | PortInvalid | UserInvalid | OneIdentity
  | KeyPathRelative | KnownHostsPathRelative | ProfileExpired | CommandsNotArray | EmptyPrefix | BadPrefixArgument | RootsNotArray
  | BadRoot | DuplicateRoot | NoRoot | UnknownProfile | KnownHostsEmpty | KnownHostsInvalid | NoHostEntry | HostValidation | KeyTooBroad
  | KeyInvalid | AgentSocket | AgentDial | AgentEmpty | CredentialClosed | AgentNotInheritable | KeyUnavailable | AgentUnavailable
  | AuthenticationInvalid | NoHostVerifier | NotEncoded | HeaderTooLarge | NotDelivered | EnvelopeInvalid | LengthsInvalid | EnvelopeIncomplete
  | HeaderInvalid | KnownHostsMismatch | KeyEnvelope | AgentEnvelope | KeysMismatch | AuthenticationMismatch | SnapshotIncomplete
  | DigestsInvalid.

(** ** Copies *)

(** [append([]string(nil), l...)]: an empty list becomes nil. *)
Definition clone_list {A} (l : option (list A)) : option (list A) := match l with Some [] => None | _ => l end.
Definition cloneSFTPPolicy (p : SFTPPolicy) : SFTPPolicy := mkSFTPPolicy (clone_list (sp_Roots p)) (sp_Read p) (sp_Write p).
Definition cloneSnapshot (s : Snapshot) : Snapshot :=
  mkSnapshot (sn_Name s) (sn_Host s) (sn_Port s) (sn_User s) (sn_Authentication s) (sn_AuthenticationKeysSHA256 s) (sn_KnownHostsSHA256 s)
    (Some (default [] (sn_AllowedCommands s))) (cloneSFTPPolicy (sn_SFTP s)) (sn_ExpiresAt s).

Section store.
Context `{Crypto} `{Ed25519} `{Ssh} `{Json Snapshot} `{Json envelopeHeader}.
#[local] Set Default Proof Using "Type".

Definition digest (s : gostring) : gostring := hex_encode (sha256 s).

(** ** Validation *)

Definition validateRemoteRoot (root : gostring) : result cred_error unit :=
  reject bool_decide (root = []) || negb (is_rooted root) || contains_byte root NUL || negb (bool_decide (clean root = root)) with BadRoot; Ok tt.

(** The characters that the loop over the host refuses. *)
Definition host_byte_refused (c : ascii) : bool := bool_decide (c ∈ [NUL; SLASH; BSL; "["%char; "]"%char]).

Fixpoint validate_prefixes (l : list (list gostring)) : result cred_error unit :=
  match l with
  | [] => Ok tt
  | prefix :: l =>
      reject bool_decide (prefix = []) with EmptyPrefix;
      reject existsb (fun a => bool_decide (a = []) || contains_byte a NUL) prefix with BadPrefixArgument;
      validate_prefixes l
  end.

Fixpoint validate_roots (l : list gostring) (seen : gset gostring) : result cred_error unit :=
  match l with
  | [] => Ok tt
  | root :: l =>
      _ ← validateRemoteRoot root;
      reject bool_decide (root ∈ seen) with DuplicateRoot;
      validate_roots l ({[root]} ∪ seen)
  end.

Definition validateProfile (p : profile) (now : gotime) : result cred_error unit :=
  reject bool_decide (p_Name p = []) || (maxProfileNameBytes <? len (p_Name p)) with NameInvalid;
  reject bool_decide (p_Host p = []) || existsb host_byte_refused (p_Host p) with HostInvalid;
  reject existsb (fun r => is_space r || is_control r) (runes (p_Host p)) with HostInvalid;
  reject (p_Port p <? 1) || (65535 <? p_Port p) with PortInvalid;
  reject bool_decide (p_User p = []) || contains_byte (p_User p) NUL with UserInvalid;
  reject Bool.eqb (negb (bool_decide (p_PrivateKeyPath p = []))) (p_UseSSHAgent p) with OneIdentity;
  reject negb (bool_decide (p_PrivateKeyPath p = [])) && negb (is_rooted (p_PrivateKeyPath p)) with KeyPathRelative;
  reject bool_decide (p_KnownHostsPath p = []) || negb (is_rooted (p_KnownHostsPath p)) with KnownHostsPathRelative;
  reject (p_ExpiresAt p =? zero_time) || negb (before now (p_ExpiresAt p)) with ProfileExpired;
  match p_AllowedCommands p with
  | None => Err CommandsNotArray
  | Some commands =>
      _ ← validate_prefixes commands;
      match sp_Roots (p_SFTP p) with
      | None => Err RootsNotArray
      | Some roots =>
          _ ← validate_roots roots ∅;
          reject (sp_Read (p_SFTP p) || sp_Write (p_SFTP p)) && bool_decide (roots = []) with NoRoot;
          Ok tt
      end
  end.

Fixpoint validate_profiles (i : nat) (l : list profile) (seen : gset gostring) (now : gotime) : result cred_error unit :=
  match l with
  | [] => Ok tt
  | p :: l =>
      reject bool_decide (p_Name p ∈ seen) with DuplicateName;
      match validateProfile p now with
      | Err e => Err (InvalidProfile i e)
      | Ok _ => validate_profiles (S i) l ({[p_Name p]} ∪ seen) now
      end
  end.

Definition validateConfig (c : config) (now : gotime) : result cred_error unit :=
  reject negb (cf_Version c =? ConfigVersion) with VersionUnsupported;
  match cf_Profiles c with None => Err ProfilesNotArray | Some l => validate_profiles 0 l ∅ now end.

(** ** Files ([secure_open_linux.go]) *)

Definition openSecureRegular (h : host) (path : gostring) : result cred_error opened :=
  match h_open h path with
  | None => Err Unavailable
  | Some f =>
      match op_Stat f with
      | Some (regular, uid, mode) =>
          reject negb regular || negb (uid =? h_euid h) || negb (Z.land mode 18 =? 0) with NotSecure; Ok f
      | None => Err NotSecure
      end
  end.

(** [io.ReadAll] of a [LimitReader]: an error counts only when it comes before the limit. *)
Definition read_limited (content : gostring) (broken : bool) (limit : Z) : result cred_error gostring :=
  reject broken && (len content <? limit) with ReadFailed; Ok (take (Z.to_nat limit) content).

Definition readAllBounded (f : opened) (max : Z) : result cred_error gostring :=
  raw ← read_limited (op_Content f) (op_Broken f) (max + 1);
  reject max <? len raw with TooLarge;
  Ok raw.

Definition readBoundedFile (h : host) (path : gostring) (max : Z) : result cred_error gostring :=
  f ← openSecureRegular h path; readAllBounded f max.

(** The second [Stat] is of the same descriptor, and is the first. *)
Definition readPrivateKey (h : host) (path : gostring) : result cred_error gostring :=
  f ← openSecureRegular h path;
  match op_Stat f with
  | Some (_, _, mode) => reject negb (Z.land mode 63 =? 0) with KeyTooBroad; readAllBounded f maxPrivateKeyBytes
  | None => Err NotSecure
  end.

Definition loadConfig `{Tokenizer} `{TypedDecoder config} (h : host) (path : gostring) (now : gotime) : result cred_error config :=
  raw ← readBoundedFile h path maxConfigBytes;
  match DecodeStrict raw with
  | Err e => Err (ConfigInvalid e)
  | Ok c => _ ← validateConfig c now; Ok c
  end.

(** ** Credentials ([credential.go]) *)

(** [cr_privateKey] and [cr_knownHosts] are empty once they are cleared. *)
Record Credential := mkCredential {
  cr_snapshot : Snapshot; cr_privateKey : gostring; cr_signers : list gostring; cr_hostKeyCallback : option HostKeyCallback;
  cr_knownHosts : gostring; cr_agentConn : option agent_conn; cr_closed : bool
}.

Definition QUOTE : gostring := [byte_of 34].
(** [json.Marshal] of a list of hexadecimal texts, in which nothing is escaped. *)
Definition marshal_hex (l : list gostring) : gostring := "[" ++ join "," ((fun s => QUOTE ++ s ++ QUOTE) <$> l) ++ "]".
Definition digestPublicKeys (keys : list gostring) : gostring := digest (marshal_hex (sort_strings (digest <$> keys))).

Definition snapshotFor (p : profile) (authentication authenticationDigest knownHostsDigest : gostring) : Snapshot :=
  mkSnapshot (p_Name p) (p_Host p) (p_Port p) (p_User p) authentication authenticationDigest knownHostsDigest
    (Some (default [] (p_AllowedCommands p))) (cloneSFTPPolicy (p_SFTP p)) (p_ExpiresAt p).

Definition callbackFromKnownHosts (temp : bool) (raw : gostring) : result cred_error HostKeyCallback :=
  if negb temp then Err HostValidation
  else match knownhosts_New raw with None => Err KnownHostsInvalid | Some callback => Ok callback end.

(** A key that no one has is looked up, to see whether the host has an entry at all. *)
Definition validateKnownHosts (h : host) (p : profile) (raw : gostring) : result cred_error HostKeyCallback :=
  reject bool_decide (raw = []) with KnownHostsEmpty;
  match callbackFromKnownHosts (h_temp h) raw with
  | Err _ => Err KnownHostsInvalid
  | Ok callback =>
      match NewPublicKey (ed_public (ed_from_seed (replicate 32 NUL))) with
      | None => Err HostValidation
      | Some dummy =>
          match callback (JoinHostPort (p_Host p) (itoa (p_Port p))) dummy with
          | HostKeyTrusted => Ok callback
          | HostKeyError want => reject want =? 0 with NoHostEntry; Ok callback
          | HostCheckFailed => Err NoHostEntry
          end
      end
  end.

Definition loadCredential (h : host) (p : profile) : result cred_error Credential :=
  knownHosts ← readBoundedFile h (p_KnownHostsPath p) maxKnownHostsBytes;
  callback ← validateKnownHosts h p knownHosts;
  if negb (bool_decide (p_PrivateKeyPath p = [])) then
    privateKey ← readPrivateKey h (p_PrivateKeyPath p);
    match ParsePrivateKey privateKey with
    | None => Err KeyInvalid
    | Some public =>
        Ok (mkCredential (snapshotFor p "private_key" (digestPublicKeys [public]) (digest knownHosts)) privateKey [public] (Some callback)
              knownHosts None false)
    end
  else
    reject bool_decide (h_SSH_AUTH_SOCK h = []) || negb (is_rooted (h_SSH_AUTH_SOCK h)) with AgentSocket;
    match h_dial h (h_SSH_AUTH_SOCK h) with
    | None => Err AgentDial
    | Some conn =>
        match ag_Signers conn with
        | None | Some [] => Err AgentEmpty
        | Some keys =>
            Ok (mkCredential (snapshotFor p "ssh_agent" (digestPublicKeys keys) (digest knownHosts)) [] keys (Some callback) knownHosts
                  (Some conn) false)
        end
    end.

Definition find_profile (l : list profile) (name : gostring) : option profile :=
  head (filter (fun p => p_Name p = name) l).

Definition Load `{Tokenizer} `{TypedDecoder config} (h : host) (path name : gostring) (now : gotime) : result cred_error Credential :=
  c ← loadConfig h path now;
  match find_profile (default [] (cf_Profiles c)) name with None => Err UnknownProfile | Some p => loadCredential h p end.

Definition Redacted `{Tokenizer} `{TypedDecoder config} (h : host) (path name : gostring) (now : gotime) : result cred_error RedactedProfile :=
  c ← loadConfig h path now;
  match find_profile (default [] (cf_Profiles c)) name with
  | None => Err UnknownProfile
  | Some p =>
      Ok (mkRedacted (p_Name p) (p_Host p) (p_Port p) (p_User p) (if p_UseSSHAgent p then "ssh_agent" else "private_key")
            (len (default [] (p_AllowedCommands p))) (cloneSFTPPolicy (p_SFTP p)) (p_ExpiresAt p))
  end.

(** [Credential.Snapshot] and [SnapshotDigest]. *)
Definition snapshot_of (c : Credential) : Snapshot := cloneSnapshot (cr_snapshot c).
Definition Digest (s : Snapshot) : option gostring := digest <$> marshal s.
Definition SnapshotDigest (c : Credential) : option gostring := Digest (snapshot_of c).

Definition DuplicateAgentFile (c : Credential) : result cred_error (option agent_conn) :=
  reject cr_closed c with CredentialClosed;
  if negb (bool_decide (sn_Authentication (cr_snapshot c) = "ssh_agent")) then Ok None
  else match cr_agentConn c with
       | None => Ok None
       | Some conn => reject negb (ag_File conn) with AgentNotInheritable; Ok (Some conn)
       end.

(** A configuration of an SSH client: the user, the identities it offers, and the callback. *)
Definition SSHClientConfig (c : Credential) (now : gotime) : result cred_error (gostring * list gostring * HostKeyCallback) :=
  reject cr_closed c with CredentialClosed;
  reject negb (before now (sn_ExpiresAt (cr_snapshot c))) with ProfileExpired;
  _ ← (if decide (sn_Authentication (cr_snapshot c) = "private_key") then
         reject negb (len (cr_signers c) =? 1) with KeyUnavailable; Ok tt
       else if decide (sn_Authentication (cr_snapshot c) = "ssh_agent") then
         reject negb (bool_decide (is_Some (cr_agentConn c))) || bool_decide (cr_signers c = []) with AgentUnavailable; Ok tt
       else Err AuthenticationInvalid);
  match cr_hostKeyCallback c with
  | None => Err NoHostVerifier
  | Some callback => Ok (sn_User (cr_snapshot c), cr_signers c, callback)
  end.

Definition Close (c : Credential) : Credential :=
  if cr_closed c then c else mkCredential (cr_snapshot c) [] [] None [] (cr_agentConn c) true.

(** ** Envelopes ([envelope.go]) *)

Definition envelopeMagic : gostring := "RASSHC1" ++ [NUL].

(** What is written to the pipe; [accepts] is the number of bytes that the pipe takes. *)
Definition envelope_text (c : Credential) : result cred_error gostring :=
  reject cr_closed c with CredentialClosed;
  match marshal (mkHeader 1 (cr_snapshot c) (sn_Authentication (cr_snapshot c))) with
  | None => Err NotEncoded
  | Some header =>
      reject maxEnvelopeHeaderBytes <? len header with HeaderTooLarge;
      let secret := if decide (sn_Authentication (cr_snapshot c) = "ssh_agent") then [] else cr_privateKey c in
      let uint32 (s : gostring) := be_bytes 4 (len s) in
      Ok (envelopeMagic ++ uint32 header ++ uint32 secret ++ uint32 (cr_knownHosts c) ++ header ++ secret ++ cr_knownHosts c)
  end.
Definition WriteWorkerEnvelope (accepts : Z) (c : Credential) : gostring * option cred_error :=
  match envelope_text c with
  | Err e => ([], Some e)
  | Ok text => (take (Z.to_nat accepts) text, if accepts <? len text then Some NotDelivered else None)
  end.

(** [io.ReadFull]: the first [n] bytes, and the rest. *)
Definition read_full (n : Z) (s : gostring) : option (gostring * gostring) :=
  if len s <? n then None else Some (take (Z.to_nat n) s, drop (Z.to_nat n) s).

Definition validateSnapshot (s : Snapshot) : result cred_error unit :=
  reject bool_decide (sn_Name s = []) || bool_decide (sn_Host s = []) || (sn_Port s <? 1) || (65535 <? sn_Port s) ||
         bool_decide (sn_User s = []) || (sn_ExpiresAt s =? zero_time) with SnapshotIncomplete;
  reject negb (bool_decide (sn_Authentication s = "private_key")) && negb (bool_decide (sn_Authentication s = "ssh_agent"))
    with AuthenticationInvalid;
  reject negb (len (sn_AuthenticationKeysSHA256 s) =? 64) || negb (len (sn_KnownHostsSHA256 s) =? 64) with DigestsInvalid;
  reject bool_decide (sn_AllowedCommands s = None) || bool_decide (sp_Roots (sn_SFTP s) = None) with SnapshotIncomplete;
  Ok tt.

(** The identities of an envelope, by its kind, and the connection to the agent. *)
Definition envelope_identity (header : envelopeHeader) (secret : gostring) (agentFile : option (option agent_conn))
  : result cred_error (list gostring * option agent_conn) :=
  let wanted := sn_AuthenticationKeysSHA256 (eh_Snapshot header) in
  if decide (eh_AuthKind header = "private_key") then
    reject bool_decide (secret = []) || bool_decide (is_Some agentFile) with KeyEnvelope;
    match ParsePrivateKey secret with
    | None => Err KeyInvalid
    | Some public => reject negb (bool_decide (digestPublicKeys [public] = wanted)) with KeysMismatch; Ok ([public], None)
    end
  else if decide (eh_AuthKind header = "ssh_agent") then
    reject negb (bool_decide (secret = [])) with AgentEnvelope;
    match agentFile with
    | None => Err AgentEnvelope
    | Some None => Err AgentDial
    | Some (Some conn) =>
        match ag_Signers conn with
        | None | Some [] => Err AgentEmpty
        | Some keys => reject negb (bool_decide (digestPublicKeys keys = wanted)) with KeysMismatch; Ok (keys, Some conn)
        end
    end
  else Err AuthenticationInvalid.

(** [agentFile] is the inherited descriptor, and the connection that [net.FileConn] makes of it. *)
Definition ReadWorkerEnvelope (temp : bool) (input : gostring) (agentFile : option (option agent_conn)) : result cred_error Credential :=
  match read_full 8 input with
  | None => Err EnvelopeInvalid
  | Some (magic, input) =>
      reject negb (bool_decide (magic = envelopeMagic)) with EnvelopeInvalid;
      match read_full 12 input with
      | None => Err EnvelopeInvalid
      | Some (lengths, input) =>
          let headerLength := be_value (take 4 lengths) in
          let secretLength := be_value (take 4 (drop 4 lengths)) in
          let knownHostsLength := be_value (take 4 (drop 8 lengths)) in
          reject (headerLength <=? 0) || (maxEnvelopeHeaderBytes <? headerLength) || (maxPrivateKeyBytes <? secretLength) ||
                 (knownHostsLength <=? 0) || (maxKnownHostsBytes <? knownHostsLength) with LengthsInvalid;
          match read_full headerLength input with
          | None => Err EnvelopeIncomplete
          | Some (headerRaw, input) =>
              match decode_strict headerRaw with
              | None => Err HeaderInvalid
              | Some header =>
                  reject negb (eh_Version header =? 1) with HeaderInvalid;
                  match read_full secretLength input with
                  | None => Err EnvelopeIncomplete
                  | Some (secret, input) =>
                      match read_full knownHostsLength input with
                      | None => Err EnvelopeIncomplete
                      | Some (knownHosts, _) =>
                          reject negb (bool_decide (digest knownHosts = sn_KnownHostsSHA256 (eh_Snapshot header))) with KnownHostsMismatch;
                          callback ← callbackFromKnownHosts temp knownHosts;
                          '(signers, conn) ← envelope_identity header secret agentFile;
                          reject negb (bool_decide (sn_Authentication (eh_Snapshot header) = eh_AuthKind header)) with AuthenticationMismatch;
                          _ ← validateSnapshot (eh_Snapshot header);
                          Ok (mkCredential (cloneSnapshot (eh_Snapshot header)) [] signers (Some callback) [] conn false)
                      end
                  end
              end
          end
      end
  end.

(** ** The configurations that are accepted *)

Definition remote_root (root : gostring) : Prop := is_rooted root = true /\ NUL ∉ root /\ clean root = root.
Definition command_prefix (prefix : list gostring) : Prop := prefix <> [] /\ Forall (fun a => a <> [] /\ NUL ∉ a) prefix.

Record valid_profile (now : gotime) (p : profile) : Prop := {
  vp_name : p_Name p <> [] /\ len (p_Name p) <= maxProfileNameBytes;
  vp_host : p_Host p <> [] /\ Forall (fun c => c ∉ [NUL; SLASH; BSL; "["%char; "]"%char]) (p_Host p) /\
    Forall (fun r => is_space r = false /\ is_control r = false) (runes (p_Host p));
  vp_port : 1 <= p_Port p <= 65535;
  vp_user : p_User p <> [] /\ NUL ∉ p_User p;
  vp_identity : if p_UseSSHAgent p then p_PrivateKeyPath p = [] else is_rooted (p_PrivateKeyPath p) = true;
  vp_known_hosts : is_rooted (p_KnownHostsPath p) = true;
  vp_expiry : p_ExpiresAt p <> zero_time /\ now < p_ExpiresAt p;
  vp_commands : exists commands, p_AllowedCommands p = Some commands /\ Forall command_prefix commands;
  vp_roots : exists roots, sp_Roots (p_SFTP p) = Some roots /\ Forall remote_root roots /\ NoDup roots /\
    (sp_Read (p_SFTP p) || sp_Write (p_SFTP p) = true -> roots <> [])
}.

Lemma contains_byte_false s c : contains_byte s c = false <-> c ∉ s.
Proof. apply bool_decide_eq_false. Qed.

Lemma host_byte_refused_false c : host_byte_refused c = false <-> c ∉ [NUL; SLASH; BSL; "["%char; "]"%char].
Proof. apply bool_decide_eq_false. Qed.

Lemma is_rooted_not_nil s : is_rooted s = true -> s <> [].
Proof. by intros ? ->. Qed.

Lemma validateRemoteRoot_Ok root : validateRemoteRoot root = Ok tt <-> remote_root root.
Proof.
  unfold validateRemoteRoot, remote_root. rewrite guard_Ok, !orb_false_iff, !negb_false_iff, contains_byte_false, bool_decide_eq_true, bool_decide_eq_false.
  pose proof (is_rooted_not_nil root). tauto.
Qed.

Lemma validate_prefixes_Ok l : validate_prefixes l = Ok tt <-> Forall command_prefix l.
Proof.
  induction l as [|x l IH]; cbn [validate_prefixes]; [split; [constructor|done]|].
  rewrite !guard_Ok, IH, Forall_cons, bool_decide_eq_false, existsb_false_Forall. unfold command_prefix.
  assert (Ha : forall a, bool_decide (a = []) || contains_byte a NUL = false <-> a <> [] /\ NUL ∉ a)
    by (intros a; by rewrite orb_false_iff, bool_decide_eq_false, contains_byte_false).
  setoid_rewrite Ha. tauto.
Qed.

Lemma fresh_cons {A} (f : A -> gostring) (x : A) (l : list A) (seen : gset gostring) :
  Forall (fun a => f a ∉ {[f x]} ∪ seen) l <-> f x ∉ f <$> l /\ Forall (fun a => f a ∉ seen) l.
Proof.
  induction l as [|y l IH]; cbn [fmap list_fmap]; [split; [split; [apply not_elem_of_nil|constructor]|constructor]|].
  rewrite !Forall_cons, IH, not_elem_of_cons, not_elem_of_union, not_elem_of_singleton. naive_solver.
Qed.

Lemma validate_roots_Ok l seen :
  validate_roots l seen = Ok tt <-> Forall remote_root l /\ NoDup l /\ Forall (fun r => r ∉ seen) l.
Proof.
  revert seen. induction l as [|x l IH]; intros seen; cbn [validate_roots]; [split; [repeat constructor|done]|].
  rewrite !Forall_cons, NoDup_cons, <- validateRemoteRoot_Ok. destruct (validateRemoteRoot x) as [[]|]; cbn [mbind result_bind]; [|naive_solver].
  rewrite guard_Ok, bool_decide_eq_false, IH.
  pose proof (fresh_cons id x l seen) as Hf. rewrite list_fmap_id in Hf. unfold id in Hf. rewrite Hf. tauto.
Qed.

Lemma validateProfile_Ok p now : validateProfile p now = Ok tt <-> valid_profile now p.
Proof.
  unfold validateProfile. rewrite !guard_Ok, !orb_false_iff, !andb_false_iff, !negb_false_iff, !bool_decide_eq_false, !existsb_false_Forall, !Z.ltb_ge, !Z.eqb_neq, contains_byte_false.
  setoid_rewrite orb_false_iff. setoid_rewrite host_byte_refused_false. unfold before. rewrite Z.ltb_lt, !bool_decide_eq_true.
  assert (Hid : Bool.eqb (negb (bool_decide (p_PrivateKeyPath p = []))) (p_UseSSHAgent p) = false /\
    (p_PrivateKeyPath p = [] \/ is_rooted (p_PrivateKeyPath p) = true) <->
    if p_UseSSHAgent p then p_PrivateKeyPath p = [] else is_rooted (p_PrivateKeyPath p) = true).
  { pose proof (is_rooted_not_nil (p_PrivateKeyPath p)). destruct (p_UseSSHAgent p); case_bool_decide; cbn; naive_solver. }
  pose proof (is_rooted_not_nil (p_KnownHostsPath p)) as Hk. split.
  - intros (Hn & Hh & Hr & Hp & Hu & Hi1 & Hi2 & Hkh & He & Hc).
    destruct (p_AllowedCommands p) as [commands|] eqn:Ec; [|done]. apply bind_Ok in Hc as ([] & Hc%validate_prefixes_Ok & Hro).
    destruct (sp_Roots (p_SFTP p)) as [roots|] eqn:Er; [|done]. apply bind_Ok in Hro as ([] & Hv%validate_roots_Ok & [Hx _]%guard_Ok).
    split; try tauto; try lia; [by eauto|]. exists roots. split; [done|]. split; [tauto|]. split; [tauto|]. intros E. rewrite E in Hx. by apply bool_decide_eq_false in Hx.
  - intros [Hn Hh Hp Hu Hid' Hkh He (commands & -> & Hc) (roots & -> & Hr & Hnd & Hne)]. apply Hid in Hid'.
    repeat (split; [tauto || lia|]). rewrite bind_Ok. exists tt. split; [by apply validate_prefixes_Ok|]. rewrite bind_Ok. exists tt. split.
    + apply validate_roots_Ok. split; [done|]. split; [done|]. apply Forall_true. set_solver.
    + rewrite guard_Ok. split; [|done]. destruct (sp_Read _ || _); [|done]. cbn. apply bool_decide_eq_false. auto.
Qed.

Lemma validate_profiles_Ok i l seen now :
  validate_profiles i l seen now = Ok tt <-> NoDup (p_Name <$> l) /\ Forall (fun p => p_Name p ∉ seen) l /\ Forall (valid_profile now) l.
Proof.
  revert i seen. induction l as [|x l IH]; intros i seen; cbn [validate_profiles fmap list_fmap]; [split; [repeat constructor|done]|].
  rewrite guard_Ok, bool_decide_eq_false, !Forall_cons, NoDup_cons, <- validateProfile_Ok.
  destruct (validateProfile x now) as [[]|e]; [|split; [by intros [_ ?]|naive_solver]]. rewrite IH.
  rewrite (fresh_cons p_Name). tauto.
Qed.

(** The configurations that are accepted are those of the current version whose profiles have
    distinct names and are well formed and in force: a reachable host, one identity, absolute
    paths, commands that are not empty, and for file access clean absolute roots. *)
Theorem config_accepted c now :
  validateConfig c now = Ok tt <->
  cf_Version c = ConfigVersion /\
  exists l, cf_Profiles c = Some l /\ NoDup (p_Name <$> l) /\ Forall (valid_profile now) l.
Proof.
  unfold validateConfig. rewrite guard_Ok, negb_false_iff, Z.eqb_eq. apply and_iff_compat_l. destruct (cf_Profiles c) as [l|]; [|naive_solver].
  rewrite validate_profiles_Ok. assert (Forall (fun p => p_Name p ∉ (∅ : gset gostring)) l) by (apply Forall_true; set_solver). naive_solver.
Qed.

(** ** What an envelope holds *)

Lemma be_bytes_value n s : length s = n -> be_bytes n (be_value s) = s.
Proof.
  revert n. induction s as [|c s IH] using rev_ind; intros n; rewrite ?length_app; cbn [length]; [by intros <-|].
  intros Hn. destruct n as [|n]; [lia|]. cbn [be_bytes]. rewrite be_value_app. pose proof (code_range c).
  rewrite Z.div_add_l, Z.div_small, Z.add_0_r, IH by lia. f_equal. f_equal.
  rewrite Z.add_comm, Z_mod_plus_full, Z.mod_small by lia. unfold byte_of, code. by rewrite N2Z.id, ascii_N_embedding.
Qed.

Definition u32 (s : gostring) : gostring := be_bytes 4 (len s).
Definition layout (raw secret known : gostring) : gostring :=
  envelopeMagic ++ (u32 raw ++ u32 secret ++ u32 known) ++ raw ++ secret ++ known.

Lemma u32_value s : len s < 4294967296 -> be_value (u32 s) = len s.
Proof. intros ?. apply be_value_bytes. pose proof (len_nonneg s). change (256 ^ Z.of_nat 4) with 4294967296. lia. Qed.

Lemma read_full_Some n s a b : 0 <= n -> read_full n s = Some (a, b) <-> s = a ++ b /\ len a = n.
Proof.
  intros Hn. unfold read_full, len. split.
  - destruct (Z.ltb_spec (Z.of_nat (length s)) n); [done|]. intros [= <- <-]. rewrite take_drop, length_take. split; [done|]. lia.
  - intros [-> <-]. rewrite length_app, (proj2 (Z.ltb_ge _ _)) by lia. rewrite Nat2Z.id, take_app_length, drop_app_length. done.
Qed.

Lemma read_full_app s r : read_full (len s) (s ++ r) = Some (s, r).
Proof. apply read_full_Some; [apply len_nonneg|done]. Qed.

(** The three lengths, of four bytes each. *)
Lemma split_lengths (ls : gostring) :
  len ls = 12 -> ls = take 4 ls ++ take 4 (drop 4 ls) ++ take 4 (drop 8 ls) /\
    length (take 4 ls) = 4%nat /\ length (take 4 (drop 4 ls)) = 4%nat /\ length (take 4 (drop 8 ls)) = 4%nat.
Proof.
  unfold len. intros Hl. do 12 (destruct ls as [|? ls]; [cbn in Hl; lia|]). destruct ls; [done|cbn in Hl; lia].
Qed.

Lemma read_lengths (a b c : gostring) :
  length a = 4%nat -> length b = 4%nat -> length c = 4%nat ->
  take 4 (a ++ b ++ c) = a /\ take 4 (drop 4 (a ++ b ++ c)) = b /\ take 4 (drop 8 (a ++ b ++ c)) = c /\ len (a ++ b ++ c) = 12.
Proof.
  intros. do 5 (destruct a as [|? a]; cbn in *; try lia). do 5 (destruct b as [|? b]; cbn in *; try lia).
  do 5 (destruct c as [|? c]; cbn in *; try lia). done.
Qed.

Record envelope_of (temp : bool) (input : gostring) (agentFile : option (option agent_conn)) (c : Credential)
  (raw secret known : gostring) (header : envelopeHeader) (callback : HostKeyCallback) (keys : list gostring) (conn : option agent_conn) : Prop := {
  eo_layout : exists rest, input = layout raw secret known ++ rest;
  eo_lengths : 0 < len raw <= maxEnvelopeHeaderBytes /\ len secret <= maxPrivateKeyBytes /\ 0 < len known <= maxKnownHostsBytes;
  eo_header : decode_strict raw = Some header /\ eh_Version header = 1;
  eo_known : digest known = sn_KnownHostsSHA256 (eh_Snapshot header);
  eo_callback : callbackFromKnownHosts temp known = Ok callback;
  eo_identity : envelope_identity header secret agentFile = Ok (keys, conn);
  eo_kind : sn_Authentication (eh_Snapshot header) = eh_AuthKind header;
  eo_snapshot : validateSnapshot (eh_Snapshot header) = Ok tt;
  eo_result : c = mkCredential (cloneSnapshot (eh_Snapshot header)) [] keys (Some callback) [] conn false
}.

Lemma be_value_u32 s : length s = 4%nat -> 0 <= be_value s < 4294967296.
Proof.
  intros Hl. do 4 (destruct s as [|? s]; [done|]). destruct s; [|done]. unfold be_value. cbn [foldl].
  pose proof (code_range a). pose proof (code_range a0). pose proof (code_range a1). pose proof (code_range a2). lia.
Qed.

Lemma ReadWorkerEnvelope_Ok temp input agentFile c :
  ReadWorkerEnvelope temp input agentFile = Ok c <->
  exists raw secret known header callback keys conn, envelope_of temp input agentFile c raw secret known header callback keys conn.
Proof.
  split.
  - unfold ReadWorkerEnvelope. intros He.
    destruct (read_full 8 input) as [[magic input1]|] eqn:E1; [|done]. apply read_full_Some in E1 as [-> _]; [|lia].
    apply guard_Ok in He as [->%negb_false_iff%bool_decide_eq_true He].
    destruct (read_full 12 input1) as [[ls input2]|] eqn:E2; [|done]. apply read_full_Some in E2 as [-> (Els & La & Lb & Lc)%split_lengths]; [|lia].
    revert Els He. generalize dependent (take 4 ls). intros a La. generalize dependent (take 4 (drop 4 ls)). intros b Lb.
    generalize dependent (take 4 (drop 8 ls)). intros d Lc -> He. pose proof (be_value_u32 _ Lb).
    apply guard_Ok in He as [Hl He]. rewrite !orb_false_iff, !Z.leb_gt, !Z.ltb_ge in Hl.
    destruct (read_full (be_value a) _) as [[raw input3]|] eqn:E3; [|done]. apply read_full_Some in E3 as [-> Hraw]; [|lia].
    destruct (decode_strict raw) as [header|] eqn:Ed; [|done]. apply guard_Ok in He as [Hv%negb_false_iff%Z.eqb_eq He].
    destruct (read_full (be_value b) _) as [[secret input4]|] eqn:E4; [|done]. apply read_full_Some in E4 as [-> Hsec]; [|lia].
    destruct (read_full (be_value d) _) as [[known rest]|] eqn:E5; [|done]. apply read_full_Some in E5 as [-> Hkn]; [|lia].
    apply guard_Ok in He as [Hk%negb_false_iff%bool_decide_eq_true He]. apply bind_Ok in He as (callback & Hc & He).
    apply bind_Ok in He as ([keys conn] & Hi & He). apply guard_Ok in He as [Ha%negb_false_iff%bool_decide_eq_true He].
    apply bind_Ok in He as ([] & Hs & [= <-]). exists raw, secret, known, header, callback, keys, conn.
    split; [|rewrite Hraw, Hsec, Hkn; lia|done..]. exists rest. unfold layout, u32. rewrite Hraw, Hsec, Hkn, !be_bytes_value by done. by rewrite <- !app_assoc.
  - intros (raw & secret & known & header & callback & keys & conn & [(rest & ->) (Hr & Hs & Hk) [Hd Hv] Hdk Hcb Hi Hau Hsn ->]).
    unfold ReadWorkerEnvelope, layout. rewrite <- (app_assoc envelopeMagic). change 8 with (len envelopeMagic) at 1. rewrite read_full_app, bool_decide_eq_true_2 by done.
    cbn [negb guard_err]. unfold maxEnvelopeHeaderBytes, maxPrivateKeyBytes, maxKnownHostsBytes in *.
    change (Z.shiftl 256 10) with 262144 in *. change (Z.shiftl 1 20) with 1048576 in *. change (Z.shiftl 8 20) with 8388608 in *.
    destruct (read_lengths (u32 raw) (u32 secret) (u32 known)) as (Ea & Eb & Ec & El); [apply be_bytes_length..|].
    rewrite <- (app_assoc (u32 raw ++ _)), <- El at 1. rewrite read_full_app, Ea, Eb, Ec, !u32_value by lia.
    rewrite (proj2 (Z.leb_gt _ _)), (proj2 (Z.ltb_ge _ _)), (proj2 (Z.ltb_ge _ _)), (proj2 (Z.leb_gt _ _)), (proj2 (Z.ltb_ge _ _)) by lia.
    cbn [orb guard_err]. rewrite <- (app_assoc raw), read_full_app, Hd, Hv. cbn [Z.eqb Pos.eqb negb guard_err].
    rewrite <- (app_assoc secret), read_full_app, read_full_app, bool_decide_eq_true_2 by done. cbn [negb guard_err]. rewrite Hcb. cbn [mbind result_bind].
    rewrite Hi. cbn [mbind result_bind]. rewrite bool_decide_eq_true_2, Hsn by done. done.
Qed.


(** ** Delivery *)

Definition header_text (h : envelopeHeader) : Prop :=
  let s := eh_Snapshot h in
  let ok t := utf8_valid t = true in
  Forall ok [sn_Name s; sn_Host s; sn_User s; sn_Authentication s; sn_AuthenticationKeysSHA256 s; sn_KnownHostsSHA256 s; eh_AuthKind h] /\
  Forall (Forall ok) (default [] (sn_AllowedCommands s)) /\ Forall ok (default [] (sp_Roots (sn_SFTP s))).

(** The header that a credential is delivered with. *)
Definition header_of (c : Credential) : envelopeHeader := mkHeader 1 (cr_snapshot c) (sn_Authentication (cr_snapshot c)).

Lemma readAllBounded_len f max raw : 0 <= max -> readAllBounded f max = Ok raw -> len raw <= max.
Proof. unfold readAllBounded. intros ? (r & _ & [?%Z.ltb_ge [= <-]]%guard_Ok)%bind_Ok. done. Qed.

(** A loaded credential: its snapshot is that of the profile, and its secrets are within bounds. *)
Record loaded (h : host) (p : profile) (c : Credential) (callback : HostKeyCallback) : Prop := {
  lo_open : cr_closed c = false;
  lo_snapshot : cr_snapshot c = snapshotFor p (sn_Authentication (cr_snapshot c)) (digestPublicKeys (cr_signers c)) (digest (cr_knownHosts c));
  lo_known : 0 < len (cr_knownHosts c) <= maxKnownHostsBytes;
  lo_callback : callbackFromKnownHosts (h_temp h) (cr_knownHosts c) = Ok callback /\ cr_hostKeyCallback c = Some callback;
  lo_identity :
    sn_Authentication (cr_snapshot c) = "private_key" /\ (exists public, ParsePrivateKey (cr_privateKey c) = Some public /\ cr_signers c = [public]) /\
      len (cr_privateKey c) <= maxPrivateKeyBytes /\ cr_agentConn c = None \/
    sn_Authentication (cr_snapshot c) = "ssh_agent" /\ cr_privateKey c = [] /\
      exists conn, cr_agentConn c = Some conn /\ ag_Signers conn = Some (cr_signers c) /\ cr_signers c <> []
}.

Lemma loadCredential_Ok h p c : loadCredential h p = Ok c -> exists callback, loaded h p c callback.
Proof.
  unfold loadCredential. intros (known & Hk & Hc)%bind_Ok. apply bind_Ok in Hc as (callback & Hv & Hc).
  assert (Hkn : len known <= maxKnownHostsBytes).
  { unfold readBoundedFile in Hk. apply bind_Ok in Hk as (f & _ & Hk). eapply readAllBounded_len; [|exact Hk]. done. }
  unfold validateKnownHosts in Hv. apply guard_Ok in Hv as [Hne%bool_decide_eq_false Hv].
  assert (Hpos : 0 < len known) by (destruct known; [done|]; unfold len; cbn; lia).
  destruct (callbackFromKnownHosts (h_temp h) known) as [cb|] eqn:Ecb; [|done]. destruct (NewPublicKey _); [|done].
  assert (cb = callback) as -> by (destruct (cb _ _); [by injection Hv|by apply guard_Ok in Hv as [_ [= <-]]|done]). clear Hv.
  exists callback. destruct (negb _).
  - apply bind_Ok in Hc as (key & Hkey & Hc). destruct (ParsePrivateKey key) as [public|] eqn:Ep; [|done]. injection Hc as <-.
    split; try done. left. split; [done|]. split; [by exists public|]. split; [|done]. cbn.
    unfold readPrivateKey in Hkey. apply bind_Ok in Hkey as (f & _ & Hkey). destruct (op_Stat f) as [[[? ?] ?]|]; [|done].
    apply guard_Ok in Hkey as [_ Hkey]. eapply readAllBounded_len; [|exact Hkey]. done.
  - apply guard_Ok in Hc as [_ Hc]. destruct (h_dial _ _) as [conn|]; [|done]. destruct (ag_Signers conn) as [[|k ks]|] eqn:Es; [done| |done].
    injection Hc as <-. split; try done. right. split; [done|]. split; [done|]. by exists conn.
Qed.

(** The descriptor of the agent, as the worker has it. *)
Definition inherited (a : option agent_conn) : option (option agent_conn) := Some <$> a.

Section laws.
Context {CL : CryptoLaws} {SL : SshLaws} {JL : JsonLaws envelopeHeader header_text}.
#[local] Set Default Proof Using "CL SL JL".

Lemma hex_encode_len s : len (hex_encode s) = 2 * len s.
Proof. unfold hex_encode, len. induction s as [|c s IH]; [done|]. cbn [flat_map app length] in *. lia. Qed.
Lemma digest_len s : len (digest s) = 64.
Proof. unfold digest. rewrite hex_encode_len. unfold len. by rewrite sha256_length. Qed.

Lemma envelope_text_Ok c text :
  envelope_text c = Ok text ->
  exists raw, cr_closed c = false /\ marshal (header_of c) = Some raw /\ len raw <= maxEnvelopeHeaderBytes /\
    text = layout raw (if decide (sn_Authentication (cr_snapshot c) = "ssh_agent") then [] else cr_privateKey c) (cr_knownHosts c).
Proof.
  unfold envelope_text. intros [Hc He]%guard_Ok. fold (header_of c) in He. destruct (marshal _) as [raw|]; [|done].
  apply guard_Ok in He as [Hl%Z.ltb_ge [= <-]]. exists raw. split; [done|]. split; [done|]. split; [done|]. unfold layout, u32. by rewrite <- !app_assoc.
Qed.

Lemma WriteWorkerEnvelope_Ok n c text : WriteWorkerEnvelope n c = (text, None) -> envelope_text c = Ok text.
Proof.
  unfold WriteWorkerEnvelope. destruct (envelope_text c) as [t|]; [|done]. destruct (Z.ltb_spec n (len t)) as [|Hn]; [done|]. intros [= <-].
  f_equal. symmetry. apply take_ge. unfold len in Hn. lia.
Qed.

(** The snapshot of a valid profile is valid when it has a root. *)
Lemma snapshotFor_valid now p authentication keys known :
  valid_profile now p -> sp_Roots (p_SFTP p) <> Some [] -> authentication = "private_key" \/ authentication = "ssh_agent" ->
  validateSnapshot (snapshotFor p authentication (digestPublicKeys keys) (digest known)) = Ok tt.
Proof.
  intros [(Hn & _) (Hh & _) Hp (Hu & _) _ _ (He & _) _ (roots & Hr & _)] Hne Ha. unfold validateSnapshot, snapshotFor, digestPublicKeys. cbn.
  rewrite !bool_decide_eq_false_2, !(proj2 (Z.ltb_ge _ _)), (proj2 (Z.eqb_neq _ _)), !digest_len by (done || lia). rewrite Hr in *.
  cbn. destruct Ha as [->| ->]; cbn; by destruct roots.
Qed.

Lemma envelope_read_back now h p c n text a :
  loadCredential h p = Ok c -> valid_profile now p -> sp_Roots (p_SFTP p) <> Some [] ->
  header_text (header_of c) -> marshal (header_of c) <> Some [] ->
  WriteWorkerEnvelope n c = (text, None) -> DuplicateAgentFile c = Ok a -> h_temp h = true ->
  exists c', ReadWorkerEnvelope true text (inherited a) = Ok c' /\ cr_snapshot c' = cr_snapshot c /\ snapshot_of c' = snapshot_of c /\
    cr_signers c' = cr_signers c /\ cr_hostKeyCallback c' = cr_hostKeyCallback c /\ cr_closed c' = false.
Proof.
  intros (callback & [Ho Hs Hk [Hcb Hcc] Hi])%loadCredential_Ok Hp Hne Htx Hm (raw & _ & Hraw & Hlen & ->)%WriteWorkerEnvelope_Ok%envelope_text_Ok Ha Ht.
  rewrite Ht in Hcb.
  assert (Hcl : cloneSnapshot (cr_snapshot c) = cr_snapshot c).
  { rewrite Hs. destruct p as [? ? ? ? ? ? ? ? [[[]|] ? ?] ?]; done. }
  assert (Hsn : validateSnapshot (cr_snapshot c) = Ok tt). { rewrite Hs. eapply snapshotFor_valid; [done..|]. destruct Hi as [(-> & _)|(-> & _)]; auto. }
  exists (mkCredential (cloneSnapshot (cr_snapshot c)) [] (cr_signers c) (Some callback) [] a false).
  split; [|unfold snapshot_of; cbn; by rewrite !Hcl].
  apply ReadWorkerEnvelope_Ok. set (secret := if decide _ then _ else _). exists raw, secret, (cr_knownHosts c), (header_of c), callback, (cr_signers c), a.
  assert (Hsec : len secret <= maxPrivateKeyBytes) by (unfold secret; case_decide; [by cbn|destruct Hi as [(? & ? & ? & ?)|(? & _)]; done]).
  unfold DuplicateAgentFile in Ha. apply guard_Ok in Ha as [_ Ha]. split; try done.
  - exists []. by rewrite app_nil_r.
  - assert (raw <> []) by congruence. destruct raw; [done|]. unfold len in *. cbn [length] in *. lia.
  - split; [|done]. by eapply decode_marshal.
  - cbn. by rewrite Hs.
  - assert (Hd : digestPublicKeys (cr_signers c) = sn_AuthenticationKeysSHA256 (cr_snapshot c)) by (by rewrite Hs).
    unfold envelope_identity, secret, header_of. cbn [eh_AuthKind eh_Snapshot]. rewrite <- Hd.
    destruct Hi as [(Hau & (public & Hpk & Hsg) & _ & Hag)|(Hau & _ & conn & Hag & Hsig & Hnil)]; rewrite Hau in *.
    + rewrite decide_True by done. rewrite (decide_False (P := _ = "ssh_agent")) by done. rewrite bool_decide_eq_false_2 in Ha by done. injection Ha as <-.
      assert (Hpn : cr_privateKey c <> []) by (intros E; by rewrite E, ParsePrivateKey_nil in Hpk).
      cbn [inherited fmap option_fmap option_map]. rewrite (bool_decide_eq_false_2 (is_Some _)) by (by intros [? [=]]).
      rewrite (bool_decide_eq_false_2 _ Hpn), Hpk, Hsg, bool_decide_eq_true_2 by done. done.
    + rewrite decide_False by done. rewrite !decide_True by done. rewrite bool_decide_eq_true_2, Hag in Ha by done. cbn [negb] in Ha.
      apply guard_Ok in Ha as [_ [= <-]]. cbn [inherited fmap option_fmap option_map]. rewrite bool_decide_eq_true_2 by done. cbn [negb guard_err].
      rewrite Hsig. destruct (cr_signers c); [done|]. rewrite bool_decide_eq_true_2 by done. done.
Qed.

(** A credential that the parent loaded from a profile with a root, and delivered, is what the
    worker reads: the snapshot, the identities and the trusted host keys. *)
Theorem envelope_delivered now h p c n text a :
  loadCredential h p = Ok c -> valid_profile now p -> sp_Roots (p_SFTP p) <> Some [] ->
  header_text (header_of c) -> marshal (header_of c) <> Some [] ->
  WriteWorkerEnvelope n c = (text, None) -> DuplicateAgentFile c = Ok a -> h_temp h = true ->
  exists c', ReadWorkerEnvelope true text (inherited a) = Ok c' /\ cr_snapshot c' = cr_snapshot c /\ snapshot_of c' = snapshot_of c /\
    cr_signers c' = cr_signers c /\ cr_hostKeyCallback c' = cr_hostKeyCallback c /\ cr_closed c' = false.
Proof. exact (envelope_read_back now h p c n text a). Qed.

Lemma layout_raw raw secret known raw' secret' known' rest :
  layout raw secret known = layout raw' secret' known' ++ rest -> len raw < 4294967296 -> len raw' < 4294967296 -> raw = raw'.
Proof.
  unfold layout. rewrite <- !app_assoc. intros E%app_inv_head ? ?.
  apply app_inj_1 in E as [Eu E]; [|unfold u32; by rewrite !be_bytes_length].
  do 2 (apply app_inj_1 in E as [_ E]; [|unfold u32; by rewrite !be_bytes_length]).
  apply (f_equal be_value) in Eu. rewrite !u32_value in Eu by done. apply app_inj_1 in E as [E _]; [done|]. unfold len in Eu. lia.
Qed.

(** The code does not do here what it means to do: a profile may allow commands and no files,
    with an empty list of roots; but the snapshot's copy of an empty list is nil, and the
    worker refuses a snapshot whose roots are nil. Such a profile is accepted and loaded, and no
    worker can use it. *)
Lemma exec_only_profile_refused h p c n text temp a :
  loadCredential h p = Ok c -> sp_Roots (p_SFTP p) = Some [] -> header_text (header_of c) -> WriteWorkerEnvelope n c = (text, None) ->
  is_ok (ReadWorkerEnvelope temp text a) = false.
Proof.
  intros (callback & [_ Hs _ _ _])%loadCredential_Ok Hr Htx (raw & _ & Hm & Hlen & ->)%WriteWorkerEnvelope_Ok%envelope_text_Ok.
  destruct (ReadWorkerEnvelope _ _ _) as [c'|] eqn:E; [|done]. exfalso.
  apply ReadWorkerEnvelope_Ok in E as (raw' & secret & known & header & cb & keys & conn & [(rest & El) ((_ & Hl') & _) [Hd _] _ _ _ _ Hv _]).
  apply layout_raw in El as <-; [|unfold maxEnvelopeHeaderBytes in *; change (Z.shiftl 256 10) with 262144 in *; lia..].
  rewrite (decode_marshal _ _ Htx Hm) in Hd. injection Hd as <-. cbn [header_of eh_Snapshot] in Hv. rewrite Hs in Hv.
  unfold validateSnapshot in Hv. do 3 apply guard_Ok in Hv as [_ Hv]. apply guard_Ok in Hv as [Hv _]. cbn in Hv. by rewrite Hr in Hv.
Qed.
End laws.

(** A closed credential hands out nothing. *)
Lemma closed_credential_useless c now n :
  let d := Close c in
  SSHClientConfig d now = Err CredentialClosed /\ DuplicateAgentFile d = Err CredentialClosed /\
  WriteWorkerEnvelope n d = ([], Some CredentialClosed) /\ (cr_closed c = false -> cr_privateKey d = [] /\ cr_knownHosts d = [] /\ cr_signers d = []).
Proof.
  unfold Close. destruct (cr_closed c) eqn:Ec; cbn; unfold SSHClientConfig, DuplicateAgentFile, WriteWorkerEnvelope, envelope_text; cbn; by rewrite ?Ec.
Qed.
End store.

(** ** Witnesses *)

(** A key parses to itself; a known_hosts file is the address of the one host it has. *)
Definition toy_ssh : Ssh := {|
  ParsePrivateKey s := if decide (s = []) then None else Some s;
  knownhosts_New raw := Some (fun address _ => if decide (address = raw) then HostKeyError 1 else HostKeyError 0);
  NewPublicKey s := Some s
|}.
Lemma toy_ssh_laws : @SshLaws toy_ssh.
Proof. done. Qed.

Definition sample_ssh_profile : profile :=
  mkProfile "prod" "host" 22 "deploy" "/keys/id" false "/keys/known" (Some [["git" : gostring; "status" : gostring]])
    (mkSFTPPolicy (Some ["/srv" : gostring]) true false) (100 * second).
Definition secret_file (content : gostring) : opened := mkOpened (Some (true, 7, 384)) content false.
Definition sample_host : host :=
  mkHost (fun path => if decide (path = "/keys/id") then Some (secret_file "key") else
                      if decide (path = "/keys/known") then Some (secret_file "host:22") else None) 7 true [] (fun _ => None).
Definition sample_credential : result cred_error Credential := @loadCredential toy_crypto toy_ed toy_ssh sample_host sample_ssh_profile.
Definition sample_snapshot : Snapshot :=
  @snapshotFor sample_ssh_profile "private_key" (@digestPublicKeys toy_crypto ["key" : gostring]) (@digest toy_crypto "host:22").
Definition sample_header_json : Json envelopeHeader := one_json (mkHeader 1 sample_snapshot "private_key").
Definition the_credential : Credential :=
  match sample_credential with Ok c => c | Err _ => mkCredential sample_snapshot [] [] None [] None true end.
Definition sample_envelope : gostring := (@WriteWorkerEnvelope sample_header_json 1000 the_credential).1.

Lemma sample_profile_valid : valid_profile 0 sample_ssh_profile.
Proof. apply validateProfile_Ok. vm_compute. reflexivity. Qed.

Lemma sample_header_text : header_text (mkHeader 1 sample_snapshot "private_key").
Proof. split_and!; repeat constructor. Qed.

Lemma envelope_delivered_witness :
  exists c, @ReadWorkerEnvelope toy_crypto toy_ssh sample_header_json true sample_envelope None = Ok c /\ cr_signers c = ["key" : gostring].
Proof.
  destruct (@envelope_delivered toy_crypto toy_ed toy_ssh sample_header_json toy_crypto_laws toy_ssh_laws (one_json_laws _ _) 0 sample_host
    sample_ssh_profile the_credential 1000 sample_envelope None) as (c & Hr & _ & _ & Hk & _).
  - vm_compute. reflexivity.
  - exact sample_profile_valid.
  - discriminate.
  - exact sample_header_text.
  - vm_compute. discriminate.
  - vm_compute. reflexivity.
  - vm_compute. reflexivity.
  - reflexivity.
  - exists c. split; [exact Hr|]. rewrite Hk. vm_compute. reflexivity.
Defined.

Definition read_credential := @ReadWorkerEnvelope toy_crypto toy_ssh sample_header_json true sample_envelope None.
Definition worker_credential : Credential := match read_credential with Ok c => c | Err _ => the_credential end.

