(* ===== verification/RemoteJob.v ===== *)
(** * Jobs of the remote worker ([internal/remoteworker/job.go], [policy.go])

    A job names a profile by the digest of its snapshot, and one operation: a command, given as
    a list of arguments, or a file operation. It is signed with Ed25519 and accepted once; the
    profile of the worker says whether the operation is allowed. *)
From S2P Require Import Prelude GoStrings Strconv Base64 Utf8 GoPath Token CredentialStore.
#[local] Open Scope Z_scope.

(** ** Data *)

Definition JobVersion : Z := 1.
Definition WorkerType : gostring := "remote".
Definition MaxSignedBytes : Z := Z.shiftl 16 20.
Definition maxJobLifetime : Z := minute.
Definition maxOutputBytes : Z := Z.shiftl 8 20.
Definition maxFileBytes : Z := Z.shiftl 8 20.
Definition maxListEntries : Z := 10000.
Definition maxTimeout : Z := 30 * second.
Definition millisecond : Z := 1000000.
Definition signatureDomain : gostring := "remote-agent/remote-job/v1" ++ [NUL].

Definition OperationSSHExec : gostring := "ssh_exec".
Definition OperationSFTPList : gostring := "sftp_list".
Definition OperationSFTPRead : gostring := "sftp_read".
Definition OperationSFTPWrite : gostring := "sftp_write".
Definition OperationSFTPMkdir : gostring := "sftp_mkdir".
Definition OperationSFTPRename : gostring := "sftp_rename".

Record Limits := mkLimits { lm_MaxOutputBytes : Z; lm_MaxFileBytes : Z; lm_MaxEntries : Z; lm_TimeoutMillis : Z }.
#[export] Instance Limits_eq_dec : EqDecision Limits.
Proof. solve_decision. Defined.

(** [rj_Argv] is absent when it is null. *)
Record Job := mkJob {
  rj_JobID : gostring; rj_WorkerType : gostring; rj_RequestID : gostring; rj_Principal : gostring; rj_WorkspaceID : gostring;
  rj_BridgeID : gostring; rj_SessionID : gostring; rj_ClientRequestID : gostring; rj_ProfileName : gostring;
  rj_ProfileSnapshotSHA256 : gostring; rj_Operation : gostring; rj_RemotePath : gostring; rj_DestinationPath : gostring;
  rj_Argv : option (list gostring); rj_Content : gostring; rj_ContentSHA256 : gostring; rj_Limits : Limits; rj_ExpiresAt : gotime
}.
#[export] Instance Job_eq_dec : EqDecision Job.
Proof. solve_decision. Defined.

Record SignedJob := mkSignedJob { sj_Version : Z; sj_Job : Job; sj_Signature : gostring }.
#[export] Instance SignedJob_eq_dec : EqDecision SignedJob.
Proof. solve_decision. Defined.

Inductive remote_error :=
  | BadKey | IdentityIncomplete | DigestInvalid | JobExpired | LifetimeTooLong | LimitsInvalid | ProfileNameInvalid | ArgvNotArray
  | ArgvNUL | ShapeInvalid | ContentMismatch | UnsupportedOperation | NotMarshalled | InvalidSignedJob | InvalidSignature
  | InvalidJob (e : remote_error) | SnapshotMismatch | AlreadyUsed | ArgvEmpty | PathNotClean | PathOutside | PathNotAbsolute
  | NameMismatch | CommandDenied | ReadDisabled | WriteDisabled.
#[export] Instance remote_error_eq_dec : EqDecision remote_error.
Proof. solve_decision. Defined.

Section job.
Context `{UnicodeTables} `{Crypto} `{Ed25519} `{Json Job} `{Json SignedJob}.

(** ** Well-formed jobs ([job.go]) *)

Definition normalizeRemotePath (raw : gostring) : result remote_error unit :=
  reject bool_decide (raw = []) || negb (is_rooted raw) || contains_byte raw NUL || negb (bool_decide (clean raw = raw)) with PathNotClean; Ok tt.

Definition empty_argv (j : Job) : bool := bool_decide (default [] (rj_Argv j) = []).

Definition requireSFTPShape (j : Job) (withContent : bool) : result remote_error unit :=
  reject negb (is_ok (normalizeRemotePath (rj_RemotePath j))) || negb (bool_decide (rj_DestinationPath j = [])) || negb (empty_argv j)
    with ShapeInvalid;
  reject negb withContent && (negb (bool_decide (rj_Content j = [])) || negb (bool_decide (rj_ContentSHA256 j = []))) with ShapeInvalid;
  Ok tt.

Definition validateOperationShape (j : Job) : result remote_error unit :=
  match rj_Argv j with
  | None => Err ArgvNotArray
  | Some argv =>
      reject existsb (fun a => contains_byte a NUL) argv with ArgvNUL;
      let limits := rj_Limits j in
      if decide (rj_Operation j = OperationSSHExec) then
        reject negb (bool_decide (rj_RemotePath j = [SLASH])) || negb (bool_decide (rj_DestinationPath j = [])) || bool_decide (argv = []) ||
               negb (bool_decide (rj_Content j = [])) || negb (bool_decide (rj_ContentSHA256 j = [])) with ShapeInvalid; Ok tt
      else if decide (rj_Operation j = OperationSFTPList) then
        reject negb (is_ok (requireSFTPShape j false)) || (lm_MaxEntries limits <=? 0) with ShapeInvalid; Ok tt
      else if decide (rj_Operation j = OperationSFTPRead) then
        reject negb (is_ok (requireSFTPShape j false)) || (lm_MaxFileBytes limits <=? 0) with ShapeInvalid; Ok tt
      else if decide (rj_Operation j = OperationSFTPWrite) then
        reject negb (is_ok (requireSFTPShape j true)) || (lm_MaxFileBytes limits <=? 0) || (lm_MaxFileBytes limits <? len (rj_Content j)) ||
               negb (validSHA256 (rj_ContentSHA256 j)) with ShapeInvalid;
        reject negb (bool_decide (digest (rj_Content j) = rj_ContentSHA256 j)) with ContentMismatch; Ok tt
      else if decide (rj_Operation j = OperationSFTPMkdir) then
        reject negb (is_ok (requireSFTPShape j false)) with ShapeInvalid; Ok tt
      else if decide (rj_Operation j = OperationSFTPRename) then
        reject negb (is_ok (normalizeRemotePath (rj_RemotePath j))) || negb (is_ok (normalizeRemotePath (rj_DestinationPath j))) ||
               negb (bool_decide (argv = [])) || negb (bool_decide (rj_Content j = [])) || negb (bool_decide (rj_ContentSHA256 j = []))
          with ShapeInvalid; Ok tt
      else Err UnsupportedOperation
  end.

Definition validateJob (j : Job) (now : gotime) : result remote_error unit :=
  let limits := rj_Limits j in
  reject bool_decide (rj_JobID j = []) || negb (bool_decide (rj_WorkerType j = WorkerType)) || bool_decide (rj_RequestID j = []) ||
         bool_decide (rj_Principal j = []) || bool_decide (rj_WorkspaceID j = []) || bool_decide (rj_BridgeID j = []) ||
         bool_decide (rj_SessionID j = []) || bool_decide (rj_ClientRequestID j = []) || bool_decide (rj_ProfileName j = []) ||
         bool_decide (rj_Operation j = []) with IdentityIncomplete;
  reject negb (validSHA256 (rj_ProfileSnapshotSHA256 j)) with DigestInvalid;
  reject (rj_ExpiresAt j =? zero_time) || negb (before now (rj_ExpiresAt j)) with JobExpired;
  reject after (rj_ExpiresAt j) (now + maxJobLifetime) with LifetimeTooLong;
  reject (lm_MaxOutputBytes limits <=? 0) || (maxOutputBytes <? lm_MaxOutputBytes limits) ||
         (lm_MaxFileBytes limits <? 0) || (maxFileBytes <? lm_MaxFileBytes limits) ||
         (lm_MaxEntries limits <? 0) || (maxListEntries <? lm_MaxEntries limits) ||
         (lm_TimeoutMillis limits <=? 0) || (maxTimeout / millisecond <? lm_TimeoutMillis limits) with LimitsInvalid;
  reject contains_byte (rj_ProfileName j) NUL with ProfileNameInvalid;
  validateOperationShape j.

(** ** Signatures *)

Definition signed_message (jobRaw : gostring) : gostring := signatureDomain ++ jobRaw.

(** [NewSigner] and [NewSignerFromSeed]; a signer is its private key. *)
Definition NewSigner (privateKey : gostring) : result remote_error gostring :=
  reject negb (len privateKey =? 64) with BadKey; Ok privateKey.
Definition NewSignerFromSeed (seed : gostring) : result remote_error gostring :=
  reject negb (len seed =? 32) with BadKey; NewSigner (ed_from_seed seed).

Definition Sign (privateKey : gostring) (j : Job) (now : gotime) : result remote_error gostring :=
  _ ← validateJob j now;
  match marshal j with
  | None => Err NotMarshalled
  | Some jobRaw =>
      match marshal (mkSignedJob JobVersion j (b64_encode (ed_sign privateKey (signed_message jobRaw)))) with
      | None => Err NotMarshalled
      | Some text => Ok text
      end
  end.

Record Verifier := mkVerifier { publicKey : gostring; used : gset gostring }.
Definition NewVerifier (publicKey : gostring) : result remote_error Verifier :=
  reject negb (len publicKey =? 32) with BadKey; Ok (mkVerifier publicKey ∅).

(** [RawURLEncoding.Strict]: line breaks are still ignored, unused bits are not. *)
Definition b64_decode_strict (s : gostring) : option gostring :=
  decoded ← b64_decode s;
  if bool_decide (b64_encode decoded = filter (fun c => c <> CR /\ c <> LF) s) then Some decoded else None.

(** The checks of [Verify] before the use is recorded. *)
Definition authenticate (publicKey raw snapshotDigest : gostring) (now : gotime) : result remote_error Job :=
  reject (len raw =? 0) || (MaxSignedBytes <? len raw) with InvalidSignedJob;
  match decode_strict raw with
  | None => Err InvalidSignedJob
  | Some signed =>
      reject negb (sj_Version signed =? JobVersion) with InvalidSignedJob;
      match b64_decode_strict (sj_Signature signed) with
      | None => Err InvalidSignature
      | Some signature =>
          reject negb (len signature =? 64) with InvalidSignature;
          match marshal (sj_Job signed) with
          | None => Err InvalidSignature
          | Some jobRaw =>
              reject negb (ed_verify publicKey (signed_message jobRaw) signature) with InvalidSignature;
              match validateJob (sj_Job signed) now with
              | Err e => Err (InvalidJob e)
              | Ok _ =>
                  reject negb (bool_decide (rj_ProfileSnapshotSHA256 (sj_Job signed) = snapshotDigest)) with SnapshotMismatch;
                  Ok (sj_Job signed)
              end
          end
      end
  end.

Definition Verify (v : Verifier) (raw snapshotDigest : gostring) (now : gotime) : result remote_error Job * Verifier :=
  match authenticate (publicKey v) raw snapshotDigest now with
  | Err e => (Err e, v)
  | Ok j =>
      if bool_decide (rj_JobID j ∈ used v) then (Err AlreadyUsed, v)
      else (Ok j, mkVerifier (publicKey v) ({[rj_JobID j]} ∪ used v))
  end.

(** ** Policy ([policy.go]) *)

Fixpoint matches (argv prefix : list gostring) {struct prefix} : bool :=
  match prefix, argv with
  | [], _ => true
  | p :: prefix, a :: argv => bool_decide (a = p) && matches argv prefix
  | _ :: _, [] => false
  end.
Definition CommandAllowed (argv : list gostring) (allowedPrefixes : list (list gostring)) : bool :=
  negb (bool_decide (argv = [])) && existsb (fun prefix => negb (bool_decide (prefix = [])) && matches argv prefix) allowedPrefixes.

Definition APOSTROPHE : ascii := byte_of 39.
Definition quote_argument (a : gostring) : gostring :=
  [APOSTROPHE] ++ replace_all a [APOSTROPHE] ([APOSTROPHE; byte_of 34; APOSTROPHE; byte_of 34; APOSTROPHE]) ++ [APOSTROPHE].
Definition QuoteArgv (argv : list gostring) : result remote_error gostring :=
  reject bool_decide (argv = []) with ArgvEmpty;
  reject existsb (fun a => contains_byte a NUL) argv with ArgvNUL;
  Ok (join [SP] (quote_argument <$> argv)).

Definition below (root path : gostring) : bool :=
  bool_decide (path = root) || bool_decide (root = [SLASH]) || has_prefix path (root ++ [SLASH]).

Definition NormalizeAndAuthorizeRemotePath (raw : gostring) (roots : list gostring) : result remote_error gostring :=
  _ ← normalizeRemotePath raw;
  if existsb (fun root => below root raw) roots then Ok raw else Err PathOutside.

Definition authorizeResolvedPath (resolved : gostring) (roots : list gostring) : result remote_error unit :=
  let path := clean resolved in
  reject negb (is_rooted path) with PathNotAbsolute;
  if existsb (fun root => below root path) roots then Ok tt else Err PathOutside.

Definition operationAllowed (j : Job) (s : Snapshot) : result remote_error unit :=
  let roots := default [] (sp_Roots (sn_SFTP s)) in
  reject negb (bool_decide (rj_ProfileName j = sn_Name s)) with NameMismatch;
  if decide (rj_Operation j = OperationSSHExec) then
    reject negb (CommandAllowed (default [] (rj_Argv j)) (default [] (sn_AllowedCommands s))) with CommandDenied; Ok tt
  else
    _ ← NormalizeAndAuthorizeRemotePath (rj_RemotePath j) roots;
    _ ← (if decide (rj_Operation j = OperationSFTPRename) then NormalizeAndAuthorizeRemotePath (rj_DestinationPath j) roots else Ok []);
    if decide (rj_Operation j ∈ [OperationSFTPList; OperationSFTPRead]) then reject negb (sp_Read (sn_SFTP s)) with ReadDisabled; Ok tt
    else if decide (rj_Operation j ∈ [OperationSFTPWrite; OperationSFTPMkdir; OperationSFTPRename]) then
      reject negb (sp_Write (sn_SFTP s)) with WriteDisabled; Ok tt
    else Err UnsupportedOperation.

(** ** Quoting *)

(** How a POSIX shell splits a command line into words, for lines of plain characters, spaces
    and quotes; a line with any other character outside of single quotes is not read here. *)
Inductive quoting := Outside | Unquoted | Single | Double.
Definition plain_char (c : ascii) : bool :=
  ((97 <=? code c) && (code c <=? 122)) || ((65 <=? code c) && (code c <=? 90)) || ((48 <=? code c) && (code c <=? 57)) ||
  contains_byte "_-./:=,@%+" c.
Fixpoint shell_words (q : quoting) (word : gostring) (s : gostring) : option (list gostring) :=
  match s with
  | [] => match q with Outside => Some [] | Unquoted => Some [word] | _ => None end
  | c :: s =>
      match q with
      | Single => if decide (c = APOSTROPHE) then shell_words Unquoted word s else shell_words Single (word ++ [c]) s
      | Double =>
          if decide (c = byte_of 34) then shell_words Unquoted word s
          else if contains_byte [byte_of 36; byte_of 96; BSL] c then None else shell_words Double (word ++ [c]) s
      | _ =>
          if decide (c = SP) then
            match q with Outside => shell_words Outside [] s | _ => (fun l => word :: l) <$> shell_words Outside [] s end
          else if decide (c = APOSTROPHE) then shell_words Single word s
          else if decide (c = byte_of 34) then shell_words Double word s
          else if plain_char c then shell_words Unquoted (word ++ [c]) s else None
      end
  end.
Definition posix_words (s : gostring) : option (list gostring) := shell_words Outside [] s.

Lemma replace_char a c new : replace_all a [c] new = flat_map (fun x => if decide (x = c) then new else [x]) a.
Proof.
  unfold replace_all. induction a as [|x a IH]; [done|]. cbn [replace_all_from flat_map has_prefix length].
  destruct (decide (x = c)) as [->|Hne]; [rewrite Ascii.eqb_refl; cbn; by rewrite has_prefix_nil, IH|]. rewrite Ascii.eqb_sym. rewrite (proj2 (Ascii.eqb_neq _ _)) by done. by rewrite IH.
Qed.

Lemma words_quoted a word rest : shell_words Single word (replace_all a [APOSTROPHE] ([APOSTROPHE; byte_of 34; APOSTROPHE; byte_of 34; APOSTROPHE]) ++ APOSTROPHE :: rest) =
  shell_words Unquoted (word ++ a) rest.
Proof.
  rewrite replace_char. revert word. induction a as [|x a IH]; intros word; [by rewrite app_nil_r|].
  cbn [flat_map]. destruct (decide (x = APOSTROPHE)) as [->|Hne].
  - rewrite <- app_assoc. replace (word ++ APOSTROPHE :: a) with ((word ++ [APOSTROPHE]) ++ a) by by rewrite <- app_assoc.
    apply (IH (word ++ [APOSTROPHE])).
  - cbn [app shell_words]. rewrite decide_False, IH, <- app_assoc by done. done.
Qed.

Lemma quoted_words argv command : QuoteArgv argv = Ok command -> posix_words command = Some argv.
Proof.
  intros [Hne%bool_decide_eq_false [_ [= <-]]%guard_Ok]%guard_Ok. unfold posix_words.
  induction argv as [|a [|b argv] IH]; [done| |].
  - exact (words_quoted a [] []).
  - rewrite fmap_cons, join_cons by done. unfold quote_argument at 1. rewrite <- !app_assoc.
    etransitivity; [exact (words_quoted a [] _)|].
    change ((fun l => a :: l) <$> shell_words Outside [] (join [SP] (quote_argument <$> b :: argv)) = Some (a :: b :: argv)).
    by rewrite IH by done.
Qed.

(** C23. A shell reads the quoted command line as the arguments that were quoted, whatever bytes they
    hold; there is a command line for every list of arguments that is not empty, without NUL. *)
Theorem quoted_argv_words argv :
  (forall command, QuoteArgv argv = Ok command -> posix_words command = Some argv) /\
  (is_ok (QuoteArgv argv) = true <-> argv <> [] /\ Forall (fun a => NUL ∉ a) argv).
Proof.
  split; [apply quoted_words|]. unfold QuoteArgv. case_bool_decide as Hn; [by split; [|intros []]|]. cbn [guard_err].
  assert (He : existsb (fun a => contains_byte a NUL) argv = false <-> Forall (fun a => NUL ∉ a) argv).
  { rewrite existsb_false_Forall. apply Forall_iff. intros a. apply contains_byte_false. }
  destruct (existsb _ _); cbn [guard_err is_ok]; naive_solver.
Qed.

(** ** Paths below a root *)

(** A clean rooted path is its components. *)
Lemma rooted_comps p : is_rooted p = true -> clean p = p -> p = SLASH :: join [SLASH] (comps_of p).
Proof. intros Hr Hc. rewrite <- Hc at 1. unfold clean, comps_of. by rewrite Hr. Qed.

Lemma rooted_root p : is_rooted p = true -> clean p = p -> p = [SLASH] <-> comps_of p = [].
Proof. intros Hr Hc. split; [by intros ->|]. intros E. rewrite (rooted_comps p Hr Hc), E. done. Qed.

Lemma join_app l k : l <> [] -> k <> [] -> join [SLASH] (l ++ k) = join [SLASH] l ++ [SLASH] ++ join [SLASH] k.
Proof.
  intros Hl Hk. induction l as [|x [|y l] IH]; [done|by rewrite <- join_cons by done|].
  rewrite <- app_comm_cons, !join_cons by (by destruct k || done). rewrite IH by done. by rewrite <- !app_assoc.
Qed.

Lemma below_spec root p :
  is_rooted root = true -> clean root = root -> is_rooted p = true -> clean p = p ->
  below root p = true <-> comps_of root `prefix_of` comps_of p.
Proof.
  intros Hr Hcr Hp Hcp. unfold below. rewrite !orb_true_iff, !bool_decide_eq_true, (rooted_root root), has_prefix_spec by done. split.
  - intros [[-> | ->]|[r E]]; [done|apply prefix_nil|]. destruct (decide (comps_of root = [])) as [->|Hne]; [apply prefix_nil|].
    rewrite (rooted_comps root Hr Hcr), (rooted_comps p Hp Hcp), <- app_assoc in E. cbn [app] in E. injection E as E.
    assert (comps_of p <> []). { intros Hn. rewrite Hn in E. by destruct (join [SLASH] (comps_of root)). }
    exists (split_byte SLASH r). rewrite <- (split_join_proper (comps_of p)), E, split_byte_app, split_join_proper by (done || apply comps_of_proper). done.
  - intros [k Hk]. destruct (decide (comps_of root = [])) as [Hn|Hne]; [auto|]. destruct (decide (k = [])) as [->|Hkn].
    + left. left. rewrite (rooted_comps p Hp Hcp), Hk, app_nil_r. symmetry. by apply rooted_comps.
    + right. exists (join [SLASH] k). rewrite (rooted_comps p Hp Hcp), Hk, join_app by done.
      rewrite (rooted_comps root Hr Hcr) at 2. by rewrite <- !app_assoc.
Qed.

(** A rooted path has no component [..]. *)
Lemma rooted_no_dotdot p : is_rooted p = true -> DOTDOT ∉ comps_of p.
Proof.
  intros Hr Hin. pose proof (comps_of_stack p) as Hs. rewrite Hr in Hs. rewrite list_elem_of_In, in_rev, <- list_elem_of_In in Hin; rename Hin into Hin'. revert Hs Hin'.
  induction (rev (comps_of p)) as [|c l IH]; cbn [clean_stack]; [intros _ ?%elem_of_nil; done|].
  intros (_ & Hs & Hd) [<-|?]%elem_of_cons; [by destruct (Hd eq_refl)|auto].
Qed.

Lemma normalizeRemotePath_Ok raw : normalizeRemotePath raw = Ok tt <-> remote_root raw.
Proof.
  unfold normalizeRemotePath, remote_root. rewrite guard_Ok, !orb_false_iff, !negb_false_iff, contains_byte_false, bool_decide_eq_true, bool_decide_eq_false.
  pose proof (is_rooted_not_nil raw). tauto.
Qed.

(** ** What a profile allows *)

Definition within (roots : list gostring) (p : gostring) : Prop := exists root, root ∈ roots /\ comps_of root `prefix_of` comps_of p.

Definition clean_root (root : gostring) : Prop := is_rooted root = true /\ clean root = root.

Lemma existsb_below roots p :
  Forall clean_root roots -> is_rooted p = true -> clean p = p -> existsb (fun root => below root p) roots = true <-> within roots p.
Proof.
  intros Hf Hp Hc. rewrite existsb_exists. unfold within. rewrite Forall_forall in Hf. setoid_rewrite <- list_elem_of_In. split.
  - intros (root & Hin & Hb). exists root. split; [done|]. destruct (Hf _ Hin) as (? & ?). by apply below_spec.
  - intros (root & Hin & Hb). exists root. split; [done|]. destruct (Hf _ Hin) as (? & ?). by apply below_spec.
Qed.

Lemma remote_roots_clean roots : Forall remote_root roots -> Forall clean_root roots.
Proof. intros Hf. eapply Forall_impl; [exact Hf|]. by intros r (? & _ & ?). Qed.

(** A path that the server resolved is authorised when it is below a root. *)
Lemma authorizeResolvedPath_Ok p roots :
  Forall clean_root roots -> clean p = p -> authorizeResolvedPath p roots = Ok tt <-> is_rooted p = true /\ within roots p.
Proof.
  intros Hf Hc. unfold authorizeResolvedPath. rewrite Hc, guard_Ok, negb_false_iff. split.
  - intros [Hr He]. destruct (existsb _ _) eqn:E; [|done]. split; [done|]. by apply existsb_below.
  - intros [Hr Hw]. split; [done|]. by rewrite (proj2 (existsb_below roots p Hf Hr Hc)).
Qed.

Lemma matches_spec argv prefix : matches argv prefix = true <-> prefix `prefix_of` argv.
Proof.
  revert argv. induction prefix as [|p prefix IH]; intros argv; cbn [matches]; [split; [intros _; apply prefix_nil|by intros]|].
  destruct argv as [|a argv]; [split; [done|by intros [? ?]]|]. rewrite andb_true_iff, bool_decide_eq_true, IH. split.
  - intros [-> ?]. by apply prefix_cons.
  - intros Hp. split; [by apply prefix_cons_inv_1 in Hp|by eapply prefix_cons_inv_2].
Qed.

Lemma CommandAllowed_spec argv prefixes :
  CommandAllowed argv prefixes = true <-> exists prefix, prefix ∈ prefixes /\ prefix <> [] /\ prefix `prefix_of` argv.
Proof.
  unfold CommandAllowed. rewrite andb_true_iff, existsb_exists, negb_true_iff, bool_decide_eq_false. setoid_rewrite andb_true_iff.
  setoid_rewrite matches_spec. setoid_rewrite <- list_elem_of_In. setoid_rewrite negb_true_iff. split.
  - intros (_ & prefix & Hin & Hne%bool_decide_eq_false & Hp). eauto.
  - intros (prefix & Hin & Hne & Hp). split; [intros ->; by apply prefix_nil_inv in Hp|]. exists prefix. split; [done|]. split; [by apply bool_decide_eq_false|done].
Qed.

(** What a profile means to allow. *)
Definition allowed_by (s : Snapshot) (j : Job) : Prop :=
  let roots := default [] (sp_Roots (sn_SFTP s)) in
  rj_ProfileName j = sn_Name s /\
  if decide (rj_Operation j = OperationSSHExec) then
    exists prefix, prefix ∈ default [] (sn_AllowedCommands s) /\ prefix <> [] /\ prefix `prefix_of` default [] (rj_Argv j)
  else
    remote_root (rj_RemotePath j) /\ within roots (rj_RemotePath j) /\
    (rj_Operation j = OperationSFTPRename -> remote_root (rj_DestinationPath j) /\ within roots (rj_DestinationPath j)) /\
    (rj_Operation j ∈ [OperationSFTPList; OperationSFTPRead] /\ sp_Read (sn_SFTP s) = true \/
     rj_Operation j ∈ [OperationSFTPWrite; OperationSFTPMkdir; OperationSFTPRename] /\ sp_Write (sn_SFTP s) = true).

Lemma NormalizeAndAuthorizeRemotePath_Ok raw roots p :
  Forall remote_root roots -> NormalizeAndAuthorizeRemotePath raw roots = Ok p <-> p = raw /\ remote_root raw /\ within roots raw.
Proof.
  intros Hf. unfold NormalizeAndAuthorizeRemotePath. rewrite bind_Ok. split.
  - intros ([] & (Hr & Hn & Hc)%normalizeRemotePath_Ok & Hb). destruct (existsb _ _) eqn:E; [|done]. injection Hb as <-.
    apply existsb_below in E; [done|by apply remote_roots_clean|done..].
  - intros (-> & Hr & Hw). exists tt. split; [by apply normalizeRemotePath_Ok|]. destruct Hr as (Hrr & _ & Hrc). by rewrite (proj2 (existsb_below roots raw (remote_roots_clean _ Hf) Hrr Hrc)).
Qed.

Definition access_check (j : Job) (s : Snapshot) : result remote_error unit :=
  if decide (rj_Operation j ∈ [OperationSFTPList; OperationSFTPRead]) then reject negb (sp_Read (sn_SFTP s)) with ReadDisabled; Ok tt
  else if decide (rj_Operation j ∈ [OperationSFTPWrite; OperationSFTPMkdir; OperationSFTPRename]) then
    reject negb (sp_Write (sn_SFTP s)) with WriteDisabled; Ok tt
  else Err UnsupportedOperation.

Lemma access_check_Ok j s :
  access_check j s = Ok tt <->
  rj_Operation j ∈ [OperationSFTPList; OperationSFTPRead] /\ sp_Read (sn_SFTP s) = true \/
  rj_Operation j ∈ [OperationSFTPWrite; OperationSFTPMkdir; OperationSFTPRename] /\ sp_Write (sn_SFTP s) = true.
Proof.
  unfold access_check. case_decide as Hr; [|case_decide as Hw]; rewrite ?guard_Ok, ?negb_false_iff; [|tauto|split; [done|tauto]].
  split; [tauto|]. intros [?|[Hw _]]; [tauto|]. exfalso. apply list_elem_of_In in Hr, Hw.
  destruct Hr as [E|[E|[]]]; rewrite <- E in Hw; by destruct Hw as [|[|[|]]].
Qed.

Lemma rename_check_Ok j roots x :
  Forall remote_root roots ->
  (if decide (rj_Operation j = OperationSFTPRename) then NormalizeAndAuthorizeRemotePath (rj_DestinationPath j) roots else Ok []) = Ok x <->
  x = (if decide (rj_Operation j = OperationSFTPRename) then rj_DestinationPath j else []) /\
  (rj_Operation j = OperationSFTPRename -> remote_root (rj_DestinationPath j) /\ within roots (rj_DestinationPath j)).
Proof.
  intros Hf. case_decide; [rewrite NormalizeAndAuthorizeRemotePath_Ok by done; tauto|]. split; [by intros [= <-]|by intros [-> _]].
Qed.

(** The policy allows a job exactly when the profile means to: the job is for it, and a command
    starts with an allowed one, or every path of a file operation is clean and lies below a
    root, component by component, and the profile has the access. *)
Theorem operation_allowed_exact j s :
  Forall remote_root (default [] (sp_Roots (sn_SFTP s))) ->
  operationAllowed j s = Ok tt <-> allowed_by s j.
Proof.
  intros Hf. unfold operationAllowed, allowed_by. fold (access_check j s). rewrite guard_Ok, negb_false_iff, bool_decide_eq_true. apply and_iff_compat_l.
  destruct (decide (rj_Operation j = OperationSSHExec)) as [|_]; [rewrite guard_Ok, negb_false_iff, CommandAllowed_spec; tauto|].
  rewrite bind_Ok. setoid_rewrite NormalizeAndAuthorizeRemotePath_Ok; [|done]. setoid_rewrite bind_Ok.
  setoid_rewrite rename_check_Ok; [|done]. setoid_rewrite access_check_Ok. split.
  - intros (? & (-> & ? & ?) & ? & (-> & ?) & ?). tauto.
  - intros (? & ? & ? & ?). eexists. split; [done|]. eexists. done.
Qed.

(** ** What a signature proves *)

Lemma b64_char_ascii c d : b64_value c = Some d -> code c < 128 /\ c <> CR /\ c <> LF.
Proof.
  intros Hv. repeat split; [|by intros ->..]. unfold b64_value in Hv. pose proof (code_range c).
  repeat match type of Hv with (if ?b then _ else _) = _ => destruct b eqn:?; bool_props; try lia end. done.
Qed.

Lemma b64_decode_strict_encode s : b64_decode_strict (b64_encode s) = Some s.
Proof.
  unfold b64_decode_strict. rewrite b64_decode_encode. cbn [mbind option_bind]. rewrite bool_decide_eq_true_2; [done|].
  symmetry. apply filter_all_true. intros c Hc. pose proof (b64_encode_alphabet s) as Ha. rewrite Forall_forall in Ha.
  destruct (Ha _ Hc) as [d Hd]. by destruct (b64_char_ascii _ _ Hd).
Qed.

Lemma b64_encode_valid s : utf8_valid (b64_encode s) = true.
Proof.
  apply utf8_valid_all_ascii. eapply Forall_impl; [apply b64_encode_alphabet|]. intros c [d Hd]. by apply b64_char_ascii in Hd as [? _].
Qed.

Record remote_acceptable (pk raw snapshotDigest : gostring) (now : gotime) (j : Job) : Prop := {
  ra_size : 0 < len raw <= MaxSignedBytes;
  ra_signed : exists signed signature jobRaw, decode_strict raw = Some signed /\ sj_Version signed = JobVersion /\ sj_Job signed = j /\
    b64_decode_strict (sj_Signature signed) = Some signature /\ len signature = 64 /\ marshal j = Some jobRaw /\
    ed_verify pk (signed_message jobRaw) signature = true;
  ra_valid : validateJob j now = Ok tt;
  ra_profile : rj_ProfileSnapshotSHA256 j = snapshotDigest
}.

Lemma authenticate_remote pk raw snapshotDigest now j :
  authenticate pk raw snapshotDigest now = Ok j <-> remote_acceptable pk raw snapshotDigest now j.
Proof.
  unfold authenticate. rewrite guard_Ok, orb_false_iff, Z.eqb_neq, Z.ltb_ge. split.
  - intros ((Hne & Hl) & Ha). destruct (decode_strict raw) as [signed|] eqn:Ed; [|done]. apply guard_Ok in Ha as [Hv%negb_false_iff%Z.eqb_eq Ha].
    destruct (b64_decode_strict _) as [signature|] eqn:Eb; [|done]. apply guard_Ok in Ha as [Hs%negb_false_iff%Z.eqb_eq Ha].
    destruct (marshal (sj_Job signed)) as [jobRaw|] eqn:Em; [|done]. apply guard_Ok in Ha as [He%negb_false_iff Ha].
    destruct (validateJob _ _) as [[]|] eqn:Ev; [|done]. apply guard_Ok in Ha as [Hd%negb_false_iff%bool_decide_eq_true [= <-]].
    split; [pose proof (len_nonneg raw); lia| |done..]. exists signed, signature, jobRaw. done.
  - intros [Hl (signed & signature & jobRaw & Ed & Hv & <- & Eb & Hs & Em & He) Hval Hd]. split; [lia|].
    rewrite Ed, Hv, Eb, Hs, Em, He, Hval, bool_decide_eq_true_2 by done. done.
Qed.

(** A job is accepted when it is acceptable and its identifier is new, which is then used. *)
Lemma Verify_remote v raw snapshotDigest now j v' :
  Verify v raw snapshotDigest now = (Ok j, v') <->
  remote_acceptable (publicKey v) raw snapshotDigest now j /\ rj_JobID j ∉ used v /\ v' = mkVerifier (publicKey v) ({[rj_JobID j]} ∪ used v).
Proof.
  rewrite <- authenticate_remote. unfold Verify. destruct (authenticate _ _ _ _) as [j0|e]; [|split; [done|by intros [? _]]].
  case_bool_decide as Hu; split; [done|by intros ([= ->] & ? & _)|by intros [= <- <-]|by intros ([= ->] & _ & ->)].
Qed.

(** The texts of a job are valid UTF-8. *)
Definition job_text (j : Job) : Prop :=
  Forall (fun t => utf8_valid t = true)
    ([rj_JobID j; rj_WorkerType j; rj_RequestID j; rj_Principal j; rj_WorkspaceID j; rj_BridgeID j; rj_SessionID j; rj_ClientRequestID j;
      rj_ProfileName j; rj_ProfileSnapshotSHA256 j; rj_Operation j; rj_RemotePath j; rj_DestinationPath j; rj_ContentSHA256 j] ++
     default [] (rj_Argv j)).
Definition signed_text (s : SignedJob) : Prop := job_text (sj_Job s) /\ utf8_valid (sj_Signature s) = true.

(** A job that is valid stays so until it expires. *)
Lemma validateJob_later j now t : validateJob j now = Ok tt -> now <= t < rj_ExpiresAt j -> validateJob j t = Ok tt.
Proof.
  intros Hv Ht. unfold validateJob, before, after in *. apply guard_Ok in Hv as [-> Hv]. apply guard_Ok in Hv as [-> Hv].
  apply guard_Ok in Hv as [[Hz _]%orb_false_iff Hv]. apply guard_Ok in Hv as [Hx%Z.ltb_ge Hv]. apply guard_Ok in Hv as [Hl Hv].
  apply guard_Ok in Hv as [-> Hs]. rewrite Hl, Hz, Hs, (proj2 (Z.ltb_lt _ _)), (proj2 (Z.ltb_ge _ _)) by lia. done.
Qed.

Section laws.
Context {EL : Ed25519Laws} {JL : JsonLaws SignedJob signed_text}.
#[local] Set Default Proof Using "EL JL".

Lemma signed_job_acceptable seed j now text pk t :
  length seed = 32%nat -> Sign (ed_from_seed seed) j now = Ok text -> job_text j -> 0 < len text <= MaxSignedBytes ->
  pk = ed_public (ed_from_seed seed) -> now <= t < rj_ExpiresAt j -> remote_acceptable pk text (rj_ProfileSnapshotSHA256 j) t j.
Proof.
  intros Hseed Hs Ht Hl -> Htime. unfold Sign in Hs. apply bind_Ok in Hs as ([] & Hv & Hs). destruct (marshal j) as [jobRaw|] eqn:Em; [|done].
  destruct (marshal (mkSignedJob _ _ _)) as [txt|] eqn:Es; [|done]. injection Hs as ->.
  split; [done| |by eapply validateJob_later|done]. eexists. exists (ed_sign (ed_from_seed seed) (signed_message jobRaw)), jobRaw.
  split; [eapply decode_marshal; [|exact Es]; split; [done|apply b64_encode_valid]|]. do 2 (split; [done|]). split; [apply b64_decode_strict_encode|].
  split; [unfold len; by rewrite ed_sign_length by by apply ed_seed_length|]. split; [done|]. by apply ed_verify_sign.
Qed.

(** A job that the gateway signs is accepted until it expires by a worker that has its public
    key and the profile it names, in the same snapshot, and only once. *)
Theorem remote_job_accepted seed j now text v t :
  length seed = 32%nat -> Sign (ed_from_seed seed) j now = Ok text -> job_text j -> 0 < len text <= MaxSignedBytes ->
  publicKey v = ed_public (ed_from_seed seed) -> now <= t < rj_ExpiresAt j ->
  let '(first, v1) := Verify v text (rj_ProfileSnapshotSHA256 j) t in
  first = (if decide (rj_JobID j ∈ used v) then Err AlreadyUsed else Ok j) /\
  (Verify v1 text (rj_ProfileSnapshotSHA256 j) t).1 = Err AlreadyUsed.
Proof.
  intros Hseed Hs Ht Hl Hk Htime.
  assert (Ha : authenticate (publicKey v) text (rj_ProfileSnapshotSHA256 j) t = Ok j) by (apply authenticate_remote; by eapply signed_job_acceptable).
  unfold Verify at 1. rewrite Ha. case_bool_decide as Hu; [rewrite decide_True by done|rewrite decide_False by done]; (split; [done|]); unfold Verify; cbn [publicKey used]; rewrite Ha.
  - by rewrite bool_decide_eq_true_2.
  - rewrite bool_decide_eq_true_2; [done|set_solver].
Qed.
End laws.
End job.

(** ** Witnesses *)

Lemma quoted_argv_words_witness :
  exists command, QuoteArgv ["it's" : gostring; "$(reboot)" : gostring; [LF]] = Ok command /\
    posix_words command = Some ["it's" : gostring; "$(reboot)" : gostring; [LF]].
Proof. eexists. split; [vm_compute; reflexivity|]. apply quoted_argv_words. vm_compute. reflexivity. Defined.

Definition remote_digest : gostring := @CredentialStore.digest toy_crypto "snapshot".
Definition read_job : Job :=
  mkJob "j1" "remote" "r1" "p1" "w1" "b1" "s1" "q1" "prod" remote_digest "sftp_read" "/srv/a" [] (Some []) [] [] (mkLimits 100 100 0 1000) (20 * second).
Definition read_json : Json Job := one_json read_job.
Definition remote_seed : gostring := replicate 32 (byte_of 5).
Definition remote_key : gostring := @ed_from_seed toy_ed remote_seed.
Definition read_signature : gostring := b64_encode (@ed_sign toy_ed remote_key (signed_message "{}")).
Definition read_signed_json : Json SignedJob := one_json (mkSignedJob 1 read_job read_signature).
Definition remote_verifier : Verifier := mkVerifier (@ed_public toy_ed remote_key) ∅.
Definition read_verify := @Verify ascii_tables toy_crypto toy_ed read_json read_signed_json remote_verifier "{}" remote_digest second.

Lemma remote_job_accepted_witness : read_verify.1 = Ok read_job.
Proof.
  pose proof (@remote_job_accepted ascii_tables toy_crypto toy_ed read_json read_signed_json toy_ed_laws (one_json_laws _ _) remote_seed read_job 0 "{}"
    remote_verifier second) as Hw.
  unfold read_verify. destruct (Verify _ _ _ _) as [first v1] eqn:E. destruct Hw as [Hw _].
  - reflexivity.
  - vm_compute. reflexivity.
  - unfold job_text. repeat constructor.
  - split; vm_compute; [reflexivity|discriminate].
  - reflexivity.
  - split; vm_compute; [discriminate|reflexivity].
  - exact Hw.
Defined.

Lemma operation_allowed_exact_witness : operationAllowed read_job CredentialStore.sample_snapshot = Ok tt /\ allowed_by CredentialStore.sample_snapshot read_job.
Proof.
  assert (Ho : operationAllowed read_job CredentialStore.sample_snapshot = Ok tt) by (vm_compute; reflexivity).
  split; [exact Ho|]. apply operation_allowed_exact; [|exact Ho]. constructor; [|constructor]. split; [reflexivity|]. split; [|reflexivity].
  vm_compute. intros Hin. apply list_elem_of_In in Hin. repeat (destruct Hin as [Hin|Hin]; [discriminate|]). exact Hin.
Defined.
