(* ===== verification/RemoteService.v ===== *)
(** * The remote worker and its client ([internal/remoteworker/service.go], [client.go])

    A worker runs one job over SSH. What it asks of its surroundings, the clock, the sandbox, the
    SSH connection, the SFTP server, is a call; the worker is a tree of calls and answers, and
    the theorems hold for every server, whatever it answers and however it changes. *)
From S2P Require Import Prelude GoStrings Strconv Base64 Utf8 GoPath Token NetService NetPolicy CredentialStore RemoteJob.
#[local] Open Scope Z_scope.

(** ** Calls *)

(** A file as [Stat] and [ReadDir] describe it. *)
Record file_info := mkInfo { fi_Name : gostring; fi_Size : Z; fi_Mode : gostring; fi_Regular : bool; fi_ModTime : gotime }.

(** How a command ended: well, with a status, or with another error. *)
Inductive run_end := RunOk | RunExit (status : Z) | RunBroken.

(** The calls, with the types of their answers. [RunCommand] opens a session and runs a command;
    its answer is the writes that are made to the two outputs, in their order ([true] for the
    standard error), and its end. [ReadAll] is the bytes that reading a file gives, and whether it breaks
    off; [WriteFile] the number of bytes that are written, and whether there was no error. *)
Inductive call : Type -> Type :=
  | Now : call gotime
  | Lockdown : call bool
  | Dial (endpoint user : gostring) (keys : list gostring) (callback : HostKeyCallback) (deadline : gotime) : call bool
  | RunCommand (command : gostring) : call (option (list (bool * gostring) * run_end))
  | OpenSFTP : call bool
  | RealPath (path : gostring) : call (option gostring)
  | Stat (path : gostring) : call (option file_info)
  | ReadDir (path : gostring) : call (option (list file_info))
  | Open (path : gostring) : call (option nat)
  | ReadAll (file : nat) : call (gostring * bool)
  | OpenFile (path : gostring) : call (option nat)
  | WriteFile (file : nat) (data : gostring) : call (Z * bool)
  | CloseFile (file : nat) : call bool
  | Mkdir (path : gostring) : call bool
  | Rename (source destination : gostring) : call bool
  | CloseSFTP : call bool
  | CloseConnection : call bool.

Inductive op_error := LimitExceeded | OperationFailed.

(** A computation that makes calls, and may fail. *)
Inductive action (A : Type) : Type :=
  | Done (r : result op_error A)
  | Do {X : Type} (c : call X) (k : X -> action A).
Arguments Done {A} r.
Arguments Do {A X} c k.

Fixpoint handle {A B} (a : action A) (k : result op_error A -> action B) : action B :=
  match a with Done r => k r | Do c f => Do c (fun x => handle (f x) k) end.
#[export] Instance action_ret : MRet action := fun _ a => Done (Ok a).
#[export] Instance action_bind : MBind action := fun _ _ k a => handle a (fun r => match r with Ok x => k x | Err e => Done (Err e) end).
Definition fail {A} (e : op_error) : action A := Done (Err e).
Definition ask {X} (c : call X) : action X := Do c (fun x => mret x).

(** [defer]: the call is made last, whatever happens. *)
Definition finally {A X} (a : action A) (c : call X) : action A := handle a (fun r => Do c (fun _ => Done r)).

(** An answer that may be missing. *)
Definition need {X} (c : call (option X)) : action X := o ← ask c; match o with Some x => mret x | None => fail OperationFailed end.
Definition must (c : call bool) : action unit := b ← ask c; if (b : bool) then mret tt else fail OperationFailed.
Definition check {A} (r : result remote_error A) : action A := match r with Ok a => mret a | Err _ => fail OperationFailed end.

(** ** Responses *)

Record Entry := mkEntry { en_Name : gostring; en_Size : Z; en_Mode : gostring; en_ModTime : gotime }.
#[export] Instance Entry_eq_dec : EqDecision Entry.
Proof. solve_decision. Defined.
Record Response := mkResponse {
  rs_JobID : gostring; rs_Stdout : gostring; rs_Stderr : gostring; rs_ExitStatus : Z; rs_Entries : list Entry; rs_Content : gostring;
  rs_SHA256 : gostring; rs_Bytes : Z; rs_Error : gostring; rs_ErrorKind : gostring
}.
#[export] Instance Response_eq_dec : EqDecision Response.
Proof. solve_decision. Defined.

Definition failedResponse (jobID kind : gostring) : Response :=
  mkResponse jobID [] [] 0 [] [] [] 0 "remote worker operation failed" kind.

(** ** The output of a command *)

Record outputBudget := mkBudget { ob_remaining : Z; ob_exceeded : bool }.

(** [limitedOutput.Write]: the number it reports, whether it fails, the budget and the buffer. *)
Definition Write (b : outputBudget) (buffer value : gostring) : Z * bool * outputBudget * gostring :=
  if ob_remaining b <? len value then
    let allowed := ob_remaining b in
    (allowed, true, mkBudget 0 true, if 0 <? allowed then buffer ++ take (Z.to_nat allowed) value else buffer)
  else (len value, false, mkBudget (ob_remaining b - len value) (ob_exceeded b), buffer ++ value).

(** The writes of a command to its two outputs. *)
Fixpoint write_outputs (b : outputBudget) (stdout stderr : gostring) (writes : list (bool * gostring)) : outputBudget * gostring * gostring :=
  match writes with
  | [] => (b, stdout, stderr)
  | (true, v) :: writes => let '(_, _, b, stderr) := Write b stderr v in write_outputs b stdout stderr writes
  | (false, v) :: writes => let '(_, _, b, stdout) := Write b stdout v in write_outputs b stdout stderr writes
  end.

Section service.
Context `{UnicodeTables} `{Crypto} `{Ed25519} `{Json Snapshot} `{Json Job} `{Json SignedJob} `{Json (list Entry)}.

Definition Exec (argv : list gostring) (maxOutput : Z) : action (gostring * gostring * Z) :=
  command ← check (QuoteArgv argv);
  '(writes, ended) ← need (RunCommand command);
  let '(budget, stdout, stderr) := write_outputs (mkBudget maxOutput false) [] [] writes in
  if ob_exceeded budget then fail LimitExceeded
  else match ended with
       | RunBroken => fail OperationFailed
       | RunExit status => mret (stdout, stderr, status)
       | RunOk => mret (stdout, stderr, 0)
       end.

(** ** Files *)

Fixpoint canonicalSFTPRoots (roots : list gostring) : action (list gostring) :=
  match roots with
  | [] => mret []
  | root :: roots =>
      resolved ← need (RealPath root);
      if is_rooted resolved then canonical ← canonicalSFTPRoots roots; mret (clean resolved :: canonical) else fail OperationFailed
  end.

Definition secureExistingPath (requested : gostring) (canonicalRoots : list gostring) : action gostring :=
  resolved ← need (RealPath requested);
  _ ← check (authorizeResolvedPath (clean resolved) canonicalRoots);
  mret (clean resolved).

(** A path that does not resolve is created below its directory, if that one resolves. *)
Definition secureCreationPath (requested : gostring) (canonicalRoots : list gostring) : action gostring :=
  o ← ask (RealPath requested);
  match o with
  | Some resolved =>
      _ ← check (authorizeResolvedPath (clean resolved) canonicalRoots);
      mret (clean resolved)
  | None =>
      parent ← need (RealPath (path_dir requested));
      let resolved := path_join (clean parent) (base requested) in
      _ ← check (authorizeResolvedPath resolved canonicalRoots);
      mret resolved
  end.

Definition bare_response (j : Job) : Response := mkResponse (rj_JobID j) [] [] 0 [] [] [] 0 [] [].
Definition entry_of (i : file_info) : Entry := mkEntry (fi_Name i) (fi_Size i) (fi_Mode i) (fi_ModTime i).

Definition sftp_list (j : Job) (roots : list gostring) : action Response :=
  path ← secureExistingPath (rj_RemotePath j) roots;
  entries ← need (ReadDir path);
  if lm_MaxEntries (rj_Limits j) <? len entries then fail LimitExceeded
  else mret (mkResponse (rj_JobID j) [] [] 0 (entry_of <$> entries) [] [] 0 [] []).

(** [io.ReadAll] of a [LimitReader]: an error counts only when it comes before the limit. *)
Definition sftp_read (j : Job) (roots : list gostring) : action Response :=
  let max := lm_MaxFileBytes (rj_Limits j) in
  path ← secureExistingPath (rj_RemotePath j) roots;
  info ← need (Stat path);
  if max <? fi_Size info then fail LimitExceeded
  else if negb (fi_Regular info) then fail OperationFailed
  else
    file ← need (Open path);
    finally
      ('(data, broken) ← ask (ReadAll file);
       let content := take (Z.to_nat (max + 1)) data in
       if (broken : bool) && (len data <? max + 1) then fail OperationFailed
       else if max <? len content then fail LimitExceeded
       else mret (mkResponse (rj_JobID j) [] [] 0 [] content (digest content) (len content) [] []))
      (CloseFile file).

(** [io.Copy] from a reader of bytes writes once, and not at all when there are none; a short
    write is an error. *)
Definition sftp_write (j : Job) (roots : list gostring) : action Response :=
  path ← secureCreationPath (rj_RemotePath j) roots;
  file ← need (OpenFile path);
  '(written, fine) ← (if decide (rj_Content j = []) then mret (0, true) else ask (WriteFile file (rj_Content j)));
  closed ← ask (CloseFile file);
  if (fine : bool) && (closed : bool) && (written =? len (rj_Content j))
  then mret (mkResponse (rj_JobID j) [] [] 0 [] [] (rj_ContentSHA256 j) written [] [])
  else fail OperationFailed.

Definition sftp_mkdir (j : Job) (roots : list gostring) : action Response :=
  path ← secureCreationPath (rj_RemotePath j) roots;
  _ ← must (Mkdir path);
  mret (bare_response j).

Definition sftp_rename (j : Job) (roots : list gostring) : action Response :=
  source ← secureExistingPath (rj_RemotePath j) roots;
  destination ← secureCreationPath (rj_DestinationPath j) roots;
  _ ← must (Rename source destination);
  mret (bare_response j).

(** The response that comes with an error is not used. *)
Definition executeSFTP (j : Job) (s : Snapshot) : action Response :=
  roots ← canonicalSFTPRoots (default [] (sp_Roots (sn_SFTP s)));
  if decide (rj_Operation j = OperationSFTPList) then sftp_list j roots
  else if decide (rj_Operation j = OperationSFTPRead) then sftp_read j roots
  else if decide (rj_Operation j = OperationSFTPWrite) then sftp_write j roots
  else if decide (rj_Operation j = OperationSFTPMkdir) then sftp_mkdir j roots
  else if decide (rj_Operation j = OperationSFTPRename) then sftp_rename j roots
  else mret (bare_response j).

Definition enforceResponseLimit (j : Job) (r : Response) : action unit :=
  let max := lm_MaxOutputBytes (rj_Limits j) in
  if decide (rj_Operation j = OperationSSHExec) then mret tt
  else if max <? len (rs_Content r) then fail LimitExceeded
  else if decide (rs_Entries r = []) then mret tt
  else match marshal (rs_Entries r) with
       | None => fail LimitExceeded
       | Some raw => if max <? len raw then fail LimitExceeded else mret tt
       end.

(** ** A job *)

(** [networkConnector.Connect]. *)
Definition Connect (c : Credential) (deadline : gotime) : action unit :=
  now ← ask Now;
  match SSHClientConfig c now with
  | Err _ => fail OperationFailed
  | Ok (user, keys, callback) =>
      must (Dial (JoinHostPort (sn_Host (snapshot_of c)) (itoa (sn_Port (snapshot_of c)))) user keys callback deadline)
  end.

Definition sftp_operations : list gostring := [OperationSFTPList; OperationSFTPRead; OperationSFTPWrite; OperationSFTPMkdir; OperationSFTPRename].

(** The end of [Execute]: the failures of an operation are reported by their kind. *)
Definition report_operation (j : Job) (a : action Response) : action Response :=
  handle (r ← a; _ ← enforceResponseLimit j r; mret r) (fun r =>
    match r with
    | Ok r => mret r
    | Err LimitExceeded => mret (failedResponse (rj_JobID j) "limit_exceeded")
    | Err OperationFailed => mret (failedResponse (rj_JobID j) "operation_failed")
    end).

(** What runs on a connection. *)
Definition run_operation (j : Job) (s : Snapshot) : action Response :=
  if decide (rj_Operation j = OperationSSHExec) then
    report_operation j
      ('(stdout, stderr, status) ← Exec (default [] (rj_Argv j)) (lm_MaxOutputBytes (rj_Limits j));
       mret (mkResponse (rj_JobID j) stdout stderr status [] [] [] 0 [] []))
  else if decide (rj_Operation j ∈ sftp_operations) then
    opened ← ask OpenSFTP;
    if (opened : bool) then finally (report_operation j (executeSFTP j s)) CloseSFTP
    else mret (failedResponse (rj_JobID j) "sftp_unavailable")
  else report_operation j (fail OperationFailed).

(** [Service.Execute], after the job was verified. *)
Definition execute_job (c : Credential) (j : Job) : action Response :=
  let s := snapshot_of c in
  now ← ask Now;
  if negb (before now (sn_ExpiresAt s)) then mret (failedResponse (rj_JobID j) "profile_expired")
  else if negb (is_ok (operationAllowed j s)) then mret (failedResponse (rj_JobID j) "policy_denied")
  else
    locked ← ask Lockdown;
    if negb locked then mret (failedResponse (rj_JobID j) "sandbox_failed")
    else
      now ← ask Now;
      let deadline := now + lm_TimeoutMillis (rj_Limits j) * millisecond in
      let deadline := if before (rj_ExpiresAt j) deadline then rj_ExpiresAt j else deadline in
      handle (Connect c deadline) (fun r =>
        match r with
        | Err _ => mret (failedResponse (rj_JobID j) "connection_failed")
        | Ok _ => finally (run_operation j s) CloseConnection
        end).

Definition Execute (c : Credential) (v : Verifier) (signedJob : gostring) : action (Response * Verifier) :=
  match Digest (snapshot_of c) with
  | None => mret (failedResponse [] "authorization_failed", v)
  | Some snapshotDigest =>
      now ← ask Now;
      match Verify v signedJob snapshotDigest now with
      | (Err _, v) => mret (failedResponse [] "authorization_failed", v)
      | (Ok j, v) => r ← execute_job c j; mret (r, v)
      end
  end.
End service.

(** ** Running against a server *)

(** A call that was made, with its answer. *)
Inductive event := | Event {X : Type} (c : call X) (x : X).

(** A server answers every call, and changes. *)
Definition server (S : Type) : Type := forall X, call X -> S -> X * S.
Fixpoint run {S A} (serve : server S) (a : action A) (s : S) : list event * result op_error A * S :=
  match a with
  | Done r => ([], r, s)
  | Do c k => let '(x, s) := serve _ c s in let '(log, r, s) := run serve (k x) s in (Event c x :: log, r, s)
  end.

(** *** A logic for actions

    [safe P Q log a]: after the calls of [log], every call of [a] satisfies [P] of what went
    before it, and the result [Q] of all calls. *)
Fixpoint safe {A} (P : list event -> forall X, call X -> Prop) (Q : list event -> result op_error A -> Prop) (log : list event) (a : action A) : Prop :=
  match a with
  | Done r => Q log r
  | Do c k => P log _ c /\ forall x, safe P Q (log ++ [Event c x]) (k x)
  end.

Lemma cons_eq_inv {A} (x y : A) l k : x :: l = y :: k -> x = y /\ l = k.
Proof. by intros [= -> ->]. Qed.

Lemma safe_handle {A B} P (Q : list event -> result op_error B -> Prop) log (a : action A) k :
  safe P Q log (handle a k) <-> safe P (fun log r => safe P Q log (k r)) log a.
Proof.
  revert log. induction a as [r|X c f IH]; intros log; [done|]. cbn [handle safe]. apply and_iff_compat_l. by split; intros Hs x; apply IH.
Qed.

Lemma safe_mono {A} (P : list event -> forall X, call X -> Prop) (Q Q' : list event -> result op_error A -> Prop) log a :
  safe P Q log a -> (forall log' r, log `prefix_of` log' -> Q log' r -> Q' log' r) -> safe P Q' log a.
Proof.
  revert log. induction a as [r|X c f IH]; intros log; cbn [safe]; [intros Hq Hm; by apply Hm|]. intros [Hp Hs] Hm. split; [done|].
  intros x. apply IH; [done|]. intros log' r Hl. apply Hm. etrans; [|done]. by apply prefix_app_r.
Qed.

Lemma safe_then {A B} P (Q : list event -> result op_error B -> Prop) log (a : action A) k :
  safe P Q log (a ≫= k) <-> safe P (fun log r => match r with Ok x => safe P Q log (k x) | Err e => Q log (Err e) end) log a.
Proof.
  unfold mbind, action_bind. rewrite safe_handle.
  split; intros Hs; (eapply safe_mono; [exact Hs|]); by intros log' [x|e] _.
Qed.

Lemma safe_finally {A X} (P : list event -> forall X, call X -> Prop) (Q : list event -> result op_error A -> Prop) log (a : action A) (c : call X) :
  safe P (fun log r => P log _ c /\ forall x, Q (log ++ [Event c x]) r) log a -> safe P Q log (finally a c).
Proof. intros Hs. unfold finally. apply safe_handle. exact Hs. Qed.

(** What is safe for every answer is so in every run. *)
Lemma safe_run {S A} (serve : server S) P (Q : list event -> result op_error A -> Prop) a : forall past s log r s',
  safe P Q past a -> run serve a s = (log, r, s') ->
  Q (past ++ log) r /\ forall pre X (c : call X) x post, log = pre ++ Event c x :: post -> P (past ++ pre) X c.
Proof.
  induction a as [r0|X c f IH]; intros past s log r s'; cbn [safe run].
  - intros Hq [= <- <- <-]. rewrite app_nil_r. split; [done|]. by intros [].
  - intros [Hp Hs]. destruct (serve X c s) as [x s1]. destruct (run serve (f x) s1) as [[log1 r1] s2] eqn:Er. intros [= <- <- <-].
    destruct (IH x _ _ _ _ _ (Hs x) Er) as [Hq Hc]. rewrite <- app_assoc in Hq. split; [done|].
    intros [|e pre] Y d y post E; apply cons_eq_inv in E as [E El].
    + rewrite app_nil_r. change (match Event d y with Event c' _ => P past _ c' end). by rewrite <- E.
    + subst e. replace (past ++ Event c x :: pre) with ((past ++ [Event c x]) ++ pre) by by rewrite <- app_assoc. by eapply Hc.
Qed.

(** A condition on the calls so far that further calls keep may be assumed of every call. *)
Lemma safe_weaken {A} (R : list event -> Prop) (P P' : list event -> forall X, call X -> Prop) (Q Q' : list event -> result op_error A -> Prop) log a :
  (forall l e, R l -> R (l ++ [e])) -> R log -> (forall l X (c : call X), R l -> P l X c -> P' l X c) ->
  (forall l r, R l -> Q l r -> Q' l r) -> safe P Q log a -> safe P' Q' log a.
Proof.
  intros Hr Hlog Hp Hq. revert log Hlog. induction a as [r|X c f IH]; intros log Hlog; cbn [safe]; [by apply Hq|].
  intros [Hc Hs]. split; [by apply Hp|]. intros x. apply IH; [by apply Hr|done].
Qed.

(** *** The rules of the calls *)
Section rules.
Context {A B X : Type} (P : list event -> forall X, call X -> Prop) (Q : list event -> result op_error B -> Prop) (log : list event).

Lemma safe_ask (c : call X) (k : X -> action B) :
  P log _ c -> (forall x, safe P Q (log ++ [Event c x]) (k x)) -> safe P Q log (x ← ask c; k x).
Proof. by split. Qed.

Lemma safe_need (c : call (option X)) (k : X -> action B) :
  P log _ c -> Q (log ++ [Event c None]) (Err OperationFailed) -> (forall x, safe P Q (log ++ [Event c (Some x)]) (k x)) ->
  safe P Q log (x ← need c; k x).
Proof. intros Hc Hn Hs. split; [done|]. by intros [x|]. Qed.

Lemma safe_must (c : call bool) (k : unit -> action B) :
  P log _ c -> Q (log ++ [Event c false]) (Err OperationFailed) -> safe P Q (log ++ [Event c true]) (k tt) ->
  safe P Q log (x ← must c; k x).
Proof. intros Hc Hn Hs. split; [done|]. by intros []. Qed.

Lemma safe_check (r : result remote_error A) (k : A -> action B) :
  Q log (Err OperationFailed) -> (forall x, r = Ok x -> safe P Q log (k x)) -> safe P Q log (x ← check r; k x).
Proof. intros He Hs. destruct r as [x|e]; cbn; [by apply Hs|done]. Qed.
End rules.

Section worker.
Context `{UnicodeTables} `{Crypto} `{Ed25519} `{Json Snapshot} `{Json Job} `{Json SignedJob} `{Json (list Entry)}.

(** ** What the worker asks for *)

(** The roots, as the server resolved them. *)
Definition roots_resolved (log : list event) (roots canonical : list gostring) : Prop :=
  Forall2 (fun root c => exists r, Event (RealPath root) (Some r) ∈ log /\ is_rooted r = true /\ c = clean r) roots canonical.

(** A path that the server resolved below one of the roots that it resolved. *)
Definition inside_roots (s : Snapshot) (log : list event) (p : gostring) : Prop :=
  is_rooted p = true /\ clean p = p /\
  exists canonical, roots_resolved log (default [] (sp_Roots (sn_SFTP s))) canonical /\ within canonical p.

(** What a job may ask for. *)
Definition permitted (c : Credential) (j : Job) (log : list event) (X : Type) (x : call X) : Prop :=
  let s := snapshot_of c in
  match x with
  | Dial endpoint user keys callback deadline =>
      endpoint = JoinHostPort (sn_Host s) (itoa (sn_Port s)) /\ user = sn_User s /\ keys = cr_signers c /\
      cr_hostKeyCallback c = Some callback /\ deadline <= rj_ExpiresAt j
  | RunCommand command => rj_Operation j = OperationSSHExec /\ posix_words command = Some (default [] (rj_Argv j))
  | OpenSFTP | CloseSFTP => rj_Operation j ∈ sftp_operations
  | RealPath p =>
      rj_Operation j ∈ sftp_operations /\
      (p ∈ default [] (sp_Roots (sn_SFTP s)) \/
       p ∈ [rj_RemotePath j; rj_DestinationPath j; path_dir (rj_RemotePath j); path_dir (rj_DestinationPath j)])
  | ReadDir p => rj_Operation j = OperationSFTPList /\ inside_roots s log p
  | Stat p | Open p => rj_Operation j = OperationSFTPRead /\ inside_roots s log p
  | OpenFile p => rj_Operation j = OperationSFTPWrite /\ inside_roots s log p
  | WriteFile _ data => rj_Operation j = OperationSFTPWrite /\ data = rj_Content j
  | Mkdir p => rj_Operation j = OperationSFTPMkdir /\ inside_roots s log p
  | Rename p q => rj_Operation j = OperationSFTPRename /\ inside_roots s log p /\ inside_roots s log q
  | Now | Lockdown | ReadAll _ | CloseFile _ | CloseConnection => True
  end.

(** ** What a response reports *)

Definition output_of (stderr : bool) (writes : list (bool * gostring)) : gostring :=
  concat ((fun w => if Bool.eqb w.1 stderr then w.2 else []) <$> writes).
Definition status_of (e : run_end) : option Z := match e with RunOk => Some 0 | RunExit status => Some status | RunBroken => None end.

(** The result of a job, by its operation, in terms of what the server answered. *)
Definition reported (j : Job) (log : list event) (r : Response) : Prop :=
  let limits := rj_Limits j in
  rs_JobID r = rj_JobID j /\ rs_Error r = [] /\
  (rj_Operation j = OperationSSHExec ->
     exists command writes ended, posix_words command = Some (default [] (rj_Argv j)) /\
       Event (RunCommand command) (Some (writes, ended)) ∈ log /\ status_of ended = Some (rs_ExitStatus r) /\
       rs_Stdout r = output_of false writes /\ rs_Stderr r = output_of true writes /\
       len (rs_Stdout r) + len (rs_Stderr r) <= lm_MaxOutputBytes limits) /\
  (rj_Operation j = OperationSFTPList ->
     exists p infos, Event (ReadDir p) (Some infos) ∈ log /\ rs_Entries r = entry_of <$> infos /\ len infos <= lm_MaxEntries limits) /\
  (rj_Operation j = OperationSFTPRead ->
     exists p file data, Event (Open p) (Some file) ∈ log /\ Event (ReadAll file) (data, false) ∈ log /\
       rs_Content r = data /\ len data <= lm_MaxFileBytes limits /\ rs_Bytes r = len data /\ rs_SHA256 r = digest data) /\
  (rj_Operation j = OperationSFTPWrite ->
     exists p file, Event (OpenFile p) (Some file) ∈ log /\ Event (CloseFile file) true ∈ log /\ rs_Bytes r = len (rj_Content j) /\
       (rj_Content j = [] \/ Event (WriteFile file (rj_Content j)) (len (rj_Content j), true) ∈ log) /\ rs_SHA256 r = rj_ContentSHA256 j) /\
  (rj_Operation j = OperationSFTPMkdir -> exists p, Event (Mkdir p) true ∈ log) /\
  (rj_Operation j = OperationSFTPRename -> exists p q, Event (Rename p q) true ∈ log).

Lemma elem_of_extend (e d : event) l : e ∈ l -> e ∈ l ++ [d].
Proof. rewrite elem_of_app. auto. Qed.
Lemma elem_of_last (e : event) l : e ∈ l ++ [e].
Proof. apply elem_of_app. right. by left. Qed.
#[local] Hint Resolve elem_of_extend elem_of_last : core.

Lemma roots_resolved_extend l e roots canonical : roots_resolved l roots canonical -> roots_resolved (l ++ [e]) roots canonical.
Proof. intros Hf. eapply Forall2_impl; [exact Hf|]. intros root c (r & ? & ? & ?). exists r. auto. Qed.
Lemma inside_roots_extend s l e p : inside_roots s l p -> inside_roots s (l ++ [e]) p.
Proof. intros (? & ? & canonical & ? & ?). split; [done|]. split; [done|]. exists canonical. eauto using roots_resolved_extend. Qed.
#[local] Hint Resolve roots_resolved_extend inside_roots_extend : core.

(** The budget is shared: what is kept of the two outputs is within it, and all of them unless it
    was exceeded. *)
Lemma write_outputs_spec writes : forall m x stdout stderr b stdout' stderr', 0 <= m ->
  write_outputs (mkBudget m x) stdout stderr writes = (b, stdout', stderr') ->
  0 <= ob_remaining b /\ len stdout' + len stderr' <= m + len stdout + len stderr /\
  (ob_exceeded b = false -> x = false /\ stdout' = stdout ++ output_of false writes /\ stderr' = stderr ++ output_of true writes).
Proof.
  induction writes as [|[e v] writes IH]; intros m x stdout stderr b stdout' stderr' Hm; cbn [write_outputs].
  { intros [= <- <- <-]. cbn. rewrite !app_nil_r. split; [done|]. split; [lia|done]. }
  pose proof (len_nonneg v). unfold Write. cbn [ob_remaining ob_exceeded].
  assert (Ho : output_of e ((e, v) :: writes) = v ++ output_of e writes /\ output_of (negb e) ((e, v) :: writes) = output_of (negb e) writes) by (by destruct e).
  destruct (Z.ltb_spec m (len v)) as [Hl|Hl].
  - cbn iota zeta beta. assert (Ht : forall o : gostring, len (if 0 <? m then o ++ take (Z.to_nat m) v else o) <= len o + m).
    { intros o. destruct (Z.ltb_spec 0 m); [|lia]. rewrite len_app. unfold len in *. rewrite length_take. lia. }
    destruct e; intros E; apply IH in E as (Hb & Hle & Hx); try lia; specialize (Ht stdout) as Ht1; specialize (Ht stderr) as Ht2;
      (split; [done|]; split; [lia|]; by intros [? _]%Hx).
  - destruct e; intros E; apply IH in E as (Hb & Hle & Hx); try lia; rewrite len_app in Hle; (split; [done|]; split; [lia|]);
      intros (Hx1 & -> & ->)%Hx; cbn [negb] in Ho; destruct Ho as [-> ->]; rewrite <- ?app_assoc; done.
Qed.

(** ** The parts of the worker *)

Definition ok_or {A} (Q : list event -> A -> Prop) (log : list event) (r : result op_error A) : Prop :=
  match r with Ok x => Q log x | Err _ => True end.

Lemma roots_resolved_clean log roots canonical : roots_resolved log roots canonical -> Forall clean_root canonical.
Proof.
  induction 1 as [|root c roots canonical (r & _ & Hr & ->) _ IH]; constructor; [|done]. split; [by rewrite is_rooted_clean|apply clean_idemp].
Qed.

Section operation.
Context (c : Credential) (j : Job).
Abbreviation s := (snapshot_of c).
Abbreviation roots := (default [] (sp_Roots (sn_SFTP s))).

Lemma canonical_roots_safe (sub : list gostring) log :
  rj_Operation j ∈ sftp_operations -> (forall r, r ∈ sub -> r ∈ roots) ->
  safe (permitted c j) (ok_or (fun log canonical => roots_resolved log sub canonical)) log (canonicalSFTPRoots sub).
Proof.
  intros Hop. revert log. induction sub as [|root sub IH]; intros log Hsub; [constructor|]. cbn [canonicalSFTPRoots].
  apply safe_need; [split; [done|]; left; apply Hsub; by left|done|]. intros r. destruct (is_rooted r) eqn:Er; [|done].
  apply safe_then. eapply (safe_weaken (fun l => Event (RealPath root) (Some r) ∈ l)); [..|apply (IH (log ++ [Event (RealPath root) (Some r)]))]; auto.
  - intros l [canonical|e] Hl; [|done]. intros Hf. constructor; [|exact Hf]. by exists r.
  - intros x Hx. apply Hsub. by right.
Qed.

Context (canonical : list gostring).

Lemma existing_path_safe {B} p (k : gostring -> action B) (Q : list event -> result op_error B -> Prop) log :
  rj_Operation j ∈ sftp_operations -> p ∈ [rj_RemotePath j; rj_DestinationPath j] -> roots_resolved log roots canonical ->
  (forall l e, Q l (Err e)) ->
  (forall log' q, roots_resolved log' roots canonical -> (forall x, inside_roots s log x -> inside_roots s log' x) -> inside_roots s log' q ->
     safe (permitted c j) Q log' (k q)) ->
  safe (permitted c j) Q log (q ← secureExistingPath p canonical; k q).
Proof.
  intros Hop Hp Hr He Hk. unfold secureExistingPath. apply safe_then, safe_need; [|apply He|].
  { split; [done|]. right. clear -Hp. set_solver. }
  intros r. apply safe_check; [apply He|]. intros [] (Hrr & Hw)%authorizeResolvedPath_Ok; [|by eapply roots_resolved_clean|apply clean_idemp].
  apply Hk; auto. split; [done|]. split; [apply clean_idemp|]. exists canonical. auto.
Qed.

Lemma path_join_clean a b : clean (path_join (clean a) b) = path_join (clean a) b.
Proof. unfold path_join. rewrite decide_False by apply clean_nonempty. apply clean_idemp. Qed.

Lemma creation_path_safe {B} p (k : gostring -> action B) (Q : list event -> result op_error B -> Prop) log :
  rj_Operation j ∈ sftp_operations -> p ∈ [rj_RemotePath j; rj_DestinationPath j] -> roots_resolved log roots canonical ->
  (forall l e, Q l (Err e)) ->
  (forall log' q, (forall x, inside_roots s log x -> inside_roots s log' x) -> inside_roots s log' q -> safe (permitted c j) Q log' (k q)) ->
  safe (permitted c j) Q log (q ← secureCreationPath p canonical; k q).
Proof.
  intros Hop Hp Hr He Hk. unfold secureCreationPath. apply safe_then, safe_ask.
  { split; [done|]. right. clear -Hp. set_solver. }
  intros [r|].
  - apply safe_check; [apply He|]. intros [] (Hrr & Hw)%authorizeResolvedPath_Ok; [|by eapply roots_resolved_clean|apply clean_idemp].
    apply Hk; auto. split; [done|]. split; [apply clean_idemp|]. exists canonical. auto.
  - apply safe_need; [|apply He|].
    { split; [done|]. right. clear -Hp. set_solver. }
    intros r. apply safe_check; [apply He|]. intros [] (Hrr & Hw)%authorizeResolvedPath_Ok; [|by eapply roots_resolved_clean|apply path_join_clean].
    apply Hk; auto. split; [done|]. split; [apply path_join_clean|]. exists canonical. auto.
Qed.

Lemma sftp_list_safe log :
  rj_Operation j = OperationSFTPList -> roots_resolved log roots canonical ->
  safe (permitted c j) (ok_or (reported j)) log (sftp_list j canonical).
Proof.
  intros Hop Hr. unfold sftp_list. apply existing_path_safe; [rewrite Hop; set_solver|left|done|done|]. intros log' p Hr' Hx Hin.
  apply safe_need; [done|done|]. intros infos. destruct (Z.ltb_spec (lm_MaxEntries (rj_Limits j)) (len infos)); [done|].
  unfold reported. cbn. rewrite Hop. repeat (split; [done|]). split; [|done]. intros _. exists p, infos. auto.
Qed.

Lemma sftp_read_safe log :
  rj_Operation j = OperationSFTPRead -> roots_resolved log roots canonical ->
  safe (permitted c j) (ok_or (reported j)) log (sftp_read j canonical).
Proof.
  intros Hop Hr. unfold sftp_read. apply existing_path_safe; [rewrite Hop; set_solver|left|done|done|]. intros log' p Hr' Hx Hin.
  apply safe_need; [done|done|]. intros info. destruct (_ <? fi_Size info); [done|]. destruct (negb _); [done|].
  apply safe_need; [cbn; auto|done|]. intros file. apply safe_finally. apply safe_ask; [done|]. intros [data broken].
  set (max := lm_MaxFileBytes (rj_Limits j)). destruct (broken && _) eqn:Eb; [done|].
  destruct (Z.ltb_spec max (len (take (Z.to_nat (max + 1)) data))) as [|Hl]; [done|]. split; [done|]. intros closed.
  assert (Ht : take (Z.to_nat (max + 1)) data = data /\ len data <= max).
  { pose proof (len_nonneg (take (Z.to_nat (max + 1)) data)). unfold len in *. rewrite length_take in *. split; [apply take_ge|]; lia. }
  destruct Ht as [-> Hd]. assert (broken = false) as ->.
  { destruct broken; [|done]. cbn in Eb. apply Z.ltb_ge in Eb. lia. }
  unfold reported. cbn. rewrite Hop. repeat (split; [done|]). split; [|done]. intros _. exists p, file, data.
  split; [apply elem_of_app; left; apply elem_of_app; left; auto|]. split; [auto|]. done.
Qed.

Lemma sftp_write_safe log :
  rj_Operation j = OperationSFTPWrite -> roots_resolved log roots canonical ->
  safe (permitted c j) (ok_or (reported j)) log (sftp_write j canonical).
Proof.
  intros Hop Hr. unfold sftp_write. apply creation_path_safe; [rewrite Hop; set_solver|left|done|done|]. intros log' p Hx Hin.
  apply safe_need; [done|done|]. intros file. apply safe_then.
  assert (Hend : forall l written fine, Event (OpenFile p) (Some file) ∈ l ->
    (rj_Content j = [] /\ written = 0 \/ Event (WriteFile file (rj_Content j)) (written, fine) ∈ l) ->
    safe (permitted c j) (ok_or (reported j)) l
      (closed ← ask (CloseFile file);
       if (fine : bool) && (closed : bool) && (written =? len (rj_Content j))
       then mret (mkResponse (rj_JobID j) [] [] 0 [] [] (rj_ContentSHA256 j) written [] []) else fail OperationFailed)).
  { intros l written fine Ho Hw. apply safe_ask; [done|]. intros closed. destruct (fine && closed && _) eqn:E; [|done].
    rewrite !andb_true_iff, Z.eqb_eq in E. destruct E as [[-> ->] ->]. unfold reported. cbn. rewrite Hop. repeat (split; [done|]). split; [|done].
    intros _. exists p, file. split; [auto|]. split; [auto|]. split; [done|]. split; [|done]. destruct Hw as [[? _]|?]; auto. }
  case_decide as Hc; [apply (Hend _ 0 true); auto|]. split; [done|]. intros [written fine]. apply Hend; auto.
Qed.

Lemma sftp_mkdir_safe log :
  rj_Operation j = OperationSFTPMkdir -> roots_resolved log roots canonical ->
  safe (permitted c j) (ok_or (reported j)) log (sftp_mkdir j canonical).
Proof.
  intros Hop Hr. unfold sftp_mkdir. apply creation_path_safe; [rewrite Hop; set_solver|left|done|done|]. intros log' p Hx Hin.
  apply safe_must; [done|done|]. unfold reported. cbn. rewrite Hop. repeat (split; [done|]). split; [|done]. intros _. exists p. auto.
Qed.

Lemma sftp_rename_safe log :
  rj_Operation j = OperationSFTPRename -> roots_resolved log roots canonical ->
  safe (permitted c j) (ok_or (reported j)) log (sftp_rename j canonical).
Proof.
  intros Hop Hr. unfold sftp_rename. apply existing_path_safe; [rewrite Hop; set_solver|left|done|done|]. intros log1 p Hr1 _ Hp.
  apply creation_path_safe; [rewrite Hop; set_solver|right; left|done|done|]. intros log2 q Hx Hq.
  apply safe_must; [cbn; auto|done|]. unfold reported. cbn. rewrite Hop. repeat (split; [done|]). intros _. exists p, q. auto.
Qed.
End operation.

Lemma executeSFTP_safe c j log :
  rj_Operation j ∈ sftp_operations -> safe (permitted c j) (ok_or (reported j)) log (executeSFTP j (snapshot_of c)).
Proof.
  intros Hop. unfold executeSFTP. apply safe_then. eapply safe_mono; [by apply canonical_roots_safe|]. intros log' [canonical|e] _ Hr; [|done].
  cbn in Hr. case_decide as Hl; [by apply sftp_list_safe|]. case_decide as Hrd; [by apply sftp_read_safe|].
  case_decide as Hw; [by apply sftp_write_safe|]. case_decide as Hm; [by apply sftp_mkdir_safe|]. case_decide as Hrn; [by apply sftp_rename_safe|].
  exfalso. apply list_elem_of_In in Hop. cbn in Hop. intuition congruence.
Qed.

Lemma Exec_safe c j log :
  rj_Operation j = OperationSSHExec -> 0 <= lm_MaxOutputBytes (rj_Limits j) ->
  safe (permitted c j) (ok_or (reported j)) log
    ('(stdout, stderr, status) ← Exec (default [] (rj_Argv j)) (lm_MaxOutputBytes (rj_Limits j));
     mret (mkResponse (rj_JobID j) stdout stderr status [] [] [] 0 [] [])).
Proof.
  intros Hop Hm. apply safe_then. unfold Exec. apply safe_check; [done|]. intros command Hq.
  pose proof (quoted_words _ _ Hq) as Hw. apply safe_need; [done|done|]. intros [writes ended].
  destruct (write_outputs _ _ _ _) as [[b stdout] stderr] eqn:Eo. apply write_outputs_spec in Eo as (_ & Hle & Hx); [|done].
  destruct (ob_exceeded b); [done|]. destruct (Hx eq_refl) as (_ & -> & ->).
  assert (Hs : forall status, status_of ended = Some status -> reported j (log ++ [Event (RunCommand command) (Some (writes, ended))])
    (mkResponse (rj_JobID j) (output_of false writes) (output_of true writes) status [] [] [] 0 [] [])).
  { intros status Hs. unfold reported. cbn. rewrite Hop. repeat (split; [done|]). split; [|done]. intros _. exists command, writes, ended.
    cbn in Hle. split; [done|]. split; [auto|]. split; [done|]. split; [done|]. split; [done|]. rewrite !Z.add_0_r in Hle. done. }
  destruct ended; cbn; [by apply Hs|by apply Hs|done].
Qed.

(** ** A job *)

(** What [Execute] gives for a job: a result as it reports it, or a failure that tells only its kind. *)
Definition outcome (j : Job) (log : list event) (r : Response) : Prop :=
  reported j log r \/ exists kind, r = failedResponse (rj_JobID j) kind.
Definition answered (j : Job) (log : list event) (r : result op_error Response) : Prop := exists x, r = Ok x /\ outcome j log x.

Lemma reported_extend j log e r : reported j log r -> reported j (log ++ [e]) r.
Proof.
  intros (? & ? & Hx & Hl & Hr & Hw & Hm & Hn). split; [done|]. split; [done|].
  split; [intros Ho; destruct (Hx Ho) as (cmd & ws & en & ? & ? & ?); exists cmd, ws, en; auto|].
  split; [intros Ho; destruct (Hl Ho) as (p & infos & ? & ?); exists p, infos; auto|].
  split; [intros Ho; destruct (Hr Ho) as (p & file & data & ? & ? & ?); exists p, file, data; auto|].
  split; [intros Ho; destruct (Hw Ho) as (p & file & ? & ? & ? & Hc & ?); exists p, file; repeat split; auto; destruct Hc; auto|].
  split; [intros Ho; destruct (Hm Ho) as (p & ?); exists p; auto|].
  intros Ho; destruct (Hn Ho) as (p & q & ?); exists p, q; auto.
Qed.

Lemma answered_extend j log e r : answered j log r -> answered j (log ++ [e]) r.
Proof. intros (x & -> & [Hr|Hf]); exists x; (split; [done|]); [left; by apply reported_extend|by right]. Qed.

Lemma answered_failed j log kind : answered j log (Ok (failedResponse (rj_JobID j) kind)).
Proof. eexists. split; [done|]. right. by exists kind. Qed.
#[local] Hint Resolve answered_extend answered_failed : core.

Lemma enforce_cases j r : enforceResponseLimit j r = mret tt \/ enforceResponseLimit j r = fail LimitExceeded.
Proof. unfold enforceResponseLimit. repeat case_match; auto. Qed.

Lemma report_safe P j log a :
  safe P (ok_or (reported j)) log a -> safe P (answered j) log (report_operation j a).
Proof.
  intros Hs. unfold report_operation. apply safe_handle, safe_then. eapply safe_mono; [exact Hs|]. intros log' [r|e] _ Hr; [|by destruct e; cbn].
  cbn in Hr. destruct (enforce_cases j r) as [-> | ->]; cbn; [|done]. exists r. split; [done|]. by left.
Qed.

Lemma run_operation_safe c j log :
  0 <= lm_MaxOutputBytes (rj_Limits j) -> safe (permitted c j) (answered j) log (run_operation j (snapshot_of c)).
Proof.
  intros Hm. unfold run_operation. case_decide as Hx; [by apply report_safe, Exec_safe|]. case_decide as Hop; [|by apply report_safe].
  apply safe_ask; [done|]. intros [|]; [|by cbn]. apply safe_finally. eapply safe_mono; [by apply report_safe, executeSFTP_safe|].
  intros log' r _ Hr. split; [done|]. auto.
Qed.

Lemma Connect_safe c j deadline log :
  deadline <= rj_ExpiresAt j -> safe (permitted c j) (fun _ _ => True) log (Connect c deadline).
Proof.
  intros Hd. unfold Connect. apply safe_ask; [done|]. intros now. destruct (SSHClientConfig c now) as [[[user keys] callback]|e] eqn:Ec; [|done].
  split; [|by intros []]. unfold SSHClientConfig in Ec. do 2 apply guard_Ok in Ec as [_ Ec]. apply bind_Ok in Ec as (_ & _ & Ec).
  destruct (cr_hostKeyCallback c) as [cb|] eqn:Ek; [|done]. injection Ec as <- <- <-. cbn. done.
Qed.

(** A job that the worker verified, in its profile's time, and that the profile allows. *)
Definition admitted (c : Credential) (v : Verifier) (raw : gostring) (log : list event) (j : Job) (v' : Verifier) : Prop :=
  exists snapshotDigest now, Digest (snapshot_of c) = Some snapshotDigest /\ Event Now now ∈ log /\ Verify v raw snapshotDigest now = (Ok j, v').
Definition in_force (c : Credential) (log : list event) (j : Job) : Prop :=
  (exists now, Event Now now ∈ log /\ now < sn_ExpiresAt (snapshot_of c)) /\ operationAllowed j (snapshot_of c) = Ok tt.

(** What may be asked for, and when: the clock at any time; the sandbox for a job that is
    admitted and in force; everything else when the sandbox is there, too. *)
Definition authorised (c : Credential) (v : Verifier) (raw : gostring) (log : list event) (X : Type) (x : call X) : Prop :=
  match x with
  | Now => True
  | Lockdown => exists j v', admitted c v raw log j v' /\ in_force c log j
  | _ => exists j v', admitted c v raw log j v' /\ in_force c log j /\ Event Lockdown true ∈ log /\ permitted c j log X x
  end.

Lemma admitted_extend c v raw log e j v' : admitted c v raw log j v' -> admitted c v raw (log ++ [e]) j v'.
Proof. intros (d & now & ? & ? & ?). exists d, now. auto. Qed.
Lemma in_force_extend c log e j : in_force c log j -> in_force c (log ++ [e]) j.
Proof. intros [(now & ? & ?) ?]. split; [exists now; auto|done]. Qed.
#[local] Hint Resolve admitted_extend in_force_extend : core.

Definition ready (c : Credential) (v : Verifier) (raw : gostring) (j : Job) (v' : Verifier) (log : list event) : Prop :=
  admitted c v raw log j v' /\ in_force c log j /\ Event Lockdown true ∈ log.

Lemma safe_ready {A} c v raw j v' log (Q Q' : list event -> result op_error A -> Prop) a :
  ready c v raw j v' log -> (forall l r, ready c v raw j v' l -> Q l r -> Q' l r) ->
  safe (permitted c j) Q log a -> safe (authorised c v raw) Q' log a.
Proof.
  intros Hr Hq. apply (safe_weaken (ready c v raw j v')); [|done| |done].
  - intros l e (? & ? & ?). split; [auto|]. split; [by apply in_force_extend|auto].
  - intros l X x (Ha & Hf & Hl) Hp. destruct x; cbn; eauto 10.
Qed.

Lemma execute_job_safe c v raw log j v' :
  admitted c v raw log j v' -> 0 <= lm_MaxOutputBytes (rj_Limits j) ->
  safe (authorised c v raw) (answered j) log (execute_job c j).
Proof.
  intros Ha Hm. unfold execute_job. apply safe_ask; [done|]. intros now. destruct (before now _) eqn:Et; [|by cbn]. apply Z.ltb_lt in Et. cbn [negb].
  destruct (operationAllowed j (snapshot_of c)) as [[]|] eqn:Eo; [|by cbn]. cbn [is_ok negb].
  assert (Hf : in_force c (log ++ [Event Now now]) j) by (split; [exists now; auto|done]).
  apply safe_ask; [cbn; eauto|]. intros [|]; [|by cbn]. cbn [negb]. apply safe_ask; [done|]. intros now2. apply safe_handle.
  set (log1 := ((log ++ _) ++ _) ++ _). assert (Hready : ready c v raw j v' log1) by (unfold log1; split; [auto|]; split; [auto|]; auto).
  eapply (safe_ready c v raw j v' _ (fun _ _ => True)); [done| |apply Connect_safe].
  - intros l [[]|e] Hl _; [|by cbn]. apply safe_finally. eapply (safe_ready c v raw j v'); [exact Hl| |by apply run_operation_safe].
    intros l' r (? & ? & ?) Hr. split; [cbn; eauto 10|]. auto.
  - unfold before. destruct (Z.ltb_spec (rj_ExpiresAt j) (now2 + lm_TimeoutMillis (rj_Limits j) * millisecond)); lia.
Qed.

Lemma validateJob_output j now : validateJob j now = Ok tt -> 0 <= lm_MaxOutputBytes (rj_Limits j).
Proof.
  unfold validateJob. intros Hv. do 4 apply guard_Ok in Hv as [_ Hv]. apply guard_Ok in Hv as [Hl _]. rewrite !orb_false_iff, Z.leb_gt in Hl. lia.
Qed.

(** What a run of [Execute] ends with. *)
Definition concluded (c : Credential) (v : Verifier) (raw : gostring) (log : list event) (r : result op_error (Response * Verifier)) : Prop :=
  r = Ok (failedResponse [] "authorization_failed", v) \/
  exists j v' x, r = Ok (x, v') /\ admitted c v raw log j v' /\ outcome j log x.

Lemma Execute_safe c v raw : safe (authorised c v raw) (concluded c v raw) [] (Execute c v raw).
Proof.
  unfold Execute. destruct (Digest (snapshot_of c)) as [d|] eqn:Ed; [|by left]. apply safe_ask; [done|]. intros now.
  destruct (Verify v raw d now) as [[j|e] v'] eqn:Ev.
  - assert (Ha : admitted c v raw [Event Now now] j v') by (exists d, now; repeat split; auto; by left).
    pose proof Ev as (Hacc & _)%Verify_remote. apply safe_then.
    eapply (safe_weaken (fun l => admitted c v raw l j v')); [auto|exact Ha|done| |eapply execute_job_safe; [exact Ha|by eapply validateJob_output, ra_valid]].
    intros l r Hl (x & -> & Ho). right. by exists j, v', x.
  - left. assert (v' = v) as ->; [|done]. unfold Verify in Ev. destruct (authenticate _ _ _ _); [case_bool_decide|]; congruence.
Qed.


(** A worker always answers. Its answer is a refusal that leaves it as it was, or belongs to a job
    that it has verified, and used up; and then it is a failure of some kind, or the result of
    the operation: what the server answered, whole and within the limits of the job. *)
Theorem remote_response_reported {S} (serve : server S) c v raw s log r s' :
  run serve (Execute c v raw) s = (log, r, s') ->
  exists x v', r = Ok (x, v') /\
    (x = failedResponse [] "authorization_failed" /\ v' = v \/
     exists j, admitted c v raw log j v' /\ rj_JobID j ∉ used v /\ v' = mkVerifier (publicKey v) ({[rj_JobID j]} ∪ used v) /\ outcome j log x).
Proof.
  intros Hr. destruct (safe_run serve _ _ _ [] _ _ _ _ (Execute_safe c v raw) Hr) as [[->|(j & v' & x & -> & Ha & Ho)] _].
  - eauto 10.
  - exists x, v'. split; [done|]. right. exists j. split; [done|]. destruct Ha as (d & now & _ & _ & Hv). apply Verify_remote in Hv as (_ & ? & ?). done.
Qed.
End worker.

(** ** The client ([client.go]) *)

Definition maxWorkerResponseBytes : Z := Z.shiftl 16 20.

Record Request := mkRequest {
  rq_RequestID : gostring; rq_Principal : gostring; rq_WorkspaceID : gostring; rq_BridgeID : gostring; rq_SessionID : gostring;
  rq_ClientRequestID : gostring; rq_ProfileName : gostring; rq_Operation : gostring; rq_RemotePath : gostring; rq_DestinationPath : gostring;
  rq_Argv : list gostring; rq_Content : gostring; rq_Limits : Limits
}.

(** [boundedBuffer]. *)
Record boundedBuffer := mkBounded { bb_buffer : gostring; bb_limit : Z; bb_exceeded : bool }.

(** [Write] reports every byte as written, whatever it keeps. *)
Definition bounded_Write (b : boundedBuffer) (value : gostring) : Z * boundedBuffer :=
  let remaining := bb_limit b - len (bb_buffer b) in
  if remaining <=? 0 then (len value, mkBounded (bb_buffer b) (bb_limit b) true)
  else if remaining <? len value
  then (len value, mkBounded (bb_buffer b ++ take (Z.to_nat remaining) value) (bb_limit b) true)
  else (len value, mkBounded (bb_buffer b ++ value) (bb_limit b) (bb_exceeded b)).

(** What a process writes, in pieces. *)
Definition collect (limit : Z) (values : list gostring) : boundedBuffer :=
  fold_left (fun b v => (bounded_Write b v).2) values (mkBounded [] limit false).

Inductive client_error :=
  | ContextDone | ScopeIncomplete | ProfileUnavailable (e : cred_error) | SnapshotFailed | NotSigned (e : remote_error) | NoPipe
  | AgentNotPrepared | NoDirectory | NotStarted | NotDelivered | OutputExceeded | WorkerTimedOut | WorkerCanceled | WorkerFailed
  | InvalidResponse | ResponseMismatch | RemoteError (kind : gostring).

(** The system that a worker is started on: whether there is a pipe and a directory; and a start
    of the worker, with the job on its input and the agent it inherits, which may fail, or takes a
    number of bytes of the envelope and ends in some way, given those bytes. *)
Record launcher := mkLauncher {
  la_pipe : bool; la_directory : bool; la_start : gostring -> option agent_conn -> option (Z * (gostring -> process_end))
}.

Section client.
Context `{UnicodeTables} `{Crypto} `{Ed25519} `{Ssh} `{Json Snapshot} `{Json envelopeHeader} `{Json Job} `{Json SignedJob}.
Context (decode_response : gostring -> option Response).

Definition scope_incomplete (r : Request) : bool :=
  bool_decide (rq_RequestID r = []) || bool_decide (rq_Principal r = []) || bool_decide (rq_WorkspaceID r = []) ||
  bool_decide (rq_BridgeID r = []) || bool_decide (rq_SessionID r = []) || bool_decide (rq_ClientRequestID r = []).

(** The job of a request; it expires with the profile. *)
Definition job_for (r : Request) (s : Snapshot) (snapshotDigest jobID : gostring) (now : gotime) : Job :=
  let expiresAt := now + 30 * second in
  mkJob jobID WorkerType (rq_RequestID r) (rq_Principal r) (rq_WorkspaceID r) (rq_BridgeID r) (rq_SessionID r) (rq_ClientRequestID r)
    (rq_ProfileName r) snapshotDigest (rq_Operation r) (rq_RemotePath r) (rq_DestinationPath r) (Some (rq_Argv r)) (rq_Content r)
    (if decide (rq_Operation r = OperationSFTPWrite) then digest (rq_Content r) else []) (rq_Limits r)
    (if before (sn_ExpiresAt s) expiresAt then sn_ExpiresAt s else expiresAt).

Definition failed (e : client_error) : option Response * option client_error := (None, Some e).

(** What the client makes of the end of its worker. *)
Definition worker_result (j : Job) (delivered : bool) (e : process_end) : option Response * option client_error :=
  let stdout := collect maxWorkerResponseBytes (pe_Stdout e) in
  let stderr := collect (Z.shiftl 16 10) (pe_Stderr e) in
  if negb delivered then failed NotDelivered
  else if bb_exceeded stdout || bb_exceeded stderr then failed OutputExceeded
  else match pe_Failure e with
       | Some RunTimedOut => failed WorkerTimedOut
       | Some RunCanceled => failed WorkerCanceled
       | Some (RunFailed _) => failed WorkerFailed
       | None =>
           match decode_response (bb_buffer stdout) with
           | None => failed InvalidResponse
           | Some response =>
               if negb (bool_decide (rs_JobID response = rj_JobID j)) then failed ResponseMismatch
               else if negb (bool_decide (rs_Error response = [])) then (Some response, Some (RemoteError (rs_ErrorKind response)))
               else (Some response, None)
           end
       end.

(** [ProcessExecutor.Execute], for the credential that is loaded. The clock is read to load the
    profile, to build the job and to sign it, in this order. *)
Definition client_Execute (ctx_done : bool) (loaded : result cred_error Credential) (privateKey randomID : gostring) (la : launcher)
    (r : Request) (now now' : gotime) : option Response * option client_error :=
  if ctx_done then failed ContextDone
  else if scope_incomplete r then failed ScopeIncomplete
  else match loaded with
       | Err e => failed (ProfileUnavailable e)
       | Ok c =>
           match SnapshotDigest c with
           | None => failed SnapshotFailed
           | Some snapshotDigest =>
               let j := job_for r (snapshot_of c) snapshotDigest randomID now in
               match Sign privateKey j now' with
               | Err e => failed (NotSigned e)
               | Ok signedJob =>
                   if negb (la_pipe la) then failed NoPipe
                   else match DuplicateAgentFile c with
                        | Err _ => failed AgentNotPrepared
                        | Ok agent =>
                            if negb (la_directory la) then failed NoDirectory
                            else match la_start la signedJob agent with
                                 | None => failed NotStarted
                                 | Some (accepts, ended) =>
                                     let '(envelope, err) := WriteWorkerEnvelope accepts c in
                                     worker_result j (bool_decide (err = None)) (ended envelope)
                                 end
                        end
               end
           end
       end.

Lemma collect_spec limit values :
  0 <= limit -> len (bb_buffer (collect limit values)) <= limit /\
  (bb_exceeded (collect limit values) = false -> bb_buffer (collect limit values) = concat values).
Proof.
  intros Hl. unfold collect.
  enough (Hg : forall b, bb_limit b = limit -> len (bb_buffer b) <= limit ->
    let b' := fold_left (fun b v => (bounded_Write b v).2) values b in
    len (bb_buffer b') <= limit /\ (bb_exceeded b' = false -> bb_exceeded b = false /\ bb_buffer b' = bb_buffer b ++ concat values)).
  { destruct (Hg (mkBounded [] limit false)) as [Hle He]; [done|done|]. split; [done|]. intros Hx. by destruct (He Hx). }
  induction values as [|v values IH]; intros b Hb Hle; cbn [fold_left concat]; [by rewrite app_nil_r|].
  assert (Hw : bb_limit (bounded_Write b v).2 = limit /\ len (bb_buffer (bounded_Write b v).2) <= limit /\
    (bb_exceeded (bounded_Write b v).2 = false -> bb_exceeded b = false /\ bb_buffer (bounded_Write b v).2 = bb_buffer b ++ v)).
  { unfold bounded_Write. rewrite Hb. destruct (Z.leb_spec (limit - len (bb_buffer b)) 0); cbn; [done|].
    destruct (Z.ltb_spec (limit - len (bb_buffer b)) (len v)); cbn; rewrite len_app; split_and!; try done; [|lia].
    unfold len in *. rewrite length_take. lia. }
  destruct Hw as (Hlim & Hlen & Hex). destruct (IH _ Hlim Hlen) as [Hle' He]. split; [done|]. intros Hx. destruct (He Hx) as [Hx1 ->].
  destruct (Hex Hx1) as [Hx2 ->]. by rewrite <- app_assoc.
Qed.

(** The gateway takes for the result of a request only what the worker that it started for it
    wrote, whole, as one response without an error that carries the identifier of the job: the one
    that was signed for this request, for a credential that was delivered to that worker. *)
Theorem remote_client_result ctx_done loaded privateKey randomID la r now now' response :
  client_Execute ctx_done loaded privateKey randomID la r now now' = (Some response, None) ->
  exists c snapshotDigest signedJob agent accepts ended envelope,
    let j := job_for r (snapshot_of c) snapshotDigest randomID now in
    loaded = Ok c /\ SnapshotDigest c = Some snapshotDigest /\ Sign privateKey j now' = Ok signedJob /\
    la_start la signedJob agent = Some (accepts, ended) /\ WriteWorkerEnvelope accepts c = (envelope, None) /\
    pe_Failure (ended envelope) = None /\ len (concat (pe_Stdout (ended envelope))) <= maxWorkerResponseBytes /\
    decode_response (concat (pe_Stdout (ended envelope))) = Some response /\ rs_JobID response = randomID /\ rs_Error response = [].
Proof.
  unfold client_Execute, failed. destruct ctx_done; [done|]. destruct (scope_incomplete r); [done|]. destruct loaded as [c|]; [|done].
  destruct (SnapshotDigest c) as [d|] eqn:Ed; [|done]. destruct (Sign _ _ _) as [signedJob|] eqn:Es; [|done]. destruct (negb (la_pipe la)); [done|].
  destruct (DuplicateAgentFile c) as [agent|]; [|done]. destruct (negb (la_directory la)); [done|].
  destruct (la_start la signedJob agent) as [[accepts ended]|] eqn:El; [|done]. destruct (WriteWorkerEnvelope accepts c) as [envelope err] eqn:Ew.
  unfold worker_result, failed. case_bool_decide as He; [subst err|done]. cbn [negb].
  destruct (collect_spec maxWorkerResponseBytes (pe_Stdout (ended envelope))) as [Hle Hx]; [done|].
  destruct (bb_exceeded (collect maxWorkerResponseBytes _)) eqn:Eb; [done|]. destruct (bb_exceeded (collect (Z.shiftl 16 10) _)); [done|]. cbn [orb]. specialize (Hx eq_refl).
  destruct (pe_Failure (ended envelope)) as [[]|] eqn:Ef; [done..|]. rewrite Hx in *. destruct (decode_response _) as [x|] eqn:Edr; [|done].
  case_bool_decide as Hid; [|done]. cbn [negb]. case_bool_decide as Her; [|done]. intros [= ->].
  exists c, d, signedJob, agent, accepts, ended, envelope. done.
Qed.

Section laws.
Context {CL : CryptoLaws} {EL : Ed25519Laws} {SL : SshLaws} {HL : JsonLaws envelopeHeader header_text} {JL : JsonLaws SignedJob signed_text}.
#[local] Set Default Proof Using "CL EL SL HL JL".

End laws.
End client.

(** ** Witnesses *)

Definition read_request : Request := mkRequest "r1" "p1" "w1" "b1" "s1" "q1" "prod" "sftp_read" "/srv/a" [] [] [] (mkLimits 100 100 0 1000).
Definition snapshot_json : Json Snapshot := one_json sample_snapshot.
Definition snapshot_digest : gostring := @CredentialStore.digest toy_crypto "{}".
Definition prod_job : Job := @job_for toy_crypto read_request sample_snapshot snapshot_digest "j1" 0.
Definition prod_json : Json Job := one_json prod_job.
Definition prod_signed : Json SignedJob := one_json (mkSignedJob 1 prod_job (b64_encode (@ed_sign toy_ed remote_key (signed_message "{}")))).
Definition no_entries : Json (list Entry) := one_json [].

(** A server that resolves every path to itself, and serves one file. *)
Definition plain_server : server unit := fun X c s =>
  (match c in call X return X with
   | Now => second | Lockdown => true | Dial _ _ _ _ _ => true | RunCommand _ => None | OpenSFTP => true | RealPath p => Some p
   | Stat _ => Some (mkInfo "a" 2 "-rw-------" true 0) | ReadDir _ => None | Open _ => Some 1%nat | ReadAll _ => ("ok" : gostring, false)
   | OpenFile _ => None | WriteFile _ _ => (0, false) | CloseFile _ => true | Mkdir _ => false | Rename _ _ => false
   | CloseSFTP => true | CloseConnection => true
   end, s).
Definition prod_run :=
  run plain_server (@Execute ascii_tables toy_crypto toy_ed snapshot_json prod_json prod_signed no_entries worker_credential remote_verifier "{}") tt.
Definition prod_response : Response := mkResponse "j1" [] [] 0 [] "ok" (@CredentialStore.digest toy_crypto "ok") 2 [] [].

Lemma remote_response_reported_witness :
  prod_run.1.2 = Ok (prod_response, mkVerifier (publicKey remote_verifier) {["j1" : gostring]}) /\
  exists j, @outcome toy_crypto j prod_run.1.1 prod_response.
Proof.
  assert (Hr : prod_run.1.2 = Ok (prod_response, mkVerifier (publicKey remote_verifier) {["j1" : gostring]})) by (vm_compute; reflexivity).
  split; [exact Hr|].
  destruct (@remote_response_reported ascii_tables toy_crypto toy_ed snapshot_json prod_json prod_signed no_entries unit plain_server worker_credential
    remote_verifier "{}" tt prod_run.1.1 prod_run.1.2 prod_run.2) as (x & v' & Hx & Hc).
  - unfold prod_run. destruct (run _ _ _) as [[? ?] ?]. reflexivity.
  - rewrite Hr in Hx. injection Hx as <- <-. destruct Hc as [[Hf _]|(j & _ & _ & _ & Ho)]; [discriminate Hf|]. exists j. exact Ho.
Defined.


Definition prod_launcher : launcher := mkLauncher true true (fun _ _ => Some (1000, fun _ => mkEnd ["o" : gostring; "k" : gostring] [] None)).
Definition prod_decoder (s : gostring) : option Response := if decide (s = "ok") then Some prod_response else None.
Definition prod_call :=
  @client_Execute ascii_tables toy_crypto toy_ed snapshot_json sample_header_json prod_json prod_signed prod_decoder false sample_credential remote_key "j1"
    prod_launcher read_request 0 0.

Lemma remote_client_result_witness : prod_call = (Some prod_response, None) /\ rs_JobID prod_response = "j1".
Proof.
  assert (Hc : prod_call = (Some prod_response, None)) by (vm_compute; reflexivity). split; [exact Hc|].
  destruct (@remote_client_result ascii_tables toy_crypto toy_ed snapshot_json sample_header_json prod_json prod_signed prod_decoder false sample_credential
    remote_key "j1" prod_launcher read_request 0 0 prod_response Hc) as (c & d & t & a & n & e & v & _ & _ & _ & _ & _ & _ & _ & _ & Hid & _).
  exact Hid.
Defined.

