(* ===== verification/BridgeText.v ===== *)
(** * The messages of the stdio bridge ([cmd/stdio-bridge/bridge.go], [main.go])

    The bridge speaks JSON-RPC by lines on its standard input and output, and HTTP with the
    gateway. This file has what it makes of one text: the options and the endpoint it accepts,
    the parts of a message that it reads, and the checks of a response. *)
From S2P Require Import Prelude GoStrings Strconv Utf8 Token NetPolicy.
#[local] Open Scope Z_scope.

(** ** Options ([main.go], [newBridge]) *)

Definition defaultMCPProtocolVersion : gostring := "2025-03-26".
Definition maxMaxPending : Z := 1024.
Definition maxControlPending : nat := 8.

Record cliOptions := mkOptions {
  o_endpoint : gostring; o_timeout : Z; o_maxMessageBytes : Z; o_maxResponseBytes : Z; o_maxConcurrency : Z; o_maxPending : Z;
  o_allowPrivateHTTP : bool; o_signRequests : bool
}.

Inductive bridge_error :=
  | PositionalArguments | EndpointRequired | NotPositive | PendingTooLarge | EndpointNotURL | EndpointFragment | HTTPNotAllowed
  | EndpointNotPrivate | EndpointScheme | TokenRequired | ClientRequired | SigningTokenShort | BridgeIDUnsafe | SessionIDUnsafe.

(** [parseFlags], when the flags themselves are parsed. *)
Definition parseFlags (opts : cliOptions) (positional : Z) : result bridge_error cliOptions :=
  reject negb (positional =? 0) with PositionalArguments;
  reject bool_decide (o_endpoint opts = []) with EndpointRequired;
  reject (o_timeout opts <=? 0) || (o_maxMessageBytes opts <=? 0) || (o_maxResponseBytes opts <=? 0) || (o_maxConcurrency opts <=? 0) ||
         (o_maxPending opts <=? 0) with NotPositive;
  reject maxMaxPending <? o_maxPending opts with PendingTooLarge;
  Ok opts.

Section endpoint.
Context `{UnicodeTables} `{NetURL} `{Netip}.

(** [strings.EqualFold] with "localhost": the one letter outside of ASCII that folds to one of
    its letters is the long s. *)
Definition long_s : gostring := [byte_of 197; byte_of 191].
Definition is_localhost (host : gostring) : bool := bool_decide (lower_byte <$> host ∈ ["localhost" : gostring; "localho" ++ long_s ++ "t"]).

Definition validateEndpoint (raw : gostring) (allowPrivateHTTP : bool) : result bridge_error unit :=
  match Parse raw with
  | None => Err EndpointNotURL
  | Some u =>
      reject bool_decide (u_Host u = []) || u_User u with EndpointNotURL;
      reject negb (bool_decide (u_Fragment u = [])) with EndpointFragment;
      if decide (to_lower (u_Scheme u) = "https") then Ok tt
      else if decide (to_lower (u_Scheme u) = "http") then
        reject negb allowPrivateHTTP with HTTPNotAllowed;
        if is_localhost (Hostname u) then Ok tt
        else match ParseAddr (Hostname u) with
             | None => Err EndpointNotPrivate
             | Some ip =>
                 reject negb (bool_decide (Zone ip = [])) || negb (IsPrivate (Unmap ip) || IsLoopback (Unmap ip)) with EndpointNotPrivate; Ok tt
             end
      else Err EndpointScheme
  end.
End endpoint.

(** ** Texts for headers *)

Definition safeHeaderValue (value : gostring) : bool :=
  negb ((256 <? len value) || bool_decide (trim_space value = [])) && forallb (fun c => negb ((code c <? 32) || (code c =? 127))) value.
Definition safeSessionID (value : gostring) : bool :=
  negb ((len value =? 0) || (256 <? len value)) && forallb (fun c => negb ((code c <? 33) || (126 <? code c))) value.
Definition safeProtocolVersion (value : gostring) : bool := (len value <=? 256) && safeHeaderValue value.

(** ** Messages *)

Record rpcMessage := mkMessage {
  rm_jsonrpc : gostring; rm_method : gostring; rm_params : gostring; rm_id : gostring; rm_idPresent : bool; rm_notification : bool
}.
Record remoteRPCResponse := mkRemoteResponse { rr_JSONRPC : gostring; rr_ID : gostring; rr_Result : gostring; rr_Error : gostring }.

(** A line of the output. *)
Inductive line := ErrorLine (id : gostring) (errorCode : Z) (message : gostring) | RemoteLine (compact : gostring).
#[export] Instance line_eq_dec : EqDecision line.
Proof. solve_decision. Defined.

(** [encoding/json]: the members of an object as raw values (none for null), a string, the
    compact form of a value, the member [requestId] of the parameters of a cancellation (empty if
    there is none), the member [protocolVersion]; and the strict decoders of a response and of its error. *)
Class BridgeJson := {
  json_fields : gostring -> option (gmap gostring gostring);
  json_string : gostring -> option gostring;
  json_compact : gostring -> option gostring;
  json_requestId : gostring -> option gostring;
  json_protocolVersion : gostring -> option gostring;
  decode_remote : gostring -> option remoteRPCResponse;
  decode_rpc_error : gostring -> bool
}.

Section messages.
Context `{Crypto} `{BridgeJson}.

Definition parseRPCMessage (body : gostring) : option rpcMessage :=
  fields ← json_fields body;
  let text name := match fields !! name with Some raw => default [] (json_string raw) | None => [] end in
  let jsonrpc := text "jsonrpc" in
  let method := text "method" in
  let id : option gostring := fields !! ("id" : gostring) in
  let idPresent := bool_decide (is_Some id) in
  Some (mkMessage jsonrpc method (default [] (fields !! ("params" : gostring))) (default [] id) idPresent
          (negb idPresent && bool_decide (jsonrpc = "2.0") && negb (bool_decide (method = [])))).

Definition canonicalID (id : gostring) : gostring := default id (json_compact id).
Definition headerID (id : gostring) : gostring :=
  let text := default (canonicalID id) (json_string id) in
  if safeHeaderValue text && (len text <=? 512) then text else "sha256:" ++ hex_encode (sha256 id).

Definition error_line (id : gostring) (errorCode : Z) (message : gostring) : line :=
  ErrorLine (if decide (id = []) then "null" else id) errorCode message.

(** *** Responses *)

(** What is to be written for the response of the gateway. *)
Definition validateRemoteResponse (body id : gostring) : result gostring gostring :=
  let invalid : gostring := "invalid or oversized remote response" in
  match decode_remote body with
  | None => Err invalid
  | Some response =>
      reject negb (bool_decide (rr_JSONRPC response = "2.0")) with invalid;
      let hasError := negb (bool_decide (rr_Error response = [])) in
      reject Bool.eqb (negb (bool_decide (rr_Result response = []))) hasError with invalid;
      reject hasError && negb (decode_rpc_error (rr_Error response)) with invalid;
      reject bool_decide (rr_ID response = []) || negb (bool_decide (canonicalID (rr_ID response) = canonicalID id))
        with ("remote response id mismatch" : gostring);
      match json_compact body with None => Err invalid | Some compact => Ok compact end
  end.
Definition writeRemote (body id : gostring) : line :=
  match validateRemoteResponse body id with
  | Ok compact => RemoteLine compact
  | Err message => error_line id (-32098) message
  end.

(** The line, and the version that was negotiated; none when the gateway refused. *)
Definition validateInitializeResponse (body id : gostring) : result gostring (gostring * option gostring) :=
  let invalid : gostring := "invalid initialize JSON-RPC response" in
  match decode_remote body with
  | None => Err invalid
  | Some response =>
      reject negb (bool_decide (rr_JSONRPC response = "2.0")) with invalid;
      let hasError := negb (bool_decide (rr_Error response = [])) in
      reject Bool.eqb (negb (bool_decide (rr_Result response = []))) hasError || bool_decide (rr_ID response = []) with invalid;
      reject negb (bool_decide (canonicalID (rr_ID response) = canonicalID id)) with ("remote response id mismatch" : gostring);
      match json_compact body with
      | None => Err invalid
      | Some compact =>
          if hasError then
            reject negb (decode_rpc_error (rr_Error response)) with invalid; Ok (compact, None)
          else
            let bad : gostring := "initialize result must contain a safe non-empty protocolVersion" in
            match json_protocolVersion (rr_Result response) with
            | None => Err bad
            | Some version => reject negb (safeProtocolVersion version) with bad; Ok (compact, Some version)
            end
      end
  end.

(** [Header.Values] of the session header. *)
Definition sessionIDFromResponse (values : list gostring) : option gostring :=
  match values with [value] => if safeSessionID value then Some value else None | _ => None end.
End messages.

(** ** The configuration of a bridge *)

Record bridgeConfig := mkBridgeConfig {
  bc_Endpoint : gostring; bc_Token : gostring; bc_Timeout : Z; bc_MaxMessageBytes : Z; bc_MaxResponseBytes : Z; bc_MaxConcurrency : Z;
  bc_MaxPending : Z; bc_AllowPrivateHTTP : bool; bc_SignRequests : bool; bc_BridgeID : gostring; bc_SessionID : gostring;
  bc_Streams : bool
}.

(** The checks of [newBridge]; [randomID] is the identifier of a bridge that has none. *)
Definition checkBridgeConfig `{UnicodeTables} `{NetURL} `{Netip} (cfg : bridgeConfig) (randomID : gostring) : result bridge_error bridgeConfig :=
  _ ← validateEndpoint (bc_Endpoint cfg) (bc_AllowPrivateHTTP cfg);
  reject bool_decide (bc_Token cfg = []) with TokenRequired;
  reject (bc_Timeout cfg <=? 0) || (bc_MaxMessageBytes cfg <=? 0) || (bc_MaxResponseBytes cfg <=? 0) || (bc_MaxConcurrency cfg <=? 0) ||
         (bc_MaxPending cfg <=? 0) with NotPositive;
  reject maxMaxPending <? bc_MaxPending cfg with PendingTooLarge;
  reject negb (bc_Streams cfg) with ClientRequired;
  bridgeID ← (if bc_SignRequests cfg then
                reject len (bc_Token cfg) <? 32 with SigningTokenShort;
                let bridgeID := if decide (bc_BridgeID cfg = []) then randomID else bc_BridgeID cfg in
                reject negb (safeHeaderValue bridgeID) with BridgeIDUnsafe; Ok bridgeID
              else Ok (bc_BridgeID cfg));
  reject negb (bool_decide (bc_SessionID cfg = [])) && negb (safeSessionID (bc_SessionID cfg)) with SessionIDUnsafe;
  Ok (mkBridgeConfig (bc_Endpoint cfg) (bc_Token cfg) (bc_Timeout cfg) (bc_MaxMessageBytes cfg) (bc_MaxResponseBytes cfg) (bc_MaxConcurrency cfg)
        (bc_MaxPending cfg) (bc_AllowPrivateHTTP cfg) (bc_SignRequests cfg) bridgeID (bc_SessionID cfg) (bc_Streams cfg)).

(** ** What is let through *)

Section endpoint_facts.
Context `{UnicodeTables} `{NetURL} `{Netip}.

(** The token of the bridge goes over HTTPS, or, when that is allowed, over HTTP to this host or to
    a private address that the endpoint names. *)
Theorem endpoint_private raw allow :
  validateEndpoint raw allow = Ok tt ->
  exists u, Parse raw = Some u /\ u_Host u <> [] /\ u_User u = false /\ u_Fragment u = [] /\
    (to_lower (u_Scheme u) = "https" \/
     to_lower (u_Scheme u) = "http" /\ allow = true /\
       (is_localhost (Hostname u) = true \/
        exists ip, ParseAddr (Hostname u) = Some ip /\ (IsPrivate (Unmap ip) = true \/ IsLoopback (Unmap ip) = true))).
Proof.
  unfold validateEndpoint. destruct (Parse raw) as [u|]; [|done]. intros [[Hh%bool_decide_eq_false Hu]%orb_false_iff He]%guard_Ok.
  apply guard_Ok in He as [Hf%negb_false_iff%bool_decide_eq_true He]. exists u. do 4 (split; [done|]).
  case_decide as Hs; [by left|]. case_decide as Hp; [|done]. right. split; [done|]. apply guard_Ok in He as [Ha%negb_false_iff He]. split; [done|].
  destruct (is_localhost _); [by left|]. right. destruct (ParseAddr _) as [ip|]; [|done]. exists ip. split; [done|].
  apply guard_Ok in He as [[_ Hip%negb_false_iff]%orb_false_iff _]. by apply orb_true_iff in Hip.
Qed.
End endpoint_facts.

(** The text that identifies a request in a header is always fit for one. *)
Lemma headerID_safe `{CryptoLaws} `{BridgeJson} id : safeHeaderValue (headerID id) = true \/ headerID id = "sha256:" ++ hex_encode (sha256 id).
Proof. unfold headerID. destruct (safeHeaderValue _ && _) eqn:E; [left; by apply andb_true_iff in E as [? _]|by right]. Qed.

(** ** Witness *)

Definition endpoint_url : URL := mkURL "HTTP" [] false "10.0.0.7:80" "/mcp" [] [] [].
Definition endpoint_table : NetURL := {|
  ParseRequestURI _ := None;
  Parse s := if decide (s = "HTTP://10.0.0.7:80/mcp") then Some endpoint_url else None;
  url_string u := u_Host u;
  EscapedPath := u_Path;
  reencode_query q := Some q;
  SplitHostPort _ := None
|}.

Lemma endpoint_private_witness : exists u ip, @Parse endpoint_table "HTTP://10.0.0.7:80/mcp" = Some u /\ @ParseAddr table_netip (Hostname u) = Some ip /\
  (IsPrivate (Unmap ip) = true \/ IsLoopback (Unmap ip) = true).
Proof.
  destruct (@endpoint_private ascii_tables endpoint_table table_netip "HTTP://10.0.0.7:80/mcp" true) as (u & Hu & _ & _ & _ & [Hs|(_ & _ & Ha)]);
    [vm_compute; reflexivity|vm_compute in Hu; injection Hu as <-; vm_compute in Hs; discriminate Hs|].
  exists u. vm_compute in Hu. injection Hu as <-. destruct Ha as [Hl|(ip & Hp & Hip)]; [vm_compute in Hl; discriminate Hl|]. exists ip. split; [reflexivity|]. by split.
Defined.
