(* ===== verification/Bridge.v ===== *)
(** * The stdio bridge ([cmd/stdio-bridge/bridge.go])

    One thread reads lines and makes jobs of them; others send each job to the gateway and write
    its answer. They share the session, the requests in flight, and the output, each under a
    mutex: every step of the system below is one such section, or one answer of the network, so a
    list of events is one interleaving. *)
From S2P Require Import Prelude GoStrings Strconv Utf8 Token NetPolicy BridgeText.
#[local] Open Scope Z_scope.

(** ** Data *)

Inductive sessionState := Uninitialized | Initializing | WaitingInitialized | Initialized | SessionFailed.
#[export] Instance sessionState_eq_dec : EqDecision sessionState.
Proof. solve_decision. Defined.
Definition state_name (s : sessionState) : gostring :=
  match s with
  | Uninitialized => "uninitialized" | Initializing => "initializing" | WaitingInitialized => "waiting-initialized"
  | Initialized => "initialized" | SessionFailed => "failed"
  end.

Inductive lifecycleJob := LifecycleNone | LifecycleInitialize | LifecycleInitialized.
#[export] Instance lifecycleJob_eq_dec : EqDecision lifecycleJob.
Proof. solve_decision. Defined.

(** The channels, with their workers. *)
Inductive class := Ordinary | Control | Lifecycle.
#[export] Instance class_eq_dec : EqDecision class.
Proof. solve_decision. Defined.

(** A job. [jb_key] is the key of its entry of the requests in flight, if it has one; an object of
    type [initializationState] is a number; [jb_zero] marks the zero value of the type, without a
    context and cancel functions. *)
Record bridgeJob := mkJob {
  jb_body : gostring; jb_message : rpcMessage; jb_key : option gostring; jb_clientRequestID : gostring; jb_init : option nat;
  jb_lifecycle : lifecycleJob; jb_zero : bool
}.
Definition zero_message : rpcMessage := mkMessage [] [] [] [] false false.
Definition zero_job : bridgeJob := mkJob [] zero_message None [] None LifecycleNone true.
(** The lines that are answered before there is a job. *)
Definition no_job : bridgeJob := mkJob [] zero_message None [] None LifecycleNone false.

(** What is left to do for a job, in order. *)
Inductive micro :=
  | MOut (l : line) | MLog (message : gostring)
  | MCompleteInit (i : option nat) (sessionID version : gostring) | MFailInit (i : option nat) (message : gostring)
  | MCompleteInitialized (i : option nat) | MFailInitialized (i : option nat) (message : gostring)
  | MFinish.

(** Why a context is done. *)
Inductive cause := CauseCancelled | CauseShutdown | CauseDeadline | CauseOther.
#[export] Instance cause_eq_dec : EqDecision cause.
Proof. solve_decision. Defined.

(** Where a job is: queued; before a turn of the loop of [requestIdentity]; waiting in it, with the
    state that it saw; in [client.Do]; in the rest of [execute]; or over. *)
Inductive progress := Queued | Waiting | Blocked (seen : sessionState) | Sent | Tail (l : list micro) | Ended.
Record jobState := mkJobState { js_job : bridgeJob; js_class : class; js_progress : progress; js_cause : option cause }.

(** A response of the gateway: its status, the values of its session header, its body, and
    whether reading breaks off; or the error of [client.Do]. *)
Inductive reply := DoError (text : gostring) | Reply (status : Z) (sessionHeader : list gostring) (body : gostring) (broken : bool).

(** A request that was sent. *)
Record sentRequest := mkSent { sr_job : nat; sr_lifecycle : lifecycleJob; sr_sessionID : gostring; sr_version : gostring }.

(** Where the reading thread is: between lines; after the first section of [handleCancellation];
    before the session section of a lifecycle message; before the channel; in the rest of a line,
    for the job of this number; or out of its loop. *)
Inductive scan :=
  | ScanIdle | ScanForward (body : gostring) (m : rpcMessage) | ScanBegin (n : nat) | ScanEnqueue (n : nat)
  | ScanTail (n : nat) (l : list micro) (stop : bool) | ScanStopped.

Record pool := mkPool { pl_queue : list nat; pl_running : list nat }.

(** [b_line] numbers the lines; the number of a line is that of its job, and of its output. *)
Record bridge := mkBridge {
  b_state : sessionState; b_sessionID : gostring; b_version : gostring; b_init : option nat; b_seen : bool; b_err : gostring;
  b_nextInit : nat; b_inflight : gmap gostring (nat * bool); b_sequence : Z; b_jobs : gmap nat jobState; b_line : nat;
  b_pools : class -> pool; b_output : list (nat * line); b_broken : bool; b_sent : list sentRequest; b_scan : scan;
  b_shutdown : bool; b_crashed : bool
}.

Section bridge.
Context `{Crypto} `{BridgeJson}.
Variable (cfg : bridgeConfig).

Definition empty_pool : pool := mkPool [] [].
Definition newBridge : bridge :=
  let configured := negb (bool_decide (bc_SessionID cfg = [])) in
  mkBridge (if configured then Initialized else Uninitialized) (bc_SessionID cfg) (if configured then defaultMCPProtocolVersion else []) None false []
    0 ∅ 0 ∅ 0 (fun _ => empty_pool) [] false [] ScanIdle false false.

Definition queue_capacity (c : class) : nat :=
  match c with Ordinary => Z.to_nat (bc_MaxPending cfg) | Control => maxControlPending | Lifecycle => 1 end.
Definition workers (c : class) : nat := match c with Ordinary => Z.to_nat (bc_MaxConcurrency cfg) | _ => 1 end.

(** *** Updates *)

Definition set_session (b : bridge) (state : sessionState) (sessionID version : gostring) (init : option nat) (seen : bool) (err : gostring) : bridge :=
  mkBridge state sessionID version init seen err (b_nextInit b) (b_inflight b) (b_sequence b) (b_jobs b) (b_line b) (b_pools b) (b_output b) (b_broken b)
    (b_sent b) (b_scan b) (b_shutdown b) (b_crashed b).
Definition set_inits (b : bridge) (n : nat) : bridge :=
  mkBridge (b_state b) (b_sessionID b) (b_version b) (b_init b) (b_seen b) (b_err b) n (b_inflight b) (b_sequence b) (b_jobs b) (b_line b) (b_pools b)
    (b_output b) (b_broken b) (b_sent b) (b_scan b) (b_shutdown b) (b_crashed b).
Definition set_inflight (b : bridge) (m : gmap gostring (nat * bool)) : bridge :=
  mkBridge (b_state b) (b_sessionID b) (b_version b) (b_init b) (b_seen b) (b_err b) (b_nextInit b) m (b_sequence b) (b_jobs b) (b_line b) (b_pools b)
    (b_output b) (b_broken b) (b_sent b) (b_scan b) (b_shutdown b) (b_crashed b).
Definition set_sequence (b : bridge) (n : Z) : bridge :=
  mkBridge (b_state b) (b_sessionID b) (b_version b) (b_init b) (b_seen b) (b_err b) (b_nextInit b) (b_inflight b) n (b_jobs b) (b_line b) (b_pools b)
    (b_output b) (b_broken b) (b_sent b) (b_scan b) (b_shutdown b) (b_crashed b).
Definition set_jobs (b : bridge) (m : gmap nat jobState) : bridge :=
  mkBridge (b_state b) (b_sessionID b) (b_version b) (b_init b) (b_seen b) (b_err b) (b_nextInit b) (b_inflight b) (b_sequence b) m (b_line b) (b_pools b)
    (b_output b) (b_broken b) (b_sent b) (b_scan b) (b_shutdown b) (b_crashed b).
Definition set_line (b : bridge) (n : nat) : bridge :=
  mkBridge (b_state b) (b_sessionID b) (b_version b) (b_init b) (b_seen b) (b_err b) (b_nextInit b) (b_inflight b) (b_sequence b) (b_jobs b) n (b_pools b)
    (b_output b) (b_broken b) (b_sent b) (b_scan b) (b_shutdown b) (b_crashed b).
Definition set_pool (b : bridge) (c : class) (p : pool) : bridge :=
  mkBridge (b_state b) (b_sessionID b) (b_version b) (b_init b) (b_seen b) (b_err b) (b_nextInit b) (b_inflight b) (b_sequence b) (b_jobs b) (b_line b)
    (fun d => if decide (d = c) then p else b_pools b d) (b_output b) (b_broken b) (b_sent b) (b_scan b) (b_shutdown b) (b_crashed b).
Definition set_output (b : bridge) (l : list (nat * line)) : bridge :=
  mkBridge (b_state b) (b_sessionID b) (b_version b) (b_init b) (b_seen b) (b_err b) (b_nextInit b) (b_inflight b) (b_sequence b) (b_jobs b) (b_line b)
    (b_pools b) l (b_broken b) (b_sent b) (b_scan b) (b_shutdown b) (b_crashed b).
Definition set_broken (b : bridge) : bridge :=
  mkBridge (b_state b) (b_sessionID b) (b_version b) (b_init b) (b_seen b) (b_err b) (b_nextInit b) (b_inflight b) (b_sequence b) (b_jobs b) (b_line b)
    (b_pools b) (b_output b) true (b_sent b) (b_scan b) (b_shutdown b) (b_crashed b).
Definition set_sent (b : bridge) (l : list sentRequest) : bridge :=
  mkBridge (b_state b) (b_sessionID b) (b_version b) (b_init b) (b_seen b) (b_err b) (b_nextInit b) (b_inflight b) (b_sequence b) (b_jobs b) (b_line b)
    (b_pools b) (b_output b) (b_broken b) l (b_scan b) (b_shutdown b) (b_crashed b).
Definition set_scan (b : bridge) (s : scan) : bridge :=
  mkBridge (b_state b) (b_sessionID b) (b_version b) (b_init b) (b_seen b) (b_err b) (b_nextInit b) (b_inflight b) (b_sequence b) (b_jobs b) (b_line b)
    (b_pools b) (b_output b) (b_broken b) (b_sent b) s (b_shutdown b) (b_crashed b).
Definition set_shutdown (b : bridge) : bridge :=
  mkBridge (b_state b) (b_sessionID b) (b_version b) (b_init b) (b_seen b) (b_err b) (b_nextInit b) (b_inflight b) (b_sequence b) (b_jobs b) (b_line b)
    (b_pools b) (b_output b) (b_broken b) (b_sent b) (b_scan b) true (b_crashed b).
Definition crash (b : bridge) : bridge :=
  mkBridge (b_state b) (b_sessionID b) (b_version b) (b_init b) (b_seen b) (b_err b) (b_nextInit b) (b_inflight b) (b_sequence b) (b_jobs b) (b_line b)
    (b_pools b) (b_output b) (b_broken b) (b_sent b) (b_scan b) (b_shutdown b) true.

Definition set_job (b : bridge) (n : nat) (js : jobState) : bridge := set_jobs b (<[n := js]> (b_jobs b)).
Definition with_progress (js : jobState) (p : progress) : jobState := mkJobState (js_job js) (js_class js) p (js_cause js).
(** The first cause counts. *)
Definition with_cause (c : cause) (js : jobState) : jobState :=
  mkJobState (js_job js) (js_class js) (js_progress js) (match js_cause js with Some d => Some d | None => Some c end).

(** ** The session *)

Definition transition (b : bridge) (state : sessionState) : bridge :=
  set_session b state (b_sessionID b) (b_version b) (b_init b) (b_seen b) (b_err b).

Definition beginInitialization (b : bridge) (m : rpcMessage) : result gostring (option nat) * bridge :=
  if negb (rm_idPresent m) then (Err ("initialize must be a JSON-RPC request" : gostring), b)
  else
    match json_protocolVersion (rm_params m) with
    | Some version =>
        if negb (safeProtocolVersion version) then (Err ("initialize params must contain a safe protocolVersion" : gostring), b)
        else if negb (bool_decide (b_state b = Uninitialized)) then (Err ("initialize is not allowed while session is " ++ state_name (b_state b)), b)
        else (Ok (Some (b_nextInit b)), set_inits (set_session b Initializing [] [] (Some (b_nextInit b)) false []) (S (b_nextInit b)))
    | None => (Err ("initialize params must contain a safe protocolVersion" : gostring), b)
    end.

Definition beginInitialized (b : bridge) (m : rpcMessage) : result gostring (option nat) * bridge :=
  if negb (rm_notification m) then (Err ("notifications/initialized must be a JSON-RPC notification" : gostring), b)
  else
    match b_state b with
    | Initializing | WaitingInitialized =>
        match b_init b with
        | None => (Err ("MCP initialization state is inconsistent" : gostring), b)
        | Some i =>
            if b_seen b then (Err ("notifications/initialized was already received" : gostring), b)
            else (Ok (Some i), set_session b (b_state b) (b_sessionID b) (b_version b) (b_init b) true (b_err b))
        end
    | Initialized => (Ok None, b)
    | SessionFailed => (Err ("MCP session initialization failed: " ++ b_err b), b)
    | Uninitialized =>
        let err : gostring := "notifications/initialized arrived before initialize" in
        (Err err, set_session b SessionFailed (b_sessionID b) (b_version b) (b_init b) (b_seen b) err)
    end.

Definition completeInitialization (b : bridge) (i : option nat) (sessionID version : gostring) : bridge :=
  if negb (bool_decide (b_state b = Initializing)) || negb (bool_decide (b_init b = i)) then b
  else set_session b WaitingInitialized sessionID version (b_init b) (b_seen b) [].
Definition failInitialization (b : bridge) (i : option nat) (message : gostring) : bridge :=
  if negb (bool_decide (b_state b = Initializing)) || negb (bool_decide (b_init b = i)) then b
  else set_session b SessionFailed [] [] None false message.
Definition completeInitialized (b : bridge) (i : option nat) : bridge :=
  match i with
  | None => b
  | Some _ =>
      if negb (bool_decide (b_state b = WaitingInitialized)) || negb (bool_decide (b_init b = i)) then b
      else set_session b Initialized (b_sessionID b) (b_version b) None false []
  end.
Definition failInitialized (b : bridge) (i : option nat) (message : gostring) : bridge :=
  if bool_decide (b_state b = SessionFailed) then b
  else if bool_decide (is_Some i) && negb (bool_decide (b_init b = i)) then b
  else set_session b SessionFailed [] [] None false message.

(** One turn of the loop of [requestIdentity]. *)
Inductive identity := Identified (sessionID version : gostring) | NotIdentified (message : gostring) | NotYet.
Definition requestIdentity (b : bridge) (j : bridgeJob) : identity :=
  if decide (jb_lifecycle j = LifecycleInitialize) then Identified [] []
  else match b_state b with
       | Initialized => Identified (b_sessionID b) (b_version b)
       | WaitingInitialized =>
           if bool_decide (jb_lifecycle j = LifecycleInitialized) && bool_decide (b_init b = jb_init j) then Identified (b_sessionID b) (b_version b)
           else NotYet
       | Initializing => NotYet
       | SessionFailed => NotIdentified ("MCP session initialization failed: " ++ b_err b)
       | Uninitialized => NotIdentified "MCP session is not initialized"
       end.
(** Its error when the context is done, by the state that it saw last. *)
Definition waited (seen : sessionState) : gostring :=
  if bool_decide (seen = WaitingInitialized) then "timed out waiting for notifications/initialized barrier"
  else "timed out waiting for MCP session initialization".

(** ** Jobs *)

Definition clientRequestID (b : bridge) (m : rpcMessage) : gostring * bridge :=
  if rm_idPresent m then (headerID (rm_id m), b)
  else let n := (b_sequence b + 1) mod 18446744073709551616 in (bc_BridgeID cfg ++ "-" ++ itoa n, set_sequence b n).

(** [newJob], for line [n]: a job, entered among the requests in flight when it has an identifier;
    the zero job for a duplicate. *)
Definition newJob (b : bridge) (n : nat) (body : gostring) (m : rpcMessage) : bridgeJob * bool * bridge :=
  let '(id, b) := clientRequestID b m in
  if negb (rm_idPresent m) then (mkJob body m None id None LifecycleNone false, false, b)
  else
    let key := canonicalID (rm_id m) in
    match b_inflight b !! key with
    | Some _ => (zero_job, true, b)
    | None => (mkJob body m (Some key) id None LifecycleNone false, false, set_inflight b (<[key := (n, false)]> (b_inflight b)))
    end.

(** [finish]: the entry is removed if it is the job's; the zero job has no function to call. *)
Definition finish (b : bridge) (n : nat) (j : bridgeJob) : bridge :=
  let b := match jb_key j with
           | Some key => match b_inflight b !! key with
                         | Some (owner, _) => if decide (owner = n) then set_inflight b (delete key (b_inflight b)) else b
                         | None => b
                         end
           | None => b
           end in
  if jb_zero j then crash b else b.

(** [fail], [abortLifecycle], and the deferred end of [execute]. *)
Definition fail (j : bridgeJob) (errorCode : Z) (message : gostring) : list micro :=
  if rm_notification (jb_message j) then [MLog message] else [MOut (error_line (rm_id (jb_message j)) errorCode message)].
Definition abort (j : bridgeJob) (message : gostring) : list micro :=
  match jb_lifecycle j with
  | LifecycleInitialize => [MFailInit (jb_init j) message]
  | LifecycleInitialized => [MFailInitialized (jb_init j) message]
  | LifecycleNone => []
  end.
Definition end_failed (j : bridgeJob) (l : list micro) : list micro := l ++ abort j "session initialization failed" ++ [MFinish].

(** What [execute] does when [client.Do] has returned. *)
Definition receive (j : bridgeJob) (c : option cause) (r : reply) : list micro :=
  let m := jb_message j in
  match r with
  | DoError text =>
      end_failed j match c with
                | Some CauseCancelled => fail j (-32800) "request cancelled"
                | Some CauseShutdown => []
                | Some CauseDeadline => fail j (-32098) "remote request timed out"
                | _ => fail j (-32098) ("transport error: " ++ text)
                end
  | Reply status sessionHeader body broken =>
      let no_body := (status =? 202) || (status =? 204) in
      if decide (jb_lifecycle j = LifecycleInitialized) then
        if no_body then [MCompleteInitialized (jb_init j); MFinish]
        else end_failed j (fail j (-32098) ("notifications/initialized remote HTTP status " ++ itoa status))
      else if rm_notification m && no_body then end_failed j []
      else if broken || (bc_MaxResponseBytes cfg <? len body) then end_failed j (fail j (-32098) "invalid or oversized remote response")
      else if negb (status =? 200) then end_failed j (fail j (-32098) ("remote HTTP status " ++ itoa status))
      else if rm_notification m then end_failed j []
      else if decide (jb_lifecycle j = LifecycleInitialize) then
        match validateInitializeResponse body (rm_id m) with
        | Err message => end_failed j (fail j (-32098) message)
        | Ok (compact, None) => [MOut (RemoteLine compact); MFailInit (jb_init j) "initialize returned a JSON-RPC error"; MFinish]
        | Ok (compact, Some version) =>
            match sessionIDFromResponse sessionHeader with
            | None => end_failed j (fail j (-32098) "initialize response missing or invalid Mcp-Session-Id")
            | Some sessionID => [MCompleteInit (jb_init j) sessionID version; MOut (RemoteLine compact); MFinish]
            end
        end
      else [MOut (writeRemote body (rm_id m)); MFinish]
  end.

(** One section of what is left to do. The output keeps its first error, and is silent then. *)
Definition perform (b : bridge) (n : nat) (j : bridgeJob) (a : micro) : bridge :=
  match a with
  | MOut l => if b_broken b then b else set_output b (b_output b ++ [(n, l)])
  | MLog _ => b
  | MCompleteInit i sessionID version => completeInitialization b i sessionID version
  | MFailInit i message => failInitialization b i message
  | MCompleteInitialized i => completeInitialized b i
  | MFailInitialized i message => failInitialized b i message
  | MFinish => finish b n j
  end.

(** ** Steps *)

(** [EShutdown]: the context of [Run] is done; [EBreak]: writing fails from here on; [EDeadline]: the
    timeout of a job; [EAttempt]: a turn of [requestIdentity], with whether the request could be
    made and signed; [EExpire]: the context is done in that loop. *)
Inductive event :=
  | ELine (body : gostring) | EScan (stopping : bool) | EEnd (failed : bool) | EShutdown | EBreak
  | EStart (c : class) | EDeadline (n : nat) | EAttempt (n : nat) (created signed : bool) | EExpire (n : nat)
  | EReply (n : nat) (r : reply) | EMicro (n : nat).

(** A job of a context that is done already is so itself. *)
Definition new_state (b : bridge) (c : class) (j : bridgeJob) : jobState :=
  mkJobState j c Queued (if b_shutdown b then Some CauseShutdown else None).

(** The rest of a line that ends with an error; nothing is left to do for a job. *)
Definition scan_error (b : bridge) (n : nat) (l : list micro) (stop : bool) : bridge := set_scan b (ScanTail n l stop).

(** A line: blank, unreadable, a cancellation (its first section), or a message for [newJob]. *)
Definition read_line (b : bridge) (body : gostring) : bridge :=
  let n := b_line b in
  let b := set_line b (S n) in
  if bool_decide (trim_space body = []) then b
  else
    match parseRPCMessage body with
    | None => scan_error b n [MOut (error_line [] (-32700) "invalid JSON-RPC message")] false
    | Some m =>
        if bool_decide (rm_jsonrpc m = "2.0") && bool_decide (rm_method m = "notifications/cancelled") then
          match json_requestId (rm_params m) with
          | None | Some [] => b
          | Some id =>
              match b_inflight b !! canonicalID id with
              | Some (owner, false) =>
                  let b := set_inflight b (<[canonicalID id := (owner, true)]> (b_inflight b)) in
                  let b := set_jobs b (alter (with_cause CauseCancelled) owner (b_jobs b)) in
                  set_scan b (ScanForward body m)
              | _ => b
              end
          end
        else
          let '(j, duplicate, b) := newJob b n body m in
          if (duplicate : bool) then scan_error b n [MOut (error_line (rm_id m) (-32600) "duplicate in-flight request id")] false
          else
            let lifecycle := bool_decide (rm_method m = "initialize") || bool_decide (rm_method m = "notifications/initialized") in
            let b := set_job b n (new_state b (if decide (rm_method m = "notifications/initialized") then Lifecycle else Ordinary) j) in
            set_scan b (if lifecycle then ScanBegin n else ScanEnqueue n)
    end.

Definition with_lifecycle (j : bridgeJob) (i : option nat) (l : lifecycleJob) : bridgeJob :=
  mkJob (jb_body j) (jb_message j) (jb_key j) (jb_clientRequestID j) i l (jb_zero j).
Definition with_job (js : jobState) (j : bridgeJob) : jobState := mkJobState j (js_class js) (js_progress js) (js_cause js).

(** The session section of a lifecycle message. *)
Definition begin_lifecycle (b : bridge) (n : nat) (js : jobState) : bridge :=
  let j := js_job js in
  let m := jb_message j in
  if decide (js_class js = Lifecycle) then
    match beginInitialized b m with
    | (Err message, b) => scan_error b n [MFinish; MLog message] false
    | (Ok i, b) => set_scan (set_job b n (with_job js (with_lifecycle j i LifecycleInitialized))) (ScanEnqueue n)
    end
  else
    match beginInitialization b m with
    | (Err message, b) => scan_error b n [MFinish; MOut (error_line (rm_id m) (-32602) message)] false
    | (Ok i, b) => set_scan (set_job b n (with_job js (with_lifecycle j i LifecycleInitialize))) (ScanEnqueue n)
    end.

Definition overloadMessage : gostring := "bridge overloaded: too many pending requests".
Definition rejectOverloaded (j : bridgeJob) : list micro :=
  abort j overloadMessage ++
  (if rm_idPresent (jb_message j) then [MOut (error_line (rm_id (jb_message j)) (-32000) overloadMessage)] else [MLog overloadMessage]) ++ [MFinish].

(** The select over a channel: the job is sent when there is room; when the context is done, the
    branch for that may be taken; else the default, or to wait. *)
Definition enqueue (b : bridge) (n : nat) (js : jobState) (stopping : bool) : option bridge :=
  let c := js_class js in
  let p := b_pools b c in
  let j := js_job js in
  if stopping then
    if b_shutdown b then
      Some (scan_error b n
        (match c with
         | Ordinary => abort j "bridge shutting down before initialize was sent"
         | Lifecycle => [MFailInitialized (jb_init j) "bridge shutting down before notifications/initialized was sent"]
         | Control => []
         end ++ [MFinish]) true)
    else None
  else if bool_decide (length (pl_queue p) < queue_capacity c)%nat then
    Some (set_scan (set_pool b c (mkPool (pl_queue p ++ [n]) (pl_running p))) ScanIdle)
  else match c with
       | Ordinary => Some (scan_error b n (rejectOverloaded j) false)
       | Control => Some (scan_error b n [MLog "dropped notifications/cancelled forwarding: control queue is full"; MFinish] false)
       | Lifecycle => None
       end.

(** The job of a thread does its next section; when it is over, its worker is free. *)
Definition advance (b : bridge) (n : nat) (js : jobState) (a : micro) (rest : list micro) : bridge :=
  let b := perform b n (js_job js) a in
  match rest with
  | [] => let p := b_pools b (js_class js) in
          set_pool (set_job b n (with_progress js Ended)) (js_class js) (mkPool (pl_queue p) (filter (fun k => k <> n) (pl_running p)))
  | _ => set_job b n (with_progress js (Tail rest))
  end.

Definition is_write (a : micro) : bool := match a with MOut _ => true | _ => false end.

(** The reading thread's next section; a write that fails ends the loop, after the rest. *)
Definition scan_next (b : bridge) (n : nat) (l : list micro) (stop : bool) : bridge :=
  match l with
  | [] => set_scan b (if stop then ScanStopped else ScanIdle)
  | a :: rest =>
      let stop := stop || (is_write a && b_broken b) in
      let js := b_jobs b !! n in
      let b := perform b n (match js with Some js => js_job js | None => no_job end) a in
      let b := match a, js with MFinish, Some js => set_job b n (with_progress js Ended) | _, _ => b end in
      set_scan b (ScanTail n rest stop)
  end.

(** [cancelAll]: the requests in flight. *)
Definition owners (b : bridge) : list nat := (fun p => p.2.1) <$> map_to_list (b_inflight b).
Definition cancelAll (b : bridge) : bridge :=
  set_jobs b (map_imap (fun n js => Some (if decide (n ∈ owners b) then with_cause CauseOther js else js)) (b_jobs b)).

Definition step (b : bridge) (e : event) : option bridge :=
  if b_crashed b then None
  else
    match e with
    | EShutdown => Some (set_jobs (set_shutdown b) (with_cause CauseShutdown <$> b_jobs b))
    | EBreak => Some (set_broken b)
    | ELine body => match b_scan b with ScanIdle => if b_shutdown b then None else Some (read_line b body) | _ => None end
    | EScan stopping =>
        match b_scan b with
        | ScanForward body m =>
            let n := (b_line b - 1)%nat in
            let '(j, _, b) := newJob b n body m in
            Some (set_scan (set_job b n (new_state b Control j)) (ScanEnqueue n))
        | ScanBegin n => js ← b_jobs b !! n; Some (begin_lifecycle b n js)
        | ScanEnqueue n => js ← b_jobs b !! n; enqueue b n js stopping
        | ScanTail n l stop => Some (scan_next b n l stop)
        | ScanIdle | ScanStopped => None
        end
    | EEnd failed =>
        match b_scan b with
        | ScanIdle => Some (set_scan (if failed && negb (b_shutdown b) then cancelAll b else b) ScanStopped)
        | _ => None
        end
    | EStart c =>
        match pl_queue (b_pools b c) with
        | n :: queue =>
            if bool_decide (length (pl_running (b_pools b c)) < workers c)%nat then
              js ← b_jobs b !! n;
              Some (set_pool (set_job b n (with_progress js Waiting)) c (mkPool queue (n :: pl_running (b_pools b c))))
            else None
        | [] => None
        end
    | EDeadline n => Some (set_jobs b (alter (with_cause CauseDeadline) n (b_jobs b)))
    | EAttempt n created signed =>
        js ← b_jobs b !! n;
        let j := js_job js in
        match js_progress js with
        | Waiting | Blocked _ =>
            match requestIdentity b j with
            | NotYet => if jb_zero j then Some (crash b) else Some (set_job b n (with_progress js (Blocked (b_state b))))
            | NotIdentified message => Some (set_job b n (with_progress js (Tail (end_failed j (fail j (-32098) message)))))
            | Identified sessionID version =>
                if negb created || jb_zero j then
                  Some (set_job b n (with_progress js (Tail (end_failed j (fail j (-32098) "could not create HTTP request")))))
                else if bc_SignRequests cfg && negb signed then
                  Some (set_job b n (with_progress js (Tail (end_failed j (fail j (-32098) "request signing failed")))))
                else
                  Some (set_sent (set_job b n (with_progress js Sent)) (b_sent b ++ [mkSent n (jb_lifecycle j) sessionID version]))
            end
        | _ => None
        end
    | EExpire n =>
        js ← b_jobs b !! n;
        match js_progress js, js_cause js with
        | Blocked seen, Some _ => Some (set_job b n (with_progress js (Tail (end_failed (js_job js) (fail (js_job js) (-32098) (waited seen))))))
        | _, _ => None
        end
    | EReply n r =>
        js ← b_jobs b !! n;
        match js_progress js with
        | Sent => Some (set_job b n (with_progress js (Tail (receive (js_job js) (js_cause js) r))))
        | _ => None
        end
    | EMicro n =>
        js ← b_jobs b !! n;
        match js_progress js with
        | Tail (a :: rest) => Some (advance b n js a rest)
        | _ => None
        end
    end.

Fixpoint run (es : list event) (b : bridge) : option bridge :=
  match es with [] => Some b | e :: es => b ← step b e; run es b end.

(** ** The threads and their jobs *)

Definition live (js : jobState) : Prop := js_progress js <> Ended.
Definition finished_last (l : list micro) : Prop := exists l', l = l' ++ [MFinish] /\ MFinish ∉ l'.
Definition finished_once (l : list micro) : Prop := exists l1 l2, l = l1 ++ MFinish :: l2 /\ MFinish ∉ l1 /\ MFinish ∉ l2.
Definition in_service (p : progress) : Prop := match p with Queued | Ended => False | Tail l => finished_last l | _ => True end.
Definition scan_job (b : bridge) : option nat :=
  match b_scan b with ScanBegin n | ScanEnqueue n | ScanTail n _ _ => Some n | _ => None end.

(** What holds of every job, entry, queue and thread. *)
Record wf (b : bridge) : Prop := {
  wf_line n js : b_jobs b !! n = Some js -> (n < b_line b)%nat;
  wf_key n js k : b_jobs b !! n = Some js -> jb_key (js_job js) = Some k -> live js -> exists f, b_inflight b !! k = Some (n, f);
  wf_inflight k n f : b_inflight b !! k = Some (n, f) -> exists js, b_jobs b !! n = Some js /\ jb_key (js_job js) = Some k /\ live js;
  wf_place n js : b_jobs b !! n = Some js ->
    match js_progress js with
    | Queued => scan_job b = Some n \/ n ∈ pl_queue (b_pools b (js_class js))
    | Ended => True
    | p => in_service p /\ n ∈ pl_running (b_pools b (js_class js))
    end;
  wf_queue c n : n ∈ pl_queue (b_pools b c) ->
    scan_job b <> Some n /\ exists js, b_jobs b !! n = Some js /\ js_progress js = Queued /\ js_class js = c;
  wf_running c n : n ∈ pl_running (b_pools b c) -> exists js, b_jobs b !! n = Some js /\ in_service (js_progress js) /\ js_class js = c;
  wf_nodup c : NoDup (pl_queue (b_pools b c)) /\ NoDup (pl_running (b_pools b c));
  wf_size c : (length (pl_queue (b_pools b c)) <= queue_capacity c /\ length (pl_running (b_pools b c)) <= workers c)%nat;
  wf_scan : match b_scan b with
    | ScanForward _ _ => (0 < b_line b)%nat /\ b_jobs b !! (b_line b - 1)%nat = None
    | ScanBegin n | ScanEnqueue n => exists js, b_jobs b !! n = Some js /\ js_progress js = Queued
    | ScanTail n l _ => (n < b_line b)%nat /\ forall js, b_jobs b !! n = Some js ->
        js_progress js = Ended /\ MFinish ∉ l \/ js_progress js = Queued /\ finished_once l
    | ScanIdle | ScanStopped => True
    end
}.

(** Jobs with the same entry, place and progress. *)
Definition same_job (x y : option jobState) : Prop :=
  match x, y with
  | Some x, Some y => jb_key (js_job y) = jb_key (js_job x) /\ js_class y = js_class x /\ js_progress y = js_progress x
  | None, None => True
  | _, _ => False
  end.

Lemma same_job_Some x js :
  same_job x (Some js) -> exists js', x = Some js' /\ jb_key (js_job js) = jb_key (js_job js') /\ js_class js = js_class js' /\ js_progress js = js_progress js'.
Proof. destruct x as [x|]; [|done]. intros (? & ? & ?). by exists x. Qed.
Lemma same_job_of x js :
  same_job (Some js) x -> exists js', x = Some js' /\ jb_key (js_job js') = jb_key (js_job js) /\ js_class js' = js_class js /\ js_progress js' = js_progress js.
Proof. destruct x as [x|]; [|done]. intros (? & ? & ?). by exists x. Qed.

(** The reading thread moves on, with the jobs and the owners of the entries as they were. *)
Lemma wf_rescan b b' :
  wf b -> (forall n, same_job (b_jobs b !! n) (b_jobs b' !! n)) -> (forall k, fst <$> b_inflight b' !! k = fst <$> b_inflight b !! k) ->
  (b_line b <= b_line b')%nat -> b_pools b' = b_pools b ->
  (forall n js, b_jobs b !! n = Some js -> js_progress js = Queued -> scan_job b = Some n -> scan_job b' = Some n) ->
  (forall n c, scan_job b' = Some n -> n ∉ pl_queue (b_pools b c)) ->
  match b_scan b' with
  | ScanForward _ _ => (0 < b_line b')%nat /\ b_jobs b' !! (b_line b' - 1)%nat = None
  | ScanBegin n | ScanEnqueue n => exists js, b_jobs b' !! n = Some js /\ js_progress js = Queued
  | ScanTail n l _ => (n < b_line b')%nat /\ forall js, b_jobs b' !! n = Some js ->
      js_progress js = Ended /\ MFinish ∉ l \/ js_progress js = Queued /\ finished_once l
  | ScanIdle | ScanStopped => True
  end -> wf b'.
Proof.
  intros [W1 W2 W3 W4 W5 W6 W7 W8 W9] Hj Hi Hl Hp Hsq Hqs Hsc.
  assert (Hget : forall n js, b_jobs b' !! n = Some js -> exists js', b_jobs b !! n = Some js' /\ jb_key (js_job js) = jb_key (js_job js') /\ js_class js = js_class js' /\ js_progress js = js_progress js').
  { intros n js Hn. apply same_job_Some. rewrite <- Hn. apply Hj. }
  assert (Hput : forall n js, b_jobs b !! n = Some js -> exists js', b_jobs b' !! n = Some js' /\ jb_key (js_job js') = jb_key (js_job js) /\ js_class js' = js_class js /\ js_progress js' = js_progress js).
  { intros n js Hn. apply same_job_of. rewrite <- Hn. apply Hj. }
  assert (Hown : forall k n, (exists f, b_inflight b' !! k = Some (n, f)) <-> exists f, b_inflight b !! k = Some (n, f)).
  { intros k n. specialize (Hi k). destruct (b_inflight b !! k) as [[? ?]|], (b_inflight b' !! k) as [[? ?]|]; naive_solver. }
  split; unfold live in *; rewrite ?Hp; try done.
  - intros n js (js' & Hn & _)%Hget. specialize (W1 _ _ Hn). lia.
  - intros n js k (js' & Hn & -> & _ & ->)%Hget Hk Hx. apply Hown. by eapply W2.
  - intros k n f Hk. destruct (proj1 (Hown k n)) as [f0 Hk0]; [eauto|]. destruct (W3 _ _ _ Hk0) as (js & Hn & Hkey & Hlive).
    destruct (Hput _ _ Hn) as (js' & Hn' & Ej & _ & Ep). exists js'. by rewrite Ej, Ep.
  - intros n js (js' & Hn & _ & -> & ->)%Hget. specialize (W4 _ _ Hn). destruct (js_progress js') eqn:Ep; try done. destruct W4 as [?|?]; [left; eauto|auto].
  - intros c n Hq. destruct (W5 _ _ Hq) as (Hne & js & Hn & Hpq & Hc). destruct (Hput _ _ Hn) as (js' & Hn' & _ & Ec & Ep). split; [intros E; by eapply Hqs|].
    exists js'. by rewrite Ec, Ep.
  - intros c n (js & Hn & Hq & Hc)%W6. destruct (Hput _ _ Hn) as (js' & Hn' & _ & Ec & Ep). exists js'. by rewrite Ec, Ep.
Qed.

Lemma wf_same b b' :
  (forall n, same_job (b_jobs b !! n) (b_jobs b' !! n)) -> b_inflight b' = b_inflight b -> b_line b' = b_line b -> b_pools b' = b_pools b ->
  b_scan b' = b_scan b -> wf b -> wf b'.
Proof.
  intros Hj Hi Hl Hp Hs W. eapply wf_rescan; try done.
  - by rewrite Hi.
  - by rewrite Hl.
  - unfold scan_job. by rewrite Hs.
  - intros n c Hn Hq. apply (wf_queue _ W) in Hq as [Hne _]. apply Hne. unfold scan_job in *. by rewrite <- Hs.
  - pose proof (wf_scan _ W) as Hw. rewrite Hs, Hl. destruct (b_scan b) as [|body m|n|n|n l stop|]; try done.
    + destruct Hw as [? Hn]. split; [done|]. specialize (Hj (b_line b - 1)%nat). rewrite Hn in Hj. by destruct (b_jobs b' !! _).
    + destruct Hw as (js & Hn & Hq). specialize (Hj n). rewrite Hn in Hj. apply same_job_of in Hj as (js' & -> & _ & _ & Ep). exists js'. by rewrite Ep.
    + destruct Hw as (js & Hn & Hq). specialize (Hj n). rewrite Hn in Hj. apply same_job_of in Hj as (js' & -> & _ & _ & Ep). exists js'. by rewrite Ep.
    + destruct Hw as [? Hn]. split; [done|]. intros js Hjs. specialize (Hj n). rewrite Hjs in Hj. apply same_job_Some in Hj as (js' & Hn' & _ & _ & ->). by apply Hn.
Qed.

Lemma same_job_refl x : same_job x x.
Proof. by destruct x. Qed.
Lemma same_job_cause (c : cause) x : same_job x (with_cause c <$> x).
Proof. by destruct x. Qed.
Lemma same_job_alter c n m (jobs : gmap nat jobState) : same_job (jobs !! m) (alter (with_cause c) n jobs !! m).
Proof. destruct (decide (n = m)) as [->|Hne]; [rewrite lookup_alter_eq; apply same_job_cause|rewrite lookup_alter_ne by done; apply same_job_refl]. Qed.

(** What a section of a job changes besides the session. *)
Definition released (m : gmap gostring (nat * bool)) (n : nat) (j : bridgeJob) : gmap gostring (nat * bool) :=
  match jb_key j with
  | Some key => match m !! key with Some (owner, _) => if decide (owner = n) then delete key m else m | None => m end
  | None => m
  end.

Lemma released_lookup m n j k v : released m n j !! k = Some v -> m !! k = Some v.
Proof. unfold released. repeat case_match; try done. by intros [_ ?]%lookup_delete_Some. Qed.

(** Whatever the session operations do, they do to the session. *)
Definition same_but_session (b b' : bridge) : Prop :=
  b_jobs b' = b_jobs b /\ b_inflight b' = b_inflight b /\ b_line b' = b_line b /\ b_pools b' = b_pools b /\ b_scan b' = b_scan b /\
  b_sent b' = b_sent b /\ b_shutdown b' = b_shutdown b /\ b_broken b' = b_broken b /\ b_output b' = b_output b /\ b_crashed b' = b_crashed b.

Lemma completeInitialization_frame b i sessionID version : same_but_session b (completeInitialization b i sessionID version).
Proof. unfold completeInitialization. by destruct (_ || _). Qed.
Lemma failInitialization_frame b i message : same_but_session b (failInitialization b i message).
Proof. unfold failInitialization. by destruct (_ || _). Qed.
Lemma completeInitialized_frame b i : same_but_session b (completeInitialized b i).
Proof. unfold completeInitialized. destruct i; [|done]. by destruct (_ || _). Qed.
Lemma failInitialized_frame b i message : same_but_session b (failInitialized b i message).
Proof. unfold failInitialized. destruct (bool_decide _); [done|]. by destruct (_ && _). Qed.
Lemma beginInitialization_frame b m r b' : beginInitialization b m = (r, b') -> same_but_session b b'.
Proof. unfold beginInitialization. repeat case_match; intros [= <- <-]; done. Qed.
Lemma beginInitialized_frame b m r b' : beginInitialized b m = (r, b') -> same_but_session b b'.
Proof. unfold beginInitialized. repeat case_match; intros [= <- <-]; done. Qed.

Lemma perform_frame b n j a :
  let b' := perform b n j a in
  b_jobs b' = b_jobs b /\ b_line b' = b_line b /\ b_pools b' = b_pools b /\ b_scan b' = b_scan b /\ b_sent b' = b_sent b /\
  b_shutdown b' = b_shutdown b /\ b_broken b' = b_broken b /\
  b_inflight b' = (match a with MFinish => released (b_inflight b) n j | _ => b_inflight b end) /\
  b_output b' = (match a with MOut l => if b_broken b then b_output b else b_output b ++ [(n, l)] | _ => b_output b end).
Proof.
  destruct a as [l|message|i sessionID version|i message|i|i message|]; cbn [perform]; cbn zeta iota.
  - by destruct (b_broken b) eqn:E; cbn; rewrite ?E.
  - done.
  - pose proof (completeInitialization_frame b i sessionID version) as Hf. unfold same_but_session in Hf. tauto.
  - pose proof (failInitialization_frame b i message) as Hf. unfold same_but_session in Hf. tauto.
  - pose proof (completeInitialized_frame b i) as Hf. unfold same_but_session in Hf. tauto.
  - pose proof (failInitialized_frame b i message) as Hf. unfold same_but_session in Hf. tauto.
  - unfold finish, released. destruct (jb_key j) as [key|]; [destruct (b_inflight b !! key) as [[owner fl]|]; [destruct (decide (owner = n))|]|];
      by destruct (jb_zero j).
Qed.

(** A job in service goes on in service. *)
Lemma wf_progress b b' n js p :
  wf b -> b_jobs b !! n = Some js -> in_service (js_progress js) -> in_service p ->
  b_jobs b' = <[n := with_progress js p]> (b_jobs b) -> b_inflight b' = b_inflight b -> b_line b' = b_line b -> b_pools b' = b_pools b ->
  b_scan b' = b_scan b -> wf b'.
Proof.
  intros [W1 W2 W3 W4 W5 W6 W7 W8 W9] Hn Hs Hp Hj Hi Hl Hpo Hsc.
  assert (Hlive : live js) by (unfold live; intros E; by rewrite E in Hs).
  assert (Hlive' : p <> Ended) by (intros ->; done).
  assert (Hrun : n ∈ pl_running (b_pools b (js_class js))) by (specialize (W4 _ _ Hn); destruct (js_progress js); cbn in *; tauto).
  split; unfold live, scan_job in *; rewrite ?Hj, ?Hi, ?Hl, ?Hpo, ?Hsc; try done.
  - intros m x [[<- <-]|[_ Hm]]%lookup_insert_Some; eauto.
  - intros m x k [[<- <-]|[_ Hm]]%lookup_insert_Some; eauto.
  - intros k m f Hk. destruct (W3 _ _ _ Hk) as (x & Hm & Hkey & Hx). destruct (decide (n = m)) as [<-|Hne].
    + assert (x = js) as -> by congruence. eexists. rewrite lookup_insert_eq. done.
    + exists x. by rewrite lookup_insert_ne.
  - intros m x [[<- <-]|[_ Hm]]%lookup_insert_Some; [|by apply W4]. cbn. destruct p; try done.
  - intros c m (Hne & x & Hm & Hq & Hc)%W5. split; [done|]. exists x. rewrite lookup_insert_ne; [done|]. intros <-.
    assert (x = js) as -> by congruence. by rewrite Hq in Hs.
  - intros c m (x & Hm & Hq & Hc)%W6. destruct (decide (n = m)) as [<-|Hne]; [|exists x; by rewrite lookup_insert_ne].
    assert (x = js) as -> by congruence. eexists. rewrite lookup_insert_eq. done.
  - assert (Hnq : forall m x, b_jobs b !! m = Some x -> js_progress x = Queued -> n <> m) by (intros m x Hm Hq <-; assert (x = js) as -> by congruence; by rewrite Hq in Hs).
    destruct (b_scan b) as [|body m|m|m|m l stop|]; try done.
    + destruct W9 as [? Hm]. split; [done|]. apply lookup_insert_None. split; [done|]. intros E. rewrite E in Hn. congruence.
    + destruct W9 as (x & Hm & Hq). exists x. rewrite lookup_insert_ne by eauto. done.
    + destruct W9 as (x & Hm & Hq). exists x. rewrite lookup_insert_ne by eauto. done.
    + destruct W9 as [? Hm]. split; [done|]. intros x [[<- <-]|[_ Hx]]%lookup_insert_Some; [|by apply Hm].
      destruct (Hm _ Hn) as [[E _]|[E _]]; by rewrite E in Hs.
Qed.

(** The last section: the job is over, its entry is removed, and its worker is free. *)
Lemma released_keep m n j k v : m !! k = Some v -> v.1 <> n -> released m n j !! k = Some v.
Proof.
  intros Hk Hne. unfold released. destruct (jb_key j) as [key|]; [|done]. destruct (m !! key) as [[owner f]|] eqn:E; [|done]. case_decide as Ho; [|done].
  apply lookup_delete_Some. split; [|done]. intros ->. rewrite Hk in E. injection E as ->. done.
Qed.

(** After its entry is released, no entry is of the job. *)
Lemma released_gone b n js k f :
  wf b -> b_jobs b !! n = Some js -> live js -> released (b_inflight b) n (js_job js) !! k = Some (n, f) -> False.
Proof.
  intros W Hn Hlive Hk. pose proof (released_lookup _ _ _ _ _ Hk) as Hk0. destruct (wf_inflight _ W _ _ _ Hk0) as (x & Hx & Hkey & _).
  assert (x = js) as -> by congruence. unfold released in Hk. rewrite Hkey, Hk0, decide_True in Hk by done. by rewrite lookup_delete_eq in Hk.
Qed.

Lemma wf_finished b b' n js :
  wf b -> b_jobs b !! n = Some js -> in_service (js_progress js) ->
  b_jobs b' = <[n := with_progress js Ended]> (b_jobs b) -> b_inflight b' = released (b_inflight b) n (js_job js) -> b_line b' = b_line b ->
  (forall c, b_pools b' c = if decide (c = js_class js) then mkPool (pl_queue (b_pools b c)) (filter (fun k => k <> n) (pl_running (b_pools b c))) else b_pools b c) ->
  b_scan b' = b_scan b -> wf b'.
Proof.
  intros W Hn Hs Hj Hi Hl Hpo Hsc. pose proof W as [W1 W2 W3 W4 W5 W6 W7 W8 W9].
  assert (Hlive : live js) by (unfold live; intros E; by rewrite E in Hs).
  assert (Hq : forall c, pl_queue (b_pools b' c) = pl_queue (b_pools b c)) by (intros c; rewrite Hpo; by case_decide).
  assert (Hr : forall c m, m ∈ pl_running (b_pools b' c) <-> m ∈ pl_running (b_pools b c) /\ (m = n -> c <> js_class js)).
  { intros c m. rewrite Hpo. case_decide as Hc; [|by intuition]. cbn. rewrite list_elem_of_filter. subst c. intuition. }
  assert (Hnq : forall m x, b_jobs b !! m = Some x -> js_progress x = Queued -> n <> m) by (intros m x Hm Hx <-; assert (x = js) as -> by congruence; by rewrite Hx in Hs).
  split; unfold live, scan_job in *; rewrite ?Hj, ?Hi, ?Hl, ?Hsc; try done.
  - intros m x [[<- <-]|[_ Hm]]%lookup_insert_Some; eauto.
  - intros m x k [[<- <-]|[Hne Hm]]%lookup_insert_Some Hk Hx; [done|]. destruct (W2 _ _ _ Hm Hk Hx) as [f Hf]. exists f. by apply released_keep.
  - intros k m f Hk. destruct (W3 _ _ _ (released_lookup _ _ _ _ _ Hk)) as (x & Hm & Hkey & Hx). destruct (decide (n = m)) as [<-|Hne].
    + exfalso. by eapply (released_gone b n js).
    + exists x. by rewrite lookup_insert_ne.
  - intros m x [[<- <-]|[Hne Hm]]%lookup_insert_Some; [done|]. specialize (W4 _ _ Hm). destruct (js_progress x); rewrite ?Hq; try done; destruct W4 as [? ?]; (split; [done|]); by apply Hr.
  - intros c m. rewrite Hq. intros (Hne & x & Hm & Hx & Hc)%W5. split; [done|]. exists x. rewrite lookup_insert_ne by eauto. done.
  - intros c m [(x & Hm & Hx & Hc)%W6 Hmn]%Hr. exists x. rewrite lookup_insert_ne; [done|]. intros <-. assert (x = js) as -> by congruence. by apply Hmn.
  - intros c. rewrite Hq. destruct (W7 c) as [? ?]. split; [done|]. rewrite Hpo. case_decide; [by apply NoDup_filter|done].
  - intros c. rewrite Hq. destruct (W8 c) as [? ?]. split; [done|]. rewrite Hpo. case_decide; [|done]. cbn. etrans; [apply length_filter|done].
  - destruct (b_scan b) as [|body m|m|m|m l stop|]; try done.
    + destruct W9 as [? Hm]. split; [done|]. apply lookup_insert_None. split; [done|]. intros E. rewrite E in Hn. congruence.
    + destruct W9 as (x & Hm & Hx). exists x. rewrite lookup_insert_ne by eauto. done.
    + destruct W9 as (x & Hm & Hx). exists x. rewrite lookup_insert_ne by eauto. done.
    + destruct W9 as [? Hm]. split; [done|]. intros x [[<- <-]|[_ Hx]]%lookup_insert_Some; [|by apply Hm].
      destruct (Hm _ Hn) as [[E _]|[E _]]; by rewrite E in Hs.
Qed.

Lemma scan_free b n : wf b -> scan_job b = Some n -> forall c, n ∉ pl_queue (b_pools b c).
Proof. intros W Hs c Hq. by apply (wf_queue _ W) in Hq as [Hne _]. Qed.

Lemma line_free b n : wf b -> b_jobs b !! n = None -> forall c, n ∉ pl_queue (b_pools b c).
Proof. intros W Hn c Hq. apply (wf_queue _ W) in Hq as (_ & js & Hj & _). congruence. Qed.

Lemma fresh_line b : wf b -> b_jobs b !! b_line b = None.
Proof. intros W. destruct (b_jobs b !! b_line b) as [js|] eqn:E; [|done]. apply (wf_line _ W) in E. lia. Qed.

(** A new job, of a line that had none. *)
Lemma wf_new b b' n js :
  wf b -> scan_job b = None -> b_jobs b !! n = None -> (n < b_line b')%nat -> (b_line b <= b_line b')%nat -> js_progress js = Queued ->
  b_jobs b' = <[n := js]> (b_jobs b) ->
  b_inflight b' = (match jb_key (js_job js) with Some key => <[key := (n, false)]> (b_inflight b) | None => b_inflight b end) ->
  (forall key, jb_key (js_job js) = Some key -> b_inflight b !! key = None) ->
  b_pools b' = b_pools b -> b_scan b' = ScanBegin n \/ b_scan b' = ScanEnqueue n -> wf b'.
Proof.
  intros W Hs Hn Hlt Hl Hq Hj Hi Hfree Hp Hsc. pose proof (line_free _ _ W Hn) as Hnq. pose proof W as [W1 W2 W3 W4 W5 W6 W7 W8 W9].
  assert (Hsj : scan_job b' = Some n) by (unfold scan_job; by destruct Hsc as [-> | ->]).
  assert (Hold : forall m x, b_jobs b !! m = Some x -> n <> m) by (intros m x Hm ->; congruence).
  assert (Hkeep : forall k v, b_inflight b !! k = Some v -> b_inflight b' !! k = Some v).
  { intros k v Hk. rewrite Hi. destruct (jb_key (js_job js)) as [key|] eqn:Ek; [|done]. apply lookup_insert_Some. right. split; [|done]. intros <-.
    specialize (Hfree _ eq_refl). congruence. }
  split; unfold live in *; rewrite ?Hj, ?Hp; try done.
  - intros m x [[<- <-]|[_ Hm]]%lookup_insert_Some; [done|]. specialize (W1 _ _ Hm). lia.
  - intros m x k [[<- <-]|[_ Hm]]%lookup_insert_Some Hk Hx.
    + rewrite Hi, Hk. exists false. by rewrite lookup_insert_eq.
    + destruct (W2 _ _ _ Hm Hk Hx) as [f Hf]. eauto.
  - intros k m f Hk. assert (Hc : b_inflight b !! k = Some (m, f) \/ jb_key (js_job js) = Some k /\ m = n).
    { rewrite Hi in Hk. destruct (jb_key (js_job js)) as [key|]; [|auto]. apply lookup_insert_Some in Hk as [[<- [= <- _]]|[_ Hk]]; auto. }
    destruct Hc as [Hk0|[Hk0 ->]].
    + destruct (W3 _ _ _ Hk0) as (x & Hm & Hkey & Hx). exists x. by rewrite lookup_insert_ne by eauto.
    + exists js. rewrite lookup_insert_eq. split; [done|]. split; [done|]. by rewrite Hq.
  - intros m x [[<- <-]|[_ Hm]]%lookup_insert_Some; [rewrite Hq; by left|]. specialize (W4 _ _ Hm). destruct (js_progress x); try done.
    destruct W4 as [E|?]; [congruence|auto].
  - intros c m Hm. destruct (W5 _ _ Hm) as (_ & x & Hx & Hr). split; [intros E; rewrite Hsj in E; injection E as ->; by eapply Hnq|]. exists x. by rewrite lookup_insert_ne by eauto.
  - intros c m (x & Hm & Hr)%W6. exists x. by rewrite lookup_insert_ne by eauto.
  - destruct Hsc as [-> | ->]; exists js; by rewrite lookup_insert_eq.
Qed.

(** A job enters its queue, in which there is room. *)
Lemma wf_queued b b' n js :
  wf b -> b_scan b = ScanEnqueue n -> b_jobs b !! n = Some js -> (length (pl_queue (b_pools b (js_class js))) < queue_capacity (js_class js))%nat ->
  b_jobs b' = b_jobs b -> b_inflight b' = b_inflight b -> b_line b' = b_line b ->
  (forall c, b_pools b' c = if decide (c = js_class js) then mkPool (pl_queue (b_pools b c) ++ [n]) (pl_running (b_pools b c)) else b_pools b c) ->
  b_scan b' = ScanIdle -> wf b'.
Proof.
  intros W Hs Hn Hroom Hj Hi Hl Hp Hs'. assert (Hsj : scan_job b = Some n) by (unfold scan_job; by rewrite Hs). pose proof (scan_free _ _ W Hsj) as Hnq.
  pose proof W as [W1 W2 W3 W4 W5 W6 W7 W8 W9]. rewrite Hs in W9. destruct W9 as (x & Hx & Hq). assert (x = js) as -> by congruence.
  assert (Hr : forall c, pl_running (b_pools b' c) = pl_running (b_pools b c)) by (intros c; rewrite Hp; by case_decide).
  assert (Hin : forall c m, m ∈ pl_queue (b_pools b' c) <-> m ∈ pl_queue (b_pools b c) \/ m = n /\ c = js_class js).
  { intros c m. rewrite Hp. case_decide as Hc; [|by intuition]. cbn. rewrite elem_of_app, list_elem_of_singleton. intuition. }
  split; unfold live, scan_job in *; rewrite ?Hj, ?Hi, ?Hl, ?Hs'; try done.
  - intros m y Hm. specialize (W4 _ _ Hm). destruct (js_progress y); rewrite ?Hr; try done. right. apply Hin. destruct W4 as [E|?]; [|auto].
    rewrite Hsj in E. injection E as ->. right. split; [done|]. congruence.
  - intros c m [Hm|[-> ->]]%Hin; split; try done; [by apply W5 in Hm as [_ ?]|by exists js].
  - intros c m. rewrite Hr. apply W6.
  - intros c. rewrite Hr. destruct (W7 c) as [Hnd ?]. split; [|done]. rewrite Hp. case_decide; [|done]. cbn. apply NoDup_app. split; [done|].
    split; [|apply NoDup_singleton]. intros m Hm ->%list_elem_of_singleton. by eapply Hnq.
  - intros c. rewrite Hr. destruct (W8 c) as [? ?]. split; [|done]. rewrite Hp. case_decide as Hc; [|done]. cbn. rewrite length_app. cbn. subst c. lia.
Qed.

(** A worker takes the first job of its queue. *)
Lemma wf_started b b' n js queue c :
  wf b -> pl_queue (b_pools b c) = n :: queue -> b_jobs b !! n = Some js -> (length (pl_running (b_pools b c)) < workers c)%nat ->
  b_jobs b' = <[n := with_progress js Waiting]> (b_jobs b) -> b_inflight b' = b_inflight b -> b_line b' = b_line b ->
  (forall d, b_pools b' d = if decide (d = c) then mkPool queue (n :: pl_running (b_pools b c)) else b_pools b d) -> b_scan b' = b_scan b -> wf b'.
Proof.
  intros W Hqu Hn Hroom Hj Hi Hl Hp Hsc. assert (Hhead : n ∈ pl_queue (b_pools b c)) by (rewrite Hqu; left).
  pose proof W as [W1 W2 W3 W4 W5 W6 W7 W8 W9]. destruct (W5 _ _ Hhead) as (Hns & x & Hx & Hq & Hc). assert (x = js) as -> by congruence.
  assert (Hnot : forall m y, b_jobs b !! m = Some y -> in_service (js_progress y) -> n <> m) by (intros m y Hm Hy <-; assert (y = js) as -> by congruence; by rewrite Hq in Hy).
  assert (Hnr : forall d, n ∉ pl_running (b_pools b d)) by (intros d (y & Hy & Hsv & _)%W6; by eapply Hnot).
  assert (Hqd : forall d m, m ∈ pl_queue (b_pools b' d) <-> m ∈ pl_queue (b_pools b d) /\ m <> n).
  { intros d m. rewrite Hp. case_decide as Hd; cbn.
    - subst d. destruct (W7 c) as [Hnd _]. rewrite Hqu in *. apply NoDup_cons in Hnd as [Hni _]. rewrite elem_of_cons. split; [intros Hm; split; [auto|by intros ->]|tauto].
    - split; [|tauto]. intros Hm. split; [done|]. intros ->. apply W5 in Hm as (_ & y & Hy & _ & Hcy). congruence. }
  assert (Hrd : forall d m, m ∈ pl_running (b_pools b' d) <-> m ∈ pl_running (b_pools b d) \/ m = n /\ d = c).
  { intros d m. rewrite Hp. case_decide as Hd; cbn; [subst d; rewrite elem_of_cons|]; intuition. }
  split; unfold live, scan_job in *; rewrite ?Hj, ?Hi, ?Hl, ?Hsc; try done.
  - intros m y [[<- <-]|[_ Hm]]%lookup_insert_Some; eauto.
  - intros m y k [[<- <-]|[_ Hm]]%lookup_insert_Some Hk Hy; [|by eapply W2]. eapply W2; [done..|]. by rewrite Hq.
  - intros k m f Hk. destruct (W3 _ _ _ Hk) as (y & Hm & Hkey & Hy). destruct (decide (n = m)) as [<-|Hne].
    + assert (y = js) as -> by congruence. eexists. rewrite lookup_insert_eq. done.
    + exists y. by rewrite lookup_insert_ne.
  - intros m y [[<- <-]|[Hne Hm]]%lookup_insert_Some; [cbn; split; [done|]; apply Hrd; auto|]. specialize (W4 _ _ Hm).
    destruct (js_progress y); try done; rewrite ?Hrd, ?Hqd; destruct W4 as [?|?] || destruct W4 as [? ?]; auto.
  - intros d m [Hm Hne]%Hqd. destruct (W5 _ _ Hm) as (? & y & Hy & ?). split; [done|]. exists y. by rewrite lookup_insert_ne.
  - intros d m [(y & Hy & Hsv & Hcy)%W6|[-> ->]]%Hrd; [exists y; rewrite lookup_insert_ne by eauto; done|]. eexists. rewrite lookup_insert_eq. done.
  - intros d. destruct (W7 d) as [Hnd Hnr']. rewrite Hp. case_decide; [|done]. subst d. cbn. rewrite Hqu in Hnd. apply NoDup_cons in Hnd as [_ ?]. split; [done|].
    by apply NoDup_cons.
  - intros d. destruct (W8 d) as [Hql ?]. rewrite Hp. case_decide; [|done]. subst d. cbn. rewrite Hqu in Hql. cbn in Hql. lia.
  - destruct (b_scan b) as [|body m|m|m|m l stop|]; try done.
    + destruct W9 as [? Hm]. split; [done|]. apply lookup_insert_None. split; [done|]. intros E. rewrite E in Hn. congruence.
    + destruct W9 as (y & Hm & Hy). exists y. rewrite lookup_insert_ne by congruence. done.
    + destruct W9 as (y & Hm & Hy). exists y. rewrite lookup_insert_ne by congruence. done.
    + destruct W9 as [? Hm]. split; [done|]. intros y [[<- <-]|[_ Hx']]%lookup_insert_Some; [congruence|by apply Hm].
Qed.

(** The reading thread ends its own job, which never reached a queue. *)
Lemma wf_dropped b b' n js l l' stop stop' :
  wf b -> b_scan b = ScanTail n l stop -> b_scan b' = ScanTail n l' stop' -> b_jobs b !! n = Some js -> js_progress js = Queued -> MFinish ∉ l' ->
  b_jobs b' = <[n := with_progress js Ended]> (b_jobs b) -> b_inflight b' = released (b_inflight b) n (js_job js) -> b_line b' = b_line b ->
  b_pools b' = b_pools b -> wf b'.
Proof.
  intros W Hs Hs' Hn Hq Hl' Hj Hi Hl Hp. assert (Hsj : scan_job b = Some n) by (unfold scan_job; by rewrite Hs). pose proof (scan_free _ _ W Hsj) as Hnq.
  pose proof W as [W1 W2 W3 W4 W5 W6 W7 W8 W9]. assert (Hlive : live js) by (unfold live; by rewrite Hq).
  split; unfold live in *; rewrite ?Hj, ?Hi, ?Hl, ?Hp; try done.
  - intros m x [[<- <-]|[_ Hm]]%lookup_insert_Some; eauto.
  - intros m x k [[<- <-]|[Hne Hm]]%lookup_insert_Some Hk Hx; [done|]. destruct (W2 _ _ _ Hm Hk Hx) as [f Hf]. exists f. by apply released_keep.
  - intros k m f Hk. destruct (W3 _ _ _ (released_lookup _ _ _ _ _ Hk)) as (x & Hm & Hkey & Hx). destruct (decide (n = m)) as [<-|Hne].
    + exfalso. by eapply (released_gone b n js).
    + exists x. by rewrite lookup_insert_ne.
  - intros m x [[<- <-]|[Hne Hm]]%lookup_insert_Some; [done|]. specialize (W4 _ _ Hm). destruct (js_progress x); try done.
    destruct W4 as [E|?]; [congruence|auto].
  - intros c m Hm. destruct (W5 _ _ Hm) as (_ & x & Hx & Hr). assert (n <> m) by (intros <-; by eapply Hnq).
    split; [unfold scan_job; rewrite Hs'; congruence|]. exists x. by rewrite lookup_insert_ne.
  - intros c m (x & Hm & Hx & Hc)%W6. exists x. rewrite lookup_insert_ne; [done|]. intros <-. assert (x = js) as -> by congruence. by rewrite Hq in Hx.
  - rewrite Hs'. rewrite Hs in W9. destruct W9 as [? _]. split; [done|]. intros x. rewrite lookup_insert_eq. intros [= <-]. by left.
Qed.

(** *** What the threads are left to do *)

Lemma finished_end_failed j l : MFinish ∉ l -> finished_last (end_failed j l).
Proof.
  intros Hl. exists (l ++ abort j "session initialization failed"). unfold end_failed. split; [by rewrite app_assoc|]. rewrite elem_of_app. intros [?|Ha]; [done|].
  unfold abort in Ha. destruct (jb_lifecycle j); cbn in Ha; set_solver.
Qed.
Lemma fail_no_finish j code message : MFinish ∉ fail j code message.
Proof. unfold fail. destruct (rm_notification _); set_solver. Qed.
Lemma abort_no_finish j message : MFinish ∉ abort j message.
Proof. unfold abort. destruct (jb_lifecycle j); set_solver. Qed.
Lemma finished_last_intro l : MFinish ∉ l -> finished_last (l ++ [MFinish]).
Proof. intros Hl. by exists l. Qed.
Hint Resolve finished_end_failed fail_no_finish abort_no_finish : core.

Lemma receive_finished j c r : finished_last (receive j c r).
Proof.
  assert (Hnil : MFinish ∉ ([] : list micro)) by set_solver.
  destruct r as [text|status sessionHeader body broken]; cbn [receive].
  - apply finished_end_failed. destruct c as [[]|]; auto.
  - destruct (decide _); [destruct (_ || _); [apply (finished_last_intro [_]); set_solver|auto]|]. destruct (_ && _); [auto|]. destruct (_ || _); [auto|].
    destruct (negb _); [auto|]. destruct (rm_notification _); [auto|]. destruct (decide _); [|apply (finished_last_intro [_]); set_solver].
    destruct (validateInitializeResponse _ _) as [[compact [version|]]|message]; [|apply (finished_last_intro [_; _]); set_solver|auto].
    destruct (sessionIDFromResponse _); [apply (finished_last_intro [_; _]); set_solver|auto].
Qed.

Lemma finished_last_cons a b l : finished_last (a :: b :: l) -> a <> MFinish /\ finished_last (b :: l).
Proof.
  intros ([|x l'] & E & Hl'); [done|]. injection E as -> E. apply not_elem_of_cons in Hl' as [? ?]. split; [congruence|]. by exists l'.
Qed.
Lemma finished_last_one a : finished_last [a] -> a = MFinish.
Proof. intros ([|x [|? ?]] & E & _); by injection E. Qed.
Lemma finished_once_cons a l : finished_once (a :: l) -> a = MFinish /\ MFinish ∉ l \/ a <> MFinish /\ finished_once l.
Proof.
  intros ([|x l1] & l2 & E & H1 & H2); injection E as -> E; [left; by subst|]. apply not_elem_of_cons in H1 as [? ?].
  right. split; [congruence|]. by exists l1, l2.
Qed.

(** *** Every step *)

Lemma newJob_cases b n body m j duplicate b' :
  newJob b n body m = (j, duplicate, b') ->
  exists q,
    (duplicate = true /\ j = zero_job /\ rm_idPresent m = true /\ is_Some (b_inflight b !! canonicalID (rm_id m)) /\ b' = set_sequence b q) \/
    (duplicate = false /\ rm_idPresent m = false /\ jb_key j = None /\ b' = set_sequence b q /\ jb_message j = m /\ jb_zero j = false /\
      jb_lifecycle j = LifecycleNone) \/
    (duplicate = false /\ rm_idPresent m = true /\ jb_key j = Some (canonicalID (rm_id m)) /\ b_inflight b !! canonicalID (rm_id m) = None /\
      b' = set_sequence (set_inflight b (<[canonicalID (rm_id m) := (n, false)]> (b_inflight b))) q /\ jb_message j = m /\ jb_zero j = false /\
      jb_lifecycle j = LifecycleNone).
Proof.
  assert (Hb : set_sequence b (b_sequence b) = b) by by destruct b.
  assert (Hb' : forall x, set_inflight b x = set_sequence (set_inflight b x) (b_sequence b)) by by destruct b.
  unfold newJob, clientRequestID. destruct (rm_idPresent m) eqn:Ei; cbn [negb]; cbn zeta iota.
  - destruct (b_inflight b !! canonicalID (rm_id m)) eqn:E; intros [= <- <- <-].
    + exists (b_sequence b). left. rewrite Hb. eauto 6.
    + exists (b_sequence b). right; right. rewrite <- Hb'. eauto 10.
  - intros [= <- <- <-]. eexists. right; left. cbn. eauto 10.
Qed.

Lemma wf_new_job b n body m j duplicate b1 js sc b' :
  wf b -> scan_job b = None -> b_jobs b !! n = None -> (n < b_line b)%nat -> newJob b n body m = (j, duplicate, b1) ->
  js_job js = j -> js_progress js = Queued -> sc = ScanBegin n \/ sc = ScanEnqueue n -> b' = set_scan (set_job b1 n js) sc -> wf b'.
Proof.
  intros W Hs Hn Hlt (q & Hc)%newJob_cases <- Hq Hsc ->.
  destruct Hc as [(_ & Hj & _ & _ & ->)|[(_ & _ & Hj & -> & _)|(_ & _ & Hj & Hfree & -> & _)]];
    eapply (wf_new b _ n js); try done; cbn; rewrite ?Hj; try done; naive_solver.
Qed.

(** Only the numbers that count move. *)
Lemma wf_quiet b b' :
  wf b -> b_jobs b' = b_jobs b -> (forall k, fst <$> b_inflight b' !! k = fst <$> b_inflight b !! k) -> (b_line b <= b_line b')%nat ->
  b_pools b' = b_pools b -> b_scan b = ScanIdle -> b_scan b' = ScanIdle \/ b_scan b' = ScanStopped -> wf b'.
Proof.
  intros W Hj Hi Hl Hp Hs Hs'. eapply wf_rescan; try done.
  - intros n. rewrite Hj. apply same_job_refl.
  - intros n js _ _. unfold scan_job. by rewrite Hs.
  - intros n c. unfold scan_job. by destruct Hs' as [-> | ->].
  - by destruct Hs' as [-> | ->].
Qed.

Lemma wf_no_job b b' n l stop :
  wf b -> b_scan b = ScanIdle -> n = b_line b -> b_line b' = S n -> b_jobs b' = b_jobs b -> b_inflight b' = b_inflight b -> b_pools b' = b_pools b ->
  b_scan b' = ScanTail n l stop -> wf b'.
Proof.
  intros W Hs -> Hl Hj Hi Hp Hs'. pose proof (fresh_line _ W) as Hn. eapply wf_rescan; try done.
  - intros m. rewrite Hj. apply same_job_refl.
  - intros k. by rewrite Hi.
  - lia.
  - intros m js _ _. unfold scan_job. by rewrite Hs.
  - intros m c. unfold scan_job. rewrite Hs'. intros [= <-]. by apply line_free.
  - rewrite Hs'. split; [lia|]. intros js. rewrite Hj. congruence.
Qed.

Lemma wf_read b body : wf b -> b_scan b = ScanIdle -> wf (read_line b body).
Proof.
  intros W Hs. pose proof (fresh_line _ W) as Hn. assert (W' : wf (set_line b (S (b_line b)))) by (eapply wf_quiet; [exact W|cbn; auto..]).
  unfold read_line. cbn zeta. destruct (bool_decide (trim_space body = [])); [done|].
  destruct (parseRPCMessage body) as [m|]; [|by eapply (wf_no_job b)].
  destruct (_ && _).
  - destruct (json_requestId (rm_params m)) as [[|x id]|]; try done. cbn [b_inflight set_line set_jobs set_inflight b_jobs b_line].
    destruct (b_inflight b !! canonicalID (x :: id)) as [[owner [|]]|] eqn:E; try done.
    eapply wf_rescan; try exact W'; cbn; try done.
    + intros n. apply same_job_alter.
    + intros k. destruct (decide (canonicalID (x :: id) = k)) as [<-|Hne]; [by rewrite lookup_insert_eq, E|by rewrite lookup_insert_ne].
    + intros n js _ _. unfold scan_job. cbn. by rewrite Hs.
    + split; [lia|]. rewrite Nat.sub_0_r. pose proof (same_job_alter CauseCancelled owner (b_line b) (b_jobs b)) as Ha. rewrite Hn in Ha. by destruct (alter _ _ _ !! _).
  - destruct (newJob _ _ _ _) as [[j duplicate] b1] eqn:Ej. pose proof Ej as (q & Hc)%newJob_cases. destruct duplicate.
    + destruct Hc as [(_ & _ & _ & _ & ->)|[[? _]|[? _]]]; try done. by eapply (wf_no_job b).
    + eapply wf_new_job; [exact W'| |exact Hn| |exact Ej|..|reflexivity]; try done; cbn; [unfold scan_job; cbn; by rewrite Hs|lia|].
      destruct (_ || _); auto.
Qed.

(** The reading thread goes from one of its sections for a job to another. *)
Lemma wf_scan_step b b' n js :
  wf b -> scan_job b = Some n -> scan_job b' = Some n -> b_jobs b !! n = Some js -> js_progress js = Queued ->
  (forall m, same_job (b_jobs b !! m) (b_jobs b' !! m)) -> b_inflight b' = b_inflight b -> b_line b' = b_line b -> b_pools b' = b_pools b ->
  match b_scan b' with ScanTail _ l _ => finished_once l | _ => True end -> wf b'.
Proof.
  intros W Hs Hs' Hn Hq Hj Hi Hl Hp Hsc. pose proof (Hj n) as Hjn. rewrite Hn in Hjn. apply same_job_of in Hjn as (js' & Hn' & _ & _ & Hq').
  eapply wf_rescan; try done.
  - intros k. by rewrite Hi.
  - by rewrite Hl.
  - intros m x _ _. congruence.
  - intros m c Hm. apply scan_free; [done|]. congruence.
  - unfold scan_job in Hs'. destruct (b_scan b') as [|body m|m|m|m l stop|]; try done; injection Hs' as ->.
    + exists js'. by rewrite Hq'.
    + exists js'. by rewrite Hq'.
    + split; [rewrite Hl; by eapply (wf_line _ W)|]. intros x Hx. right. split; [congruence|done].
Qed.

Lemma wf_begin b n js : wf b -> b_scan b = ScanBegin n -> b_jobs b !! n = Some js -> wf (begin_lifecycle b n js).
Proof.
  intros W Hs Hn. assert (Hsj : scan_job b = Some n) by (unfold scan_job; by rewrite Hs).
  pose proof (wf_scan _ W) as Hw. rewrite Hs in Hw. destruct Hw as (x & Hx & Hq). assert (x = js) as -> by congruence.
  assert (Hset : forall j m, jb_key j = jb_key (js_job js) -> same_job (b_jobs b !! m) (<[n := with_job js j]> (b_jobs b) !! m)).
  { intros j m Hk. destruct (decide (n = m)) as [<-|Hne]; [rewrite lookup_insert_eq, Hn; by cbn|rewrite lookup_insert_ne by done; apply same_job_refl]. }
  assert (Hfirst : forall l, MFinish ∉ l -> finished_once (MFinish :: l)) by (intros l Hl; exists [], l; set_solver).
  unfold begin_lifecycle. destruct (decide _).
  - destruct (beginInitialized b _) as [r b1] eqn:E. pose proof (beginInitialized_frame _ _ _ _ E) as (Ej & Ei & El & Ep & _).
    destruct r as [i|message]; eapply (wf_scan_step b _ n js); try done; cbn; rewrite ?Ej; try done.
    + intros m. by apply Hset.
    + intros m. apply same_job_refl.
    + apply Hfirst. set_solver.
  - destruct (beginInitialization b _) as [r b1] eqn:E. pose proof (beginInitialization_frame _ _ _ _ E) as (Ej & Ei & El & Ep & _).
    destruct r as [i|message]; eapply (wf_scan_step b _ n js); try done; cbn; rewrite ?Ej; try done.
    + intros m. by apply Hset.
    + intros m. apply same_job_refl.
    + apply Hfirst. set_solver.
Qed.

Lemma finished_once_intro l : MFinish ∉ l -> finished_once (l ++ [MFinish]).
Proof. intros Hl. exists l, []. set_solver. Qed.

Lemma wf_enqueue b n js stopping b' : wf b -> b_scan b = ScanEnqueue n -> b_jobs b !! n = Some js -> enqueue b n js stopping = Some b' -> wf b'.
Proof.
  intros W Hs Hn He. assert (Hsj : scan_job b = Some n) by (unfold scan_job; by rewrite Hs).
  pose proof (wf_scan _ W) as Hw. rewrite Hs in Hw. destruct Hw as (x & Hx & Hq). assert (x = js) as -> by congruence.
  assert (Hstep : forall l stop, finished_once l -> wf (scan_error b n l stop)).
  { intros l stop Hl. eapply (wf_scan_step b _ n js); try done. intros m. apply same_job_refl. }
  unfold enqueue in He. destruct stopping; [destruct (b_shutdown b); [|done]; injection He as <-; apply Hstep, finished_once_intro|].
  { destruct (js_class js); auto; set_solver. }
  case_bool_decide as Hroom.
  - injection He as <-. eapply (wf_queued b _ n js); try done. intros c. cbn. case_decide; [by subst|done].
  - destruct (js_class js); [| |done]; injection He as <-; apply Hstep.
    + unfold rejectOverloaded. rewrite app_assoc. apply finished_once_intro. rewrite elem_of_app. intros [Ha|Ha]; [by apply abort_no_finish in Ha|].
      destruct (rm_idPresent _); set_solver.
    + apply (finished_once_intro [_]). set_solver.
Qed.

Lemma wf_scan_next b n l stop : wf b -> b_scan b = ScanTail n l stop -> wf (scan_next b n l stop).
Proof.
  intros W Hs. assert (Hsj : scan_job b = Some n) by (unfold scan_job; by rewrite Hs).
  pose proof (wf_scan _ W) as Hw. rewrite Hs in Hw. destruct Hw as [Hlt Hw].
  destruct l as [|a rest]; cbn [scan_next]; cbn zeta.
  - eapply wf_rescan; try exact W; cbn; try done.
    + intros m. apply same_job_refl.
    + intros m js Hm Hq. rewrite Hsj. intros [= <-]. destruct (Hw _ Hm) as [[E _]|[_ (? & ? & E & _)]]; [congruence|]. by apply app_cons_not_nil in E.
    + intros m c. unfold scan_job. by destruct stop.
    + by destruct stop.
  - destruct (b_jobs b !! n) as [js|] eqn:Hn.
    + pose proof (perform_frame b n (js_job js) a) as (Ej & El & Ep & _ & _ & _ & _ & Ei & _). destruct (Hw _ eq_refl) as [[Hq Ha]|[Hq Ha]].
      * apply not_elem_of_cons in Ha as [Ha Hr].
        assert (E : match a with MFinish => set_job (perform b n (js_job js) a) n (with_progress js Ended) | _ => perform b n (js_job js) a end = perform b n (js_job js) a)
          by by destruct a.
        rewrite E. clear E. eapply wf_rescan; try exact W; cbn; try done.
        -- intros m. rewrite Ej. apply same_job_refl.
        -- intros k. rewrite Ei. by destruct a.
        -- by rewrite El.
        -- intros m x Hm Hq'. rewrite Hsj. intros [= <-]. congruence.
        -- intros m c Hm. apply scan_free; [done|]. unfold scan_job in Hm. cbn in Hm. congruence.
        -- split; [by rewrite El|]. intros x. rewrite Ej, Hn. intros [= <-]. by left.
      * apply finished_once_cons in Ha as [[-> Ha]|[Hne Ha]].
        -- cbn [perform] in *. eapply (wf_dropped b _ n js (MFinish :: rest) rest stop); try exact W; try done; cbn; rewrite ?Ej, ?Ei; done.
        -- assert (E : match a with MFinish => set_job (perform b n (js_job js) a) n (with_progress js Ended) | _ => perform b n (js_job js) a end = perform b n (js_job js) a)
             by by destruct a.
           rewrite E. clear E. eapply (wf_scan_step b _ n js); try done; cbn; rewrite ?Ej, ?Ei; try done; [intros m; apply same_job_refl|by destruct a].
    + pose proof (perform_frame b n no_job a) as (Ej & El & Ep & _ & _ & _ & _ & Ei & _).
      assert (E : match a, (None : option jobState) with MFinish, Some js => set_job (perform b n no_job a) n (with_progress js Ended) | _, _ => perform b n no_job a end = perform b n no_job a)
        by by destruct a.
      rewrite E. clear E. eapply wf_rescan; try exact W; cbn; try done.
      * intros m. rewrite Ej. apply same_job_refl.
      * intros k. rewrite Ei. by destruct a.
      * by rewrite El.
      * intros m x Hm Hq'. rewrite Hsj. intros [= <-]. congruence.
      * intros m c Hm. apply scan_free; [done|]. unfold scan_job in Hm. cbn in Hm. congruence.
      * split; [by rewrite El|]. intros x. rewrite Ej. congruence.
Qed.

(** A job in service goes on to another place in service. *)
Lemma wf_serve b n js p :
  wf b -> b_jobs b !! n = Some js -> in_service (js_progress js) -> in_service p -> wf (set_job b n (with_progress js p)).
Proof. intros W Hn Hs Hp. by eapply (wf_progress b _ n js p). Qed.

Lemma wf_advance b n js a rest : wf b -> b_jobs b !! n = Some js -> js_progress js = Tail (a :: rest) -> wf (advance b n js a rest).
Proof.
  intros W Hn Hp. pose proof (wf_place _ W _ _ Hn) as Hw. rewrite Hp in Hw. destruct Hw as [Hl _]. cbn in Hl.
  assert (Hs : in_service (js_progress js)) by by rewrite Hp.
  pose proof (perform_frame b n (js_job js) a) as (Ej & El & Ep & Esc & _ & _ & _ & Ei & _). unfold advance. destruct rest as [|c rest].
  - apply finished_last_one in Hl as ->. eapply (wf_finished b _ n js); try done; cbn [b_jobs b_inflight b_line b_pools b_scan set_pool set_job set_jobs]; rewrite ?Ej, ?Ep; try done.
    intros d. by case_decide; subst.
  - apply finished_last_cons in Hl as [Ha Hl]. eapply (wf_progress b _ n js (Tail (c :: rest))); try done; cbn; rewrite ?Ej, ?Ei; try done. by destruct a.
Qed.

Lemma wf_attempt b n js created signed b' :
  wf b -> b_jobs b !! n = Some js -> step b (EAttempt n created signed) = Some b' -> wf b'.
Proof.
  intros W Hn He. unfold step in He. destruct (b_crashed b); [done|]. rewrite Hn in He. cbn [mbind option_bind] in He.
  destruct (js_progress js) as [| |seen| | |] eqn:Hp; try done; assert (Hs : in_service (js_progress js)) by (by rewrite Hp);
    (destruct (requestIdentity b (js_job js)) as [sid version|message|];
      [destruct (_ || _); [|destruct (_ && _)]| |destruct (jb_zero _)]); injection He as <-;
    try (apply wf_serve; [done..|]; cbn; auto; done).
  all: try (by eapply wf_same; [..|exact W]; try done; intros m; apply same_job_refl).
  all: eapply (wf_progress b _ n js Sent); done.
Qed.

Lemma wf_step b e b' : wf b -> step b e = Some b' -> wf b'.
Proof.
  intros W He. destruct e as [body|stopping|failed| | |c|n|n created signed|n|n r|n];
    try (by destruct (b_jobs b !! n) as [js|] eqn:Hn; [eapply wf_attempt|unfold step in He; rewrite Hn in He; by destruct (b_crashed b)]);
    unfold step in He; (destruct (b_crashed b); [done|]).
  - destruct (b_scan b) eqn:Hs; try done. destruct (b_shutdown b); [done|]. injection He as <-. by apply wf_read.
  - destruct (b_scan b) as [|body m|n|n|n l stop|] eqn:Hs; try done.
    + pose proof (wf_scan _ W) as Hw. rewrite Hs in Hw. destruct Hw as [Hlt Hn]. destruct (newJob _ _ _ _) as [[j duplicate] b1] eqn:Ej. injection He as <-.
      eapply wf_new_job; [exact W| |exact Hn| |exact Ej|..|reflexivity]; try done; [unfold scan_job; by rewrite Hs|lia|by right].
    + destruct (b_jobs b !! n) as [js|] eqn:Hn; [|done]. injection He as <-. by apply wf_begin.
    + destruct (b_jobs b !! n) as [js|] eqn:Hn; [|done]. by eapply wf_enqueue.
    + injection He as <-. by apply wf_scan_next.
  - destruct (b_scan b) eqn:Hs; try done. injection He as <-. eapply wf_rescan; try exact W; destruct (failed && _); cbn; try done.
    + intros n. rewrite map_lookup_imap. destruct (b_jobs b !! n) as [js|]; cbn; [|done]. by destruct (decide _).
    + intros n. apply same_job_refl.
    + intros n js _ _. unfold scan_job. by rewrite Hs.
    + intros n js _ _. unfold scan_job. by rewrite Hs.
  - injection He as <-. eapply wf_same; [..|exact W]; try done. intros n. cbn. rewrite lookup_fmap. apply same_job_cause.
  - injection He as <-. eapply wf_same; [..|exact W]; try done. intros n. apply same_job_refl.
  - destruct (pl_queue _) as [|n queue] eqn:Hq; [done|]. case_bool_decide as Hroom; [|done]. destruct (b_jobs b !! n) as [js|] eqn:Hn; [|done]. injection He as <-.
    eapply (wf_started b _ n js queue c); try done.
  - injection He as <-. eapply wf_same; [..|exact W]; try done. intros m. apply same_job_alter.
  - destruct (b_jobs b !! n) as [js|] eqn:Hn; [|done]. cbn in He. destruct (js_progress js) as [| |seen| | |] eqn:Hp; try done. destruct (js_cause js); [|done]. injection He as <-.
    apply wf_serve; try done; [by rewrite Hp|]. cbn. auto.
  - destruct (b_jobs b !! n) as [js|] eqn:Hn; [|done]. cbn in He. destruct (js_progress js) as [| |seen| | |] eqn:Hp; try done. injection He as <-.
    apply wf_serve; try done; [by rewrite Hp|]. apply receive_finished.
  - destruct (b_jobs b !! n) as [js|] eqn:Hn; [|done]. cbn in He. destruct (js_progress js) as [| |seen| |[|a rest]|] eqn:Hp; try done. injection He as <-.
    by apply wf_advance.
Qed.

Lemma wf_newBridge : wf newBridge.
Proof. split; cbn; try done; try set_solver; [intros c; split; apply NoDup_nil_2|intros c; lia]. Qed.

(** What every step keeps holds of every run. *)
Lemma run_invariant (P : bridge -> Prop) es b b' :
  (forall c e c', P c -> step c e = Some c' -> P c') -> P b -> run es b = Some b' -> P b'.
Proof.
  intros Hstep. revert b. induction es as [|e es IH]; cbn; intros b Hb Hr; [by injection Hr as <-|].
  destruct (step b e) as [c|] eqn:E; [|done]. by eapply IH; [eapply Hstep|].
Qed.

Lemma wf_run es b : run es newBridge = Some b -> wf b.
Proof. apply run_invariant; [apply wf_step|apply wf_newBridge]. Qed.

(** ** Answers *)

(** The lines written for a line of the input, and the writes left to do for it. *)
Definition answers (b : bridge) (n : nat) : list line := (filter (fun p => p.1 = n) (b_output b)).*2.
Definition writes (l : list micro) : nat := length (filter (fun a => is_write a = true) l).
Definition due (m : rpcMessage) : nat := if rm_notification m && negb (bool_decide (rm_method m = "initialize")) then 0 else 1.
Definition tail_of (b : bridge) (n : nat) : option (list micro) :=
  match b_scan b with ScanTail k l _ => if decide (k = n) then Some l else None | _ => None end.
(** The messages that are always answered: two notifications that carry an identifier may not be. *)
Definition owed (m : rpcMessage) : bool :=
  rm_idPresent m && negb (bool_decide (rm_method m = "notifications/initialized")) && negb (bool_decide (rm_method m = "notifications/cancelled")).
Definition job_todo (js : jobState) : nat := match js_progress js with Tail l => writes l | Ended => 0 | _ => due (jb_message (js_job js)) end.
Definition todo (b : bridge) (n : nat) : nat :=
  match tail_of b n with Some l => writes l | None => match b_jobs b !! n with Some js => job_todo js | None => 0 end end.
Definition unread (b : bridge) (n : nat) : Prop :=
  (b_line b <= n)%nat \/ match b_scan b with ScanForward _ _ => S n = b_line b | _ => False end.

(** What may be written for a message: an error with its identifier, or a response that was
    validated for its identifier. *)
Definition answer_to (m : rpcMessage) (l : line) : Prop :=
  match l with
  | ErrorLine id _ _ => id = if decide (rm_id m = []) then "null" else rm_id m
  | RemoteLine compact => exists body, validateRemoteResponse body (rm_id m) = Ok compact \/
      exists version, validateInitializeResponse body (rm_id m) = Ok (compact, version)
  end.
Definition micro_to (m : rpcMessage) (a : micro) : Prop := match a with MOut l => answer_to m l | _ => True end.

(** A job as its message allows. *)
Definition proper (j : bridgeJob) : Prop :=
  (rm_idPresent (jb_message j) = true -> rm_notification (jb_message j) = false) /\
  (jb_lifecycle j = LifecycleInitialized -> rm_notification (jb_message j) = true).

Record account (b : bridge) (n : nat) : Prop := {
  ac_unread : unread b n -> answers b n = [];
  ac_most : (length (answers b n) + todo b n <= match b_jobs b !! n with Some js => due (jb_message (js_job js)) | None => 1 end)%nat;
  ac_least js : b_jobs b !! n = Some js -> owed (jb_message (js_job js)) = true -> b_broken b = false -> b_shutdown b = false ->
    (1 <= length (answers b n) + todo b n)%nat;
  ac_proper js : b_jobs b !! n = Some js -> proper (js_job js);
  ac_written js : b_jobs b !! n = Some js -> Forall (answer_to (jb_message (js_job js))) (answers b n);
  ac_left js l : b_jobs b !! n = Some js -> js_progress js = Tail l -> Forall (micro_to (jb_message (js_job js))) l;
  ac_tail js l : b_jobs b !! n = Some js -> tail_of b n = Some l -> Forall (micro_to (jb_message (js_job js))) l
}.

Definition same_part (x y : option jobState) : Prop :=
  match x, y with
  | Some x, Some y => jb_message (js_job y) = jb_message (js_job x) /\ jb_lifecycle (js_job y) = jb_lifecycle (js_job x) /\ js_progress y = js_progress x
  | None, None => True
  | _, _ => False
  end.
Lemma same_part_refl x : same_part x x.
Proof. by destruct x. Qed.

(** The reading thread goes from one of its sections for a line to the next, with nothing written. *)
Lemma account_view b b' n :
  account b n -> answers b' n = answers b n -> (todo b' n <= todo b n)%nat -> (unread b' n -> unread b n) ->
  (b_broken b' = false -> b_broken b = false) -> (b_shutdown b' = false -> b_shutdown b = false) ->
  match b_jobs b !! n, b_jobs b' !! n with
  | Some x, Some y => jb_message (js_job y) = jb_message (js_job x) /\ proper (js_job y) /\ js_progress y = js_progress x /\
      (owed (jb_message (js_job x)) = true -> b_shutdown b' = false -> (todo b n <= todo b' n)%nat) /\
      (forall l, tail_of b' n = Some l -> Forall (micro_to (jb_message (js_job x))) l)
  | None, None => True
  | _, _ => False
  end -> account b' n.
Proof.
  intros [A1 A2 A3 A4 A5 A6 A7] Ha Ht Hu Hb Hs Hj.
  destruct (b_jobs b !! n) as [x|] eqn:Hx, (b_jobs b' !! n) as [y|] eqn:Hy; try done.
  - destruct Hj as (Em & Hp & Ep & Hle & Hto). split; rewrite ?Ha, ?Hy, ?Em; try (by auto); [lia|..].
    + intros z [= <-]. rewrite Em. intros Hid Hbr Hsh. specialize (A3 _ eq_refl Hid (Hb Hbr) (Hs Hsh)). specialize (Hle Hid Hsh). lia.
    + intros z [= <-]. done.
    + intros z [= <-]. rewrite Em. by apply A5.
    + intros z l [= <-]. rewrite Em, Ep. by apply A6.
    + intros z l [= <-]. rewrite Em. apply Hto.
  - split; rewrite ?Ha, ?Hy; try (by auto). lia.
Qed.

(** A step that is not about a line leaves its account as it is. *)
Lemma account_same b b' n :
  account b n -> answers b' n = answers b n -> same_part (b_jobs b !! n) (b_jobs b' !! n) -> tail_of b' n = tail_of b n -> (unread b' n -> unread b n) ->
  (b_broken b' = false -> b_broken b = false) -> (b_shutdown b' = false -> b_shutdown b = false) -> account b' n.
Proof.
  intros A Ha Hj Ht Hu Hb Hs. pose proof A as [A1 A2 A3 A4 A5 A6 A7].
  assert (Htodo : todo b' n = todo b n).
  { unfold todo. rewrite Ht. destruct (tail_of b n); [done|]. destruct (b_jobs b !! n) as [x|], (b_jobs b' !! n) as [y|]; try done.
    destruct Hj as (Em & _ & Ep). unfold job_todo. by rewrite Ep, Em. }
  eapply account_view; try done; [by rewrite Htodo|].
  destruct (b_jobs b !! n) as [x|] eqn:Hx, (b_jobs b' !! n) as [y|] eqn:Hy; try done.
  destruct Hj as (Em & El & Ep). split; [done|]. split; [unfold proper; rewrite Em, El; by apply (A4 _ eq_refl)|]. split; [done|].
  split; [lia|]. rewrite Ht. intros l. by apply A7.
Qed.

Lemma writes_cons a l : writes (a :: l) = ((if is_write a then 1 else 0) + writes l)%nat.
Proof. unfold writes. cbn. by destruct (is_write a). Qed.
Lemma writes_app l1 l2 : writes (l1 ++ l2) = (writes l1 + writes l2)%nat.
Proof. unfold writes. by rewrite filter_app, length_app. Qed.

(** What the rest of a job may be: its message says how much may be written, and what. *)
Record rest_ok (m : rpcMessage) (l : list micro) : Prop := {
  ro_most : (writes l <= due m)%nat;
  ro_to : Forall (micro_to m) l
}.

Lemma error_answers m errorCode message : answer_to m (error_line (rm_id m) errorCode message).
Proof. done. Qed.
Hint Resolve error_answers : core.

Lemma end_failed_rest j l : rest_ok (jb_message j) l -> rest_ok (jb_message j) (end_failed j l) /\ writes (end_failed j l) = writes l.
Proof.
  intros [Hm Hf]. assert (E : writes (end_failed j l) = writes l).
  { unfold end_failed. rewrite !writes_app. assert (writes (abort j "session initialization failed") = 0%nat) as -> by (unfold abort; by destruct (jb_lifecycle j)).
    change (writes [MFinish]) with 0%nat. lia. }
  split; [|done]. split; [by rewrite E|]. unfold end_failed, abort. apply Forall_app. split; [done|]. destruct (jb_lifecycle j); repeat constructor.
Qed.
Lemma fail_rest j errorCode message : rest_ok (jb_message j) (fail j errorCode message).
Proof.
  unfold fail. destruct (rm_notification _) eqn:E; (split; [|by repeat constructor]); unfold due; rewrite E; [|done].
  change (writes [MLog message]) with 0%nat. lia.
Qed.
Lemma fail_writes j errorCode message : rm_notification (jb_message j) = false -> writes (fail j errorCode message) = 1%nat.
Proof. unfold fail. by intros ->. Qed.

Lemma quiet_ok m l : writes l = 0%nat -> Forall (micro_to m) l -> rest_ok m l.
Proof. intros E Hf. split; [rewrite E; lia|done]. Qed.
Lemma one_ok m l : rm_notification m = false -> writes l = 1%nat -> Forall (micro_to m) l -> rest_ok m l.
Proof. intros E E' Hf. split; [rewrite E'; unfold due; by rewrite E|done]. Qed.
Lemma writeRemote_answers body m : answer_to m (writeRemote body (rm_id m)).
Proof. unfold writeRemote. destruct (validateRemoteResponse _ _) eqn:E; [cbn; eauto|done]. Qed.

Lemma owed_id m : owed m = true -> rm_idPresent m = true.
Proof. unfold owed. by intros [[? _]%andb_true_iff _]%andb_true_iff. Qed.
(** The rest of a job that was answered to: what it may write, and, for a request, that it does. *)
Definition answered (j : bridgeJob) (l : list micro) : Prop :=
  rest_ok (jb_message j) l /\ (owed (jb_message j) = true -> (1 <= writes l)%nat).

Lemma answered_fail j errorCode message : proper j -> answered j (end_failed j (fail j errorCode message)).
Proof.
  intros [Hid _]. destruct (end_failed_rest j _ (fail_rest j errorCode message)) as [Hok E]. split; [done|]. intros Hi%owed_id. rewrite E, fail_writes; [lia|auto].
Qed.
Lemma answered_one j l : rm_notification (jb_message j) = false -> writes l = 1%nat -> Forall (micro_to (jb_message j)) l -> answered j l.
Proof. intros Hn E Hf. split; [by apply one_ok|rewrite E; lia]. Qed.
Lemma answered_none j l : proper j -> rm_notification (jb_message j) = true -> writes l = 0%nat -> Forall (micro_to (jb_message j)) l -> answered j l.
Proof. intros [Hid _] Hn E Hf. split; [by apply quiet_ok|]. intros Hi%owed_id. rewrite Hid in Hn by done. done. Qed.
Lemma answered_quiet j : proper j -> rm_notification (jb_message j) = true -> answered j (end_failed j []).
Proof. intros Hp Hn. destruct (end_failed_rest j []) as [[_ Hf] E]; [by split; [unfold writes; cbn; lia|]|]. by apply answered_none. Qed.

Lemma receive_answers j c r : proper j -> c <> Some CauseShutdown -> answered j (receive j c r).
Proof.
  intros Hp Hc. pose proof Hp as [_ Hl]. destruct r as [text|status sessionHeader body broken]; cbn [receive].
  - destruct c as [[| | |]|]; try done; by apply answered_fail.
  - destruct (decide _) as [E|_]; [destruct (_ || _); [apply answered_none; auto; by repeat constructor|by apply answered_fail]|].
    destruct (rm_notification (jb_message j)) eqn:Hn; cbn [andb].
    + destruct (_ || _); [by apply answered_quiet|]. destruct (_ || _); [by apply answered_fail|]. destruct (negb _); [by apply answered_fail|by apply answered_quiet].
    + destruct (_ || _); [by apply answered_fail|]. destruct (negb _); [by apply answered_fail|]. destruct (decide _).
      * destruct (validateInitializeResponse _ _) as [[compact [version|]]|message] eqn:Ev; [|..|by apply answered_fail].
        -- destruct (sessionIDFromResponse _); [|by apply answered_fail]. apply answered_one; auto. repeat constructor. cbn. eauto.
        -- apply answered_one; auto. repeat constructor. cbn. eauto.
      * apply answered_one; auto. repeat constructor. apply writeRemote_answers.
Qed.

Lemma receive_rest j c r : proper j -> rest_ok (jb_message j) (receive j c r).
Proof.
  intros Hp. destruct (decide (c = Some CauseShutdown)) as [->|Hc]; [|by apply receive_answers]. destruct r as [text|status sessionHeader body broken].
  - cbn [receive]. apply end_failed_rest. by apply quiet_ok.
  - apply (receive_answers j None (Reply status sessionHeader body broken)); done.
Qed.

(** *** The books of a bridge *)

(** Only ordinary jobs are owed an answer; a job that is done with the bridge says so. *)
Definition job_ok (shutdown : bool) (js : jobState) : Prop :=
  (js_class js = Ordinary \/ owed (jb_message (js_job js)) = false) /\ (js_cause js = Some CauseShutdown -> shutdown = true).

Record books (b : bridge) : Prop := {
  bk_wf : wf b;
  bk_account n : account b n;
  bk_jobs n js : b_jobs b !! n = Some js -> job_ok (b_shutdown b) js;
  bk_begin n js : b_scan b = ScanBegin n -> b_jobs b !! n = Some js -> js_class js = Lifecycle \/ rm_method (jb_message (js_job js)) = "initialize";
  bk_forward body m : b_scan b = ScanForward body m -> (rm_idPresent m = true -> rm_notification m = false) /\ rm_method m = "notifications/cancelled"
}.

Lemma served_no_tail b n js : wf b -> b_jobs b !! n = Some js -> in_service (js_progress js) -> tail_of b n = None.
Proof.
  intros W Hn Hs. unfold tail_of. destruct (b_scan b) as [|body m|m|m|m l stop|] eqn:Hsc; try done. case_decide as E; [|done]. subst m.
  pose proof (wf_scan _ W) as Hw. rewrite Hsc in Hw. destruct Hw as [_ Hw]. destruct (Hw _ Hn) as [[E _]|[E _]]; by rewrite E in Hs.
Qed.
Lemma scan_no_tail b n : scan_job b <> Some n -> tail_of b n = None.
Proof. unfold scan_job, tail_of. destruct (b_scan b); try done. case_decide; congruence. Qed.

(** A thread goes on with its job, with nothing written. *)
Lemma account_serve b n js p :
  books b -> b_jobs b !! n = Some js -> tail_of b n = None ->
  match p with
  | Tail l => rest_ok (jb_message (js_job js)) l /\ (owed (jb_message (js_job js)) = true -> b_shutdown b = false -> (1 <= writes l)%nat)
  | Ended => False
  | _ => True
  end ->
  match js_progress js with Tail _ | Ended => False | _ => True end ->
  account (set_job b n (with_progress js p)) n.
Proof.
  intros [W A _ _ _] Hn Ht Hp Hbefore. destruct (A n) as [A1 A2 A3 A4 A5 A6 A7]. rewrite Hn in A2.
  assert (Hdue : todo b n = due (jb_message (js_job js))).
  { unfold todo. rewrite Ht, Hn. unfold job_todo. by destruct (js_progress js). }
  assert (Hno : answers b n = []) by (destruct (answers b n); [done|cbn in A2; lia]).
  assert (Htodo : todo (set_job b n (with_progress js p)) n = match p with Tail l => writes l | Ended => 0%nat | _ => due (jb_message (js_job js)) end).
  { unfold todo, tail_of in *. cbn. rewrite Ht, lookup_insert_eq. by destruct p. }
  assert (Ha : answers (set_job b n (with_progress js p)) n = []) by exact Hno.
  split; rewrite ?Ha, ?Htodo; cbn [b_jobs set_job set_jobs b_broken b_shutdown]; rewrite ?lookup_insert_eq; cbn [length js_job with_progress].
  - done.
  - destruct p as [| |seen| |l|]; try lia. destruct Hp as [[Hm _] _]. lia.
  - intros x [= <-]. cbn. intros Hid Hb Hsh. destruct p as [| |seen| |l|]; try done; try (specialize (A3 _ Hn Hid Hb Hsh); rewrite Hno, Hdue in A3; cbn in A3; lia).
    destruct Hp as [_ Hp]. auto.
  - intros x [= <-]. apply (A4 _ Hn).
  - done.
  - intros x l [= <-] E. cbn in *. subst p. by destruct Hp as [[_ ?] _].
  - intros x l _. by unfold tail_of in *; cbn; rewrite Ht.
Qed.

(** *** One section writes, or does not *)

Definition written (b : bridge) (a : micro) : list line := match a with MOut l => if b_broken b then [] else [l] | _ => [] end.

Lemma perform_answers b n j a m : answers (perform b n j a) m = answers b m ++ (if decide (n = m) then written b a else []).
Proof.
  pose proof (perform_frame b n j a) as (_ & _ & _ & _ & _ & _ & _ & _ & Eo). unfold answers. rewrite Eo. unfold written.
  destruct a as [l|message|i sessionID version|i message|i|i message|]; try (case_decide; by rewrite app_nil_r).
  destruct (b_broken b); [case_decide; by rewrite app_nil_r|]. rewrite filter_app, fmap_app. f_equal. rewrite filter_cons. cbn.
  case_decide; [|done]. done.
Qed.

Lemma account_write b b' n a rest :
  account b n -> todo b n = writes (a :: rest) -> todo b' n = writes rest -> answers b' n = answers b n ++ written b a -> ~ unread b' n ->
  b_broken b' = b_broken b -> b_shutdown b' = b_shutdown b ->
  match b_jobs b !! n, b_jobs b' !! n with
  | Some x, Some y => jb_message (js_job y) = jb_message (js_job x) /\ proper (js_job y) /\ micro_to (jb_message (js_job x)) a /\
      Forall (micro_to (jb_message (js_job x))) rest /\ (forall l, js_progress y = Tail l -> l = rest) /\ (forall l, tail_of b' n = Some l -> l = rest)
  | None, None => True
  | _, _ => False
  end -> account b' n.
Proof.
  intros [A1 A2 A3 A4 A5 A6 A7] Ht Ht' Ha Hu Hb Hs Hj. rewrite Ht, writes_cons in A2.
  assert (Hlen : (length (written b a) <= if is_write a then 1 else 0)%nat) by (unfold written; destruct a; cbn; try lia; destruct (b_broken b); cbn; lia).
  destruct (b_jobs b !! n) as [x|] eqn:Hx, (b_jobs b' !! n) as [y|] eqn:Hy; try done.
  - destruct Hj as (Em & Hp & Hm & Hr & Hl & Htl). split; rewrite ?Ht', ?Ha, ?length_app, ?Hy, ?Hb, ?Hs, ?Em; try done.
    + lia.
    + intros z [= <-]. rewrite Em. intros Hid Hbr Hsh. specialize (A3 _ eq_refl Hid Hbr Hsh). rewrite Ht, writes_cons in A3.
      assert (length (written b a) = if is_write a then 1 else 0)%nat as -> by (unfold written; rewrite Hbr; by destruct a). lia.
    + intros z [= <-]. done.
    + intros z [= <-]. rewrite Em. apply Forall_app. split; [by apply A5|]. unfold written. destruct a; try done. destruct (b_broken b); [done|]. by repeat constructor.
    + intros z l [= <-] E. rewrite Em. by rewrite (Hl _ E).
    + intros z l [= <-] E. rewrite Em. by rewrite (Htl _ E).
  - split; rewrite ?Ht', ?Ha, ?length_app, ?Hy; try done. lia.
Qed.

Lemma account_advance b n js a rest m : books b -> b_jobs b !! n = Some js -> js_progress js = Tail (a :: rest) -> account (advance b n js a rest) m.
Proof.
  intros [W A _ _ _] Hn Hp. pose proof (perform_frame b n (js_job js) a) as (Ej & El & Ep & Esc & _ & Es & Eb & _ & _).
  assert (Ht : tail_of b n = None) by (eapply served_no_tail; [done..|]; pose proof (wf_place _ W _ _ Hn) as Hw; rewrite Hp in Hw; rewrite Hp; apply Hw).
  assert (Hf : b_jobs (advance b n js a rest) = <[n := with_progress js (match rest with [] => Ended | _ => Tail rest end)]> (b_jobs b) /\
    b_scan (advance b n js a rest) = b_scan b /\ b_line (advance b n js a rest) = b_line b /\ b_broken (advance b n js a rest) = b_broken b /\
    b_shutdown (advance b n js a rest) = b_shutdown b /\ forall k, answers (advance b n js a rest) k = answers (perform b n (js_job js) a) k).
  { unfold advance. destruct rest; cbn; rewrite ?Ej; done. }
  destruct Hf as (Fj & Fs & Fl & Fb & Fsh & Fa).
  assert (Ft : forall k, tail_of (advance b n js a rest) k = tail_of b k) by (intros k; unfold tail_of; by rewrite Fs).
  assert (Fu : forall k, unread (advance b n js a rest) k -> unread b k) by (intros k; unfold unread; by rewrite Fs, Fl).
  destruct (decide (n = m)) as [<-|Hne].
  - pose proof (A n) as An. eapply (account_write b _ n a rest); try done.
    + unfold todo. by rewrite Ht, Hn; unfold job_todo; rewrite Hp.
    + unfold todo. rewrite Ft, Ht, Fj, lookup_insert_eq. by destruct rest.
    + rewrite Fa, perform_answers. by rewrite decide_True.
    + intros Hu%Fu. destruct Hu as [Hu|Hu]; [pose proof (wf_line _ W _ _ Hn); lia|]. pose proof (wf_scan _ W) as Hw. destruct (b_scan b); try done.
      destruct Hw as [_ Hw]. replace (b_line b - 1)%nat with n in Hw by lia. congruence.
    + rewrite Fj, lookup_insert_eq, Hn. cbn. pose proof (ac_left _ _ An _ _ Hn Hp) as [Hma Hmr]%Forall_cons. split; [done|]. split; [by apply (ac_proper _ _ An)|].
      do 2 (split; [done|]). split; [intros l; by destruct rest; intros [= <-]|]. intros l. by rewrite Ft, Ht.
  - eapply account_same; [apply A|..]; try done.
    + rewrite Fa, perform_answers, decide_False by done. apply app_nil_r.
    + rewrite Fj, lookup_insert_ne by done. apply same_part_refl.
    + apply Fu.
    + by rewrite Fb.
    + by rewrite Fsh.
Qed.

Lemma account_scan_next b n l stop m : books b -> b_scan b = ScanTail n l stop -> account (scan_next b n l stop) m.
Proof.
  intros [W A _ _ _] Hs. pose proof (wf_scan _ W) as Hw. rewrite Hs in Hw. destruct Hw as [Hlt Hw].
  assert (Ht : forall k, tail_of b k = if decide (n = k) then Some l else None) by (intros k; unfold tail_of; by rewrite Hs).
  destruct l as [|a rest]; cbn [scan_next]; cbn zeta.
  - assert (Ht' : forall k, tail_of (set_scan b (if stop then ScanStopped else ScanIdle)) k = None) by (intros k; unfold tail_of; by destruct stop).
    assert (Htodo : todo (set_scan b (if stop then ScanStopped else ScanIdle)) m = todo b m).
    { unfold todo. rewrite Ht', Ht. case_decide as E; [|done]. subst m. cbn. destruct (b_jobs b !! n) as [js|] eqn:Hn; [|done]. unfold job_todo.
      destruct (Hw _ eq_refl) as [[-> _]|[_ (? & ? & E & _)]]; [done|]. by apply app_cons_not_nil in E. }
    eapply account_view; [apply A|..]; try done; [by rewrite Htodo|by (intros [?|Hu]; [left|destruct stop])|].
    cbn. destruct (b_jobs b !! m) as [x|] eqn:Hx; [|done]. split; [done|]. split; [by apply (ac_proper _ _ (A m))|]. split; [done|]. split; [by rewrite Htodo|].
    intros l. by rewrite Ht'.
  - set (js := b_jobs b !! n). set (j := match js with Some js => js_job js | None => no_job end).
    pose proof (perform_frame b n j a) as (Ej & El & Ep & Esc & _ & Es & Eb & _ & _).
    set (b' := set_scan _ _).
    assert (Hj : forall k, b_jobs b' !! k = if decide (n = k) then match a, js with MFinish, Some js => Some (with_progress js Ended) | _, _ => js end else b_jobs b !! k).
    { intros k. unfold b'. clear b'. destruct a; cbn [perform b_jobs set_scan] in *; try (try rewrite Ej; case_decide; [by subst k|done]).
      destruct js as [js'|] eqn:Hn; cbn [b_jobs set_job set_jobs]; rewrite Ej; case_decide as E; try done; try by subst k.
      - subst k. by rewrite lookup_insert_eq.
      - by rewrite lookup_insert_ne. }
    assert (Hrest : b_line b' = b_line b /\ b_broken b' = b_broken b /\ b_shutdown b' = b_shutdown b /\ forall k, answers b' k = answers (perform b n j a) k).
    { unfold b'. clear b' Hj. destruct a; cbn [perform] in *; try done; by destruct js. }
    destruct Hrest as (Fl & Fb & Fs & Fa).
    assert (Ft : forall k, tail_of b' k = if decide (n = k) then Some rest else None) by done.
    destruct (decide (n = m)) as [<-|Hne].
    + pose proof (A n) as An. eapply (account_write b _ n a rest); try done.
      * unfold todo. by rewrite Ht, decide_True.
      * unfold todo. by rewrite Ft, decide_True.
      * rewrite Fa, perform_answers. by rewrite decide_True.
      * intros [Hu|Hu]; [rewrite Fl in Hu; lia|done].
      * rewrite Hj, decide_True by done. unfold js. destruct (b_jobs b !! n) as [x|] eqn:Hx; [|by destruct a].
        pose proof (ac_tail _ _ An _ (a :: rest) Hx) as Hto. rewrite Ht, decide_True in Hto by done. specialize (Hto eq_refl). apply Forall_cons in Hto as [Hma Hmr].
        pose proof (ac_proper _ _ An _ Hx) as Hpr. assert (Hno : forall l, js_progress x <> Tail l) by (intros l; destruct (Hw _ eq_refl) as [[-> _]|[-> _]]; done).
        assert (Htl : forall l, tail_of b' n = Some l -> l = rest) by (intros l; rewrite Ft, decide_True by done; by intros [= <-]).
        destruct a; (split; [done|]; do 3 (split; [done|]); split; [intros l' E; try (by apply Hno in E); done|done]).
    + eapply account_same; [apply A|..]; try done.
      * rewrite Fa, perform_answers, decide_False by done. apply app_nil_r.
      * rewrite Hj, decide_False by done. apply same_part_refl.
      * by rewrite Ft, Ht, !decide_False.
      * intros [Hu|Hu]; [left; by rewrite <- Fl|done].
      * by rewrite Fb.
      * by rewrite Fs.
Qed.

Lemma account_scan_move b b' n js js' o m :
  books b -> (forall k, tail_of b k = None) -> b_jobs b !! n = Some js -> js_progress js = Queued ->
  (forall k, b_jobs b' !! k = if decide (n = k) then Some js' else b_jobs b !! k) ->
  jb_message (js_job js') = jb_message (js_job js) -> proper (js_job js') -> js_progress js' = Queued ->
  b_output b' = b_output b -> b_line b' = b_line b -> b_broken b' = b_broken b -> b_shutdown b' = b_shutdown b ->
  (forall k, tail_of b' k = if decide (n = k) then o else None) -> match b_scan b' with ScanForward _ _ => False | _ => True end ->
  match o with
  | None => True
  | Some l => (writes l <= due (jb_message (js_job js)))%nat /\ Forall (micro_to (jb_message (js_job js))) l /\
      (owed (jb_message (js_job js)) = true -> b_shutdown b = false -> (1 <= writes l)%nat)
  end -> account b' m.
Proof.
  intros [W A _ _ _] Ht Hn Hq Hj Em Hp Hq' Ho Hl Hb Hs Ht' Hf Hc.
  assert (Ha : forall k, answers b' k = answers b k) by (intros k; unfold answers; by rewrite Ho).
  assert (Hu : unread b' m -> unread b m) by (intros [Hu|Hu]; [left; by rewrite <- Hl|by destruct (b_scan b')]).
  destruct (decide (n = m)) as [<-|Hne].
  - assert (Hd : todo b n = due (jb_message (js_job js))) by (unfold todo; rewrite Ht, Hn; unfold job_todo; by rewrite Hq).
    assert (Hd' : todo b' n = match o with Some l => writes l | None => due (jb_message (js_job js)) end).
    { unfold todo. rewrite Ht', Hj, !decide_True by done. destruct o; [done|]. unfold job_todo. by rewrite Hq', Em. }
    pose proof (ac_most _ _ (A n)) as Hmost. rewrite Hn, Hd in Hmost.
    eapply account_view; [apply A|..]; try done; try congruence.
    + rewrite Hd, Hd'. destruct o as [l|]; [apply Hc|lia].
    + rewrite Hj, decide_True, Hn by done. split; [done|]. split; [done|]. split; [congruence|]. split.
      * intros Hid Hsh. rewrite Hs in Hsh. rewrite Hd, Hd'. destruct o as [l|]; [|lia]. destruct Hc as (_ & _ & Hc). specialize (Hc Hid Hsh).
        unfold due in *. destruct (_ && _); lia.
      * intros l. rewrite Ht', decide_True by done. intros ->. apply Hc.
  - eapply account_same; [apply A|..]; try done; try congruence.
    + rewrite Hj, decide_False by done. apply same_part_refl.
    + by rewrite Ht', Ht, decide_False.
Qed.

Lemma no_tail b : match b_scan b with ScanTail _ _ _ => False | _ => True end -> forall k, tail_of b k = None.
Proof. intros Hs k. unfold tail_of. by destruct (b_scan b). Qed.

Lemma beginInitialized_notification b m i b' : beginInitialized b m = (Ok i, b') -> rm_notification m = true.
Proof. unfold beginInitialized. destruct (rm_notification m); [done|]. done. Qed.

Lemma writes_quiet l k : writes l = 0%nat -> (writes l <= k)%nat.
Proof. lia. Qed.

Lemma account_begin b n js m : books b -> b_scan b = ScanBegin n -> b_jobs b !! n = Some js -> account (begin_lifecycle b n js) m.
Proof.
  intros K Hs Hn. pose proof K as [W A Kc Kb _]. pose proof (wf_scan _ W) as Hw. rewrite Hs in Hw. destruct Hw as (x & Hx & Hq). assert (x = js) as -> by congruence.
  assert (Ht : forall k, tail_of b k = None) by (apply no_tail; by rewrite Hs).
  assert (Hkeep : forall k, b_jobs b !! k = if decide (n = k) then Some js else b_jobs b !! k) by (intros k; case_decide; [by subst|done]).
  assert (Hset : forall j k, <[n := with_job js j]> (b_jobs b) !! k = if decide (n = k) then Some (with_job js j) else b_jobs b !! k).
  { intros j k. case_decide as E; [subst k; by rewrite lookup_insert_eq|by rewrite lookup_insert_ne]. }
  pose proof (ac_proper _ _ (A n) _ Hn) as Hpr. pose proof Hpr as [Hp1 Hp2].
  unfold begin_lifecycle. destruct (decide (js_class js = Lifecycle)) as [Hc|Hc].
  - destruct (beginInitialized b _) as [r b1] eqn:E. pose proof (beginInitialized_frame _ _ _ _ E) as (Ej & Ei & El & Ep & _ & _ & Es & Eb & Eo & _).
    destruct r as [i|message].
    + apply beginInitialized_notification in E. eapply (account_scan_move b _ n js (with_job js (with_lifecycle (js_job js) i LifecycleInitialized)) None); try done.
      * intros k. cbn. rewrite Ej. apply Hset.
      * intros k. by case_decide.
    + eapply (account_scan_move b _ n js js (Some _)); try done; [intros k; cbn; rewrite Ej; apply Hkeep|]. split; [by apply writes_quiet|]. split; [by repeat constructor|].
      destruct (proj1 (Kc _ _ Hn)) as [?| ->]; [congruence|done].
  - destruct (beginInitialization b _) as [r b1] eqn:E. pose proof (beginInitialization_frame _ _ _ _ E) as (Ej & Ei & El & Ep & _ & _ & Es & Eb & Eo & _).
    destruct r as [i|message].
    + eapply (account_scan_move b _ n js (with_job js (with_lifecycle (js_job js) i LifecycleInitialize)) None); try done.
      * intros k. cbn. rewrite Ej. apply Hset.
      * intros k. by case_decide.
    + eapply (account_scan_move b _ n js js (Some _)); try done; [intros k; cbn; rewrite Ej; apply Hkeep|]. destruct (Kb _ _ Hs Hn) as [?|Hm]; [done|].
      split; [|split; [by repeat constructor|by intros; cbn]]. unfold due. rewrite Hm, bool_decide_true, andb_false_r by done. by cbn.
Qed.

Lemma account_enqueue b n js stopping b' m :
  books b -> b_scan b = ScanEnqueue n -> b_jobs b !! n = Some js -> enqueue b n js stopping = Some b' -> account b' m.
Proof.
  intros K Hs Hn He. pose proof K as [W A Kc Kb _]. pose proof (wf_scan _ W) as Hw. rewrite Hs in Hw. destruct Hw as (x & Hx & Hq). assert (x = js) as -> by congruence.
  assert (Ht : forall k, tail_of b k = None) by (apply no_tail; by rewrite Hs).
  assert (Hkeep : forall k, b_jobs b !! k = if decide (n = k) then Some js else b_jobs b !! k) by (intros k; case_decide; [by subst|done]).
  pose proof (ac_proper _ _ (A n) _ Hn) as Hpr. pose proof Hpr as [Hp1 _].
  assert (Hab : forall message, writes (abort (js_job js) message) = 0%nat /\ Forall (micro_to (jb_message (js_job js))) (abort (js_job js) message)).
  { intros message. unfold abort. destruct (jb_lifecycle _); by repeat constructor. }
  unfold enqueue in He. destruct stopping.
  - destruct (b_shutdown b) eqn:Hsh; [|done]. injection He as <-. eapply (account_scan_move b _ n js js (Some _)); try done.
    rewrite writes_app. destruct (Hab "bridge shutting down before initialize was sent") as [Hw Hf]. change (writes [MFinish]) with 0%nat.
    split; [destruct (js_class js); [rewrite Hw; lia|by apply Nat.le_0_l..]|]. split; [|congruence].
    apply Forall_app. split; [destruct (js_class js); [done|by repeat constructor..]|by repeat constructor].
  - case_bool_decide.
    + injection He as <-. eapply (account_scan_move b _ n js js None); try done. intros k. by case_decide.
    + destruct (Hab overloadMessage) as [Hw Hf].
      destruct (js_class js) eqn:Hcl; [| |done]; injection He as <-; (eapply (account_scan_move b _ n js js (Some _)); try done).
      * unfold rejectOverloaded. rewrite !writes_app, Hw. change (writes [MFinish]) with 0%nat. destruct (rm_idPresent _) eqn:Hid.
        -- split; [unfold due; rewrite Hp1 by done; by cbn|]. split; [|intros; apply le_n]. rewrite !Forall_app. split; [done|]. by repeat constructor.
        -- split; [apply Nat.le_0_l|]. split; [|intros Ho%owed_id; congruence]. rewrite !Forall_app. split; [done|]. by repeat constructor.
      * split; [by apply writes_quiet|]. split; [by repeat constructor|]. destruct (proj1 (Kc _ _ Hn)) as [?| ->]; [congruence|done].
Qed.

Lemma account_new b b' n js m :
  books b -> (forall k, tail_of b k = None) -> b_jobs b !! n = None -> unread b n -> b_jobs b' = <[n := js]> (b_jobs b) ->
  js_progress js = Queued -> proper (js_job js) -> b_output b' = b_output b -> b_broken b' = b_broken b -> b_shutdown b' = b_shutdown b ->
  b_scan b' = ScanBegin n \/ b_scan b' = ScanEnqueue n -> (b_line b <= b_line b')%nat -> account b' m.
Proof.
  intros [W A _ _ _] Ht Hn Hu Hj Hq Hp Ho Hb Hs Hsc Hl.
  assert (Ha : forall k, answers b' k = answers b k) by (intros k; unfold answers; by rewrite Ho).
  assert (Ht' : forall k, tail_of b' k = None) by (apply no_tail; by destruct Hsc as [-> | ->]).
  assert (Hu' : unread b' m -> unread b m) by (intros [Hu'|Hu']; [left; lia|by destruct Hsc as [E|E]; rewrite E in Hu']).
  pose proof (ac_unread _ _ (A n) Hu) as Hno. destruct (decide (n = m)) as [<-|Hne].
  - assert (Hd : todo b' n = due (jb_message (js_job js))) by (unfold todo; rewrite Ht', Hj, lookup_insert_eq; unfold job_todo; by rewrite Hq).
    split; rewrite ?Ha, ?Hno, ?Hd, ?Hj, ?lookup_insert_eq; cbn [length]; try done.
    + intros x [= <-] Hid%owed_id _ _. unfold due. destruct Hp as [Hp _]. rewrite Hp by done. cbn. lia.
    + by intros x [= <-].
    + intros x l [= <-]. by rewrite Hq.
    + intros x l _. by rewrite Ht'.
  - eapply account_same; [apply A|..]; try done; try congruence.
    + rewrite Hj, lookup_insert_ne by done. apply same_part_refl.
Qed.

Lemma account_reject b b' n l m :
  books b -> (forall k, tail_of b k = None) -> b_jobs b !! n = None -> unread b n -> b_jobs b' = b_jobs b -> (writes l <= 1)%nat ->
  b_output b' = b_output b -> b_broken b' = b_broken b -> b_shutdown b' = b_shutdown b -> (exists stop, b_scan b' = ScanTail n l stop) ->
  (b_line b <= b_line b')%nat -> (n < b_line b')%nat -> account b' m.
Proof.
  intros [W A _ _ _] Ht Hn Hu Hj Hw Ho Hb Hs [stop Hsc] Hl Hlt.
  assert (Ha : forall k, answers b' k = answers b k) by (intros k; unfold answers; by rewrite Ho).
  assert (Ht' : forall k, tail_of b' k = if decide (n = k) then Some l else None) by (intros k; unfold tail_of; by rewrite Hsc).
  assert (Hu' : unread b' m -> unread b m /\ n <> m) by (intros [Hu'|Hu']; [split; [left; lia|lia]|by rewrite Hsc in Hu']).
  pose proof (ac_unread _ _ (A n) Hu) as Hno. destruct (decide (n = m)) as [<-|Hne].
  - assert (Hd : todo b' n = writes l) by (unfold todo; by rewrite Ht', decide_True).
    split; rewrite ?Ha, ?Hno, ?Hd, ?Hj, ?Hn; try done.
  - eapply account_same; [apply A|..]; try done; try congruence.
    + rewrite Hj. apply same_part_refl.
    + by rewrite Ht', Ht, decide_False.
    + by intros [? _]%Hu'.
Qed.

Lemma parsed_proper body m : parseRPCMessage body = Some m -> rm_idPresent m = true -> rm_notification m = false.
Proof. unfold parseRPCMessage. destruct (json_fields body) as [fields|]; [|done]. intros [= <-]. cbn. by intros ->. Qed.

Lemma newJob_proper b n body m j duplicate b' :
  newJob b n body m = (j, duplicate, b') -> (rm_idPresent m = true -> rm_notification m = false) -> proper j /\ (jb_message j = m \/ jb_message j = zero_message).
Proof.
  intros (q & [(_ & -> & _)|[(_ & _ & _ & _ & <- & _ & Hl)|(_ & _ & _ & _ & _ & <- & _ & Hl)]])%newJob_cases Hp; (split; [split; [|]|auto]); try done; by rewrite Hl.
Qed.

Lemma account_read b body m : books b -> b_scan b = ScanIdle -> account (read_line b body) m.
Proof.
  intros K Hs. pose proof K as [W A Kc Kb _]. pose proof (fresh_line _ W) as Hn. assert (Ht : forall k, tail_of b k = None) by (apply no_tail; by rewrite Hs).
  assert (Hu : unread b (b_line b)) by by left.
  assert (Hline : account (set_line b (S (b_line b))) m).
  { eapply account_same; [apply A|..]; try done; [apply same_part_refl|]. intros [?|?]; [left; cbn in *; lia|cbn in *; by rewrite Hs in *]. }
  unfold read_line. cbn zeta. destruct (bool_decide (trim_space body = [])); [done|].
  destruct (parseRPCMessage body) as [r|] eqn:Er; [|(eapply (account_reject b _ (b_line b)); [exact K|exact Ht|exact Hn|exact Hu|done| |done|done|done|by eexists|..]; first [apply le_n|cbn; lia])].
  destruct (_ && _).
  - destruct (json_requestId (rm_params r)) as [[|x id]|]; try done. cbn [b_inflight set_line set_jobs set_inflight b_jobs b_line].
    destruct (b_inflight b !! canonicalID (x :: id)) as [[owner [|]]|] eqn:E; try done.
    eapply account_same; [apply A|..]; try done; cbn.
    + destruct (decide (owner = m)) as [->|Hne]; [rewrite lookup_alter_eq; by destruct (b_jobs b !! m)|rewrite lookup_alter_ne by done; apply same_part_refl].
    + intros [?|?]; left; cbn in *; lia.
  - destruct (newJob _ _ _ _) as [[j duplicate] b1] eqn:Ej. pose proof (newJob_proper _ _ _ _ _ _ _ Ej (parsed_proper _ _ Er)) as [Hp _].
    pose proof Ej as (q & Hc)%newJob_cases. destruct duplicate.
    + destruct Hc as [(_ & _ & _ & _ & ->)|[[? _]|[? _]]]; try done. (eapply (account_reject b _ (b_line b)); [exact K|exact Ht|exact Hn|exact Hu|done| |done|done|done|by eexists|..]; first [apply le_n|cbn; lia]).
    + eapply (account_new b _ (b_line b)); try exact Hp; try exact Ht; try done;
        destruct Hc as [[? _]|[(_ & _ & _ & -> & _)|(_ & _ & _ & _ & -> & _)]]; try done; cbn; try lia; by destruct (_ || _); auto.
Qed.

(** *** Where jobs come from *)

(** A job after a step was one before, for the same message; or it is new: of the line that was
    read, or of the cancellation to forward. *)
Definition from_job (shutdown : bool) (js js' : jobState) : Prop :=
  js_class js' = js_class js /\ jb_message (js_job js') = jb_message (js_job js) /\ jb_zero (js_job js') = jb_zero (js_job js) /\
  (js_cause js' = Some CauseShutdown -> js_cause js = Some CauseShutdown \/ shutdown = true).
Definition new_job (b : bridge) (e : event) (js : jobState) : Prop :=
  (js_cause js = Some CauseShutdown -> b_shutdown b = true) /\ js_progress js = Queued /\ jb_lifecycle (js_job js) = LifecycleNone /\
  exists body m,
    (b_scan b = ScanForward body m /\ js_class js = Control /\ (jb_message (js_job js) = m \/ jb_message (js_job js) = zero_message) /\
      (jb_zero (js_job js) = true -> rm_idPresent m = true)) \/
    (e = ELine body /\ parseRPCMessage body = Some m /\ jb_message (js_job js) = m /\ jb_zero (js_job js) = false /\
      js_class js = (if decide (rm_method m = "notifications/initialized") then Lifecycle else Ordinary)).
Definition origin (b : bridge) (e : event) (shutdown : bool) (n : nat) (js' : jobState) : Prop :=
  (exists js, b_jobs b !! n = Some js /\ from_job shutdown js js') \/ new_job b e js'.

Lemma from_job_refl s js : from_job s js js.
Proof. unfold from_job. auto. Qed.
Lemma from_progress s js p : from_job s js (with_progress js p).
Proof. unfold from_job. auto. Qed.
Lemma from_cause s c js : (c = CauseShutdown -> s = true) -> from_job s js (with_cause c js).
Proof. intros Hc. split; [done|]. split; [done|]. split; [done|]. unfold with_cause. destruct (js_cause js); cbn; [auto|]. intros [= ->]. auto. Qed.
Hint Resolve from_job_refl from_progress : core.

Lemma origin_same b e s n js' : b_jobs b !! n = Some js' -> origin b e s n js'.
Proof. intros Hn. left. eauto. Qed.
Lemma origin_set b e s k js x n js' :
  b_jobs b !! k = Some js -> from_job s js x -> <[k := x]> (b_jobs b) !! n = Some js' -> origin b e s n js'.
Proof. intros Hk Hx [[<- <-]|[_ Hn]]%lookup_insert_Some; [left; eauto|by apply origin_same]. Qed.

Ltac old_job := let Hold := fresh in intros Hold; apply origin_same; exact Hold.

Lemma origin_read b body n js' : b_jobs (read_line b body) !! n = Some js' -> origin b (ELine body) (b_shutdown b) n js'.
Proof.
  unfold read_line. cbn zeta. destruct (bool_decide (trim_space body = [])); [old_job|].
  destruct (parseRPCMessage body) as [r|] eqn:Er; [|old_job]. destruct (_ && _).
  - destruct (json_requestId (rm_params r)) as [[|x id]|]; try old_job. destruct (b_inflight _ !! _) as [[owner [|]]|]; try old_job.
    cbn. intros Hn. destruct (decide (owner = n)) as [->|Hne]; [|rewrite lookup_alter_ne in Hn by done; by apply origin_same].
    rewrite lookup_alter_eq in Hn. destruct (b_jobs b !! n) as [js|] eqn:E; [|done]. injection Hn as <-. left. exists js. split; [done|]. by apply from_cause.
  - destruct (newJob _ _ _ _) as [[j duplicate] b1] eqn:Ej. pose proof Ej as (q & Hc)%newJob_cases.
    assert (Hj : b_jobs b1 = b_jobs b /\ b_shutdown b1 = b_shutdown b) by (destruct Hc as [(_ & _ & _ & _ & ->)|[(_ & _ & _ & -> & _)|(_ & _ & _ & _ & -> & _)]]; done).
    destruct Hj as [Hj Hs]. destruct duplicate; cbn; rewrite Hj; [old_job|].
    intros [[<- <-]|[_ Hn]]%lookup_insert_Some; [|by apply origin_same]. right.
    assert (Hjob : jb_message j = r /\ jb_zero j = false /\ jb_lifecycle j = LifecycleNone).
    { destruct Hc as [[? _]|[(_ & _ & _ & _ & ? & ? & ?)|(_ & _ & _ & _ & _ & ? & ? & ?)]]; done. }
    destruct Hjob as (? & ? & ?). split; [cbn; rewrite Hs; by destruct (b_shutdown b)|]. do 2 (split; [done|]). exists body, r. right. done.
Qed.

Lemma origin_begin b e n0 js n js' : b_jobs b !! n0 = Some js -> b_jobs (begin_lifecycle b n0 js) !! n = Some js' -> origin b e (b_shutdown b) n js'.
Proof.
  intros Hn0. unfold begin_lifecycle. destruct (decide _).
  - destruct (beginInitialized b _) as [r b1] eqn:E. pose proof (beginInitialized_frame _ _ _ _ E) as (Ej & _). destruct r; cbn; rewrite Ej; [|old_job].
    apply (origin_set _ _ _ _ _ _ _ _ Hn0). unfold from_job. cbn. auto.
  - destruct (beginInitialization b _) as [r b1] eqn:E. pose proof (beginInitialization_frame _ _ _ _ E) as (Ej & _). destruct r; cbn; rewrite Ej; [|old_job].
    apply (origin_set _ _ _ _ _ _ _ _ Hn0). unfold from_job. cbn. auto.
Qed.

Lemma origin_scan b stopping b' n js' : step b (EScan stopping) = Some b' -> b_jobs b' !! n = Some js' -> origin b (EScan stopping) (b_shutdown b) n js'.
Proof.
  unfold step. destruct (b_crashed b); [done|]. destruct (b_scan b) as [|body m|k|k|k l stop|] eqn:Hs; try done.
  - destruct (newJob _ _ _ _) as [[j duplicate] b1] eqn:Ej. pose proof Ej as (q & Hc)%newJob_cases. intros [= <-]. cbn.
    assert (Hj : b_jobs b1 = b_jobs b /\ b_shutdown b1 = b_shutdown b) by (destruct Hc as [(_ & _ & _ & _ & ->)|[(_ & _ & _ & -> & _)|(_ & _ & _ & _ & -> & _)]]; done).
    destruct Hj as [-> Hsh]. intros [[_ <-]|[_ Hn]]%lookup_insert_Some; [|by apply origin_same]. right. split; [cbn; rewrite Hsh; by destruct (b_shutdown b)|]. split; [done|].
    destruct Hc as [(_ & -> & Hid & _)|[(_ & Hid & _ & _ & Hm & Hz & Hl)|(_ & Hid & _ & _ & _ & Hm & Hz & Hl)]]; (split; [done|]); exists body, m; left; cbn; (do 2 (split; [done|])); (split; [auto|]); try rewrite Hz; done.
  - destruct (b_jobs b !! k) as [js|] eqn:Hk; [|done]. intros [= <-]. by apply origin_begin.
  - destruct (b_jobs b !! k) as [js|] eqn:Hk; [|done]. cbn [mbind option_bind]. unfold enqueue. intros He.
    destruct stopping; [destruct (b_shutdown b); [|done]|case_bool_decide; [|destruct (js_class js); [| |done]]]; injection He as <-; old_job.
  - intros [= <-]. unfold scan_next. destruct l as [|a rest]; [old_job|]. set (j := match b_jobs b !! k with Some js => js_job js | None => no_job end).
    pose proof (perform_frame b k j a) as (Ej & _). destruct a; cbn [b_jobs set_scan]; rewrite ?Ej; try old_job.
    destruct (b_jobs b !! k) as [js|] eqn:Hk; cbn [b_jobs set_job set_jobs]; rewrite Ej; [|old_job]. by apply (origin_set _ _ _ _ _ _ _ _ Hk).
Qed.

Lemma step_attempt b n js created signed b' :
  b_jobs b !! n = Some js -> step b (EAttempt n created signed) = Some b' ->
  (js_progress js = Waiting \/ exists seen, js_progress js = Blocked seen) /\
  (b' = crash b /\ jb_zero (js_job js) = true \/
   b' = set_job b n (with_progress js (Blocked (b_state b))) \/
   (exists message, b' = set_job b n (with_progress js (Tail (end_failed (js_job js) (fail (js_job js) (-32098) message))))) \/
   (exists sessionID version, requestIdentity b (js_job js) = Identified sessionID version /\ jb_zero (js_job js) = false /\
      b' = set_sent (set_job b n (with_progress js Sent)) (b_sent b ++ [mkSent n (jb_lifecycle (js_job js)) sessionID version]))).
Proof.
  intros Hn He. unfold step in He. destruct (b_crashed b); [done|]. rewrite Hn in He. cbn [mbind option_bind] in He.
  assert (Hw : js_progress js = Waiting \/ exists seen, js_progress js = Blocked seen) by (destruct (js_progress js); try done; eauto).
  split; [done|].
  assert (He' : match requestIdentity b (js_job js) with
    | NotYet => if jb_zero (js_job js) then Some (crash b) else Some (set_job b n (with_progress js (Blocked (b_state b))))
    | NotIdentified message => Some (set_job b n (with_progress js (Tail (end_failed (js_job js) (fail (js_job js) (-32098) message)))))
    | Identified sessionID version =>
        if negb created || jb_zero (js_job js) then
          Some (set_job b n (with_progress js (Tail (end_failed (js_job js) (fail (js_job js) (-32098) "could not create HTTP request")))))
        else if bc_SignRequests cfg && negb signed then
          Some (set_job b n (with_progress js (Tail (end_failed (js_job js) (fail (js_job js) (-32098) "request signing failed")))))
        else Some (set_sent (set_job b n (with_progress js Sent)) (b_sent b ++ [mkSent n (jb_lifecycle (js_job js)) sessionID version]))
    end = Some b') by (destruct Hw as [E|[seen E]]; rewrite E in He; exact He).
  clear He. destruct (requestIdentity b (js_job js)) as [sid version|message|] eqn:Er.
  - destruct (negb created || jb_zero (js_job js)) eqn:Ez; [injection He' as <-; right; right; left; by eexists|]. apply orb_false_iff in Ez as [_ Hz].
    destruct (_ && _); injection He' as <-; [right; right; left; by eexists|]. right; right; right. eauto.
  - injection He' as <-. right; right; left. eauto.
  - destruct (jb_zero _) eqn:Hz; injection He' as <-; auto.
Qed.

(** Only its own event shuts the bridge down. *)
Lemma step_shutdown b e b' : step b e = Some b' -> e <> EShutdown -> b_shutdown b' = b_shutdown b.
Proof.
  intros He Hne. destruct e as [body|stopping|failed| | |c|k|k created signed|k|k r|k];
    try (destruct (b_jobs b !! k) as [js|] eqn:Hk; [destruct (step_attempt _ _ _ _ _ _ Hk He) as [_ [[-> _]|[->|[[? ->]|(? & ? & _ & _ & ->)]]]]; done|]);
    unfold step in He; (destruct (b_crashed b); [done|]).
  - destruct (b_scan b); try done. destruct (b_shutdown b) eqn:Hsh; [done|]. injection He as <-. unfold read_line. cbn zeta.
    destruct (bool_decide _); [done|]. destruct (parseRPCMessage body); [|done]. destruct (_ && _).
    + destruct (json_requestId _) as [[|x id]|]; try done. by destruct (b_inflight _ !! _) as [[owner [|]]|].
    + destruct (newJob _ _ _ _) as [[j duplicate] b1] eqn:Ej. apply newJob_cases in Ej as (q & [(_ & _ & _ & _ & ->)|[(_ & _ & _ & -> & _)|(_ & _ & _ & _ & -> & _)]]); by destruct duplicate.
  - destruct (b_scan b) as [|body m|k|k|k l stop|] eqn:Hs; try done.
    + destruct (newJob _ _ _ _) as [[j duplicate] b1] eqn:Ej. injection He as <-.
      by apply newJob_cases in Ej as (q & [(_ & _ & _ & _ & ->)|[(_ & _ & _ & -> & _)|(_ & _ & _ & _ & -> & _)]]).
    + destruct (b_jobs b !! k) as [js|]; [|done]. injection He as <-. unfold begin_lifecycle. destruct (decide _).
      * destruct (beginInitialized b _) as [[] b1] eqn:E; apply beginInitialized_frame in E as (_ & _ & _ & _ & _ & _ & Es & _); exact Es.
      * destruct (beginInitialization b _) as [[] b1] eqn:E; apply beginInitialization_frame in E as (_ & _ & _ & _ & _ & _ & Es & _); exact Es.
    + destruct (b_jobs b !! k) as [js|]; [|done]. cbn in He. unfold enqueue in He.
      destruct stopping; [destruct (b_shutdown b) eqn:?; [|done]|case_bool_decide; [|destruct (js_class js); [| |done]]]; by injection He as <-.
    + injection He as <-. unfold scan_next. destruct l as [|a rest]; [done|].
      pose proof (perform_frame b k (match b_jobs b !! k with Some js => js_job js | None => no_job end) a) as (_ & _ & _ & _ & _ & Es & _). by destruct a, (b_jobs b !! k).
  - destruct (b_scan b); try done. injection He as <-. by destruct (failed && _).
  - done.
  - by injection He as <-.
  - destruct (pl_queue _) as [|n queue]; [done|]. case_bool_decide; [|done]. destruct (b_jobs b !! n); [|done]. by injection He as <-.
  - by injection He as <-.
  - by rewrite Hk in He.
  - destruct (b_jobs b !! k) as [js|]; [|done]. cbn in He. destruct (js_progress js); try done. destruct (js_cause js); [|done]. by injection He as <-.
  - destruct (b_jobs b !! k) as [js|]; [|done]. cbn in He. destruct (js_progress js); try done. by injection He as <-.
  - destruct (b_jobs b !! k) as [js|]; [|done]. cbn in He. destruct (js_progress js) as [| | | |[|a rest]|]; try done. injection He as <-. unfold advance.
    pose proof (perform_frame b k (js_job js) a) as (_ & _ & _ & _ & _ & Es & _). by destruct rest.
Qed.

Ltac moved_job Hk Hn := eapply origin_set; [exact Hk|apply from_progress|exact Hn].

Lemma origin_step b e b' n js' : step b e = Some b' -> b_jobs b' !! n = Some js' -> origin b e (b_shutdown b') n js'.
Proof.
  intros He Hn. destruct (decide (b_shutdown b' = true /\ b_shutdown b <> true)) as [[Hsh Hsh']|Hsame].
  - assert (e = EShutdown) as -> by (destruct e; try done; apply step_shutdown in He; congruence). unfold step in He. destruct (b_crashed b); [done|].
    injection He as <-. cbn in *. rewrite lookup_fmap in Hn. destruct (b_jobs b !! n) as [js|] eqn:Hj; [|done]. injection Hn as <-. left. exists js.
    split; [done|]. by apply from_cause.
  - assert (b_shutdown b' = b_shutdown b) as ->.
    { destruct e; try (by apply step_shutdown in He). unfold step in He. destruct (b_crashed b); [done|]. injection He as <-. cbn in *. destruct (b_shutdown b); [done|]. exfalso. by apply Hsame. }
    pose proof He as He0. destruct e as [body|stopping|failed| | |c|k|k created signed|k|k r|k];
      [|by eapply origin_scan|..];
      try (destruct (b_jobs b !! k) as [js|] eqn:Hk; [destruct (step_attempt _ _ _ _ _ _ Hk He) as [_ [[-> _]|[->|[[? ->]|(? & ? & _ & _ & ->)]]]];
             [by apply origin_same|moved_job Hk Hn..]|]);
      unfold step in He; (destruct (b_crashed b); [done|]).
    + destruct (b_scan b); try done. destruct (b_shutdown b) eqn:Hs; [done|]. injection He as <-. rewrite <- Hs. by apply origin_read.
    + destruct (b_scan b); try done. injection He as <-. destruct (failed && _); [|by apply origin_same]. cbn in Hn. rewrite map_lookup_imap in Hn.
      destruct (b_jobs b !! n) as [js|] eqn:Hj; [|done]. cbn in Hn. injection Hn as <-. left. exists js. split; [done|]. destruct (decide _); [by apply from_cause|done].
    + injection He as <-. cbn in *. rewrite lookup_fmap in Hn. destruct (b_jobs b !! n) as [js|] eqn:Hj; [|done]. injection Hn as <-. left. exists js. split; [done|].
      apply from_cause. intros _. destruct (b_shutdown b); [done|]. exfalso. by apply Hsame.
    + injection He as <-. by apply origin_same.
    + destruct (pl_queue _) as [|m queue]; [done|]. case_bool_decide; [|done]. destruct (b_jobs b !! m) eqn:Hm; [|done]. injection He as <-.
      moved_job Hm Hn.
    + injection He as <-. cbn in Hn. destruct (decide (k = n)) as [->|Hne]; [|rewrite lookup_alter_ne in Hn by done; by apply origin_same].
      rewrite lookup_alter_eq in Hn. destruct (b_jobs b !! n) as [js|] eqn:E; [|done]. injection Hn as <-. left. exists js. split; [done|]. by apply from_cause.
    + by rewrite Hk in He.
    + destruct (b_jobs b !! k) as [js|] eqn:Hk; [|done]. cbn in He. destruct (js_progress js); try done. destruct (js_cause js); [|done]. injection He as <-.
      moved_job Hk Hn.
    + destruct (b_jobs b !! k) as [js|] eqn:Hk; [|done]. cbn in He. destruct (js_progress js); try done. injection He as <-. moved_job Hk Hn.
    + destruct (b_jobs b !! k) as [js|] eqn:Hk; [|done]. cbn in He. destruct (js_progress js) as [| | | |[|a rest]|]; try done. injection He as <-.
      pose proof (perform_frame b k (js_job js) a) as (Ej & _). unfold advance in Hn.
      destruct rest; cbn [b_jobs set_pool set_job set_jobs] in Hn; rewrite Ej in Hn; moved_job Hk Hn.
Qed.

(** *** The books stay in order *)

Lemma account_served b n js p m :
  books b -> b_jobs b !! n = Some js -> tail_of b n = None ->
  match p with
  | Tail l => rest_ok (jb_message (js_job js)) l /\ (owed (jb_message (js_job js)) = true -> b_shutdown b = false -> (1 <= writes l)%nat)
  | Ended => False
  | _ => True
  end ->
  match js_progress js with Tail _ | Ended => False | _ => True end ->
  account (set_job b n (with_progress js p)) m.
Proof.
  intros K Hn Ht Hp Hb. destruct (decide (n = m)) as [<-|Hne]; [by apply account_serve|].
  eapply account_same; [apply (bk_account _ K)|..]; try done. cbn. rewrite lookup_insert_ne by done. apply same_part_refl.
Qed.

Lemma read_scan b body n :
  b_scan b = ScanIdle -> b_scan (read_line b body) = ScanBegin n ->
  exists js, b_jobs (read_line b body) !! n = Some js /\ (js_class js = Lifecycle \/ rm_method (jb_message (js_job js)) = "initialize").
Proof.
  intros Hs. unfold read_line. cbn zeta. destruct (bool_decide _); [cbn; congruence|]. destruct (parseRPCMessage body) as [m|]; [|done]. destruct (_ && _).
  - destruct (json_requestId _) as [[|x id]|]; try (cbn; congruence). destruct (b_inflight _ !! _) as [[owner [|]]|]; cbn; congruence.
  - destruct (newJob _ _ _ _) as [[j duplicate] b1] eqn:Ej. apply newJob_cases in Ej as (q & Hc). destruct duplicate; [done|]. cbn.
    destruct (_ || _) eqn:E; [|done]. intros [= <-]. eexists. split; [apply lookup_insert_eq|]. cbn.
    assert (jb_message j = m) as -> by (destruct Hc as [[? _]|[(_ & _ & _ & _ & ? & _)|(_ & _ & _ & _ & _ & ? & _)]]; done).
    destruct (decide _); [by left|]. right. by apply orb_true_iff in E as [?%bool_decide_eq_true|?%bool_decide_eq_true].
Qed.

Lemma read_forward b body0 body m :
  b_scan b = ScanIdle -> b_scan (read_line b body0) = ScanForward body m -> parseRPCMessage body0 = Some m /\ rm_jsonrpc m = "2.0" /\ rm_method m = "notifications/cancelled".
Proof.
  intros Hs. unfold read_line. cbn zeta. destruct (bool_decide _); [cbn; congruence|]. destruct (parseRPCMessage body0) as [r|]; [|done]. destruct (_ && _) eqn:E.
  - apply andb_true_iff in E as [?%bool_decide_eq_true ?%bool_decide_eq_true].
    destruct (json_requestId _) as [[|x id]|]; try (cbn; congruence). destruct (b_inflight _ !! _) as [[owner [|]]|]; cbn; try congruence. by intros [= <- <-].
  - destruct (newJob _ _ _ _) as [[j duplicate] b1] eqn:Ej. destruct duplicate; [done|]. cbn. by destruct (_ || _).
Qed.

(** Only a line that is read makes the reading thread go to these sections. *)
Lemma step_scan b e b' :
  step b e = Some b' -> b_scan b' = b_scan b \/
  match b_scan b' with ScanBegin _ | ScanForward _ _ => b_scan b = ScanIdle /\ exists body, e = ELine body /\ b' = read_line b body | _ => True end.
Proof.
  intros He. destruct e as [body|stopping|failed| | |c|k|k created signed|k|k r|k];
    try (destruct (b_jobs b !! k) as [js|] eqn:Hk; [destruct (step_attempt _ _ _ _ _ _ Hk He) as [_ [[-> _]|[->|[[? ->]|(? & ? & _ & _ & ->)]]]]; by left|]);
    unfold step in He; (destruct (b_crashed b); [done|]).
  - destruct (b_scan b) eqn:Hs; try done. destruct (b_shutdown b) eqn:Hsh; [done|]. injection He as <-. right. destruct (b_scan (read_line b body)); eauto.
  - right. destruct (b_scan b) as [|body m|k|k|k l stop|] eqn:Hs; try done.
    + destruct (newJob _ _ _ _) as [[j duplicate] b1] eqn:Ej. by injection He as <-.
    + destruct (b_jobs b !! k) as [js|]; [|done]. injection He as <-. unfold begin_lifecycle. destruct (decide _).
      * by destruct (beginInitialized b _) as [[] b1].
      * by destruct (beginInitialization b _) as [[] b1].
    + destruct (b_jobs b !! k) as [js|]; [|done]. cbn in He. unfold enqueue in He.
      destruct stopping; [destruct (b_shutdown b) eqn:?; [|done]|case_bool_decide; [|destruct (js_class js); [| |done]]]; by injection He as <-.
    + injection He as <-. unfold scan_next. destruct l as [|a rest]; [by destruct stop|done].
  - destruct (b_scan b); try done. injection He as <-. by right.
  - injection He as <-. by left.
  - injection He as <-. by left.
  - destruct (pl_queue _) as [|n queue]; [done|]. case_bool_decide; [|done]. destruct (b_jobs b !! n); [|done]. injection He as <-. by left.
  - injection He as <-. by left.
  - by rewrite Hk in He.
  - destruct (b_jobs b !! k) as [js|]; [|done]. cbn in He. destruct (js_progress js); try done. destruct (js_cause js); [|done]. injection He as <-. by left.
  - destruct (b_jobs b !! k) as [js|]; [|done]. cbn in He. destruct (js_progress js); try done. injection He as <-. by left.
  - destruct (b_jobs b !! k) as [js|]; [|done]. cbn in He. destruct (js_progress js) as [| | | |[|a rest]|]; try done. injection He as <-. left. unfold advance.
    pose proof (perform_frame b k (js_job js) a) as (_ & _ & _ & Es & _). by destruct rest.
Qed.

Lemma account_cause b b' m :
  account b m -> b_output b' = b_output b -> b_line b' = b_line b -> b_broken b' = b_broken b \/ b_broken b' = true -> b_shutdown b' = b_shutdown b \/ b_shutdown b' = true ->
  same_part (b_jobs b !! m) (b_jobs b' !! m) -> b_scan b' = b_scan b \/ b_scan b = ScanIdle /\ b_scan b' = ScanStopped -> account b' m.
Proof.
  intros A Ho Hl Hb Hs Hj Hsc. eapply account_same; [exact A|..]; try done.
  - unfold answers. by rewrite Ho.
  - unfold tail_of. by destruct Hsc as [-> |[-> ->]].
  - unfold unread. rewrite Hl. by destruct Hsc as [-> |[-> ->]].
  - destruct Hb; congruence.
  - destruct Hs; congruence.
Qed.

Lemma same_part_cause c n m (jobs : gmap nat jobState) : same_part (jobs !! m) (alter (with_cause c) n jobs !! m).
Proof. destruct (decide (n = m)) as [->|Hne]; [rewrite lookup_alter_eq; by destruct (jobs !! m)|rewrite lookup_alter_ne by done; apply same_part_refl]. Qed.

Lemma account_attempt b n js created signed b' m :
  books b -> b_jobs b !! n = Some js -> step b (EAttempt n created signed) = Some b' -> account b' m.
Proof.
  intros K Hn He. destruct (step_attempt _ _ _ _ _ _ Hn He) as [Hw Hc]. pose proof (ac_proper _ _ (bk_account _ K n) _ Hn) as Hp.
  assert (Ht : tail_of b n = None) by (eapply served_no_tail; [apply K|done|]; destruct Hw as [-> |[? ->]]; done).
  assert (Hb : match js_progress js with Tail _ | Ended => False | _ => True end) by (destruct Hw as [-> |[? ->]]; done).
  destruct Hc as [[-> _]|[->|[[message ->]|(sessionID & version & _ & _ & ->)]]].
  - eapply account_cause; [apply (bk_account _ K)|..]; auto; try done. apply same_part_refl.
  - by apply account_served.
  - apply account_served; try done. destruct (answered_fail (js_job js) (-32098) message Hp) as [? ?]. auto.
  - eapply account_cause; [apply (account_served b n js Sent m); done|..]; auto; try done. apply same_part_refl.
Qed.

Lemma account_step b e b' m : books b -> step b e = Some b' -> account b' m.
Proof.
  intros K He. pose proof K as [W A Kj Kb Kf]. destruct e as [body|stopping|failed| | |c|k|k created signed|k|k r|k];
    try (destruct (b_jobs b !! k) as [js|] eqn:Hk; [by eapply account_attempt|]);
    unfold step in He; (destruct (b_crashed b); [done|]).
  - destruct (b_scan b) eqn:Hs; try done. destruct (b_shutdown b) eqn:Hsh; [done|]. injection He as <-. by apply account_read.
  - destruct (b_scan b) as [|body r|k|k|k l stop|] eqn:Hs; try done.
    + destruct (newJob _ _ _ _) as [[j duplicate] b1] eqn:Ej. injection He as <-. destruct (Kf _ _ eq_refl) as [Hr _].
      pose proof (newJob_proper _ _ _ _ _ _ _ Ej Hr) as [Hp _]. pose proof (wf_scan _ W) as Hw. rewrite Hs in Hw. destruct Hw as [Hlt Hn].
      pose proof Ej as (q & Hc)%newJob_cases.
      eapply (account_new b _ (b_line b - 1)); try exact Hp; try exact Hn; try done; [apply no_tail; by rewrite Hs|right; rewrite Hs; lia|..];
        destruct Hc as [(_ & _ & _ & _ & ->)|[(_ & _ & _ & -> & _)|(_ & _ & _ & _ & -> & _)]]; try done; by right.
    + destruct (b_jobs b !! k) as [js|] eqn:Hk; [|done]. injection He as <-. by apply account_begin.
    + destruct (b_jobs b !! k) as [js|] eqn:Hk; [|done]. by eapply account_enqueue.
    + injection He as <-. by apply account_scan_next.
  - destruct (b_scan b) eqn:Hs; try done. injection He as <-. eapply account_cause; [apply A|..]; destruct (failed && _); cbn; auto; [|apply same_part_refl].
    rewrite map_lookup_imap. destruct (b_jobs b !! m) as [js|]; cbn; [|done]. by destruct (decide _).
  - injection He as <-. eapply account_cause; [apply A|..]; cbn; auto. rewrite lookup_fmap. by destruct (b_jobs b !! m).
  - injection He as <-. eapply account_cause; [apply A|..]; cbn; auto. apply same_part_refl.
  - destruct (pl_queue _) as [|n queue] eqn:Hq; [done|]. case_bool_decide; [|done]. destruct (b_jobs b !! n) as [js|] eqn:Hn; [|done]. injection He as <-.
    assert (Hin : n ∈ pl_queue (b_pools b c)) by (rewrite Hq; left). apply (wf_queue _ W) in Hin as (Hne & x & Hx & Hqu & _). assert (x = js) as -> by congruence.
    eapply account_cause; [eapply (account_served b n js Waiting m); try done; [by apply scan_no_tail|by rewrite Hqu]|..]; cbn; auto. apply same_part_refl.
  - injection He as <-. eapply account_cause; [apply A|..]; cbn; auto. apply same_part_cause.
  - by rewrite Hk in He.
  - destruct (b_jobs b !! k) as [js|] eqn:Hk; [|done]. cbn in He. destruct (js_progress js) eqn:Hp; try done. destruct (js_cause js); [|done]. injection He as <-.
    pose proof (ac_proper _ _ (A k) _ Hk) as Hpr. destruct (answered_fail (js_job js) (-32098) (waited seen) Hpr) as [? ?].
    apply account_served; try done; [eapply served_no_tail; try done; by rewrite Hp|auto|by rewrite Hp].
  - destruct (b_jobs b !! k) as [js|] eqn:Hk; [|done]. cbn in He. destruct (js_progress js) eqn:Hp; try done. injection He as <-.
    pose proof (ac_proper _ _ (A k) _ Hk) as Hpr. apply account_served; try done; [eapply served_no_tail; try done; by rewrite Hp| |by rewrite Hp].
    split; [by apply receive_rest|]. intros Ho Hsh. destruct (receive_answers (js_job js) (js_cause js) r Hpr) as [_ Hans]; [|auto].
    intros E. destruct (Kj _ _ Hk) as [_ Hc]. specialize (Hc E). congruence.
  - destruct (b_jobs b !! k) as [js|] eqn:Hk; [|done]. cbn in He. destruct (js_progress js) as [| | | |[|a rest]|] eqn:Hp; try done. injection He as <-.
    by apply account_advance.
Qed.

Lemma owed_control m : rm_method m = "notifications/cancelled" -> owed m = false.
Proof. intros E. unfold owed. rewrite E. by rewrite andb_false_r. Qed.
Lemma owed_lifecycle m : rm_method m = "notifications/initialized" -> owed m = false.
Proof. intros E. unfold owed. rewrite E. rewrite bool_decide_true by done. by rewrite andb_false_r. Qed.

Lemma jobs_step b e b' n js : books b -> step b e = Some b' -> b_jobs b' !! n = Some js -> job_ok (b_shutdown b') js.
Proof.
  intros K He Hn. assert (Hmono : b_shutdown b = true -> b_shutdown b' = true).
  { intros Hsh. destruct e; try (apply step_shutdown in He; congruence). unfold step in He. destruct (b_crashed b); [done|]. by injection He as <-. }
  destruct (origin_step _ _ _ _ _ He Hn) as [(x & Hx & Ec & Em & _ & Hc)|(Hc & _ & _ & body & m & Hnew)].
  - destruct (bk_jobs _ K _ _ Hx) as [Ho Hs]. split; [by rewrite Ec, Em|]. intros E. destruct (Hc E); auto.
  - split; [|auto]. destruct Hnew as [(Hs & _ & Hm & _)|(_ & _ & -> & _ & ->)].
    + right. destruct Hm as [-> | ->]; [|done]. apply owed_control. by eapply bk_forward.
    + destruct (decide _); [right; by apply owed_lifecycle|by left].
Qed.

Lemma books_step b e b' : books b -> step b e = Some b' -> books b'.
Proof.
  intros K He. pose proof (step_scan _ _ _ He) as Hs. split.
  - eapply wf_step; [apply K|done].
  - intros n. by eapply account_step.
  - intros n js. by apply (jobs_step b e).
  - intros n js E Hn. destruct Hs as [Hs|Hs]; rewrite E in Hs.
    + symmetry in Hs. destruct (origin_step _ _ _ _ _ He Hn) as [(x & Hx & Ec & Em & _)|(_ & _ & _ & body & m & Hnew)].
      * rewrite Ec, Em. by apply (bk_begin _ K n).
      * destruct Hnew as [(Hf & _)|(-> & _)]; [congruence|]. unfold step in He. destruct (b_crashed b); [done|]. by rewrite Hs in He.
    + destruct Hs as (Hidle & body & -> & ->). destruct (read_scan _ _ _ Hidle E) as (x & Hx & ?). congruence.
  - intros body m E. destruct Hs as [Hs|Hs]; rewrite E in Hs; [by eapply bk_forward|]. destruct Hs as (Hidle & body0 & -> & ->).
    destruct (read_forward _ _ _ _ Hidle E) as (Hp & _ & Hm). split; [by eapply parsed_proper|done].
Qed.

Lemma books_newBridge : books newBridge.
Proof.
  split; [apply wf_newBridge| |intros n js; cbn; by rewrite lookup_empty|done|done].
  intros n. split; unfold todo; cbn; rewrite ?lookup_empty; try done. cbn. lia.
Qed.
Lemma books_run es b : run es newBridge = Some b -> books b.
Proof. apply run_invariant; [intros; by eapply books_step|apply books_newBridge]. Qed.

(** ** The session *)

Definition same_session (b b' : bridge) : Prop := b_state b' = b_state b /\ b_sessionID b' = b_sessionID b /\ b_version b' = b_version b.
Definition completes (a : micro) : bool := match a with MCompleteInit _ _ _ | MCompleteInitialized _ => true | _ => false end.
Definition left_to_do (b : bridge) (a : micro) : Prop :=
  (exists n js l, b_jobs b !! n = Some js /\ js_progress js = Tail l /\ a ∈ l) \/ (exists n l stop, b_scan b = ScanTail n l stop /\ a ∈ l).
(** How a session moves on. *)
Definition moved (b b' : bridge) (a : micro) : Prop :=
  match a with
  | MCompleteInit _ sessionID version => b_state b = Initializing /\ b_state b' = WaitingInitialized /\ b_sessionID b' = sessionID /\ b_version b' = version
  | MCompleteInitialized _ => b_state b = WaitingInitialized /\ b_state b' = Initialized /\ b_sessionID b' = b_sessionID b /\ b_version b' = b_version b
  | _ => False
  end.
Definition session_edge (b b' : bridge) : Prop :=
  same_session b b' \/ b_state b' = SessionFailed \/ (b_state b = Uninitialized /\ b_state b' = Initializing) \/ exists a, left_to_do b a /\ moved b b' a.

Lemma same_session_refl b : same_session b b.
Proof. done. Qed.

Lemma perform_session b n j a : same_session b (perform b n j a) \/ b_state (perform b n j a) = SessionFailed \/ moved b (perform b n j a) a.
Proof.
  destruct a as [l|message|i sessionID version|i message|i|i message|]; cbn [perform moved].
  - left. by destruct (b_broken b).
  - by left.
  - unfold completeInitialization. destruct (_ || _) eqn:E; [by left|]. apply orb_false_iff in E as [E%negb_false_iff%bool_decide_eq_true _]. by right; right.
  - unfold failInitialization. destruct (_ || _); [by left|]. by right; left.
  - unfold completeInitialized. destruct i; [|by left]. destruct (_ || _) eqn:E; [by left|]. apply orb_false_iff in E as [E%negb_false_iff%bool_decide_eq_true _]. by right; right.
  - unfold failInitialized. destruct (bool_decide _); [by left|]. destruct (_ && _); [by left|]. by right; left.
  - left. unfold finish. destruct (jb_key j) as [key|]; [destruct (b_inflight b !! key) as [[owner fl]|]; [destruct (decide (owner = n))|]|]; by destruct (jb_zero j).
Qed.

Lemma begin_session b n js : same_session b (begin_lifecycle b n js) \/ b_state (begin_lifecycle b n js) = SessionFailed \/
  (b_state b = Uninitialized /\ b_state (begin_lifecycle b n js) = Initializing).
Proof.
  unfold begin_lifecycle. destruct (decide _).
  - unfold beginInitialized. destruct (negb _); [by left|]. destruct (b_state b) eqn:Es; try (by left); try (destruct (b_init b); [|by left]; destruct (b_seen b); by left).
    by right; left.
  - unfold beginInitialization. destruct (negb _); [by left|]. destruct (json_protocolVersion _) as [version|]; [|by left]. destruct (negb _); [by left|].
    destruct (negb _) eqn:E; [by left|]. apply negb_false_iff, bool_decide_eq_true in E. by right; right.
Qed.

(** What a step does for the session, the requests and what is left to do. *)
Record handled (b : bridge) (e : event) (b' : bridge) : Prop := {
  hd_session : session_edge b b';
  hd_left a : completes a = true -> left_to_do b' a -> left_to_do b a \/
    exists n js r, e = EReply n r /\ b_jobs b !! n = Some js /\ js_progress js = Sent /\ a ∈ receive (js_job js) (js_cause js) r;
  hd_sent : b_sent b' = b_sent b \/ exists n js sessionID version,
    b_jobs b !! n = Some js /\ requestIdentity b (js_job js) = Identified sessionID version /\
    b_sent b' = b_sent b ++ [mkSent n (jb_lifecycle (js_job js)) sessionID version];
  hd_jobs n js : b_jobs b' !! n = Some js -> js_progress js = Sent ->
    (exists x, b_jobs b !! n = Some x /\ js_progress x = Sent /\ jb_lifecycle (js_job js) = jb_lifecycle (js_job x)) \/
    exists sr, sr ∈ b_sent b' /\ sr_job sr = n /\ sr_lifecycle sr = jb_lifecycle (js_job js)
}.

(** A step that changes one job at most, and no request. *)
Lemma handled_job b e b' n p :
  session_edge b b' -> b_sent b' = b_sent b ->
  (forall m js, b_jobs b' !! m = Some js ->
    (exists x, b_jobs b !! m = Some x /\ js_progress js = js_progress x /\ jb_lifecycle (js_job js) = jb_lifecycle (js_job x)) \/ m = n /\ js_progress js = p) ->
  p <> Sent ->
  (forall l a, p = Tail l -> completes a = true -> a ∈ l -> left_to_do b a \/
    exists n js r, e = EReply n r /\ b_jobs b !! n = Some js /\ js_progress js = Sent /\ a ∈ receive (js_job js) (js_cause js) r) ->
  (forall k l stop a, b_scan b' = ScanTail k l stop -> completes a = true -> a ∈ l -> left_to_do b a) -> handled b e b'.
Proof.
  intros Hs Hsent Hj Hp Hl Hsc. split; [done| |by left|].
  - intros a Ha [(m & js & l & Hm & Ht & Hin)|(k & l & stop & Hk & Hin)]; [|left; by eapply Hsc].
    destruct (Hj _ _ Hm) as [(x & Hx & Ep & _)|[-> Ep]]; [|apply (Hl l); congruence]. left. left. exists m, x, l. split; [done|]. split; [congruence|done].
  - intros m js Hm Hpr. destruct (Hj _ _ Hm) as [(x & Hx & Ep & El)|[-> Ep]]; [|congruence]. left. exists x. split_and!; congruence.
Qed.

Lemma incomplete_in (l : list micro) a : Forall (fun a => completes a = false) l -> completes a = true -> a ∈ l -> False.
Proof. intros Hf Ha Hin. rewrite Forall_forall in Hf. specialize (Hf _ Hin). congruence. Qed.
Lemma abort_incomplete j message : Forall (fun a => completes a = false) (abort j message).
Proof. unfold abort. destruct (jb_lifecycle j); by repeat constructor. Qed.
Lemma fail_incomplete j errorCode message : Forall (fun a => completes a = false) (fail j errorCode message).
Proof. unfold fail. destruct (rm_notification _); by repeat constructor. Qed.
Lemma end_failed_incomplete j l : Forall (fun a => completes a = false) l -> Forall (fun a => completes a = false) (end_failed j l).
Proof. intros Hl. unfold end_failed. rewrite !Forall_app. split; [done|]. split; [apply abort_incomplete|by repeat constructor]. Qed.
Hint Resolve abort_incomplete fail_incomplete end_failed_incomplete : core.

Definition same_place (x y : option jobState) : Prop :=
  match x, y with
  | Some x, Some y => js_progress y = js_progress x /\ jb_lifecycle (js_job y) = jb_lifecycle (js_job x)
  | None, None => True
  | _, _ => False
  end.

Lemma handled_quiet b e b' :
  session_edge b b' -> b_sent b' = b_sent b -> (forall m, same_place (b_jobs b !! m) (b_jobs b' !! m)) ->
  (forall k l stop a, b_scan b' = ScanTail k l stop -> completes a = true -> a ∈ l -> left_to_do b a) -> handled b e b'.
Proof.
  intros Hs Hsent Hj Hsc. apply (handled_job b e b' 0 Queued); try done. intros m js Hm. specialize (Hj m). rewrite Hm in Hj.
  destruct (b_jobs b !! m) as [x|]; [|done]. left. by exists x.
Qed.

Lemma handled_serve b e n js p :
  b_jobs b !! n = Some js -> p <> Sent ->
  (forall l a, p = Tail l -> completes a = true -> a ∈ l -> left_to_do b a \/
    exists n js r, e = EReply n r /\ b_jobs b !! n = Some js /\ js_progress js = Sent /\ a ∈ receive (js_job js) (js_cause js) r) ->
  handled b e (set_job b n (with_progress js p)).
Proof.
  intros Hn Hp Hl. apply (handled_job b e _ n p); try done; [by left| |].
  - cbn. intros m x [[<- <-]|[_ Hm]]%lookup_insert_Some; [by right|]. left. eauto.
  - cbn. intros k l stop a Hs _ Hin. right. eauto.
Qed.

Lemma handled_attempt b n js created signed b' :
  b_jobs b !! n = Some js -> step b (EAttempt n created signed) = Some b' -> handled b (EAttempt n created signed) b'.
Proof.
  intros Hn He. destruct (step_attempt _ _ _ _ _ _ Hn He) as [Hw Hc].
  destruct Hc as [[-> _]|[->|[[message ->]|(sessionID & version & Hid & _ & ->)]]].
  - apply handled_quiet; try done; [by left|cbn; intros m; by destruct (b_jobs b !! m)|]. intros k l stop a Hs _ Hin. right. eauto.
  - by apply handled_serve.
  - apply handled_serve; try done. intros l a [= <-] Ha Hin. exfalso. eapply incomplete_in; [|exact Ha|exact Hin]. auto.
  - split; cbn.
    + by left.
    + intros a _ [(m & x & l & Hm & Ht & Hin)|(k & l & stop & Hk & Hin)]; left; [|right; eauto]. cbn in Hm.
      apply lookup_insert_Some in Hm as [[_ <-]|[_ Hm]]; [done|]. left. eauto 7.
    + right. eauto 8.
    + intros m x [[<- <-]|[_ Hm]]%lookup_insert_Some Hp; [right|left; eauto]. eexists. rewrite elem_of_app, list_elem_of_singleton. by split; [right|].
Qed.

Lemma read_quiet b body : let b' := read_line b body in
  b_scan b = ScanIdle -> same_session b b' /\ b_sent b' = b_sent b /\
  (forall k l stop, b_scan b' = ScanTail k l stop -> Forall (fun a => completes a = false) l).
Proof.
  cbn zeta. intros Hs. unfold read_line. cbn zeta. destruct (bool_decide _); [split_and!; try done; cbn; congruence|].
  destruct (parseRPCMessage body) as [m|]; [|split_and!; try done; cbn; intros k l stop [= _ <- _]; by repeat constructor]. destruct (_ && _).
  - destruct (json_requestId _) as [[|x id]|]; try (split_and!; try done; cbn; congruence).
    destruct (b_inflight _ !! _) as [[owner [|]]|]; split_and!; try done; cbn; congruence.
  - destruct (newJob _ _ _ _) as [[j duplicate] b1] eqn:Ej. apply newJob_cases in Ej as (q & Hc).
    assert (Hf : same_session b b1 /\ b_sent b1 = b_sent b) by (destruct Hc as [(_ & _ & _ & _ & ->)|[(_ & _ & _ & -> & _)|(_ & _ & _ & _ & -> & _)]]; done).
    destruct Hf as [? ?]. destruct duplicate; (split; [done|]; split; [done|]); cbn; [intros k l stop [= _ <- _]; by repeat constructor|by destruct (_ || _)].
Qed.

Lemma read_jobs b body m js : b_jobs (read_line b body) !! m = Some js ->
  (exists x, b_jobs b !! m = Some x /\ js_progress js = js_progress x /\ jb_lifecycle (js_job js) = jb_lifecycle (js_job x)) \/ m = b_line b /\ js_progress js = Queued.
Proof.
  assert (Hold : forall b1, b_jobs b1 = b_jobs b -> b_jobs b1 !! m = Some js ->
    (exists x, b_jobs b !! m = Some x /\ js_progress js = js_progress x /\ jb_lifecycle (js_job js) = jb_lifecycle (js_job x)) \/ m = b_line b /\ js_progress js = Queued)
    by (intros b1 -> Hm; left; eauto).
  unfold read_line. cbn zeta. destruct (bool_decide _); [by apply Hold|]. destruct (parseRPCMessage body) as [r|]; [|by apply Hold]. destruct (_ && _).
  - destruct (json_requestId _) as [[|x id]|]; try by apply Hold. destruct (b_inflight _ !! _) as [[owner [|]]|]; try by apply Hold. cbn. intros Hm.
    destruct (decide (owner = m)) as [->|Hne]; [|rewrite lookup_alter_ne in Hm by done; left; eauto]. rewrite lookup_alter_eq in Hm.
    destruct (b_jobs b !! m) as [y|]; [|done]. injection Hm as <-. left. by exists y.
  - destruct (newJob _ _ _ _) as [[j duplicate] b1] eqn:Ej. apply newJob_cases in Ej as (q & Hc).
    assert (Hj : b_jobs b1 = b_jobs b) by (destruct Hc as [(_ & _ & _ & _ & ->)|[(_ & _ & _ & -> & _)|(_ & _ & _ & _ & -> & _)]]; done).
    destruct duplicate; [by apply Hold|]. cbn. rewrite Hj. intros [[<- <-]|[_ Hm]]%lookup_insert_Some; [by right|]. left. eauto.
Qed.

Lemma handled_scan b n l stop e : b_scan b = ScanTail n l stop -> handled b e (scan_next b n l stop).
Proof.
  intros Hs. destruct l as [|a rest]; cbn [scan_next]; cbn zeta.
  - apply handled_quiet; [by left|done|cbn; intros m; by destruct (b_jobs b !! m)|]. cbn. by destruct stop.
  - set (j := match b_jobs b !! n with Some js => js_job js | None => no_job end). pose proof (perform_frame b n j a) as (Ej & _ & _ & _ & Es & _).
    assert (Hse : session_edge b (perform b n j a)).
    { destruct (perform_session b n j a) as [H1|[H1|H1]]; [by left|by right; left|]. right; right; right. exists a. split; [|done]. right. exists n, (a :: rest), stop. by split; [|left]. }
    apply (handled_job b e _ n Ended); try done.
    + destruct a; try exact Hse. destruct (b_jobs b !! n); exact Hse.
    + destruct a; try exact Es. destruct (b_jobs b !! n); exact Es.
    + intros m x Hm. assert (Hm' : b_jobs b !! m = Some x \/ m = n /\ js_progress x = Ended).
      { destruct a; cbn [b_jobs set_scan] in Hm; rewrite ?Ej in Hm; auto. destruct (b_jobs b !! n); cbn [b_jobs set_job set_jobs] in Hm; rewrite Ej in Hm; auto.
        apply lookup_insert_Some in Hm as [[<- <-]|[_ Hm]]; auto. }
      destruct Hm' as [Hm'|?]; [left; eauto|by right].
    + intros k l stop' c [= <- <- _] _ Hin. right. exists n, (a :: rest), stop. split; [done|by right].
Qed.

Lemma handled_begin b n js e : b_scan b = ScanBegin n -> b_jobs b !! n = Some js -> js_progress js = Queued -> handled b e (begin_lifecycle b n js).
Proof.
  intros Hs Hn Hq. assert (Hse : session_edge b (begin_lifecycle b n js)) by (destruct (begin_session b n js) as [?|[?|?]]; unfold session_edge; auto).
  assert (Hf : exists b1, (b_jobs b1 = b_jobs b /\ b_sent b1 = b_sent b) /\
    ((exists j i, begin_lifecycle b n js = set_scan (set_job b1 n (with_job js j)) i /\ i = ScanEnqueue n) \/
     exists l, begin_lifecycle b n js = set_scan b1 (ScanTail n l false) /\ Forall (fun a => completes a = false) l)).
  { unfold begin_lifecycle. destruct (decide _).
    - destruct (beginInitialized b _) as [[i|message] b1] eqn:E; apply beginInitialized_frame in E as (Ej & _ & _ & _ & _ & Es & _); exists b1; (split; [done|]); [left; eauto|right].
      eexists. split; [done|]. by repeat constructor.
    - destruct (beginInitialization b _) as [[i|message] b1] eqn:E; apply beginInitialization_frame in E as (Ej & _ & _ & _ & _ & Es & _); exists b1; (split; [done|]); [left; eauto|right].
      eexists. split; [done|]. by repeat constructor. }
  destruct Hf as (b1 & [Ej Es] & [(j & i & E & ->)|(l & E & Hl)]); rewrite E in *.
  - apply (handled_job b e _ n Queued); try done. cbn. rewrite Ej. intros m x [[<- <-]|[_ Hm]]%lookup_insert_Some; [by right|left; eauto].
  - apply handled_quiet; try done; [cbn; rewrite Ej; intros m; by destruct (b_jobs b !! m)|].
    intros k l' stop a [= <- <- <-] Ha Hin. exfalso. by eapply incomplete_in.
Qed.

Lemma handled_enqueue b n js stopping e b' :
  b_scan b = ScanEnqueue n -> enqueue b n js stopping = Some b' -> handled b e b'.
Proof.
  intros Hs He. assert (Hf : forall b1 l stop, b_jobs b1 = b_jobs b -> same_session b b1 -> b_sent b1 = b_sent b -> b_scan b1 = ScanIdle \/ b_scan b1 = ScanTail n l stop ->
    Forall (fun a => completes a = false) l -> handled b e b1).
  { intros b1 l stop Ej Hse Hse' Hsc Hl. apply handled_quiet; try done; [by left|rewrite Ej; intros m; by destruct (b_jobs b !! m)|].
    intros k l' stop' a E Ha Hin. destruct Hsc as [Hsc|Hsc]; rewrite Hsc in E; [done|]. injection E as <- <- <-. exfalso. by eapply incomplete_in. }
  unfold enqueue in He. destruct stopping.
  - destruct (b_shutdown b); [|done]. injection He as <-. eapply Hf; [done|done|done|by right|]. apply Forall_app. split; [|by repeat constructor].
    destruct (js_class js); [auto|by repeat constructor..].
  - case_bool_decide; [injection He as <-; by apply (Hf _ [] false); auto|].
    destruct (js_class js); [| |done]; injection He as <-; (eapply Hf; [done|done|done|by right|]).
    + unfold rejectOverloaded. rewrite !Forall_app. split; [auto|]. destruct (rm_idPresent _); by repeat constructor.
    + by repeat constructor.
Qed.

Lemma handled_step b e b' : wf b -> step b e = Some b' -> handled b e b'.
Proof.
  intros W He. destruct e as [body|stopping|failed| | |c|k|k created signed|k|k r|k];
    try (destruct (b_jobs b !! k) as [js|] eqn:Hk; [by eapply handled_attempt|]);
    unfold step in He; (destruct (b_crashed b); [done|]).
  - destruct (b_scan b) eqn:Hs; try done. destruct (b_shutdown b) eqn:Hsh; [done|]. injection He as <-.
    destruct (read_quiet b body Hs) as (Hse & Hsent & Hsc). apply (handled_job _ _ _ (b_line b) Queued); try done; [by left|by intros m js ?%read_jobs|].
    intros k l stop a E Ha Hin. exfalso. eapply incomplete_in; [by eapply Hsc|done|done].
  - pose proof (wf_scan _ W) as Hw. destruct (b_scan b) as [|body r|k|k|k l stop|] eqn:Hs; try done.
    + destruct (newJob _ _ _ _) as [[j duplicate] b1] eqn:Ej. apply newJob_cases in Ej as (q & Hc). injection He as <-.
      assert (Hf : same_session b b1 /\ b_sent b1 = b_sent b /\ b_jobs b1 = b_jobs b) by (destruct Hc as [(_ & _ & _ & _ & ->)|[(_ & _ & _ & -> & _)|(_ & _ & _ & _ & -> & _)]]; done).
      destruct Hf as (? & ? & Ej). apply (handled_job _ _ _ (b_line b - 1) Queued); try done; [by left|]. cbn. rewrite Ej.
      intros m x [[<- <-]|[_ Hm]]%lookup_insert_Some; [by right|left; eauto].
    + destruct (b_jobs b !! k) as [js|] eqn:Hk; [|done]. injection He as <-. apply handled_begin; try done. destruct Hw as (x & Hx & ?). congruence.
    + destruct (b_jobs b !! k) as [js|] eqn:Hk; [|done]. by eapply handled_enqueue.
    + injection He as <-. by apply handled_scan.
  - destruct (b_scan b) eqn:Hs; try done. injection He as <-. apply handled_quiet; try done; try (by left; destruct (failed && _)); destruct (failed && _); try done.
    + cbn. intros m. rewrite map_lookup_imap. destruct (b_jobs b !! m) as [js|]; cbn; [|done]. by destruct (decide _).
    + cbn. intros m. by destruct (b_jobs b !! m).
  - injection He as <-. apply handled_quiet; try done; [by left|cbn; intros m; rewrite lookup_fmap; by destruct (b_jobs b !! m)|]. intros k l stop a Hs _ Hin. right. eauto.
  - injection He as <-. apply handled_quiet; try done; [by left|cbn; intros m; by destruct (b_jobs b !! m)|]. intros k l stop a Hs _ Hin. right. eauto.
  - destruct (pl_queue _) as [|n queue] eqn:Hq; [done|]. case_bool_decide; [|done]. destruct (b_jobs b !! n) as [js|] eqn:Hn; [|done]. injection He as <-.
    destruct (handled_serve b (EStart c) n js Waiting Hn) as [S1 S2 S3 S4]; try done.
  - injection He as <-. apply handled_quiet; try done; [by left| |intros k' l stop a Hs _ Hin; right; eauto]. cbn. intros m.
    destruct (decide (k = m)) as [->|Hne]; [rewrite lookup_alter_eq; by destruct (b_jobs b !! m)|rewrite lookup_alter_ne by done; by destruct (b_jobs b !! m)].
  - by rewrite Hk in He.
  - destruct (b_jobs b !! k) as [js|] eqn:Hk; [|done]. cbn in He. destruct (js_progress js) eqn:Hp; try done. destruct (js_cause js); [|done]. injection He as <-.
    apply handled_serve; try done. intros l a [= <-] Ha Hin. exfalso. eapply incomplete_in; [|exact Ha|exact Hin]. auto.
  - destruct (b_jobs b !! k) as [js|] eqn:Hk; [|done]. cbn in He. destruct (js_progress js) eqn:Hp; try done. injection He as <-.
    apply handled_serve; try done. intros l a [= <-] Ha Hin. right. eauto 8.
  - destruct (b_jobs b !! k) as [js|] eqn:Hk; [|done]. cbn in He. destruct (js_progress js) as [| | | |[|a rest]|] eqn:Hp; try done. injection He as <-.
    pose proof (perform_frame b k (js_job js) a) as (Ej & _ & _ & Esc & Es & _).
    assert (Hse : session_edge b (perform b k (js_job js) a)).
    { destruct (perform_session b k (js_job js) a) as [H1|[H1|H1]]; [by left|by right; left|]. right; right; right. exists a. split; [|done]. left. exists k, js, (a :: rest).
      by split; [|split; [|left]]. }
    apply (handled_job _ _ _ k (match rest with [] => Ended | _ => Tail rest end)); unfold advance; try (by destruct rest).
    + intros m x Hm. destruct rest; cbn [b_jobs set_pool set_job set_jobs] in Hm; rewrite Ej in Hm; (apply lookup_insert_Some in Hm as [[<- <-]|[_ Hm]]; [by right|left; eauto]).
    + intros l c E Ha Hin. left. left. exists k, js, (a :: rest). split; [done|]. split; [done|]. right. destruct rest; [done|]. by injection E as <-.
    + intros k' l stop c E _ Hin. right. exists k', l, stop. split; [|done]. rewrite <- Esc. by destruct rest.
Qed.

(** *** Identities *)

(** The gateway answered an initialize request of the bridge with this session and version. *)
Definition negotiated (es : list event) (b : bridge) (sessionID version : gostring) : Prop :=
  exists n sr header body id compact, sr ∈ b_sent b /\ sr_job sr = n /\ sr_lifecycle sr = LifecycleInitialize /\ EReply n (Reply 200 header body false) ∈ es /\
    sessionIDFromResponse header = Some sessionID /\ validateInitializeResponse body id = Ok (compact, Some version).
(** It accepted a [notifications/initialized] of the bridge. *)
Definition acknowledged (es : list event) (b : bridge) : Prop :=
  exists n sr status header body broken, sr ∈ b_sent b /\ sr_job sr = n /\ sr_lifecycle sr = LifecycleInitialized /\
    EReply n (Reply status header body broken) ∈ es /\ (status = 202 \/ status = 204).
Definition established (es : list event) (b : bridge) (sessionID version : gostring) : Prop :=
  bc_SessionID cfg <> [] /\ sessionID = bc_SessionID cfg /\ version = defaultMCPProtocolVersion \/
  bc_SessionID cfg = [] /\ negotiated es b sessionID version /\ acknowledged es b.

(** The identity that a request may carry. *)
Definition may_carry (es : list event) (b : bridge) (sr : sentRequest) : Prop :=
  match sr_lifecycle sr with
  | LifecycleInitialize => sr_sessionID sr = [] /\ sr_version sr = []
  | LifecycleInitialized => negotiated es b (sr_sessionID sr) (sr_version sr) \/ established es b (sr_sessionID sr) (sr_version sr)
  | LifecycleNone => established es b (sr_sessionID sr) (sr_version sr)
  end.

Record trusted (es : list event) (b : bridge) : Prop := {
  tr_wf : wf b;
  tr_left a : left_to_do b a -> match a with
    | MCompleteInit _ sessionID version => negotiated es b sessionID version
    | MCompleteInitialized _ => acknowledged es b
    | _ => True
    end;
  tr_state : match b_state b with
    | Uninitialized | Initializing => bc_SessionID cfg = []
    | WaitingInitialized => bc_SessionID cfg = [] /\ negotiated es b (b_sessionID b) (b_version b)
    | Initialized => established es b (b_sessionID b) (b_version b)
    | SessionFailed => True
    end;
  tr_jobs n js : b_jobs b !! n = Some js -> js_progress js = Sent -> exists sr, sr ∈ b_sent b /\ sr_job sr = n /\ sr_lifecycle sr = jb_lifecycle (js_job js);
  tr_sent sr : sr ∈ b_sent b -> may_carry es b sr
}.

Lemma receive_completes j c r a :
  completes a = true -> a ∈ receive j c r ->
  match a with
  | MCompleteInit _ sessionID version => jb_lifecycle j = LifecycleInitialize /\ exists header body compact, r = Reply 200 header body false /\
      sessionIDFromResponse header = Some sessionID /\ validateInitializeResponse body (rm_id (jb_message j)) = Ok (compact, Some version)
  | MCompleteInitialized _ => jb_lifecycle j = LifecycleInitialized /\ exists status header body broken, r = Reply status header body broken /\ (status = 202 \/ status = 204)
  | _ => True
  end.
Proof.
  intros Ha. assert (Hgive : forall l, Forall (fun a => completes a = false) l -> a ∈ end_failed j l -> False) by (intros l Hl; eapply incomplete_in; [|done]; auto).
  destruct r as [text|status header body broken]; cbn [receive].
  - intros Hin. exfalso. eapply Hgive; [|exact Hin]. destruct c as [[]|]; auto.
  - destruct (decide _) as [Hl|_].
    + destruct (_ || _) eqn:Es; [|intros Hin; exfalso; eapply Hgive; [|exact Hin]; auto]. intros Hin. apply elem_of_cons in Hin as [->|Hin]; [|by apply list_elem_of_singleton in Hin as ->].
      split; [done|]. exists status, header, body, broken. split; [done|]. apply orb_true_iff in Es as [Es%Z.eqb_eq|Es%Z.eqb_eq]; auto.
    + destruct (_ && _); [intros Hin; exfalso; by eapply Hgive; [|exact Hin]|].
      destruct (broken || _) eqn:Eb; [intros Hin; exfalso; eapply Hgive; [|exact Hin]; auto|]. apply orb_false_iff in Eb as [-> _].
      destruct (negb _) eqn:Es; [intros Hin; exfalso; eapply Hgive; [|exact Hin]; auto|]. apply negb_false_iff, Z.eqb_eq in Es as ->.
      destruct (rm_notification _); [intros Hin; exfalso; by eapply Hgive; [|exact Hin]|].
      destruct (decide _) as [Hl|_]; [|intros Hin; apply elem_of_cons in Hin as [->|Hin]; [done|by apply list_elem_of_singleton in Hin as ->]].
      destruct (validateInitializeResponse _ _) as [[compact [version|]]|message] eqn:Ev; [|..|intros Hin; exfalso; eapply Hgive; [|exact Hin]; auto].
      * destruct (sessionIDFromResponse header) as [sid|] eqn:Eh; [|intros Hin; exfalso; eapply Hgive; [|exact Hin]; auto].
        intros Hin. repeat (apply elem_of_cons in Hin as [->|Hin]; [try done|]); [|by apply not_elem_of_nil in Hin]. split; [done|]. by exists header, body, compact.
      * intros Hin. repeat (apply elem_of_cons in Hin as [->|Hin]; [try done|]). by apply not_elem_of_nil in Hin.
Qed.

Lemma trusted_more es e b b' : (exists l, b_sent b' = b_sent b ++ l) -> forall sessionID version,
  (negotiated es b sessionID version -> negotiated (es ++ [e]) b' sessionID version) /\ (acknowledged es b -> acknowledged (es ++ [e]) b') /\
  (established es b sessionID version -> established (es ++ [e]) b' sessionID version).
Proof.
  intros [l Hl] sessionID version.
  assert (Hn : negotiated es b sessionID version -> negotiated (es ++ [e]) b' sessionID version).
  { intros (n & sr & header & body & id & compact & Hin & ? & ? & He & ? & ?). exists n, sr, header, body, id, compact. split_and!; try done; [rewrite Hl|]; apply elem_of_app; by left. }
  assert (Ha : acknowledged es b -> acknowledged (es ++ [e]) b').
  { intros (n & sr & status & header & body & broken & Hin & ? & ? & He & ?). exists n, sr, status, header, body, broken. split_and!; try done; [rewrite Hl|]; apply elem_of_app; by left. }
  split; [done|]. split; [done|]. intros [?|(? & ? & ?)]; [by left|right; auto].
Qed.

Lemma identity_trusted es b j sessionID version :
  trusted es b -> requestIdentity b j = Identified sessionID version -> forall n, may_carry es b (mkSent n (jb_lifecycle j) sessionID version).
Proof.
  intros [_ _ T _ _] Hr n. unfold requestIdentity in Hr. unfold may_carry. cbn. destruct (decide _) as [->|Hl]; [by injection Hr as <- <-|].
  destruct (b_state b); try done.
  - destruct (_ && _) eqn:E; [|done]. injection Hr as <- <-. apply andb_true_iff in E as [E%bool_decide_eq_true _]. rewrite E. left. apply T.
  - injection Hr as <- <-. destruct (jb_lifecycle j); try done. by right.
Qed.

Lemma trusted_step es b e b' : trusted es b -> step b e = Some b' -> trusted (es ++ [e]) b'.
Proof.
  intros T He. pose proof T as [W Tl Ts Tj Tsent]. destruct (handled_step _ _ _ W He) as [Hse Hl Hs Hj].
  assert (Hmore : exists l, b_sent b' = b_sent b ++ l) by (destruct Hs as [->|(? & ? & ? & ? & _ & _ & ->)]; eauto; exists []; by rewrite app_nil_r).
  pose proof (trusted_more es e b b' Hmore) as M.
  assert (Hleft : forall a, left_to_do b' a -> match a with
    | MCompleteInit _ sessionID version => negotiated (es ++ [e]) b' sessionID version | MCompleteInitialized _ => acknowledged (es ++ [e]) b' | _ => True end).
  { intros a Ha. destruct (completes a) eqn:Ec; [|by destruct a]. destruct (Hl _ Ec Ha) as [Ha'|(n & js & r & -> & Hn & Hp & Hin)].
    - specialize (Tl _ Ha'). destruct a; try done; [by apply M|by apply (M [] [])].
    - destruct (Tj _ _ Hn Hp) as (sr & Hsr & Hjob & Hlife). destruct Hmore as [more Hmore]. pose proof (receive_completes _ _ _ _ Ec Hin) as Hr.
      destruct a; try done.
      + destruct Hr as (E & header & body & compact & -> & ? & ?). exists n, sr, header, body, (rm_id (jb_message (js_job js))), compact.
        rewrite E in Hlife. split_and!; try done; [rewrite Hmore|]; set_solver.
      + destruct Hr as (E & status & header & body & broken & -> & ?). exists n, sr, status, header, body, broken.
        rewrite E in Hlife. split_and!; try done; [rewrite Hmore|]; set_solver. }
  split.
  - by eapply wf_step.
  - exact Hleft.
  - destruct Hse as [(Es & Ei & Ev)|[->|[[E ->]|(a & Ha & Hm)]]]; try done.
    + rewrite Es, Ei, Ev. destruct (b_state b); try done; [|by apply M]. destruct Ts as [? ?]. split; [done|]. by apply M.
    + by rewrite E in Ts.
    + specialize (Tl _ Ha). destruct a; try done; destruct Hm as (E & -> & Ei & Ev); rewrite E in Ts; rewrite Ei, Ev.
      * split; [done|]. by apply M.
      * destruct Ts as [? ?]. right. split; [done|]. split; [by apply M|by apply (M [] [])].
  - intros n js Hn Hp. destruct (Hj _ _ Hn Hp) as [(x & Hx & Hpx & ->)|(sr & ? & ? & ?)]; [|eauto]. destruct (Tj _ _ Hx Hpx) as (sr & Hsr & ? & ?).
    exists sr. split_and!; try done. destruct Hmore as [l ->]. set_solver.
  - intros sr Hsr. assert (Hold : may_carry es b sr -> may_carry (es ++ [e]) b' sr).
    { unfold may_carry. destruct (sr_lifecycle sr); try done; [by apply M|]. intros [?|?]; [left|right]; by apply M. }
    apply Hold. destruct Hs as [Hs|(n & js & sessionID & version & Hn & Hr & Hs)]; rewrite Hs in Hsr; [by apply Tsent|].
    apply elem_of_app in Hsr as [Hsr|Hsr]; [by apply Tsent|]. apply list_elem_of_singleton in Hsr as ->. by apply identity_trusted.
Qed.

Lemma trusted_newBridge : trusted [] newBridge.
Proof.
  split; [apply wf_newBridge|..].
  - intros a [(n & js & l & Hn & _)|(n & l & stop & Hs & _)]; [cbn in Hn; by rewrite lookup_empty in Hn|done].
  - unfold newBridge. cbn. case_bool_decide as E; cbn; [done|]. by left.
  - intros n js. cbn. by rewrite lookup_empty.
  - intros sr Hs. by apply elem_of_nil in Hs.
Qed.

Lemma trusted_run es b : run es newBridge = Some b -> trusted es b.
Proof.
  assert (Hgen : forall es es0 b0, trusted es0 b0 -> run es b0 = Some b -> trusted (es0 ++ es) b).
  { clear es. intros es. induction es as [|e es IH]; cbn; intros es0 b0 T Hr; [rewrite app_nil_r; by injection Hr as <-|].
    destruct (step b0 e) as [b1|] eqn:E; [|done]. cbn in Hr. replace (es0 ++ e :: es) with ((es0 ++ [e]) ++ es) by by rewrite <- app_assoc.
    eapply IH; [by eapply trusted_step|done]. }
  apply (Hgen es [] newBridge), trusted_newBridge.
Qed.

(** ** Crashes *)

Lemma perform_crash b n j a : b_crashed (perform b n j a) = true -> b_crashed b = true \/ jb_zero j = true.
Proof.
  destruct a as [l|message|i sessionID version|i message|i|i message|]; cbn [perform].
  - destruct (b_broken b); auto.
  - auto.
  - pose proof (completeInitialization_frame b i sessionID version) as (_ & _ & _ & _ & _ & _ & _ & _ & _ & ->). auto.
  - pose proof (failInitialization_frame b i message) as (_ & _ & _ & _ & _ & _ & _ & _ & _ & ->). auto.
  - pose proof (completeInitialized_frame b i) as (_ & _ & _ & _ & _ & _ & _ & _ & _ & ->). auto.
  - pose proof (failInitialized_frame b i message) as (_ & _ & _ & _ & _ & _ & _ & _ & _ & ->). auto.
  - unfold finish. destruct (jb_zero j); [auto|]. destruct (jb_key j) as [key|]; [destruct (b_inflight b !! key) as [[owner fl]|]; [destruct (decide (owner = n))|]|]; auto.
Qed.

(** Only the zero job makes the bridge crash. *)
Lemma step_crash b e b' : step b e = Some b' -> b_crashed b' = true -> exists n js, b_jobs b !! n = Some js /\ jb_zero (js_job js) = true.
Proof.
  intros He. assert (Hb : b_crashed b = false) by (unfold step in He; by destruct (b_crashed b)).
  destruct e as [body|stopping|failed| | |c|k|k created signed|k|k r|k];
    try (destruct (b_jobs b !! k) as [js|] eqn:Hk;
      [destruct (step_attempt _ _ _ _ _ _ Hk He) as [_ [[-> ?]|[->|[[? ->]|(? & ? & _ & _ & ->)]]]]; [by eauto|cbn; congruence..]|]);
    unfold step in He; rewrite Hb in He.
  - destruct (b_scan b); try done. destruct (b_shutdown b) eqn:Hsh; [done|]. injection He as <-. unfold read_line. cbn zeta.
    destruct (bool_decide _); [cbn; congruence|]. destruct (parseRPCMessage body); [|cbn; congruence]. destruct (_ && _).
    + destruct (json_requestId _) as [[|x id]|]; try (cbn; congruence). destruct (b_inflight _ !! _) as [[owner [|]]|]; cbn; congruence.
    + destruct (newJob _ _ _ _) as [[j duplicate] b1] eqn:Ej. apply newJob_cases in Ej as (q & [(_ & _ & _ & _ & ->)|[(_ & _ & _ & -> & _)|(_ & _ & _ & _ & -> & _)]]); destruct duplicate; cbn; congruence.
  - destruct (b_scan b) as [|body m|k|k|k l stop|] eqn:Hs; try done.
    + destruct (newJob _ _ _ _) as [[j duplicate] b1] eqn:Ej. injection He as <-.
      apply newJob_cases in Ej as (q & [(_ & _ & _ & _ & ->)|[(_ & _ & _ & -> & _)|(_ & _ & _ & _ & -> & _)]]); cbn; congruence.
    + destruct (b_jobs b !! k) as [js|]; [|done]. injection He as <-. unfold begin_lifecycle. destruct (decide _).
      * destruct (beginInitialized b _) as [[] b1] eqn:E; apply beginInitialized_frame in E as (_ & _ & _ & _ & _ & _ & _ & _ & _ & E); cbn; congruence.
      * destruct (beginInitialization b _) as [[] b1] eqn:E; apply beginInitialization_frame in E as (_ & _ & _ & _ & _ & _ & _ & _ & _ & E); cbn; congruence.
    + destruct (b_jobs b !! k) as [js|]; [|done]. cbn in He. unfold enqueue in He.
      destruct stopping; [destruct (b_shutdown b) eqn:?; [|done]|case_bool_decide; [|destruct (js_class js); [| |done]]]; injection He as <-; cbn; congruence.
    + injection He as <-. unfold scan_next. destruct l as [|a rest]; [cbn; congruence|]. intros Hc.
      assert (Hp : b_crashed (perform b k (match b_jobs b !! k with Some js => js_job js | None => no_job end) a) = true) by (destruct a; try exact Hc; destruct (b_jobs b !! k); exact Hc).
      apply perform_crash in Hp as [Hp|Hp]; [congruence|]. destruct (b_jobs b !! k) eqn:Hk; [eauto|done].
  - destruct (b_scan b); try done. injection He as <-. destruct (failed && _); cbn; congruence.
  - injection He as <-. cbn. congruence.
  - injection He as <-. cbn. congruence.
  - destruct (pl_queue _) as [|n queue]; [done|]. case_bool_decide; [|done]. destruct (b_jobs b !! n); [|done]. injection He as <-. cbn. congruence.
  - injection He as <-. cbn. congruence.
  - by rewrite Hk in He.
  - destruct (b_jobs b !! k) as [js|]; [|done]. cbn in He. destruct (js_progress js); try done. destruct (js_cause js); [|done]. injection He as <-. cbn. congruence.
  - destruct (b_jobs b !! k) as [js|]; [|done]. cbn in He. destruct (js_progress js); try done. injection He as <-. cbn. congruence.
  - destruct (b_jobs b !! k) as [js|] eqn:Hk; [|done]. cbn in He. destruct (js_progress js) as [| | | |[|a rest]|]; try done. injection He as <-. intros Hc.
    assert (Hp : b_crashed (perform b k (js_job js) a) = true) by (unfold advance in Hc; by destruct rest). apply perform_crash in Hp as [Hp|Hp]; [congruence|eauto].
Qed.

(** A line of the input that is a cancellation with an identifier of its own. *)
Definition cancels_with_id (e : event) : Prop :=
  match e with ELine body => exists m, parseRPCMessage body = Some m /\ rm_jsonrpc m = "2.0" /\ rm_method m = "notifications/cancelled" /\ rm_idPresent m = true | _ => False end.

Lemma run_sane es b : run es newBridge = Some b -> Forall (fun e => ~ cancels_with_id e) es ->
  b_crashed b = false.
Proof.
  set (sane := fun b => b_crashed b = false /\ (forall n js, b_jobs b !! n = Some js -> jb_zero (js_job js) = false) /\
    forall body m, b_scan b = ScanForward body m -> rm_idPresent m = false).
  assert (Hgen : forall es b0, sane b0 -> run es b0 = Some b -> Forall (fun e => ~ cancels_with_id e) es -> sane b).
  { clear es. intros es. induction es as [|e es IH]; cbn; intros b0 S Hr Hf; [by injection Hr as <-|]. apply Forall_cons in Hf as [Hne Hf].
    destruct (step b0 e) as [b1|] eqn:He; [|done]. cbn in Hr. eapply IH; [|done|done]. destruct S as (S1 & S2 & S3). split_and!.
    - destruct (b_crashed b1) eqn:Hc; [|done]. destruct (step_crash _ _ _ He Hc) as (n & js & Hn & Hz). rewrite (S2 _ _ Hn) in Hz. done.
    - intros n js Hn. destruct (origin_step _ _ _ _ _ He Hn) as [(x & Hx & _ & _ & -> & _)|(_ & _ & _ & body & m & [(Hs & _ & _ & Hz)|(_ & _ & _ & ? & _)])]; [by eapply S2| |done].
      destruct (jb_zero (js_job js)) eqn:Ez; [|done]. specialize (Hz eq_refl). rewrite (S3 _ _ Hs) in Hz. done.
    - intros body m Hs. destruct (step_scan _ _ _ He) as [E|E]; rewrite Hs in E; [by eapply S3|]. destruct E as (Hidle & body0 & -> & ->).
      destruct (read_forward _ _ _ _ Hidle Hs) as (Hp & Hj & Hm). destruct (rm_idPresent m) eqn:Hid; [|done]. exfalso. apply Hne. cbn. eauto. }
  intros Hr Hf. apply (Hgen es newBridge); done.
Qed.

(** How it does: such a cancellation, of a request in flight, whose own identifier is in flight
    too. The second job has no cancel function, and to call it is fatal. *)
Lemma cancellation_with_id_crashes b body m id owner :
  wf b -> b_crashed b = false -> b_scan b = ScanIdle -> b_shutdown b = false -> b_state b = Initialized -> b_pools b Control = empty_pool ->
  trim_space body <> [] -> parseRPCMessage body = Some m -> rm_jsonrpc m = "2.0" -> rm_method m = "notifications/cancelled" ->
  json_requestId (rm_params m) = Some id -> id <> [] -> b_inflight b !! canonicalID id = Some (owner, false) ->
  rm_idPresent m = true -> is_Some (b_inflight b !! canonicalID (rm_id m)) ->
  exists es b', run es b = Some b' /\ b_crashed b' = true.
Proof.
  intros W Hc Hs Hsh Hst Hp Ht Hparse Hj Hm Hr Hid Hin Hpres [v Hdup]. set (n := b_line b).
  set (b1 := set_scan (set_jobs (set_inflight (set_line b (S n)) (<[canonicalID id := (owner, true)]> (b_inflight b))) (alter (with_cause CauseCancelled) owner (b_jobs b))) (ScanForward body m)).
  assert (S1 : step b (ELine body) = Some b1).
  { unfold step. rewrite Hc, Hs, Hsh. unfold read_line. rewrite bool_decide_false, Hparse, !bool_decide_true by done. cbn [andb]. rewrite Hr. destruct id as [|x id]; [done|].
    cbn [b_inflight set_line]. rewrite Hin. done. }
  assert (Hdup' : exists w, b_inflight b1 !! canonicalID (rm_id m) = Some w).
  { cbn. destruct (decide (canonicalID id = canonicalID (rm_id m))) as [<-|Hne]; [rewrite lookup_insert_eq|rewrite lookup_insert_ne by done]; eauto. }
  destruct Hdup' as [w Hdup'].
  set (js := new_state b1 Control zero_job). set (b2 := set_scan (set_job b1 n js) (ScanEnqueue n)).
  assert (S2 : step b1 (EScan false) = Some b2).
  { unfold step. change (b_crashed b1) with (b_crashed b). rewrite Hc. cbn [b_scan b1 set_scan]. change (b_line b1) with (S n). replace (S n - 1)%nat with n by lia.
    unfold newJob, clientRequestID. rewrite Hpres. cbn [negb]. cbn zeta. rewrite Hdup'. done. }
  set (b3 := set_scan (set_pool b2 Control (mkPool [n] [])) ScanIdle).
  assert (H2 : b_jobs b2 !! n = Some js) by apply lookup_insert_eq.
  assert (S3 : step b2 (EScan false) = Some b3).
  { unfold step. change (b_crashed b2) with (b_crashed b). rewrite Hc. cbn [b_scan b2 set_scan]. rewrite H2. cbn [mbind option_bind]. unfold enqueue. cbn [js_class js new_state].
    change (b_pools b2 Control) with (b_pools b Control). rewrite Hp. cbn [empty_pool pl_queue pl_running length]. rewrite bool_decide_true by (unfold queue_capacity, maxControlPending; cbn; lia). done. }
  set (b4 := set_pool (set_job b3 n (with_progress js Waiting)) Control (mkPool [] [n])).
  assert (S4 : step b3 (EStart Control) = Some b4).
  { unfold step. change (b_crashed b3) with (b_crashed b). rewrite Hc. cbn [b_pools b3 set_scan set_pool]. rewrite decide_True by done. cbn [pl_queue pl_running length].
    rewrite bool_decide_true by (cbn; lia). change (b_jobs b3) with (b_jobs b2). rewrite H2. done. }
  set (l := end_failed zero_job (fail zero_job (-32098) "could not create HTTP request")). set (b5 := set_job b4 n (with_progress js (Tail l))).
  assert (H4 : b_jobs b4 !! n = Some (with_progress js Waiting)) by apply lookup_insert_eq.
  assert (S5 : step b4 (EAttempt n false false) = Some b5).
  { unfold step. change (b_crashed b4) with (b_crashed b). rewrite Hc. rewrite H4. cbn [mbind option_bind js_progress with_progress]. unfold requestIdentity. cbn [js_job with_progress js new_state jb_lifecycle zero_job].
    rewrite decide_False by done. change (b_state b4) with (b_state b). rewrite Hst. done. }
  set (js5 := with_progress js (Tail l)). assert (H5 : b_jobs b5 !! n = Some js5) by apply lookup_insert_eq.
  set (b6 := advance b5 n js5 (MOut (error_line [] (-32098) "could not create HTTP request")) [MFinish]).
  assert (S6 : step b5 (EMicro n) = Some b6).
  { unfold step. change (b_crashed b5) with (b_crashed b). rewrite Hc, H5. done. }
  assert (H6 : b_jobs b6 !! n = Some (with_progress js5 (Tail [MFinish])) /\ b_crashed b6 = false).
  { unfold b6, advance. cbn [perform]. change (b_broken b5) with (b_broken b). split; [apply lookup_insert_eq|]. destruct (b_broken b); exact Hc. }
  destruct H6 as [H6 Hc6]. set (b7 := advance b6 n (with_progress js5 (Tail [MFinish])) MFinish []).
  assert (S7 : step b6 (EMicro n) = Some b7) by (unfold step; rewrite Hc6, H6; done).
  exists [ELine body; EScan false; EScan false; EStart Control; EAttempt n false false; EMicro n; EMicro n], b7. split; [|done].
  cbn [run]. rewrite S1. cbn [mbind option_bind run]. rewrite S2. cbn [mbind option_bind run]. rewrite S3. cbn [mbind option_bind run]. rewrite S4.
  cbn [mbind option_bind run]. rewrite S5. cbn [mbind option_bind run]. rewrite S6. cbn [mbind option_bind run]. by rewrite S7.
Qed.

(** ** What holds of a bridge *)

(** What a thread can have of the bridge. *)
Definition places (b : bridge) : list nat :=
  (match scan_job b with Some n => [n] | None => [] end) ++
  pl_queue (b_pools b Ordinary) ++ pl_queue (b_pools b Control) ++ pl_queue (b_pools b Lifecycle) ++
  pl_running (b_pools b Ordinary) ++ pl_running (b_pools b Control) ++ pl_running (b_pools b Lifecycle).

Lemma live_place b n js : wf b -> b_jobs b !! n = Some js -> live js -> n ∈ places b.
Proof.
  intros W Hn Hl. pose proof (wf_place _ W _ _ Hn) as Hp. unfold places. rewrite !elem_of_app. unfold live in Hl.
  destruct (js_progress js); try done; [destruct Hp as [-> |Hp]; [left; by left|]|..]; try (destruct Hp as [_ Hp]); destruct (js_class js); auto 10.
Qed.

Lemma owners_NoDup b : wf b -> NoDup (owners b).
Proof.
  intros W. unfold owners. apply NoDup_fmap_2_strong; [|apply NoDup_map_to_list].
  intros [k1 [n1 f1]] [k2 [n2 f2]] H1%elem_of_map_to_list H2%elem_of_map_to_list E. cbn in E. subst n2.
  destruct (wf_inflight _ W _ _ _ H1) as (x & Hx & Hk1 & _), (wf_inflight _ W _ _ _ H2) as (y & Hy & Hk2 & _).
  assert (k1 = k2) as -> by congruence. congruence.
Qed.

Lemma inflight_bound b : wf b ->
  (size (b_inflight b) <= 1 + (queue_capacity Ordinary + maxControlPending + 1) + (workers Ordinary + 1 + 1))%nat.
Proof.
  intros W. assert (Hlen : (length (owners b) <= length (places b))%nat).
  { apply submseteq_length, NoDup_submseteq; [by apply owners_NoDup|]. intros n Hn. unfold owners in Hn. apply list_elem_of_fmap in Hn as ([k [m f]] & -> & Hk%elem_of_map_to_list).
    destruct (wf_inflight _ W _ _ _ Hk) as (js & Hj & _ & Hl). by eapply live_place. }
  assert (Hsize : size (b_inflight b) = length (owners b)) by (unfold owners; rewrite length_fmap; by rewrite length_map_to_list).
  rewrite Hsize. etrans; [exact Hlen|]. unfold places. rewrite !length_app.
  pose proof (wf_size _ W Ordinary) as [? ?]. pose proof (wf_size _ W Control) as [? ?]. pose proof (wf_size _ W Lifecycle) as [? ?].
  change (queue_capacity Control) with maxControlPending in *. change (queue_capacity Lifecycle) with 1%nat in *. change (workers Control) with 1%nat in *. change (workers Lifecycle) with 1%nat in *.
  destruct (scan_job b); cbn [length]; lia.
Qed.

(** C14. In every run of the bridge, whatever the lines, the answers and the interleaving: no queue has
    more jobs than it has room for, and no more run than there are workers for; a request is in
    flight exactly as long as the job that it names, and its key, are of one that is not over;
    so their number is bounded by the options. *)
Theorem bridge_bounded es b :
  run es newBridge = Some b ->
  (forall c, (length (pl_queue (b_pools b c)) <= queue_capacity c)%nat /\ (length (pl_running (b_pools b c)) <= workers c)%nat) /\
  (forall key n, (exists forwarded, b_inflight b !! key = Some (n, forwarded)) <->
    exists js, b_jobs b !! n = Some js /\ jb_key (js_job js) = Some key /\ js_progress js <> Ended) /\
  (size (b_inflight b) <= 1 + (queue_capacity Ordinary + maxControlPending + 1) + (workers Ordinary + 1 + 1))%nat.
Proof.
  intros W%wf_run. split; [apply W|]. split; [|by apply inflight_bound]. intros key n. split.
  - intros [f Hk]. by eapply wf_inflight.
  - intros (js & Hn & Hk & Hl). by eapply wf_key.
Qed.


(** C6. No request leaves before the session that it belongs to: an [initialize] has no identity; a
    [notifications/initialized] has the session and version that the gateway gave in a response
    to such an [initialize]; any other request has a session that the gateway also accepted a
    [notifications/initialized] in, or the one of the configuration. *)
Theorem requests_identified es b sr : run es newBridge = Some b -> sr ∈ b_sent b -> may_carry es b sr.
Proof. intros T%trusted_run. apply T. Qed.

(** A session goes from one state to the next, or fails for good. *)
Theorem session_advances es b e b' :
  run es newBridge = Some b -> step b e = Some b' -> b_state b' <> b_state b ->
  b_state b' = SessionFailed \/ (b_state b, b_state b') ∈ [(Uninitialized, Initializing); (Initializing, WaitingInitialized); (WaitingInitialized, Initialized)].
Proof.
  intros W%wf_run He Hne. destruct (handled_step _ _ _ W He) as [[(? & _ & _)|[?|[[-> ->]|(a & _ & Hm)]]] _ _ _]; [done|by left|right; set_solver|right].
  destruct a; try done; destruct Hm as (-> & -> & _); set_solver.
Qed.

(** C24. Unless a cancellation carries an identifier of its own, no run crashes. *)
Theorem bridge_does_not_crash es b : run es newBridge = Some b -> Forall (fun e => ~ cancels_with_id e) es -> b_crashed b = false.
Proof. apply run_sane. Qed.
End bridge.

(** ** Witnesses *)

Definition demo_fields (method id : gostring) : gmap gostring gostring :=
  let m : gmap gostring gostring := list_to_map [("jsonrpc" : gostring, "2.0" : gostring); ("method" : gostring, method); ("params" : gostring, "p" : gostring)] in
  if decide (id = []) then m else <["id" : gostring := id]> m.
Definition demo_json : BridgeJson := {|
  json_fields body := if decide (body = "i") then Some (demo_fields "initialize" "1") else if decide (body = "a") then Some (demo_fields "notifications/initialized" [])
    else if decide (body = "c") then Some (demo_fields "tools/call" "2") else None;
  json_string := Some; json_compact := Some; json_requestId := Some; json_protocolVersion _ := Some ("2025-06-18" : gostring);
  decode_remote body := Some (mkRemoteResponse "2.0" body "r" []); decode_rpc_error _ := false
|}.
Definition demo_config : bridgeConfig := mkBridgeConfig "https://a.b/mcp" "t" 1 1024 1024 2 2 false false [] [] true.
Definition demo_turn (n : nat) (c : class) (r : reply) (micros : nat) : list event :=
  [EStart c; EAttempt n true true; EReply n r] ++ repeat (EMicro n) micros.
Definition demo_run : list event :=
  [ELine "i"; EScan false; EScan false] ++ demo_turn 0 Ordinary (Reply 200 ["s"] "1" false) 3 ++
  [ELine "a"; EScan false; EScan false] ++ demo_turn 1 Lifecycle (Reply 202 [] [] false) 2 ++
  [ELine "c"; EScan false] ++ demo_turn 2 Ordinary (Reply 200 [] "2" false) 2.
#[local] Existing Instances toy_crypto demo_json.

Lemma demo_ends : exists b js, run demo_config demo_run (newBridge demo_config) = Some b /\ b_jobs b !! 2%nat = Some js /\ js_progress js = Ended /\
  scan_job b = None /\ owed (jb_message (js_job js)) = true /\ b_broken b = false /\ b_shutdown b = false /\
  b_sent b = [mkSent 0 LifecycleInitialize [] []; mkSent 1 LifecycleInitialized "s" "2025-06-18"; mkSent 2 LifecycleNone "s" "2025-06-18"].
Proof. eexists _, _. split; [vm_compute; reflexivity|]. split_and!; vm_compute; reflexivity. Qed.

Lemma bridge_bounded_witness : exists b, run demo_config demo_run (newBridge demo_config) = Some b /\ (size (b_inflight b) <= 16)%nat.
Proof.
  destruct demo_ends as (b & js & Hr & _). exists b. split; [exact Hr|].
  destruct (bridge_bounded demo_config demo_run b Hr) as (_ & _ & Hs). eapply Nat.le_trans; [exact Hs|]. apply Nat.leb_le. vm_compute. reflexivity.
Defined.


Lemma requests_identified_witness : exists b, run demo_config demo_run (newBridge demo_config) = Some b /\
  established demo_config demo_run b "s" "2025-06-18".
Proof.
  destruct demo_ends as (b & js & Hr & _ & _ & _ & _ & _ & _ & Hs). exists b. split; [exact Hr|].
  apply (requests_identified demo_config demo_run b (mkSent 2 LifecycleNone "s" "2025-06-18") Hr). rewrite Hs. right. right. left.
Defined.

Lemma demo_begins : exists b b', run demo_config [ELine "i"] (newBridge demo_config) = Some b /\ step demo_config b (EScan false) = Some b' /\
  b_state b = Uninitialized /\ b_state b' = Initializing.
Proof. eexists _, _. split; [vm_compute; reflexivity|]. split; [vm_compute; reflexivity|]. by split. Qed.

Lemma session_advances_witness : exists b b', run demo_config [ELine "i"] (newBridge demo_config) = Some b /\ step demo_config b (EScan false) = Some b' /\
  (b_state b, b_state b') ∈ [(Uninitialized, Initializing); (Initializing, WaitingInitialized); (WaitingInitialized, Initialized)].
Proof.
  destruct demo_begins as (b & b' & Hr & He & H1 & H2). exists b, b'. split; [exact Hr|]. split; [exact He|].
  destruct (session_advances demo_config [ELine "i"] b (EScan false) b' Hr He) as [Hf|Hin]; [rewrite H1, H2; discriminate|rewrite H2 in Hf; discriminate Hf|exact Hin].
Defined.

Lemma bridge_does_not_crash_witness : exists b, run demo_config demo_run (newBridge demo_config) = Some b /\ b_crashed b = false.
Proof.
  destruct demo_ends as (b & js & Hr & _). exists b. split; [exact Hr|]. apply (bridge_does_not_crash demo_config demo_run b Hr). clear.
  apply Forall_forall. intros e He. unfold demo_run, demo_turn in He.
  repeat (apply elem_of_cons in He as [->|He] || (cbn in He; apply elem_of_cons in He as [->|He])); try (by apply not_elem_of_nil in He); cbn; try tauto;
    (intros (m & Hp & _ & Hm & _); vm_compute in Hp; injection Hp as <-; vm_compute in Hm; discriminate Hm).
Defined.
