(* ===== verification/Gateway.v ===== *)
(** * Tool calls ([internal/gateway/gateway.go])

    From the parameters of a call to its reply: the tool is looked up, its arguments are
    decoded and validated, the policy is asked for every path, and the call is carried
    out by the file executor, with an approval and an audit record around every write, or
    handed to an external tool. *)
From S2P Require Import Prelude GoStrings Utf8 GoPath Base64 TextTypes Token Replay Policy FileEdit FileJob FileRead FileWorker Image Redact Approval ApprovalView ExecProfile ExecCapability NetPolicy Tools AuditLog Calls External.
#[local] Open Scope Z_scope.

(** [protocol.DecodeStrict] of the parameters of a call: the name of the tool and the text
    of its arguments. *)
Class CallJson := { decode_call : gostring -> option (gostring * gostring) }.

Section gateway.
Context {S W F X : Type} `{Store S} `{ChallengeStore S} `{Writer W} `{ContextExecutor F} `{ExternalExecutors X}.
Context `{TextTables} `{UnicodeTables} `{JsonText} `{Crypto} `{EventJson} `{Json Approval.Claims} `{Environment}.
Context `{Ed25519} `{ProfileJson} `{InputJson} `{Json CapabilityClaims}.
Context `{Netip} `{NetURL} `{Inputs} `{CallJson} `{ValuesJson} `{TimeText} `{ViewJson} `{HashesJson} `{ReplyText} `{StdImages}.
Variable (sv : Server) (ex : Externals).
Abbreviation handler := (handler S W F X).

(** ** Writes *)

Definition approval_lifetime : Z := 5 * minute.

Definition server_token : bool := bool_decide (sv_ApprovalMode sv = ApprovalModeServerToken).
Definition client_managed : bool := bool_decide (sv_ApprovalMode sv = ApprovalModeClientManaged).

(** A review of what a dry run found; a failure ends the call with an error. *)
Definition review (claims : Approval.Claims) (risk : gostring) (files : list WireResult) (e : Event)
  : handler (View * gostring) :=
  match buildApprovalReview claims risk files with
  | Ok r => mret r
  | Err err => refuse "error" e (ReviewRefused err)
  end.

Definition review_claims (approvalID challengeID sessionID operation : gostring) (targets : list Approval.Target)
    (reviewSHA256 : gostring) (expiresAt : gotime) : Approval.Claims :=
  Approval.mkClaims approvalID challengeID [] sessionID operation targets [] [] [] reviewSHA256 expiresAt.

(** The dry run of a write: the review is shown and, when the server approves, the
    challenge is registered. [tokens] identifies the worker in the audit event. *)
Definition dry_run (m : Manager) (meta : Meta) (operation risk : gostring) (targets : list Approval.Target)
    (files : list WireResult) (failed e : Event) : handler (View * gostring * Approval.Claims) :=
  approvalID ← newID "approval-";
  t ← now;
  let claims := review_claims approvalID [] (m_SessionID meta) operation targets [] (t + approval_lifetime) in
  '(view, reviewSHA256) ← review claims risk files failed;
  let claims := review_claims approvalID [] (m_SessionID meta) operation targets reviewSHA256 (t + approval_lifetime) in
  _ ← (if server_token then
         r ← register_challenge m claims;
         match r with
         | Ok _ => mret tt
         | Err _ => refuse "error" e (Text "approval challenge storage unavailable")
         end
       else mret tt);
  mret (view, reviewSHA256, claims).

Definition dry_run_fields (operation : gostring) (targets : list Approval.Target) (view : View) (reviewSHA256 : gostring)
    (claims : Approval.Claims) : list (gostring * public_value) :=
  [("dry_run" : gostring, PBool true); ("approval_targets" : gostring, PTargets targets); ("approval_review" : gostring, PReview view);
   ("review_sha256" : gostring, PText reviewSHA256); ("approval_required" : gostring, PBool server_token);
   ("approval_mode" : gostring, PText (sv_ApprovalMode sv)); ("approval_id" : gostring, PText (Approval.ApprovalID claims));
   ("challenge_id" : gostring, PText (Approval.ApprovalID claims)); ("approval_expires_at" : gostring, PTime (Approval.ExpiresAt claims));
   ("session_id" : gostring, PText (Approval.SessionID claims)); ("operation" : gostring, PText operation)].

(** The commit of a write that the server approves: the token is inspected, the event is
    written to the log, the token is spent, the request is run, and the outcome is written.
    [workerID] is that of the dry run. *)
Definition commit_approved (m : Manager) (meta : Meta) (token workerID : gostring) (scope : Approval.Scope) (request : Request)
    (e : Event) (result_of : Response -> Event -> Event) : handler Response :=
  inspected ← inspect_token m token scope;
  match inspected with
  | Err err => refuse "denied" (set_str WorkerID workerID e) (ApprovalRequired err)
  | Ok inspected =>
      let e := set_approval (Approval.ApprovalID inspected) (Approval.Approver inspected) e in
      tx ← prewrite e;
      match tx with
      | Err _ => stop (ToolError (Text "audit unavailable; write denied") (event_policy e))
      | Ok tx =>
          approved ← verify_token m token scope;
          match approved with
          | Err err =>
              r ← complete tx "denied" (set_str WorkerID workerID);
              match r with
              | Err _ => stop (ToolError (Text "audit unavailable; approval denial cannot be confirmed") (event_policy e))
              | Ok _ => stop (ToolError (ApprovalRequired err) (event_policy e))
              end
          | Ok approved =>
              '(response, executeErr) ← execute meta request;
              r ← complete tx (outcome_status executeErr)
                    (fun done => set_approval (Approval.ApprovalID approved) (Approval.Approver approved) (result_of response done));
              match executeErr, r with
              | Some err, _ => stop (ToolError (Text (safeToolError err)) (event_policy e))
              | None, Err _ => stop (ToolError (Text "audit unavailable; write result cannot be confirmed") (event_policy e))
              | None, Ok _ => mret response
              end
          end
      end
  end.

(** The commit of a write that the client approves. *)
Definition commit_managed (meta : Meta) (request : Request) (e : Event) (result_of : Response -> Event -> Event) : handler Response :=
  tx ← prewrite e;
  match tx with
  | Err _ => stop (ToolError (Text "audit unavailable; write denied") (event_policy e))
  | Ok tx =>
      '(response, executeErr) ← execute meta request;
      r ← complete tx (outcome_status executeErr)
            (fun done => set_str ApprovalSource "mcp_client_policy" (set_ApprovalVerified false (result_of response done)));
      match executeErr, r with
      | Some err, _ => stop (ToolError (Text (safeToolError err)) (event_policy e))
      | None, Err _ => stop (ToolError (Text "audit unavailable; write result cannot be confirmed") (event_policy e))
      | None, Ok _ => mret response
      end
  end.

(** The event and the scope of a commit, from the token and the dry run. *)
Definition approval_scope (meta : Meta) (operation : gostring) (targets : list Approval.Target) (reviewSHA256 : gostring) : Approval.Scope :=
  Approval.mkScope (m_SessionID meta) operation targets [] [] [] reviewSHA256.

(** The review of a commit: that of the claims the token carries, over the dry run made
    now. *)
Definition commit_review (meta : Meta) (token operation risk : gostring) (targets : list Approval.Target) (files : list WireResult)
    (workerID : gostring) (e : Event) : handler gostring :=
  let e := set_str WorkerID workerID e in
  match untrustedApprovalClaims token with
  | None => refuse "denied" e (Text "valid trusted approval is required")
  | Some c =>
      '(_, reviewSHA256) ← review (review_claims (Approval.ApprovalID c) (Approval.ChallengeID c) (m_SessionID meta) operation
                                     targets [] (Approval.ExpiresAt c)) risk files e;
      mret reviewSHA256
  end.

Definition edit_outcome (r : Response) (done : Event) : Event :=
  set_OutputBytes (responseBytes r) (set_worker (rs_TokenID r) (rs_WorkerID r) done).
Definition write_outcome (r : Response) (done : Event) : Event :=
  set_str AfterHash (rs_Checksum r) (set_worker (rs_TokenID r) (rs_WorkerID r) done).

(** [callLegacyWrite], with [applyClientManagedWrite]. *)
Definition callLegacyWrite (m : Manager) (meta : Meta) (risk : gostring) (a : toolArguments) (e : Event) : handler reply :=
  let after := digestBytes (ta_Content a) in
  id ← newID "cap-";
  '(current, checksumErr) ← execute meta (checksum_request id (ta_Path a));
  before ← match checksumErr with
           | None => mret (rs_Checksum current)
           | Some err => if decide (err_cause err = NotFoundCause) then mret [] else refuse "error" e (Text (safeToolError err))
           end;
  let target := Approval.mkTarget (ta_Path a) before after in
  let preview := writeReviewFile a target in
  if negb (ta_Apply a) then
    '(view, reviewSHA256, claims) ← dry_run m meta "write_file" risk [target] [preview] e e;
    _ ← record_status "success" (attachReviewDigest reviewSHA256
          (set_hashes before after (set_worker (rs_TokenID current) (rs_WorkerID current) e)));
    mret (ToolSuccess (dry_run_fields "write_file" [target] view reviewSHA256 claims ++
      [("path" : gostring, PText (ta_Path a)); ("before_sha256" : gostring, PText before); ("after_sha256" : gostring, PText after);
       ("content_sha256" : gostring, PText after); ("bytes" : gostring, PInt (len (ta_Content a)))]))
  else if negb (bool_decide (before = [])) && bool_decide (ta_ExpectedHash a = [])
  then refuse "denied" e (Text "expected_hash is required when replacing an existing file")
  else if negb (bool_decide (ta_ExpectedHash a = before))
  then refuse "denied" e (Text "expected_hash does not match preflight")
  else
    let event reviewed tokenID := set_InputBytes (len (ta_Content a)) (set_hashes before after (set_str TokenID tokenID reviewed)) in
    let request tokenID := write_request tokenID (ta_Path a) (ta_Content a) before (MaxWriteBytes (sv_policy sv)) in
    if client_managed then
      tokenID ← newID "cap-";
      response ← commit_managed meta (request tokenID) (event e tokenID) write_outcome;
      mret (ToolSuccess ([("written" : gostring, PBool true); ("sha256" : gostring, PText (rs_Checksum response));
        ("approval_mode" : gostring, PText ApprovalModeClientManaged)] ++ identity response))
    else
      reviewSHA256 ← commit_review meta (ta_ApprovalToken a) "write_file" risk [target] [preview] (rs_WorkerID current) e;
      let e := attachReviewDigest reviewSHA256 e in
      tokenID ← newID "cap-";
      response ← commit_approved m meta (ta_ApprovalToken a) (rs_WorkerID current)
        (approval_scope meta "write_file" [target] reviewSHA256) (request tokenID) (event e tokenID) write_outcome;
      mret (ToolSuccess ([("written" : gostring, PBool true); ("sha256" : gostring, PText (rs_Checksum response))] ++ identity response)).

(** [callWrite], with [applyClientManagedEdit], for [edit] and [multi_edit]. *)
Definition callEdit (m : Manager) (meta : Meta) (spec : toolSpec) (a : toolArguments) (e : Event) : handler reply :=
  let name := ts_Name spec in
  id ← newID "cap-";
  '(preview, err) ← execute meta (with_apply (workerRequest (sv_policy sv) name a id) false []);
  let seen := set_worker (rs_TokenID preview) (rs_WorkerID preview) e in
  _ ← match err with
      | None => mret tt
      | Some err => refuse (statusForError err) seen (Text (safeToolError err))
      end;
  let targets := approvalTargets (rs_Files preview) in
  if len targets =? 0 then refuse "error" e (Text "edit preflight returned no targets")
  else if negb (ta_Apply a) then
    '(view, reviewSHA256, claims) ← dry_run m meta name (ts_Risk spec) targets (rs_Files preview) seen e;
    let '(before, after) := aggregateApprovalHashes targets in
    _ ← record_status "success" (attachReviewDigest reviewSHA256 (set_hashes before after seen));
    mret (ToolSuccess (dry_run_fields name targets view reviewSHA256 claims ++
      ("files" : gostring, PFiles (rs_Files preview)) :: identity preview))
  else
    let '(before, after) := aggregateApprovalHashes targets in
    let event reviewed tokenID :=
      set_InputBytes (totalAfterBytes (rs_Files preview)) (set_hashes before after (set_str TokenID tokenID reviewed)) in
    let request tokenID := with_apply (workerRequest (sv_policy sv) name a tokenID) true (workerTargets targets) in
    if client_managed then
      tokenID ← newID "cap-";
      response ← commit_managed meta (request tokenID) (event e tokenID) edit_outcome;
      mret (ToolSuccess (publicResult name response))
    else
      reviewSHA256 ← commit_review meta (ta_ApprovalToken a) name (ts_Risk spec) targets (rs_Files preview) (rs_WorkerID preview) e;
      let e := attachReviewDigest reviewSHA256 e in
      tokenID ← newID "cap-";
      response ← commit_approved m meta (ta_ApprovalToken a) (rs_WorkerID preview)
        (approval_scope meta name targets reviewSHA256) (request tokenID) (event e tokenID) edit_outcome;
      mret (ToolSuccess (publicResult name response)).

(** A server that approves writes has a manager; without one every write is refused. The
    manager is not consulted when the client approves. *)
Definition callWrite (meta : Meta) (spec : toolSpec) (a : toolArguments) (e : Event) : handler reply :=
  match sv_approvals sv, server_token with
  | None, true => refuse "error" e (Text "trusted approval service is not configured")
  | m, _ =>
      let m := default (mkManager [] false) m in
      if decide (ts_Name spec = "write_file") then callLegacyWrite m meta (ts_Risk spec) a e else callEdit m meta spec a e
  end.

(** ** Calls *)

(** The parameters of a call, up to the validated arguments. *)
Definition parse_call (meta : Meta) (params : gostring) : result reply (toolSpec * toolArguments * gostring) :=
  reject bool_decide (m_SessionID meta = []) with Failure (-32602) "MCP session is required for tool calls";
  match decode_call params with
  | None => Err (Failure (-32602) "invalid tool parameters")
  | Some (name, raw) =>
      reject bool_decide (name = []) || (64 <? len name) with Failure (-32602) "invalid tool parameters";
      match find_tool (toolsByName (sv_executors sv)) name with
      | None => Err (Failure (-32602) "unknown tool")
      | Some spec =>
          reject externalApprovalBlocked (sv_ApprovalMode sv) spec
            with ToolError (Text "external high-risk tools require client_managed until server approval flow is implemented")
                   "deny-external-server-approval-unimplemented";
          match Decode (ts_Decode spec) raw with
          | None => Err (Failure (-32602) "invalid tool arguments")
          | Some a =>
              match validateAndNormalize (MaxWriteBytes (sv_policy sv)) spec a with
              | Err e => Err (ArgumentFailure e)
              | Ok a => Ok (spec, a, raw)
              end
          end
      end
  end.

(** The decision for the first path that is denied, or for the last one. *)
Fixpoint decide_paths (operation : gostring) (paths : list gostring) (d : Policy.Decision) : Policy.Decision :=
  match paths with
  | [] => d
  | path :: rest =>
      let d := Evaluate (sv_policy sv) operation path in
      if negb (Allowed d) then d else decide_paths operation rest d
  end.

Definition decision_of (spec : toolSpec) (a : toolArguments) : Policy.Decision :=
  let operation := policyOperation (ts_Name spec) in
  decide_paths operation (argumentPaths a) (Evaluate (sv_policy sv) operation "policy-probe.txt").

Definition decided_meta (meta : Meta) (spec : toolSpec) (d : Policy.Decision) : Meta :=
  mkMeta (m_RequestID meta) (m_BridgeID meta) (m_SessionID meta) (m_ClientRequestID meta) (m_AuthPrincipal meta) (m_RemoteIP meta)
    (Policy.PolicyID d) (mapDecision d) (serverApprovalRequired (sv_ApprovalMode sv) spec).

Definition call_strings (meta : Meta) (spec : toolSpec) (a : toolArguments) (d : Policy.Decision) (f : str_field) : gostring :=
  match f with
  | UserID => sv_UserID sv | ClientID => sv_ClientID sv | AuditLog.SessionID => m_SessionID meta
  | AuthPrincipal => m_AuthPrincipal meta | Transport => sv_Transport sv | BridgeInstanceID => m_BridgeID meta
  | RemoteIP => m_RemoteIP meta | RequestID => m_RequestID meta | ClientRequestID => m_ClientRequestID meta
  | Tool => ts_Name spec | WorkspaceID => sv_WorkspaceID sv | AuditLog.Path => auditPath (argumentPaths a)
  | AuditLog.PolicyID => Policy.PolicyID d | PolicyVersion => sv_PolicyVersion sv | PolicyDecision => mapDecision d
  | ApprovalMode => sv_ApprovalMode sv | ApprovalSource => approvalSource (sv_ApprovalMode sv)
  | SecurityDegradationReason => sv_SecurityDegradationReason sv
  | _ => []
  end.

Definition call_event (meta : Meta) (spec : toolSpec) (a : toolArguments) (d : Policy.Decision) (summary : ParameterSummary)
    (startedAt : gotime) : Event :=
  mkEvent zero_time (call_strings meta spec a d) (Some summary) (Allowed d) (serverApprovalRequired (sv_ApprovalMode sv) spec)
    false false startedAt zero_time 0 0 0 (sv_SecurityDegraded sv) (match sv_SecurityDegradationFields sv with [] => None | l => Some l end).

(** A file tool that only reads. *)
Definition callRead (meta : Meta) (spec : toolSpec) (a : toolArguments) (e : Event) : handler reply :=
  id ← newID "cap-";
  '(response, err) ← execute meta (workerRequest (sv_policy sv) (ts_Name spec) a id);
  let e := set_worker (rs_TokenID response) (rs_WorkerID response) e in
  match err with
  | Some err => refuse (statusForError err) e (Text (safeToolError err))
  | None =>
      if bool_decide (ts_Name spec = "read_image") && negb (validateImageResponse response)
      then refuse "error" e (Text "image worker returned an invalid response")
      else
        _ ← record_status "success" (set_OutputBytes (responseBytes response) e);
        mret (if decide (ts_Name spec = "read_image") then imageToolSuccess response
              else ToolSuccess (publicResult (ts_Name spec) response))
  end.

Definition call_handler (meta : Meta) (params : gostring) : handler reply :=
  match parse_call meta params with
  | Err r => stop r
  | Ok (spec, a, raw) =>
      let d := decision_of spec a in
      let meta := decided_meta meta spec d in
      match summarizeToolParameters (ts_Name spec) raw with
      | None => stop (ToolError (Text "parameter audit summary failed") (Policy.PolicyID d))
      | Some summary =>
          t ← now;
          let e := call_event meta spec a d summary t in
          if negb (Allowed d) then refuse "denied" e (PolicyReason (Policy.PolicyID d))
          else if negb (bool_decide (ts_Worker spec = "file")) then callExternal sv ex meta spec a e
          else if ts_Approval spec then callWrite meta spec a e
          else callRead meta spec a e
      end
  end.

Definition call (meta : Meta) (params : gostring) (w : world S W F X) : reply * world S W F X := reply_of (call_handler meta params) w.

(** The tools a client is shown. *)
Definition tools : list toolSpec :=
  filter (fun spec => externalApprovalBlocked (sv_ApprovalMode sv) spec = false /\
                      Allowed (Evaluate (sv_policy sv) (policyOperation (ts_Name spec)) "policy-probe.txt") = true)
    (toolsByName (sv_executors sv)).
End gateway.
