(* ===== verification/Approve.v ===== *)
(** * The approval tool ([cmd/approve/main.go])

    A person runs [approve] with the review that the gateway returned from a dry run; the tool
    compares the review with the operation it was asked to approve, shows it, and signs a token
    for it. The flags are parsed; the environment, the clock and the review file are inputs. *)
From S2P Require Import Prelude GoStrings Strconv Base64 Utf8 GoPath Token FileEdit FileJob Replay Calls Gateway Approval ApprovalView Redact StrictJson ReviewParse.
#[local] Open Scope Z_scope.

(** The values of the flags, and the names of those that were given ([fs.Visit]). *)
Record options := mkOptions {
  o_id : gostring; o_approver : gostring; o_session : gostring; o_operation : gostring; o_path : gostring;
  o_contentHash : gostring; o_expectedHash : gostring; o_targetsJSON : gostring; o_reviewJSON : gostring;
  o_reviewFile : gostring; o_legacyWithoutReview : bool; o_ttl : Z; o_confirm : bool;
  o_set : gset gostring; o_positional : nat
}.

Inductive approve_error :=
  | PositionalGiven | NotConfirmed | NoApprovalID | NoSession | NoApprover | TargetsExclusive | ReviewsExclusive
  | LegacyWithReview | NoReview | TTLWithReview | BadTargets | NoTargetGiven | TargetPathInvalid | LegacyOperation | LegacyTTL
  | ReviewUnreadable | ReviewFileTooLong | ReviewRefused (e : parse_error) | ReviewNotCanonical (e : view_error)
  | ChallengeMismatch | SessionMismatch | OperationMismatch | ApproverDeclared | TargetsMismatch | ReviewExpired
  | KeyTooShort | NotSigned (e : approval_error).

(** The file that [--review-file] names, if it can be read. *)
Class ReviewFiles := { file_text : gostring -> option gostring }.

(** [time.Format] with the layout [time.RFC3339]. *)
Class SecondsText := { format_seconds : gotime -> gostring }.

(** ** What is shown *)

(** [Builder.WriteRune]. *)
Definition write_rune (r : Z) : gostring :=
  if (r <? 0) || ((0xD800 <=? r) && (r <=? 0xDFFF)) || (0x10FFFF <? r) then [byte_of 0xEF; byte_of 0xBF; byte_of 0xBD]
  else if r <? 0x80 then [byte_of r]
  else if r <? 0x800 then [byte_of (0xC0 + Z.shiftr r 6); byte_of (0x80 + Z.land r 0x3F)]
  else if r <? 0x10000 then
    [byte_of (0xE0 + Z.shiftr r 12); byte_of (0x80 + Z.land (Z.shiftr r 6) 0x3F); byte_of (0x80 + Z.land r 0x3F)]
  else [byte_of (0xF0 + Z.shiftr r 18); byte_of (0x80 + Z.land (Z.shiftr r 12) 0x3F);
        byte_of (0x80 + Z.land (Z.shiftr r 6) 0x3F); byte_of (0x80 + Z.land r 0x3F)].

Definition safe_rune (r : Z) : gostring :=
  if (r =? 10) || (r =? 9) then write_rune r
  else if (r <? 32) || (r =? 0x7f) then "\u00" ++ hex_encode [byte_of r]
  else write_rune r.

Definition terminalSafeDiff (diff : gostring) : gostring := concat (safe_rune <$> runes diff).

Definition before_text (h : gostring) : gostring := if decide (h = []) then "(none)" else h.

Definition display_diff (t : ViewTarget) : gostring :=
  if decide (vt_Diff t = []) then "Diff " ++ itoa (vt_Order t) ++ ": (none)" ++ [LF]
  else
    let rendered := terminalSafeDiff (vt_Diff t) in
    "Diff " ++ itoa (vt_Order t) ++ ":" ++ [LF] ++ rendered ++ (if has_suffix rendered [LF] then [] else [LF]).

Definition display_target (t : ViewTarget) : gostring :=
  "Target " ++ itoa (vt_Order t) ++ ": path=" ++ vt_Path t ++ " before_sha256=" ++ before_text (vt_BeforeSHA256 t) ++
  " after_sha256=" ++ vt_AfterSHA256 t ++ " encoding=" ++ vt_Encoding t ++ " newline=" ++ vt_Newline t ++
  " bytes=" ++ itoa (vt_Bytes t) ++ [LF] ++ display_diff t.

Definition displayReview (view : View) (reviewSHA256 : gostring) : gostring :=
  "Review: risk=" ++ v_Risk view ++ " operation=" ++ v_Operation view ++ " targets=" ++ itoa (len (v_Targets view)) ++ [LF] ++
  "Review digest: review_sha256=" ++ reviewSHA256 ++ [LF] ++ concat (display_target <$> v_Targets view).

Definition display_line (i : nat) (t : Approval.Target) : gostring :=
  "Target " ++ itoa (Z.of_nat i + 1) ++ ": path=" ++ t_Path t ++ " before_sha256=" ++ before_text (t_BeforeSHA256 t) ++
  " after_sha256=" ++ t_AfterSHA256 t ++ [LF].
Definition displayTargets (targets : list Approval.Target) : gostring := concat (imap display_line targets).

Definition ESC : ascii := byte_of 27.
Definition legacy_warning : gostring :=
  [ESC] ++ "[1;31mWARNING: issuing legacy write approval without a cryptographically bound review" ++ [ESC] ++ "[0m" ++ [LF].

(** ** The run *)

Section approve.
Context `{UnicodeTables} `{Crypto} `{TimeText} `{Tokenizer} `{RawJson} `{TypedDecoder View} `{ViewJson}.
Context `{TypedDecoder (list Approval.Target)} `{Json Approval.Claims} `{ReviewFiles} `{SecondsText}.

Definition given (o : options) (name : gostring) : bool := bool_decide (name ∈ o_set o).

Definition check_options (o : options) : result approve_error unit :=
  reject negb (bool_decide (o_positional o = O)) with PositionalGiven;
  reject negb (o_confirm o) with NotConfirmed;
  reject bool_decide (o_id o = []) with NoApprovalID;
  reject bool_decide (o_session o = []) with NoSession;
  reject bool_decide (trim_space (o_approver o) = []) with NoApprover;
  let legacyTargetSet := given o "path" || given o "content-sha256" || given o "expected-hash" in
  reject given o "targets-json" && legacyTargetSet with TargetsExclusive;
  reject given o "review-json" && given o "review-file" with ReviewsExclusive;
  reject o_legacyWithoutReview o && (given o "review-json" || given o "review-file") with LegacyWithReview;
  reject negb (o_legacyWithoutReview o) && negb (given o "review-json") && negb (given o "review-file") with NoReview;
  reject negb (o_legacyWithoutReview o) && given o "ttl" with TTLWithReview;
  Ok tt.

Definition parseTargets (raw : gostring) : result approve_error (list Approval.Target) :=
  match typed_decode raw with
  | None | Some (_, false) => Err BadTargets
  | Some (targets, true) => reject bool_decide (targets = []) with NoTargetGiven; Ok targets
  end.

Fixpoint normal_paths (targets : list Approval.Target) : result approve_error (list Approval.Target) :=
  match targets with
  | [] => Ok []
  | t :: targets =>
      match Token.NormalizePath (t_Path t) with
      | Err _ => Err TargetPathInvalid
      | Ok p => rest ← normal_paths targets; Ok (Approval.mkTarget p (t_BeforeSHA256 t) (t_AfterSHA256 t) :: rest)
      end
  end.

Definition command_targets (o : options) : result approve_error (list Approval.Target) :=
  targets ← (if given o "targets-json" then parseTargets (o_targetsJSON o)
             else Ok [Approval.mkTarget (o_path o) (o_expectedHash o) (o_contentHash o)]);
  normal_paths targets.

Definition readReview (inline path : gostring) : result approve_error gostring :=
  if decide (path = []) then Ok inline
  else
    match file_text path with
    | None => Err ReviewUnreadable
    | Some text =>
        let data := take (Z.to_nat (maxReviewBytes + 1)) text in
        reject maxReviewBytes <? len data with ReviewFileTooLong; Ok data
    end.

Fixpoint match_targets (i : nat) (shown : list ViewTarget) (targets : list Approval.Target) : result approve_error unit :=
  match shown, targets with
  | v :: shown, t :: targets =>
      reject negb (vt_Order v =? Z.of_nat i + 1) || negb (bool_decide (vt_Path v = t_Path t)) ||
             negb (bool_decide (vt_BeforeSHA256 v = t_BeforeSHA256 t)) ||
             negb (bool_decide (vt_AfterSHA256 v = t_AfterSHA256 t)) with TargetsMismatch;
      match_targets (S i) shown targets
  | _, _ => Ok tt
  end.

Definition matchReview (view : View) (approvalID session operation : gostring) (targets : list Approval.Target)
  : result approve_error unit :=
  reject negb (bool_decide (v_Challenge view = approvalID)) with ChallengeMismatch;
  reject negb (bool_decide (v_Session view = session)) with SessionMismatch;
  reject negb (bool_decide (v_Operation view = operation)) with OperationMismatch;
  reject negb (bool_decide (v_Approver view = [])) with ApproverDeclared;
  reject negb (len (v_Targets view) =? len targets) with TargetsMismatch;
  match_targets 0 (v_Targets view) targets.

Definition from_view {A} (r : result view_error A) : result approve_error A :=
  match r with Ok a => Ok a | Err e => Err (ReviewNotCanonical e) end.

(** The claims of a reviewed operation, and what was shown. *)
Definition reviewed_claims (o : options) (targets : list Approval.Target) (now : gotime) : result approve_error (Claims * gostring) :=
  rawReview ← readReview (o_reviewJSON o) (o_reviewFile o);
  review ← (match StrictParseView rawReview with Ok v => Ok v | Err e => Err (ReviewRefused e) end);
  _ ← from_view (CanonicalJSON review);
  reviewSHA256 ← from_view (ReviewDigest review);
  _ ← matchReview review (o_id o) (o_session o) (o_operation o) targets;
  match parse_time (v_Expiry review) with
  | None => Err ReviewExpired
  | Some expiresAt =>
      reject negb (before now expiresAt) with ReviewExpired;
      Ok (mkClaims (o_id o) (v_Challenge review) (o_approver o) (o_session o) (o_operation o) targets [] [] []
            reviewSHA256 expiresAt, displayReview review reviewSHA256)
  end.

(** The claims of a write without a review. *)
Definition legacy_claims (o : options) (targets : list Approval.Target) (now : gotime) : result approve_error (Claims * gostring) :=
  reject negb (bool_decide (o_operation o = "write_file")) || negb (len targets =? 1) || given o "targets-json" with LegacyOperation;
  reject (o_ttl o <=? 0) || (5 * minute <? o_ttl o) with LegacyTTL;
  Ok (mkClaims (o_id o) [] (o_approver o) (o_session o) (o_operation o) targets [] [] [] [] (now + o_ttl o), legacy_warning).

Definition claims_to_sign (o : options) (now : gotime) : result approve_error (Claims * gostring) :=
  _ ← check_options o;
  targets ← command_targets o;
  if o_legacyWithoutReview o then legacy_claims o targets now else reviewed_claims o targets now.

Definition sign_claims (key : gostring) (claims : Claims) (now : gotime) : result approve_error gostring :=
  reject len key <? 32 with KeyTooShort;
  match NewWithStore key with
  | Err e => Err (NotSigned e)
  | Ok manager => match Sign manager claims now with Ok token => Ok token | Err e => Err (NotSigned e) end
  end.

Definition approved_line (c : Claims) : gostring :=
  "Approved once: approver=" ++ Approver c ++ " operation=" ++ Operation c ++ " session=" ++ SessionID c ++
  " targets=" ++ itoa (len (Targets c)) ++ " expires=" ++ format_seconds (ExpiresAt c) ++ [LF].

(** [run]: what it writes to its output or its error, and what it shows. [now] is the time of
    its own check, [signed] that of the manager's. *)
Definition run (o : options) (key : gostring) (now signed : gotime) : result approve_error gostring * gostring :=
  match claims_to_sign o now with
  | Err e => (Err e, [])
  | Ok (claims, shown) =>
      match sign_claims key claims signed with
      | Err e => (Err e, shown)
      | Ok token =>
          (Ok (token ++ [LF]),
           shown ++ approved_line claims ++ (if o_legacyWithoutReview o then displayTargets (Targets claims) else []))
      end
  end.

End approve.

(** ** The terminal *)

(** The bytes that a difference may show: no control byte but a tab and a line feed. *)
Definition shown_byte (c : ascii) : Prop := code c = 9 \/ code c = 10 \/ 32 <= code c /\ code c <> 127.

#[local] Instance shown_byte_dec c : Decision (shown_byte c).
Proof. unfold shown_byte. apply _. Defined.

Lemma high_byte n : 128 <= n < 256 -> shown_byte (byte_of n).
Proof. intros Hn. right; right. rewrite code_byte_of by lia. lia. Qed.

Lemma continuation n : shown_byte (byte_of (0x80 + Z.land n 0x3F)).
Proof. apply high_byte. change 0x3F with (Z.ones 6). rewrite Z.land_ones by lia. pose proof (Z.mod_pos_bound n (2 ^ 6)). lia. Qed.

Lemma leading r base k : 0 <= r < 2 ^ (k + 5) -> 0 <= k -> 0xC0 <= base <= 0xE0 -> shown_byte (byte_of (base + Z.shiftr r k)).
Proof.
  intros Hr Hk Hb. apply high_byte. rewrite Z.shiftr_div_pow2 by done.
  assert (0 <= r / 2 ^ k < 2 ^ 5); [|lia]. split; [apply Z.div_pos; lia|].
  apply Z.div_lt_upper_bound; [lia|]. rewrite <- Z.pow_add_r by lia. lia.
Qed.

(** One goal for each byte. *)
Ltac each_byte := repeat first [apply Forall_nil_2 | apply Forall_cons_2].

Lemma write_rune_shown r : r = 10 \/ r = 9 \/ 32 <= r /\ r <> 127 -> Forall shown_byte (write_rune r).
Proof.
  intros Hr. unfold write_rune.
  destruct ((r <? 0) || _ || _) eqn:E; [each_byte; apply high_byte; lia|]. bool_props.
  destruct (r <? 0x80) eqn:E1; bool_props; [each_byte; unfold shown_byte; rewrite code_byte_of by lia; lia|].
  destruct (r <? 0x800) eqn:E2; bool_props; [each_byte; auto using continuation; apply leading; lia|].
  destruct (r <? 0x10000) eqn:E3; bool_props; each_byte; (auto using continuation); (apply high_byte; rewrite Z.shiftr_div_pow2 by done).
  - pose proof (Z.div_mod r (2 ^ 12)). pose proof (Z.mod_pos_bound r (2 ^ 12)). lia.
  - pose proof (Z.div_mod r (2 ^ 18)). pose proof (Z.mod_pos_bound r (2 ^ 18)). lia.
Qed.

Lemma hex_char_shown n : 0 <= n < 16 -> shown_byte (hex_char n).
Proof.
  intros Hn. assert (n ∈ seqZ 0 16) as Hin by (apply elem_of_seqZ; lia). clear Hn. revert n Hin. apply Forall_forall.
  apply (bool_decide_unpack _). vm_compute. exact I.
Qed.

Lemma safe_rune_shown r : Forall shown_byte (safe_rune r).
Proof.
  unfold safe_rune. destruct ((r =? 10) || (r =? 9)) eqn:E1; [apply write_rune_shown; lia|].
  destruct ((r <? 32) || (r =? 0x7f)) eqn:E2; [|apply write_rune_shown; lia].
  apply Forall_app. split; [apply (bool_decide_unpack _); vm_compute; exact I|].
  pose proof (code_range (byte_of r)). cbn. each_byte; apply hex_char_shown.
  - split; [apply Z.div_pos; lia|apply Z.div_lt_upper_bound; lia].
  - apply Z.mod_pos_bound. lia.
Qed.

(** Whatever a difference contains, its rendering has no control byte. *)
Theorem terminalSafeDiff_shown diff : Forall shown_byte (terminalSafeDiff diff).
Proof. apply Forall_concat, Forall_fmap, Forall_true. intros r. apply safe_rune_shown. Qed.

(** The control characters from U+0080 to U+009F are not escaped: U+009B, which a terminal may
    take for the start of an escape sequence, is written as it is. *)
Lemma c1_controls_shown :
  let csi := [byte_of 0xC2; byte_of 0x9B] in
  runes csi = [0x9B] /\ is_control 0x9B = true /\ terminalSafeDiff (csi ++ "2J") = csi ++ "2J".
Proof. vm_compute. auto. Qed.

(** ** What is signed *)

Section signed.
Context `{UnicodeTables} `{Crypto} `{TimeText} `{Tokenizer} `{RawJson} `{TypedDecoder View} `{ViewJson}.
Context `{TypedDecoder (list Approval.Target)} `{Json Approval.Claims} `{ReviewFiles} `{SecondsText}.

Definition normal_target (t : Approval.Target) : Prop := Token.NormalizePath (t_Path t) = Ok (t_Path t).

Lemma normal_paths_Ok ts ts' : normal_paths ts = Ok ts' -> Forall normal_target ts' /\ length ts' = length ts.
Proof.
  revert ts'. induction ts as [|t ts IH]; intros ts'; cbn [normal_paths]; [by intros [= <-]|].
  destruct (Token.NormalizePath (t_Path t)) as [p|] eqn:Ep; [|done]. intros (rest & [Hr Hl]%IH & [= <-])%bind_Ok. cbn. split; [|lia].
  constructor; [|done]. unfold normal_target. cbn. by eapply NormalizePath_clean.
Qed.

Lemma normal_paths_id ts : Forall normal_target ts -> normal_paths ts = Ok ts.
Proof.
  induction 1 as [|t ts Ht _ IH]; cbn [normal_paths]; [done|]. unfold normal_target in Ht. rewrite Ht, IH. by destruct t.
Qed.

Lemma command_targets_Ok o ts : command_targets o = Ok ts -> ts <> [] /\ Forall normal_target ts.
Proof.
  unfold command_targets. intros (raw & Hr & [Hn Hl]%normal_paths_Ok)%bind_Ok. split; [|done]. intros ->.
  destruct raw; [|done]. destruct (given o _); [|done]. revert Hr. unfold parseTargets.
  destruct (typed_decode _) as [[targets []]|]; try done. intros [Hz%bool_decide_eq_false [= ->]]%guard_Ok. done.
Qed.

Lemma normalize_targets_normal ts seen ts' :
  normalize_targets ts seen = Ok ts' -> Forall normal_target ts -> ts' = ts.
Proof.
  revert seen ts'. induction ts as [|t ts IH]; intros seen ts'; cbn [normalize_targets]; [by intros [= <-]|].
  destruct (Token.NormalizePath (t_Path t)) as [p|] eqn:Ep; [|done]. rewrite !guard_Ok.
  intros (_ & _ & (rest & Hr & [= <-])%bind_Ok) [Ht Hts]%Forall_cons. apply IH in Hr as ->; [|done].
  unfold normal_target in Ht. rewrite Ep in Ht. injection Ht as ->. by destruct t.
Qed.

(** The normal form of claims whose targets are normal differs from them in the fields that
    mirror a single target. *)
Lemma normalizeClaims_mirror c r n :
  normalizeClaims c r = Ok n -> Targets c <> [] -> Forall normal_target (Targets c) ->
  n = mirror c (ApprovalID c) (Targets c) /\ (ChallengeID c = [] \/ ChallengeID c = ApprovalID c).
Proof.
  unfold normalizeClaims. rewrite !guard_Ok.
  intros (_ & _ & _ & Hid%negb_false_iff%bool_decide_eq_true & _ & _ & _ & (ts & Hts & [= <-])%bind_Ok) Hne Hn.
  rewrite decide_False in Hts by done. apply normalize_targets_normal in Hts as ->; [|done].
  rewrite Hid. split; [done|]. case_decide; auto.
Qed.

(** Claims are normalised in the same way whatever the mirrored fields hold. *)
Lemma normalizeClaims_mirrored c r :
  Targets c <> [] -> normalizeClaims (mirror c (ChallengeID c) (Targets c)) r = normalizeClaims c r.
Proof.
  intros Hne. unfold normalizeClaims, mirror.
  assert (Hb : forall a b, bool_decide (Targets c = []) && (a || b) = false)
    by (intros; rewrite bool_decide_eq_false_2 by done; done).
  destruct (Targets c) as [|t [|]] eqn:Et; [done|..]; cbn; rewrite ?Et; repeat case_decide; try done.
Qed.

(** The targets of a view, as claims name them. *)
Definition claimed (v : ViewTarget) : Approval.Target := Approval.mkTarget (vt_Path v) (vt_BeforeSHA256 v) (vt_AfterSHA256 v).

Lemma match_targets_Ok i shown ts :
  length shown = length ts -> match_targets i shown ts = Ok tt -> ts = claimed <$> shown.
Proof.
  revert i ts. induction shown as [|v shown IH]; intros i [|t ts]; cbn [match_targets length]; intros Hl; try done.
  rewrite guard_Ok, !orb_false_iff, !negb_false_iff, !bool_decide_eq_true. intros ((([_ Hp] & Hb) & Ha) & Hm).
  rewrite fmap_cons, <- (IH (S i) ts) by (done || lia). unfold claimed. rewrite Hp, Hb, Ha. by destruct t.
Qed.

Lemma matchReview_Ok view id session operation ts :
  matchReview view id session operation ts = Ok tt ->
  v_Challenge view = id /\ v_Session view = session /\ v_Operation view = operation /\ v_Approver view = [] /\
  ts = claimed <$> v_Targets view.
Proof.
  unfold matchReview. rewrite !guard_Ok, !negb_false_iff, !bool_decide_eq_true, Z.eqb_eq. unfold len.
  intros (Hc & Hs & Ho & Ha & Hl & Hm%match_targets_Ok); [done|lia].
Qed.

Lemma sign_claims_Ok key c now token :
  sign_claims key c now = Ok token ->
  exists n payload, normalizeClaims c true = Ok n /\ now < ExpiresAt n <= now + maxApprovalLifetime /\
    marshal n = Some payload /\ token = approval_token key payload.
Proof.
  unfold sign_claims. rewrite guard_Ok. intros (Hk & Hs). unfold NewWithStore in Hs. rewrite Hk in Hs. cbn [guard_err] in Hs.
  destruct (Sign _ _ _) as [token'|] eqn:Es; [|done]. injection Hs as ->. unfold Sign in Es.
  apply bind_Ok in Es as (n & Hn & Es). apply guard_Ok in Es as [He Es]. unfold after in He.
  destruct (marshal n) as [payload|] eqn:Em; [|done]. injection Es as <-. exists n, payload. split; [done|]. split; [|done]. lia.
Qed.

Lemma from_view_Ok {A} (r : result view_error A) a : from_view r = Ok a -> r = Ok a.
Proof. by destruct r; [intros [= ->]|]. Qed.

(** C12. The token that the tool prints, when it was not asked to do without a review, is for the
    review that it showed: the text was a valid review; what is signed are the digest of this
    review, its challenge, session, operation, expiry, and exactly its targets with the digests
    that were shown; the review had not expired and named no approver, and the approver is the
    one of the command. *)
Theorem token_signs_review o key now signed out shown :
  run o key now signed = (Ok out, shown) -> o_legacyWithoutReview o = false ->
  exists raw view reviewSHA256 n payload rest,
    readReview (o_reviewJSON o) (o_reviewFile o) = Ok raw /\ StrictParseView raw = Ok view /\
    ReviewDigest view = Ok reviewSHA256 /\ shown = displayReview view reviewSHA256 ++ rest /\
    normal_claims n /\ validApprover (o_approver o) = true /\ v_Approver view = [] /\ v_Challenge view = o_id o /\
    v_Session view = o_session o /\ v_Operation view = o_operation o /\
    n = mirror (mkClaims (o_id o) (o_id o) (o_approver o) (o_session o) (o_operation o) (claimed <$> v_Targets view) [] [] []
                  reviewSHA256 (ExpiresAt n)) (o_id o) (claimed <$> v_Targets view) /\
    parse_time (v_Expiry view) = Some (ExpiresAt n) /\ now < ExpiresAt n /\ signed < ExpiresAt n <= signed + maxApprovalLifetime /\
    marshal n = Some payload /\ out = approval_token key payload ++ [LF].
Proof.
  unfold run. destruct (claims_to_sign o now) as [[claims s]|] eqn:Ec; [|done].
  destruct (sign_claims key claims signed) as [token|] eqn:Es; [|done]. intros [= <- <-] Hleg.
  unfold claims_to_sign in Ec. rewrite Hleg in Ec. apply bind_Ok in Ec as (_ & _ & Ec).
  apply bind_Ok in Ec as (ts & [Hne Hts]%command_targets_Ok & Ec). unfold reviewed_claims in Ec.
  apply bind_Ok in Ec as (raw & Hraw & Ec). apply bind_Ok in Ec as (view & Hview & Ec).
  destruct (StrictParseView raw) as [view'|] eqn:Ev; [|done]. injection Hview as ->.
  apply bind_Ok in Ec as (_ & _ & Ec). apply bind_Ok in Ec as (sha & Hsha%from_view_Ok & Ec).
  apply bind_Ok in Ec as ([] & (Hid & Hse & Hop & Ha & Ht)%matchReview_Ok & Ec).
  destruct (parse_time (v_Expiry view)) as [e|] eqn:Ep; [|done]. apply guard_Ok in Ec as [He%negb_false_iff%Z.ltb_lt [= <- <-]].
  apply sign_claims_Ok in Es as (n & payload & Hn & Hlife & Hm & ->).
  pose proof (normalizeClaims_Ok _ _ _ Hn) as [Hnormal Happ]. pose proof (normalizeClaims_mirror _ _ _ Hn Hne Hts) as [En _].
  cbn [ApprovalID Targets] in En. specialize (Happ eq_refl).
  assert (Approver n = o_approver o /\ ExpiresAt n = e) as [Ea Ee] by (rewrite En; unfold mirror; cbn; repeat case_match; done).
  rewrite Ea in Happ. rewrite Ht in En. exists raw, view, sha, n, payload. eexists. repeat (split; [done|]).
  split; [rewrite Ee, En, Hid; unfold mirror; cbn; by repeat case_match|]. rewrite Ee in *. done.
Qed.

(** ** From the dry run of the gateway to the token it accepts *)

(** Claims in normal form stay so when only the identifier, the approver and the expiry
    change. *)
Lemma normal_variant c c' ts :
  normal_claims (mirror c (ApprovalID c) ts) -> SessionID c' = SessionID c -> Operation c' = Operation c ->
  ReviewSHA256 c' = ReviewSHA256 c -> ApprovalID c' <> [] -> ExpiresAt c' <> zero_time ->
  Approver c' = [] \/ validApprover (Approver c') = true -> normal_claims (mirror c' (ApprovalID c') ts).
Proof.
  intros [_ (Hs & Ho & _) _ Hr Hn Hg Hd _] Es Eo Er Hid He Ha.
  destruct ts as [|t [|t' ts]]; unfold mirror in *; cbn in *; rewrite <- ?Es, <- ?Eo, <- ?Er in *; constructor; cbn; done.
Qed.

Lemma normal_normalized c r :
  Targets c <> [] -> ChallengeID c = ApprovalID c -> normal_claims (mirror c (ApprovalID c) (Targets c)) ->
  (r = true -> validApprover (Approver c) = true) -> normalizeClaims c r = Ok (mirror c (ApprovalID c) (Targets c)).
Proof.
  intros Hne Hid Hn Ha. rewrite <- normalizeClaims_mirrored, Hid by done. apply normalizeClaims_id; [done|].
  unfold mirror. destruct (Targets c) as [|t [|]]; cbn; done.
Qed.

Definition text (s : gostring) : Prop := utf8_valid s = true.
Definition text_target (t : Approval.Target) : Prop := text (t_Path t) /\ text (t_BeforeSHA256 t) /\ text (t_AfterSHA256 t).

Lemma mirror_text c id ts :
  text (ApprovalID c) -> text id -> text (Approver c) -> text (SessionID c) -> text (Operation c) -> text (ReviewSHA256 c) ->
  Forall text_target ts -> claims_text (mirror c id ts).
Proof.
  intros. unfold claims_text. assert (Hnil : text []) by done.
  assert (Ht : Forall (fun s => utf8_valid s = true) ((t_Path <$> ts) ++ (t_BeforeSHA256 <$> ts) ++ (t_AfterSHA256 <$> ts))).
  { rewrite !Forall_app, !Forall_fmap. split_and!; (eapply Forall_impl; [eassumption|]); intros t (? & ? & ?); done. }
  destruct ts as [|t [|t' ts]]; unfold mirror; cbn [ApprovalID ChallengeID Approver SessionID Operation Path ContentSHA256
    ExpectedHash ReviewSHA256 Targets]; rewrite Forall_app; (split; [|exact Ht]); repeat constructor; try done;
  match goal with Hx : Forall text_target _ |- _ => apply Forall_cons in Hx as [(? & ? & ?) _]; done end.
Qed.

(** What the review of a dry run has of its claims. *)
Lemma checked_targets_text ts seen :
  check_targets ts seen = Ok tt -> Forall normal_target ts /\ Forall text_target ts.
Proof.
  revert seen. induction ts as [|t ts IH]; intros seen; cbn [check_targets]; [by split|].
  rewrite !guard_Ok, !negb_false_iff. intros (Hp & _ & Hh & [Hn Ht]%IH).
  unfold isNormalizedPath in Hp. unfold hashes_ok in Hh. apply andb_true_iff in Hp as [Hu Hp], Hh as [Ha Hb].
  split; (constructor; [|done]); [by apply is_normalized_spec|]. split; [done|]. split; [by apply optional_hash_text|by apply hash_text].
Qed.

Lemma claimed_view_targets i ts fs : length ts = length fs -> claimed <$> view_targets i ts fs = ts.
Proof.
  revert i fs. induction ts as [|t ts IH]; intros i [|f fs]; cbn [view_targets length]; intros Hl; try done.
  rewrite fmap_cons, IH by lia. unfold claimed, view_target. cbn. by destruct t.
Qed.

Lemma match_view_targets i ts fs : length ts = length fs -> match_targets i (view_targets i ts fs) ts = Ok tt.
Proof.
  revert i fs. induction ts as [|t ts IH]; intros i [|f fs]; cbn [view_targets match_targets length]; intros Hl; try done.
  cbn [view_target vt_Order vt_Path vt_BeforeSHA256 vt_AfterSHA256].
  rewrite Z.eqb_refl, !bool_decide_eq_true_2 by done. cbn [negb orb guard_err]. apply IH. lia.
Qed.

(** The dry run's view: what it says, and that it is valid. *)
Lemma reviewed id session operation targets risk files view sha expires :
  buildApprovalReview (review_claims id [] session operation targets [] expires) risk files = Ok (view, sha) ->
  parse_time (format_time expires) = Some expires ->
  ReviewDigest view = Ok sha /\ validateView view = Ok tt /\ targets <> [] /\ Forall normal_target targets /\
  Forall text_target targets /\ v_Challenge view = id /\ v_Session view = session /\ v_Operation view = operation /\
  v_Approver view = [] /\ v_Expiry view = format_time expires /\ len (v_Targets view) = len targets /\
  match_targets 0 (v_Targets view) targets = Ok tt /\ text id /\ text session /\ text operation.
Proof.
  unfold buildApprovalReview. intros (v & Hn & (d & Hd & [= -> ->])%bind_Ok)%bind_Ok Hp.
  pose proof (New_view _ _ _ Hn Hp) as [Hval _].
  apply New_Ok in Hn as (Hh & ts & fs & Hts & _ & Hs & _ & _ & ->).
  apply targetsFromClaims_Ok in Hts as (Hc & Hl & Hchk). apply Forall2_length in Hs.
  assert (ts = targets) as ->.
  { unfold claimed_targets in Hc. cbn in Hc. destruct targets; [done|]. cbn in Hc. by injection Hc. }
  apply checked_targets_text in Hchk as [Hnt Htt].
  unfold header_ok, challenge_of in Hh. rewrite !andb_true_iff in Hh. destruct Hh as ((((_ & Ho) & Hse) & _) & Hch).
  cbn in Ho, Hse, Hch. apply display_text in Ho, Hse, Hch. cbn [v_Challenge v_Session v_Operation v_Approver v_Expiry v_Targets].
  repeat (split; [done|]). split; [intros ->; by destruct Hl|]. repeat (split; [done|]).
  split; [unfold len; by rewrite view_targets_length|]. split; [by apply match_view_targets|]. done.
Qed.

(** The command for a review that was returned by the gateway. *)
Definition approve_command (id approver session operation targetsJSON reviewJSON : gostring) : options :=
  mkOptions id approver session operation [] [] [] targetsJSON reviewJSON [] false (2 * minute) true
    (list_to_set (["approval-id"; "approver"; "session"; "operation"; "targets-json"; "review-json"; "approve"] : list gostring)) 0.

Lemma approve_command_checked id approver session operation targetsJSON reviewJSON :
  id <> [] -> session <> [] -> validApprover approver = true ->
  check_options (approve_command id approver session operation targetsJSON reviewJSON) = Ok tt.
Proof.
  intros Hid Hse Ha. unfold check_options. cbn [approve_command o_positional o_confirm o_id o_session o_approver o_legacyWithoutReview].
  rewrite !(bool_decide_eq_false_2 (_ = [])); [by vm_compute| |done..].
  unfold validApprover in Ha. apply andb_true_iff in Ha as [Ha _]. intros E. by rewrite E, bool_decide_eq_true_2, orb_true_r in Ha.
Qed.

(** The claims that the command has signed. *)
Definition approved_claims (id approver session operation : gostring) (targets : list Approval.Target) (sha : gostring) (expires : gotime) : Claims :=
  mirror (mkClaims id id approver session operation targets [] [] [] sha expires) id targets.

Context `{!ReviewJsonLaws} `{!TimeTextLaws}.
#[local] Set Default Proof Using "Type*".

Lemma approve_command_signs id approver session operation targets risk files view sha expires review targetsJSON key now signed payload :
  buildApprovalReview (review_claims id [] session operation targets [] expires) risk files = Ok (view, sha) ->
  parse_time (format_time expires) = Some expires ->
  marshal_view view = Some review -> 0 < len review <= maxReviewBytes -> typed_decode targetsJSON = Some (targets, true) ->
  32 <= len key -> id <> [] -> session <> [] -> validApprover approver = true ->
  now < expires -> signed < expires <= signed + maxApprovalLifetime ->
  normalizeClaims (mkClaims id id approver session operation targets [] [] [] sha expires) true =
    Ok (approved_claims id approver session operation targets sha expires) ->
  marshal (approved_claims id approver session operation targets sha expires) = Some payload ->
  (run (approve_command id approver session operation targetsJSON review) key now signed).1 = Ok (approval_token key payload ++ [LF]).
Proof.
  intros Hb Hp Hm Hl Hj Hk Hid Hse Ha Hnow Hsig Hn Hpay.
  pose proof (reviewed _ _ _ _ _ _ _ _ _ Hb Hp) as (Hdig & Hval & Hne & Hnt & _ & Hc & Hs & Ho & Hap & Hx & Hlen & Hmatch & _).
  assert (HC : CanonicalJSON view = Ok review) by (unfold CanonicalJSON; rewrite Hval; cbn; by rewrite Hm).
  unfold run, claims_to_sign. rewrite approve_command_checked by done. cbn [mbind result_bind].
  assert (command_targets (approve_command id approver session operation targetsJSON review) = Ok targets) as ->.
  { unfold command_targets. change (given _ "targets-json") with true. cbn [approve_command o_targetsJSON]. unfold parseTargets.
    rewrite Hj, bool_decide_eq_false_2 by done. cbn. by apply normal_paths_id. }
  cbn [mbind result_bind approve_command o_legacyWithoutReview]. unfold reviewed_claims.
  cbn [o_reviewJSON o_reviewFile o_id o_session o_operation o_approver]. unfold readReview. rewrite decide_True by done.
  cbn [mbind result_bind]. rewrite (StrictParseView_CanonicalJSON view review HC Hl). cbn [mbind result_bind]. rewrite HC, Hdig. cbn [from_view mbind result_bind].
  unfold matchReview. rewrite !bool_decide_eq_true_2, Hlen, Z.eqb_refl, Hmatch by done. cbn [negb guard_err mbind result_bind].
  rewrite Hx, Hp. unfold before. rewrite (proj2 (Z.ltb_lt _ _)) by done. cbn [negb guard_err]. rewrite Hc.
  unfold sign_claims, NewWithStore. rewrite (proj2 (Z.ltb_ge _ _)) by done. cbn [guard_err]. unfold Sign.
  cbn [approve_command o_id o_approver o_session o_operation]. rewrite Hn. cbn [mbind result_bind].
  assert (ExpiresAt (approved_claims id approver session operation targets sha expires) = expires) as ->
    by (unfold approved_claims, mirror; cbn; by repeat case_match).
  unfold after. rewrite !(proj2 (Z.ltb_lt _ _)), (proj2 (Z.ltb_ge _ _)) by lia. cbn [negb orb guard_err]. rewrite Hpay. done.
Qed.

Context {S : Type} `{SH : SharedLaws S} `{JL : !JsonLaws Approval.Claims claims_text}.

(** What mirroring a single target leaves as it is. *)
Lemma mirror_fields c id ts :
  ApprovalID (mirror c id ts) = ApprovalID c /\ ChallengeID (mirror c id ts) = id /\ SessionID (mirror c id ts) = SessionID c /\
  Operation (mirror c id ts) = Operation c /\ Targets (mirror c id ts) = ts /\ ReviewSHA256 (mirror c id ts) = ReviewSHA256 c /\
  ExpiresAt (mirror c id ts) = ExpiresAt c /\ Approver (mirror c id ts) = Approver c.
Proof. unfold mirror. destruct ts as [|t [|]]; cbn; done. Qed.

Lemma approved_fields id approver session operation targets sha expires :
  let c := approved_claims id approver session operation targets sha expires in
  ApprovalID c = id /\ ChallengeID c = id /\ SessionID c = session /\ Operation c = operation /\ Targets c = targets /\
  ReviewSHA256 c = sha /\ ExpiresAt c = expires /\ Approver c = approver.
Proof. apply mirror_fields. Qed.

(** The challenge of a review is the identifier, whether it is named or not. *)
Lemma challenge_named id session operation targets expires risk files :
  id <> [] ->
  buildApprovalReview (review_claims id id session operation targets [] expires) risk files =
  buildApprovalReview (review_claims id [] session operation targets [] expires) risk files.
Proof.
  intros Hid. unfold buildApprovalReview, New.
  assert (challenge_of (review_claims id id session operation targets [] expires) = id) as ->
    by (unfold challenge_of; cbn; by rewrite decide_False). done.
Qed.

Lemma untrusted_token key payload :
  len (approval_token key payload) <= Z.shiftl 32 10 -> untrustedApprovalClaims (approval_token key payload) = decode_strict payload.
Proof.
  intros Hl. unfold untrustedApprovalClaims. rewrite split_approval, decodeCanonicalBase64_encode, (proj2 (Z.ltb_ge _ _)) by done.
  rewrite (proj2 (Z.eqb_neq _ _)); [done|]. unfold approval_token. rewrite !len_app. unfold len. cbn. lia.
Qed.

(** The scope of a commit has the targets of the claims. *)
Lemma scope_normal id expires meta operation targets sha :
  targets <> [] -> normal_claims (mirror (review_claims id [] (m_SessionID meta) operation targets sha expires) id targets) ->
  normalizeScope (approval_scope meta operation targets sha) = Ok targets.
Proof.
  intros Hne Hn. unfold normalizeScope. cbn [approval_scope s_SessionID s_Operation s_Targets s_Path s_ContentSHA256 s_ExpectedHash s_ReviewSHA256].
  set (c := mkClaims "scope" _ _ _ _ _ _ _ _ _ _).
  assert (normalizeClaims c false = Ok (mirror c (ApprovalID c) (Targets c))) as ->.
  { apply normal_normalized; [done..| |done]. eapply normal_variant; [exact Hn|done..|]. by left. }
  cbn [fmap result_fmap]. by rewrite (proj1 (proj2 (proj2 (proj2 (proj2 (mirror_fields _ _ _)))))).
Qed.

(** C11. The gateway and the tool understand each other: after a dry run whose review was returned
    and whose challenge was registered, the command with this review prints a token; from it
    the gateway rebuilds, over the same dry run, the same review, and while the approval is
    fresh and was not used before it verifies the token for the session, the operation, the
    targets and the review of the dry run, in the name of the approver. *)
Theorem reviewed_change_approved m (s s1 s2 : S) meta id approver operation targets risk files view sha expires review
    targetsJSON payload t0 now signed t2 :
  buildApprovalReview (review_claims id [] (m_SessionID meta) operation targets [] expires) risk files = Ok (view, sha) ->
  RegisterChallenge m s (review_claims id [] (m_SessionID meta) operation targets sha expires) t0 = (Ok tt, s1) ->
  parse_time (format_time expires) = Some expires -> in_int expires = true ->
  marshal_view view = Some review -> 0 < len review <= maxReviewBytes -> typed_decode targetsJSON = Some (targets, true) ->
  32 <= len (m_key m) -> validApprover approver = true -> utf8_valid approver = true ->
  now < expires -> signed < expires <= signed + maxApprovalLifetime -> signed <= t2 < expires ->
  let c := approved_claims id approver (m_SessionID meta) operation targets sha expires in
  let token := approval_token (m_key m) payload in
  marshal c = Some payload -> len token <= Z.shiftl 32 10 ->
  Replay.consume (take_challenge s1 "approval" id t2).2 "approval-used" id expires t2 = (Ok tt, s2) ->
  (run (approve_command id approver (m_SessionID meta) operation targetsJSON review) (m_key m) now signed).1 = Ok (token ++ [LF]) /\
  untrustedApprovalClaims token = Some c /\
  buildApprovalReview (review_claims (ApprovalID c) (ChallengeID c) (m_SessionID meta) operation targets [] (ExpiresAt c)) risk files =
    Ok (view, sha) /\
  Approval.Verify m s1 token (approval_scope meta operation targets sha) t2 = (Ok c, s2) /\ Approver c = approver.
Proof.
  intros Hb Hreg Hp Hint Hm Hl Hj Hk Ha Hau Hnow Hsig Ht c token Hpay Hsize Hu.
  pose proof (reviewed _ _ _ _ _ _ _ _ _ Hb Hp) as (_ & _ & Hne & Hnt & Htt & _ & _ & _ & _ & _ & _ & _ & Hti & Hts & Hto).
  assert (exists n0, normalizeClaims (review_claims id [] (m_SessionID meta) operation targets sha expires) false = Ok n0) as [n0 Hn0].
  { unfold RegisterChallenge in Hreg. destruct (negb _); [done|]. destruct (normalizeClaims _ false) as [n0|]; [by exists n0|done]. }
  pose proof (normalizeClaims_Ok _ _ _ Hn0) as [Hnormal _].
  pose proof (normalizeClaims_mirror _ _ _ Hn0 Hne Hnt) as [En0 _]. cbn [ApprovalID Targets review_claims] in En0.
  pose proof (approved_fields id approver (m_SessionID meta) operation targets sha expires) as (F1 & F2 & F3 & F4 & F5 & F6 & F7 & F8).
  fold c in F1, F2, F3, F4, F5, F6, F7, F8. pose proof (nc_ids _ Hnormal) as [Hid _]. pose proof (nc_fields _ Hnormal) as (Hse & _ & Hex).
  pose proof (mirror_fields (review_claims id [] (m_SessionID meta) operation targets sha expires) id targets) as (G1 & G2 & G3 & G4 & G5 & G6 & G7 & G8).
  rewrite <- En0 in G1, G2, G3, G4, G5, G6, G7, G8. cbn in G1, G2, G3, G4, G5, G6, G7, G8.
  rewrite G1 in Hid. rewrite G3 in Hse. rewrite G7 in Hex. rewrite En0 in Hnormal.
  assert (Hn : normalizeClaims (mkClaims id id approver (m_SessionID meta) operation targets [] [] [] sha expires) true = Ok c).
  { apply (normal_normalized (mkClaims id id approver (m_SessionID meta) operation targets [] [] [] sha expires)); [done..| |done].
    eapply normal_variant; [exact Hnormal|done..|]. by right. }
  assert (Hsha : text sha).
  { destruct (nc_review _ Hnormal) as [[E _]|E]; rewrite <- En0, G6 in E; [by rewrite E|by apply hash_text]. }
  split; [by apply (approve_command_signs _ _ _ _ targets risk files view sha expires)|].
  assert (Htc : claims_text c) by (by apply mirror_text).
  assert (Hdec : decode_strict payload = Some c) by (by apply decode_marshal).
  split; [unfold token; by rewrite untrusted_token|]. split; [rewrite F1, F2, F7; by rewrite challenge_named|]. split; [|done].
  apply (Register_Sign_Verify m s s1 s2 _ n0 _ c token _ t0 signed t2 Hn0 Hn); try done.
  - rewrite En0. by apply mirror_text.
  - by rewrite G7.
  - unfold Sign. rewrite Hn. cbn [mbind result_bind]. rewrite F7. unfold after.
    rewrite !(proj2 (Z.ltb_lt _ _)), (proj2 (Z.ltb_ge _ _)) by lia. cbn [negb orb guard_err]. by rewrite Hpay.
  - apply sameBinding_spec. by rewrite F2, F3, F4, F5, F6, G2, G3, G4, G5, G6.
  - rewrite F7, G7. lia.
  - by rewrite F7.
  - rewrite F5. by apply (scope_normal id expires).
  - by rewrite F2, F7.
Qed.
End signed.

(** ** Witnesses *)

(** Two claims, written as digits. *)
Section pair.
Variables a b : Claims.

Definition pair_json : Json Claims := {|
  marshal c := if decide (c = a) then Some ("1" : gostring) else if decide (c = b) then Some ("2" : gostring) else None;
  decode_strict s := if decide (s = ("1" : gostring)) then Some a else if decide (s = ("2" : gostring)) then Some b else None
|}.

Lemma pair_json_laws textual : @JsonLaws Claims textual pair_json.
Proof. split. intros c s _. cbn. repeat case_decide; intros [= <-]; subst; done. Qed.
End pair.

Definition one_targets (targets : list Approval.Target) : TypedDecoder (list Approval.Target) :=
  {| typed_decode s := if decide (s = ("[]" : gostring)) then Some (targets, true) else None |}.
Definition no_files : ReviewFiles := {| file_text _ := None |}.
Definition decimal_seconds : SecondsText := {| format_seconds t := itoa (t / second) |}.

Definition wire (path before after diff : gostring) : WireResult :=
  mkWireResult path [] 1 0 0 0 false before after diff None 0.
Definition sample_targets : list Approval.Target :=
  [Approval.mkTarget "b" [] sample_hash; Approval.mkTarget "a" sample_hash sample_hash].
Definition sample_files : list WireResult := [wire "a" sample_hash sample_hash ("-x" ++ [byte_of 27]); wire "b" [] sample_hash "+y"].
Definition sample_expires : gotime := 200 * second.
Definition sample_meta : Meta := mkMeta "r1" "b1" "s1" "q1" "p1" [] "allow" "ask" true.

Definition dry_claims (sha : gostring) : Claims := review_claims "a1" [] "s1" "multi_edit" sample_targets sha sample_expires.
Definition shown_view : View :=
  match @New ascii_tables decimal_time (dry_claims []) (mkDryRun "L2" (dry_run_file <$> sample_files)) with
  | Ok v => v | Err _ => mkView [] [] [] [] [] [] [] false [] end.
Definition shown_sha : gostring := @digestBytes toy_crypto one_text.

Definition registered_claims : Claims := mirror (dry_claims shown_sha) "a1" sample_targets.
Definition signed_claims : Claims := approved_claims "a1" "alice" "s1" "multi_edit" sample_targets shown_sha sample_expires.
Definition claims_json : Json Claims := pair_json registered_claims signed_claims.

Definition challenge_registered := @RegisterChallenge ascii_tables claims_json Memory _ sample_manager NewMemory (dry_claims shown_sha) 0.
Definition sample_review := @buildApprovalReview ascii_tables toy_crypto decimal_time (one_view_json shown_view).
Definition sample_command : options := approve_command "a1" "alice" "s1" "multi_edit" "[]" one_text.
Definition sample_run := @run ascii_tables toy_crypto decimal_time (one_tokenizer shown_view) (one_raw shown_view)
  (one_decoder shown_view) (one_view_json shown_view) (one_targets sample_targets) claims_json no_files decimal_seconds
  sample_command (m_key sample_manager) (5 * second) (6 * second).
Definition approve_token : gostring := @approval_token toy_crypto (m_key sample_manager) "2".
Definition approve_verified := @Approval.Verify ascii_tables toy_crypto claims_json Memory _ _ sample_manager challenge_registered.2
  approve_token (approval_scope sample_meta "multi_edit" sample_targets shown_sha) (10 * second).

Lemma reviewed_change_approved_witness :
  sample_run.1 = Ok (approve_token ++ [LF]) /\ approve_verified = (Ok signed_claims, approve_verified.2).
Proof.
  pose proof (pair_json_laws registered_claims signed_claims claims_text : @JsonLaws Claims claims_text claims_json) as JL.
  pose proof (@reviewed_change_approved ascii_tables toy_crypto decimal_time (one_tokenizer shown_view) (one_raw shown_view)
    (one_decoder shown_view) (one_view_json shown_view) (one_targets sample_targets) claims_json no_files decimal_seconds
    (one_view_laws shown_view) decimal_time_laws Memory Memory_Store Memory_StoreLaws Memory_ChallengeStore Memory_ChallengeLaws
    Memory_SharedLaws JL sample_manager NewMemory challenge_registered.2 approve_verified.2 sample_meta "a1" "alice" "multi_edit"
    sample_targets "L2" sample_files shown_view shown_sha sample_expires one_text "[]" "2" 0 (5 * second) (6 * second) (10 * second)) as T.
  cbv zeta in T.
  destruct T as (P1 & _ & _ & P2 & _);
    [first [apply (bool_decide_unpack _); vm_compute; exact I | vm_compute; reflexivity]..|exact (conj P1 P2)].
Defined.

Lemma token_signs_review_witness :
  exists view sha rest, @ReviewDigest ascii_tables toy_crypto decimal_time (one_view_json shown_view) view = Ok sha /\
    sample_run.2 = displayReview view sha ++ rest.
Proof.
  pose proof (@token_signs_review ascii_tables toy_crypto decimal_time (one_tokenizer shown_view) (one_raw shown_view)
    (one_decoder shown_view) (one_view_json shown_view) (one_targets sample_targets) claims_json no_files decimal_seconds
    sample_command (m_key sample_manager) (5 * second) (6 * second) (approve_token ++ [LF]) sample_run.2) as T.
  destruct T as (raw & view & sha & n & payload & rest & _ & _ & Hd & Hs & _); [vm_compute; reflexivity|reflexivity|].
  exists view, sha, rest. exact (conj Hd Hs).
Defined.
