(* ===== verification/Endpoint.v ===== *)
(** * The HTTP endpoint of a gateway ([ServeHTTP] of [internal/gateway/gateway.go])

    From a request to its response: admission, the checks of the request, authentication,
    the signature, the session, the limits, and the method that is called. Handlers of other
    requests may run at the same time: Lifecycle.v has their interleaving, and the theorem
    [ServeHTTP_lifecycle] says that a handler here is one of the threads there. *)
From S2P Require Import Prelude GoStrings Utf8 Base64 TextTypes Token Replay TransportAuth Policy FileEdit FileJob FileRead FileWorker Image Redact Approval ApprovalView Sessions Lifecycle ExecProfile ExecCapability ExecServer NetPolicy Tools AuditLog Calls External Gateway RateLimit Http.
#[local] Open Scope Z_scope.

(** ** Messages *)

Record RpcRequest := mkRpc { rp_JSONRPC : gostring; rp_ID : gostring; rp_Method : gostring; rp_Params : gostring }.
Definition IsNotification (r : RpcRequest) : bool := bool_decide (rp_ID r = []).

(** [ip_Capabilities] says whether the map is there. *)
Record InitializeParams := mkInitialize {
  ip_ProtocolVersion : gostring; ip_Capabilities : bool; ip_ClientName : gostring; ip_ClientVersion : gostring
}.

(** [DecodeStrict] of the parameters of a cancellation: the text of [requestId]. *)
Class CancelJson := { decode_cancel : gostring -> option gostring }.

Inductive rpc_outcome :=
  | RFailure (code : Z) (m : gostring)
  | RInitialized
  | REmpty
  | RTools (l : list toolSpec)
  | RReply (r : reply).

Inductive http_body := NoBody | PlainText | ErrorMessage (m : gostring) | RPC (id : gostring) (outcome : rpc_outcome).
Record http_response := mkHTTPResponse { hs_Status : Z; hs_Headers : list (gostring * gostring); hs_Body : http_body }.

(** The headers are those that the code sets, but for the content type. A handler that does
    not return writes nothing. *)
Definition no_response : http_response := mkHTTPResponse 0 [] NoBody.
Definition security_headers : list (gostring * gostring) :=
  [("X-Content-Type-Options" : gostring, "nosniff" : gostring); ("Cache-Control" : gostring, "no-store" : gostring)].
(** [http.NotFound], which sets the first of them by itself. *)
Definition not_found (headers : list (gostring * gostring)) : http_response := mkHTTPResponse 404 headers PlainText.
Definition writeHTTPError (status : Z) (extra : list (gostring * gostring)) (m : gostring) : http_response :=
  mkHTTPResponse status (security_headers ++ extra) (ErrorMessage m).
Definition writeRPC (status : Z) (extra : list (gostring * gostring)) (id : gostring) (o : rpc_outcome) : http_response :=
  mkHTTPResponse status (security_headers ++ extra) (RPC id o).
Definition writeHeader (status : Z) (extra : list (gostring * gostring)) : http_response :=
  mkHTTPResponse status (security_headers ++ extra) NoBody.

Definition errSessionNotFound : gostring := "MCP session not found or expired".
Definition errSessionProtocolVersion : gostring := "unsupported MCP protocol version".

(** ** The state *)

(** What the handlers of one server read, and the random bytes of its sessions. *)
Record Endpoint := mkEndpoint {
  ep_server : Calls.Server; ep_externals : Externals; ep_auth : authentication; ep_signature : option Verifier;
  ep_AllowedOrigins : list gostring; ep_MaxBodyBytes : Z; ep_RequireRequestSignature : bool; ep_AllowLegacySignedSession : bool;
  ep_MaxConcurrency : Z; ep_ControlMaxConcurrency : Z; ep_session_bytes : nat -> option gostring
}.

(** [gw_running] and [gw_control] are the slots that other handlers hold. *)
Record gateway (S W F X : Type) := mkGateway {
  gw_life : Lifecycle.Server; gw_rate : rateLimiter; gw_running : Z; gw_control : Z; gw_world : world S W F X
}.
Arguments mkGateway {S W F X} _ _ _ _ _.
Arguments gw_life {S W F X} _.
Arguments gw_rate {S W F X} _.
Arguments gw_running {S W F X} _.
Arguments gw_control {S W F X} _.
Arguments gw_world {S W F X} _.

(** A handler may write its response early. *)
Definition http (S W F X A : Type) : Type := gateway S W F X -> result http_response A * gateway S W F X.
#[export] Instance http_ret S W F X : MRet (http S W F X) := fun _ a g => (Ok a, g).
#[export] Instance http_bind S W F X : MBind (http S W F X) := fun _ _ k m g =>
  match m g with (Ok a, g') => k a g' | (Err r, g') => (Err r, g') end.
Definition respond {S W F X A} (r : http_response) : http S W F X A := fun g => (Err r, g).

Definition on_life {S W F X A} (k : Lifecycle.Server -> A * Lifecycle.Server) : http S W F X A := fun g =>
  let '(a, s) := k (gw_life g) in (Ok a, mkGateway s (gw_rate g) (gw_running g) (gw_control g) (gw_world g)).
Definition with_life {S W F X} (s : Lifecycle.Server) (g : gateway S W F X) : gateway S W F X :=
  mkGateway s (gw_rate g) (gw_running g) (gw_control g) (gw_world g).

(** A step of a call; those used here do not reply. *)
Definition in_call {S W F X A} (m : handler S W F X A) : http S W F X A := fun g =>
  let '(r, w) := m (gw_world g) in
  (match r with Ok a => Ok a | Err _ => Err no_response end, mkGateway (gw_life g) (gw_rate g) (gw_running g) (gw_control g) w).

Definition on_rate {S W F X A} (k : rateLimiter -> A * rateLimiter) : http S W F X A := fun g =>
  let '(a, l) := k (gw_rate g) in (Ok a, mkGateway (gw_life g) l (gw_running g) (gw_control g) (gw_world g)).
Definition get_field {S W F X A} (k : gateway S W F X -> A) : http S W F X A := fun g => (Ok (k g), g).

Section endpoint.
Context {S W F X : Type} `{Store S} `{ChallengeStore S} `{Writer W} `{ContextExecutor F} `{ExternalExecutors X}.
Context `{TextTables} `{UnicodeTables} `{JsonText} `{Crypto} `{EventJson} `{Json Approval.Claims} `{Environment}.
Context `{Ed25519} `{ProfileJson} `{InputJson} `{Json CapabilityClaims}.
Context `{Netip} `{NetURL} `{Inputs} `{CallJson} `{ValuesJson} `{TimeText} `{ViewJson} `{HashesJson} `{ReplyText} `{StdImages}.
Context `{HttpText} `{AnyJson} `{Json RpcRequest} `{Json InitializeParams} `{CancelJson}.
Variable (ep : Endpoint).
Abbreviation http := (http S W F X).
Abbreviation gateway := (gateway S W F X).

(** ** Revocation of exec sessions *)

(** The loop over the profiles takes one of them. *)
Definition any_profile : option TaskProfile := snd <$> head (map_to_list (ex_execProfiles (ep_externals ep))).

Definition revoke_job (profile : TaskProfile) (principal sessionID capabilityID taskID token : gostring) : ExecJob :=
  mkExecJob token capabilityID principal sessionID (sv_WorkspaceID (ep_server ep)) taskID (Name profile) OperationSessionRevoke
    (ProfLimits profile) [] [] [] [] None.

(** [revokeExecSession]: whether it succeeded. *)
Definition revokeExecSession (principal sessionID : gostring) : http bool :=
  match any_profile with
  | None => mret true
  | Some profile =>
      if bool_decide (Name profile = []) then mret true
      else
        capabilityID ← in_call (newID "exec-cap-");
        taskID ← in_call (newID "session-revoke-");
        match Profile_Digest profile with
        | Err _ => mret false
        | Ok digest =>
            t ← in_call now;
            match ClaimsForJob (revoke_job profile principal sessionID capabilityID taskID []) digest (t + 30 * second) with
            | Err _ => mret false
            | Ok claims =>
                t' ← in_call now;
                match exec_Sign (ex_execSigner (ep_externals ep)) claims t' with
                | Err _ => mret false
                | Ok token =>
                    '(_, failed) ← in_call (exec_call (revoke_job profile principal sessionID capabilityID taskID token));
                    mret (match failed with None => true | Some _ => false end)
                end
            end
        end
  end.

Definition exec_available : bool := has_exec (sv_executors (ep_server ep)) && negb (bool_decide (ex_execProfiles (ep_externals ep) = ∅)).

Definition revokeExecSessionWithTimeout (principal sessionID : gostring) : http bool :=
  if bool_decide (principal = []) || bool_decide (sessionID = []) || negb exec_available then mret true
  else revokeExecSession principal sessionID.

(** The jobs of evicted sessions run in goroutines, here one after the other; their results
    are ignored. *)
Fixpoint revokeExecSessionsWithTimeout (l : list mcpSession) : http unit :=
  match l with
  | [] => mret tt
  | session :: l =>
      _ ← (if exec_available then revokeExecSession (Principal session) (ID session) else mret true);
      revokeExecSessionsWithTimeout l
  end.

(** [onEvict] of the store, called when there is something to evict. *)
Definition evicted (l : list mcpSession) : http unit :=
  match l with
  | [] => mret tt
  | _ => _ ← revokeExecSessionsWithTimeout l; on_life (fun s => (tt, evictSessions l s))
  end.

(** ** The signature *)

Definition clock_now : http gotime := in_call now.

Definition verifyRequestSignature (q : http_request) (body : gostring) : http (option bool) :=
  let headers := mkHeaders (Get q HeaderTimestamp) (Get q HeaderNonce) (Get q HeaderSignature) in
  let present := negb (bool_decide (Timestamp headers = []) && bool_decide (Nonce headers = []) && bool_decide (Signature headers = [])) in
  if negb present && negb (ep_RequireRequestSignature ep) then mret (Some false)
  else
    match ep_signature ep with
    | None => mret None
    | Some v =>
        t ← clock_now;
        r ← in_call (with_store (fun s => VerifyRequest v s (Some (hq_request q)) body headers t));
        mret (match r with Ok _ => Some true | Err _ => None end)
    end.

(** ** The methods *)

Definition session_failure (extra : list (gostring * gostring)) (id : gostring) (e : session_error) : http_response :=
  match e with
  | ErrSessionProtocolVersion => writeRPC 400 extra id (RFailure (-32600) errSessionProtocolVersion)
  | _ => writeRPC 404 extra id (RFailure (-32001) errSessionNotFound)
  end.

Definition cancelNotification (meta : Meta) (raw : gostring) : http unit :=
  if bool_decide (m_AuthPrincipal meta = []) || bool_decide (m_BridgeID meta = []) || bool_decide (m_SessionID meta = []) then mret tt
  else
    match decode_cancel raw with
    | None => mret tt
    | Some id =>
        if bool_decide (id = []) then mret tt
        else
          on_life (fun s => (tt, Lifecycle.cancelNotification (mkKey (m_AuthPrincipal meta) (m_BridgeID meta) (m_SessionID meta) [])
            (rpcIDString id) s))
    end.

Definition valid_initialize (raw : gostring) : bool :=
  match decode_strict raw with
  | None => false
  | Some p =>
      safeProtocolVersion (ip_ProtocolVersion p) && ip_Capabilities p && negb (bool_decide (trim_space (ip_ClientName p) = [])) &&
      negb (bool_decide (trim_space (ip_ClientVersion p) = []))
  end.

Definition dispatch (meta : Meta) (r : RpcRequest) : http rpc_outcome :=
  if decide (rp_Method r = "initialize") then
    mret (if valid_initialize (rp_Params r) then RInitialized else RFailure (-32602) "invalid initialize parameters")
  else if decide (rp_Method r = "notifications/initialized") then mret REmpty
  else if decide (rp_Method r = "notifications/cancelled") then _ ← cancelNotification meta (rp_Params r); mret REmpty
  else if decide (rp_Method r = "tools/list") then mret (RTools (tools (ep_server ep)))
  else if decide (rp_Method r = "tools/call") then
    reply ← in_call (fun w => let '(r, w) := call (ep_server ep) (ep_externals ep) meta (rp_Params r) w in (Ok r, w));
    mret (RReply reply)
  else mret (RFailure (-32601) "method not found").

Definition invalidActiveIdentity (r : RpcRequest) (meta : Meta) (notification : bool) : gostring :=
  if bool_decide (m_AuthPrincipal meta = []) then "authenticated principal is required for tool calls"
  else if bool_decide (m_BridgeID meta = []) then "transport identity is required for tool calls"
  else if bool_decide (m_SessionID meta = []) then "MCP session is required for tool calls"
  else if bool_decide (m_ClientRequestID meta = []) then "JSON-RPC request id is required for tool calls"
  else
    let expected := rpcIDString (rp_ID r) in
    if negb notification && (bool_decide (expected = []) || negb (bool_decide (m_ClientRequestID meta = expected)))
    then "client request identity must match the JSON-RPC request id" else [].

Definition activeKey (meta : Meta) : activeRequestKey :=
  mkKey (m_AuthPrincipal meta) (m_BridgeID meta) (m_SessionID meta) (m_ClientRequestID meta).

(** ** POST *)

Definition media_type_ok (q : http_request) : bool :=
  match ParseMediaType (Get q "Content-Type") with Some (t, _) => bool_decide (t = "application/json") | None => false end.

(** The session of a request that is no initialization: its identifier, and whether it is a
    signed session of the old transport. *)
Definition post_session (q : http_request) (principal : gostring) (r : RpcRequest) (signatureVerified : bool)
    (extra : list (gostring * gostring)) : http (gostring * bool) :=
  let legacy := ep_AllowLegacySignedSession ep && signatureVerified && bool_decide (Values q HeaderSessionID = []) &&
                negb (bool_decide (Get q headerSessionID = [])) in
  if legacy then
    let sessionID := safeIdentity (Get q headerSessionID) in
    if bool_decide (sessionID = []) then respond (writeRPC 404 extra (rp_ID r) (RFailure (-32001) "legacy signed session is missing"))
    else mret (sessionID, true)
  else
    let sessionID := safeIdentity (Get q HeaderSessionID) in
    if bool_decide (sessionID = []) then respond (writeRPC 404 extra (rp_ID r) (RFailure (-32001) errSessionNotFound))
    else
      match explicitProtocolHeader (Values q HeaderProtocolVersion) with
      | None => respond (writeRPC 400 extra (rp_ID r) (RFailure (-32600) errSessionProtocolVersion))
      | Some version =>
          t ← clock_now;
          '(found, gone) ← on_life (fun s =>
            let '(found, gone, st) := validateAndTouch sessionID principal version t (store s) in ((found, gone), Lifecycle.with_store s st));
          _ ← evicted gone;
          match found with
          | Err e => respond (session_failure extra (rp_ID r) e)
          | Ok _ => mret (sessionID, false)
          end
      end.

Definition post_meta (q : http_request) (principal requestID sessionID : gostring) (legacy : bool) (r : RpcRequest) : Meta :=
  let bridge := if legacy then safeIdentity (Get q headerBridgeID) else directBridgeID in
  let client := if legacy && IsNotification r then safeIdentity (Get q headerClientRequest) else rpcIDString (rp_ID r) in
  mkMeta requestID bridge sessionID client principal (clientIP (hq_RemoteAddr q)) [] [] false.

Definition allow_subject (subject : gostring) : http bool :=
  t ← clock_now; on_rate (allow subject t).

(** [createSession]; the sessions it evicts are closed before it returns. *)
Definition make_session (principal : gostring) (n : nat) : http (result session_error mcpSession * list mcpSession) := fun g =>
  match createSession (ep_session_bytes ep n) principal ProtocolVersion20250326 (clock n) (gw_life g) with
  | None => (Err no_response, g)
  | Some (r, gone, s) => (Ok (r, gone), with_life s g)
  end.
Definition create_session (principal : gostring) : http (result session_error mcpSession) :=
  n ← in_call tick;
  '(made, gone) ← make_session principal n;
  _ ← evicted gone;
  mret made.

(** The method, past the limits; [number] is that of the request. *)
Definition post_method (number : Z) (meta : Meta) (r : RpcRequest) (extra : list (gostring * gostring)) : http http_response :=
  if decide (rp_Method r = "initialize") then
    outcome ← dispatch meta r;
    match outcome with
    | RFailure _ _ => mret (writeRPC 200 extra (rp_ID r) outcome)
    | _ =>
        made ← create_session (m_AuthPrincipal meta);
        mret (match made with
              | Ok session => writeRPC 200 (extra ++ [(HeaderSessionID, ID session)]) (rp_ID r) outcome
              | Err ErrServerRevoked => not_found (security_headers ++ extra)
              | Err _ => writeRPC 500 extra (rp_ID r) (RFailure (-32603) "could not create MCP session")
              end)
    end
  else if decide (rp_Method r = "tools/call" /\ IsNotification r = false) then
    registered ← on_life (registerActive (activeKey meta) number);
    if (registered : bool) then
      outcome ← dispatch meta r;
      _ ← on_life (fun s => (tt, cancel {[Call number]} (removeActive (activeKey meta) s)));
      mret (writeRPC 200 extra (rp_ID r) outcome)
    else mret (writeRPC 200 extra (rp_ID r) (RFailure (-32600) "duplicate in-flight request id"))
  else
    outcome ← dispatch meta r;
    mret (if IsNotification r then writeHeader 202 extra else writeRPC 200 extra (rp_ID r) outcome).

(** The limits, and the method within them. *)
Definition post_limited (number : Z) (meta : Meta) (r : RpcRequest) (extra : list (gostring * gostring)) : http http_response :=
  if IsNotification r && bool_decide (rp_Method r = "notifications/cancelled") then
    n ← get_field gw_control;
    if ep_ControlMaxConcurrency ep <=? n then mret (writeHTTPError 503 extra "gateway control concurrency limit reached")
    else _ ← dispatch meta r; mret (writeHeader 202 extra)
  else
    ok ← allow_subject (m_AuthPrincipal meta ++ "|" ++ m_RemoteIP meta);
    if negb ok then mret (writeHTTPError 429 (extra ++ [("Retry-After" : gostring, "1" : gostring)]) "rate limit exceeded")
    else
      n ← get_field gw_running;
      if ep_MaxConcurrency ep <=? n then mret (writeHTTPError 503 extra "gateway concurrency limit reached")
      else post_method number meta r extra.

(** The request once its body is decoded. *)
Definition post_request (number : Z) (q : http_request) (principal : gostring) (r : RpcRequest) (signatureVerified : bool) : http http_response :=
  requestID ← in_call (newID "req-");
  let extra := [("X-Request-ID" : gostring, requestID)] in
  if negb (bool_decide (rp_JSONRPC r = "2.0")) || bool_decide (rp_Method r = []) then
    mret (if IsNotification r then writeHeader 202 extra else writeRPC 200 extra (rp_ID r) (RFailure (-32600) "invalid request"))
  else
    '(sessionID, legacy) ←
      (if decide (rp_Method r = "initialize") then
         if IsNotification r then respond (writeHeader 202 extra)
         else if negb (bool_decide (Values q HeaderSessionID = []))
         then respond (writeRPC 400 extra (rp_ID r) (RFailure (-32600) "initialize must not include Mcp-Session-Id"))
         else if negb (validInitializeProtocolHeader (Values q HeaderProtocolVersion))
         then respond (writeRPC 400 extra (rp_ID r) (RFailure (-32600) "unsupported MCP protocol version"))
         else mret ([], false)
       else post_session q principal r signatureVerified extra);
    let meta := post_meta q principal requestID sessionID legacy r in
    let message := if decide (rp_Method r = "tools/call") then invalidActiveIdentity r meta (IsNotification r) else [] in
    if negb (bool_decide (message = [])) then
      mret (if IsNotification r then writeHeader 202 extra else writeRPC 200 extra (rp_ID r) (RFailure (-32602) message))
    else post_limited number meta r extra.

Definition servePost (number : Z) (q : http_request) (principal : gostring) : http http_response :=
  if negb (media_type_ok q) then mret (writeRPC 415 [] [] (RFailure (-32600) "Content-Type must be application/json"))
  else
    match read_body (ep_MaxBodyBytes ep) q with
    | None => mret (writeRPC 413 [] [] (RFailure (-32700) "request body exceeds limit"))
    | Some body =>
        verified ← verifyRequestSignature q body;
        match verified with
        | None => mret (writeRPC 401 [] [] (RFailure (-32001) "request signature rejected"))
        | Some signatureVerified =>
            match decode_strict body with
            | None => mret (writeRPC 400 [] [] (RFailure (-32700) "invalid JSON-RPC request"))
            | Some r => post_request number q principal r signatureVerified
            end
        end
    end.

(** ** DELETE and the other methods *)

(** [verifyNonPostRequest]: the response that ends the request, if one does. *)
Definition verifyNonPostRequest (q : http_request) : http unit :=
  match read_body (ep_MaxBodyBytes ep) q with
  | None => respond (writeHTTPError 413 [] "request body exceeds limit")
  | Some body =>
      verified ← verifyRequestSignature q body;
      match verified with None => respond (writeHTTPError 401 [] "request signature rejected") | Some _ => mret tt end
  end.

Definition serveDelete (q : http_request) (principal : gostring) : http http_response :=
  _ ← verifyNonPostRequest q;
  match explicitProtocolHeader (Values q HeaderProtocolVersion) with
  | None => mret (writeHTTPError 400 [] errSessionProtocolVersion)
  | Some version =>
      let sessionID := safeIdentity (Get q HeaderSessionID) in
      if bool_decide (sessionID = []) then mret (writeHTTPError 404 [] errSessionNotFound)
      else
        t ← clock_now;
        '(found, gone) ← on_life (fun s =>
          let '(found, gone, st) := markRevoking sessionID principal version t (store s) in ((found, gone), Lifecycle.with_store s st));
        _ ← evicted gone;
        match found with
        | Err ErrSessionProtocolVersion => mret (writeHTTPError 400 [] errSessionProtocolVersion)
        | Err _ => mret (writeHTTPError 404 [] errSessionNotFound)
        | Ok _ =>
            _ ← on_life (fun s => (tt, terminateActive principal sessionID s));
            ok ← revokeExecSessionWithTimeout principal sessionID;
            if negb ok then mret (writeHTTPError 503 [] "session revocation is temporarily unavailable")
            else _ ← on_life (fun s => (tt, Lifecycle.with_store s (deleteRevoked sessionID principal (store s)))); mret (writeHeader 204 [])
        end
  end.

Definition method_not_allowed : http_response := writeHeader 405 [("Allow" : gostring, "POST, DELETE" : gostring)].

(** An admitted request. *)
Definition serve_admitted (number : Z) (q : http_request) : http http_response :=
  if negb (originAllowed (ep_AllowedOrigins ep) (Get q "Origin")) then mret (writeHTTPError 403 [] "origin is not allowed")
  else if negb (acceptable (Values q "Accept"))
  then mret (writeHTTPError 406 [] "Accept must allow application/json or text/event-stream")
  else
    match authenticate (ep_auth ep) q with
    | None => mret (writeHTTPError 401 [("WWW-Authenticate" : gostring, "Bearer" : gostring)] "unauthorized")
    | Some principal =>
        if decide (r_Method (hq_request q) = "POST") then servePost number q principal
        else if decide (r_Method (hq_request q) = "DELETE") then serveDelete q principal
        else _ ← verifyNonPostRequest q; mret method_not_allowed
    end.

Definition response_of (m : http http_response) (g : gateway) : http_response * gateway :=
  match m g with (Ok r, g') => (r, g') | (Err r, g') => (r, g') end.

Definition ServeHTTP (q : http_request) (g : gateway) : http_response * gateway :=
  match admit_request (gw_life g) with
  | (None, _) => (not_found (take 1 security_headers), g)
  | (Some number, s) =>
      let '(r, g) := response_of (serve_admitted number q) (with_life s g) in (r, with_life (finishRequest number (gw_life g)) g)
  end.

#[local] Set Default Proof Using "All".

(** ** Actions that leave the files alone *)

Definition keeps {A} (m : http A) : Prop := forall g, w_files (gw_world (m g).2) = w_files (gw_world g).

Lemma keeps_ret {A} (a : A) : keeps (mret a).
Proof. done. Qed.
Lemma keeps_respond {A} r : keeps (respond (A := A) r).
Proof. done. Qed.
Lemma keeps_bind {A B} (m : http A) (k : A -> http B) : keeps m -> (forall a, keeps (k a)) -> keeps (m ≫= k).
Proof.
  intros Hm Hk g. unfold mbind, http_bind. specialize (Hm g). destruct (m g) as [[a|] g1]; cbn in *; [|done]. by rewrite Hk.
Qed.
Lemma keeps_life {A} (k : Lifecycle.Server -> A * Lifecycle.Server) : keeps (on_life k).
Proof. intros g. unfold on_life. by destruct (k (gw_life g)). Qed.
Lemma keeps_rate {A} (k : rateLimiter -> A * rateLimiter) : keeps (on_rate k).
Proof. intros g. unfold on_rate. by destruct (k (gw_rate g)). Qed.
Lemma keeps_get {A} (k : gateway -> A) : keeps (get_field k).
Proof. done. Qed.
Lemma keeps_in_call {A} (m : handler S W F X A) : (forall w, w_files (m w).2 = w_files w) -> keeps (in_call m).
Proof. intros Hm g. unfold in_call. specialize (Hm (gw_world g)). by destruct (m (gw_world g)). Qed.
Lemma keeps_make p n : keeps (make_session p n).
Proof. intros g. unfold make_session. by destruct (createSession _ _ _ _ _) as [[[]]|]. Qed.

Lemma files_newID prefix (w : world S W F X) : w_files (newID prefix w).2 = w_files w.
Proof. done. Qed.
Lemma files_now (w : world S W F X) : w_files (now w).2 = w_files w.
Proof. done. Qed.
Lemma files_tick (w : world S W F X) : w_files (tick w).2 = w_files w.
Proof. done. Qed.
Lemma files_store {A} (k : S -> A * S) (w : world S W F X) : w_files (with_store k w).2 = w_files w.
Proof. unfold with_store. by destruct (k (w_store w)). Qed.
Lemma files_exec j (w : world S W F X) : w_files (exec_call j w).2 = w_files w.
Proof. unfold exec_call. by destruct (exec_do j (w_external w)). Qed.

Create HintDb endpoint.
#[local] Hint Resolve keeps_ret keeps_respond keeps_life keeps_rate keeps_get keeps_make keeps_in_call files_newID files_now files_tick files_store files_exec : endpoint.

Ltac keep :=
  repeat (intros; first [apply keeps_bind | progress (eauto 2 with endpoint) | progress case_match]).

Lemma keeps_revoke p i : keeps (revokeExecSession p i).
Proof. unfold revokeExecSession. keep. Qed.
#[local] Hint Resolve keeps_revoke : endpoint.
Lemma keeps_revoke_timeout p i : keeps (revokeExecSessionWithTimeout p i).
Proof. unfold revokeExecSessionWithTimeout. keep. Qed.
Lemma keeps_revoke_all l : keeps (revokeExecSessionsWithTimeout l).
Proof. induction l; cbn; keep. Qed.
#[local] Hint Resolve keeps_revoke_timeout keeps_revoke_all : endpoint.
Lemma keeps_evicted l : keeps (evicted l).
Proof. unfold evicted. keep. Qed.
Lemma keeps_clock : keeps clock_now.
Proof. unfold clock_now. keep. Qed.
#[local] Hint Resolve keeps_evicted keeps_clock : endpoint.
Lemma keeps_signature q body : keeps (verifyRequestSignature q body).
Proof. unfold verifyRequestSignature. keep. Qed.
Lemma keeps_cancel meta raw : keeps (cancelNotification meta raw).
Proof. unfold cancelNotification. keep. Qed.
#[local] Hint Resolve keeps_signature keeps_cancel : endpoint.
Lemma keeps_session q p r v extra : keeps (post_session q p r v extra).
Proof. unfold post_session. keep. Qed.
Lemma keeps_allow s : keeps (allow_subject s).
Proof. unfold allow_subject. keep. Qed.
Lemma keeps_create p : keeps (create_session p).
Proof. unfold create_session. keep. Qed.
Lemma keeps_nonpost q : keeps (verifyNonPostRequest q).
Proof. unfold verifyNonPostRequest. keep. Qed.
#[local] Hint Resolve keeps_session keeps_allow keeps_create keeps_nonpost : endpoint.
Lemma keeps_delete q p : keeps (serveDelete q p).
Proof. unfold serveDelete. keep. Qed.
Lemma keeps_dispatch meta r : rp_Method r <> "tools/call" -> keeps (dispatch meta r).
Proof. unfold dispatch. keep. done. Qed.

(** ** What a successful step says *)

Lemma http_bind_inv {A B} (m : http A) (k : A -> http B) g r g' :
  (m ≫= k) g = (r, g') -> (exists a g1, m g = (Ok a, g1) /\ k a g1 = (r, g')) \/ (exists e, m g = (Err e, g') /\ r = Err e).
Proof.
  unfold mbind, http_bind. destruct (m g) as [[a|e] g1]; [left; eauto|]. intros [= <- <-]. right. eauto.
Qed.

Lemma in_call_life {A} (m : handler S W F X A) g r g' : in_call m g = (r, g') -> gw_life g' = gw_life g.
Proof. unfold in_call. destruct (m (gw_world g)). by intros [= _ <-]. Qed.

Lemma clock_inv g r g' : clock_now g = (r, g') -> is_ok r = true /\ gw_life g' = gw_life g /\ w_store (gw_world g') = w_store (gw_world g).
Proof. by intros [= <- <-]. Qed.

(** A signature that was there verified, over the body that was read. *)
Definition signature_grounds (q : http_request) (body : gostring) (g : gateway) (verified : bool) : Prop :=
  (ep_RequireRequestSignature ep = true -> verified = true) /\
  (verified = true -> exists v t s', ep_signature ep = Some v /\
     VerifyRequest v (w_store (gw_world g)) (Some (hq_request q)) body
       (mkHeaders (Get q HeaderTimestamp) (Get q HeaderNonce) (Get q HeaderSignature)) t = (Ok tt, s')).

Lemma verifyRequestSignature_inv q body g r g1 :
  verifyRequestSignature q body g = (r, g1) ->
  gw_life g1 = gw_life g /\ forall v, r = Ok (Some v) -> signature_grounds q body g v.
Proof.
  unfold verifyRequestSignature, signature_grounds. cbn [Timestamp Nonce Signature].
  destruct (negb (negb _) && _) eqn:Ep.
  - intros [= <- <-]. split; [done|]. intros v [= <-]. apply andb_true_iff in Ep as [_ Ep]. apply negb_true_iff in Ep. split; congruence.
  - destruct (ep_signature ep) as [v0|]; [|intros [= <- <-]; by split].
    intros [(t & g2 & Ht & [(res & g3 & Hv & [= <- <-])|(e & Hv & ->)]%http_bind_inv)|(e & Ht & ->)]%http_bind_inv.
    + apply clock_inv in Ht as (_ & Hl & Hs). split; [by rewrite <- Hl; eapply in_call_life|].
      intros v [= E]. destruct res as [[]|]; [|done]. injection E as <-. split; [done|]. intros _. exists v0, t.
      unfold in_call, with_store in Hv. rewrite Hs in Hv. destruct (VerifyRequest _ _ _ _ _ _) as [r s'] eqn:Ev.
      exists s'. split; [done|]. by injection Hv as -> _.
    + apply clock_inv in Ht as (_ & Hl & _). split; [by rewrite <- Hl; eapply in_call_life|done].
    + apply clock_inv in Ht as (_ & Hl & _). by split.
Qed.

(** The session of a request: one of the store that is the principal's, not being revoked,
    not expired and of the version of the request; or one that a verified signature names. *)
Definition session_grounds (q : http_request) (principal sessionID : gostring) (verified legacy : bool) (g : gateway) : Prop :=
  sessionID <> [] /\
  if legacy then
    ep_AllowLegacySignedSession ep = true /\ verified = true /\ Values q HeaderSessionID = [] /\ sessionID = safeIdentity (Get q headerSessionID)
  else
    sessionID = safeIdentity (Get q HeaderSessionID) /\
    exists session t, sessions (store (gw_life g)) !! sessionID = Some session /\ Principal session = principal /\
      Revoking session = false /\ t < LastSeen session + ttl (store (gw_life g)) /\
      explicitProtocolHeader (Values q HeaderProtocolVersion) = Some (ProtocolVersion session).

Lemma post_session_inv q principal r verified extra g sessionID legacy g1 :
  post_session q principal r verified extra g = (Ok (sessionID, legacy), g1) -> session_grounds q principal sessionID verified legacy g.
Proof.
  unfold post_session. destruct (_ && _ && _ && _) eqn:El.
  - destruct (bool_decide (safeIdentity _ = [])) eqn:Hs; [by intros [=]|]. intros [= <- <- <-]. bool_props. by repeat split.
  - destruct (bool_decide (safeIdentity _ = [])) eqn:Hs; [by intros [=]|]. apply bool_decide_eq_false in Hs. destruct (explicitProtocolHeader _) as [version|] eqn:Ev; [|by intros [=]].
    intros [(t & g2 & Ht & [([found gone] & g3 & Hl & Hk)|(e & _ & ?)]%http_bind_inv)|(e & _ & ?)]%http_bind_inv; [|done..].
    apply in_call_life in Ht. cbn in Hk. apply http_bind_inv in Hk as [([] & g4 & _ & Hk)|(e & _ & ?)]; [|done].
    destruct found as [session|]; [|done]. injection Hk as <- <- <-. split; [done|]. split; [done|].
    unfold on_life in Hl. rewrite Ht in Hl. unfold validateAndTouch in Hl.
    destruct (sessions _ !! _) as [x|] eqn:Ex; [|cbn in Hl; discriminate]. destruct (_ || _) eqn:E1; [cbn in Hl; discriminate|].
    destruct (negb (before _ _)) eqn:E2; [cbn in Hl; discriminate|]. destruct (negb (bool_decide (version = _))) eqn:E3; [cbn in Hl; discriminate|]. unfold before in E2. apply orb_false_iff in E1 as [E0 E1]. bool_props. subst version.
    exists x, t. split; [done|]. by repeat split.
Qed.

(** ** How a request comes to call a tool *)

Definition steady {A} (m : http A) : Prop := forall g, gw_running (m g).2 = gw_running g.
Lemma steady_bind {A B} (m : http A) (k : A -> http B) : steady m -> (forall a, steady (k a)) -> steady (m ≫= k).
Proof.
  intros Hm Hk g. unfold mbind, http_bind. specialize (Hm g). destruct (m g) as [[a|] g1]; cbn in *; [|done]. by rewrite Hk.
Qed.
Lemma steady_ret {A} (a : A) : steady (mret a).
Proof. done. Qed.
Lemma steady_respond {A} r : steady (respond (A := A) r).
Proof. done. Qed.
Lemma steady_life {A} (k : Lifecycle.Server -> A * Lifecycle.Server) : steady (on_life k).
Proof. intros g. unfold on_life. by destruct (k (gw_life g)). Qed.
Lemma steady_rate {A} (k : rateLimiter -> A * rateLimiter) : steady (on_rate k).
Proof. intros g. unfold on_rate. by destruct (k (gw_rate g)). Qed.
Lemma steady_in_call {A} (m : handler S W F X A) : steady (in_call m).
Proof. intros g. unfold in_call. by destruct (m (gw_world g)). Qed.
#[local] Hint Resolve steady_ret steady_respond steady_life steady_rate steady_in_call : endpoint.

Ltac steady_tac :=
  repeat (intros; first [apply steady_bind | progress (eauto 2 with endpoint) | progress case_match]).

Lemma steady_revoke p i : steady (revokeExecSession p i).
Proof. unfold revokeExecSession. steady_tac. Qed.
#[local] Hint Resolve steady_revoke : endpoint.
Lemma steady_revoke_all l : steady (revokeExecSessionsWithTimeout l).
Proof. induction l; cbn; steady_tac. Qed.
#[local] Hint Resolve steady_revoke_all : endpoint.
Lemma steady_evicted l : steady (evicted l).
Proof. unfold evicted. steady_tac. Qed.
#[local] Hint Resolve steady_evicted : endpoint.
Lemma steady_clock : steady clock_now.
Proof. unfold clock_now. steady_tac. Qed.
#[local] Hint Resolve steady_clock : endpoint.
Lemma steady_signature q body : steady (verifyRequestSignature q body).
Proof. unfold verifyRequestSignature. steady_tac. Qed.
Lemma steady_session q p r v extra : steady (post_session q p r v extra).
Proof. unfold post_session. steady_tac. Qed.
Lemma steady_allow s : steady (allow_subject s).
Proof. unfold allow_subject. steady_tac. Qed.
Lemma steady_eq {A} (m : http A) g r g' : steady m -> m g = (r, g') -> gw_running g' = gw_running g.
Proof. intros Hm E. specialize (Hm g). by rewrite E in Hm. Qed.

Lemma keeps_eq {A} (m : http A) g r g' : keeps m -> m g = (r, g') -> w_files (gw_world g') = w_files (gw_world g).
Proof. intros Hm E. specialize (Hm g). by rewrite E in Hm. Qed.

Lemma dispatch_call meta r g : rp_Method r = "tools/call" ->
  dispatch meta r g =
    let '(reply, w) := call (ep_server ep) (ep_externals ep) meta (rp_Params r) (gw_world g) in
    (Ok (RReply reply), mkGateway (gw_life g) (gw_rate g) (gw_running g) (gw_control g) w).
Proof.
  intros E. unfold dispatch. rewrite E. repeat (rewrite decide_False by discriminate). rewrite decide_True by done.
  unfold mbind, http_bind, in_call. by destruct (call _ _ _ _ _).
Qed.

(** The call of a tool, from the world that the handler has reached; its answer is the body
    of the response, unless the request is a notification. *)
Definition calls_tool (meta : Meta) (r : RpcRequest) (w : world S W F X) (extra : list (gostring * gostring)) (response : http_response)
    (w' : world S W F X) : Prop :=
  rp_Method r = "tools/call" /\
  exists reply, call (ep_server ep) (ep_externals ep) meta (rp_Params r) w = (reply, w') /\
    response = if IsNotification r then writeHeader 202 extra else writeRPC 200 extra (rp_ID r) (RReply reply).

Definition resp_of (r : result http_response http_response) : http_response := match r with Ok r | Err r => r end.

Lemma post_method_inv number meta r extra g res g' :
  post_method number meta r extra g = (res, g') -> w_files (gw_world g') <> w_files (gw_world g) ->
  calls_tool meta r (gw_world g) extra (resp_of res) (gw_world g').
Proof.
  intros E Hc. destruct (decide (rp_Method r = "tools/call")) as [Hm|Hm].
  - split; [done|]. unfold post_method in E. rewrite Hm in E. rewrite decide_False in E by discriminate.
    case_decide as Hn.
    + destruct Hn as [_ Hn]. apply http_bind_inv in E as [(ok & g1 & Hreg & E)|(e & E & ->)].
      * assert (Hw : gw_world g1 = gw_world g).
        { unfold on_life in Hreg. destruct (registerActive _ _ _). by injection Hreg as _ <-. }
        destruct ok; [|injection E as <- <-; by rewrite Hw in Hc].
        unfold mbind, http_bind in E. rewrite dispatch_call in E by done. rewrite Hw in E.
        destruct (call _ _ _ _ _) as [reply w]. injection E as <- <-. exists reply. cbn. by rewrite Hn.
      * unfold on_life in E. destruct (registerActive _ _ _); done.
    + assert (IsNotification r = true) as Hn' by (destruct (IsNotification r); [done|by destruct Hn]). rewrite Hn' in E |- *.
      unfold mbind, http_bind in E. rewrite dispatch_call in E by done. destruct (call _ _ _ _ _) as [reply w].
      injection E as <- <-. by exists reply.
  - destruct Hc. eapply keeps_eq; [|exact E]. pose proof (keeps_dispatch meta r Hm) as Hd. unfold post_method. keep.
Qed.

Lemma post_limited_inv number meta r extra g res g' :
  post_limited number meta r extra g = (res, g') -> w_files (gw_world g') <> w_files (gw_world g) ->
  gw_running g < ep_MaxConcurrency ep /\
  exists w, w_files w = w_files (gw_world g) /\ calls_tool meta r w extra (resp_of res) (gw_world g').
Proof.
  intros E Hc. unfold post_limited in E. destruct (IsNotification r && _) eqn:En.
  - apply andb_true_iff in En as [_ En]. apply bool_decide_eq_true in En. destruct Hc. eapply keeps_eq; [|exact E].
    assert (keeps (dispatch meta r)) by (apply keeps_dispatch; rewrite En; discriminate). keep.
  - apply http_bind_inv in E as [(ok & g1 & Ha & E)|(e & E & ->)]; [|destruct Hc; by eapply keeps_eq; [apply keeps_allow|]].
    assert (Hf := keeps_eq _ _ _ _ (keeps_allow _) Ha). destruct ok; cbn [negb] in E; [|injection E as <- <-; congruence].
    apply http_bind_inv in E as [(n & g2 & Hn & E)|(e & Hn & _)]; [|done]. injection Hn as <- <-.
    assert (Hrun := steady_eq _ _ _ _ (steady_allow _) Ha).
    destruct (Z.leb_spec (ep_MaxConcurrency ep) (gw_running g1)); [injection E as <- <-; congruence|].
    split; [lia|]. exists (gw_world g1). split; [done|]. eapply post_method_inv; [exact E|congruence].
Qed.

Lemma post_request_inv number q principal r verified g res g' :
  post_request number q principal r verified g = (res, g') -> w_files (gw_world g') <> w_files (gw_world g) ->
  exists requestID sessionID legacy w extra,
    session_grounds q principal sessionID verified legacy g /\ gw_running g < ep_MaxConcurrency ep /\
    w_files w = w_files (gw_world g) /\
    calls_tool (post_meta q principal requestID sessionID legacy r) r w extra (resp_of res) (gw_world g').
Proof.
  intros E Hc. unfold post_request in E. apply http_bind_inv in E as [(requestID & g1 & Hid & E)|(e & E & ->)]; [|done].
  assert (Hg1 : gw_life g1 = gw_life g /\ gw_running g1 = gw_running g /\ w_files (gw_world g1) = w_files (gw_world g)) by (by injection Hid as <- <-).
  clear Hid. destruct Hg1 as (Hl1 & Hr1 & Hf1). destruct (negb _ || _); [injection E as <- <-; congruence|].
  destruct (decide (rp_Method r = "initialize")) as [Hi|Hi].
  { assert (Hd : forall meta, keeps (dispatch meta r)) by (intros; apply keeps_dispatch; rewrite Hi; discriminate).
    assert (Hk : forall meta extra, keeps (post_limited number meta r extra)) by (intros; unfold post_limited, post_method; keep).
    destruct Hc. rewrite <- Hf1. eapply keeps_eq; [|exact E]. keep; apply Hk. }
  apply http_bind_inv in E as [([sessionID legacy] & g2 & Hs & E)|(e & E & ->)].
  - assert (Hf2 := keeps_eq _ _ _ _ (keeps_session _ _ _ _ _) Hs). 
    assert (Hr2 := steady_eq _ _ _ _ (steady_session _ _ _ _ _) Hs).
    apply post_session_inv in Hs. destruct (negb _); [injection E as <- <-; congruence|].
    apply post_limited_inv in E as (Hrun & w & Hw & Hcall); [|congruence].
    exists requestID, sessionID, legacy, w, [("X-Request-ID" : gostring, requestID)]. split; [|split; [lia|split; [congruence|done]]].
    unfold session_grounds in *. by rewrite <- Hl1.
  - apply (keeps_eq _ _ _ _ (keeps_session _ _ _ _ _)) in E. congruence.
Qed.

(** Every file that a request changes is changed by the tool it calls, on these grounds. *)
Lemma ServeHTTP_inv q g response g' :
  ServeHTTP q g = (response, g') -> w_files (gw_world g') <> w_files (gw_world g) ->
  revoked (gw_life g) = false /\ originAllowed (ep_AllowedOrigins ep) (Get q "Origin") = true /\ r_Method (hq_request q) = "POST" /\
  exists principal body r verified, authenticate (ep_auth ep) q = Some principal /\
    read_body (ep_MaxBodyBytes ep) q = Some body /\ signature_grounds q body g verified /\ decode_strict body = Some r /\
    exists requestID sessionID legacy w extra, session_grounds q principal sessionID verified legacy g /\
      gw_running g < ep_MaxConcurrency ep /\ w_files w = w_files (gw_world g) /\
      calls_tool (post_meta q principal requestID sessionID legacy r) r w extra response (gw_world g').
Proof.
  unfold ServeHTTP, admit_request. destruct (revoked (gw_life g)) eqn:Er; [intros [= <- <-]; done|].
  set (g0 := with_life _ g). destruct (response_of _ g0) as [response0 g1] eqn:E. intros [= -> <-]. cbn [gw_world with_life].
  assert (Hw0 : gw_world g0 = gw_world g) by done. assert (Hr0 : gw_running g0 = gw_running g) by done.
  assert (Hs0 : store (gw_life g0) = store (gw_life g)) by done. rewrite <- Hw0. intros Hc.
  unfold response_of in E. destruct (serve_admitted _ q g0) as [res g2] eqn:Es.
  assert (g2 = g1 /\ resp_of res = response) as [-> Hres] by (destruct res; by injection E as -> ->). clear E.
  unfold serve_admitted in Es. destruct (negb (originAllowed _ _)) eqn:Eo; [by injection Es as _ <-|]. apply negb_false_iff in Eo.
  destruct (negb (acceptable _)); [by injection Es as _ <-|]. destruct (authenticate _ q) as [principal|] eqn:Ea; [|by injection Es as _ <-].
  destruct (decide (r_Method (hq_request q) = "POST")) as [Hm|Hm].
  2: { destruct Hc. eapply keeps_eq; [|exact Es]. case_decide; [apply keeps_delete|keep]. }
  split; [done|]. split; [done|]. split; [done|]. unfold servePost in Es. destruct (negb _); [by injection Es as _ <-|].
  destruct (read_body _ q) as [body|] eqn:Eb; [|by injection Es as _ <-].
  apply http_bind_inv in Es as [(v & g3 & Hv & Es)|(e & Es & ->)]; [|by destruct Hc; eapply keeps_eq; [apply keeps_signature|]].
  assert (Hf3 := keeps_eq _ _ _ _ (keeps_signature _ _) Hv). assert (Hr3 := steady_eq _ _ _ _ (steady_signature _ _) Hv).
  apply verifyRequestSignature_inv in Hv as [Hl3 Hv]. destruct v as [verified|]; [|by injection Es as _ <-].
  destruct (decode_strict body) as [r|] eqn:Ed; [|by injection Es as _ <-].
  apply post_request_inv in Es as (requestID & sessionID & legacy & w & extra & Hs & Hrun & Hw & Hcall); [|congruence].
  exists principal, body, r, verified. split; [done|]. split; [done|]. split; [by specialize (Hv _ eq_refl)|]. split; [done|].
  exists requestID, sessionID, legacy, w, extra. rewrite Hres in Hcall. split; [|split; [lia|split; [congruence|done]]].
  unfold session_grounds in *. by rewrite Hl3, Hs0 in Hs.
Qed.

End endpoint.
