(* ===== verification/FileExecutor.v ===== *)
(** * The file executor of the gateway ([internal/fileworker/client.go])

    [ProcessExecutor.Execute]: a request becomes a signed job, and a new worker process
    carries it out with nothing but the public key. What a process changes is bounded by
    the job, so the executor keeps the promises the gateway relies on. *)
From S2P Require Import Prelude GoStrings Base64 Utf8 TextTypes Codec EditorConfig Diff Edit Token Capability Workspace FileEdit FileJob FileRead Image FileWorker Policy Replay Approval ApprovalView NetPolicy Tools AuditLog Calls.
#[local] Open Scope Z_scope.

(** How the client reads what a process leaves behind: its output, limits, time and exit
    status; and the text of an error that keeps the job from being made. *)
Class WorkerProcess := {
  process_answer : Job -> result job_error (Capability.Claims * response) -> Response * option error;
  job_error_text : job_error -> gostring
}.

Record ProcessExecutor := mkProcessExecutor { pe_key : gostring; pe_policyID : gostring }.

(** The workspace, and how many values were taken from the clock and the random source. *)
Record site (F : Type) := mkSite { st_files : F; st_tick : nat }.
Arguments mkSite {F} _ _.
Arguments st_files {F} _.
Arguments st_tick {F} _.

Section executor.
Context `{XText, ScriptTables, Regexp, UnicodeTables, Crypto, StdImages, ArgumentsJson, Ed25519, Json Capability.Claims}.
Context {F : Type} `{FileSystem F} `{Scanning F} `{WorkerProcess} `{Environment}.
Variable e : ProcessExecutor.

(** [Execute]. The process starts with no capability spent. *)
Definition process_execute (meta : Meta) (r : Request) (s : site F) : (Response * option error) * site F :=
  let n := st_tick s in
  match signed_job (pe_key e) (pe_policyID e) ("cap-" ++ random_hex n) r meta (clock n) (clock (S n)) with
  | Err err => ((bare_response [] [], Some (mkError OtherCause (job_error_text err))), mkSite (st_files s) (S (S n)))
  | Ok j =>
      let '(out, _, f) := FileWorker.Execute (pe_policyID e) (mkVerifier (PublicKey (pe_key e)) ∅) j (clock (S (S n))) (st_files s) in
      (process_answer j out, mkSite f (S (S (S n))))
  end.

#[export] Instance process_executor : ContextExecutor (site F) := {| fs_execute := process_execute |}.

(** ** Jobs of requests *)

Lemma normalize_all_Ok {A} (get : A -> gostring) set (l l' : list A) x :
  normalize_all get set l = Ok l' -> x ∈ l' ->
  exists y p, y ∈ l /\ Token.NormalizePath (get y) = Ok p /\ x = set y p.
Proof.
  revert l'. induction l as [|y l IH]; intros l'; cbn [normalize_all]; [intros [= <-] []%not_elem_of_nil|].
  intros (p & Hp & Hl)%bind_Ok Hx. apply bind_Ok in Hl as (rest & Hr & [= <-]). apply elem_of_cons in Hx as [->|Hx].
  - exists y, p. unfold normalize in Hp. destruct (Token.NormalizePath (get y)); [injection Hp as ->|done]. by split; [left|].
  - destruct (IH _ Hr Hx) as (y' & p' & Hy & ?). exists y', p'. by split; [right|].
Qed.

Lemma job_paths r meta wp j :
  jobFromRequest r meta wp = Ok j ->
  Token.NormalizePath (default_path r) = Ok (a_Path (j_Arguments j)) /\ a_Operation (j_Arguments j) = rq_Operation r /\
  a_Apply (j_Arguments j) = rq_Apply r /\ a_ExpectedHash (j_Arguments j) = rq_ExpectedHash r /\
  a_ContentSHA256 (j_Arguments j) = (if decide (rq_Data r = []) then [] else digestBytes (rq_Data r)) /\
  (forall x, x ∈ a_Files (j_Arguments j) -> exists y p, y ∈ rq_Files r /\ Token.NormalizePath (ef_Path y) = Ok p /\ ef_Path x = p) /\
  (forall t, t ∈ a_Targets (j_Arguments j) -> exists u p, u ∈ rq_Targets r /\ Token.NormalizePath (FileEdit.Path u) = Ok p /\
     t = set_target_path u p).
Proof.
  unfold jobFromRequest. intros (path & Hp & Hj)%bind_Ok. apply bind_Ok in Hj as (paths & _ & Hj).
  apply bind_Ok in Hj as (files & Hf & Hj). apply bind_Ok in Hj as (targets & Ht & Hj). cbv zeta in Hj. injection Hj as <-.
  cbn [j_Arguments a_Path a_Operation a_Apply a_ExpectedHash a_ContentSHA256 a_Files a_Targets].
  split; [unfold normalize in Hp; destruct (Token.NormalizePath _); [by injection Hp as ->|done]|]. repeat (split; [done|]). split.
  - intros x Hx. destruct (normalize_all_Ok _ _ _ _ _ Hf Hx) as (y & p & Hy & Hn & ->). by exists y, p.
  - intros t Hx. by apply (normalize_all_Ok _ _ _ _ _ Ht).
Qed.

Lemma isCommitRequest_spec r :
  rq_Operation r = "write_file" \/ (rq_Operation r = "edit" \/ rq_Operation r = "multi_edit") /\ rq_Apply r = true ->
  isCommitRequest r = true.
Proof.
  unfold isCommitRequest. intros [->|[[-> | ->] ->]]; done.
Qed.

(** ** What a process changes *)

Context `{!FileSystemLaws F} `{!ScanningLaws F}.
#[local] Set Default Proof Using "Type*".

Lemma Execute_change policyID caps j now f out caps' f' q :
  FileWorker.Execute policyID caps j now f = (out, caps', f') -> content f' q <> content f q -> job_change j f f' q.
Proof.
  unfold FileWorker.Execute. destruct (authorize policyID caps j now) as [[c|err] caps1] eqn:Ha; [|by intros [= _ _ <-]].
  apply authorize_Ok in Ha as (_ & _ & Hs & _). destruct (executeAuthorized j f) as [resp f1] eqn:He. intros [= _ _ <-] Hq.
  eapply executeAuthorized_confined; [by rewrite Hs|exact He|exact Hq].
Qed.

#[export] Program Instance process_executor_laws : ExecutorLaws (site F) := {| file_content s := content (st_files s) |}.
Next Obligation.
  intros meta r s q. cbn [fs_execute process_executor]. unfold process_execute.
  destruct (signed_job _ _ _ _ _ _ _) as [j|] eqn:Ej; [|done].
  destruct (FileWorker.Execute _ _ _ _ _) as [[out caps] f] eqn:Ee. cbn [snd st_files]. intros Hq.
  apply signed_job_Ok in Ej as (j0 & claims & token & Hj & -> & Hs & _).
  apply Execute_change with (q := q) in Ee; [|done]. pose proof (job_paths _ _ _ _ Hj) as (Hp & Ho & Ha & Hx & Hc & Hf & Ht).
  destruct Ee as [data Hop -> Hd Hdig Hdata Hexp|t Hop Hap Hin Htin <- Hb Haf]; cbn [with_token j_Arguments] in *.
  - rewrite Ho in Hop. split; [apply isCommitRequest_spec; by left|].
    split; [exists (default_path r); unfold commit_paths; rewrite Hop, decide_False by discriminate; by split; [left|]|].
    exists data. split; [done|]. left. split; [done|]. split; [by rewrite <- Hx|]. apply scopeForJob_Ok in Hs as (_ & _ & _ & _ & _ & Hfields).
    destruct (write_content _ Hfields) as (data' & _ & _ & _ & Hne); [cbn [with_token j_Arguments]; by rewrite Ho|].
    cbn [with_token j_Arguments] in Hne. rewrite Hdig, Hc in *. by case_decide.
  - rewrite Ho in Hop. split; [apply isCommitRequest_spec; right; by rewrite <- Ha|].
    destruct (Ht t Htin) as (u & p & Hu & Hup & ->). cbn [FileEdit.Path set_target_path BeforeSHA256 AfterSHA256] in *. split.
    + apply list_elem_of_fmap in Hin as (x & Ep & Hin). unfold job_files in Hin. unfold commit_paths. rewrite Ho in Hin.
      destruct (decide (rq_Operation r = "edit")) as [E|E].
      * apply list_elem_of_singleton in Hin as ->. cbn [ef_Path] in Ep. subst p. exists (default_path r).
        rewrite E, decide_False by discriminate. by split; [left|].
      * destruct Hop as [?|Hop]; [done|]. rewrite decide_True by done. destruct (Hf x Hin) as (y & p' & Hy & Hn & Ex).
        exists (ef_Path y). split; [by apply list_elem_of_fmap_2|]. by rewrite Hn, <- Ex, Ep.
    + unfold digest_at in *. destruct (content f p) as [data|]; [|done]. injection Haf as Haf. exists data. split; [done|].
      right. split; [done|]. exists u. split; [done|]. split; [done|]. split; [|done]. unfold current_digest. by rewrite Hb.
Qed.
End executor.
