(* ===== verification/GatewaySafety.v ===== *)
(** * What a tool call may change ([internal/gateway/gateway.go], [external.go])

    A call changes a file only where the policy allows every path it names, after its
    event is in the log, and, where the server approves writes, after a token was spent
    for exactly the change that is made. The proof goes through the handlers of Gateway.v
    and External.v: most steps leave the files alone ([quiet]), the others are [lawful]. *)
From S2P Require Import Prelude GoStrings Strconv Utf8 GoPath Base64 TextTypes Codec EditorConfig Edit Token Capability Replay Policy FileEdit FileJob FileRead FileWorker Image Redact Approval ApprovalView ExecProfile ExecCapability NetPolicy Tools AuditLog Calls External Gateway FileExecutor.
#[local] Open Scope Z_scope.

Section safety.
Context {S W F X : Type} `{Store S} `{ChallengeStore S} `{Writer W} `{ContextExecutor F} `{ExternalExecutors X}.
Context `{TextTables} `{UnicodeTables} `{JsonText} `{Crypto} `{EventJson} `{Json Approval.Claims} `{Environment}.
Context `{Ed25519} `{ProfileJson} `{InputJson} `{Json CapabilityClaims}.
Context `{Netip} `{NetURL} `{Inputs} `{CallJson} `{ValuesJson} `{TimeText} `{ViewJson} `{HashesJson} `{ReplyText} `{StdImages}.
Variable (sv : Server) (ex : Externals).
Abbreviation handler := (handler S W F X).
(** ** What changes under a path *)

Context `{!ExecutorLaws F} `{!WriterLaws W}.
#[local] Set Default Proof Using "Type*".
Implicit Types w : world S W F X.

Definition grows w w' : Prop := written (w_log w) `prefix_of` written (w_log w').
Definition same_files w w' : Prop := forall q, file_content (w_files w') q = file_content (w_files w) q.

(** A step that leaves the files and the approvals as they are; the log only grows. *)
Definition still w w' : Prop := same_files w w' /\ w_store w' = w_store w /\ grows w w'.

#[local] Instance still_refl : Reflexive still.
Proof. intros w. split; [by intros q|]. split; [done|]. by unfold grows. Qed.
#[local] Instance still_trans : Transitive still.
Proof.
  intros w1 w2 w3 (Hf & Hs & Hg) (Hf' & Hs' & Hg'). split; [intros q; by rewrite Hf', Hf|]. split; [congruence|].
  unfold grows in *. by transitivity (written (w_log w2)).
Qed.

Definition quiet {A} (m : handler A) : Prop := forall w, still w (m w).2.
(** The approvals may change, the files may not. *)
Definition reading {A} (m : handler A) : Prop := forall w, same_files w (m w).2.

Lemma bind_inv {A B} (m : handler A) (k : A -> handler B) w r w' :
  (m ≫= k) w = (r, w') ->
  exists r1 w1, m w = (r1, w1) /\ match r1 with Ok a => k a w1 = (r, w') | Err x => r = Err x /\ w' = w1 end.
Proof.
  unfold mbind, handler_bind. destruct (m w) as [[a|x] w1]; [intros E; by exists (Ok a), w1|].
  intros [= <- <-]. by exists (Err x), w1.
Qed.

Lemma quiet_ret {A} (a : A) : quiet (mret a : handler A).
Proof. by intros w. Qed.
Lemma quiet_stop {A} r : quiet (stop r : handler A).
Proof. by intros w. Qed.
Lemma quiet_bind {A B} (m : handler A) (k : A -> handler B) : quiet m -> (forall a, quiet (k a)) -> quiet (m ≫= k).
Proof.
  intros Hm Hk w. unfold mbind, handler_bind. specialize (Hm w). destruct (m w) as [[a|x] w1]; [|done].
  etransitivity; [exact Hm|]. apply Hk.
Qed.
Lemma quiet_tick : quiet tick.
Proof. intros w. split; [by intros q|]. split; [done|]. by unfold grows. Qed.
Lemma quiet_now : quiet now.
Proof. apply quiet_bind; [apply quiet_tick|]. intros a. apply quiet_ret. Qed.
Lemma quiet_newID prefix : quiet (newID prefix).
Proof. apply quiet_bind; [apply quiet_tick|]. intros a. apply quiet_ret. Qed.

Lemma quiet_with_log {A} (k : Logger -> W -> A * Logger * W) :
  (forall l log, written log `prefix_of` written (k l log).2) -> quiet (with_log k).
Proof.
  intros Hk w. unfold with_log. specialize (Hk (w_logger w) (w_log w)). destruct (k _ _) as [[a l] log].
  split; [by intros q|]. by split.
Qed.

Lemma record_grows l t e durable log : written log `prefix_of` written (record l t e durable log).2.
Proof.
  destruct (record l t e durable log) as [[r l'] log'] eqn:E. apply record_spec in E as (k & _ & Hw & _). cbn. rewrite Hw.
  by apply prefix_app_r.
Qed.

Lemma quiet_log_record e : quiet (log_record e).
Proof. apply quiet_bind; [apply quiet_now|]. intros t. apply quiet_with_log. intros l log. apply record_grows. Qed.

Lemma Prewrite_grows l t t' e log : written log `prefix_of` written (Prewrite l t t' e log).2.
Proof.
  unfold Prewrite. pose proof (record_grows l t' (prepareStart t e) true log) as Hr. destruct (record _ _ _ _ _) as [[[|] ?] ?]; done.
Qed.

Lemma Complete_grows tx status update l t t' log : written log `prefix_of` written (Complete tx status update l t t' log).2.
Proof.
  unfold Complete, Finish. destruct (t_finished tx); [done|].
  pose proof (record_grows l t' (final_event (t_start tx) (update (set_str Stage "completed" (set_str Status status
    (set_DurationMS 0 (set_EndedAt zero_time (set_Time zero_time (t_start tx))))))) t) true log) as Hr.
  by destruct (record _ _ _ _ _) as [[? ?] ?].
Qed.

Lemma quiet_complete tx status update : quiet (complete tx status update).
Proof.
  apply quiet_bind; [apply quiet_now|]. intros t. apply quiet_bind; [apply quiet_now|]. intros t'. apply quiet_with_log.
  intros l log. pose proof (Complete_grows tx status update l t t' log) as Hg. by destruct (Complete _ _ _ _ _ _ _) as [[[? ?] ?] ?].
Qed.

Lemma quiet_prewrite e : quiet (prewrite e).
Proof.
  apply quiet_bind; [apply quiet_now|]. intros t. apply quiet_bind; [apply quiet_now|]. intros t'. apply quiet_with_log.
  intros l log. apply Prewrite_grows.
Qed.

Lemma quiet_record_status status e : quiet (record_status status e).
Proof. apply quiet_bind; [apply quiet_log_record|]. intros a. apply quiet_ret. Qed.
Lemma quiet_refuse {A} status e m : quiet (refuse status e m : handler A).
Proof. apply quiet_bind; [apply quiet_record_status|]. intros a. apply quiet_stop. Qed.

Lemma quiet_inspect m token scope : quiet (inspect_token m token scope).
Proof.
  apply quiet_bind; [apply quiet_now|]. intros t w. unfold with_store. split; [by intros q|]. split; [done|]. by unfold grows.
Qed.

(** A request that is not a commit. *)
Lemma quiet_execute meta r : isCommitRequest r = false -> quiet (execute meta r).
Proof.
  intros Hr w. unfold execute. pose proof (fun q => fs_execute_confined meta r (w_files w) q) as Hc.
  destruct (fs_execute meta r (w_files w)) as [out f] eqn:E. split; [|split; [done|by unfold grows]].
  intros q. cbn [snd w_files] in *. destruct (decide (file_content f q = file_content (w_files w) q)) as [?|Hne]; [done|].
  destruct (Hc q Hne) as [Ht _]. congruence.
Qed.

(** ** Commits *)

(** The event was written to the log between the two states, as the start of a
    transaction; [l] is the logger it was written by, at the times [t] and [t']. *)
Definition prewritten (e : Event) w w' : Prop :=
  exists l t t' log, is_Some (marshal_event (logged_event l t' (prepareStart t e))) /\
    written (w_log w) `prefix_of` log /\ log ++ line_of l t' (prepareStart t e) `prefix_of` written (w_log w').

(** The request was run on the files as they were. *)
Definition ran (meta : Meta) (request : Request) w w' : Prop :=
  exists f, (forall q, file_content f q = file_content (w_files w) q) /\
    forall q, file_content (w_files w') q = file_content (fs_execute meta request f).2 q.

(** The token was verified, and spent, for the scope. *)
Definition spent (m : Manager) (token : gostring) (scope : Approval.Scope) w w' : Prop :=
  exists t claims, Approval.Verify m (w_store w) token scope t = (Ok claims, w_store w').

Lemma prewritten_grows e w1 w2 w3 w4 : grows w1 w2 -> prewritten e w2 w3 -> grows w3 w4 -> prewritten e w1 w4.
Proof.
  intros Hg (l & t & t' & log & Hm & Hb & Ha) Hg'. exists l, t, t', log. split; [done|]. unfold grows in *. split; etransitivity; done.
Qed.

Lemma prewritten_still e w1 w2 w3 w4 : still w1 w2 -> prewritten e w2 w3 -> still w3 w4 -> prewritten e w1 w4.
Proof. intros (_ & _ & Hg) Hp (_ & _ & Hg'). by eapply prewritten_grows. Qed.

Lemma record_marshals l t e durable log l' log' :
  record l t e durable log = (Ok tt, l', log') ->
  is_Some (marshal_event (logged_event l t e)) /\ written log' = written log ++ line_of l t e.
Proof.
  intros E. apply record_spec in E as Hs. destruct Hs as (k & _ & Hw & _ & -> & _). rewrite take_ge in Hw by done. split; [|done].
  unfold record in E. destruct (failed l); [done|]. destruct (negb _); [done|].
  destruct (marshal_event _) as [json|] eqn:Hm; [|done]. by eexists.
Qed.

Lemma ran_still meta request w1 w2 w3 w4 : still w1 w2 -> ran meta request w2 w3 -> still w3 w4 -> ran meta request w1 w4.
Proof.
  intros (Hs & _) (f & Hf & Hf') (Hs' & _). exists f. split; intros q; [by rewrite Hf, Hs|by rewrite Hs', Hf'].
Qed.

Lemma spent_still m token scope w1 w2 w3 w4 : still w1 w2 -> spent m token scope w2 w3 -> still w3 w4 -> spent m token scope w1 w4.
Proof. intros (_ & Hs & _) (t & c & Hv) (_ & Hs' & _). exists t, c. by rewrite <- Hs, Hs'. Qed.

Lemma prewrite_Ok e w r w' :
  prewrite e w = (r, w') ->
  still w w' /\ exists r0, r = Ok r0 /\ match r0 with Ok _ => prewritten e w w' | Err _ => True end.
Proof.
  intros E. split; [by pose proof (quiet_prewrite e w) as Hq; rewrite E in Hq|].
  unfold prewrite in E. apply bind_inv in E as (r1 & w1 & E1 & E). pose proof (quiet_now w) as Hq1. rewrite E1 in Hq1. cbn [snd] in Hq1.
  injection E1 as <- <-. apply bind_inv in E as (r2 & w2 & E2 & E).
  match type of E2 with _ ?w0 = _ => pose proof (quiet_now w0) as Hq2 end. rewrite E2 in Hq2. cbn [snd] in Hq2.
  injection E2 as <- <-. unfold with_log in E. destruct (Prewrite _ _ _ _ _) as [[r0 l'] log'] eqn:Ep. injection E as <- <-.
  exists r0. split; [done|]. destruct r0 as [tx|]; [|done]. unfold Prewrite in Ep.
  destruct (record _ _ _ _ _) as [[[[]|] l1] log1] eqn:Er; [|done]. injection Ep as _ <- <-. apply record_marshals in Er as [Hm Hw].
  do 4 eexists. split; [exact Hm|]. cbn [w_log]. split; [|by rewrite Hw].
  destruct Hq1 as (_ & _ & Hg1). destruct Hq2 as (_ & _ & Hg2). unfold grows in *. by transitivity (written (w_log w)).
Qed.

Lemma verify_Ok m token scope w r w' :
  verify_token m token scope w = (r, w') ->
  same_files w w' /\ w_log w' = w_log w /\
  exists r0, r = Ok r0 /\ match r0 with Ok _ => spent m token scope w w' | Err _ => True end.
Proof.
  unfold verify_token. intros E. apply bind_inv in E as (r1 & w1 & E1 & E). injection E1 as <- <-. unfold with_store in E.
  destruct (Approval.Verify _ _ _ _ _) as [r0 s] eqn:Ev. injection E as <- <-. split; [by intros q|]. split; [done|].
  exists r0. split; [done|]. destruct r0 as [c|]; [|done]. eexists _, c. exact Ev.
Qed.

Lemma execute_Ok meta request w r w' :
  execute meta request w = (r, w') -> (exists out, r = Ok out) /\ w_store w' = w_store w /\ w_log w' = w_log w /\ ran meta request w w'.
Proof.
  unfold execute. destruct (fs_execute meta request (w_files w)) as [out f] eqn:E. intros [= <- <-]. split; [by eexists|].
  split; [done|]. split; [done|]. exists (w_files w). by rewrite E.
Qed.

Definition changes w w' (q : gostring) : Prop := file_content (w_files w') q <> file_content (w_files w) q.

Lemma quiet_changes {A} (m : handler A) w r w' q : quiet m -> m w = (r, w') -> ~ changes w w' q.
Proof. intros Hm E Hc. apply Hc. specialize (Hm w) as [Hs _]. rewrite E in Hs. apply Hs. Qed.

Lemma still_of {A} (m : handler A) w r w' : quiet m -> m w = (r, w') -> still w w'.
Proof. intros Hm E. specialize (Hm w). by rewrite E in Hm. Qed.

Lemma changes_still w1 w2 w3 q : still w1 w2 -> changes w1 w3 q -> changes w2 w3 q.
Proof. intros [Hs _] Hc. unfold changes in *. by rewrite Hs. Qed.
Lemma changes_before w1 w2 w3 q : still w2 w3 -> changes w1 w3 q -> changes w1 w2 q.
Proof. intros [Hs _] Hc. unfold changes in *. by rewrite <- Hs. Qed.

Lemma commit_managed_changes meta request e result_of w r w' q :
  commit_managed meta request e result_of w = (r, w') -> changes w w' q ->
  prewritten e w w' /\ ran meta request w w'.
Proof.
  unfold commit_managed. intros E Hc. apply bind_inv in E as (r1 & w1 & E1 & E).
  apply prewrite_Ok in E1 as (Hs1 & r0 & -> & Hp). destruct r0 as [tx|]; [|injection E as _ <-; by destruct (Hc (proj1 Hs1 q))].
  apply bind_inv in E as (r2 & w2 & E2 & E). apply execute_Ok in E2 as ([out ->] & Hst & Hlog & Hr). destruct out as [response err].
  assert (Hs3 : still w2 w').
  { eapply still_of; [|exact E]. apply quiet_bind; [apply quiet_complete|]. intros r3. destruct err, r3; apply quiet_stop || apply quiet_ret. }
  split.
  - destruct Hs3 as (_ & _ & Hg). unfold grows in Hg. rewrite Hlog in Hg. eapply prewritten_grows; [|exact Hp|exact Hg]; by unfold grows.
  - eapply ran_still; done.
Qed.

Lemma commit_approved_changes m meta token workerID scope request e result_of w r w' q :
  commit_approved m meta token workerID scope request e result_of w = (r, w') -> changes w w' q ->
  exists id approver, prewritten (set_approval id approver e) w w' /\ ran meta request w w' /\ spent m token scope w w'.
Proof.
  unfold commit_approved. intros E Hc. apply bind_inv in E as (r1 & w1 & E1 & E).
  apply (still_of _ _ _ _ (quiet_inspect _ _ _)) in E1 as Hs1. pose proof (changes_still _ _ _ _ Hs1 Hc) as Hc1.
  destruct r1 as [[c|err]|x]; [|by destruct (quiet_changes _ _ _ _ q (quiet_refuse _ _ _) E)|destruct E as [_ ->]; by destruct (Hc1 eq_refl)].
  apply bind_inv in E as (r2 & w2 & E2 & E). apply prewrite_Ok in E2 as (Hs2 & r0 & -> & Hp).
  pose proof (changes_still _ _ _ _ Hs2 Hc1) as Hc2. destruct r0 as [tx|]; [|injection E as _ <-; by destruct (Hc2 eq_refl)].
  apply bind_inv in E as (r3 & w3 & E3 & E). apply verify_Ok in E3 as (Hf3 & Hl3 & r0 & -> & Hv).
  assert (Hc3 : changes w3 w' q) by (unfold changes in *; by rewrite Hf3).
  destruct r0 as [c'|err]; cycle 1.
  { exfalso. eapply quiet_changes; [|exact E|exact Hc3]. apply quiet_bind; [apply quiet_complete|]. intros []; apply quiet_stop. }
  apply bind_inv in E as (r4 & w4 & E4 & E). apply execute_Ok in E4 as ([[response err] ->] & Hst & Hlog & Hr).
  assert (Hs5 : still w4 w').
  { eapply still_of; [|exact E]. apply quiet_bind; [apply quiet_complete|]. intros r5. destruct err, r5; apply quiet_stop || apply quiet_ret. }
  pose proof (still_trans _ _ _ Hs1 Hs2) as Hs12. exists (Approval.ApprovalID c), (Approval.Approver c).
  destruct Hs5 as (Hf5 & Hst5 & Hg5). unfold grows in Hg5. split; [|split].
  - destruct Hs1 as (_ & _ & Hg1). rewrite Hlog, Hl3 in Hg5. eapply prewritten_grows; [exact Hg1|exact Hp|exact Hg5].
  - destruct Hr as (f & Hf & Hf'). destruct Hs12 as [Hsf _]. exists f. split; intros p; [by rewrite Hf, Hf3, Hsf|by rewrite Hf5, Hf'].
  - destruct Hv as (t & c0 & Hv). destruct Hs12 as (_ & Hss & _). exists t, c0. by rewrite <- Hss, Hst5, Hst.
Qed.

(** ** The grounds of a change *)

(** What every record of a call says of it. *)
Definition about_call (meta : Meta) (spec : toolSpec) (e : Event) : Prop :=
  e_str e Tool = ts_Name spec /\ e_str e RequestID = m_RequestID meta /\ e_str e AuditLog.SessionID = m_SessionID meta /\
  e_str e AuthPrincipal = m_AuthPrincipal meta /\ e_Allowed e = true.

(** The request makes exactly the change that the scope of an approval names. *)
Definition request_of_scope (scope : Approval.Scope) (request : Request) : Prop :=
  (rq_Operation request = "write_file" /\
   s_Targets scope = [Approval.mkTarget (default_path request) (rq_ExpectedHash request) (digestBytes (rq_Data request))]) \/
  ((rq_Operation request = "edit" \/ rq_Operation request = "multi_edit") /\ rq_Targets request = workerTargets (s_Targets scope)).

(** Where the server approves writes, a token was verified for the session, the
    operation and the targets. *)
Definition approved_for (meta : Meta) (spec : toolSpec) (a : toolArguments) (request : Request) w w' : Prop :=
  server_token sv = false \/
  exists m scope, sv_approvals sv = Some m /\ spent m (ta_ApprovalToken a) scope w w' /\
    s_SessionID scope = m_SessionID meta /\ s_Operation scope = ts_Name spec /\ request_of_scope scope request.

(** What must have happened when a call changes a file. *)
Record grounds (meta : Meta) (spec : toolSpec) (a : toolArguments) (request : Request) (e : Event) w w' : Prop := {
  gr_event : about_call meta spec e;
  gr_prewritten : prewritten e w w';
  gr_ran : ran meta request w w';
  gr_paths : incl (commit_paths request) (argumentPaths a);
  gr_normal : Forall normal (argumentPaths a);
  gr_approved : approved_for meta spec a request w w'
}.

Lemma grounds_still meta spec a request e w1 w2 w3 w4 :
  still w1 w2 -> grounds meta spec a request e w2 w3 -> still w3 w4 -> grounds meta spec a request e w1 w4.
Proof.
  intros Hb [He Hp Hr Hi Hn Ha] Hf. split; [done|by eapply prewritten_still|by eapply ran_still|done|done|].
  destruct Ha as [?|(m & scope & Hm & Hs & Hx)]; [by left|]. right. exists m, scope. split; [done|]. split; [by eapply spent_still|done].
Qed.

Definition justified (meta : Meta) (spec : toolSpec) (a : toolArguments) w w' : Prop :=
  exists request e, grounds meta spec a request e w w'.

(** A download, without its record in the log: a request was run that touches only paths
    of the call. *)
Definition transferred (meta : Meta) (spec : toolSpec) (a : toolArguments) w w' : Prop :=
  ts_Name spec = "download" /\ grows w w' /\ exists request, ran meta request w w' /\ incl (commit_paths request) (argumentPaths a).

Implicit Types P : world S W F X -> world S W F X -> Prop.

(** Relations that steps before and after do not disturb. *)
Class Stable P := stable w1 w2 w3 w4 : still w1 w2 -> P w2 w3 -> still w3 w4 -> P w1 w4.

#[local] Instance justified_stable meta spec a : Stable (justified meta spec a).
Proof. intros w1 w2 w3 w4 Hb (request & e & Hg) Hf. exists request, e. by eapply grounds_still. Qed.
#[local] Instance transferred_stable meta spec a : Stable (transferred meta spec a).
Proof. intros w1 w2 w3 w4 Hb (Hn & Hg & request & Hr & Hi) Hf. split; [done|].
  split; [destruct Hb as (_ & _ & Hg1), Hf as (_ & _ & Hg2); unfold grows in *; by repeat (etransitivity; [eassumption|])|]. exists request. split; [by eapply ran_still|done]. Qed.

(** A handler that changes files only as [P] says. *)
Definition lawful {A} P (m : handler A) : Prop := forall w r w' q, m w = (r, w') -> changes w w' q -> P w w'.

Lemma lawful_reading {A} P (m : handler A) : reading m -> lawful P m.
Proof. intros Hm w r w' q E Hc. exfalso. apply Hc. specialize (Hm w q). by rewrite E in Hm. Qed.

Lemma quiet_reading {A} (m : handler A) : quiet m -> reading m.
Proof. intros Hm w. apply (Hm w). Qed.

Lemma lawful_quiet {A} P (m : handler A) : quiet m -> lawful P m.
Proof. intros Hm. by apply lawful_reading, quiet_reading. Qed.

Lemma reading_bind {A B} (m : handler A) (k : A -> handler B) : reading m -> (forall x, reading (k x)) -> reading (m ≫= k).
Proof.
  intros Hm Hk w q. unfold mbind, handler_bind. specialize (Hm w q). destruct (m w) as [[x|?] w1]; [|done]. cbn [snd] in Hm.
  by rewrite (Hk x w1 q).
Qed.

Lemma lawful_bind {A B} P `{!Stable P} (m : handler A) (k : A -> handler B) :
  quiet m -> (forall x, lawful P (k x)) -> lawful P (m ≫= k).
Proof.
  intros Hm Hk w r w' q E Hc. apply bind_inv in E as (r1 & w1 & E1 & E). apply (still_of _ _ _ _ Hm) in E1 as Hs.
  pose proof (changes_still _ _ _ _ Hs Hc) as Hc1. destruct r1 as [x|x]; [|destruct E as [_ ->]; by destruct (Hc1 eq_refl)].
  eapply stable; [exact Hs|by eapply Hk|reflexivity].
Qed.

Lemma lawful_last {A B} P `{!Stable P} (m : handler A) (k : A -> handler B) :
  lawful P m -> (forall x, quiet (k x)) -> lawful P (m ≫= k).
Proof.
  intros Hm Hk w r w' q E Hc. apply bind_inv in E as (r1 & w1 & E1 & E). assert (Hs : still w1 w').
  { destruct r1 as [x|x]; [by eapply still_of|by destruct E as [_ ->]]. }
  eapply stable; [reflexivity|eapply Hm; [exact E1|by eapply changes_before]|exact Hs].
Qed.

Lemma lawful_execute meta spec a request :
  ts_Name spec = "download" -> incl (commit_paths request) (argumentPaths a) ->
  lawful (transferred meta spec a) (execute meta request).
Proof. intros Hn Hi w r w' q E _. apply execute_Ok in E as (_ & _ & Hl & Hr). split; [done|]. split; [unfold grows; by rewrite Hl|]. by exists request. Qed.

(** ** The handlers *)

Ltac quiet_step :=
  first [apply quiet_ret | apply quiet_stop | apply quiet_refuse | apply quiet_record_status | apply quiet_newID | apply quiet_now
        | apply quiet_log_record | apply quiet_complete | apply quiet_prewrite | apply quiet_inspect
        | apply quiet_execute; reflexivity | apply quiet_bind; [|intros ?]
        | match goal with |- quiet (match ?x with _ => _ end) => destruct x end].
Ltac quiet := cbv zeta; repeat quiet_step.

Lemma quiet_confirm m e r : quiet (confirm m e r : handler unit).
Proof. unfold confirm. quiet. Qed.
Lemma quiet_finishExternalAudit tx e status : quiet (finishExternalAudit tx e status : handler _).
Proof. unfold finishExternalAudit. quiet. Qed.
Lemma quiet_externalFailure {A} tx e status text : quiet (externalFailure tx e status text : handler A).
Proof.
  unfold externalFailure. apply quiet_bind; [apply quiet_finishExternalAudit|]. intros r.
  apply quiet_bind; [apply quiet_confirm|]. intros x. apply quiet_stop.
Qed.
Ltac quiet_audit :=
  repeat first [apply quiet_confirm | apply quiet_finishExternalAudit | apply quiet_externalFailure | quiet_step].
Lemma quiet_readBinary meta path max : quiet (readBinary sv meta path max : handler _).
Proof. unfold readBinary. quiet. Qed.
Lemma quiet_outgoing meta path max tx e : quiet (outgoing sv meta path max tx e : handler _).
Proof. unfold outgoing. apply quiet_bind; [apply quiet_readBinary|]. intros [response body]. cbv zeta. quiet_audit. Qed.
Lemma quiet_network_call r : quiet (network_call r : handler _).
Proof. intros w. unfold network_call. destruct (network_execute _ _). split; [by intros q|]. split; [done|by unfold grows]. Qed.
Lemma quiet_remote_call r : quiet (remote_call r : handler _).
Proof. intros w. unfold remote_call. destruct (remote_execute _ _). split; [by intros q|]. split; [done|by unfold grows]. Qed.
Lemma quiet_exec_call r : quiet (exec_call r : handler _).
Proof. intros w. unfold exec_call. destruct (exec_do _ _). split; [by intros q|]. split; [done|by unfold grows]. Qed.

Ltac quiet_external :=
  repeat first [apply quiet_outgoing | apply quiet_network_call | apply quiet_remote_call | apply quiet_exec_call
               | apply quiet_confirm | apply quiet_finishExternalAudit | apply quiet_externalFailure | quiet_step].

Lemma quiet_callRemote meta spec a e tx : quiet (callRemote sv meta spec a e tx : handler _).
Proof. unfold callRemote. cbv zeta. quiet_external. Qed.
Lemma quiet_callExec meta spec a e tx : quiet (callExec sv ex meta spec a e tx : handler _).
Proof. unfold callExec. cbv zeta. quiet_external. Qed.

Lemma normal_nonempty p : normal p -> p <> [].
Proof. by intros Hp ->. Qed.

Lemma commit_paths_write id p data before max : normal p -> commit_paths (write_request id p data before max) = [p].
Proof.
  intros Hp%normal_nonempty. unfold commit_paths, default_path. cbn [rq_Operation rq_Path write_request].
  rewrite decide_False by discriminate. by rewrite decide_False.
Qed.

(** A download replaces the file that its path names. *)
Lemma lawful_finishDownload meta spec a e r limit tx :
  ts_Name spec = "download" -> argumentPaths a = [ta_Path a] -> normal (ta_Path a) ->
  lawful (transferred meta spec a) (finishDownload sv meta a e r limit tx : handler _).
Proof.
  intros Hn Hp Hno. unfold finishDownload. destruct (download_body r limit) as [body|]; [|apply lawful_quiet, quiet_externalFailure].
  apply lawful_bind; [apply _|quiet|intros id]. apply lawful_bind; [apply _|quiet|intros [current err]].
  apply lawful_bind; [apply _|quiet_external|intros before].
  do 2 (match goal with |- lawful _ (if ?b then _ else _) => destruct b; [apply lawful_quiet, quiet_externalFailure|] end).
  cbv zeta. apply lawful_bind; [apply _|quiet|intros id']. apply lawful_last; [apply _| |intros [written err']; quiet_external].
  apply lawful_execute; [done|]. rewrite Hp, commit_paths_write by done. apply incl_refl.
Qed.

Lemma lawful_callNetwork meta spec a e tx :
  (ts_Name spec = "download" -> argumentPaths a = [ta_Path a] /\ normal (ta_Path a)) ->
  lawful (transferred meta spec a) (callNetwork sv ex meta spec a e tx : handler _).
Proof.
  intros Hp. unfold callNetwork. destruct (_ !! _) as [profile|]; [|apply lawful_quiet, quiet_externalFailure].
  apply lawful_bind; [apply _|quiet|intros t]. destruct (negb _); [apply lawful_quiet, quiet_externalFailure|]. cbv zeta.
  apply lawful_bind; [apply _|quiet|intros id]. apply lawful_bind; [apply _|quiet_external|intros [body e']].
  apply lawful_bind; [apply _|apply quiet_network_call|intros [response err]].
  destruct err as [err|]; [apply lawful_quiet, quiet_externalFailure|]. destruct (decide (ts_Name spec = "download")) as [E|_].
  - destruct (Hp E). by apply lawful_finishDownload.
  - apply lawful_quiet. quiet_external.
Qed.

Lemma lawful_external_worker meta spec a e tx :
  (ts_Name spec = "download" -> argumentPaths a = [ta_Path a] /\ normal (ta_Path a)) ->
  lawful (transferred meta spec a)
    (if decide (ts_Worker spec = "network") then callNetwork sv ex meta spec a e tx
     else if decide (ts_Worker spec = "remote") then callRemote sv meta spec a e tx
     else if decide (ts_Worker spec = "exec") then callExec sv ex meta spec a e tx
     else externalFailure tx e "denied" "worker is unavailable" : handler reply).
Proof.
  intros Hp. repeat case_decide.
  - by apply lawful_callNetwork.
  - apply lawful_quiet, quiet_callRemote.
  - apply lawful_quiet, quiet_callExec.
  - apply lawful_quiet, quiet_externalFailure.
Qed.

Lemma lawful_callExternal meta spec a e :
  about_call meta spec e -> 2 <= riskLevel (ts_Risk spec) ->
  (ts_Name spec = "download" -> server_token sv = false /\ argumentPaths a = [ta_Path a] /\ normal (ta_Path a)) ->
  lawful (justified meta spec a) (callExternal sv ex meta spec a e : handler _).
Proof.
  intros He Hrisk Hd w r w' q E Hc. unfold callExternal, beginExternalAudit in E.
  rewrite (proj2 (Z.ltb_ge _ _) Hrisk) in E. apply bind_inv in E as (r1 & w1 & E1 & E).
  apply bind_inv in E1 as (r0 & w0 & E0 & E1). apply prewrite_Ok in E0 as (Hs & r2 & -> & Hp). injection E1 as <- <-.
  destruct r2 as [tx|err]; cbn [fmap result_fmap] in E; [|injection E as _ <-; by destruct (Hc (proj1 Hs q))].
  assert (Hl := lawful_external_worker meta spec a e (Some tx) (fun Hn => proj2 (Hd Hn)) _ _ _ _ E (changes_still _ _ _ _ Hs Hc)).
  destruct Hl as (Hn & Hg & request & Hr & Hi). destruct (Hd Hn) as (Hst & Hpa & Hno). exists request, e. split; [done| |by eapply ran_still|done|rewrite Hpa; by constructor|by left].
  eapply prewritten_grows; [|exact Hp|exact Hg]. by unfold grows.
Qed.

Lemma about_call_review meta spec e sha : about_call meta spec e -> about_call meta spec (attachReviewDigest sha e).
Proof.
  intros He. unfold attachReviewDigest. destruct (e_ParameterSummary e) as [s|]; [|done]. destruct (negb _); [done|].
  by destruct (decode_json _) as [[]|].
Qed.

Lemma lawful_commit_managed meta spec a request e result_of :
  about_call meta spec e -> server_token sv = false -> incl (commit_paths request) (argumentPaths a) -> Forall normal (argumentPaths a) ->
  lawful (justified meta spec a) (commit_managed meta request e result_of).
Proof.
  intros He Hst Hi Hno w r w' q E Hc. apply commit_managed_changes with (q := q) in E as [Hp Hr]; [|done].
  exists request, e. split; try done. by left.
Qed.

(** The manager of the server, where the server approves writes. *)
Definition manager_of (m : Manager) : Prop := server_token sv = true -> sv_approvals sv = Some m.

Lemma lawful_commit_approved m meta spec a workerID scope request e result_of :
  about_call meta spec e -> manager_of m -> incl (commit_paths request) (argumentPaths a) -> Forall normal (argumentPaths a) ->
  s_SessionID scope = m_SessionID meta -> s_Operation scope = ts_Name spec -> request_of_scope scope request ->
  lawful (justified meta spec a) (commit_approved m meta (ta_ApprovalToken a) workerID scope request e result_of).
Proof.
  intros He Hm Hi Hno Hss Ho Hq w r w' q E Hc. apply commit_approved_changes with (q := q) in E as (id & approver & Hp & Hr & Hs); [|done].
  exists request, (set_approval id approver e). split; try done. unfold approved_for. destruct (server_token sv) eqn:Hst; [|by left]. right. exists m, scope.
  split; [by apply Hm|done].
Qed.

Lemma quiet_review claims risk files e : quiet (review claims risk files e : handler _).
Proof. unfold review. quiet. Qed.

Lemma reading_dry_run m meta operation risk targets files failed e :
  reading (dry_run sv m meta operation risk targets files failed e : handler _).
Proof.
  unfold dry_run. cbv zeta. apply reading_bind; [apply quiet_reading; quiet|intros id]. apply reading_bind; [apply quiet_reading; quiet|intros t].
  apply reading_bind; [apply quiet_reading, quiet_review|intros [view sha]].
  apply reading_bind; [|intros x; apply quiet_reading; quiet]. destruct (server_token sv); [|apply quiet_reading; quiet].
  apply reading_bind; [|intros []; apply quiet_reading; quiet]. unfold register_challenge.
  apply reading_bind; [apply quiet_reading; quiet|]. intros t' w q. unfold with_store. by destruct (RegisterChallenge _ _ _ _).
Qed.

Lemma quiet_commit_review meta token operation risk targets files workerID e :
  quiet (commit_review meta token operation risk targets files workerID e : handler _).
Proof.
  unfold commit_review. cbv zeta. destruct (untrustedApprovalClaims token) as [c|]; [|apply quiet_refuse].
  apply quiet_bind; [apply quiet_review|]. intros [view sha]. apply quiet_ret.
Qed.

Lemma client_not_server : client_managed sv = true -> server_token sv = false.
Proof. unfold client_managed, server_token. rewrite bool_decide_eq_true, bool_decide_eq_false. by intros ->. Qed.

Lemma lawful_callLegacyWrite m meta spec a e :
  about_call meta spec e -> manager_of m -> ts_Name spec = "write_file" -> argumentPaths a = [ta_Path a] -> normal (ta_Path a) ->
  lawful (justified meta spec a) (callLegacyWrite sv m meta (ts_Risk spec) a e : handler _).
Proof.
  intros He Hm Hn Hp Hno. unfold callLegacyWrite. cbv zeta. apply lawful_bind; [apply _|quiet|intros id].
  apply lawful_bind; [apply _|quiet|intros [current err]]. apply lawful_bind; [apply _|quiet|intros before].
  destruct (negb (ta_Apply a)).
  { apply lawful_reading, reading_bind; [apply reading_dry_run|]. intros [[view sha] claims]. apply quiet_reading. quiet. }
  do 2 (match goal with |- lawful _ (if ?b then _ else _) => destruct b; [apply lawful_quiet, quiet_refuse|] end).
  assert (Hi : forall tokenID before, incl (commit_paths (write_request tokenID (ta_Path a) (ta_Content a) before (MaxWriteBytes (sv_policy sv))))
    (argumentPaths a)) by (intros; rewrite Hp, commit_paths_write by done; apply incl_refl).
  assert (Hno' : Forall normal (argumentPaths a)) by (rewrite Hp; by constructor).
  destruct (client_managed sv) eqn:Hc.
  - apply lawful_bind; [apply _|quiet|intros tokenID]. apply lawful_last; [apply _| |intros response; apply quiet_ret].
    by apply lawful_commit_managed; [|apply client_not_server|..].
  - apply lawful_bind; [apply _|apply quiet_commit_review|intros sha]. apply lawful_bind; [apply _|quiet|intros tokenID].
    apply lawful_last; [apply _| |intros response; apply quiet_ret].
    apply lawful_commit_approved; [by apply (about_call_review _ _ _ sha) in He|done|apply Hi|done|done|by rewrite Hn|left].
    split; [done|]. cbn [s_Targets approval_scope]. unfold default_path. cbn [rq_Path write_request].
    by rewrite decide_False by by apply normal_nonempty.
Qed.

Lemma lawful_callEdit m meta spec a e :
  about_call meta spec e -> manager_of m -> ts_Name spec = "edit" \/ ts_Name spec = "multi_edit" ->
  (forall token targets, incl (commit_paths (with_apply (workerRequest (sv_policy sv) (ts_Name spec) a token) true targets)) (argumentPaths a)) ->
  Forall normal (argumentPaths a) ->
  lawful (justified meta spec a) (callEdit sv m meta spec a e : handler _).
Proof.
  intros He Hm Hn Hp Hno. assert (Hw : ts_Name spec <> "write_file") by (by destruct Hn as [-> | ->]).
  unfold callEdit. cbv zeta. apply lawful_bind; [apply _|quiet|intros id]. apply lawful_bind; [apply _| |intros [preview err]].
  { apply quiet_execute. unfold isCommitRequest. cbn [rq_Operation rq_Apply with_apply workerRequest]. by rewrite bool_decide_eq_false_2. }
  apply lawful_bind; [apply _|quiet|intros _]. destruct (_ =? 0); [apply lawful_quiet, quiet_refuse|].
  destruct (negb (ta_Apply a)).
  { apply lawful_reading, reading_bind; [apply reading_dry_run|]. intros [[view sha] claims].
    destruct (aggregateApprovalHashes _). apply quiet_reading. quiet. }
  destruct (aggregateApprovalHashes _) as [before after]. destruct (client_managed sv) eqn:Hc.
  - apply lawful_bind; [apply _|quiet|intros tokenID]. apply lawful_last; [apply _| |intros response; apply quiet_ret].
    apply lawful_commit_managed; [done|by apply client_not_server|apply Hp|done].
  - apply lawful_bind; [apply _|apply quiet_commit_review|intros sha]. apply lawful_bind; [apply _|quiet|intros tokenID].
    apply lawful_last; [apply _| |intros response; apply quiet_ret].
    apply lawful_commit_approved; [by apply (about_call_review _ _ _ sha) in He|done|apply Hp|done|done|done|right].
    split; [exact Hn|done].
Qed.

(** ** Calls *)

(** What is known of a call whose parameters were accepted. *)
Record parsed (spec : toolSpec) (a : toolArguments) : Prop := {
  pa_registry : spec ∈ registry;
  pa_blocked : externalApprovalBlocked (sv_ApprovalMode sv) spec = false;
  pa_decoded : exists raw a0, Decode (ts_Decode spec) raw = Some a0 /\ validateAndNormalize (MaxWriteBytes (sv_policy sv)) spec a0 = Ok a
}.

Lemma parse_call_Ok meta params spec a raw : parse_call sv meta params = Ok (spec, a, raw) -> parsed spec a.
Proof.
  unfold parse_call. intros [_ Hx]%guard_Ok. destruct (decode_call params) as [[name raw0]|]; [|done]. apply guard_Ok in Hx as [_ Hx].
  destruct (find_tool _ name) as [spec0|] eqn:Ef; [|done]. apply guard_Ok in Hx as [Hb Hx].
  destruct (Decode _ raw0) as [a0|] eqn:Ed; [|done]. destruct (validateAndNormalize _ _ a0) as [a1|] eqn:Ev; [|done].
  injection Hx as <- <- <-. apply find_tool_Some in Ef as (Hin & _). split; [done|done|by exists raw0, a0].
Qed.

(** The tools by the worker that carries them out. *)
Lemma registry_cases spec :
  spec ∈ registry ->
  ts_Worker spec = "file" /\ ts_Approval spec = false /\
    (ts_Name spec <> "write_file" /\ ts_Name spec <> "edit" /\ ts_Name spec <> "multi_edit") \/
  ts_Worker spec = "file" /\ ts_Approval spec = true /\
    (ts_Name spec = "write_file" \/ ts_Name spec = "edit" \/ ts_Name spec = "multi_edit") \/
  ts_Worker spec <> "file" /\ 2 <= riskLevel (ts_Risk spec) /\
    (ts_Name spec = "download" -> ts_Worker spec = "network" /\ ts_Approval spec = true /\ ts_Decode spec = DecodeNetwork).
Proof.
  unfold registry. intros Hin. repeat (apply elem_of_cons in Hin as [->|Hin]; [|]); [..|by apply not_elem_of_nil in Hin].
  all: cbn [ts_Worker ts_Approval ts_Name ts_Risk ts_Decode file_reader file_writer].
  all: first [left; split; [reflexivity|split; [reflexivity|split; [discriminate|split; discriminate]]]
             |right; left; split; [reflexivity|split; [reflexivity|intuition reflexivity]]
             |right; right; split; [discriminate|split; [vm_compute; discriminate|intros E; first [discriminate E|split; [reflexivity|split; reflexivity]]]]].
Qed.

Lemma argumentPaths_single a : ta_Path a <> [] -> argumentPaths a = [ta_Path a].
Proof. intros Hp. unfold argumentPaths, empty_string. by rewrite bool_decide_eq_false_2. Qed.

(** The paths of a call that may write, all in normal form. *)
Lemma file_writer_paths spec a :
  parsed spec a -> ts_Worker spec = "file" -> ts_Name spec = "write_file" \/ ts_Name spec = "edit" \/ ts_Name spec = "multi_edit" ->
  Forall normal (argumentPaths a) /\
  argumentPaths a = if decide (ts_Name spec = "multi_edit") then ef_Path <$> ta_Files a else [ta_Path a].
Proof.
  intros [Hin _ (raw & a0 & Hd & Hv)] Hw Hn. apply Decode_shape in Hd as [_ _ Hp _ _ _ Hb]; [|done..].
  unfold validateAndNormalize in Hv. rewrite decide_True in Hv by done.
  apply validateFileArguments_Ok in Hv as [_ Hpath [Hps _] (Hl & _) _ _ _]. case_decide as E.
  - specialize (Hb (or_intror E)). destruct Hpath as [(Hpa & _)|(_ & Hne & _)]; [|done].
    specialize (Hp ltac:(by rewrite E)). rewrite Hp in Hl. apply nil_length_inv in Hl. rewrite Hl in Hps.
    unfold argumentPaths. rewrite Hpa, Hl. cbn. by split.
  - destruct Hpath as [(_ & _ & [Hx|Hx])|(Hne & _ & Hnorm)]; [by rewrite Hx in Hn; destruct Hn as [|[]]|done|].
    rewrite argumentPaths_single by done. split; [by constructor|done].
Qed.

Lemma download_paths spec a :
  parsed spec a -> ts_Worker spec = "network" -> ts_Name spec = "download" -> argumentPaths a = [ta_Path a] /\ normal (ta_Path a).
Proof.
  intros [Hin _ (raw & a0 & Hd & Hv)] Hw Hn. unfold validateAndNormalize in Hv. rewrite decide_False in Hv by by rewrite Hw.
  unfold validateExternalArguments in Hv. do 3 (apply guard_Ok in Hv as [_ Hv]). apply bind_Ok in Hv as (path & Hp & Hv).
  rewrite decide_True in Hv by done. unfold validateNetworkArguments in Hv. cbv zeta in Hv.
  apply guard_Ok in Hv as [_ Hv]. apply bind_Ok in Hv as (url & _ & Hv). apply guard_Ok in Hv as [_ Hv].
  apply bind_Ok in Hv as (headers & _ & Hv). apply guard_Ok in Hv as [_ Hv]. apply guard_Ok in Hv as [Hg Hv].
  apply guard_Ok in Hv as [_ [= <-]]. cbn [with_target ta_Path]. rewrite bool_decide_eq_true_2 in Hg by done.
  cbn [andb] in Hg. apply orb_false_iff in Hg as [Hg%bool_decide_eq_false _].
  rewrite argumentPaths_single by done. split; [done|]. destruct (decide (ta_Path a0 = [])); [by injection Hp as <-|].
  by apply normal_path_Ok in Hp.
Qed.

Lemma commit_paths_request token targets spec a :
  ts_Name spec = "write_file" \/ ts_Name spec = "edit" \/ ts_Name spec = "multi_edit" ->
  (ts_Name spec <> "multi_edit" -> ta_Path a <> []) ->
  commit_paths (with_apply (workerRequest (sv_policy sv) (ts_Name spec) a token) true targets) =
    if decide (ts_Name spec = "multi_edit") then ef_Path <$> ta_Files a else [ta_Path a].
Proof.
  intros _ Hp. unfold commit_paths, default_path. cbn [rq_Operation rq_Path rq_Files workerRequest with_apply].
  case_decide; [done|]. rewrite decide_False; auto.
Qed.

Lemma lawful_callWrite meta spec a e :
  about_call meta spec e -> parsed spec a -> ts_Worker spec = "file" -> ts_Approval spec = true ->
  lawful (justified meta spec a) (callWrite sv meta spec a e : handler _).
Proof.
  intros He Hp Hw Ha. assert (Hn : ts_Name spec = "write_file" \/ ts_Name spec = "edit" \/ ts_Name spec = "multi_edit").
  { destruct (registry_cases spec (pa_registry _ _ Hp)) as [(_ & ? & _)|[(_ & _ & ?)|(? & _)]]; [congruence|done|done]. }
  destruct (file_writer_paths _ _ Hp Hw Hn) as [Hno Hpaths].
  assert (Hk : forall m, manager_of m -> lawful (justified meta spec a)
    (if decide (ts_Name spec = "write_file") then callLegacyWrite sv m meta (ts_Risk spec) a e else callEdit sv m meta spec a e : handler _)).
  { intros m Hm. destruct (decide (ts_Name spec = "write_file")) as [E|E].
    - assert (Hpa : argumentPaths a = [ta_Path a]).
      { rewrite Hpaths. case_decide as E2; [rewrite E in E2; discriminate|reflexivity]. }
      rewrite Hpa in Hno. apply Forall_cons in Hno as [Hno _]. by apply lawful_callLegacyWrite.
    - apply lawful_callEdit; [assumption|assumption|destruct Hn; [contradiction|assumption]| |assumption].
      intros token targets. rewrite commit_paths_request, Hpaths; [apply incl_refl|done|]. intros E2. rewrite Hpaths in Hno.
      rewrite decide_False in Hno by done. apply Forall_cons in Hno as [Hno _]. by apply normal_nonempty. }
  unfold callWrite. destruct (sv_approvals sv) as [m|] eqn:Em; [apply Hk; intros _; exact Em|].
  destruct (server_token sv) eqn:Es; [apply lawful_quiet, quiet_refuse|]. apply Hk. intros Hc. congruence.
Qed.

Lemma quiet_callRead meta spec a e :
  ts_Name spec <> "write_file" -> ts_Name spec <> "edit" -> ts_Name spec <> "multi_edit" ->
  quiet (callRead sv meta spec a e : handler _).
Proof.
  intros Hw He Hm. unfold callRead. cbv zeta. apply quiet_bind; [quiet|intros id].
  apply quiet_bind; [|intros [response err]; quiet].
  apply quiet_execute. unfold isCommitRequest. cbn [rq_Operation rq_Apply workerRequest].
  rewrite !bool_decide_eq_false_2 by done. by rewrite andb_false_r.
Qed.

Lemma decide_paths_Allowed operation paths d :
  Allowed (decide_paths sv operation paths d) = true ->
  Forall (fun p => Allowed (Evaluate (sv_policy sv) operation p) = true) paths.
Proof.
  revert d. induction paths as [|p paths IH]; intros d; cbn [decide_paths]; [by constructor|].
  destruct (Allowed (Evaluate _ _ p)) eqn:E; cbn [negb]; [|by rewrite E]. intros Hx%IH. by constructor.
Qed.

Definition paths_allowed (spec : toolSpec) (a : toolArguments) : Prop :=
  Forall (fun p => Allowed (Evaluate (sv_policy sv) (policyOperation (ts_Name spec)) p) = true) (argumentPaths a).

(** The whole call: it changes files only after its parameters were accepted and every
    path was allowed. *)
Definition accounted (meta : Meta) (params : gostring) w w' : Prop :=
  exists spec a raw, parse_call sv meta params = Ok (spec, a, raw) /\ paths_allowed spec a /\
    justified (decided_meta sv meta spec (decision_of sv spec a)) spec a w w'.

Lemma lawful_tool meta spec a e :
  about_call meta spec e -> parsed spec a ->
  lawful (justified meta spec a)
    (if negb (bool_decide (ts_Worker spec = "file")) then callExternal sv ex meta spec a e
     else if ts_Approval spec then callWrite sv meta spec a e else callRead sv meta spec a e : handler _).
Proof.
  intros He Hp. destruct (registry_cases spec (pa_registry _ _ Hp)) as [(Hw & Ha & Hn)|[(Hw & Ha & Hn)|(Hw & Hr & Hd)]].
  - rewrite bool_decide_eq_true_2, Ha by done. destruct Hn as (? & ? & ?). by apply lawful_quiet, quiet_callRead.
  - rewrite bool_decide_eq_true_2, Ha by done. by apply lawful_callWrite.
  - rewrite bool_decide_eq_false_2 by done. apply lawful_callExternal; [done|done|]. intros E. destruct (Hd E) as (Hnet & Ha & _).
    destruct (download_paths _ _ Hp Hnet E). split; [|done]. pose proof (pa_blocked _ _ Hp) as Hb. unfold externalApprovalBlocked in Hb.
    rewrite Ha, (bool_decide_eq_false_2 (ts_Worker spec = "file")), !andb_true_r in Hb by done. exact Hb.
Qed.

Lemma lawful_call_handler meta params : lawful (accounted meta params) (call_handler sv ex meta params : handler _).
Proof.
  intros w r w' q E Hc. unfold call_handler in E. destruct (parse_call sv meta params) as [[[spec a] raw]|] eqn:Ep;
    [|injection E as _ <-; by destruct (Hc eq_refl)].
  cbv zeta in E. destruct (summarizeToolParameters _ raw) as [summary|]; [|injection E as _ <-; by destruct (Hc eq_refl)].
  apply bind_inv in E as (r1 & w1 & E1 & E). apply (still_of _ _ _ _ quiet_now) in E1 as Hs.
  pose proof (changes_still _ _ _ _ Hs Hc) as Hc1. destruct r1 as [t|?]; [|destruct E as [_ ->]; by destruct (Hc1 eq_refl)].
  destruct (Allowed (decision_of sv spec a)) eqn:Ha; cbn [negb] in E; [|by destruct (quiet_changes _ _ _ _ q (quiet_refuse _ _ _) E)].
  exists spec, a, raw. split; [done|]. split; [by apply decide_paths_Allowed in Ha|].
  eapply stable; [exact Hs| |reflexivity]. eapply lawful_tool; [|by eapply parse_call_Ok|exact E|exact Hc1]. by repeat split.
Qed.

(** What a token must have been spent for: a target of its scope is the file, with the
    digests of what stood there before the call and of what stands there after it. *)
Definition spent_for (meta : Meta) (spec : toolSpec) (a : toolArguments) (q : gostring) w w' : Prop :=
  exists m scope t data, sv_approvals sv = Some m /\ spent m (ta_ApprovalToken a) scope w w' /\
    s_SessionID scope = m_SessionID meta /\ s_Operation scope = ts_Name spec /\
    t ∈ s_Targets scope /\ NormalizePath (t_Path t) = Ok q /\
    t_BeforeSHA256 t = current_digest (file_content (w_files w) q) /\
    file_content (w_files w') q = Some data /\ t_AfterSHA256 t = digestBytes data.

Lemma request_of_scope_target scope meta request f q :
  request_of_scope scope request -> file_content (fs_execute meta request f).2 q <> file_content f q ->
  exists t data, t ∈ s_Targets scope /\ NormalizePath (t_Path t) = Ok q /\
    t_BeforeSHA256 t = current_digest (file_content f q) /\
    file_content (fs_execute meta request f).2 q = Some data /\ t_AfterSHA256 t = digestBytes data.
Proof.
  intros Hs Hc. apply fs_execute_confined in Hc as (_ & (p & Hp & Hpq) & data & Hd & Hx). destruct Hs as [[Ho Ht]|[Ho Ht]].
  - destruct Hx as [(_ & Hb & Hx)|[Hx _]]; [|rewrite Ho in Hx; by destruct Hx]. unfold commit_paths in Hp. rewrite Ho in Hp.
    rewrite decide_False in Hp by discriminate. apply list_elem_of_singleton in Hp as ->.
    exists (Approval.mkTarget (default_path request) (rq_ExpectedHash request) (digestBytes (rq_Data request))), data.
    rewrite Ht. split; [by left|]. split; [exact Hpq|]. by split_and!.
  - destruct Hx as [(Hx & _)|(_ & t & Hin & Hq & Hb & Hdig)]; [rewrite Hx in Ho; by destruct Ho|].
    rewrite Ht in Hin. apply list_elem_of_fmap in Hin as (t' & -> & Hin). by exists t', data.
Qed.

(** The grounds of a change of the file [q] by a call. *)
Definition changed_on (meta : Meta) (params : gostring) (q : gostring) w w' : Prop :=
  exists spec a raw, parse_call sv meta params = Ok (spec, a, raw) /\
    q ∈ argumentPaths a /\ paths_allowed spec a /\
    (exists e, about_call meta spec e /\ prewritten e w w') /\
    (server_token sv = true -> spent_for meta spec a q w w').

Lemma call_grounds meta params w r w' q :
  call sv ex meta params w = (r, w') -> file_content (w_files w') q <> file_content (w_files w) q -> changed_on meta params q w w'.
Proof.
  unfold call, reply_of, changed_on. destruct (call_handler sv ex meta params w) as [r0 w0] eqn:E. intros Hr Hc.
  assert (w0 = w') as -> by (destruct r0; by injection Hr as _ <-).
  destruct (lawful_call_handler _ _ _ _ _ _ E Hc) as (spec & a & raw & Hp & Ha & request & e & [He Hpre (f & Hf & Hf') Hi Hno Happ]).
  exists spec, a, raw. split; [done|]. rewrite <- Hf in Hc. pose proof (Hf' q) as Hq. rewrite Hq in Hc.
  pose proof (fs_execute_confined _ _ _ _ Hc) as (_ & (p & Hpin & Hpq) & _). split; [|split; [done|split; [by exists e|]]].
  - apply list_elem_of_In, Hi, list_elem_of_In in Hpin. rewrite Forall_forall in Hno. specialize (Hno p Hpin).
    unfold normal in Hno. rewrite Hpq in Hno. injection Hno as ->. done.
  - intros Hst. destruct Happ as [?|(m & scope & Hm & Hs & Hss & Ho & Hreq)]; [congruence|].
    destruct (request_of_scope_target _ _ _ _ _ Hreq Hc) as (t & content & Hin & Hn & Hb & Hdata & Hdig).
    exists m, scope, t, content. rewrite Hq, <- Hf. by repeat split.
Qed.
(** The only way a call changes a file. Its parameters were accepted, and the file is one
    of the paths its arguments name, all of which the policy allows for the tool. The
    event of the call was written to the log, whole, as the start of a transaction. Where
    the server approves writes, the token of the call was verified and spent, for the
    session of the call, its tool, and a target with the file's path and the digests of
    its old and its new content. *)
Theorem call_change_grounds meta params w r w' q :
  call sv ex meta params w = (r, w') -> file_content (w_files w') q <> file_content (w_files w) q ->
  exists spec a raw, parse_call sv meta params = Ok (spec, a, raw) /\
    q ∈ argumentPaths a /\ paths_allowed spec a /\
    (exists e, about_call meta spec e /\ prewritten e w w') /\
    (server_token sv = true -> spent_for meta spec a q w w').
Proof. apply call_grounds. Qed.
End safety.

(** ** Witness *)

(** A server that approves writes, over a workspace with one other file; the client sends
    a token for the content "hi" of the new file a/b. *)
Definition counting : Environment := {| random_hex n := itoa (Z.of_nat n); clock n := (Z.of_nat n + 1) * second |}.
Definition sample_policy : Policy.Config := Policy.mkConfig 100 100 100 [] true false false false false false.
Definition write_manager : Manager := mkManager (replicate 32 (byte_of 7)) false.
Definition sample_server : Server :=
  mkServer ApprovalModeServerToken "client" "user" "http" "w1" false "v1" false [] [] sample_policy (mkExecutors false false false)
    (Some write_manager).
Definition call_meta : Meta := mkMeta "r1" "b1" "s1" "q1" "p1" "ip" [] [] false.

Definition answer_sum (j : Job) (sum : gostring) : Response :=
  mkResponse (j_TokenID j) "w" [] [] [] 0 0 0 0 0 0 false None [] sum None [] [] None [] [] false.
Definition answers : WorkerProcess := {|
  process_answer j out :=
    match out with
    | Ok (_, ChecksumResponse sum) | Ok (_, WriteResponse sum) => (answer_sum j sum, None)
    | Ok (_, FailedResponse (WorkspaceFailed Workspace.ErrNotFound)) => (answer_sum j [], Some (mkError NotFoundCause []))
    | _ => (answer_sum j [], Some (plain_error []))
    end;
  job_error_text _ := []
|}.

(** The claims of the job of a request made at the given tick. *)
Definition claims_at (meta : Meta) (r : Request) (n : nat) : Capability.Claims :=
  let meta := @decided_meta sample_server meta (file_writer "write_file" DecodeWrite) (@Evaluate ascii_tables sample_policy "write_file" "a/b") in
  match @jobFromRequest toy_crypto path_json r meta "wp" with
  | Ok j => claims_of (@job_scope toy_crypto j) (rq_TokenID r) (@clock counting n + capabilityTTL)
  | Err _ => Capability.sample_claims
  end.
Definition checksum_claims (meta : Meta) (id : gostring) : Capability.Claims := claims_at meta (checksum_request id "a/b") 0.
Definition write_claims (meta : Meta) (id : gostring) : Capability.Claims := claims_at meta (write_request id "a/b" "hi" [] 100) 3.
(** The claims of the two jobs of the call of [meta], with the numbers of their capabilities. *)
Definition jobs_json (meta : Meta) (id1 id2 : gostring) : Json Capability.Claims := {|
  marshal c := if decide (c = checksum_claims meta id1) then Some ("1" : gostring)
               else if decide (c = write_claims meta id2) then Some ("2" : gostring) else None;
  decode_strict s := if decide (s = ("1" : gostring)) then Some (checksum_claims meta id1)
                     else if decide (s = ("2" : gostring)) then Some (write_claims meta id2) else None
|}.

Definition hi_target : Approval.Target := Approval.mkTarget "a/b" [] (@digestBytes toy_crypto "hi").
Definition approved_claims : Approval.Claims :=
  Approval.mkClaims "a1" "a1" "alice" "s1" "write_file" [hi_target] "a/b" (@digestBytes toy_crypto "hi") [] (@digestBytes toy_crypto "a/b") (200 * second).
Definition approved_json : Json Approval.Claims := one_json approved_claims.
Definition approved_token : gostring := @approval_token toy_crypto (m_key write_manager) "{}".

Definition write_inputs : Inputs := {|
  decode_pathInput _ := None; decode_readFileInput _ := None; decode_multiReadInput _ := None; decode_searchInput _ := None;
  decode_writeInput s := Some (mkWriteInput "a/./b" s [] true approved_token);
  decode_diffInput _ := None; decode_editInput _ := None; decode_multiEditInput _ := None; decode_networkInput _ := None;
  decode_remoteInput _ := None; decode_execInput _ := None
|}.
Definition write_call : CallJson := {| decode_call s := Some ("write_file" : gostring, s) |}.
Definition no_values : ValuesJson := {| decode_values _ := Some [] |}.
Definition no_hashes : HashesJson := {| marshal_hashes _ := [] |}.
Definition plain_reply : ReplyText := {| replace_host_paths s := s; response_json_length _ := 0 |}.
Definition nothing_external : ExternalExecutors unit := {|
  network_execute _ x := ((mkNetworkResponse [] [] 0 [] [] [] [] 0 [], Some (plain_error [])), x);
  remote_execute _ x := ((mkRemoteResponse [] [] [] 0 [] [] [] 0, Some (plain_error [])), x);
  exec_do _ x := ((exec_response [] [], Some (plain_error [])), x)
|}.
Definition no_profiles : ProfileJson := {| marshal_profile _ := []; marshal_strings _ := [] |}.
Definition no_job_inputs : InputJson := {| marshal_input _ := [] |}.
Definition no_exec_claims : Json CapabilityClaims := {| marshal _ := None; decode_strict _ := None |}.

Definition sample_executor : ProcessExecutor := mkProcessExecutor Capability.sample_key "wp".
Definition sample_site_executor (jobs : Json Capability.Claims) : ContextExecutor (site flaky) :=
  @process_executor latin1_xtext no_scripts star_regexp ascii_tables toy_crypto no_images path_json toy_ed jobs flaky
    (@flaky_fs toy_crypto) blind_scanning answers counting sample_executor.
Definition sample_site_laws (jobs : Json Capability.Claims) : @ExecutorLaws (site flaky) (sample_site_executor jobs) toy_crypto :=
  @process_executor_laws latin1_xtext no_scripts star_regexp ascii_tables toy_crypto no_images path_json toy_ed jobs flaky
    (@flaky_fs toy_crypto) blind_scanning answers counting sample_executor (@flaky_laws toy_crypto) blind_laws.

Definition start : world Memory (gostring * nat) (site flaky) unit :=
  mkWorld NewMemory (AuditLog.New true) ([], 1000%nat) (mkSite (mkFlaky sample_disk []) 0) tt 0.

Definition call_jobs : Json Capability.Claims := jobs_json call_meta "cap-1" "cap-2".
Definition sample_call :=
  @call Memory (gostring * nat) (site flaky) unit Memory_Store Memory_ChallengeStore disk_writer (sample_site_executor call_jobs) nothing_external
    pwd_tables ascii_tables small_json toy_crypto id_json approved_json counting toy_ed no_profiles no_job_inputs no_exec_claims table_netip table_url write_inputs write_call
    no_values decimal_time order_json no_hashes plain_reply no_images sample_server (mkExternals ∅ ∅ [] []) call_meta "hi" start.

Lemma call_change_grounds_witness :
  disk (st_files (w_files sample_call.2)) !! ("a/b" : gostring) = Some ("hi" : gostring) /\
  exists spec a, @spent_for Memory (gostring * nat) (site flaky) unit Memory_Store Memory_ChallengeStore (sample_site_executor call_jobs)
    ascii_tables toy_crypto approved_json sample_server (sample_site_laws call_jobs) call_meta spec a "a/b" start sample_call.2.
Proof.
  split; [vm_compute; reflexivity|].
  destruct (@call_change_grounds Memory (gostring * nat) (site flaky) unit Memory_Store Memory_ChallengeStore disk_writer
    (sample_site_executor call_jobs) nothing_external pwd_tables ascii_tables small_json toy_crypto id_json approved_json counting toy_ed no_profiles
    no_job_inputs no_exec_claims table_netip table_url write_inputs write_call no_values decimal_time order_json no_hashes plain_reply no_images sample_server
    (mkExternals ∅ ∅ [] []) (sample_site_laws call_jobs) disk_writer_laws call_meta "hi" start sample_call.1 sample_call.2 "a/b")
    as (spec & a & raw & _ & _ & _ & _ & Hs).
  - exact (surjective_pairing _).
  - vm_compute. discriminate.
  - exists spec, a. apply Hs. reflexivity.
Defined.
