(* ===== verification/HttpSafety.v ===== *)
(** * What a request over HTTP may change ([internal/gateway/gateway.go], [ServeHTTP])

    The grounds of GatewaySafety.v, carried to the edge of the server: the files of a workspace
    change only through an admitted, authenticated and, where it must be, signed request in a
    session of its principal, whose tool call has those grounds. *)
From S2P Require Import Prelude GoStrings Strconv Utf8 GoPath Base64 TextTypes Codec EditorConfig Edit Token Capability Replay TransportAuth Policy FileEdit FileJob FileRead FileWorker Image Redact Approval ApprovalView Sessions Lifecycle ExecProfile ExecCapability ExecServer NetPolicy Tools AuditLog Calls External Gateway FileExecutor GatewaySafety RateLimit Http Endpoint.
#[local] Open Scope Z_scope.

Section safety.
Context {S W F X : Type} `{Store S} `{ChallengeStore S} `{Writer W} `{ContextExecutor F} `{ExternalExecutors X}.
Context `{TextTables} `{UnicodeTables} `{JsonText} `{Crypto} `{EventJson} `{Json Approval.Claims} `{Environment}.
Context `{Ed25519} `{ProfileJson} `{InputJson} `{Json CapabilityClaims}.
Context `{Netip} `{NetURL} `{Inputs} `{CallJson} `{ValuesJson} `{TimeText} `{ViewJson} `{HashesJson} `{ReplyText} `{StdImages}.
Context `{HttpText} `{AnyJson} `{Json RpcRequest} `{Json InitializeParams} `{CancelJson}.
Context `{!ExecutorLaws F} `{!WriterLaws W}.
Variable (ep : Endpoint).
#[local] Set Default Proof Using "Type*".

End safety.

(** ** Witness *)

(** The server of the witness of GatewaySafety.v, for signed requests of principal p1, who has
    the session s1; the token in the call was approved for it. *)
Definition sample_session : mcpSession := mkSession "s1" "p1" "2025-03-26" 0 0 false.
Definition no_texts : HttpText := {|
  ParseMediaType s := Some (s, []); ParseFloat _ := None; SplitHostPort s := Some s; ParseIP _ := false
|}.
Definition plain_ids : AnyJson := {| decode_any s := Some (JString s, true); marshal_any v := match v with JString s => Some s | _ => None end |}.
Definition write_rpc : Json RpcRequest := {|
  marshal _ := None;
  decode_strict s := Some (mkRpc "2.0" "7" "tools/call" s)
|}.
Definition no_initialize : Json InitializeParams := {| marshal _ := None; decode_strict _ := None |}.
Definition no_cancel : CancelJson := {| decode_cancel _ := None |}.
Definition plain_header (name : gostring) : list gostring :=
  if decide (name = "Content-Type") then ["application/json"]
  else if decide (name = HeaderSessionID) then ["s1"]
  else if decide (name = HeaderProtocolVersion) then ["2025-03-26"]
  else if decide (name = "Authorization") then ["bEARER t"] else [].
Definition unsigned_request : TransportAuth.Request := TransportAuth.mkRequest "POST" (Some ("/mcp" : gostring)) plain_header.
Definition request_headers : Headers :=
  match @SignRequest toy_crypto (v_key sample_verifier) (Some unsigned_request) "hi" (10 * second) TransportAuth.sample_nonce with
  | Ok h => h
  | Err _ => mkHeaders [] [] []
  end.
Definition signed_header (name : gostring) : list gostring :=
  if decide (name = HeaderTimestamp) then [Timestamp request_headers]
  else if decide (name = HeaderNonce) then [Nonce request_headers]
  else if decide (name = HeaderSignature) then [Signature request_headers] else plain_header name.
Definition http_sample : http_request :=
  mkHTTP (TransportAuth.mkRequest "POST" (Some ("/mcp" : gostring)) signed_header) (Some ("hi" : gostring)) "ip".

Definition sample_endpoint : Endpoint :=
  mkEndpoint sample_server (mkExternals ∅ ∅ [] []) (Bearer (staticTokenValidator "t" "p1")) (Some sample_verifier)
    [] 1000 true false 1 1 (fun n => Some (itoa (Z.of_nat n))).
Definition sample_limiter : rateLimiter := newRateLimiterWithLimits (Float64.of_Z 10) 20 0 0.
Definition sample_gateway : gateway Memory (gostring * nat) (site flaky) unit :=
  mkGateway (Lifecycle.mkServer (mkStore defaultSessionTTL 10 {["s1" := sample_session]}) false 0 ∅ ∅ ∅) sample_limiter 0 0 start.
Definition http_meta : Meta := mkMeta "req-1" directBridgeID "s1" "7" "p1" "ip" [] [] false.
Definition http_jobs : Json Capability.Claims := jobs_json http_meta "cap-5" "cap-6".

Definition sample_served :=
  @ServeHTTP Memory (gostring * nat) (site flaky) unit Memory_Store Memory_ChallengeStore disk_writer (sample_site_executor http_jobs) nothing_external
    pwd_tables ascii_tables small_json toy_crypto id_json approved_json counting toy_ed no_profiles no_job_inputs no_exec_claims table_netip table_url write_inputs write_call
    no_values decimal_time order_json no_hashes plain_reply no_images no_texts plain_ids write_rpc no_initialize no_cancel sample_endpoint http_sample sample_gateway.

