(* ===== verification/HttpLifecycle.v ===== *)
(** * Handlers are threads of the server ([internal/gateway/gateway.go], [ServeHTTP])

    A handler of Endpoint.v runs on its own. Here it is shown to be one of the threads of
    Lifecycle.v: what it does to the server's state is a run of that thread's steps, from
    admission to return. So the theorems of Lifecycle.v about interleaved handlers are about
    these handlers, whose steps are the critical sections of the server. *)
From S2P Require Import Prelude GoStrings Utf8 Base64 TextTypes Token Replay TransportAuth Policy FileEdit FileJob FileRead FileWorker Image Redact Approval ApprovalView Sessions Lifecycle ExecProfile ExecCapability ExecServer NetPolicy Tools AuditLog Calls External Gateway FileExecutor GatewaySafety RateLimit Http Endpoint HttpSafety.
#[local] Open Scope Z_scope.

Section lifecycle.
Context {S W F X : Type} `{Store S} `{ChallengeStore S} `{Writer W} `{ContextExecutor F} `{ExternalExecutors X}.
Context `{TextTables} `{UnicodeTables} `{JsonText} `{Crypto} `{EventJson} `{Json Approval.Claims} `{Environment}.
Context `{Ed25519} `{ProfileJson} `{InputJson} `{Json CapabilityClaims}.
Context `{Netip} `{NetURL} `{Inputs} `{CallJson} `{ValuesJson} `{TimeText} `{ViewJson} `{HashesJson} `{ReplyText} `{StdImages}.
Context `{HttpText} `{AnyJson} `{Json RpcRequest} `{Json InitializeParams} `{CancelJson}.
Variable (ep : Endpoint) (n : Z).
Abbreviation http := (http S W F X).
Abbreviation gateway := (gateway S W F X).
#[local] Set Default Proof Using "All".

(** A step of the thread [n]. *)
Definition own (e : step_event) : Prop := event_thread e = Some n.

(** The action takes the thread [n] from the phase [p] to one that [Q] allows for its result. *)
Definition drives {A} (p : phase) (m : http A) (Q : result http_response A -> phase -> Prop) : Prop :=
  forall (g : gateway) σ, server σ = gw_life g -> threads σ !! n = Some p ->
    exists es p', Forall own es /\ Lifecycle.run es σ = Some (move σ n p' (gw_life (m g).2)) /\ Q (m g).1 p'.

Lemma drives_same {A} p (m : http A) (Q : result http_response A -> phase -> Prop) :
  (forall g, gw_life (m g).2 = gw_life g) -> (forall g, Q (m g).1 p) -> drives p m Q.
Proof.
  intros Hm HQ g σ Hs Hp. exists [], p. split; [constructor|split; [|apply HQ]]. rewrite Hm. cbn. f_equal. unfold move. rewrite <- Hs, insert_id by done. by destruct σ.
Qed.

Lemma drives_bind {A B} p (m : http A) (k : A -> http B) (R : result http_response A -> phase -> Prop) Q :
  drives p m R -> (forall a p', R (Ok a) p' -> drives p' (k a) Q) -> (forall e p', R (Err e) p' -> Q (Err e) p') -> drives p (m ≫= k) Q.
Proof.
  intros Hm Hk He g σ Hs Hp. destruct (Hm g σ Hs Hp) as (es & p1 & Ho & Hr & HR). unfold mbind, http_bind. destruct (m g) as [[a|e] g1]; cbn in *.
  - destruct (Hk a p1 HR g1 (move σ n p1 (gw_life g1))) as (es' & p2 & Ho' & Hr' & HQ); [done|cbn; by rewrite lookup_insert_eq|].
    exists (es ++ es'), p2. split; [by apply Forall_app|]. split; [|done]. rewrite Lifecycle.run_app, Hr. cbn. rewrite Hr'. unfold move. cbn. by rewrite insert_insert_eq.
  - exists es, p1. auto.
Qed.

(** A step of the thread. *)
Lemma drives_step {A} p (k : Lifecycle.Server -> A * Lifecycle.Server) e (Q : result http_response A -> phase -> Prop) :
  event_thread e = Some n ->
  (forall σ, exists p', thread_step e n p σ = Some (move σ n p' (k (server σ)).2) /\ Q (Ok (k (server σ)).1) p') ->
  drives p (on_life k) Q.
Proof.
  intros He Hk g σ Hs Hp. destruct (Hk σ) as (p' & Hstep & HQ). exists [e], p'. unfold on_life. rewrite <- Hs.
  destruct (k (server σ)) as [a s]. cbn in *. split; [by repeat constructor|]. split; [|done]. unfold Lifecycle.step. by rewrite He, Hp; cbn; rewrite Hstep.
Qed.

(** A step that does not change the server's state. *)
Lemma drives_skip {A} p p' e (m : http A) (Q : result http_response A -> phase -> Prop) :
  (forall g, gw_life (m g).2 = gw_life g) -> event_thread e = Some n ->
  (forall σ, thread_step e n p σ = Some (move σ n p' (server σ))) -> (forall g, Q (m g).1 p') -> drives p m Q.
Proof.
  intros Hm He Hstep HQ g σ Hs Hp. exists [e], p'. split; [by repeat constructor|]. split; [|done]. rewrite Hm, <- Hs. cbn. unfold Lifecycle.step.
  by rewrite He, Hp; cbn; rewrite Hstep.
Qed.

Lemma drives_mono {A} p (m : http A) (Q Q' : result http_response A -> phase -> Prop) :
  drives p m Q -> (forall r p', Q r p' -> Q' r p') -> drives p m Q'.
Proof. intros Hm HQ g σ Hs Hp. destruct (Hm g σ Hs Hp) as (es & p' & Ho & Hr & Hq). exists es, p'. auto. Qed.

(** ** Actions that leave the server's state alone *)

Definition inert {A} (m : http A) : Prop := forall g, gw_life (m g).2 = gw_life g.

Lemma inert_bind {A B} (m : http A) (k : A -> http B) : inert m -> (forall a, inert (k a)) -> inert (m ≫= k).
Proof.
  intros Hm Hk g. unfold mbind, http_bind. specialize (Hm g). destruct (m g) as [[a|] g1]; cbn in *; [|done]. by rewrite Hk.
Qed.
Lemma inert_ret {A} (a : A) : inert (mret a).
Proof. done. Qed.
Lemma inert_respond {A} r : inert (respond (A := A) r).
Proof. done. Qed.
Lemma inert_in_call {A} (m : handler S W F X A) : inert (in_call m).
Proof. intros g. unfold in_call. by destruct (m (gw_world g)). Qed.
Lemma inert_rate {A} (k : rateLimiter -> A * rateLimiter) : inert (on_rate k).
Proof. intros g. unfold on_rate. by destruct (k (gw_rate g)). Qed.
Lemma inert_get {A} (k : gateway -> A) : inert (get_field k).
Proof. done. Qed.

Create HintDb lifecycle.
#[local] Hint Resolve inert_ret inert_respond inert_in_call inert_rate inert_get : lifecycle.
Ltac inert_tac := repeat (intros; first [apply inert_bind | progress (eauto 2 with lifecycle) | progress case_match]).

Lemma inert_revoke p i : inert (revokeExecSession ep p i).
Proof. unfold revokeExecSession. inert_tac. Qed.
#[local] Hint Resolve inert_revoke : lifecycle.
Lemma inert_revoke_timeout p i : inert (revokeExecSessionWithTimeout ep p i).
Proof. unfold revokeExecSessionWithTimeout. inert_tac. Qed.
Lemma inert_revoke_all l : inert (revokeExecSessionsWithTimeout ep l).
Proof. induction l; cbn; inert_tac. Qed.
Lemma inert_clock : inert clock_now.
Proof. unfold clock_now. inert_tac. Qed.
#[local] Hint Resolve inert_revoke_timeout inert_revoke_all inert_clock : lifecycle.
Lemma inert_signature q body : inert (verifyRequestSignature ep q body).
Proof. unfold verifyRequestSignature. inert_tac. Qed.
Lemma inert_allow s : inert (allow_subject s).
Proof. unfold allow_subject. inert_tac. Qed.
#[local] Hint Resolve inert_signature inert_allow : lifecycle.
Lemma inert_nonpost q : inert (verifyNonPostRequest ep q).
Proof. unfold verifyNonPostRequest. inert_tac. Qed.
Lemma inert_dispatch meta r : rp_Method r <> "notifications/cancelled" -> inert (dispatch ep meta r).
Proof. unfold dispatch. inert_tac. done. Qed.

(** ** The phases of a handler *)

(** A handler that has nothing left to do, or may leave. *)
Definition idle (p : phase) : Prop := match p with Entered | Validated _ | Leaving => True | _ => False end.
Definition ends {A} (_ : result http_response A) (p : phase) : Prop := idle p.

Lemma drives_inert {A} p (m : http A) : inert m -> drives p m (fun _ p' => p' = p).
Proof. intros Hm. by apply drives_same. Qed.
Lemma inert_ends {A} p (m : http A) : inert m -> idle p -> drives p m ends.
Proof. intros Hm Hp. by apply drives_same. Qed.

(** An action that leaves the state alone, and then another. *)
Lemma drives_then {A B} p (m : http A) (k : A -> http B) Q :
  inert m -> (forall e, Q (Err e) p) -> (forall a, drives p (k a) Q) -> drives p (m ≫= k) Q.
Proof. intros Hm He Hk. eapply drives_bind; [by apply drives_inert| |]; cbn; intros ? ? ->; auto. Qed.

(** The jobs of evicted sessions are sent, whatever comes of them. *)
Definition returns {A} (m : http A) : Prop := forall g, is_ok (m g).1 = true.
Lemma returns_bind {A B} (m : http A) (k : A -> http B) : returns m -> (forall a, returns (k a)) -> returns (m ≫= k).
Proof.
  intros Hm Hk g. unfold mbind, http_bind. specialize (Hm g). destruct (m g) as [[a|] g1]; cbn in *; [|done]. apply Hk.
Qed.
Lemma returns_ret {A} (a : A) : returns (mret a).
Proof. done. Qed.
Lemma returns_newID prefix : returns (in_call (newID prefix)).
Proof. done. Qed.
Lemma returns_now : returns (in_call now).
Proof. done. Qed.
Lemma returns_exec j : returns (in_call (exec_call j)).
Proof. intros g. unfold in_call, exec_call. by destruct (exec_do _ _). Qed.
#[local] Hint Resolve returns_ret returns_newID returns_now returns_exec : lifecycle.
Ltac returns_tac := repeat (intros; first [apply returns_bind | progress (eauto 2 with lifecycle) | progress case_match]).
Lemma returns_revoke p i : returns (revokeExecSession ep p i).
Proof. unfold revokeExecSession. returns_tac. Qed.
#[local] Hint Resolve returns_revoke : lifecycle.
Lemma returns_revoke_timeout p i : returns (revokeExecSessionWithTimeout ep p i).
Proof. unfold revokeExecSessionWithTimeout. returns_tac. Qed.
Lemma returns_revoke_all l : returns (revokeExecSessionsWithTimeout ep l).
Proof. induction l; cbn; returns_tac. Qed.

Lemma drives_quietly {A B} p (m : http A) (k : A -> http B) Q :
  inert m -> returns m -> (forall a, drives p (k a) Q) -> drives p (m ≫= k) Q.
Proof.
  intros Hm Hr Hk. eapply (drives_bind _ _ _ (fun r p' => p' = p /\ is_ok r = true)); [apply drives_same; auto|..]; cbn.
  - by intros a p' [-> _].
  - by intros e p' [_ [=]].
Qed.

Lemma drives_evicted l : drives (evicting l Leaving) (evicted ep l) (fun r p => p = Leaving /\ is_ok r = true).
Proof.
  unfold evicted. destruct l as [|x l]; [by apply drives_same|]. apply drives_quietly; [apply inert_revoke_all|apply returns_revoke_all|].
  intros _. apply (drives_step _ _ (EEvict n)); [done|]. intros σ. by eexists.
Qed.

Lemma drives_evicted_then {B} l (k : http B) Q : drives Leaving k Q -> drives (evicting l Leaving) (evicted ep l ≫= fun _ => k) Q.
Proof. intros Hk. eapply drives_bind; [apply drives_evicted| |]; cbn; by intros ? ? [-> ?]. Qed.

(** The result of a store operation: the session, or what it evicts. *)
Definition found_or_evicts {A} (p : phase) (r : result http_response (result session_error A * list mcpSession)) (p' : phase) : Prop :=
  match r with
  | Ok (Ok _, gone) => gone = [] /\ p' = p
  | Ok (Err _, gone) => p' = evicting gone Leaving
  | Err _ => False
  end.

Lemma drives_found {A B} p p1 (m : http (result session_error A * list mcpSession)) (k : result session_error A -> http B) Q :
  drives p m (found_or_evicts p1) -> (forall a, drives p1 (k (Ok a)) Q) -> (forall e, drives Leaving (k (Err e)) Q) ->
  drives p ('(found, gone) ← m; _ ← evicted ep gone; k found) Q.
Proof.
  intros Hm Hok Herr. eapply drives_bind; [exact Hm| |done]. intros [[a|e] gone] p'; cbn.
  - intros [-> ->]. apply (drives_quietly p1 (evicted ep [])); done.
  - intros ->. by apply drives_evicted_then.
Qed.

(** ** The handlers *)

(** A session that is found evicts nothing. *)
Lemma validate_found id principal version t st x gone st' : validateAndTouch id principal version t st = (Ok x, gone, st') -> gone = [].
Proof. unfold validateAndTouch. repeat case_match; by intros [=]. Qed.
Lemma revoking_found id principal version t st x gone st' : markRevoking id principal version t st = (Ok x, gone, st') -> gone = [].
Proof. unfold markRevoking. repeat case_match; by intros [=]. Qed.

Lemma drives_validate meta version t :
  drives Entered (on_life (fun s =>
    let '(found, gone, st) := validateAndTouch (Lifecycle.SessionID meta) (Lifecycle.AuthPrincipal meta) version t (store s) in
    ((found, gone), Lifecycle.with_store s st))) (found_or_evicts (Validated meta)).
Proof.
  apply (drives_step _ _ (EValidate n meta version t)); [done|]. intros σ. cbn.
  destruct (validateAndTouch _ _ _ _ _) as [[[x|e] gone] st] eqn:E; eexists; (split; [reflexivity|]); cbn; [|done].
  by apply validate_found in E as ->.
Qed.

Lemma drives_revoking principal sessionID version t :
  drives Entered (on_life (fun s =>
    let '(found, gone, st) := markRevoking sessionID principal version t (store s) in
    ((found, gone), Lifecycle.with_store s st))) (found_or_evicts (Deleting principal sessionID)).
Proof.
  apply (drives_step _ _ (EDelete n principal sessionID version t)); [done|]. intros σ. cbn.
  destruct (markRevoking _ _ _ _ _) as [[[x|e] gone] st] eqn:E; eexists; (split; [reflexivity|]); cbn; [|done].
  by apply revoking_found in E as ->.
Qed.

(** The thread carries the identity of the call from the check of its session on. *)
Definition validated (q : http_request) (principal requestID : gostring) (r : RpcRequest) (res : result http_response (gostring * bool))
    (p : phase) : Prop :=
  match res with
  | Ok (sessionID, legacy) => p = Validated (activeKey (post_meta q principal requestID sessionID legacy r))
  | Err _ => idle p
  end.

Lemma drives_session q principal requestID r verified extra :
  drives Entered (post_session ep q principal r verified extra) (validated q principal requestID r).
Proof.
  unfold post_session. case_match.
  - case_match; [by apply drives_same|]. by eapply (drives_skip _ _ (ELegacy n _)).
  - case_match; [by apply drives_same|]. case_match; [|by apply drives_same].
    apply drives_then; [apply inert_clock|done|]. intros t.
    eapply (drives_found _ _ _ (fun found => match found with
                                             | Err e => respond (session_failure extra (rp_ID r) e)
                                             | Ok _ => mret (safeIdentity (Get q HeaderSessionID), false)
                                             end)).
    + apply (drives_validate (activeKey (post_meta q principal requestID (safeIdentity (Get q HeaderSessionID)) false r))).
    + intros x. by apply drives_same.
    + intros e. by apply drives_same.
Qed.

Lemma drives_cancel meta raw : drives (Validated (activeKey meta)) (cancelNotification meta raw) ends.
Proof.
  unfold cancelNotification. case_match; [by apply inert_ends|]. case_match; [|by apply inert_ends].
  case_match; [by apply inert_ends|]. eapply (drives_step _ _ (ENotify n _)); [done|]. intros σ. eexists. split; [reflexivity|done].
Qed.

Lemma drives_dispatch meta r : drives (Validated (activeKey meta)) (dispatch ep meta r) ends.
Proof.
  destruct (decide (rp_Method r = "notifications/cancelled")) as [Hm|Hm].
  - unfold dispatch. rewrite Hm. repeat (rewrite decide_False by discriminate). rewrite decide_True by done.
    eapply drives_bind; [apply drives_cancel| |done]. intros [] p Hp. by apply inert_ends.
  - by apply inert_ends; [apply inert_dispatch|].
Qed.

(** After an action that ends, the rest leaves the state alone. *)
Lemma drives_ends_then {A B} p (m : http A) (k : A -> http B) : drives p m ends -> (forall a, inert (k a)) -> drives p (m ≫= k) ends.
Proof. intros Hm Hk. eapply drives_bind; [exact Hm| |done]. intros a p' Hp. by apply inert_ends. Qed.

Lemma drives_make principal k :
  drives Entered (make_session ep principal k)
    (fun r p => match r with Ok (_, gone) => p = evicting gone Leaving | Err _ => idle p end).
Proof.
  intros g σ Hs Hp. unfold make_session. destruct (createSession _ _ _ _ _) as [[[r gone] s]|] eqn:E.
  - eexists [ECreate n (ep_session_bytes ep k) principal ProtocolVersion20250326 (clock k)], _. split; [by repeat constructor|]. split; [|reflexivity].
    cbn. unfold Lifecycle.step. cbn. rewrite Hp. cbn. by rewrite Hs, E.
  - exists [], Entered. split; [constructor|]. split; [|done]. cbn. f_equal. unfold move. rewrite <- Hs, insert_id by done. by destruct σ.
Qed.

Lemma drives_create principal : drives Entered (create_session ep principal) ends.
Proof.
  apply drives_then; [apply inert_in_call|done|]. intros k. eapply drives_bind; [apply drives_make| |done].
  intros [made gone] p' ->. apply drives_evicted_then. by apply inert_ends.
Qed.

Lemma returns_dispatch meta r : rp_Method r = "tools/call" -> returns (dispatch ep meta r).
Proof. intros E g. rewrite dispatch_call by done. by destruct (call _ _ _ _ _). Qed.

(** Where a handler is when its session is known. *)
Definition before_method (meta : Meta) (r : RpcRequest) : phase :=
  if decide (rp_Method r = "initialize") then Entered else Validated (activeKey meta).

Lemma before_method_idle meta r : idle (before_method meta r).
Proof. unfold before_method. by case_decide. Qed.

Lemma drives_post_method meta r extra : drives (before_method meta r) (post_method ep n meta r extra) ends.
Proof.
  unfold post_method, before_method. case_decide as Hi.
  - apply drives_then; [apply inert_dispatch; rewrite Hi; discriminate|done|]. intros outcome.
    destruct outcome; first [by apply inert_ends; inert_tac|apply drives_ends_then; [apply drives_create|inert_tac]].
  - case_decide as Hc; [|apply drives_ends_then; [apply drives_dispatch|inert_tac]]. destruct Hc as [Hc _].
    eapply (drives_bind _ _ _ (fun res p => exists ok : bool, res = Ok ok /\ p = if ok then Calling (activeKey meta) else Leaving)).
    + apply (drives_step _ _ (ERegister n)); [done|]. intros σ. cbn. destruct (registerActive _ _ _) as [ok s]. eexists. split; [reflexivity|].
      by exists ok.
    + intros ok p (ok' & [= <-] & ->). destruct ok; [|by apply inert_ends].
      apply drives_quietly; [apply inert_dispatch; rewrite Hc; discriminate|by apply returns_dispatch|]. intros outcome.
      apply drives_ends_then; [|inert_tac]. apply (drives_step _ _ (EReturn n)); [done|]. intros σ. eexists. by split.
    + by intros e p (ok & [=] & _).
Qed.

Lemma drives_post_limited meta r extra : drives (before_method meta r) (post_limited ep n meta r extra) ends.
Proof.
  pose proof (before_method_idle meta r) as Hidle. unfold post_limited. destruct (IsNotification r && _) eqn:Ec.
  - apply drives_then; [apply inert_get|done|]. intros k. case_match; [by apply inert_ends|].
    apply drives_ends_then; [|inert_tac]. unfold before_method. rewrite decide_False; [apply drives_dispatch|].
    apply andb_true_iff in Ec as [_ Ec]. apply bool_decide_eq_true in Ec. rewrite Ec. discriminate.
  - apply drives_then; [apply inert_allow|done|]. intros ok. case_match; [by apply inert_ends|].
    apply drives_then; [apply inert_get|done|]. intros k. case_match; [by apply inert_ends|]. apply drives_post_method.
Qed.

Lemma drives_post_request q principal r verified : drives Entered (post_request ep n q principal r verified) ends.
Proof.
  unfold post_request. apply drives_then; [apply inert_in_call|done|]. intros requestID. case_match; [by apply inert_ends|].
  eapply (drives_bind _ _ _ (fun res p => match res with
    | Ok (sessionID, legacy) => p = before_method (post_meta q principal requestID sessionID legacy r) r
    | Err _ => idle p end)).
  - unfold before_method. destruct (decide (rp_Method r = "initialize")).
    + repeat case_match; by apply drives_same.
    + eapply drives_mono; [apply (drives_session q principal requestID)|]. by intros [[]|].
  - intros [sessionID legacy] p ->. case_match; [|apply drives_post_limited].
    apply inert_ends; [inert_tac|apply before_method_idle].
  - done.
Qed.

Lemma drives_delete q principal : drives Entered (serveDelete ep q principal) ends.
Proof.
  unfold serveDelete. apply drives_then; [apply inert_nonpost|done|]. intros [].
  case_match; [|by apply inert_ends]. case_match; [by apply inert_ends|]. apply drives_then; [apply inert_clock|done|]. intros t.
  eapply drives_found; [apply drives_revoking| |].
  - intros x. eapply (drives_bind _ _ _ (fun res p => is_ok res = true /\ p = Terminated principal _)).
    + apply (drives_step _ _ (ETerminate n)); [done|]. intros σ. eexists. by split.
    + intros [] p [_ ->]. apply drives_quietly; [apply inert_revoke_timeout|apply returns_revoke_timeout|]. intros [].
      * cbn [negb]. apply drives_ends_then; [|inert_tac]. apply (drives_step _ _ (EDeleted n true)); [done|]. intros σ. eexists. by split.
      * by apply (drives_skip _ Leaving (EDeleted n false)).
    + by intros e p [[=] _].
  - intros e. apply inert_ends; [inert_tac|done].
Qed.

Lemma drives_admitted q : drives Entered (serve_admitted ep n q) ends.
Proof.
  unfold serve_admitted. case_match; [by apply inert_ends|]. case_match; [by apply inert_ends|].
  destruct (authenticate _ q) as [principal|]; [|by apply inert_ends]. case_decide; [|case_decide; [apply drives_delete|]].
  - unfold servePost. case_match; [by apply inert_ends|]. destruct (read_body _ q) as [body|]; [|by apply inert_ends].
    apply drives_then; [apply inert_signature|done|]. intros [v|]; [|by apply inert_ends].
    destruct (decode_strict body) as [r|]; [apply drives_post_request|by apply inert_ends].
  - apply inert_ends; [|done]. apply inert_bind; [apply inert_nonpost|done].
Qed.
End lifecycle.

Section serve.
Context {S W F X : Type} `{Store S} `{ChallengeStore S} `{Writer W} `{ContextExecutor F} `{ExternalExecutors X}.
Context `{TextTables} `{UnicodeTables} `{JsonText} `{Crypto} `{EventJson} `{Json Approval.Claims} `{Environment}.
Context `{Ed25519} `{ProfileJson} `{InputJson} `{Json CapabilityClaims}.
Context `{Netip} `{NetURL} `{Inputs} `{CallJson} `{ValuesJson} `{TimeText} `{ViewJson} `{HashesJson} `{ReplyText} `{StdImages}.
Context `{HttpText} `{AnyJson} `{Json RpcRequest} `{Json InitializeParams} `{CancelJson}.
Variable (ep : Endpoint).
#[local] Set Default Proof Using "All".

(** A thread that is idle leaves and finishes. *)
Lemma idle_finishes n p σ : threads σ !! n = Some p -> idle p ->
  exists es, Forall (own n) es /\ Lifecycle.run es σ = Some (mkSystem (finishRequest n (server σ)) (delete n (threads σ)) (revoker σ)).
Proof.
  intros Hp Hi.
  assert (Hf : forall σ', threads σ' !! n = Some Leaving ->
    Lifecycle.run [EFinish n] σ' = Some (mkSystem (finishRequest n (server σ')) (delete n (threads σ')) (revoker σ'))).
  { intros σ' Hl. cbn. unfold Lifecycle.step. cbn. by rewrite Hl. }
  assert (Hl : p = Leaving \/ Lifecycle.step (ELeave n) σ = Some (move σ n Leaving (server σ))).
  { unfold Lifecycle.step. cbn. rewrite Hp. destruct p; try done; auto. }
  destruct Hl as [->|Hl]; [exists [EFinish n]; split; [by repeat constructor|auto]|].
  exists [ELeave n; EFinish n]. split; [by repeat constructor|]. change (Lifecycle.step (ELeave n) σ ≫= Lifecycle.run [EFinish n] = 
    Some (mkSystem (finishRequest n (server σ)) (delete n (threads σ)) (revoker σ))). rewrite Hl. cbn [mbind option_bind].
  rewrite Hf by (cbn; by rewrite lookup_insert_eq). cbn. by rewrite delete_insert_eq.
Qed.

(** C18. What a handler does to the state of the server is a run of the steps of one thread, whose
    number is the one that admission gives it: from its admission to its end, after which the
    other threads are where they were. *)
Theorem ServeHTTP_lifecycle q (g : gateway S W F X) response g' σ :
  ServeHTTP ep q g = (response, g') -> server σ = gw_life g ->
  threads σ !! wrap_u64 (nextRequest (gw_life g) + 1) = None ->
  exists es, Forall (fun e => event_thread e = Some (wrap_u64 (nextRequest (gw_life g) + 1))) es /\
    Lifecycle.run (EAdmit :: es) σ = Some (mkSystem (gw_life g') (threads σ) (revoker σ)).
Proof.
  unfold ServeHTTP. intros E Hs Hn. cbn [Lifecycle.run]. unfold Lifecycle.step at 1. cbn [event_thread]. rewrite Hs.
  unfold admit_request in *. destruct (revoked (gw_life g)) eqn:Er.
  { injection E as <- <-. exists []. split; [constructor|]. cbn. rewrite <- Hs. by destruct σ. }
  set (k := wrap_u64 _) in *. set (s0 := Lifecycle.mkServer _ _ _ _ _ _) in *. set (g0 := with_life s0 g) in *.
  destruct (response_of _ g0) as [response0 g1] eqn:E1. injection E as _ <-.
  set (σ0 := mkSystem s0 (<[k := Entered]> (threads σ)) (revoker σ)).
  destruct (drives_admitted ep k q g0 σ0) as (es & p & Ho & Hr & Hi); [done|cbn; by rewrite lookup_insert_eq|].
  replace (gw_life (serve_admitted ep k q g0).2) with (gw_life g1) in Hr
    by (unfold response_of in E1; destruct (serve_admitted _ _ _ _) as [[]]; by injection E1 as _ <-).
  destruct (idle_finishes k p (move σ0 k p (gw_life g1))) as (es' & Ho' & Hr'); [cbn; by rewrite lookup_insert_eq|done|].
  exists (es ++ es'). split; [by apply Forall_app|]. cbn [mbind option_bind]. rewrite Lifecycle.run_app. fold σ0. rewrite Hr. cbn [mbind option_bind].
  rewrite Hr'. cbn. by rewrite !delete_insert_eq, delete_id.
Qed.

End serve.

(** ** Witness *)

(** The request of the witness of HttpSafety.v, which calls a tool in a session. *)
Definition sample_system : system := mkSystem (gw_life sample_gateway) ∅ None.

Lemma ServeHTTP_lifecycle_witness :
  exists es, Forall (fun e => event_thread e = Some 1) es /\
    Lifecycle.run (EAdmit :: es) sample_system = Some (mkSystem (gw_life sample_served.2) ∅ None).
Proof.
  apply (@ServeHTTP_lifecycle Memory (gostring * nat) (site flaky) unit Memory_Store Memory_ChallengeStore disk_writer
    (sample_site_executor http_jobs) nothing_external pwd_tables ascii_tables small_json toy_crypto id_json approved_json counting toy_ed no_profiles
    no_job_inputs no_exec_claims table_netip table_url write_inputs write_call no_values decimal_time order_json no_hashes plain_reply no_images
    no_texts plain_ids write_rpc no_initialize no_cancel sample_endpoint http_sample sample_gateway
    sample_served.1 sample_served.2 sample_system); [exact (surjective_pairing _)|reflexivity|reflexivity].
Defined.
